(* ===== verification/_CoqProject ===== *)
-Q . S2P
Prelude.v
Picosplay.v
Media.v
PicoFrames.v
Proto.v
Text.v
Reassembly.v
ReassemblyProofs.v
ReassemblyDelivery.v
ReassemblySafety.v
ReassemblyTheorems.v
Fragment.v
FragmentProofs.v
FragmentReads.v
FragmentHistory.v
FragmentProgress.v
FragmentTheorems.v
Ack.v
AckProofs.v
AckLoops.v
AckRepeat.v
AckExact.v
AckHistory.v
AckTheorems.v
AckContents.v
ExtraRepeat.v
MsgBuffer.v
MsgBufferTheorems.v
PublisherContext.v
Congestion.v
CongestionTheorems.v
Publisher.v
DatagramPublisher.v
DatagramObjects.v
DatagramProofs.v
DatagramSender.v
PublisherProofs.v
PublisherTheorems.v
StreamContext.v
MediaStream.v
Warp.v
ControlStream.v
Connection.v
ObjectConsumer.v
Subscription.v
ObjectSource.v
Node.v
Relay.v
ObjectConsumerTheorems.v
MediaStreamProofs.v
MediaStreamTheorems.v
ControlStreamTheorems.v
StreamReceive.v
EndToEnd.v
DatagramTheorems.v
WarpStream.v
WarpProofs.v
WarpWakeup.v
WarpSender.v
WarpReceive.v
WarpDelivery.v
WarpTheorems.v
SubscriptionTheorems.v
ApplicationTheorems.v
RelayTheorems.v
RelayCacheTheorems.v
