(* ===== verification/Prelude.v ===== *)
(** * quicrq: a verification development of the QUICR media transport library

    ** The program

    quicrq (src/lib, with the headers of src/include) transports medias over
    QUIC.  A media is a sequence of groups of objects, named by a url.  A node
    publishes medias, subscribes to them, or relays them.  A media travels on
    one control stream ("single stream"), on one unidirectional stream per
    group ("warp") or per object ("rush"), or as datagrams.

    Between the application that publishes and the one that subscribes:

<<
   object_source.c -> fragment.c cache -> fragment.c publisher
        -> quicrq.c (control stream, unidirectional streams or datagrams)
        -> picoquic -> quicrq.c (reception) -> relay.c -> another cache ...
        -> object_consumer.c -> reassembly.c -> application
>>

    and, on the side: proto.c (the coding of messages), congestion.c (what is
    skipped), the acknowledgements of datagrams (quicrq.c), and the control of
    the streams and of the connections (quicrq.c, proto.c).

    ** The conventions of the model

    - Machine integers are [Z] with their wrap-around written out ([+64],
      [-64], [u64], [s64], [u8]); bytes are in [list Z].
    - A C function is a function of the state that it reads to the state that
      it leaves and its result.  [option] is undefined behaviour: a null or
      dangling pointer followed, a copy outside of a buffer; theorems of safety
      say that the result is [Some].
    - A C structure is a record with the fields of the same names, prefixed;
      [_set_] functions are assignments.  Objects shared by several owners are
      kept in a store under their address or identity.
    - Loops that are not structural have fuel; the fuel of each caller is
      computed from the state (the size of the tree, the bytes that are left)
      and the theorems of safety, totality and termination prove that it is
      enough.
    - What is not in the repository is a parameter with its documented laws
      and a concrete instance: the splay trees (Picosplay.v: [Splay],
      [SplayLaws], [list_splay]), the varint and fixed width coding of picoquic
      (PicoFrames.v: [PicoFrames], [FramesLaws], [rfc9000_frames]), the
      allocator ([Allocator]), the queue of datagrams ([PicoQueue]), the buffers
      of the streams ([PicoStream]) and the identifiers of the streams
      ([PicoStreamIds]).
    - Log messages are left out.

    ** The files

    - Prelude.v, Media.v, Picosplay.v, PicoFrames.v: integers, lists,
      tactics; the abstract media, against which the components are specified;
      the interfaces of picoquic.
    - Proto.v: lib/proto.c, every encoder, decoder and reservation.  Round
      trips, safety of decoding on any bytes, reservations.
    - Text.v: the texts of urls for the logs.  What is written fits, ends, and
      reads back.
    - Reassembly.v: lib/reassembly.c.  ReassemblyProofs.v (packets and one
      object), ReassemblyDelivery.v (histories), ReassemblySafety.v (arbitrary
      fragments), ReassemblyTheorems.v.
    - Fragment.v: the cache of lib/fragment.c.  FragmentProofs.v (one
      proposal), FragmentReads.v (reading), FragmentHistory.v (sequences),
      FragmentProgress.v (the in-order pointer is as far as what arrived
      allows), FragmentTheorems.v: integrity, coverage, reading, purge, start
      point, and three inputs on which the code is wrong.
    - Ack.v: the acknowledgement of datagrams (lib/quicrq.c).  AckProofs.v
      (invariant), AckLoops.v, AckRepeat.v (splits), AckExact.v (what an
      acknowledgement does, as a specification without the loops of the code),
      AckHistory.v, AckTheorems.v: no fault in any history, exact effect of an
      acknowledgement, repeats; AckContents.v: the bytes that the repeats
      carry; ExtraRepeat.v: termination of the extra repeats, whose queue
      is not ordered by time.
    - MsgBuffer.v: message buffers (lib/quicrq.c).  MsgBufferTheorems.v: the
      cuts of the transport do not matter; round trip.
    - PublisherContext.v, Congestion.v (lib/congestion.c), Publisher.v and
      DatagramPublisher.v (lib/fragment.c).  CongestionTheorems.v: bounds, end
      of the congestion, the group mode against the sizes of the groups of the
      media.
      PublisherProofs.v, PublisherTheorems.v: the stream publisher gives the
      bytes of the media in order.  DatagramObjects.v (the tree of the objects
      being sent), DatagramProofs.v (one call), DatagramSender.v (any
      interleaving of arrivals, polls and reports), DatagramTheorems.v: what a
      sender of datagrams sends, and what its receiver is given.
    - StreamContext.v, MediaStream.v (a media on its control stream), Warp.v
      (unidirectional streams), ControlStream.v (the two state machines of a
      control stream), Connection.v (a connection and the callbacks of
      picoquic).  MediaStreamProofs.v, MediaStreamTheorems.v: a sender writes
      the messages of the media, whatever the order of arrivals and the
      buffers.  ControlStreamTheorems.v: a receiving stream is safe whatever
      the peer sends.  StreamReceive.v: what it does of the messages of a media.
    - WarpStream.v (the bytes of a unidirectional stream), WarpProofs.v (one
      call of picoquic for the data of a stream), WarpWakeup.v (the streams that
      a wake-up creates), WarpSender.v (any interleaving of arrivals, wake-ups
      and calls), WarpReceive.v (the bytes of one stream received),
      WarpDelivery.v (the deliveries of several streams to a connection),
      WarpTheorems.v: what a sender of the warp or rush mode writes, what its
      receiver is given, and inputs on which the code is wrong.
    - ObjectSource.v, ObjectConsumer.v: the sources and consumers of objects
      (lib/object_source.c, lib/object_consumer.c).  ObjectConsumerTheorems.v:
      deliveries in order, and with skips.  Subscription.v: the subscriptions of
      an application.  SubscriptionTheorems.v: from the call of the subscriber
      to the stream of the publisher, both in the states from which the
      theorems on the transfer of the media start.
    - Node.v: sources with the streams of all the connections, publication,
      creation and end of connections, periodic check (lib/quicrq.c,
      lib/proto.c, lib/fragment.c, lib/object_source.c).
    - Relay.v: lib/relay.c.
    - EndToEnd.v: from the cache of a sender to the application of a receiver.
      ApplicationTheorems.v: from the application that publishes to the one
      that subscribes.  RelayTheorems.v: a relay refines a sender, and chains
      of relays.  RelayCacheTheorems.v: the feed of the caches of a relay, against
      what arrived, and their deletion.

    ** The specifications and the refinements

    The abstract specification is a media (Media.v) and histories of its
    fragments.  A reassembly context refines the enumeration of the objects
    that are received without a gap; a cache refines the set of the bytes
    received; a publisher, and a sender on a stream, refine the enumeration of
    the media from its start; a sender of datagrams cuts the list of the
    fragments that arrived; a message buffer refines a parser of the whole
    stream; a sender of the warp or rush mode writes beginnings of the streams
    of the groups; a relay refines a sender in whose cache the media arrives.
    The compositions (EndToEnd.v, DatagramTheorems.v, WarpTheorems.v,
    ApplicationTheorems.v, RelayTheorems.v) use these refinements only.

    ** The hypotheses that matter

    Identifiers and sizes are below 2^62, the largest varint; in single stream
    mode they are below 2^14 where the reserved header is too small for more
    (a finding).  The theorems on deliveries assume that the allocations succeed and that
    the application accepts the objects; those on safety do not.  For
    datagrams, objects are not empty, identifiers and sizes are below 2^14
    (the header has a fixed room, a finding), and the first fragment that
    arrives is of the first object: the publisher drops the objects that are
    before the first one that it sent (a finding).  In the
    warp and rush modes, objects are not empty, groups have less than 64 objects
    (the room for the header of an object, a finding), the congestion control
    is off, a call has space for the header of an object (at least 21 bytes, a
    finding), and the transport does not deliver the end of an object joined
    with what follows it (a finding).  Fragments of a media may arrive in any order and be repeated; in the caches, fragments
    that overlap otherwise lose bytes (a finding), and are excluded where the
    bytes are counted.

    ** What is not modelled

    - The creation of the picoquic and TLS contexts and of the transport
      parameters ([quicrq_create], [quicrq_init_transport_parameters]), log
      messages, [quicrq_close_cnx], and the statistics on the end of the
      acknowledgements: they only call picoquic or print.
    - The unused coding of a timestamped header ([quicr_encode_object_header]).
    - The memory freed at the end of a context, except where it is used later.
    - The applications (src/src), the tests and their simulated sources
      (src/tests, src/UnitTest). *)

From stdpp Require Export base list gmap sorting.
From Stdlib Require Export ZArith Lia.

#[global] Open Scope Z_scope.

(** ** Machine integers

    [uint64_t] and [size_t] (64 bits on the supported platforms) are kept as
    [Z] with their wrap-around written out. *)

Declare Scope c_scope.
Delimit Scope c_scope with C.

Definition two64 : Z := 18446744073709551616.
Definition UINT64_MAX : Z := 18446744073709551615.
Definition two62 : Z := 4611686018427387904.

Definition u64 (z : Z) : Z := z mod two64.
Definition u8 (z : Z) : Z := z mod 256.

(** The value of a [uint64_t] difference once stored in an [int64_t]. *)
Definition s64 (z : Z) : Z :=
  let r := u64 z in if r <? 9223372036854775808 then r else r - two64.

Notation "a +64 b" := (u64 (a + b)) (at level 50, left associativity) : c_scope.
Notation "a -64 b" := (u64 (a - b)) (at level 50, left associativity) : c_scope.
#[global] Open Scope c_scope.

(** Group and object identifiers: they travel as 62-bit integers, so their
    differences and successors do not wrap. *)
Definition is_id (z : Z) : Prop := 0 <= z < two62.
(** Values whose 64-bit differences, read as signed, give their order. *)
Definition is_key (z : Z) : Prop := 0 <= z < 9223372036854775808.

(** C booleans: an [int] used as a flag. *)
Definition z_of_bool (b : bool) : Z := if b then 1 else 0.

(** Number of bytes of a buffer, as a [size_t]. *)
Definition blen {A} (l : list A) : Z := Z.of_nat (length l).

(** [memcpy] of [n] bytes from a pointer, and pointer advance. *)
Definition ztake {A} (n : Z) (l : list A) : list A := take (Z.to_nat n) l.
Definition zdrop {A} (n : Z) (l : list A) : list A := drop (Z.to_nat n) l.

(** The allocator: whether [malloc] of that many bytes succeeds. *)
Class Allocator := malloc_ok : Z -> bool.

(** The lexicographic order of (group, object) pairs that the code spells
    out as [a < c || (a == c && b < d)]. *)
Definition pair_ltb (g o g' o' : Z) : bool :=
  (g <? g') || ((g =? g') && (o <? o')).
Definition pair_leb (g o g' o' : Z) : bool :=
  (g <? g') || ((g =? g') && (o <=? o')).

(** ** Automation *)

(** Turn boolean comparisons in the context into propositions. *)
Ltac b2p :=
  repeat match goal with
  | H : _ && _ = true |- _ => apply andb_prop in H; destruct H
  | H : _ || _ = false |- _ => apply orb_false_elim in H; destruct H
  | H : _ || _ = true |- _ => apply orb_prop in H
  | H : _ && _ = false |- _ => apply andb_false_iff in H
  | H : negb _ = true |- _ => apply negb_true_iff in H
  | H : negb _ = false |- _ => apply negb_false_iff in H
  | H : (_ <? _) = true |- _ => apply Z.ltb_lt in H
  | H : (_ <? _) = false |- _ => apply Z.ltb_ge in H
  | H : (_ <=? _) = true |- _ => apply Z.leb_le in H
  | H : (_ <=? _) = false |- _ => apply Z.leb_gt in H
  | H : (_ =? _) = true |- _ => apply Z.eqb_eq in H
  | H : (_ =? _) = false |- _ => apply Z.eqb_neq in H
  | H : (_ >=? _) = true |- _ => rewrite Z.geb_leb in H
  | H : (_ >=? _) = false |- _ => rewrite Z.geb_leb in H
  | H : (_ >? _) = true |- _ => rewrite Z.gtb_ltb in H
  | H : (_ >? _) = false |- _ => rewrite Z.gtb_ltb in H
  end.

(** Case analysis on the innermost [if] or [match] of the goal. *)
Ltac dmatch :=
  match goal with
  | |- context [match ?x with _ => _ end] =>
      lazymatch x with
      | context [match _ with _ => _ end] => fail
      | _ => destruct x eqn:?
      end
  end.
(** The same in a hypothesis. *)
Ltac dmatch_in H :=
  match type of H with
  | context [match ?x with _ => _ end] =>
      lazymatch x with
      | context [match _ with _ => _ end] => fail
      | _ => destruct x eqn:?
      end
  end.

Create HintDb zrange.
Ltac u64_lia := unfold two64, two62, UINT64_MAX in *; lia.

(** ** Machine integer lemmas *)

Lemma u64_small z : 0 <= z < two64 -> u64 z = z.
Proof. intros. unfold u64. apply Z.mod_small. lia. Qed.

Lemma u64_range z : 0 <= u64 z < two64.
Proof. unfold u64. apply Z.mod_pos_bound. unfold two64. lia. Qed.
#[export] Hint Resolve u64_range : zrange.

Lemma u64_id z : u64 (u64 z) = u64 z.
Proof. apply u64_small, u64_range. Qed.

Lemma s64_small z :
  -9223372036854775808 <= z < 9223372036854775808 -> s64 z = z.
Proof.
  intros Hz. unfold s64, u64. destruct (Z_lt_le_dec z 0).
  - assert (z mod two64 = z + two64) as ->.
    { symmetry. apply Z.mod_unique with (q := -1); u64_lia. }
    destruct (Z.ltb_spec (z + two64) 9223372036854775808); u64_lia.
  - rewrite Z.mod_small by u64_lia.
    destruct (Z.ltb_spec z 9223372036854775808); lia.
Qed.

Lemma pair_ltb_spec g o g' o' :
  pair_ltb g o g' o' = true <-> g < g' \/ (g = g' /\ o < o').
Proof.
  unfold pair_ltb. rewrite orb_true_iff, andb_true_iff,
    !Z.ltb_lt, Z.eqb_eq. lia.
Qed.

Lemma pair_leb_spec g o g' o' :
  pair_leb g o g' o' = true <-> g < g' \/ (g = g' /\ o <= o').
Proof.
  unfold pair_leb. rewrite orb_true_iff, andb_true_iff,
    Z.ltb_lt, Z.leb_le, Z.eqb_eq. lia.
Qed.

Lemma pair_ltb_false g o g' o' :
  pair_ltb g o g' o' = false <-> g' < g \/ (g = g' /\ o' <= o).
Proof.
  rewrite <- not_true_iff_false, pair_ltb_spec. lia.
Qed.

(** ** Buffer lemmas *)

Lemma blen_nonneg {A} (l : list A) : 0 <= blen l.
Proof. unfold blen. lia. Qed.
#[export] Hint Resolve blen_nonneg : zrange.

Lemma blen_app {A} (l k : list A) : blen (l ++ k) = blen l + blen k.
Proof. unfold blen. rewrite length_app. lia. Qed.

Lemma blen_nil {A} : blen (@nil A) = 0.
Proof. reflexivity. Qed.

Lemma blen_cons {A} (x : A) l : blen (x :: l) = 1 + blen l.
Proof. unfold blen. cbn [length]. lia. Qed.

Lemma blen_zero_nil {A} (l : list A) : blen l = 0 -> l = [].
Proof. destruct l; [done |]. rewrite blen_cons. pose proof (blen_nonneg l). lia. Qed.

Lemma blen_ztake {A} n (l : list A) : 0 <= n <= blen l -> blen (ztake n l) = n.
Proof. unfold blen, ztake. intros. rewrite length_take. lia. Qed.

Lemma blen_zdrop {A} n (l : list A) : 0 <= n <= blen l -> blen (zdrop n l) = blen l - n.
Proof. unfold blen, zdrop. intros. rewrite length_drop. lia. Qed.

Lemma ztake_zdrop {A} n (l : list A) : ztake n l ++ zdrop n l = l.
Proof. apply take_drop. Qed.

Lemma ztake_all {A} (l : list A) : ztake (blen l) l = l.
Proof. unfold ztake, blen. apply take_ge. lia. Qed.

Lemma ztake_ge {A} n (l : list A) : blen l <= n -> ztake n l = l.
Proof. unfold ztake, blen. intros. apply take_ge. lia. Qed.

Lemma ztake_app {A} (l k : list A) : ztake (blen l) (l ++ k) = l.
Proof. unfold ztake, blen. rewrite Nat2Z.id. apply take_app_length. Qed.

Lemma zdrop_app {A} (l k : list A) : zdrop (blen l) (l ++ k) = k.
Proof. unfold zdrop, blen. rewrite Nat2Z.id. apply drop_app_length. Qed.

Lemma ztake_app' {A} n (l k : list A) : blen l = n -> ztake n (l ++ k) = l.
Proof. intros <-. apply ztake_app. Qed.

Lemma zdrop_app' {A} n (l k : list A) : blen l = n -> zdrop n (l ++ k) = k.
Proof. intros <-. apply zdrop_app. Qed.

Lemma zdrop_zdrop {A} n m (l : list A) : 0 <= n -> 0 <= m -> zdrop n (zdrop m l) = zdrop (m + n) l.
Proof. unfold zdrop. intros. rewrite drop_drop. f_equal. lia. Qed.

Lemma zdrop_0 {A} (l : list A) : zdrop 0 l = l.
Proof. reflexivity. Qed.

Lemma ztake_ztake {A} n m (l : list A) : 0 <= n <= m -> ztake n (ztake m l) = ztake n l.
Proof. unfold ztake. intros. rewrite take_take. f_equal. lia. Qed.

Lemma ztake_add {A} n m (l : list A) :
  0 <= n -> 0 <= m -> ztake (n + m) l = ztake n l ++ ztake m (zdrop n l).
Proof.
  unfold ztake, zdrop. intros. rewrite Z2Nat.inj_add by lia.
  rewrite take_take_drop. done.
Qed.

Lemma zdrop_ztake {A} n m (l : list A) :
  0 <= n -> 0 <= m -> zdrop n (ztake (n + m) l) = ztake m (zdrop n l).
Proof.
  unfold ztake, zdrop. intros. rewrite Z2Nat.inj_add by lia.
  rewrite skipn_firstn_comm. f_equal. lia.
Qed.

(** [slice l o n]: the [n] bytes of [l] from offset [o]. *)
Definition slice {A} (l : list A) (o n : Z) : list A := ztake n (zdrop o l).

Lemma blen_slice {A} (l : list A) o n :
  0 <= o -> 0 <= n -> o + n <= blen l -> blen (slice l o n) = n.
Proof.
  intros. unfold slice. apply blen_ztake. rewrite blen_zdrop by lia. lia.
Qed.

Lemma slice_all {A} (l : list A) : slice l 0 (blen l) = l.
Proof. unfold slice. rewrite zdrop_0. apply ztake_all. Qed.

Lemma slice_0 {A} (l : list A) o : slice l o 0 = [].
Proof. reflexivity. Qed.

Lemma ztake_slice {A} (l : list A) o n k : 0 <= k <= n -> ztake k (slice l o n) = slice l o k.
Proof. intros. unfold slice. by apply ztake_ztake. Qed.

Lemma zdrop_slice {A} (l : list A) o n k :
  0 <= o -> 0 <= k <= n -> zdrop k (slice l o n) = slice l (o + k) (n - k).
Proof.
  intros. unfold slice. replace n with (k + (n - k)) at 1 by lia.
  rewrite zdrop_ztake by lia. by rewrite zdrop_zdrop by lia.
Qed.

Lemma slice_slice {A} (l : list A) o n k j :
  0 <= o -> 0 <= k -> 0 <= j -> k + j <= n -> slice (slice l o n) k j = slice l (o + k) j.
Proof.
  intros. unfold slice at 1. rewrite zdrop_slice by lia. apply ztake_slice. lia.
Qed.

Lemma slice_app {A} (l : list A) o n m :
  0 <= o -> 0 <= n -> 0 <= m -> slice l o n ++ slice l (o + n) m = slice l o (n + m).
Proof.
  intros. unfold slice. rewrite ztake_add by lia. by rewrite zdrop_zdrop by lia.
Qed.

(** ** Lists *)

Lemma elem_of_snoc {A} (x y : A) l : x ∈ l ++ [y] <-> x ∈ l \/ x = y.
Proof. by rewrite elem_of_app, list_elem_of_singleton. Qed.
Lemma elem_of_middle {A} (x : A) l1 l2 : x ∈ l1 ++ x :: l2.
Proof. apply elem_of_app. right. by left. Qed.

Lemma StronglySorted_weaken {A} (R R' : relation A) l :
  (forall x y, R x y -> R' x y) -> StronglySorted R l -> StronglySorted R' l.
Proof.
  intros HR. induction 1 as [| x l Hs IH Hx]; constructor; [done |].
  eapply Forall_impl; [exact Hx |]. auto.
Qed.

Lemma elem_of_filter_bool {A} (p : A -> bool) l x : x ∈ List.filter p l <-> x ∈ l /\ p x = true.
Proof. by rewrite !list_elem_of_In, filter_In. Qed.

Lemma map_elem {A B} (f : A -> B) l x : x ∈ l -> f x ∈ map f l.
Proof. intros H%list_elem_of_In. by apply list_elem_of_In, in_map. Qed.
Lemma elem_map {A B} (f : A -> B) l y : y ∈ map f l -> exists x, x ∈ l /\ f x = y.
Proof. intros (x & E & H)%list_elem_of_In%in_map_iff. exists x. split; [by apply list_elem_of_In | done]. Qed.

(** The result of a run, from an observation of it. *)
Lemma option_map_some {A B} (g : A -> B) o y : option_map g o = Some y -> exists x, o = Some x /\ g x = y.
Proof. destruct o as [x |]; [| done]. intros [= <-]. by exists x. Qed.

Lemma NoDup_map_inj {A B} (f : A -> B) l x y :
  NoDup (map f l) -> x ∈ l -> y ∈ l -> f x = f y -> x = y.
Proof.
  induction l as [| z l IH]; [by intros _ ?%not_elem_of_nil |]. cbn. intros [Hz Hnd]%NoDup_cons.
  assert (forall w, w ∈ l -> f w = f z -> False) as Hno.
  { intros w Hw E. apply Hz. rewrite <- E. by apply map_elem. }
  intros [-> | Hx]%elem_of_cons [-> | Hy]%elem_of_cons E; [done | | | by apply IH].
  - by destruct (Hno y).
  - by destruct (Hno x).
Qed.

Lemma NoDup_map_filter {A B} (g : A -> B) (p : A -> bool) l :
  NoDup (map g l) -> NoDup (map g (List.filter p l)).
Proof.
  induction l as [| x l IH]; cbn; [done |]. intros [Hx Hnd]%NoDup_cons.
  destruct (p x); cbn; [| by apply IH]. constructor; [| by apply IH].
  rewrite list_elem_of_In, in_map_iff. intros (y & E & Hy). apply filter_In in Hy as [Hy _].
  apply Hx. rewrite list_elem_of_In, <- E. by apply in_map.
Qed.
