(* ===== verification/Picosplay.v ===== *)
(** * The picosplay interface

    [picosplay_tree_t] of the picoquic library is an intrusive splay tree
    ordered by a comparison callback.  Its code is not part of this
    repository, so the tree is a parameter: [Splay] lists the operations the
    library calls, [SplayLaws] the documented behaviour it relies on, stated
    over the in-order sequence of nodes.  [list_splay] is a concrete instance
    used to evaluate the models. *)

From S2P Require Import Prelude.

(** ** Reference operations on in-order sequences *)

Section reference.
Context {N : Type} (cmp : N -> N -> Z).

Fixpoint ordered_insert (n : N) (l : list N) : list N :=
  match l with
  | [] => [n]
  | x :: l' => if cmp n x <? 0 then n :: l else x :: ordered_insert n l'
  end.

Definition ordered_find (k : N) (l : list N) : option N :=
  List.find (fun x => cmp k x =? 0) l.

(** The last node that is not above the key. *)
Fixpoint ordered_find_previous (k : N) (l : list N) : option N :=
  match l with
  | [] => None
  | x :: l' =>
      if cmp k x <? 0 then None
      else match ordered_find_previous k l' with
           | Some y => Some y
           | None => Some x
           end
  end.

End reference.

(** Pointer operations: [n] is found by its identity, not by its key. *)
Section nodes.
Context {N : Type} `{!EqDecision N}.

Fixpoint node_next (n : N) (l : list N) : option N :=
  match l with
  | [] => None
  | x :: l' => if decide (x = n) then head l' else node_next n l'
  end.

Fixpoint node_previous (n : N) (l : list N) : option N :=
  match l with
  | [] => None
  | x :: l' =>
      match l' with
      | [] => None
      | y :: _ => if decide (y = n) then Some x else node_previous n l'
      end
  end.

Definition node_delete (n : N) (l : list N) : list N :=
  List.filter (fun x => negb (bool_decide (x = n))) l.

Lemma node_next_spec n l1 l2 : NoDup (l1 ++ n :: l2) -> node_next n (l1 ++ n :: l2) = head l2.
Proof.
  induction l1 as [| x l1 IH]; cbn; [by rewrite decide_True |].
  intros [Hx Hnd]%NoDup_cons. rewrite decide_False; [by apply IH |].
  intros ->. apply Hx, elem_of_app. right. by left.
Qed.

Lemma node_previous_none n x l : n ∉ l -> node_previous n (x :: l) = None.
Proof.
  revert x. induction l as [| y l IH]; intros x; [done |].
  intros [Hy Hl]%not_elem_of_cons. cbn [node_previous].
  rewrite decide_False by done. by apply IH.
Qed.

Lemma node_previous_spec n l1 l2 :
  NoDup (l1 ++ n :: l2) -> node_previous n (l1 ++ n :: l2) = last l1.
Proof.
  induction l1 as [| x l1 IH]; cbn [app node_previous].
  - intros [Hn _]%NoDup_cons. by apply node_previous_none.
  - intros [Hx Hnd]%NoDup_cons. destruct l1 as [| y l1]; cbn [app] in *.
    + by rewrite decide_True.
    + rewrite decide_False; [by rewrite IH |].
      intros ->. apply NoDup_cons in Hnd as [Hy _]. apply Hy, elem_of_app. right. by left.
Qed.

Lemma node_delete_spec n l1 l2 :
  NoDup (l1 ++ n :: l2) -> node_delete n (l1 ++ n :: l2) = l1 ++ l2.
Proof.
  unfold node_delete. intros Hnd. apply NoDup_app in Hnd as (_ & Hl1 & [Hn _]%NoDup_cons).
  assert (forall l, n ∉ l -> List.filter (fun x => negb (bool_decide (x = n))) l = l) as Hf.
  { induction l as [| x l IH]; cbn; [done |]. intros [? ?]%not_elem_of_cons.
    rewrite bool_decide_false by done. cbn. by rewrite IH. }
  rewrite List.filter_app. cbn. rewrite bool_decide_true by done. cbn. rewrite !Hf; [done | done |].
  intros Hin. apply (Hl1 n Hin). by left.
Qed.
End nodes.

(** ** The operations *)

(** [N] is the type of what the tree stores: the structure that embeds the
    [picosplay_node_t], which the create and value callbacks convert to and
    from its node. *)
Class Splay (N : Type) (cmp : N -> N -> Z) := {
  splay : Type;
  splay_empty : splay;                       (* picosplay_init_tree, picosplay_empty_tree *)
  splay_insert : splay -> N -> splay;        (* picosplay_insert *)
  splay_find : splay -> N -> option N;       (* picosplay_find *)
  splay_find_previous : splay -> N -> option N;  (* picosplay_find_previous *)
  splay_first : splay -> option N;           (* picosplay_first *)
  splay_next : splay -> N -> option N;       (* picosplay_next *)
  splay_previous : splay -> N -> option N;   (* picosplay_previous *)
  splay_delete : splay -> N -> splay;        (* picosplay_delete_hint *)
  splay_nodes : splay -> list N;             (* in-order traversal *)
}.
Arguments splay {N} cmp {_}.

(** What the library needs of a comparison callback, on the nodes [ok]. *)
Class CmpOrder {N} (cmp : N -> N -> Z) (ok : N -> Prop) : Prop := {
  cmp_refl : forall x, ok x -> cmp x x = 0;
  cmp_sym : forall x y, ok x -> ok y -> Z.sgn (cmp y x) = - Z.sgn (cmp x y);
  cmp_lt_trans : forall x y z, ok x -> ok y -> ok z ->
    cmp x y < 0 -> cmp y z <= 0 -> cmp x z < 0;
  cmp_eq_trans : forall x y z, ok x -> ok y -> ok z ->
    cmp x y = 0 -> cmp y z = 0 -> cmp x z = 0;
}.

Definition ordered {N} (cmp : N -> N -> Z) (l : list N) : Prop :=
  StronglySorted (fun x y => cmp x y < 0) l.

(** A tree whose nodes are distinct, in the domain of the comparison and
    sorted, which is what a sequence of legal operations produces.  Nodes
    with equal keys are allowed; [splay_wf] excludes them. *)
Definition splay_sorted {N} {cmp : N -> N -> Z} `{!Splay N cmp} (ok : N -> Prop)
    (t : splay cmp) : Prop :=
  Forall ok (splay_nodes t) /\ StronglySorted (fun x y => cmp x y <= 0) (splay_nodes t) /\
  NoDup (splay_nodes t).
Definition splay_wf {N} {cmp : N -> N -> Z} `{!Splay N cmp} (ok : N -> Prop)
    (t : splay cmp) : Prop :=
  Forall ok (splay_nodes t) /\ ordered cmp (splay_nodes t).

Class SplayLaws {N} {cmp : N -> N -> Z} (S : Splay N cmp) : Prop := {
  splay_nodes_empty : splay_nodes splay_empty = [];
  splay_nodes_insert : forall ok t n, CmpOrder cmp ok -> splay_sorted ok t -> ok n ->
    splay_nodes (splay_insert t n) = ordered_insert cmp n (splay_nodes t);
  splay_find_elem' : forall ok t k x, CmpOrder cmp ok -> splay_sorted ok t -> ok k ->
    splay_find t k = Some x -> x ∈ splay_nodes t /\ cmp k x = 0;
  splay_find_none' : forall ok t k, CmpOrder cmp ok -> splay_sorted ok t -> ok k ->
    splay_find t k = None -> Forall (fun x => cmp k x <> 0) (splay_nodes t);
  splay_find_previous_eq : forall ok t k, CmpOrder cmp ok -> splay_sorted ok t -> ok k ->
    Forall (fun x => cmp k x <> 0) (splay_nodes t) ->
    splay_find_previous t k = ordered_find_previous cmp k (splay_nodes t);
  splay_find_previous_le : forall ok t k x, CmpOrder cmp ok -> splay_sorted ok t -> ok k ->
    splay_find_previous t k = Some x -> x ∈ splay_nodes t /\ 0 <= cmp k x;
  splay_first_eq : forall t, splay_first t = head (splay_nodes t);
  splay_next_eq : forall t n l1 l2, splay_nodes t = l1 ++ n :: l2 -> NoDup (splay_nodes t) ->
    splay_next t n = head l2;
  splay_previous_eq : forall t n l1 l2, splay_nodes t = l1 ++ n :: l2 -> NoDup (splay_nodes t) ->
    splay_previous t n = last l1;
  splay_nodes_delete : forall t n l1 l2, splay_nodes t = l1 ++ n :: l2 -> NoDup (splay_nodes t) ->
    splay_nodes (splay_delete t n) = l1 ++ l2;
}.

(** ** The list instance *)

#[export] Instance list_splay {N} `{!EqDecision N} (cmp : N -> N -> Z) : Splay N cmp := {|
  splay := list N;
  splay_empty := [];
  splay_insert t n := ordered_insert cmp n t;
  splay_find t k := ordered_find cmp k t;
  splay_find_previous t k := ordered_find_previous cmp k t;
  splay_first t := head t;
  splay_next t n := node_next n t;
  splay_previous t n := node_previous n t;
  splay_delete t n := node_delete n t;
  splay_nodes t := t;
|}.

(** ** Lemmas on ordered sequences *)

Section order.
Context {N : Type} (cmp : N -> N -> Z) (ok : N -> Prop) `{!CmpOrder cmp ok}.

Lemma cmp_gt_lt x y : ok x -> ok y -> 0 < cmp x y -> cmp y x < 0.
Proof. intros Hx Hy H. pose proof (cmp_sym x y Hx Hy). lia. Qed.

Lemma cmp_lt_gt x y : ok x -> ok y -> cmp x y < 0 -> 0 < cmp y x.
Proof. intros Hx Hy H. pose proof (cmp_sym x y Hx Hy). lia. Qed.

Lemma cmp_eq_sym x y : ok x -> ok y -> cmp x y = 0 -> cmp y x = 0.
Proof. intros Hx Hy H. pose proof (cmp_sym x y Hx Hy). lia. Qed.

Lemma elem_of_ordered_insert n l x :
  x ∈ ordered_insert cmp n l <-> x = n \/ x ∈ l.
Proof.
  induction l as [| y l IH]; cbn.
  - rewrite list_elem_of_singleton, elem_of_nil. tauto.
  - destruct (cmp n y <? 0); rewrite !elem_of_cons; [done |]. rewrite IH. tauto.
Qed.

Lemma Forall_ordered_insert (P : N -> Prop) n l :
  P n -> Forall P l -> Forall P (ordered_insert cmp n l).
Proof.
  rewrite !Forall_forall. intros Hn Hl x.
  rewrite elem_of_ordered_insert. intros [-> | ?]; auto.
Qed.

Lemma ordered_find_None n l :
  ordered_find cmp n l = None <-> Forall (fun x => cmp n x <> 0) l.
Proof.
  unfold ordered_find. split.
  - intros H. apply Forall_forall. intros x Hx Hc.
    apply list_elem_of_In, (find_none _ _ H) in Hx. b2p. done.
  - intros H. destruct (List.find _ l) eqn:E; [| done].
    apply find_some in E as [Hin Hc]. b2p.
    rewrite Forall_forall in H. exfalso. apply (H n0); [by apply list_elem_of_In | done].
Qed.

Lemma ordered_find_Some n l x :
  ordered_find cmp n l = Some x -> x ∈ l /\ cmp n x = 0.
Proof.
  intros [Hin Hc]%find_some. rewrite list_elem_of_In. b2p. done.
Qed.

Lemma ordered_insert_ordered n l :
  ok n -> Forall ok l -> ordered cmp l -> ordered_find cmp n l = None ->
  ordered cmp (ordered_insert cmp n l).
Proof.
  intros Hn Hok Hs Hf. apply ordered_find_None in Hf. unfold ordered in *.
  induction Hs as [| x l Hs IH Hx]; cbn; [repeat constructor |].
  apply Forall_cons in Hok as [Hokx Hokl]. apply Forall_cons in Hf as [Hfx Hfl].
  destruct (Z.ltb_spec (cmp n x) 0).
  - constructor; [by constructor |]. constructor; [done |].
    rewrite Forall_forall in Hx |- *. intros y Hy.
    apply (cmp_lt_trans n x y); auto; [by eapply Forall_forall in Hy; [| exact Hokl] |].
    specialize (Hx y Hy). lia.
  - constructor; [by apply IH |].
    apply Forall_ordered_insert; [| done]. apply cmp_gt_lt; auto. lia.
Qed.

Lemma ordered_remove l1 n l2 : ordered cmp (l1 ++ n :: l2) -> ordered cmp (l1 ++ l2).
Proof.
  unfold ordered. rewrite !StronglySorted_app. intros (Hx & H1 & [_ H2]%StronglySorted_cons).
  split_and!; try done. intros x y Hin Hy. apply Hx; [done |]. by right.
Qed.

Lemma ordered_NoDup l : Forall ok l -> ordered cmp l -> NoDup l.
Proof.
  intros Hok Hs. unfold ordered in Hs. induction Hs as [| x l Hs IH Hx]; [constructor |].
  apply Forall_cons in Hok as [Hokx Hokl]. constructor; [| by apply IH].
  intros Hin. eapply Forall_forall in Hin; [| exact Hx]. cbn in Hin.
  rewrite cmp_refl in Hin by done. lia.
Qed.

(** Sorted sequences have one node per key. *)
Lemma ordered_unique l x y :
  Forall ok l -> ordered cmp l -> x ∈ l -> y ∈ l -> cmp x y = 0 -> x = y.
Proof.
  intros Hok Hs Hx Hy Hc. unfold ordered in Hs.
  induction Hs as [| z l Hs IH Hz]; [by apply not_elem_of_nil in Hx |].
  apply Forall_cons in Hok as [Hokz Hokl]. rewrite Forall_forall in Hz, Hokl.
  apply elem_of_cons in Hx as [-> | Hx]; apply elem_of_cons in Hy as [-> | Hy]; try done.
  - specialize (Hz y Hy). lia.
  - specialize (Hz x Hx). apply cmp_lt_gt in Hz; auto. lia.
  - apply IH; [by apply Forall_forall | done | done].
Qed.

Lemma ordered_find_is_Some n l x :
  Forall ok l -> ok n -> ordered cmp l -> x ∈ l -> cmp n x = 0 ->
  ordered_find cmp n l = Some x.
Proof.
  intros Hok Hn Hs Hx Hc. destruct (ordered_find cmp n l) as [y |] eqn:E.
  - apply ordered_find_Some in E as [Hy Hcy]. f_equal.
    rewrite Forall_forall in Hok.
    apply (ordered_unique l y x); auto; [by apply Forall_forall |].
    apply (cmp_eq_trans y n x); auto. apply cmp_eq_sym; auto.
  - apply ordered_find_None in E. rewrite Forall_forall in E. by apply E in Hx.
Qed.
End order.

#[export] Instance list_splay_laws {N} `{!EqDecision N} (cmp : N -> N -> Z) :
  SplayLaws (list_splay cmp).
Proof.
  split; cbn; try done.
  - intros ok t k x _ _ _. by apply ordered_find_Some.
  - intros ok t k _ _ _. by apply ordered_find_None.
  - intros ok t k x _ _ _. induction t as [| y t IH]; cbn; [done |].
    destruct (Z.ltb_spec (cmp k y) 0); [done |]. rewrite elem_of_cons.
    destruct (ordered_find_previous cmp k t) as [z |]; [| by intros [= ->]; auto].
    intros [= ->]. destruct IH; auto.
  - intros t n l1 l2 ->. apply node_next_spec.
  - intros t n l1 l2 ->. apply node_previous_spec.
  - intros t n l1 l2 ->. apply node_delete_spec.
Qed.

(** ** Consequences for any lawful tree *)

Section laws.
Context {N : Type} {cmp : N -> N -> Z} `{SL : SplayLaws N cmp}.
Context (ok : N -> Prop) {CO : CmpOrder cmp ok}.

Lemma splay_wf_sorted t : splay_wf ok t -> splay_sorted ok t.
Proof.
  intros [Hok Hs]. split_and!; [done | | by apply (ordered_NoDup cmp ok)].
  eapply StronglySorted_weaken; [| exact Hs]. cbn. intros. lia.
Qed.
Hint Resolve splay_wf_sorted : core.

Lemma splay_wf_empty : splay_wf ok splay_empty.
Proof. unfold splay_wf, ordered. rewrite splay_nodes_empty. split; constructor. Qed.

Lemma splay_find_elem t k x :
  splay_wf ok t -> ok k -> splay_find t k = Some x -> x ∈ splay_nodes t /\ cmp k x = 0.
Proof. intros Hwf Hk. apply (splay_find_elem' ok); auto. Qed.

Lemma splay_find_None t k :
  splay_wf ok t -> ok k ->
  splay_find t k = None <-> forall x, x ∈ splay_nodes t -> cmp k x <> 0.
Proof.
  intros Hwf Hk. rewrite <- Forall_forall. split; [by apply (splay_find_none' ok); auto |].
  intros Hall. destruct (splay_find t k) as [x |] eqn:E; [| done].
  apply splay_find_elem in E as [Hx Hc]; [| done | done].
  by eapply Forall_forall in Hx; [| exact Hall].
Qed.

Lemma splay_find_iff t k x :
  splay_wf ok t -> ok k ->
  splay_find t k = Some x <-> x ∈ splay_nodes t /\ cmp k x = 0.
Proof.
  intros Hwf Hk. split; [by apply splay_find_elem |]. intros [Hx Hc].
  destruct (splay_find t k) as [y |] eqn:E.
  - apply splay_find_elem in E as [Hy Hcy]; [| done | done]. f_equal.
    destruct Hwf as [Hok Hs]. pose proof (proj1 (Forall_forall _ _) Hok) as Hok'.
    apply (ordered_unique cmp ok (splay_nodes t)); auto.
    apply (cmp_eq_trans y k x); auto. apply (cmp_eq_sym cmp ok); auto.
  - exfalso. by eapply splay_find_None in E.
Qed.

Lemma splay_wf_insert t n :
  splay_wf ok t -> ok n -> splay_find t n = None -> splay_wf ok (splay_insert t n).
Proof.
  intros Hwf Hn Hf. pose proof Hwf as [Hok Hs]. unfold splay_wf.
  rewrite (splay_nodes_insert ok) by auto. split.
  - by apply Forall_ordered_insert.
  - apply (ordered_insert_ordered cmp ok); [done | done | done |].
    apply ordered_find_None, Forall_forall. by apply splay_find_None.
Qed.

Lemma splay_wf_delete t n :
  splay_wf ok t -> n ∈ splay_nodes t -> splay_wf ok (splay_delete t n).
Proof.
  intros Hwf Hn. pose proof (splay_wf_sorted t Hwf) as (_ & _ & Hnd).
  destruct Hwf as [Hok Hs]. unfold splay_wf.
  apply list_elem_of_split in Hn as (l1 & l2 & E).
  rewrite (splay_nodes_delete t n l1 l2) by done. rewrite E in Hok, Hs. split.
  - apply Forall_app in Hok as [H1 [_ H2]%Forall_cons]. by apply Forall_app.
  - by eapply ordered_remove.
Qed.

Lemma elem_of_splay_insert_sorted t n x :
  splay_sorted ok t -> ok n -> x ∈ splay_nodes (splay_insert t n) <-> x = n \/ x ∈ splay_nodes t.
Proof.
  intros Hwf Hn. rewrite (splay_nodes_insert ok) by done. apply elem_of_ordered_insert.
Qed.

Lemma elem_of_splay_insert t n x :
  splay_wf ok t -> ok n -> splay_find t n = None ->
  x ∈ splay_nodes (splay_insert t n) <-> x = n \/ x ∈ splay_nodes t.
Proof. intros Hwf Hn _. apply elem_of_splay_insert_sorted; auto. Qed.

Lemma elem_of_splay_delete_nodup t n x :
  NoDup (splay_nodes t) -> n ∈ splay_nodes t ->
  x ∈ splay_nodes (splay_delete t n) <-> x ∈ splay_nodes t /\ x <> n.
Proof.
  intros Hnd Hn. apply list_elem_of_split in Hn as (l1 & l2 & E).
  rewrite (splay_nodes_delete t n l1 l2) by done. rewrite E in Hnd |- *.
  apply NoDup_app in Hnd as (_ & Hl1 & [Hn _]%NoDup_cons).
  rewrite !elem_of_app, elem_of_cons. split.
  - intros [Hx | Hx]; (split; [tauto |]); intros ->; [| done]. apply (Hl1 n Hx). by left.
  - tauto.
Qed.

Lemma elem_of_splay_delete t n x :
  splay_wf ok t -> n ∈ splay_nodes t ->
  x ∈ splay_nodes (splay_delete t n) <-> x ∈ splay_nodes t /\ x <> n.
Proof.
  intros Hwf Hn. apply elem_of_splay_delete_nodup; [| done]. by apply splay_wf_sorted.
Qed.

(** Deleting a node makes the tree smaller: loops that delete terminate. *)
Lemma splay_delete_length t n :
  NoDup (splay_nodes t) -> n ∈ splay_nodes t ->
  length (splay_nodes t) = S (length (splay_nodes (splay_delete t n))).
Proof.
  intros Hnd Hn. apply list_elem_of_split in Hn as (l1 & l2 & E).
  rewrite (splay_nodes_delete t n l1 l2), E, !length_app by done. cbn. lia.
Qed.

Lemma splay_wf_nodup t : splay_wf ok t -> NoDup (splay_nodes t).
Proof. intros Hwf. by apply splay_wf_sorted. Qed.

Lemma splay_first_elem t x : splay_first t = Some x -> x ∈ splay_nodes t.
Proof. rewrite splay_first_eq. destruct (splay_nodes t); cbn; intros [= ->]. apply elem_of_cons. by left. Qed.

Lemma splay_first_cons t x : splay_first t = Some x -> exists l, splay_nodes t = x :: l.
Proof. rewrite splay_first_eq. destruct (splay_nodes t) as [| y l]; cbn; intros [= ->]. by exists l. Qed.
End laws.
