(* ===== verification/Media.v ===== *)
(** * Abstract view of a media

    A media is its content: for each (group, object) the bytes of the object,
    and the number of objects of each group.  Fragments are pieces of objects;
    the components that receive them (reassembly, cache) are specified against
    the media they come from. *)

From S2P Require Import Prelude.

(** ** The media and its fragments *)

(** Every group has at least one object. *)
Record media := {
  content : Z * Z -> list Z;
  count : Z -> Z;
  content_range : forall k, blen (content k) < two62;
  count_range : forall g, 1 <= count g <= two62;
}.

(** The arguments of a call to [quicrq_reassembly_input]. *)
Record fragment := {
  f_time : Z;
  f_data : list Z;
  f_group : Z;
  f_object : Z;
  f_offset : Z;
  f_delay : Z;
  f_flags : Z;
  f_nb_previous : Z;
  f_object_length : Z;
  f_data_length : Z;
}.
Definition f_key (f : fragment) : Z * Z := (f_group f, f_object f).

(** The fragment carries bytes of the media. *)
Record consistent (m : media) (f : fragment) : Prop := {
  cf_group : is_id (f_group f);
  cf_object : is_id (f_object f) /\ f_object f < count m (f_group f);
  cf_length : f_object_length f = blen (content m (f_key f));
  cf_range : 0 <= f_offset f /\ 0 <= f_data_length f /\
             f_offset f + f_data_length f <= blen (content m (f_key f));
  cf_data : f_data f = slice (content m (f_key f)) (f_offset f) (f_data_length f);
  cf_nb : 0 < f_group f -> f_object f = 0 -> f_offset f = 0 ->
    f_nb_previous f = count m (f_group f - 1);
}.

(** The keys of the objects of the media. *)
Definition media_key (m : media) (k : Z * Z) : Prop := 0 <= k.1 /\ 0 <= k.2 < count m k.1.

(** The object that follows another in the media. *)
Definition media_next (m : media) (k : Z * Z) : Z * Z :=
  if k.2 + 1 <? count m k.1 then (k.1, k.2 + 1) else (k.1 + 1, 0).
Definition media_from (m : media) (start : Z * Z) (n : nat) : Z * Z :=
  Nat.iter n (media_next m) start.

Lemma media_from_S m start n : media_from m start (S n) = media_next m (media_from m start n).
Proof. done. Qed.

Lemma media_from_key m n : media_key m (media_from m (0, 0) n).
Proof.
  induction n as [| n IH]; [pose proof (count_range m 0); unfold media_key; cbn; lia |].
  rewrite media_from_S. unfold media_next, media_key in *.
  destruct (Z.ltb_spec ((media_from m (0, 0) n).2 + 1) (count m (media_from m (0, 0) n).1)); cbn; [lia |].
  pose proof (count_range m ((media_from m (0, 0) n).1 + 1)). lia.
Qed.

Definition byte_received (fs : list fragment) (k : Z * Z) (i : Z) : Prop :=
  Exists (fun f => f_key f = k /\ f_offset f <= i < f_offset f + f_data_length f) fs.
(** All the bytes of the object, and at least one fragment of it, arrived. *)
Definition fully_received (m : media) (fs : list fragment) (k : Z * Z) : Prop :=
  Exists (fun f => f_key f = k) fs /\
  forall i, 0 <= i < blen (content m k) -> byte_received fs k i.

(** Lexicographic order on keys. *)
Definition key_le (a b : Z * Z) : Prop := a.1 < b.1 \/ (a.1 = b.1 /\ a.2 <= b.2).
Definition key_lt (a b : Z * Z) : Prop := a.1 < b.1 \/ (a.1 = b.1 /\ a.2 < b.2).
