(* ===== verification/PicoFrames.v ===== *)
(** * The picoquic frame coding interface

    The wire format of quicrq is built on picoquic's buffer helpers
    ([picoquic_frames_varint_encode] and so on), whose code is not part of
    this repository.  They are parameters: [PicoFrames] lists the operations,
    [FramesLaws] the behaviour picoquic documents for them (RFC 9000 section
    16 variable-length integers, [NULL] when the buffer is too small).
    [rfc9000_frames] is a concrete instance used to evaluate the models.

    A C encoder [uint8_t* f(bytes, bytes_max, ...)] is an [enc]: given the
    room [bytes_max - bytes], [None] stands for [NULL] and [Some bs] for the
    bytes written, the returned pointer being [bytes + blen bs].  A decoder is
    a [dec]: it takes the bytes from [bytes] to [bytes_max] and returns the
    decoded value with the bytes from the returned pointer on. *)

From S2P Require Import Prelude.

Declare Scope codec_scope.
Delimit Scope codec_scope with codec.

Definition enc : Type := Z -> option (list Z).
Definition dec (A : Type) : Type := list Z -> option (A * list Z).

(** [(bytes = e1) != NULL && (bytes = e2) != NULL]. *)
Definition enc_seq (e1 e2 : enc) : enc := fun room =>
  match e1 room with
  | None => None
  | Some b1 =>
      match e2 (room - blen b1) with
      | None => None
      | Some b2 => Some (b1 ++ b2)
      end
  end.
Definition enc_ret : enc := fun _ => Some [].
Definition enc_fail : enc := fun _ => None.
Notation "e1 >>> e2" := (enc_seq e1 e2) (at level 60, right associativity) : codec_scope.

Definition dret {A} (a : A) : dec A := fun bytes => Some (a, bytes).
Definition dfail {A} : dec A := fun _ => None.
Definition dbind {A B} (d : dec A) (k : A -> dec B) : dec B := fun bytes =>
  match d bytes with
  | None => None
  | Some (a, rest) => k a rest
  end.
(** The current pointer, and a pointer move. *)
Definition dhere : dec (list Z) := fun bytes => Some (bytes, bytes).
Definition dmove (f : list Z -> option (list Z)) : dec unit := fun bytes =>
  match f bytes with
  | None => None
  | Some rest => Some (tt, rest)
  end.
Notation "'let!' x ':=' d 'in' k" := (dbind d (fun x => k))
  (at level 10, x pattern, d at level 100, k at level 200) : codec_scope.

#[global] Open Scope codec_scope.

(** ** The operations *)

Class PicoFrames := {
  picoquic_frames_varint_encode_length : Z -> Z;
  picoquic_frames_varint_encode : Z -> enc;
  picoquic_frames_varint_decode : dec Z;
  picoquic_frames_uint8_encode : Z -> enc;
  picoquic_frames_uint8_decode : dec Z;
  picoquic_frames_length_data_encode : Z -> list Z -> enc;
  picoquic_frames_varlen_decode : dec Z;
  picoquic_frames_fixed_skip : Z -> list Z -> option (list Z);
}.

Definition is_byte (z : Z) : Prop := 0 <= z < 256.
Definition is_varint (z : Z) : Prop := 0 <= z < two62.

Class FramesLaws (P : PicoFrames) : Prop := {
  varint_length_range : forall v, is_varint v ->
    1 <= picoquic_frames_varint_encode_length v <= 8;
  varint_length_1 : forall v, 0 <= v < 64 -> picoquic_frames_varint_encode_length v = 1;
  varint_length_2 : forall v, 0 <= v < 16384 -> picoquic_frames_varint_encode_length v <= 2;
  varint_encode_some : forall v room, is_varint v ->
    picoquic_frames_varint_encode_length v <= room ->
    exists bs, picoquic_frames_varint_encode v room = Some bs
      /\ blen bs = picoquic_frames_varint_encode_length v;
  varint_encode_none : forall v room, is_varint v ->
    room < picoquic_frames_varint_encode_length v ->
    picoquic_frames_varint_encode v room = None;
  varint_decode_encode : forall v room bs rest, is_varint v ->
    picoquic_frames_varint_encode v room = Some bs ->
    picoquic_frames_varint_decode (bs ++ rest) = Some (v, rest);
  varint_decode_inv : forall bs v rest,
    picoquic_frames_varint_decode bs = Some (v, rest) ->
    is_varint v /\ exists p, p <> [] /\ bs = p ++ rest;
  uint8_encode_eq : forall v room,
    picoquic_frames_uint8_encode v room = if 1 <=? room then Some [v] else None;
  uint8_decode_eq : forall bs,
    picoquic_frames_uint8_decode bs = match bs with [] => None | b :: r => Some (b, r) end;
  length_data_encode_eq : forall n data room, is_varint n ->
    picoquic_frames_length_data_encode n data room =
      (picoquic_frames_varint_encode n >>>
       (fun room' => if n <=? room' then Some (ztake n data) else None)) room;
  varlen_decode_eq : forall bs,
    picoquic_frames_varlen_decode bs = picoquic_frames_varint_decode bs;
  fixed_skip_eq : forall n bs, 0 <= n ->
    picoquic_frames_fixed_skip n bs = if n <=? blen bs then Some (zdrop n bs) else None;
}.

(** ** Judgements on coders

    [parses e d a]: what [e] writes is read back by [d] as [a].
    [sized e n]: [e] writes exactly [n] bytes when there is room for them and
    fails otherwise.  [consumes d]: [d] returns a pointer inside the buffer,
    never before where it started. *)

Definition parses {A} (e : enc) (d : dec A) (a : A) : Prop :=
  forall room bs rest, e room = Some bs -> d (bs ++ rest) = Some (a, rest).

Definition sized (e : enc) (n : Z) : Prop :=
  0 <= n /\
  (forall room, n <= room -> exists bs, e room = Some bs /\ blen bs = n) /\
  (forall room, 0 <= room < n -> e room = None).

Definition consumes {A} (d : dec A) : Prop :=
  forall bs a rest, d bs = Some (a, rest) -> exists p, bs = p ++ rest.

Create HintDb codec.

Section judgements.
Lemma parses_ret {A} (a : A) : parses enc_ret (dret a) a.
Proof. intros room bs rest [= <-]. done. Qed.

Lemma parses_seq {A B} e1 e2 (d1 : dec A) (k : A -> dec B) a b :
  parses e1 d1 a -> parses e2 (k a) b -> parses (e1 >>> e2) (dbind d1 k) b.
Proof.
  intros H1 H2 room bs rest. unfold enc_seq, dbind.
  destruct (e1 room) as [b1 |] eqn:E1; [| done].
  destruct (e2 _) as [b2 |] eqn:E2; [| done]. intros [= <-].
  rewrite <- (assoc_L (++)), (H1 _ _ _ E1). eauto.
Qed.

(** A last field needs no continuation on the encoder side. *)
Lemma parses_last {A B} e (d : dec A) (k : A -> dec B) a b :
  parses e d a -> k a = dret b -> parses e (dbind d k) b.
Proof.
  intros H Hk room bs rest Hb. unfold dbind. rewrite (H _ _ _ Hb), Hk. done.
Qed.

Lemma sized_ret : sized enc_ret 0.
Proof.
  repeat split; [lia | |]; intros room Hr; unfold enc_ret; [by eexists | lia].
Qed.

Lemma sized_seq e1 e2 n1 n2 :
  sized e1 n1 -> sized e2 n2 -> sized (e1 >>> e2) (n1 + n2).
Proof.
  intros (P1 & S1 & F1) (P2 & S2 & F2). unfold enc_seq. repeat split; [lia | |].
  - intros room Hr. destruct (S1 room) as (b1 & -> & L1); [lia |].
    destruct (S2 (room - blen b1)) as (b2 & -> & L2); [lia |].
    eexists. split; [done |]. rewrite blen_app. lia.
  - intros room Hr. destruct (Z.lt_ge_cases room n1) as [Hl | Hl].
    { by rewrite F1 by lia. }
    destruct (S1 room Hl) as (b1 & -> & L1). rewrite F2 by lia. done.
Qed.

Lemma sized_room e n room bs : sized e n -> 0 <= room -> e room = Some bs -> n <= room /\ blen bs = n.
Proof.
  intros (_ & S & F) Hr He. destruct (Z.lt_ge_cases room n) as [Hl | Hl].
  - by rewrite F in He by lia.
  - destruct (S room Hl) as (b & Hb & L). rewrite Hb in He. by injection He as <-.
Qed.

Lemma consumes_ret {A} (a : A) : consumes (dret a).
Proof. intros bs a' rest [= <- <-]. by exists []. Qed.

Lemma consumes_fail {A} : consumes (@dfail A).
Proof. intros bs a' rest [=]. Qed.

Lemma consumes_here : consumes dhere.
Proof. intros bs a rest [= <- <-]. by exists []. Qed.

Lemma consumes_bind {A B} (d : dec A) (k : A -> dec B) :
  consumes d -> (forall a, consumes (k a)) -> consumes (dbind d k).
Proof.
  intros H1 H2 bs b rest. unfold dbind.
  destruct (d bs) as [[a r] |] eqn:E; [| done]. intros E2.
  apply H1 in E as [p ->]. apply H2 in E2 as [q ->].
  exists (p ++ q). by rewrite (assoc_L (++)).
Qed.

Lemma consumes_if {A} (b : bool) (d1 d2 : dec A) :
  consumes d1 -> consumes d2 -> consumes (if b then d1 else d2).
Proof. by destruct b. Qed.
End judgements.
#[export] Hint Resolve parses_ret consumes_ret consumes_fail consumes_here consumes_bind
  consumes_if : codec.

(** ** Coders of one field *)

Section fields.
Context `{FL : FramesLaws}.

Lemma parses_varint v :
  is_varint v -> parses (picoquic_frames_varint_encode v) picoquic_frames_varint_decode v.
Proof. intros Hv room bs rest. by apply varint_decode_encode. Qed.

Lemma parses_varlen v :
  is_varint v -> parses (picoquic_frames_varint_encode v) picoquic_frames_varlen_decode v.
Proof. intros Hv room bs rest Hb. rewrite varlen_decode_eq. by eapply varint_decode_encode. Qed.

Lemma parses_uint8 v : parses (picoquic_frames_uint8_encode v) picoquic_frames_uint8_decode v.
Proof.
  intros room bs rest. rewrite uint8_encode_eq, uint8_decode_eq.
  destruct (1 <=? room); [| done]. intros [= <-]. done.
Qed.

Lemma sized_varint v :
  is_varint v ->
  sized (picoquic_frames_varint_encode v) (picoquic_frames_varint_encode_length v).
Proof.
  intros Hv. pose proof (varint_length_range v Hv). repeat split; [lia | |].
  - intros room Hr. by apply varint_encode_some.
  - intros room Hr. apply varint_encode_none; [done | lia].
Qed.

Lemma sized_uint8 v : sized (picoquic_frames_uint8_encode v) 1.
Proof.
  repeat split; [lia | |]; intros room Hr; rewrite uint8_encode_eq;
    destruct (Z.leb_spec 1 room); try lia; [by eexists | done].
Qed.

Lemma sized_length_data n data :
  is_varint n -> n <= blen data ->
  sized (picoquic_frames_length_data_encode n data)
    (picoquic_frames_varint_encode_length n + n).
Proof.
  intros Hn Hd.
  assert (sized (fun room' => if n <=? room' then Some (ztake n data) else None) n) as Hs.
  { destruct Hn. repeat split; [lia | |]; intros room Hr;
      destruct (Z.leb_spec n room); try lia; [| done].
    eexists. split; [done |]. by apply blen_ztake. }
  destruct (sized_seq _ _ _ _ (sized_varint n Hn) Hs) as (Hp & HS & HF).
  repeat split; [done | |]; intros room Hr; rewrite length_data_encode_eq by done; auto.
Qed.

(** A length-prefixed byte string, read as the decoders of proto.c do. *)
Definition varlen_bytes : dec (Z * list Z) :=
  let! n := picoquic_frames_varlen_decode in
  let! data := dhere in
  let! _ := dmove (picoquic_frames_fixed_skip n) in
  dret (n, ztake n data).

Lemma parses_length_data {B} n data (k : Z -> list Z -> dec B) e2 b :
  is_varint n -> n <= blen data ->
  parses e2 (k n (ztake n data)) b ->
  parses (picoquic_frames_length_data_encode n data >>> e2)
    (let! n := picoquic_frames_varlen_decode in
     let! data := dhere in
     let! _ := dmove (picoquic_frames_fixed_skip n) in
     k n (ztake n data)) b.
Proof.
  intros Hn Hd Hk room bs rest. unfold enc_seq at 1.
  rewrite length_data_encode_eq by done. unfold enc_seq.
  destruct (picoquic_frames_varint_encode n room) as [b1 |] eqn:E1; [| done].
  destruct (Z.leb_spec n (room - blen b1)); [| done].
  destruct (e2 _) as [b2 |] eqn:E2; [| done]. intros [= <-].
  unfold dbind, dhere, dmove. rewrite <- !(assoc_L (++)).
  rewrite (parses_varlen n Hn _ _ _ E1). destruct Hn.
  rewrite fixed_skip_eq by lia. assert (blen (ztake n data) = n) as Ln by (apply blen_ztake; lia).
  rewrite blen_app, Ln. pose proof (blen_nonneg (b2 ++ rest)).
  destruct (Z.leb_spec n (n + blen (b2 ++ rest))); [| lia].
  rewrite ztake_app', zdrop_app' by done. eauto.
Qed.

Lemma consumes_varint : consumes picoquic_frames_varint_decode.
Proof. intros bs a rest H. apply varint_decode_inv in H as (_ & p & _ & ->). by exists p. Qed.

Lemma consumes_varlen : consumes picoquic_frames_varlen_decode.
Proof. intros bs a rest. rewrite varlen_decode_eq. apply consumes_varint. Qed.

Lemma consumes_uint8 : consumes picoquic_frames_uint8_decode.
Proof.
  intros bs a rest. rewrite uint8_decode_eq. destruct bs as [| b r]; [done |].
  intros [= -> ->]. by exists [a].
Qed.

Lemma varlen_range bs n rest :
  picoquic_frames_varlen_decode bs = Some (n, rest) -> is_varint n.
Proof. rewrite varlen_decode_eq. intros [? _]%varint_decode_inv. done. Qed.

(** The skipped bytes are inside the buffer: [url] never points past its end. *)
Lemma consumes_varlen_skip {B} (k : Z -> list Z -> dec B) :
  (forall n d, consumes (k n d)) ->
  consumes (let! n := picoquic_frames_varlen_decode in
            let! data := dhere in
            let! _ := dmove (picoquic_frames_fixed_skip n) in
            k n data).
Proof.
  intros Hk bs b rest. unfold dbind, dhere, dmove.
  destruct (picoquic_frames_varlen_decode bs) as [[n r] |] eqn:E; [| done].
  apply varlen_range in E as Hn. destruct Hn.
  apply consumes_varlen in E as [p ->]. rewrite fixed_skip_eq by lia.
  destruct (n <=? blen r); [| done]. intros [q Hq]%Hk.
  exists (p ++ ztake n r ++ q). rewrite <- !(assoc_L (++)), <- Hq, ztake_zdrop. done.
Qed.
End fields.
#[export] Hint Resolve parses_varint parses_varlen parses_uint8 consumes_varint
  consumes_varlen consumes_uint8 consumes_varlen_skip : codec.

(** ** RFC 9000 variable-length integers *)

Module Rfc9000.
Fixpoint be_bytes (n : nat) (w : Z) : list Z :=
  match n with
  | O => []
  | S n' => (w / 256 ^ Z.of_nat n') mod 256 :: be_bytes n' w
  end.

Fixpoint be_value (l : list Z) : Z :=
  match l with
  | [] => 0
  | b :: r => b * 256 ^ Z.of_nat (length r) + be_value r
  end.

(** The two high bits of the first byte give the length. *)
Definition encode_length (v : Z) : Z :=
  if v <? 64 then 1 else if v <? 16384 then 2 else if v <? 1073741824 then 4 else 8.

Definition encode_bytes (v : Z) : list Z :=
  if v <? 64 then be_bytes 1 v
  else if v <? 16384 then be_bytes 2 (v + 1 * 2 ^ 14)
  else if v <? 1073741824 then be_bytes 4 (v + 2 * 2 ^ 30)
  else be_bytes 8 (v + 3 * 2 ^ 62).

Definition varint_encode (v : Z) : enc := fun room =>
  if encode_length v <=? room then Some (encode_bytes v) else None.

Definition decode_size (b : Z) : nat :=
  if b <? 64 then 1 else if b <? 128 then 2 else if b <? 192 then 4 else 8.

Definition varint_decode : dec Z := fun bytes =>
  match bytes with
  | [] => None
  | b :: _ =>
      let n := decode_size b in
      if decide (n <= length bytes)%nat
      then Some (be_value (take n bytes) mod 2 ^ (8 * Z.of_nat n - 2), drop n bytes)
      else None
  end.

Lemma length_be_bytes n w : length (be_bytes n w) = n.
Proof. induction n; cbn; congruence. Qed.

Lemma be_value_bytes n w : be_value (be_bytes n w) = w mod 256 ^ Z.of_nat n.
Proof.
  induction n as [| n IH]; [by rewrite Z.mod_1_r |]. cbn [be_bytes be_value].
  rewrite IH, length_be_bytes, Nat2Z.inj_succ, Z.pow_succ_r by lia.
  rewrite (Z.mul_comm 256), Z.rem_mul_r; lia.
Qed.

Lemma encode_bytes_length v : blen (encode_bytes v) = encode_length v.
Proof.
  unfold encode_bytes, encode_length, blen.
  repeat case_match; by rewrite length_be_bytes.
Qed.

Lemma decode_be n w v rest :
  (0 < n)%nat -> 0 <= w < 256 ^ Z.of_nat n ->
  decode_size (w / 256 ^ Z.of_nat (pred n)) = n ->
  w mod 2 ^ (8 * Z.of_nat n - 2) = v ->
  varint_decode (be_bytes n w ++ rest) = Some (v, rest).
Proof.
  intros Hn Hw Hd Hv. destruct n as [| n]; [lia |].
  pose proof (length_be_bytes (S n) w) as Hl.
  assert ((w / 256 ^ Z.of_nat n) mod 256 = w / 256 ^ Z.of_nat n) as Hb.
  { apply Z.mod_small. split; [apply Z.div_pos; lia |].
    apply Z.div_lt_upper_bound; [lia |].
    rewrite Nat2Z.inj_succ, Z.pow_succ_r in Hw by lia. lia. }
  cbn [pred] in Hd. unfold varint_decode. cbn [be_bytes app]. rewrite Hb, Hd.
  change (w / 256 ^ Z.of_nat n :: be_bytes n w ++ rest)
    with ((w / 256 ^ Z.of_nat n :: be_bytes n w) ++ rest).
  rewrite <- Hb. change ((w / 256 ^ Z.of_nat n) mod 256 :: be_bytes n w) with (be_bytes (S n) w).
  rewrite decide_True by (rewrite length_app; lia).
  rewrite take_app_length' by done. rewrite drop_app_length' by done.
  rewrite be_value_bytes, (Z.mod_small w) by done. by rewrite Hv.
Qed.

Lemma decode_encode v rest :
  is_varint v -> varint_decode (encode_bytes v ++ rest) = Some (v, rest).
Proof.
  unfold is_varint, two62. intros Hv. unfold encode_bytes.
  destruct (Z.ltb_spec v 64); [| destruct (Z.ltb_spec v 16384);
    [| destruct (Z.ltb_spec v 1073741824)]];
  (apply decode_be; [lia | cbn; lia | |
    cbn; rewrite ?Z.mod_add by lia; apply Z.mod_small; lia]);
  cbn; unfold decode_size.
  - rewrite Z.div_1_r. case_match; b2p; lia.
  - change (256 ^ Z.of_nat 1) with 256. change (1 * 2 ^ 14) with 16384.
    pose proof (Z.div_le_lower_bound (v + 16384) 256 64).
    pose proof (Z.div_lt_upper_bound (v + 16384) 256 128).
    repeat case_match; b2p; lia.
  - change (256 ^ Z.of_nat 3) with 16777216. change (2 * 2 ^ 30) with 2147483648.
    pose proof (Z.div_le_lower_bound (v + 2147483648) 16777216 128).
    pose proof (Z.div_lt_upper_bound (v + 2147483648) 16777216 192).
    repeat case_match; b2p; lia.
  - change (256 ^ Z.of_nat 7) with 72057594037927936.
    change (3 * 2 ^ 62) with 13835058055282163712.
    pose proof (Z.div_le_lower_bound (v + 13835058055282163712) 72057594037927936 192).
    repeat case_match; b2p; lia.
Qed.
End Rfc9000.

#[export] Instance rfc9000_frames : PicoFrames := {|
  picoquic_frames_varint_encode_length := Rfc9000.encode_length;
  picoquic_frames_varint_encode := Rfc9000.varint_encode;
  picoquic_frames_varint_decode := Rfc9000.varint_decode;
  picoquic_frames_uint8_encode v := fun room => if 1 <=? room then Some [v] else None;
  picoquic_frames_uint8_decode := fun bs => match bs with [] => None | b :: r => Some (b, r) end;
  picoquic_frames_length_data_encode n data :=
    Rfc9000.varint_encode n >>>
    (fun room' => if n <=? room' then Some (ztake n data) else None);
  picoquic_frames_varlen_decode := Rfc9000.varint_decode;
  picoquic_frames_fixed_skip n bs := if n <=? blen bs then Some (zdrop n bs) else None;
|}.

#[export] Instance rfc9000_laws : FramesLaws rfc9000_frames.
Proof.
  split; cbn; try done.
  - unfold Rfc9000.encode_length. intros. repeat case_match; lia.
  - unfold Rfc9000.encode_length. intros. repeat case_match; b2p; lia.
  - unfold Rfc9000.encode_length. intros. repeat case_match; b2p; lia.
  - intros v room Hv Hr. unfold Rfc9000.varint_encode.
    destruct (Z.leb_spec (Rfc9000.encode_length v) room); [| lia].
    eexists. split; [done |]. apply Rfc9000.encode_bytes_length.
  - intros v room Hv Hr. unfold Rfc9000.varint_encode.
    destruct (Z.leb_spec (Rfc9000.encode_length v) room); [lia | done].
  - intros v room bs rest Hv. unfold Rfc9000.varint_encode. case_match; [| done].
    intros [= <-]. by apply Rfc9000.decode_encode.
  - intros bs v rest. unfold Rfc9000.varint_decode. destruct bs as [| b r]; [done |].
    assert (Rfc9000.decode_size b = 1 \/ Rfc9000.decode_size b = 2 \/
            Rfc9000.decode_size b = 4 \/ Rfc9000.decode_size b = 8)%nat as Hn.
    { unfold Rfc9000.decode_size. repeat case_match; auto. }
    case_decide; [| done]. intros [= <- <-]. split.
    + unfold is_varint, two62. pose proof (Z.mod_pos_bound
        (Rfc9000.be_value (take (Rfc9000.decode_size b) (b :: r)))
        (2 ^ (8 * Z.of_nat (Rfc9000.decode_size b) - 2))) as Hm.
      revert Hm. by destruct Hn as [-> | [-> | [-> | ->]]]; cbn; lia.
    + exists (take (Rfc9000.decode_size b) (b :: r)). rewrite take_drop. split; [| done].
      destruct (Rfc9000.decode_size b) eqn:E; [lia | done].
Qed.

(** The integers that are encoded on two bytes at most. *)
Definition small (v : Z) : Prop := 0 <= v < 16384.
Lemma small_varint v : small v -> is_varint v.
Proof. unfold small, is_varint, two62. lia. Qed.
