(* ===== verification/Proto.v ===== *)
(** * lib/proto.c: coding of the quicrq messages

    One encoder, decoder and size reservation per message, the generic
    [quicrq_msg_encode] / [quicrq_msg_decode] dispatchers, and the datagram
    header.  The theorems are the round trip of every message, the size of
    what is written against what is reserved, and the safety of decoding. *)

From S2P Require Import Prelude PicoFrames.

(** ** Enumerations and message types (include/quicrq.h, lib/quicrq_internal.h) *)

Inductive quicrq_transport_mode_enum :=
| quicrq_transport_mode_unspecified
| quicrq_transport_mode_single_stream
| quicrq_transport_mode_warp
| quicrq_transport_mode_rush
| quicrq_transport_mode_datagram.
Definition quicrq_transport_mode_max : Z := 5.
#[export] Instance transport_mode_eq_dec : EqDecision quicrq_transport_mode_enum.
Proof. solve_decision. Defined.

Definition transport_mode_to_Z (m : quicrq_transport_mode_enum) : Z :=
  match m with
  | quicrq_transport_mode_unspecified => 0
  | quicrq_transport_mode_single_stream => 1
  | quicrq_transport_mode_warp => 2
  | quicrq_transport_mode_rush => 3
  | quicrq_transport_mode_datagram => 4
  end.
(** The cast of an integer to the enumeration.  Every decoder refuses the
    message before the cast unless the integer is below
    [quicrq_transport_mode_max] (proto.c:161, 417 and 467), and so does the
    model: the last case is that of 0. *)
Definition transport_mode_of_Z (z : Z) : quicrq_transport_mode_enum :=
  match z with
  | 1 => quicrq_transport_mode_single_stream
  | 2 => quicrq_transport_mode_warp
  | 3 => quicrq_transport_mode_rush
  | 4 => quicrq_transport_mode_datagram
  | _ => quicrq_transport_mode_unspecified
  end.

Inductive quicrq_subscribe_intent_enum :=
| quicrq_subscribe_intent_current_group
| quicrq_subscribe_intent_next_group
| quicrq_subscribe_intent_start_point.
#[export] Instance intent_eq_dec : EqDecision quicrq_subscribe_intent_enum.
Proof. solve_decision. Defined.

Definition intent_to_Z (i : quicrq_subscribe_intent_enum) : Z :=
  match i with
  | quicrq_subscribe_intent_current_group => 0
  | quicrq_subscribe_intent_next_group => 1
  | quicrq_subscribe_intent_start_point => 2
  end.
(** The cast, of an integer that the decoder has found to be at most
    [quicrq_subscribe_intent_start_point] (proto.c:160): the last case is that
    of 0. *)
Definition intent_of_Z (z : Z) : quicrq_subscribe_intent_enum :=
  match z with
  | 1 => quicrq_subscribe_intent_next_group
  | 2 => quicrq_subscribe_intent_start_point
  | _ => quicrq_subscribe_intent_current_group
  end.

Definition QUICRQ_ACTION_REQUEST : Z := 1.
Definition QUICRQ_ACTION_FIN_DATAGRAM : Z := 3.
Definition QUICRQ_ACTION_FRAGMENT : Z := 5.
Definition QUICRQ_ACTION_POST : Z := 6.
Definition QUICRQ_ACTION_ACCEPT : Z := 7.
Definition QUICRQ_ACTION_START_POINT : Z := 8.
Definition QUICRQ_ACTION_SUBSCRIBE : Z := 9.
Definition QUICRQ_ACTION_NOTIFY : Z := 10.
Definition QUICRQ_ACTION_CACHE_POLICY : Z := 11.
Definition QUICRQ_ACTION_WARP_HEADER : Z := 12.
Definition QUICRQ_ACTION_OBJECT_HEADER : Z := 13.
Definition QUICRQ_ACTION_RUSH_HEADER : Z := 14.
Definition QUICRQ_DATAGRAM_HEADER_MAX : Z := 16.

(** [data] is a pointer that may be [NULL]; a decoded [url] or [data] points
    in the decoded buffer and is kept as the bytes it designates. *)
Record quicrq_message_t := {
  message_type : Z;
  url_length : Z;
  url : list Z;
  media_id : Z;
  group_id : Z;
  object_id : Z;
  nb_objects_previous_group : Z;
  fragment_offset : Z;
  flags : Z;
  object_length : Z;
  fragment_length : Z;
  data : option (list Z);
  transport_mode : quicrq_transport_mode_enum;
  cache_policy : Z;
  subscribe_intent : quicrq_subscribe_intent_enum;
}.

(** [memset(msg, 0, sizeof(quicrq_message_t))], then the fields given. *)
Definition msg_set (ty ulen : Z) (u : list Z) (mid g o nb off fl olen flen : Z)
    (d : option (list Z)) (tm : quicrq_transport_mode_enum) (cp : Z)
    (si : quicrq_subscribe_intent_enum) : quicrq_message_t :=
  {| message_type := ty; url_length := ulen; url := u; media_id := mid; group_id := g;
     object_id := o; nb_objects_previous_group := nb; fragment_offset := off; flags := fl;
     object_length := olen; fragment_length := flen; data := d; transport_mode := tm;
     cache_policy := cp; subscribe_intent := si |}.
Definition tm0 := quicrq_transport_mode_unspecified.
Definition si0 := quicrq_subscribe_intent_current_group.

(** [if (bytes < bytes_max) *bytes++ = b; else bytes = NULL]. *)
Definition put_byte (b : Z) : enc := fun room => if 0 <? room then Some [b] else None.
Definition get_byte : dec Z := fun bytes =>
  match bytes with [] => None | b :: rest => Some (b, rest) end.

Section messages.
Context `{PicoFrames}.

Abbreviation varint_encode := picoquic_frames_varint_encode.
Abbreviation varint_decode := picoquic_frames_varint_decode.
Abbreviation varlen_decode := picoquic_frames_varlen_decode.
Abbreviation fixed_skip := picoquic_frames_fixed_skip.
Abbreviation length_data_encode := picoquic_frames_length_data_encode.
Abbreviation vlen := picoquic_frames_varint_encode_length.

(** ** Subscribe and notify *)

Definition quicrq_subscribe_msg_reserve (url_length : Z) : Z := 8 + 2 + url_length.

Definition quicrq_subscribe_msg_encode (message_type url_length : Z) (url : list Z) : enc :=
  varint_encode message_type >>> length_data_encode url_length url.

Definition quicrq_subscribe_msg_decode : dec (Z * Z * list Z) :=
  let! message_type := varint_decode in
  let! url_length := varlen_decode in
  let! url := dhere in
  let! _ := dmove (fixed_skip url_length) in
  dret (message_type, url_length, ztake url_length url).

Definition quicrq_notify_msg_reserve (url_length : Z) : Z := 8 + 2 + url_length.

Definition quicrq_notify_msg_encode (message_type url_length : Z) (url : list Z) : enc :=
  varint_encode message_type >>> length_data_encode url_length url.

Definition quicrq_notify_msg_decode : dec (Z * Z * list Z) :=
  let! message_type := varint_decode in
  let! url_length := varlen_decode in
  let! url := dhere in
  let! _ := dmove (fixed_skip url_length) in
  dret (message_type, url_length, ztake url_length url).

(** ** Request *)

Definition quicrq_rq_msg_reserve (url_length : Z) (intent_mode : quicrq_subscribe_intent_enum) : Z :=
  let intent_length := if decide (intent_mode = quicrq_subscribe_intent_start_point) then 17 else 1 in
  8 + 2 + url_length + 8 + 1 + intent_length.

Definition quicrq_rq_msg_encode (message_type url_length : Z) (url : list Z) (media_id : Z)
    (transport_mode : quicrq_transport_mode_enum) (intent_mode : quicrq_subscribe_intent_enum)
    (start_group_id start_object_id : Z) : enc :=
  varint_encode message_type >>>
  length_data_encode url_length url >>>
  varint_encode media_id >>>
  varint_encode (transport_mode_to_Z transport_mode) >>>
  varint_encode (intent_to_Z intent_mode) >>>
  (if decide (intent_mode = quicrq_subscribe_intent_start_point)
   then varint_encode start_group_id >>> varint_encode start_object_id
   else enc_ret).

Definition quicrq_rq_msg_decode :
    dec (Z * Z * list Z * Z * quicrq_transport_mode_enum * quicrq_subscribe_intent_enum * Z * Z) :=
  let! message_type := varint_decode in
  let! url_length := varlen_decode in
  let! url := dhere in
  let! _ := dmove (fixed_skip url_length) in
  let! media_id := varint_decode in
  let! t_mode_64 := varint_decode in
  let! intent_64 := varint_decode in
  if (intent_to_Z quicrq_subscribe_intent_start_point <? intent_64)
     || (quicrq_transport_mode_max <=? t_mode_64) then dfail
  else
    let transport_mode := transport_mode_of_Z t_mode_64 in
    let intent_mode := intent_of_Z intent_64 in
    if decide (intent_mode = quicrq_subscribe_intent_start_point) then
      let! start_group_id := varint_decode in
      let! start_object_id := varint_decode in
      dret (message_type, url_length, ztake url_length url, media_id, transport_mode,
            intent_mode, start_group_id, start_object_id)
    else
      dret (message_type, url_length, ztake url_length url, media_id, transport_mode,
            intent_mode, 0, 0).

(** ** Fin of datagram stream *)

Definition quicrq_fin_msg_reserve (final_group_id final_object_id : Z) : Z :=
  1 + vlen final_group_id + vlen final_object_id.

Definition quicrq_fin_msg_encode (message_type final_group_id final_object_id : Z) : enc :=
  varint_encode message_type >>> varint_encode final_group_id >>> varint_encode final_object_id.

Definition quicrq_fin_msg_decode : dec (Z * Z * Z) :=
  let! message_type := varint_decode in
  let! final_group_id := varint_decode in
  let! final_object_id := varint_decode in
  dret (message_type, final_group_id, final_object_id).

(** ** Fragment *)

Definition quicrq_fragment_msg_reserve (group_id object_id nb_objects_previous_group offset
    object_length data_length : Z) : Z :=
  let len := 1 + vlen group_id + vlen object_id + vlen offset + vlen object_length + 1 in
  let len := if (object_id =? 0) && (offset =? 0)
             then len + vlen nb_objects_previous_group else len in
  len + vlen data_length.

Definition quicrq_fragment_msg_encode (message_type group_id object_id nb_objects_previous_group
    offset object_length flags length : Z) (data : option (list Z)) : enc :=
  varint_encode message_type >>>
  varint_encode group_id >>>
  varint_encode object_id >>>
  varint_encode offset >>>
  varint_encode object_length >>>
  picoquic_frames_uint8_encode flags >>>
  (if (object_id =? 0) && (offset =? 0)
   then varint_encode nb_objects_previous_group else enc_ret) >>>
  match data with
  | Some bytes => length_data_encode length bytes
  | None => varint_encode length
  end.

Definition quicrq_fragment_msg_decode :
    dec (Z * Z * Z * Z * Z * Z * Z * Z * list Z) :=
  let! message_type := varint_decode in
  let! group_id := varint_decode in
  let! object_id := varint_decode in
  let! offset := varint_decode in
  let! object_length := varint_decode in
  let! flags := picoquic_frames_uint8_decode in
  let! nb_objects_previous_group :=
    (if (object_id =? 0) && (offset =? 0) then varint_decode else dret 0) in
  let! length := varlen_decode in
  let! data := dhere in
  let! _ := dmove (fixed_skip length) in
  dret (message_type, group_id, object_id, nb_objects_previous_group, offset, object_length,
        flags, length, ztake length data).

(** ** Start point and cache policy *)

Definition quicrq_start_point_msg_reserve (start_group start_object : Z) : Z :=
  1 + vlen start_group + vlen start_object.

Definition quicrq_start_point_msg_encode (message_type start_group start_object : Z) : enc :=
  varint_encode message_type >>> varint_encode start_group >>> varint_encode start_object.

Definition quicrq_start_point_msg_decode : dec (Z * Z * Z) :=
  let! message_type := varint_decode in
  let! start_group := varint_decode in
  let! start_object := varint_decode in
  dret (message_type, start_group, start_object).

Definition quicrq_cache_policy_msg_reserve : Z := 2.

Definition quicrq_cache_policy_msg_encode (message_type cache_policy : Z) : enc :=
  varint_encode message_type >>> picoquic_frames_uint8_encode cache_policy.

Definition quicrq_cache_policy_msg_decode : dec (Z * Z) :=
  let! message_type := varint_decode in
  let! cache_policy := picoquic_frames_uint8_decode in
  dret (message_type, cache_policy).

(** ** Post and accept *)

Definition quicrq_post_msg_reserve (url_length : Z) : Z := 1 + 2 + url_length + 1 + 1 + 8 + 8.

Definition quicrq_post_msg_encode (message_type url_length : Z) (url : list Z)
    (transport_mode : quicrq_transport_mode_enum)
    (cache_policy start_group_id start_object_id : Z) : enc :=
  varint_encode message_type >>>
  length_data_encode url_length url >>>
  varint_encode (transport_mode_to_Z transport_mode) >>>
  picoquic_frames_uint8_encode cache_policy >>>
  varint_encode start_group_id >>>
  varint_encode start_object_id.

Definition quicrq_post_msg_decode :
    dec (Z * Z * list Z * quicrq_transport_mode_enum * Z * Z * Z) :=
  let! message_type := varint_decode in
  let! url_length := varlen_decode in
  let! url := dhere in
  let! _ := dmove (fixed_skip url_length) in
  let! t_mode := varint_decode in
  let! cache_policy := picoquic_frames_uint8_decode in
  let! start_group_id := varint_decode in
  let! start_object_id := varint_decode in
  if t_mode <? quicrq_transport_mode_max then
    dret (message_type, url_length, ztake url_length url, transport_mode_of_Z t_mode,
          cache_policy, start_group_id, start_object_id)
  else dfail.

Definition quicrq_accept_msg_reserve (transport_mode : quicrq_transport_mode_enum)
    (media_id : Z) : Z :=
  let len := 1 + vlen (transport_mode_to_Z transport_mode) in
  if decide (transport_mode <> quicrq_transport_mode_single_stream)
  then len + vlen media_id else len.

Definition quicrq_accept_msg_encode (message_type : Z)
    (transport_mode : quicrq_transport_mode_enum) (media_id : Z) : enc :=
  varint_encode message_type >>>
  varint_encode (transport_mode_to_Z transport_mode) >>>
  (if decide (transport_mode <> quicrq_transport_mode_single_stream)
   then varint_encode media_id else enc_ret).

Definition quicrq_accept_msg_decode : dec (Z * quicrq_transport_mode_enum * Z) :=
  let! message_type := varint_decode in
  let! use_dg := varint_decode in
  if quicrq_transport_mode_max <=? use_dg then dfail
  else if negb (use_dg =? transport_mode_to_Z quicrq_transport_mode_single_stream) then
    let! media_id := varint_decode in
    dret (message_type, transport_mode_of_Z use_dg, media_id)
  else dret (message_type, transport_mode_of_Z use_dg, 0).

(** ** Warp header and object header *)

Definition quicrq_warp_header_msg_reserve (media_id group_id : Z) : Z :=
  1 + vlen media_id + vlen group_id.

Definition quicrq_warp_header_msg_encode (message_type media_id group_id : Z) : enc :=
  varint_encode message_type >>> varint_encode media_id >>> varint_encode group_id.

Definition quicrq_warp_header_msg_decode : dec (Z * Z * Z) :=
  let! message_type := varint_decode in
  let! media_id := varint_decode in
  let! group_id := varint_decode in
  dret (message_type, media_id, group_id).

Definition quicrq_object_header_msg_reserve (object_id nb_objects_previous_group
    object_length : Z) : Z :=
  1 + vlen object_id + (if object_id =? 0 then vlen nb_objects_previous_group else 0)
  + 1 + vlen object_length.

Definition quicrq_object_header_msg_encode (message_type object_id nb_objects_previous_group
    flags object_length : Z) : enc :=
  varint_encode message_type >>>
  varint_encode object_id >>>
  (if object_id =? 0 then varint_encode nb_objects_previous_group else enc_ret) >>>
  put_byte flags >>>
  varint_encode object_length.

Definition quicrq_object_header_msg_decode : dec (Z * Z * Z * Z * Z) :=
  let! message_type := varint_decode in
  let! object_id := varint_decode in
  let! nb_objects_previous_group := (if object_id =? 0 then varint_decode else dret 0) in
  let! flags := get_byte in
  let! object_length := varlen_decode in
  dret (message_type, object_id, nb_objects_previous_group, flags, object_length).

(** ** Generic coding of control messages

    The type is decoded a first time to select the decoder, which starts
    again from the beginning of the buffer. *)

Definition quicrq_msg_decode : dec quicrq_message_t := fun bytes0 =>
  match varint_decode bytes0 with
  | None => None
  | Some (ty, _) =>
    (if ty =? QUICRQ_ACTION_REQUEST then
       let! (ty, ulen, u, mid, tm, si, g, o) := quicrq_rq_msg_decode in
       dret (msg_set ty ulen u mid g o 0 0 0 0 0 None tm 0 si)
     else if ty =? QUICRQ_ACTION_FIN_DATAGRAM then
       let! (ty, g, o) := quicrq_fin_msg_decode in
       dret (msg_set ty 0 [] 0 g o 0 0 0 0 0 None tm0 0 si0)
     else if ty =? QUICRQ_ACTION_FRAGMENT then
       let! (ty, g, o, nb, off, olen, fl, flen, d) := quicrq_fragment_msg_decode in
       dret (msg_set ty 0 [] 0 g o nb off fl olen flen (Some d) tm0 0 si0)
     else if ty =? QUICRQ_ACTION_POST then
       let! (ty, ulen, u, tm, cp, g, o) := quicrq_post_msg_decode in
       dret (msg_set ty ulen u 0 g o 0 0 0 0 0 None tm cp si0)
     else if ty =? QUICRQ_ACTION_ACCEPT then
       let! (ty, tm, mid) := quicrq_accept_msg_decode in
       dret (msg_set ty 0 [] mid 0 0 0 0 0 0 0 None tm 0 si0)
     else if ty =? QUICRQ_ACTION_START_POINT then
       let! (ty, g, o) := quicrq_start_point_msg_decode in
       dret (msg_set ty 0 [] 0 g o 0 0 0 0 0 None tm0 0 si0)
     else if ty =? QUICRQ_ACTION_SUBSCRIBE then
       let! (ty, ulen, u) := quicrq_subscribe_msg_decode in
       dret (msg_set ty ulen u 0 0 0 0 0 0 0 0 None tm0 0 si0)
     else if ty =? QUICRQ_ACTION_NOTIFY then
       let! (ty, ulen, u) := quicrq_notify_msg_decode in
       dret (msg_set ty ulen u 0 0 0 0 0 0 0 0 None tm0 0 si0)
     else if ty =? QUICRQ_ACTION_CACHE_POLICY then
       let! (ty, cp) := quicrq_cache_policy_msg_decode in
       dret (msg_set ty 0 [] 0 0 0 0 0 0 0 0 None tm0 cp si0)
     else if ty =? QUICRQ_ACTION_WARP_HEADER then
       let! (ty, mid, g) := quicrq_warp_header_msg_decode in
       dret (msg_set ty 0 [] mid g 0 0 0 0 0 0 None tm0 0 si0)
     else if ty =? QUICRQ_ACTION_OBJECT_HEADER then
       let! (ty, o, nb, fl, olen) := quicrq_object_header_msg_decode in
       dret (msg_set ty 0 [] 0 0 o nb 0 fl olen 0 None tm0 0 si0)
     else dfail) bytes0
  end.

Definition quicrq_msg_encode (msg : quicrq_message_t) : enc :=
  let ty := message_type msg in
  if ty =? QUICRQ_ACTION_REQUEST then
    quicrq_rq_msg_encode ty (url_length msg) (url msg) (media_id msg) (transport_mode msg)
      (subscribe_intent msg) (group_id msg) (object_id msg)
  else if ty =? QUICRQ_ACTION_FIN_DATAGRAM then
    quicrq_fin_msg_encode ty (group_id msg) (object_id msg)
  else if ty =? QUICRQ_ACTION_FRAGMENT then
    quicrq_fragment_msg_encode ty (group_id msg) (object_id msg)
      (nb_objects_previous_group msg) (fragment_offset msg) (object_length msg) (flags msg)
      (fragment_length msg) (data msg)
  else if ty =? QUICRQ_ACTION_POST then
    quicrq_post_msg_encode ty (url_length msg) (url msg) (transport_mode msg)
      (cache_policy msg) (group_id msg) (object_id msg)
  else if ty =? QUICRQ_ACTION_ACCEPT then
    quicrq_accept_msg_encode ty (transport_mode msg) (media_id msg)
  else if ty =? QUICRQ_ACTION_START_POINT then
    quicrq_start_point_msg_encode ty (group_id msg) (object_id msg)
  else if ty =? QUICRQ_ACTION_SUBSCRIBE then
    quicrq_subscribe_msg_encode ty (url_length msg) (url msg)
  else if ty =? QUICRQ_ACTION_NOTIFY then
    quicrq_notify_msg_encode ty (url_length msg) (url msg)
  else if ty =? QUICRQ_ACTION_CACHE_POLICY then
    quicrq_cache_policy_msg_encode ty (cache_policy msg)
  else if ty =? QUICRQ_ACTION_WARP_HEADER then
    quicrq_warp_header_msg_encode ty (media_id msg) (group_id msg)
  else if ty =? QUICRQ_ACTION_OBJECT_HEADER then
    quicrq_object_header_msg_encode ty (object_id msg) (nb_objects_previous_group msg)
      (flags msg) (object_length msg)
  else enc_fail.

(** ** Datagram header *)

Definition quicrq_datagram_header_encode (media_id group_id object_id object_offset queue_delay
    flags nb_objects_previous_group object_length : Z) : enc :=
  varint_encode media_id >>>
  varint_encode group_id >>>
  varint_encode object_id >>>
  varint_encode object_offset >>>
  varint_encode object_length >>>
  varint_encode queue_delay >>>
  put_byte flags >>>
  (if (object_id =? 0) && (object_offset =? 0)
   then varint_encode nb_objects_previous_group else enc_ret).

(** Returns media, group, object, offset, queue delay, flags, number of
    objects of the previous group and object length. *)
Definition quicrq_datagram_header_decode : dec (Z * Z * Z * Z * Z * Z * Z * Z) :=
  let! media_id := varint_decode in
  let! group_id := varint_decode in
  let! object_id := varint_decode in
  let! object_offset := varint_decode in
  let! object_length := varint_decode in
  let! queue_delay := varint_decode in
  let! flags := picoquic_frames_uint8_decode in
  if (object_id =? 0) && (object_offset =? 0) then
    let! nb_objects_previous_group := varint_decode in
    dret (media_id, group_id, object_id, object_offset, queue_delay, flags,
          nb_objects_previous_group, object_length)
  else
    dret (media_id, group_id, object_id, object_offset, queue_delay, flags, 0, object_length).

End messages.

(** ** What a message carries

    [msg_carried m] is the message a receiver can rebuild: the fields the
    type transmits, the others at their [memset] value.  [msg_in_range m]
    says the transmitted fields fit their encoding. *)

Definition msg_carried (m : quicrq_message_t) : quicrq_message_t :=
  let ty := message_type m in
  if ty =? QUICRQ_ACTION_REQUEST then
    let sp := decide (subscribe_intent m = quicrq_subscribe_intent_start_point) in
    msg_set ty (url_length m) (ztake (url_length m) (url m)) (media_id m)
      (if sp then group_id m else 0) (if sp then object_id m else 0)
      0 0 0 0 0 None (transport_mode m) 0 (subscribe_intent m)
  else if ty =? QUICRQ_ACTION_FIN_DATAGRAM then
    msg_set ty 0 [] 0 (group_id m) (object_id m) 0 0 0 0 0 None tm0 0 si0
  else if ty =? QUICRQ_ACTION_FRAGMENT then
    msg_set ty 0 [] 0 (group_id m) (object_id m)
      (if (object_id m =? 0) && (fragment_offset m =? 0) then nb_objects_previous_group m else 0)
      (fragment_offset m) (flags m) (object_length m) (fragment_length m)
      (ztake (fragment_length m) <$> data m) tm0 0 si0
  else if ty =? QUICRQ_ACTION_POST then
    msg_set ty (url_length m) (ztake (url_length m) (url m)) 0 (group_id m) (object_id m)
      0 0 0 0 0 None (transport_mode m) (cache_policy m) si0
  else if ty =? QUICRQ_ACTION_ACCEPT then
    msg_set ty 0 []
      (if decide (transport_mode m = quicrq_transport_mode_single_stream) then 0 else media_id m)
      0 0 0 0 0 0 0 None (transport_mode m) 0 si0
  else if ty =? QUICRQ_ACTION_START_POINT then
    msg_set ty 0 [] 0 (group_id m) (object_id m) 0 0 0 0 0 None tm0 0 si0
  else if ty =? QUICRQ_ACTION_SUBSCRIBE then
    msg_set ty (url_length m) (ztake (url_length m) (url m)) 0 0 0 0 0 0 0 0 None tm0 0 si0
  else if ty =? QUICRQ_ACTION_NOTIFY then
    msg_set ty (url_length m) (ztake (url_length m) (url m)) 0 0 0 0 0 0 0 0 None tm0 0 si0
  else if ty =? QUICRQ_ACTION_CACHE_POLICY then
    msg_set ty 0 [] 0 0 0 0 0 0 0 0 None tm0 (cache_policy m) si0
  else if ty =? QUICRQ_ACTION_WARP_HEADER then
    msg_set ty 0 [] (media_id m) (group_id m) 0 0 0 0 0 0 None tm0 0 si0
  else
    msg_set ty 0 [] 0 0 (object_id m)
      (if object_id m =? 0 then nb_objects_previous_group m else 0)
      0 (flags m) (object_length m) 0 None tm0 0 si0.

(** Every integer fits a varint, and the buffers hold the announced lengths. *)
Definition msg_in_range (m : quicrq_message_t) : Prop :=
  is_varint (url_length m) /\ url_length m <= blen (url m) /\
  is_varint (media_id m) /\ is_varint (group_id m) /\ is_varint (object_id m) /\
  is_varint (nb_objects_previous_group m) /\ is_varint (fragment_offset m) /\
  is_varint (object_length m) /\ is_varint (fragment_length m) /\
  match data m with Some d => fragment_length m <= blen d | None => True end.

(** The size reserved for a message by the [_reserve] function of its type. *)
Definition msg_reserve `{PicoFrames} (m : quicrq_message_t) : Z :=
  let ty := message_type m in
  if ty =? QUICRQ_ACTION_REQUEST then quicrq_rq_msg_reserve (url_length m) (subscribe_intent m)
  else if ty =? QUICRQ_ACTION_FIN_DATAGRAM then quicrq_fin_msg_reserve (group_id m) (object_id m)
  else if ty =? QUICRQ_ACTION_FRAGMENT then
    quicrq_fragment_msg_reserve (group_id m) (object_id m) (nb_objects_previous_group m)
      (fragment_offset m) (object_length m) (fragment_length m)
  else if ty =? QUICRQ_ACTION_POST then quicrq_post_msg_reserve (url_length m)
  else if ty =? QUICRQ_ACTION_ACCEPT then
    quicrq_accept_msg_reserve (transport_mode m) (media_id m)
  else if ty =? QUICRQ_ACTION_START_POINT then
    quicrq_start_point_msg_reserve (group_id m) (object_id m)
  else if ty =? QUICRQ_ACTION_SUBSCRIBE then quicrq_subscribe_msg_reserve (url_length m)
  else if ty =? QUICRQ_ACTION_NOTIFY then quicrq_notify_msg_reserve (url_length m)
  else if ty =? QUICRQ_ACTION_CACHE_POLICY then quicrq_cache_policy_msg_reserve
  else if ty =? QUICRQ_ACTION_WARP_HEADER then
    quicrq_warp_header_msg_reserve (media_id m) (group_id m)
  else quicrq_object_header_msg_reserve (object_id m) (nb_objects_previous_group m)
    (object_length m).

Definition msg_known_type (m : quicrq_message_t) : bool :=
  bool_decide (message_type m ∈ [1; 3; 5; 6; 7; 8; 9; 10; 11; 12; 13]).

(** ** Lemmas on each message *)

Lemma transport_mode_roundtrip t : transport_mode_of_Z (transport_mode_to_Z t) = t.
Proof. by destruct t. Qed.
Lemma transport_mode_range t : 0 <= transport_mode_to_Z t < quicrq_transport_mode_max.
Proof. by destruct t. Qed.
Lemma transport_mode_eqb t t' :
  (transport_mode_to_Z t =? transport_mode_to_Z t') = bool_decide (t = t').
Proof. by destruct t, t'. Qed.
Lemma intent_roundtrip i : intent_of_Z (intent_to_Z i) = i.
Proof. by destruct i. Qed.

Lemma is_varint_small v : 0 <= v < 64 -> is_varint v.
Proof. unfold is_varint. u64_lia. Qed.
Lemma is_varint_mode t : is_varint (transport_mode_to_Z t).
Proof. by destruct t. Qed.
Lemma is_varint_intent i : is_varint (intent_to_Z i).
Proof. by destruct i. Qed.
Lemma is_varint_0 : is_varint 0.
Proof. done. Qed.
#[export] Hint Resolve is_varint_mode is_varint_intent is_varint_0 : codec.

Lemma parses_put_byte v : parses (put_byte v) get_byte v.
Proof.
  intros room bs rest. unfold put_byte. destruct (0 <? room); [| done]. by intros [= <-].
Qed.
#[export] Hint Resolve parses_put_byte : codec.

(** A conditional field: the decoder takes the same branch as the encoder. *)
Lemma parses_opt {A} (b : bool) e1 e2 (d1 d2 : dec A) a1 a2 :
  parses e1 d1 a1 -> parses e2 d2 a2 ->
  parses (if b then e1 else e2) (if b then d1 else d2) (if b then a1 else a2).
Proof. by destruct b. Qed.

(** Reading back one field after the other. *)
Ltac parse_fields :=
  repeat lazymatch goal with
  | |- parses (picoquic_frames_length_data_encode _ _ >>> _) _ _ =>
      apply parses_length_data; [auto with codec | done |]
  | |- parses (_ >>> _) _ _ => eapply parses_seq; [eauto with codec |]
  | |- parses _ (dbind _ _) _ => eapply parses_last; [eauto with codec | done]
  end.

Section roundtrips.
Context `{FL : FramesLaws}.

Lemma enc_seq_ret_r e room : (e >>> enc_ret) room = e room.
Proof. unfold enc_seq, enc_ret. destruct (e room); [| done]. by rewrite app_nil_r. Qed.

Lemma parses_url {B} e1 ulen u (k : Z -> list Z -> dec B) (b : B) :
  is_varint ulen -> ulen <= blen u -> parses e1 (k ulen (ztake ulen u)) b ->
  parses (picoquic_frames_length_data_encode ulen u >>> e1)
    (let! n := picoquic_frames_varlen_decode in
     let! data := dhere in
     let! _ := dmove (picoquic_frames_fixed_skip n) in
     k n (ztake n data)) b.
Proof. apply parses_length_data. Qed.

Lemma subscribe_msg_parses ty ulen u :
  is_varint ty -> is_varint ulen -> ulen <= blen u ->
  parses (quicrq_subscribe_msg_encode ty ulen u) quicrq_subscribe_msg_decode
    (ty, ulen, ztake ulen u).
Proof.
  intros Ht Hu Hl. unfold quicrq_subscribe_msg_encode, quicrq_subscribe_msg_decode.
  eapply parses_seq; [eauto with codec |]. intros room bs rest Hb.
  rewrite <- enc_seq_ret_r in Hb.
  apply (parses_length_data ulen u (fun n d => dret (ty, n, d)) enc_ret _ Hu Hl
    (parses_ret _) _ _ rest Hb).
Qed.

Lemma notify_msg_parses ty ulen u :
  is_varint ty -> is_varint ulen -> ulen <= blen u ->
  parses (quicrq_notify_msg_encode ty ulen u) quicrq_notify_msg_decode
    (ty, ulen, ztake ulen u).
Proof. apply subscribe_msg_parses. Qed.

Lemma rq_msg_parses ty ulen u mid tm si g o :
  is_varint ty -> is_varint ulen -> ulen <= blen u -> is_varint mid ->
  is_varint g -> is_varint o ->
  parses (quicrq_rq_msg_encode ty ulen u mid tm si g o) quicrq_rq_msg_decode
    (ty, ulen, ztake ulen u, mid, tm, si,
     if decide (si = quicrq_subscribe_intent_start_point) then g else 0,
     if decide (si = quicrq_subscribe_intent_start_point) then o else 0).
Proof.
  intros Ht Hu Hl Hm Hg Ho. unfold quicrq_rq_msg_encode, quicrq_rq_msg_decode.
  eapply parses_seq; [eauto with codec |].
  match goal with |- parses _ _ ?b => apply (parses_url _ ulen u (fun n d =>
    let! media_id := picoquic_frames_varint_decode in
    let! t_mode_64 := picoquic_frames_varint_decode in
    let! intent_64 := picoquic_frames_varint_decode in
    if (intent_to_Z quicrq_subscribe_intent_start_point <? intent_64)
       || (quicrq_transport_mode_max <=? t_mode_64) then dfail
    else if decide (intent_of_Z intent_64 = quicrq_subscribe_intent_start_point) then
      let! g := picoquic_frames_varint_decode in
      let! o := picoquic_frames_varint_decode in
      dret (ty, n, d, media_id, transport_mode_of_Z t_mode_64, intent_of_Z intent_64, g, o)
    else dret (ty, n, d, media_id, transport_mode_of_Z t_mode_64, intent_of_Z intent_64, 0, 0))
    b Hu Hl) end.
  parse_fields. rewrite intent_roundtrip, transport_mode_roundtrip.
  pose proof (transport_mode_range tm).
  destruct (Z.leb_spec quicrq_transport_mode_max (transport_mode_to_Z tm)); [lia |].
  destruct (Z.ltb_spec (intent_to_Z quicrq_subscribe_intent_start_point) (intent_to_Z si));
    [by destruct si |]. cbn [orb].
  destruct (decide _); [parse_fields | apply parses_ret].
Qed.

Lemma fin_msg_parses ty g o :
  is_varint ty -> is_varint g -> is_varint o ->
  parses (quicrq_fin_msg_encode ty g o) quicrq_fin_msg_decode (ty, g, o).
Proof. intros. unfold quicrq_fin_msg_encode, quicrq_fin_msg_decode. parse_fields. Qed.

Lemma start_point_msg_parses ty g o :
  is_varint ty -> is_varint g -> is_varint o ->
  parses (quicrq_start_point_msg_encode ty g o) quicrq_start_point_msg_decode (ty, g, o).
Proof. intros. unfold quicrq_start_point_msg_encode, quicrq_start_point_msg_decode. parse_fields. Qed.

Lemma warp_header_msg_parses ty mid g :
  is_varint ty -> is_varint mid -> is_varint g ->
  parses (quicrq_warp_header_msg_encode ty mid g) quicrq_warp_header_msg_decode (ty, mid, g).
Proof. intros. unfold quicrq_warp_header_msg_encode, quicrq_warp_header_msg_decode. parse_fields. Qed.

Lemma cache_policy_msg_parses ty cp :
  is_varint ty ->
  parses (quicrq_cache_policy_msg_encode ty cp) quicrq_cache_policy_msg_decode (ty, cp).
Proof. intros. unfold quicrq_cache_policy_msg_encode, quicrq_cache_policy_msg_decode. parse_fields. Qed.

Lemma fragment_msg_parses ty g o nb off olen fl n d :
  is_varint ty -> is_varint g -> is_varint o -> is_varint nb -> is_varint off ->
  is_varint olen -> is_varint n -> n <= blen d ->
  parses (quicrq_fragment_msg_encode ty g o nb off olen fl n (Some d))
    quicrq_fragment_msg_decode
    (ty, g, o, if (o =? 0) && (off =? 0) then nb else 0, off, olen, fl, n, ztake n d).
Proof.
  intros. unfold quicrq_fragment_msg_encode, quicrq_fragment_msg_decode.
  do 6 (eapply parses_seq; [eauto with codec |]).
  eapply parses_seq; [apply parses_opt; eauto with codec |].
  intros room bs rest Hb. rewrite <- enc_seq_ret_r in Hb. revert room bs rest Hb.
  change (parses (picoquic_frames_length_data_encode n d >>> enc_ret)
    (let! length := picoquic_frames_varlen_decode in
     let! data := dhere in
     let! _ := dmove (picoquic_frames_fixed_skip length) in
     (fun length data => dret (ty, g, o, if (o =? 0) && (off =? 0) then nb else 0, off, olen,
        fl, length, data)) length (ztake length data))
    (ty, g, o, if (o =? 0) && (off =? 0) then nb else 0, off, olen, fl, n, ztake n d)).
  apply parses_length_data; auto with codec.
Qed.

Lemma post_msg_parses ty ulen u tm cp g o :
  is_varint ty -> is_varint ulen -> ulen <= blen u -> is_varint g -> is_varint o ->
  parses (quicrq_post_msg_encode ty ulen u tm cp g o) quicrq_post_msg_decode
    (ty, ulen, ztake ulen u, tm, cp, g, o).
Proof.
  intros. unfold quicrq_post_msg_encode, quicrq_post_msg_decode.
  eapply parses_seq; [eauto with codec |].
  match goal with |- parses _ _ ?b => apply (parses_url _ ulen u (fun n d =>
    let! t_mode := picoquic_frames_varint_decode in
    let! cache_policy := picoquic_frames_uint8_decode in
    let! g := picoquic_frames_varint_decode in
    let! o := picoquic_frames_varint_decode in
    if t_mode <? quicrq_transport_mode_max then
      dret (ty, n, d, transport_mode_of_Z t_mode, cache_policy, g, o)
    else dfail) b) end; [done | done |].
  parse_fields. pose proof (transport_mode_range tm).
  eapply parses_last; [eauto with codec |]. cbn beta.
  destruct (Z.ltb_spec (transport_mode_to_Z tm) quicrq_transport_mode_max); [| lia].
  by rewrite transport_mode_roundtrip.
Qed.

Lemma accept_msg_parses ty tm mid :
  is_varint ty -> is_varint mid ->
  parses (quicrq_accept_msg_encode ty tm mid) quicrq_accept_msg_decode
    (ty, tm, if decide (tm = quicrq_transport_mode_single_stream) then 0 else mid).
Proof.
  intros. unfold quicrq_accept_msg_encode, quicrq_accept_msg_decode. parse_fields.
  rewrite transport_mode_roundtrip, transport_mode_eqb. pose proof (transport_mode_range tm).
  destruct (Z.leb_spec quicrq_transport_mode_max (transport_mode_to_Z tm)); [lia |].
  destruct (decide (tm = quicrq_transport_mode_single_stream)) as [Hs | Hs].
  - rewrite decide_False, bool_decide_true by tauto. apply parses_ret.
  - rewrite decide_True, bool_decide_false by tauto. cbn [negb]. parse_fields.
Qed.

Lemma object_header_msg_parses ty o nb fl olen :
  is_varint ty -> is_varint o -> is_varint nb -> is_varint olen ->
  parses (quicrq_object_header_msg_encode ty o nb fl olen) quicrq_object_header_msg_decode
    (ty, o, if o =? 0 then nb else 0, fl, olen).
Proof.
  intros. unfold quicrq_object_header_msg_encode, quicrq_object_header_msg_decode.
  do 2 (eapply parses_seq; [eauto with codec |]).
  eapply parses_seq; [apply parses_opt; eauto with codec |]. parse_fields.
Qed.
End roundtrips.

(** ** Sizes *)

Lemma sized_put_byte v : sized (put_byte v) 1.
Proof.
  unfold put_byte. repeat split; [lia | |]; intros room Hr;
    destruct (Z.ltb_spec 0 room); try lia; [by eexists | done].
Qed.

Lemma sized_if (b : bool) e1 e2 n1 n2 :
  sized e1 n1 -> sized e2 n2 -> sized (if b then e1 else e2) (if b then n1 else n2).
Proof. by destruct b. Qed.
Lemma sized_decide P {D : Decision P} e1 e2 n1 n2 :
  sized e1 n1 -> sized e2 n2 ->
  sized (if decide P then e1 else e2) (if decide P then n1 else n2).
Proof. by destruct (decide P). Qed.

Ltac size_fields :=
  repeat lazymatch goal with
  | |- sized (_ >>> _) _ => eapply sized_seq
  | |- sized (picoquic_frames_varint_encode _) _ => apply sized_varint; eauto with codec
  | |- sized (picoquic_frames_length_data_encode _ _) _ => apply sized_length_data; [done | done]
  | |- sized (picoquic_frames_uint8_encode _) _ => apply sized_uint8
  | |- sized (put_byte _) _ => apply sized_put_byte
  | |- sized enc_ret _ => apply sized_ret
  | |- sized (if decide ?b then _ else _) _ => apply (sized_decide b)
  | |- sized (if ?b then _ else _) _ => apply (sized_if b)
  end.

(** [fits e r]: the encoder writes a fixed number of bytes, at most [r], and
    succeeds exactly when it has room for them. *)
Definition fits (e : enc) (r : Z) : Prop := exists n, n <= r /\ sized e n.

Section sizes.
Context `{FL : FramesLaws}.
Abbreviation vlen := picoquic_frames_varint_encode_length (only parsing).

Lemma vlen_mode t : vlen (transport_mode_to_Z t) = 1.
Proof. apply varint_length_1. pose proof (transport_mode_range t).
  unfold quicrq_transport_mode_max in *. lia. Qed.
Lemma vlen_intent i : vlen (intent_to_Z i) = 1.
Proof. apply varint_length_1. by destruct i. Qed.

Lemma rq_msg_fits ty ulen u mid tm si g o :
  0 <= ty < 64 -> is_varint ulen -> ulen <= blen u -> is_varint mid ->
  is_varint g -> is_varint o ->
  fits (quicrq_rq_msg_encode ty ulen u mid tm si g o) (quicrq_rq_msg_reserve ulen si).
Proof.
  intros Ht Hu Hl Hm Hg Ho. apply is_varint_small in Ht as Ht'.
  unfold fits, quicrq_rq_msg_encode, quicrq_rq_msg_reserve.
  eexists. split; cycle 1; [size_fields |].
  rewrite vlen_mode, vlen_intent, (varint_length_1 ty) by done.
  pose proof (varint_length_range _ Hu). pose proof (varint_length_range _ Hm).
  pose proof (varint_length_range _ Hg). pose proof (varint_length_range _ Ho).
  destruct (decide _); lia.
Qed.

Lemma subscribe_msg_fits ty ulen u :
  0 <= ty < 64 -> is_varint ulen -> ulen <= blen u ->
  fits (quicrq_subscribe_msg_encode ty ulen u) (quicrq_subscribe_msg_reserve ulen).
Proof.
  intros Ht Hu Hl. apply is_varint_small in Ht as Ht'.
  unfold fits, quicrq_subscribe_msg_encode, quicrq_subscribe_msg_reserve.
  eexists. split; cycle 1; [size_fields |].
  rewrite (varint_length_1 ty) by done. pose proof (varint_length_range _ Hu). lia.
Qed.

Lemma post_msg_fits ty ulen u tm cp g o :
  0 <= ty < 64 -> 0 <= ulen < 16384 -> ulen <= blen u -> is_varint g -> is_varint o ->
  fits (quicrq_post_msg_encode ty ulen u tm cp g o) (quicrq_post_msg_reserve ulen).
Proof.
  intros Ht Hu Hl Hg Ho. apply is_varint_small in Ht as Ht'.
  assert (is_varint ulen) by (unfold is_varint; u64_lia).
  unfold fits, quicrq_post_msg_encode, quicrq_post_msg_reserve.
  eexists. split; cycle 1; [size_fields |].
  rewrite vlen_mode, (varint_length_1 ty) by done. pose proof (varint_length_2 _ Hu).
  pose proof (varint_length_range _ Hg). pose proof (varint_length_range _ Ho). lia.
Qed.

Lemma accept_msg_fits ty tm mid :
  0 <= ty < 64 -> is_varint mid ->
  fits (quicrq_accept_msg_encode ty tm mid) (quicrq_accept_msg_reserve tm mid).
Proof.
  intros Ht Hm. apply is_varint_small in Ht as Ht'.
  unfold fits, quicrq_accept_msg_encode, quicrq_accept_msg_reserve.
  eexists. split; cycle 1; [size_fields |].
  rewrite (varint_length_1 ty) by done. destruct (decide _); lia.
Qed.

(** Three varints: fin, start point and warp header messages. *)
Lemma triple_fits ty a b :
  0 <= ty < 64 -> is_varint a -> is_varint b ->
  fits (picoquic_frames_varint_encode ty >>> picoquic_frames_varint_encode a >>>
        picoquic_frames_varint_encode b) (1 + vlen a + vlen b).
Proof.
  intros Ht Ha Hb. apply is_varint_small in Ht as Ht'. unfold fits.
  eexists. split; cycle 1; [size_fields |]. rewrite (varint_length_1 ty) by done. lia.
Qed.

Lemma cache_policy_msg_fits ty cp :
  0 <= ty < 64 -> fits (quicrq_cache_policy_msg_encode ty cp) quicrq_cache_policy_msg_reserve.
Proof.
  intros Ht. apply is_varint_small in Ht as Ht'. unfold fits, quicrq_cache_policy_msg_encode.
  eexists. split; cycle 1; [size_fields |]. rewrite (varint_length_1 ty) by done.
  unfold quicrq_cache_policy_msg_reserve. lia.
Qed.

Lemma object_header_msg_fits ty o nb fl olen :
  0 <= ty < 64 -> is_varint o -> is_varint nb -> is_varint olen ->
  fits (quicrq_object_header_msg_encode ty o nb fl olen)
    (quicrq_object_header_msg_reserve o nb olen).
Proof.
  intros Ht Ho Hn Hl. apply is_varint_small in Ht as Ht'.
  unfold fits, quicrq_object_header_msg_encode, quicrq_object_header_msg_reserve.
  eexists. split; cycle 1; [size_fields |]. rewrite (varint_length_1 ty) by done.
  destruct (o =? 0); lia.
Qed.

(** The payload is not part of the reservation of a fragment message. *)
Lemma fragment_msg_fits ty g o nb off olen fl n d :
  0 <= ty < 64 -> is_varint g -> is_varint o -> is_varint nb -> is_varint off ->
  is_varint olen -> is_varint n ->
  match d with Some bytes => n <= blen bytes | None => True end ->
  fits (quicrq_fragment_msg_encode ty g o nb off olen fl n d)
    (quicrq_fragment_msg_reserve g o nb off olen n + match d with Some _ => n | None => 0 end).
Proof.
  intros Ht Hg Ho Hnb Hoff Hl Hn Hd. apply is_varint_small in Ht as Ht'.
  unfold fits, quicrq_fragment_msg_encode, quicrq_fragment_msg_reserve.
  destruct d; (eexists; split; cycle 1; [size_fields |]);
    rewrite (varint_length_1 ty) by done; destruct (_ && _); lia.
Qed.
End sizes.

(** ** The properties *)

Section theorems.
Context `{FL : FramesLaws}.

Lemma enc_head_type ty e room bs rest :
  is_varint ty -> (picoquic_frames_varint_encode ty >>> e) room = Some bs ->
  exists r, picoquic_frames_varint_decode (bs ++ rest) = Some (ty, r).
Proof.
  intros Ht. unfold enc_seq. destruct (picoquic_frames_varint_encode ty room) eqn:E; [| done].
  destruct (e _); [| done]. intros [= <-]. rewrite <- (assoc_L (++)).
  eexists. by eapply parses_varint.
Qed.

(** The dispatcher runs the decoder selected by the type the encoder wrote. *)
Lemma msg_encode_head m room bs rest :
  quicrq_msg_encode m room = Some bs ->
  msg_known_type m = true /\
  exists r, picoquic_frames_varint_decode (bs ++ rest) = Some (message_type m, r).
Proof.
  unfold quicrq_msg_encode. cbn zeta. intros Hb.
  repeat match type of Hb with (if ?t =? ?k then _ else _) _ = _ =>
    let E := fresh "E" in destruct (Z.eqb_spec t k) as [E |];
    [split; [by unfold msg_known_type; rewrite E |];
     eapply enc_head_type; [| exact Hb]; rewrite E; by apply is_varint_small |]
  end. done.
Qed.

Lemma dbind_parses {A B} e (d : dec A) a (k : A -> dec B) room bs rest :
  parses e d a -> e room = Some bs -> dbind d k (bs ++ rest) = k a rest.
Proof. intros Hp Hb. unfold dbind. by rewrite (Hp _ _ _ Hb). Qed.

Lemma known_type_varint m : msg_known_type m = true -> is_varint (message_type m).
Proof.
  unfold msg_known_type. intros H%bool_decide_eq_true_1. apply is_varint_small.
  rewrite !elem_of_cons, elem_of_nil in H. lia.
Qed.

(** One branch of the dispatchers. *)
Ltac msg_branch Hb :=
  match goal with |- (if ?t =? ?k then _ else _) _ = _ -> _ =>
    destruct (t =? k) eqn:?; cbn [orb];
    [intros Hb; etransitivity;
     [eapply dbind_parses; [|exact Hb]; eauto using rq_msg_parses, fin_msg_parses,
        post_msg_parses, accept_msg_parses, start_point_msg_parses, subscribe_msg_parses,
        notify_msg_parses, cache_policy_msg_parses, warp_header_msg_parses,
        object_header_msg_parses
     | by cbn -[decide]] | ] end.

Lemma msg_parses m room bs rest :
  msg_in_range m -> (message_type m = QUICRQ_ACTION_FRAGMENT -> data m <> None) ->
  quicrq_msg_encode m room = Some bs ->
  quicrq_msg_decode (bs ++ rest) = Some (msg_carried m, rest).
Proof.
  intros (Hu & Hul & Hmid & Hg & Ho & Hnb & Hoff & Hol & Hfl & Hd) Hdata Hb.
  destruct (msg_encode_head m room bs rest Hb) as [Hk [r Hty]].
  apply known_type_varint in Hk. revert Hb.
  unfold quicrq_msg_decode, msg_carried, quicrq_msg_encode. rewrite Hty. cbn zeta.
  do 2 msg_branch Hb.
  destruct (message_type m =? QUICRQ_ACTION_FRAGMENT) eqn:E; cbn [orb].
  { apply Z.eqb_eq in E as E'. specialize (Hdata E').
    destruct (data m) as [d |]; [| done]. clear E'.
    intros Hb. etransitivity;
      [eapply dbind_parses; [|exact Hb]; eauto using fragment_msg_parses | by cbn]. }
  do 8 msg_branch Hb. done.
Qed.

(** [C12] Round trip of every control message: what [quicrq_msg_encode]
    writes, followed by anything, is read back by [quicrq_msg_decode] as
    the fields the message carries, and decoding stops exactly where
    encoding stopped. *)
Theorem quicrq_msg_roundtrip m room bs rest :
  msg_in_range m -> (message_type m = QUICRQ_ACTION_FRAGMENT -> data m <> None) ->
  quicrq_msg_encode m room = Some bs ->
  quicrq_msg_decode (bs ++ rest) = Some (msg_carried m, rest).
Proof. apply msg_parses. Qed.

Lemma transport_mode_cast z :
  0 <= z < quicrq_transport_mode_max -> transport_mode_to_Z (transport_mode_of_Z z) = z.
Proof.
  unfold quicrq_transport_mode_max. intros.
  assert (z = 0 \/ z = 1 \/ z = 2 \/ z = 3 \/ z = 4) as [-> | [-> | [-> | [-> | ->]]]] by lia;
    done.
Qed.

Lemma msg_fits m :
  msg_in_range m -> msg_known_type m = true -> url_length m < 16384 ->
  fits (quicrq_msg_encode m)
    (msg_reserve m +
     if message_type m =? QUICRQ_ACTION_FRAGMENT
     then match data m with Some _ => fragment_length m | None => 0 end else 0).
Proof.
  intros (Hu & Hul & Hmid & Hg & Ho & Hnb & Hoff & Hol & Hfl & Hd) Hk Hlen.
  assert (0 <= url_length m < 16384) by (destruct Hu; lia).
  assert (0 <= message_type m < 64) as Ht.
  { apply bool_decide_eq_true_1 in Hk. rewrite !elem_of_cons, elem_of_nil in Hk. lia. }
  unfold quicrq_msg_encode, msg_reserve. cbn zeta.
  repeat match goal with |- context [message_type m =? ?k] =>
    destruct (Z.eqb_spec (message_type m) k) as [E |];
    [try (rewrite E in *; unfold k in *; cbn [Z.eqb Pos.eqb]; rewrite ?Z.add_0_r) |] end;
  eauto using rq_msg_fits, subscribe_msg_fits, post_msg_fits, accept_msg_fits, triple_fits,
    cache_policy_msg_fits, object_header_msg_fits, fragment_msg_fits.
  exfalso. apply bool_decide_eq_true_1 in Hk. rewrite !elem_of_cons, elem_of_nil in Hk.
  unfold QUICRQ_ACTION_REQUEST, QUICRQ_ACTION_FIN_DATAGRAM, QUICRQ_ACTION_FRAGMENT,
    QUICRQ_ACTION_POST, QUICRQ_ACTION_ACCEPT, QUICRQ_ACTION_START_POINT,
    QUICRQ_ACTION_SUBSCRIBE, QUICRQ_ACTION_NOTIFY, QUICRQ_ACTION_CACHE_POLICY,
    QUICRQ_ACTION_WARP_HEADER, QUICRQ_ACTION_OBJECT_HEADER in *. lia.
Qed.

(** [C34] The reservation functions are large enough: for every message whose
    URL is shorter than 16384 bytes, encoding succeeds exactly when the
    buffer has some room [n] that does not exceed what [_reserve] announces
    (plus the payload, for a fragment message that carries its data). *)
Theorem quicrq_msg_reserve_fits m :
  msg_in_range m -> msg_known_type m = true -> url_length m < 16384 ->
  fits (quicrq_msg_encode m)
    (msg_reserve m +
     if message_type m =? QUICRQ_ACTION_FRAGMENT
     then match data m with Some _ => fragment_length m | None => 0 end else 0).
Proof. apply msg_fits. Qed.

(** [yields d bs Q]: if [d] succeeds on [bs], its result satisfies [Q] and
    the pointer it returns is inside [bs]. *)
Definition yields {A} (d : dec A) (bs : list Z) (Q : A -> Prop) : Prop :=
  forall a rest, d bs = Some (a, rest) -> Q a /\ exists p, bs = p ++ rest.

Lemma yields_ret {A} (a : A) bs (Q : A -> Prop) : Q a -> yields (dret a) bs Q.
Proof. intros Ha a' rest [= <- <-]. split; [done |]. by exists []. Qed.
Lemma yields_ret_bind {A B} (a : A) (k : A -> dec B) bs Q :
  yields (k a) bs Q -> yields (dbind (dret a) k) bs Q.
Proof. done. Qed.
Lemma yields_fail {A} bs (Q : A -> Prop) : yields dfail bs Q.
Proof. by intros a rest. Qed.
Lemma yields_fail_bind {A B} (k : A -> dec B) bs Q : yields (dbind dfail k) bs Q.
Proof. by intros a rest. Qed.
Lemma yields_assoc {A B C} (d : dec A) (k : A -> dec B) (k2 : B -> dec C) bs Q :
  yields (dbind d (fun a => dbind (k a) k2)) bs Q -> yields (dbind (dbind d k) k2) bs Q.
Proof.
  intros H a rest. specialize (H a rest). revert H. unfold dbind.
  by destruct (d bs) as [[? ?] |].
Qed.
Lemma yields_varint {B} (k : Z -> dec B) bs Q :
  (forall v r, is_varint v -> yields (k v) r Q) ->
  yields (dbind picoquic_frames_varint_decode k) bs Q.
Proof.
  intros H a rest. unfold dbind.
  destruct (picoquic_frames_varint_decode bs) as [[v r] |] eqn:E; [| done].
  apply varint_decode_inv in E as (Hv & p & _ & ->). intros [Ha [q ->]]%H; [| done].
  split; [done |]. exists (p ++ q). by rewrite (assoc_L (++)).
Qed.
Lemma yields_varlen {B} (k : Z -> dec B) bs Q :
  (forall v r, is_varint v -> yields (k v) r Q) ->
  yields (dbind picoquic_frames_varlen_decode k) bs Q.
Proof.
  intros H a rest. specialize (yields_varint k bs Q H a rest). unfold dbind.
  by rewrite varlen_decode_eq.
Qed.
Lemma yields_get_byte {B} (k : Z -> dec B) bs Q :
  (forall v r, yields (k v) r Q) -> yields (dbind get_byte k) bs Q.
Proof.
  intros H a rest. unfold dbind, get_byte. destruct bs as [| b r]; [done |].
  intros [Ha [q ->]]%H. split; [done |]. by exists (b :: q).
Qed.
Lemma yields_uint8 {B} (k : Z -> dec B) bs Q :
  (forall v r, yields (k v) r Q) -> yields (dbind picoquic_frames_uint8_decode k) bs Q.
Proof.
  intros H a rest. specialize (yields_get_byte k bs Q H a rest). unfold dbind, get_byte.
  by rewrite uint8_decode_eq.
Qed.
Lemma yields_here {B} (k : list Z -> dec B) bs Q :
  yields (k bs) bs Q -> yields (dbind dhere k) bs Q.
Proof. done. Qed.
Lemma yields_skip {B} n (k : unit -> dec B) bs Q : is_varint n ->
  (n <= blen bs -> blen (ztake n bs) = n -> yields (k tt) (zdrop n bs) Q) ->
  yields (dbind (dmove (picoquic_frames_fixed_skip n)) k) bs Q.
Proof.
  intros [Hn _] H a rest. unfold dbind, dmove. rewrite fixed_skip_eq by done.
  destruct (Z.leb_spec n (blen bs)); [| done].
  intros [Ha [q Hq]]%H; [| done | by apply blen_ztake]. split; [done |].
  exists (ztake n bs ++ q). by rewrite <- (assoc_L (++)), <- Hq, ztake_zdrop.
Qed.

(** Symbolic execution of a decoder. *)
Ltac yields_fields :=
  repeat lazymatch goal with
  | |- yields (dbind (dbind _ _) _) _ _ => apply yields_assoc
  | |- yields (dbind (dret _) _) _ _ => apply yields_ret_bind; cbn beta iota
  | |- yields (dbind dfail _) _ _ => apply yields_fail_bind
  | |- yields (dbind (if decide ?b then _ else _) _) _ _ => destruct (decide b)
  | |- yields (dbind (if ?b then _ else _) _) _ _ => destruct b eqn:?
  | |- yields (dbind picoquic_frames_varint_decode _) _ _ => apply yields_varint; intros ???
  | |- yields (dbind picoquic_frames_varlen_decode _) _ _ => apply yields_varlen; intros ???
  | |- yields (dbind picoquic_frames_uint8_decode _) _ _ => apply yields_uint8; intros ??
  | |- yields (dbind get_byte _) _ _ => apply yields_get_byte; intros ??
  | |- yields (dbind dhere _) _ _ => apply yields_here
  | |- yields (dbind (dmove _) _) _ _ => apply yields_skip; [done | intros ??]
  | |- yields (if ?b then _ else _) _ _ => destruct b eqn:?
  | |- yields dfail _ _ => apply yields_fail
  | |- yields (dret _) _ _ => apply yields_ret
  end.

(** The second decoding of the message type reads what the first one read. *)
Lemma decode_type_again {A B} (k : Z -> dec A) (k2 : A -> dec B) bs ty r :
  picoquic_frames_varint_decode bs = Some (ty, r) ->
  dbind (dbind picoquic_frames_varint_decode k) k2 bs = dbind (k ty) k2 r.
Proof. intros H. unfold dbind. by rewrite H. Qed.

Definition msg_decoded (ty : Z) (m : quicrq_message_t) : Prop :=
  message_type m = ty /\ msg_in_range m /\ blen (url m) = url_length m /\
  match data m with Some d => blen d = fragment_length m | None => True end.

(** [C27] Decoding is safe on any input: a decoded message has one of the
    eleven known types, its transmitted integers are in range, its URL and
    its data have exactly the announced length and lie inside the buffer,
    and the returned pointer is inside the buffer, past at least one byte. *)
Theorem quicrq_msg_decode_safe bs m rest :
  quicrq_msg_decode bs = Some (m, rest) ->
  msg_known_type m = true /\ msg_in_range m /\ blen (url m) = url_length m /\
  match data m with Some d => blen d = fragment_length m | None => True end /\
  exists p, p <> [] /\ bs = p ++ rest.
Proof.
  unfold quicrq_msg_decode.
  destruct (picoquic_frames_varint_decode bs) as [[ty r] |] eqn:E; [| done].
  pose proof (varint_decode_inv _ _ _ E) as (_ & p & Hp & Hbs).
  assert (forall (A : Type) (k : Z -> dec A) k2,
    bool_decide (ty ∈ [1; 3; 5; 6; 7; 8; 9; 10; 11; 12; 13]) = true ->
    yields (dbind (k ty) k2) r (msg_decoded ty) ->
    dbind (dbind picoquic_frames_varint_decode k) k2 bs = Some (m, rest) ->
    msg_known_type m = true /\ msg_in_range m /\ blen (url m) = url_length m /\
    match data m with Some d => blen d = fragment_length m | None => True end /\
    exists p, p <> [] /\ bs = p ++ rest) as Hgo.
  { intros A k k2 Hk Hy. rewrite (decode_type_again k k2 bs ty r E).
    intros [(Ht & Hr & Hu & Hd) [q ->]]%Hy. unfold msg_known_type. rewrite Ht.
    repeat split; auto; [apply Hr .. |]. exists (p ++ q). rewrite Hbs, (assoc_L (++)).
    split; [| done]. by intros [-> ->]%app_nil. }
  repeat match goal with |- (if ty =? ?k then _ else _) _ = _ -> _ =>
    destruct (Z.eqb_spec ty k) as [Ek |];
      [apply Hgo; [by rewrite Ek | clear Hgo E Hbs] |] end; [.. | done].
  all: unfold quicrq_rq_msg_decode; yields_fields.
  all: unfold msg_decoded, msg_in_range; cbn [message_type url_length url media_id group_id
    object_id nb_objects_previous_group fragment_offset object_length fragment_length data
    msg_set]; split_and!; auto with codec; try done; try lia.
Qed.

Lemma datagram_header_parses mid g o off delay fl nb olen :
  is_varint mid -> is_varint g -> is_varint o -> is_varint off -> is_varint delay ->
  is_varint nb -> is_varint olen ->
  parses (quicrq_datagram_header_encode mid g o off delay fl nb olen)
    quicrq_datagram_header_decode
    (mid, g, o, off, delay, fl, if (o =? 0) && (off =? 0) then nb else 0, olen).
Proof.
  intros Hm Hg Ho Hoff Hdel Hnb Hl.
  unfold quicrq_datagram_header_encode, quicrq_datagram_header_decode.
  do 6 (eapply parses_seq; [eauto with codec |]).
  eapply parses_seq.
  { intros room bs rest Hb. rewrite uint8_decode_eq. by apply (parses_put_byte fl room). }
  destruct (_ && _); [parse_fields | apply parses_ret].
Qed.

Lemma datagram_header_fits mid g o off delay fl nb olen :
  is_varint mid -> is_varint g -> is_varint o -> is_varint off -> is_varint delay ->
  is_varint nb -> is_varint olen ->
  fits (quicrq_datagram_header_encode mid g o off delay fl nb olen) 57.
Proof.
  intros Hm Hg Ho Hoff Hdel Hnb Hl. unfold fits, quicrq_datagram_header_encode.
  eexists. split; cycle 1; [size_fields |].
  repeat match goal with H : is_varint ?v |- _ =>
    pose proof (varint_length_range v H); clear H end.
  destruct (_ && _); lia.
Qed.

(** [C35] Round trip of the datagram header, and its size: encoding succeeds
    exactly when there is room for the bytes written, at most 57. *)
Theorem quicrq_datagram_header_roundtrip mid g o off delay fl nb olen :
  is_varint mid -> is_varint g -> is_varint o -> is_varint off -> is_varint delay ->
  is_varint nb -> is_varint olen ->
  parses (quicrq_datagram_header_encode mid g o off delay fl nb olen)
    quicrq_datagram_header_decode
    (mid, g, o, off, delay, fl, if (o =? 0) && (off =? 0) then nb else 0, olen) /\
  fits (quicrq_datagram_header_encode mid g o off delay fl nb olen) 57.
Proof.
  intros. split; [by apply datagram_header_parses | by apply datagram_header_fits].
Qed.

(** [extends e e' s]: [e'] writes what [e] writes and then [s]. *)
Definition extends (e e' : enc) (s : list Z) : Prop :=
  forall room h, e room = Some h -> blen h + blen s <= room -> e' room = Some (h ++ s).

Lemma extends_seq e1 e2 e2' s :
  extends e2 e2' s -> extends (e1 >>> e2) (e1 >>> e2') s.
Proof.
  intros H room h. unfold enc_seq. destruct (e1 room) as [b1 |]; [| done].
  destruct (e2 _) as [b2 |] eqn:E; [| done]. intros [= <-]. rewrite blen_app. intros Hr.
  rewrite (H _ _ E) by lia. by rewrite (assoc_L (++)).
Qed.

Lemma extends_length_data n d :
  is_varint n -> n <= blen d ->
  extends (picoquic_frames_varint_encode n) (picoquic_frames_length_data_encode n d)
    (ztake n d).
Proof.
  intros Hn Hd room h Hh. rewrite blen_ztake by (destruct Hn; lia). intros Hr.
  rewrite length_data_encode_eq by done. unfold enc_seq. rewrite Hh.
  destruct (Z.leb_spec n (room - blen h)); [done | lia].
Qed.

(** Encoding a fragment message without its data writes the header
    only: appending the payload to it gives the complete message, which is
    how the single stream sender builds fragments in two steps. *)
Theorem quicrq_fragment_header_then_data ty g o nb off olen fl n d room h :
  is_varint n -> n <= blen d ->
  quicrq_fragment_msg_encode ty g o nb off olen fl n None room = Some h ->
  blen h + n <= room ->
  quicrq_fragment_msg_encode ty g o nb off olen fl n (Some d) room = Some (h ++ ztake n d).
Proof.
  intros Hn Hd Hh Hr.
  enough (extends (quicrq_fragment_msg_encode ty g o nb off olen fl n None)
    (quicrq_fragment_msg_encode ty g o nb off olen fl n (Some d)) (ztake n d)) as He.
  { apply He; [done |]. rewrite blen_ztake by (destruct Hn; lia). done. }
  unfold quicrq_fragment_msg_encode. do 7 apply extends_seq. by apply extends_length_data.
Qed.
End theorems.

(** ** Evaluations with RFC 9000 integers, and witnesses *)

Definition sample_request : quicrq_message_t :=
  msg_set QUICRQ_ACTION_REQUEST 3 [97; 98; 99] 5 300 70000 0 0 0 0 0 None
    quicrq_transport_mode_datagram 0 quicrq_subscribe_intent_start_point.

Definition sample_fragment : quicrq_message_t :=
  msg_set QUICRQ_ACTION_FRAGMENT 0 [] 0 2 0 17 0 129 4 4 (Some [1; 2; 3; 4])
    quicrq_transport_mode_unspecified 0 quicrq_subscribe_intent_current_group.

Lemma quicrq_msg_roundtrip_witness :
  exists bs, quicrq_msg_encode sample_request 100 = Some bs /\
    quicrq_msg_decode (bs ++ [255; 0]) = Some (msg_carried sample_request, [255; 0]).
Proof.
  eexists. split; [vm_compute; reflexivity |].
  apply (quicrq_msg_roundtrip sample_request 100);
    [vm_compute; intuition congruence | vm_compute; discriminate | vm_compute; reflexivity].
Defined.

Lemma quicrq_msg_reserve_fits_witness :
  fits (quicrq_msg_encode sample_fragment)
    (msg_reserve sample_fragment +
     if message_type sample_fragment =? QUICRQ_ACTION_FRAGMENT
     then match data sample_fragment with
          | Some _ => fragment_length sample_fragment | None => 0 end else 0).
Proof.
  apply (quicrq_msg_reserve_fits sample_fragment);
    [vm_compute; intuition congruence | vm_compute; reflexivity | vm_compute; reflexivity].
Defined.

Lemma quicrq_msg_decode_safe_witness :
  exists m, quicrq_msg_decode [8; 5; 64; 200; 9] = Some (m, [9]) /\ msg_known_type m = true.
Proof.
  eexists. split; [vm_compute; reflexivity |].
  refine (proj1 (quicrq_msg_decode_safe [8; 5; 64; 200; 9] _ [9] _)).
  vm_compute. reflexivity.
Defined.

Lemma quicrq_datagram_header_roundtrip_witness :
  fits (quicrq_datagram_header_encode 1 2 0 0 5 128 3 1000) 57.
Proof. refine (proj2 (quicrq_datagram_header_roundtrip 1 2 0 0 5 128 3 1000 _ _ _ _ _ _ _)); done. Defined.

Lemma quicrq_fragment_header_then_data_witness :
  quicrq_fragment_msg_encode 5 2 0 17 0 4 129 4 (Some [1; 2; 3; 4]) 100 =
    Some ([5; 2; 0; 0; 4; 129; 17; 4] ++ ztake 4 [1; 2; 3; 4]).
Proof.
  apply (quicrq_fragment_header_then_data 5 2 0 17 0 4 129 4 [1; 2; 3; 4] 100);
    [done | done | vm_compute; reflexivity | vm_compute; discriminate].
Defined.

(** [QUICRQ_DATAGRAM_HEADER_MAX] is too small: with RFC 9000 integers, a
    header with realistic values (a 20000 byte object sent from offset 17000
    after 20 ms of queueing, group 100) does not fit in 16 bytes, so that the
    sender fails where its comment says it should never happen. *)
Theorem quicrq_datagram_header_max_too_small :
  quicrq_datagram_header_encode 1 100 20 17000 20000 129 0 20000 QUICRQ_DATAGRAM_HEADER_MAX = None
  /\ exists bs, quicrq_datagram_header_encode 1 100 20 17000 20000 129 0 20000 57 = Some bs.
Proof. split; [by vm_compute | eexists; vm_compute; reflexivity]. Qed.
