(* ===== verification/Text.v ===== *)
(** * lib/quicrq.c: texts for the logs

    Urls are written as texts of a bounded size, with escapes, and the
    transport modes as letters and words. *)

From Stdlib Require Import Ascii String.
From S2P Require Import Prelude Proto.

(** ** Transport modes *)

Definition quicrq_transport_mode_to_letter (transport_mode : quicrq_transport_mode_enum) : ascii :=
  match transport_mode with
  | quicrq_transport_mode_single_stream => "s"
  | quicrq_transport_mode_warp => "w"
  | quicrq_transport_mode_rush => "r"
  | quicrq_transport_mode_datagram => "d"
  | _ => "u"
  end%char.

Definition quicrq_transport_mode_to_string (transport_mode : quicrq_transport_mode_enum) : string :=
  match transport_mode with
  | quicrq_transport_mode_single_stream => "stream"
  | quicrq_transport_mode_warp => "warp"
  | quicrq_transport_mode_rush => "rush"
  | quicrq_transport_mode_datagram => "datagram"
  | _ => "undefined"
  end%string.

(** ** Urls *)

(** Characters are their codes: 92 is the backslash, 46 the dot, 48 the digit
    zero, and the texts end with 0. *)
Definition escape (c : Z) : list Z :=
  if c =? 92 then [92; 92]
  else if (32 <=? c) && (c <=? 126) then [c]
  else
    let d := c / 100 in
    let c1 := c - 100 * d in
    let e := c1 / 10 in
    [92; 48 + d; 48 + e; 48 + (c1 - 10 * e)].

(** What was written, and the bytes that are left. *)
Fixpoint text_loop (available : Z) (u : list Z) (buffer : list Z) : list Z * list Z :=
  match u with
  | [] => (buffer, [])
  | c :: u' =>
      if blen buffer <? available then text_loop available u' (buffer ++ escape c) else (buffer, u)
  end.

Fixpoint dots_loop (n : nat) (available : Z) (buffer : list Z) : list Z :=
  match n with
  | O => buffer
  | S n' => if blen buffer <? available then dots_loop n' available (buffer ++ [46]) else buffer
  end.

(** A buffer that is too short is not used: the result is a constant. *)
Definition quicrq_uint8_t_to_text (u : list Z) (buffer_length : Z) : list Z :=
  if buffer_length <? 16 then [63; 63; 63; 0]
  else
    let '(buffer, rest) := text_loop (buffer_length - 8) u [] in
    match rest with
    | [] => buffer
    | _ => dots_loop 3 (buffer_length - 1) buffer
    end ++ [0].

(** ** Reading a text back *)

Fixpoint read_text (s : list Z) : option (list Z) :=
  match s with
  | [] => Some []
  | c :: s =>
      if c =? 92 then
        match s with
        | d :: s =>
            if d =? 92 then option_map (cons 92) (read_text s)
            else
              match s with
              | e :: f :: s =>
                  option_map (cons (100 * (d - 48) + 10 * (e - 48) + (f - 48))) (read_text s)
              | _ => None
              end
        | [] => None
        end
      else option_map (cons c) (read_text s)
  end.

Definition printable (c : Z) : Prop := 32 <= c <= 126.

Lemma escape_read c s : 0 <= c < 256 -> read_text (escape c ++ s) = option_map (cons c) (read_text s).
Proof.
  intros Hc. unfold escape. destruct (Z.eqb_spec c 92) as [-> |]; [done |].
  destruct (Z.leb_spec 32 c), (Z.leb_spec c 126); cbn [andb app read_text];
    try (rewrite (proj2 (Z.eqb_neq c 92)) by done; done);
    change (92 =? 92) with true; cbn iota;
    pose proof (Z.div_mod c 100 ltac:(lia)); pose proof (Z.mod_pos_bound c 100 ltac:(lia));
    set (d := c / 100) in *; pose proof (Z.div_mod (c - 100 * d) 10 ltac:(lia));
    pose proof (Z.mod_pos_bound (c - 100 * d) 10 ltac:(lia)); set (e := (c - 100 * d) / 10) in *;
    rewrite (proj2 (Z.eqb_neq (48 + d) 92)) by lia; f_equal; f_equal; lia.
Qed.

Lemma escape_printable c : 0 <= c < 256 -> Forall printable (escape c) /\ 1 <= blen (escape c) <= 4.
Proof.
  intros Hc. unfold escape, printable, blen. destruct (Z.eqb_spec c 92) as [-> |].
  { cbn. split; [repeat constructor; lia | lia]. }
  destruct (Z.leb_spec 32 c), (Z.leb_spec c 126); cbn [andb length];
    try (split; [repeat constructor; lia | lia]);
    pose proof (Z.div_mod c 100 ltac:(lia)); pose proof (Z.mod_pos_bound c 100 ltac:(lia));
    set (d := c / 100) in *; pose proof (Z.div_mod (c - 100 * d) 10 ltac:(lia));
    pose proof (Z.mod_pos_bound (c - 100 * d) 10 ltac:(lia)); set (e := (c - 100 * d) / 10) in *;
    (split; [repeat (apply Forall_cons; split; [lia |]); by apply Forall_nil | lia]).
Qed.

Lemma text_loop_spec available u : forall buffer done b rest,
  Forall (fun c => 0 <= c < 256) u -> Forall printable buffer -> 0 <= available ->
  (forall s, read_text (buffer ++ s) = option_map (app done) (read_text s)) ->
  blen buffer <= available + 3 -> text_loop available u buffer = (b, rest) ->
  exists k, rest = drop k u /\ Forall printable b /\ blen b <= available + 3 /\
    (rest <> [] -> available <= blen b) /\
    forall s, read_text (b ++ s) = option_map (app (done ++ take k u)) (read_text s).
Proof.
  induction u as [| c u IH]; intros buffer done b rest Hu Hp Ha Hr Hl; cbn [text_loop].
  { intros [= <- <-]. exists 0%nat. rewrite take_0, app_nil_r. by split_and!. }
  apply Forall_cons in Hu as [Hc Hu]. destruct (Z.ltb_spec (blen buffer) available).
  - intros E. destruct (escape_printable c Hc) as [Hpe Hle].
    apply (IH _ (done ++ [c])) in E as (k & -> & Hpb & Hlb & Hrest & Hread); [| done | by apply Forall_app | done
      | | rewrite blen_app; lia].
    + exists (S k). split_and!; try done. intros s. rewrite Hread. cbn [take]. by rewrite <- (assoc_L (++)).
    + intros s. rewrite <- (assoc_L (++)), Hr, escape_read by done.
      destruct (read_text s); cbn; [by rewrite <- (assoc_L (++)) | done].
  - intros [= <- <-]. exists 0%nat. rewrite take_0, app_nil_r. split_and!; done.
Qed.

Lemma dots_loop_spec n available buffer : exists k, (k <= n)%nat /\
  dots_loop n available buffer = buffer ++ repeat 46 k /\
  blen (dots_loop n available buffer) <= Z.max available (blen buffer) /\
  (blen buffer + Z.of_nat n <= available -> k = n).
Proof.
  revert buffer. induction n as [| n IH]; intros buffer; cbn [dots_loop].
  { exists 0%nat. cbn. rewrite app_nil_r. split_and!; [done | done | lia | done]. }
  destruct (Z.ltb_spec (blen buffer) available).
  - destruct (IH (buffer ++ [46])) as (k & Hk & E & Hb & Hall). exists (S k). rewrite E in *.
    rewrite blen_app in Hall, Hb. change (blen [46]) with 1 in *. rewrite blen_app in Hb.
    change (blen [46]) with 1 in *.
    split_and!; [lia | by rewrite <- (assoc_L (++)) | rewrite !blen_app; change (blen [46]) with 1; lia
                | intros; f_equal; apply Hall; lia].
  - exists 0%nat. cbn. rewrite app_nil_r. split_and!; [lia | done | lia | lia].
Qed.

(** [C40] The text of a url.  For a buffer of 16 bytes or more, what is written
    fits in the buffer, with its final zero, and has only printable characters;
    it reads back as the first bytes of the url, followed by dots exactly if
    some bytes are left out, which happens only when the buffer has no room
    for another escape. *)
Theorem uint8_t_to_text_reads_back (u : list Z) (buffer_length : Z) :
  Forall (fun c => 0 <= c < 256) u -> 16 <= buffer_length ->
  exists s k, quicrq_uint8_t_to_text u buffer_length = s ++ [0] /\ blen (s ++ [0]) < buffer_length /\
    Forall printable s /\
    ((k = length u /\ read_text s = Some u) \/
     ((k < length u)%nat /\ buffer_length - 8 + 3 <= blen s /\
      read_text s = Some (take k u ++ [46; 46; 46]))).
Proof.
  intros Hu Hl. unfold quicrq_uint8_t_to_text. rewrite (proj2 (Z.ltb_ge _ _)) by lia.
  destruct (text_loop (buffer_length - 8) u []) as [b rest] eqn:E.
  apply (text_loop_spec _ _ _ []) in E as (k & -> & Hp & Hb & Hrest & Hread);
    [| done | done | lia | | unfold blen; cbn; lia].
  2: { intros s. cbn. by destruct (read_text s). }
  destruct (drop k u) as [| c rest] eqn:Ed.
  - exists b, (length u). split; [done |]. split; [rewrite blen_app; change (blen [0]) with 1; lia |].
    split; [done |]. left. split; [done |]. rewrite <- (app_nil_r b), Hread. cbn.
    rewrite app_nil_r. f_equal. rewrite <- (take_drop k u) at 2. by rewrite Ed, app_nil_r.
  - specialize (Hrest ltac:(done)).
    destruct (dots_loop_spec 3 (buffer_length - 1) b) as (j & _ & Ej & _ & Hj).
    assert (j = 3%nat) as -> by (apply Hj; lia). rewrite Ej.
    exists (b ++ repeat 46 3), k. change (repeat 46 3) with [46; 46; 46].
    split; [done |]. split; [rewrite !blen_app; change (blen [46; 46; 46]) with 3; change (blen [0]) with 1; lia |].
    split; [apply Forall_app; split; [done | repeat constructor; unfold printable; lia] |]. right.
    split; [| split; [rewrite blen_app; change (blen [46; 46; 46]) with 3; lia | by rewrite Hread]].
    apply (f_equal length) in Ed. rewrite length_drop in Ed. cbn in Ed. lia.
Qed.

Lemma uint8_t_to_text_reads_back_witness :
  (exists s k, quicrq_uint8_t_to_text [104; 92; 7; 255; 100; 101; 102] 16 = s ++ [0] /\
    blen (s ++ [0]) < 16 /\ Forall printable s /\
    ((k = 7%nat /\ read_text s = Some [104; 92; 7; 255; 100; 101; 102]) \/
     ((k < 7)%nat /\ 16 - 8 + 3 <= blen s /\
      read_text s = Some (take k [104; 92; 7; 255; 100; 101; 102] ++ [46; 46; 46])))) /\
  quicrq_uint8_t_to_text [104; 92; 7; 255; 100; 101; 102] 16
  = [104; 92; 92; 92; 48; 48; 55; 92; 50; 53; 53; 46; 46; 46; 0].
Proof.
  split; [| reflexivity].
  apply (uint8_t_to_text_reads_back [104; 92; 7; 255; 100; 101; 102] 16); [repeat constructor; lia | lia].
Defined.
