(* ===== verification/Reassembly.v ===== *)
(** * lib/reassembly.c: reassembly of objects from fragments

    Fragments of an object arrive in any order, duplicated or overlapping; the
    context keeps one [quicrq_reassembly_object_t] per object under
    reassembly, in a splay tree indexed by (group, object), and calls the
    application's [ready_fn] when an object is complete, in sequence or not.

    The object structures live in [rc_objects], keyed by the (group, object)
    pair that identifies them: an object is only allocated after a failed
    lookup, so the pair designates one structure.  The doubly linked list of
    packets of an object is the list of its packets from [first_packet] to
    [last_packet]. *)

From S2P Require Import Prelude Picosplay.

Record quicrq_reassembly_packet_t := {
  rp_current_time : Z;
  rp_data : list Z;
  rp_offset : Z;
  rp_data_length : Z;
}.
Definition sizeof_reassembly_packet : Z := 48.
Definition sizeof_reassembly_object : Z := 128.

Record quicrq_reassembly_object_t := {
  ro_packets : list quicrq_reassembly_packet_t;
  ro_group_id : Z;
  ro_object_id : Z;
  ro_nb_objects_previous_group : Z;
  ro_object_length : Z;
  ro_queue_delay : Z;
  ro_flags : Z;
  ro_is_last_received : bool;
  ro_data_received : Z;
  ro_last_update_time : Z;
  ro_reassembled : option (list Z);
}.

(** [memset(object, 0, ...)] then the identifiers. *)
Definition object_zero (g o : Z) : quicrq_reassembly_object_t := {|
  ro_packets := []; ro_group_id := g; ro_object_id := o; ro_nb_objects_previous_group := 0;
  ro_object_length := 0; ro_queue_delay := 0; ro_flags := 0; ro_is_last_received := false;
  ro_data_received := 0; ro_last_update_time := 0; ro_reassembled := None |}.

(** Field updates. *)
Definition ro_set_packets ob ps received now := {|
  ro_packets := ps; ro_group_id := ro_group_id ob; ro_object_id := ro_object_id ob;
  ro_nb_objects_previous_group := ro_nb_objects_previous_group ob;
  ro_object_length := ro_object_length ob; ro_queue_delay := ro_queue_delay ob;
  ro_flags := ro_flags ob; ro_is_last_received := ro_is_last_received ob;
  ro_data_received := received; ro_last_update_time := now;
  ro_reassembled := ro_reassembled ob |}.
Definition ro_set_props ob nb len delay fl last := {|
  ro_packets := ro_packets ob; ro_group_id := ro_group_id ob; ro_object_id := ro_object_id ob;
  ro_nb_objects_previous_group := nb; ro_object_length := len; ro_queue_delay := delay;
  ro_flags := fl; ro_is_last_received := last; ro_data_received := ro_data_received ob;
  ro_last_update_time := ro_last_update_time ob; ro_reassembled := ro_reassembled ob |}.
Definition ro_set_reassembled ob r := {|
  ro_packets := ro_packets ob; ro_group_id := ro_group_id ob; ro_object_id := ro_object_id ob;
  ro_nb_objects_previous_group := ro_nb_objects_previous_group ob;
  ro_object_length := ro_object_length ob; ro_queue_delay := ro_queue_delay ob;
  ro_flags := ro_flags ob; ro_is_last_received := ro_is_last_received ob;
  ro_data_received := ro_data_received ob; ro_last_update_time := ro_last_update_time ob;
  ro_reassembled := r |}.

(** The comparison callback of the splay: 64-bit differences read as signed. *)
Definition quicrq_object_node_compare (l r : Z * Z) : Z :=
  let ret := s64 (l.1 - r.1) in
  if ret =? 0 then s64 (l.2 - r.2) else ret.
#[global] Typeclasses Opaque quicrq_object_node_compare.

Inductive quicrq_reassembly_object_mode_enum :=
| quicrq_reassembly_object_in_sequence
| quicrq_reassembly_object_peek
| quicrq_reassembly_object_repair.
#[export] Instance object_mode_eq_dec : EqDecision quicrq_reassembly_object_mode_enum.
Proof. solve_decision. Defined.

(** The arguments of one call to [ready_fn]. *)
Record ready_event := {
  re_current_time : Z;
  re_group_id : Z;
  re_object_id : Z;
  re_flags : Z;
  re_data : list Z;
  re_data_length : Z;
  re_mode : quicrq_reassembly_object_mode_enum;
}.

Section reassembly.
Context `{Sp : Splay (Z * Z) quicrq_object_node_compare} {Al : Allocator}.

Record quicrq_reassembly_context_t := {
  rc_object_tree : splay quicrq_object_node_compare;
  rc_objects : gmap (Z * Z) quicrq_reassembly_object_t;
  rc_next_group_id : Z;
  rc_next_object_id : Z;
  rc_final_group_id : Z;
  rc_final_object_id : Z;
  rc_is_finished : bool;
}.

Definition rc_set_objects ctx tree objs := {|
  rc_object_tree := tree; rc_objects := objs;
  rc_next_group_id := rc_next_group_id ctx; rc_next_object_id := rc_next_object_id ctx;
  rc_final_group_id := rc_final_group_id ctx; rc_final_object_id := rc_final_object_id ctx;
  rc_is_finished := rc_is_finished ctx |}.
Definition rc_set_next ctx g o := {|
  rc_object_tree := rc_object_tree ctx; rc_objects := rc_objects ctx;
  rc_next_group_id := g; rc_next_object_id := o;
  rc_final_group_id := rc_final_group_id ctx; rc_final_object_id := rc_final_object_id ctx;
  rc_is_finished := rc_is_finished ctx |}.
Definition rc_set_final ctx g o fin := {|
  rc_object_tree := rc_object_tree ctx; rc_objects := rc_objects ctx;
  rc_next_group_id := rc_next_group_id ctx; rc_next_object_id := rc_next_object_id ctx;
  rc_final_group_id := g; rc_final_object_id := o; rc_is_finished := fin |}.

(** A write through an [object] pointer. *)
Definition rc_put ctx (ob : quicrq_reassembly_object_t) : quicrq_reassembly_context_t :=
  rc_set_objects ctx (rc_object_tree ctx)
    (<[(ro_group_id ob, ro_object_id ob) := ob]> (rc_objects ctx)).

(** A zeroed context, initialized. *)
Definition quicrq_reassembly_init : quicrq_reassembly_context_t := {|
  rc_object_tree := splay_empty; rc_objects := ∅; rc_next_group_id := 0;
  rc_next_object_id := 0; rc_final_group_id := 0; rc_final_object_id := 0;
  rc_is_finished := false |}.

(** The tree is emptied and the context zeroed. *)
Definition quicrq_reassembly_release (ctx : quicrq_reassembly_context_t)
  : quicrq_reassembly_context_t := quicrq_reassembly_init.

Definition quicrq_object_find ctx (g o : Z) : option quicrq_reassembly_object_t :=
  match splay_find (rc_object_tree ctx) (g, o) with
  | Some key => rc_objects ctx !! key
  | None => None
  end.

(** Number of objects of a group, 0 if the next group has not started. *)
Definition quicrq_reassembly_get_object_count ctx (g : Z) : Z :=
  match quicrq_object_find ctx (g +64 1) 0 with
  | Some ob => ro_nb_objects_previous_group ob
  | None => 0
  end.

(** Insert a packet between [before] (whose last element is
    [previous_packet]) and [after]; [None] is a [NULL] result. *)
Definition quicrq_reassembly_object_create_packet (ob : quicrq_reassembly_object_t)
    (before after : list quicrq_reassembly_packet_t)
    (current_time : Z) (data : list Z) (offset data_length : Z)
  : option (quicrq_reassembly_packet_t * quicrq_reassembly_object_t) :=
  let packet_size := sizeof_reassembly_packet +64 data_length in
  if (sizeof_reassembly_packet <=? packet_size) && malloc_ok packet_size then
    let packet := {| rp_current_time := current_time; rp_data := ztake data_length data;
                     rp_offset := offset; rp_data_length := data_length |} in
    Some (packet, ro_set_packets ob (before ++ packet :: after)
                    (ro_data_received ob +64 data_length) current_time)
  else None.

Definition quicrq_reassembly_object_create ctx (g o : Z)
  : option (quicrq_reassembly_object_t * quicrq_reassembly_context_t) :=
  if malloc_ok sizeof_reassembly_object then
    let ob := object_zero g o in
    Some (ob, rc_set_objects ctx (splay_insert (rc_object_tree ctx) (g, o))
                (<[(g, o) := ob]> (rc_objects ctx)))
  else None.

Definition quicrq_reassembly_object_delete ctx (ob : quicrq_reassembly_object_t)
  : quicrq_reassembly_context_t :=
  let key := (ro_group_id ob, ro_object_id ob) in
  rc_set_objects ctx (splay_delete (rc_object_tree ctx) key) (delete key (rc_objects ctx)).

(** First half of one iteration of the insertion loop: fill the hole before
    [packet].  [inl] leaves the loop with the object and [ret]; [inr] goes on
    with the object, the packets before [packet] and what is left to insert. *)
Definition fill_hole (ob : quicrq_reassembly_object_t) before packet after
    (current_time : Z) (data : list Z) (offset data_length : Z)
  : (quicrq_reassembly_object_t * Z) +
    (quicrq_reassembly_object_t * list quicrq_reassembly_packet_t * list Z * Z * Z) :=
  if offset <=? rp_offset packet then
    if offset +64 data_length <=? rp_offset packet then
      match quicrq_reassembly_object_create_packet ob before (packet :: after)
              current_time data offset data_length with
      | None => inl (ob, -1)
      | Some (_, ob) => inl (ob, 0)
      end
    else if offset <? rp_offset packet then
      let consumed := rp_offset packet -64 offset in
      match quicrq_reassembly_object_create_packet ob before (packet :: after)
              current_time data offset consumed with
      | None => inl (ob, -1)
      | Some (new_packet, ob) =>
          inr (ob, before ++ [new_packet], zdrop consumed data, offset +64 consumed,
               data_length -64 consumed)
      end
    else inr (ob, before, data, offset, data_length)
  else inr (ob, before, data, offset, data_length).

Fixpoint add_packet_loop (ob : quicrq_reassembly_object_t) (before after : list quicrq_reassembly_packet_t)
    (current_time : Z) (data : list Z) (offset data_length : Z) {struct after}
  : quicrq_reassembly_object_t * Z :=
  match after with
  | [] =>
      (* All packets in store have been checked *)
      if 0 <? data_length then
        match quicrq_reassembly_object_create_packet ob before [] current_time data
                offset data_length with
        | None => (ob, -1)
        | Some (_, ob) => (ob, 0)
        end
      else (ob, 0)
  | packet :: after' =>
      match fill_hole ob before packet after' current_time data offset data_length with
      | inl result => result
      | inr (ob, before, data, offset, data_length) =>
          (* The incoming data is at or after the current packet *)
          let packet_end := rp_offset packet +64 rp_data_length packet in
          if offset <? packet_end then
            if offset +64 data_length <=? packet_end then (ob, 0)
            else
              let consumed := packet_end -64 offset in
              add_packet_loop ob (before ++ [packet]) after' current_time
                (zdrop consumed data) (offset +64 consumed) (data_length -64 consumed)
          else add_packet_loop ob (before ++ [packet]) after' current_time data offset data_length
      end
  end.

Definition quicrq_reassembly_object_add_packet (ob : quicrq_reassembly_object_t)
    (current_time : Z) (data : list Z) (offset data_length : Z)
  : quicrq_reassembly_object_t * Z :=
  add_packet_loop ob [] (ro_packets ob) current_time data offset data_length.

(** The copy loop: what was copied, [running_offset] and [ret]. *)
Fixpoint copy_packets (object_length : Z) (ps : list quicrq_reassembly_packet_t)
    (buffer : list Z) (running_offset : Z) : list Z * Z * Z :=
  match ps with
  | [] => (buffer, running_offset, 0)
  | packet :: ps' =>
      if negb (rp_offset packet =? running_offset) then (buffer, running_offset, -1)
      else if object_length <? running_offset +64 rp_data_length packet
      then (buffer, running_offset, -1)
      else copy_packets object_length ps' (buffer ++ ztake (rp_data_length packet) (rp_data packet))
             (running_offset +64 rp_data_length packet)
  end.

Definition quicrq_reassembly_object_reassemble (ob : quicrq_reassembly_object_t)
  : quicrq_reassembly_object_t * Z :=
  let len := ro_object_length ob in
  if ro_is_last_received ob && (len =? 0) && (ro_data_received ob =? 0) then
    if malloc_ok 1 then (ro_set_reassembled ob (Some []), 0)
    else (ro_set_reassembled ob None, -1)
  else if (len =? 0) || negb (ro_data_received ob =? len) then (ob, -1)
  else match head (ro_packets ob), last (ro_packets ob) with
  | Some first_packet, Some last_packet =>
      if negb (rp_offset first_packet =? 0) then (ob, -1)
      else if negb (rp_offset last_packet +64 rp_data_length last_packet =? len) then (ob, -1)
      else if UINT64_MAX <? len then (ob, -1)
      else if negb (malloc_ok len) then (ro_set_reassembled ob None, -1)
      else
        let '(buffer, running_offset, ret) := copy_packets len (ro_packets ob) [] 0 in
        let ret := if (ret =? 0) && negb (running_offset =? len) then -1 else ret in
        (ro_set_reassembled ob (Some buffer), ret)
  | _, _ => (ob, -1)
  end.

(** ** Delivery

    [ready_fn] is the application's callback: it may read the context (the
    consumer's callback does) and changes the application's state. *)

Context {App : Type}.
Context (ready_fn : quicrq_reassembly_context_t -> App -> ready_event -> App * Z).

(** Deliver the objects that are now in order.  [None] is returned only if
    the fuel runs out. *)
Fixpoint update_start_point_loop (fuel : nat) ctx (app : App) (current_time : Z)
  : option (quicrq_reassembly_context_t * App * Z) :=
  match fuel with
  | O => None
  | S fuel' =>
      let found :=
        match quicrq_object_find ctx (rc_next_group_id ctx) (rc_next_object_id ctx) with
        | Some ob => Some (ob, ctx)
        | None =>
            match quicrq_object_find ctx (rc_next_group_id ctx +64 1) 0 with
            | Some ob =>
                if bool_decide (is_Some (ro_reassembled ob)) &&
                   (ro_nb_objects_previous_group ob =? rc_next_object_id ctx)
                then Some (ob, rc_set_next ctx (rc_next_group_id ctx +64 1) 0)
                else None
            | None => None
            end
        end in
      match found with
      | None => Some (ctx, app, 0)
      | Some (ob, ctx) =>
          match ro_reassembled ob with
          | None => Some (ctx, app, 0)
          | Some bytes =>
              let '(app, ret) := ready_fn ctx app
                {| re_current_time := current_time; re_group_id := ro_group_id ob;
                   re_object_id := ro_object_id ob; re_flags := ro_flags ob; re_data := bytes;
                   re_data_length := ro_object_length ob;
                   re_mode := quicrq_reassembly_object_repair |} in
              let ctx := quicrq_reassembly_object_delete ctx ob in
              let ctx := rc_set_next ctx (rc_next_group_id ctx) (rc_next_object_id ctx +64 1) in
              if ret =? 0 then update_start_point_loop fuel' ctx app current_time
              else Some (ctx, app, ret)
          end
      end
  end.

(** One turn of the loop per object in the tree, and a last one. *)
Definition update_fuel ctx : nat := S (length (splay_nodes (rc_object_tree ctx))).

Definition quicrq_reassembly_update_start_point ctx (current_time : Z) (app : App)
  : option (quicrq_reassembly_context_t * App * Z) :=
  match update_start_point_loop (update_fuel ctx) ctx app current_time with
  | None => None
  | Some (ctx, app, ret) =>
      let finished :=
        ((0 <? rc_final_group_id ctx) || (0 <? rc_final_object_id ctx)) &&
        (rc_final_group_id ctx <=? rc_next_group_id ctx) &&
        (rc_final_object_id ctx <=? rc_next_object_id ctx) in
      let ctx := if finished
        then rc_set_final ctx (rc_final_group_id ctx) (rc_final_object_id ctx) true else ctx in
      Some (ctx, app, ret)
  end.

(** The object is complete: verify and submit. *)
Definition submit_complete ctx (ob : quicrq_reassembly_object_t) (current_time : Z)
    (group_id object_id flags : Z) (app : App)
  : option (quicrq_reassembly_context_t * App * Z) :=
  let ctx :=
    if (group_id =? rc_next_group_id ctx +64 1) && (object_id =? 0) &&
       (ro_nb_objects_previous_group ob <=? rc_next_object_id ctx)
    then rc_set_next ctx (rc_next_group_id ctx +64 1) 0 else ctx in
  let object_mode :=
    if (rc_next_group_id ctx =? group_id) && (rc_next_object_id ctx =? object_id)
    then quicrq_reassembly_object_in_sequence else quicrq_reassembly_object_peek in
  match ro_reassembled ob with
  | Some _ => Some (ctx, app, 0)
  | None =>
      let '(ob, ret) := quicrq_reassembly_object_reassemble ob in
      let ctx := rc_put ctx ob in
      if negb (ret =? 0) then Some (ctx, app, ret) else
      let '(app, ret) := ready_fn ctx app
        {| re_current_time := current_time; re_group_id := group_id;
           re_object_id := object_id; re_flags := flags;
           re_data := default [] (ro_reassembled ob);
           re_data_length := ro_object_length ob; re_mode := object_mode |} in
      if (ret =? 0) && bool_decide (object_mode = quicrq_reassembly_object_in_sequence) then
        let ctx := quicrq_reassembly_object_delete ctx ob in
        let ctx := rc_set_next ctx (rc_next_group_id ctx) (rc_next_object_id ctx +64 1) in
        quicrq_reassembly_update_start_point ctx current_time app
      else Some (ctx, app, ret)
  end.

(** The per-fragment logic, once the object is known. *)
Definition input_fragment ctx (ob : quicrq_reassembly_object_t) (current_time : Z)
    (data : list Z) (group_id object_id offset flags nb_objects_previous_group object_length
     data_length : Z) (app : App) : option (quicrq_reassembly_context_t * App * Z) :=
  let nb := if (object_id =? 0) && (offset =? 0) then nb_objects_previous_group
            else ro_nb_objects_previous_group ob in
  let fragment_end := offset +64 data_length in
  let is_last := ro_object_length ob <=? fragment_end in
  let last := is_last || ro_is_last_received ob in
  let ret := if is_last then (if ro_object_length ob =? fragment_end then 0 else -1)
             else (if ro_object_length ob =? object_length then 0 else -1) in
  let ob := ro_set_props ob nb (ro_object_length ob) (ro_queue_delay ob) (ro_flags ob) last in
  if negb (ret =? 0) then Some (rc_put ctx ob, app, ret) else
  let '(ob, ret) := quicrq_reassembly_object_add_packet ob current_time data offset data_length in
  let ctx := rc_put ctx ob in
  if negb (ret =? 0) then Some (ctx, app, ret)
  else if ro_is_last_received ob && (ro_object_length ob <=? ro_data_received ob) then
    submit_complete ctx ob current_time group_id object_id flags app
  else Some (ctx, app, 0).

(** [None] is undefined behaviour: the object that could not be allocated is
    written through a null pointer before the test for allocation failure. *)
Definition quicrq_reassembly_input ctx (current_time : Z) (data : list Z)
    (group_id object_id offset queue_delay flags nb_objects_previous_group object_length
     data_length : Z) (app : App) : option (quicrq_reassembly_context_t * App * Z) :=
  if pair_ltb group_id object_id (rc_next_group_id ctx) (rc_next_object_id ctx) then
    Some (ctx, app, 0)   (* No need for this object. *)
  else
    match quicrq_object_find ctx group_id object_id with
    | None =>
        match quicrq_reassembly_object_create ctx group_id object_id with
        | None => None
        | Some (ob, ctx) =>
            let ob := ro_set_props ob (ro_nb_objects_previous_group ob) object_length
                        queue_delay flags (ro_is_last_received ob) in
            input_fragment (rc_put ctx ob) ob current_time data group_id object_id offset flags
              nb_objects_previous_group object_length data_length app
        end
    | Some ob =>
        let delay := if ro_queue_delay ob <? queue_delay then queue_delay
                     else ro_queue_delay ob in
        let ob := ro_set_props ob (ro_nb_objects_previous_group ob) (ro_object_length ob)
                    delay (ro_flags ob) (ro_is_last_received ob) in
        input_fragment (rc_put ctx ob) ob current_time data group_id object_id offset flags
          nb_objects_previous_group object_length data_length app
    end.

Definition quicrq_reassembly_learn_start_point ctx (start_group_id start_object_id current_time : Z)
    (app : App) : option (quicrq_reassembly_context_t * App * Z) :=
  if pair_leb start_group_id start_object_id (rc_next_group_id ctx) (rc_next_object_id ctx)
  then Some (ctx, app, 0)
  else quicrq_reassembly_update_start_point
         (rc_set_next ctx start_group_id start_object_id) current_time app.

Definition quicrq_reassembly_learn_final_object_id ctx (final_group_id final_object_id : Z)
  : quicrq_reassembly_context_t * Z :=
  let '(ctx, ret) :=
    if (rc_final_group_id ctx =? 0) && (rc_final_object_id ctx =? 0) then
      (rc_set_final ctx final_group_id final_object_id (rc_is_finished ctx), 0)
    else if negb (rc_final_group_id ctx =? final_group_id) ||
            negb (final_object_id =? rc_final_object_id ctx) then (ctx, -1)
    else (ctx, 0) in
  if (ret =? 0) && pair_leb final_group_id final_object_id
                     (rc_next_group_id ctx) (rc_next_object_id ctx)
  then (rc_set_final ctx (rc_final_group_id ctx) (rc_final_object_id ctx) true, ret)
  else (ctx, ret).

Definition quicrq_reassembly_object_id_last ctx : Z := rc_next_object_id ctx.

End reassembly.
