(* ===== verification/ReassemblyProofs.v ===== *)
(** * Correctness of lib/reassembly.c

    Three layers: the packets of one object (insertion keeps them sorted,
    disjoint and faithful to the object, and adds exactly the bytes of the
    fragment), one object (reassembly succeeds exactly when every byte has
    arrived and gives back the object), and the context (deliveries over any
    history of fragments, start points and final points). *)

From S2P Require Import Prelude Picosplay Reassembly.

(** ** The comparison callback is the lexicographic order *)

Definition key_ok (k : Z * Z) : Prop := is_key k.1 /\ is_key k.2.

Lemma quicrq_object_node_compare_lt l r : key_ok l -> key_ok r ->
  quicrq_object_node_compare l r < 0 <-> l.1 < r.1 \/ (l.1 = r.1 /\ l.2 < r.2).
Proof.
  intros [? ?] [? ?]. unfold quicrq_object_node_compare, is_key in *.
  rewrite !s64_small by u64_lia. destruct (Z.eqb_spec (l.1 - r.1) 0); lia.
Qed.

Lemma quicrq_object_node_compare_eq l r : key_ok l -> key_ok r ->
  quicrq_object_node_compare l r = 0 <-> l = r.
Proof.
  intros [? ?] [? ?]. unfold quicrq_object_node_compare, is_key in *.
  rewrite !s64_small by u64_lia. destruct l as [a b], r as [a' b']; cbn in *.
  destruct (Z.eqb_spec (a - a') 0); split; try intros [= -> ->]; try lia.
  intros. f_equal; lia.
Qed.

#[export] Instance object_node_order : CmpOrder quicrq_object_node_compare key_ok.
Proof.
  split; unfold quicrq_object_node_compare; intros;
    repeat match goal with H : key_ok _ |- _ => destruct H end; unfold is_key in *;
    rewrite !s64_small in * by u64_lia;
    repeat match goal with |- context [?a =? 0] => destruct (Z.eqb_spec a 0)
      | H : context [?a =? 0] |- _ => destruct (Z.eqb_spec a 0) end; lia.
Qed.

(** ** Packets *)

Definition pk_end (p : quicrq_reassembly_packet_t) : Z := rp_offset p + rp_data_length p.

(** A packet that holds the bytes of [c] at its offset. *)
Definition packet_ok (c : list Z) (p : quicrq_reassembly_packet_t) : Prop :=
  0 <= rp_offset p /\ 0 <= rp_data_length p /\ pk_end p <= blen c /\
  rp_data p = slice c (rp_offset p) (rp_data_length p).

Definition apart (p q : quicrq_reassembly_packet_t) : Prop := pk_end p <= rp_offset q.

Definition packets_ok (c : list Z) (ps : list quicrq_reassembly_packet_t) : Prop :=
  Forall (packet_ok c) ps /\ StronglySorted apart ps.

Fixpoint total (ps : list quicrq_reassembly_packet_t) : Z :=
  match ps with [] => 0 | p :: r => rp_data_length p + total r end.

Definition covered (ps : list quicrq_reassembly_packet_t) (i : Z) : Prop :=
  Exists (fun p => rp_offset p <= i < pk_end p) ps.

Lemma total_app ps qs : total (ps ++ qs) = total ps + total qs.
Proof. induction ps; cbn; lia. Qed.

Lemma covered_app ps qs i : covered (ps ++ qs) i <-> covered ps i \/ covered qs i.
Proof. apply Exists_app. Qed.
Lemma covered_cons p qs i :
  covered (p :: qs) i <-> rp_offset p <= i < pk_end p \/ covered qs i.
Proof. apply Exists_cons. Qed.
Lemma covered_nil i : covered [] i <-> False.
Proof. apply Exists_nil. Qed.

(** Disjoint packets between [lo] and the end of [c] hold at most the bytes
    in between... *)
Lemma total_bound c ps lo :
  packets_ok c ps -> Forall (fun p => lo <= rp_offset p) ps -> lo <= blen c ->
  0 <= total ps <= blen c - lo.
Proof.
  intros [Hok Hs]. revert lo. induction Hs as [| p ps Hs IH Hp]; intros lo Hlo Hb; cbn; [lia |].
  apply Forall_cons in Hok as [(? & ? & ? & ?) Hok]. apply Forall_cons in Hlo as [Hlo _].
  specialize (IH Hok (pk_end p) Hp). unfold pk_end in *. lia.
Qed.

(** ...and hold all of them exactly when they are contiguous, in which case
    the copy loop rebuilds [c]. *)
Lemma copy_packets_full c ps lo buffer :
  blen c < two62 -> packets_ok c ps -> Forall (fun p => lo <= rp_offset p) ps ->
  0 <= lo <= blen c -> total ps = blen c - lo ->
  copy_packets (blen c) ps buffer lo = (buffer ++ slice c lo (blen c - lo), blen c, 0).
Proof.
  intros Hc [Hok Hs]. revert lo buffer.
  induction Hs as [| p ps Hs IH Hp]; intros lo buffer Hlo Hb Ht; cbn in *.
  - replace lo with (blen c) by lia. rewrite Z.sub_diag, slice_0, app_nil_r. done.
  - apply Forall_cons in Hok as [(H1 & H2 & H3 & H4) Hok].
    apply Forall_cons in Hlo as [Hlo _]. unfold pk_end in *.
    pose proof (total_bound c ps (pk_end p) (conj Hok Hs) Hp H3). unfold pk_end in *.
    assert (rp_offset p = lo) as E by lia. rewrite E, Z.eqb_refl in *. cbn.
    rewrite u64_small by u64_lia.
    destruct (Z.ltb_spec (blen c) (lo + rp_data_length p)); [lia |].
    rewrite IH; [| done | | lia | lia].
    2: { eapply Forall_impl; [exact Hp |]. unfold apart, pk_end. cbn. intros; lia. }
    rewrite H4, ztake_slice by lia. rewrite <- (assoc_L (++)), slice_app by lia.
    by replace (rp_data_length p + (blen c - (lo + rp_data_length p))) with (blen c - lo) by lia.
Qed.

(** Every byte covered means every byte counted. *)
Lemma covered_total c ps lo :
  packets_ok c ps -> Forall (fun p => lo <= rp_offset p) ps -> 0 <= lo <= blen c ->
  (forall i, lo <= i < blen c -> covered ps i) -> total ps = blen c - lo.
Proof.
  intros [Hok Hs]. revert lo. induction Hs as [| p ps Hs IH Hp]; intros lo Hlo Hb Hcov; cbn.
  - destruct (Z.eq_dec lo (blen c)); [lia |].
    specialize (Hcov lo ltac:(lia)). by apply covered_nil in Hcov.
  - apply Forall_cons in Hok as [(H1 & H2 & H3 & H4) Hok].
    apply Forall_cons in Hlo as [Hlo _].
    assert (pk_end p = lo \/ rp_offset p = lo \/ lo = blen c) as Hcase.
    { destruct (Z.eq_dec lo (blen c)); [by auto |].
      specialize (Hcov lo ltac:(lia)). apply covered_cons in Hcov as [? | Hcov]; [lia |].
      apply Exists_exists in Hcov as (q & Hq & Hi). rewrite Forall_forall in Hp.
      specialize (Hp q Hq). unfold apart, pk_end in *. lia. }
    rewrite (IH Hok (pk_end p) Hp); [unfold pk_end in *; lia | unfold pk_end in *; lia |].
    intros i Hi. specialize (Hcov i ltac:(unfold pk_end in *; lia)).
    apply covered_cons in Hcov as [? | ?]; [unfold pk_end in *; lia | done].
Qed.

Lemma packets_ok_insert c before p after :
  packets_ok c (before ++ after) -> packet_ok c p ->
  Forall (fun q => pk_end q <= rp_offset p) before ->
  Forall (fun q => pk_end p <= rp_offset q) after ->
  packets_ok c (before ++ p :: after).
Proof.
  intros [Hok Hs] Hp Hb Ha. apply Forall_app in Hok as [Hokb Hoka].
  apply StronglySorted_app in Hs as (Hx & Hsb & Hsa). split.
  - apply Forall_app. split; [done |]. by constructor.
  - apply StronglySorted_app. split; [| split; [done | by constructor]].
    intros x y Hin [-> | Hy]%elem_of_cons; [| by apply Hx].
    by eapply Forall_forall in Hin; [| exact Hb].
Qed.

Lemma packets_ok_middle c before p after :
  packets_ok c (before ++ p :: after) ->
  packet_ok c p /\ Forall (fun q => pk_end q <= rp_offset p) before /\
  Forall (fun q => pk_end p <= rp_offset q) after.
Proof.
  intros [Hok Hs]. apply Forall_app in Hok as [_ [Hp _]%Forall_cons].
  apply StronglySorted_app in Hs as (Hx & _ & [Ha _]%StronglySorted_cons).
  split; [done |]. split; [| exact Ha].
  apply Forall_forall. intros q Hq. apply Hx; [done | apply elem_of_cons; by left].
Qed.

(** [ob'] differs from [ob] by its packets only. *)
Definition same_but_packets (ob ob' : quicrq_reassembly_object_t) : Prop :=
  exists ps r t, ob' = ro_set_packets ob ps r t.

Lemma same_but_packets_refl ob : same_but_packets ob ob.
Proof. exists (ro_packets ob), (ro_data_received ob), (ro_last_update_time ob). by destruct ob. Qed.
Lemma same_but_packets_trans ob1 ob2 ob3 :
  same_but_packets ob1 ob2 -> same_but_packets ob2 ob3 -> same_but_packets ob1 ob3.
Proof. intros (? & ? & ? & ->) (ps & r & t & ->). by exists ps, r, t. Qed.

Section insertion.
Context {Al : Allocator} (alloc_ok : forall n, malloc_ok n = true).
Context (c : list Z) (c_range : blen c < two62).

(** The loop invariant: [data] is what is left of the fragment, at [offset],
    and lies after the packets of [before]. *)
Record adding ob before after (data : list Z) (offset n : Z) : Prop := {
  ad_packets : ro_packets ob = before ++ after;
  ad_ok : packets_ok c (before ++ after);
  ad_total : ro_data_received ob = total (before ++ after);
  ad_before : Forall (fun q => pk_end q <= offset) before;
  ad_range : 0 <= offset /\ 0 <= n /\ offset + n <= blen c;
  ad_data : data = slice c offset n;
}.

Record added ob ob' (offset n : Z) : Prop := {
  aa_same : same_but_packets ob ob';
  aa_ok : packets_ok c (ro_packets ob');
  aa_total : ro_data_received ob' = total (ro_packets ob');
  aa_covered : forall i,
    covered (ro_packets ob') i <-> covered (ro_packets ob) i \/ offset <= i < offset + n;
}.

Lemma total_range before after : packets_ok c (before ++ after) ->
  0 <= total (before ++ after) <= blen c.
Proof.
  intros H. rewrite <- (Z.sub_0_r (blen c)). apply total_bound; [done | |].
  - destruct H as [Hok _]. eapply Forall_impl; [exact Hok |]. by intros p [? _].
  - apply blen_nonneg.
Qed.

Lemma create_packet_spec ob before after now data offset n m :
  adding ob before after data offset n -> 0 <= m <= n ->
  Forall (fun q => offset + m <= rp_offset q) after ->
  exists p ob', quicrq_reassembly_object_create_packet ob before after now data offset m
      = Some (p, ob') /\
    rp_offset p = offset /\ rp_data_length p = m /\
    ro_packets ob' = before ++ p :: after /\ added ob ob' offset m.
Proof.
  intros [Hps Hok Ht Hb Hr Hd] Hm Ha. unfold quicrq_reassembly_object_create_packet.
  unfold sizeof_reassembly_packet. rewrite u64_small by u64_lia.
  destruct (Z.leb_spec 48 (48 + m)); [| lia]. rewrite alloc_ok. cbn [andb].
  eexists _, _. split; [done |]. split; [done |]. split; [done |]. split; [done |].
  assert (packets_ok c (before ++ {| rp_current_time := now; rp_data := ztake m data;
    rp_offset := offset; rp_data_length := m |} :: after)) as Hins.
  { apply packets_ok_insert; try done. unfold packet_ok, pk_end; cbn.
    repeat split; try lia. subst data. by rewrite ztake_slice by lia. }
  split; cbn.
  - by eexists _, _, _.
  - done.
  - pose proof (total_range _ _ Hins) as Hr'. rewrite total_app in *. cbn in *.
    rewrite Ht, u64_small by u64_lia. lia.
  - intros i. rewrite Hps, !covered_app, covered_cons. unfold pk_end; cbn. tauto.
Qed.

Lemma added_trans ob ob1 ob2 o n o1 n1 o2 n2 :
  added ob ob1 o1 n1 -> added ob1 ob2 o2 n2 ->
  (forall i, o <= i < o + n <-> o1 <= i < o1 + n1 \/ o2 <= i < o2 + n2) ->
  added ob ob2 o n.
Proof.
  intros [S1 _ _ C1] [S2 K2 T2 C2] H. split; try done.
  - by eapply same_but_packets_trans.
  - intros i. rewrite C2, C1, H. tauto.
Qed.

(** Bytes already present may be claimed by a larger fragment. *)
Lemma added_larger ob ob' o n o' n' :
  added ob ob' o' n' ->
  (forall i, o' <= i < o' + n' -> o <= i < o + n) ->
  (forall i, o <= i < o + n -> covered (ro_packets ob) i \/ o' <= i < o' + n') ->
  added ob ob' o n.
Proof.
  intros [S K T C] H1 H2. split; try done. intros i. rewrite C.
  specialize (H1 i). specialize (H2 i). tauto.
Qed.

Lemma added_nothing ob before after data offset n o m :
  adding ob before after data offset n ->
  (forall i, o <= i < o + m -> covered (ro_packets ob) i) -> added ob ob o m.
Proof.
  intros [Hps Hok Ht Hb Hr Hd] Hcov. split.
  - apply same_but_packets_refl.
  - by rewrite Hps.
  - by rewrite Hps.
  - intros i. specialize (Hcov i). tauto.
Qed.

Lemma adding_next ob before p after data offset n k :
  adding ob before (p :: after) data offset n -> 0 <= k <= n -> pk_end p <= offset + k ->
  adding ob (before ++ [p]) after (zdrop k data) (offset + k) (n - k).
Proof.
  intros [Hps Hok Ht Hb Hr Hd] Hk He. split; rewrite <- ?(assoc_L (++)); try done.
  - apply Forall_app. split; [| by constructor].
    eapply Forall_impl; [exact Hb |]. cbn. lia.
  - lia.
  - subst data. by rewrite zdrop_slice by lia.
Qed.

(** One half iteration: fill the hole before the current packet. *)
Lemma fill_hole_spec ob before packet after now data offset n :
  adding ob before (packet :: after) data offset n ->
  match fill_hole ob before packet after now data offset n with
  | inl (ob', ret) => ret = 0 /\ added ob ob' offset n
  | inr (ob', before', data', offset', n') =>
      adding ob' before' (packet :: after) data' offset' n' /\
      rp_offset packet <= offset' /\ offset <= offset' /\ offset' + n' = offset + n /\
      added ob ob' offset (offset' - offset)
  end.
Proof.
  intros Had. pose proof Had as [Hps Hok Ht Hb Hr Hd]. unfold fill_hole.
  apply packets_ok_middle in Hok as (Hpk & Hbp & Hap).
  destruct Hpk as (P1 & P2 & P3 & _). unfold pk_end in P3.
  assert (adding ob before (packet :: after) data offset n /\
    offset <= offset /\ offset + n = offset + n /\ added ob ob offset (offset - offset)) as Hid.
  { split_and!; try done. eapply added_nothing; [exact Had | lia]. }
  destruct (Z.leb_spec offset (rp_offset packet)); [| split_and!; try done; try lia; apply Hid].
  rewrite u64_small by u64_lia.
  assert (forall k, offset + k <= rp_offset packet ->
    Forall (fun q => offset + k <= rp_offset q) (packet :: after)) as Hafter.
  { intros k Hk. constructor; [done |]. eapply Forall_impl; [exact Hap |].
    unfold pk_end. cbn. lia. }
  destruct (Z.leb_spec (offset + n) (rp_offset packet)).
  - destruct (create_packet_spec ob before (packet :: after) now data offset n n)
      as (p & ob' & -> & _ & _ & _ & Hadd); [done | lia | by apply Hafter | done].
  - destruct (Z.ltb_spec offset (rp_offset packet));
      [| split_and!; try done; try lia; apply Hid].
    assert (rp_offset packet -64 offset = rp_offset packet - offset) as Ec
      by (apply u64_small; u64_lia).
    set (k := rp_offset packet - offset) in *. rewrite Ec.
    destruct (create_packet_spec ob before (packet :: after) now data offset n k)
      as (p & ob' & -> & Ep & El & Eps & Hadd); [done | lia | apply Hafter; lia |].
    rewrite !u64_small by u64_lia. split_and!; try lia.
    + rewrite <- (Z.add_0_r (offset + k)) at 1. rewrite <- (Z.sub_0_r (n - k)).
      pose proof Hadd as [_ Hok' Ht' _]. rewrite Eps in Hok', Ht'.
      split; rewrite <- ?(assoc_L (++)); try done; try lia.
      * apply Forall_app. split; [eapply Forall_impl; [exact Hb |]; cbn; lia |].
        constructor; [unfold pk_end; lia | done].
      * subst data. rewrite zdrop_slice by lia. f_equal; lia.
    + by replace (offset + k - offset) with k by lia.
Qed.

Lemma add_packet_loop_spec after : forall ob before now data offset n,
  adding ob before after data offset n ->
  exists ob', add_packet_loop ob before after now data offset n = (ob', 0) /\
    added ob ob' offset n.
Proof.
  induction after as [| packet after IH]; intros ob before now data offset n Had; cbn.
  - pose proof Had as [Hps Hok Ht Hb Hr Hd]. destruct (Z.ltb_spec 0 n).
    + destruct (create_packet_spec ob before [] now data offset n n)
        as (p & ob' & -> & _ & _ & _ & Hadd); [done | lia | done |]. eauto.
    + exists ob. split; [done |]. eapply added_nothing; [exact Had | lia].
  - pose proof (fill_hole_spec ob before packet after now data offset n Had) as Hf.
    destruct (fill_hole _ _ _ _ _ _ _ _) as [[ob' ret] |
      [[[[ob' before'] data'] offset'] n']]; [destruct Hf as [-> Hf]; eauto |].
    destruct Hf as (Had' & Hoff & Hle & Hsum & Hadd).
    pose proof Had' as [Hps' Hok' Ht' Hb' Hr' Hd'].
    pose proof (packets_ok_middle _ _ _ _ Hok') as ((P1 & P2 & P3 & _) & _ & _).
    unfold pk_end in P3. rewrite u64_small by u64_lia.
    assert (forall i, rp_offset packet <= i < rp_offset packet + rp_data_length packet ->
      covered (ro_packets ob') i) as Hcov.
    { intros i Hi. rewrite Hps', covered_app, covered_cons. auto. }
    destruct (Z.ltb_spec offset' (rp_offset packet + rp_data_length packet)) as [Ho |].
    + rewrite u64_small by u64_lia.
      destruct (Z.leb_spec (offset' + n') (rp_offset packet + rp_data_length packet)).
      * exists ob'. split; [done |].
        eapply added_trans; [exact Hadd | |].
        { eapply (added_nothing ob' _ _ _ _ _ offset' n'); [exact Had' |].
          intros i Hi. apply Hcov. lia. }
        intros i. lia.
      * set (k := rp_offset packet + rp_data_length packet - offset').
        assert (offset' + k <= blen c /\ 0 <= k <= n') by lia.
        rewrite (u64_small k), !u64_small by u64_lia.
        destruct (IH ob' (before' ++ [packet]) now (zdrop k data') (offset' + k) (n' - k))
          as (ob2 & -> & Hadd2).
        { eapply adding_next; [exact Had' | lia | unfold pk_end; lia]. }
        exists ob2. split; [done |].
        eapply (added_trans ob ob' ob2 _ _ _ _ offset' n' Hadd).
        { eapply added_larger; [exact Hadd2 | intros i; lia |]. intros i Hi. specialize (Hcov i).
          destruct (Z.lt_ge_cases i (offset' + k)); [left; apply Hcov; lia | lia]. }
        intros i. lia.
    + destruct (IH ob' (before' ++ [packet]) now data' offset' n') as (ob2 & -> & Hadd2).
      { pose proof (adding_next ob' before' packet after data' offset' n' 0 Had') as H0.
        rewrite Z.add_0_r, Z.sub_0_r, zdrop_0 in H0. apply H0; [lia | unfold pk_end; lia]. }
      exists ob2. split; [done |].
      eapply (added_trans ob ob' ob2 _ _ _ _ offset' n' Hadd Hadd2). intros i. lia.
Qed.
End insertion.

(** ** One object *)

(** Every byte of [c] has been received. *)
Definition complete (c : list Z) (ob : quicrq_reassembly_object_t) : Prop :=
  forall i, 0 <= i < blen c -> covered (ro_packets ob) i.

Lemma total_covered c ps lo :
  packets_ok c ps -> Forall (fun p => lo <= rp_offset p) ps -> 0 <= lo <= blen c ->
  total ps = blen c - lo -> forall i, lo <= i < blen c -> covered ps i.
Proof.
  intros [Hok Hs]. revert lo. induction Hs as [| p ps Hs IH Hp]; intros lo Hlo Hb Ht i Hi; cbn in *.
  - lia.
  - apply Forall_cons in Hok as [(H1 & H2 & H3 & H4) Hok].
    apply Forall_cons in Hlo as [Hlo _]. apply covered_cons.
    pose proof (total_bound c ps (pk_end p) (conj Hok Hs) Hp H3).
    destruct (Z.lt_ge_cases i (pk_end p)); unfold pk_end in *; [left; lia | right].
    apply (IH Hok (rp_offset p + rp_data_length p) Hp); lia.
Qed.

Lemma packets_from_0 c ps : packets_ok c ps -> Forall (fun p => 0 <= rp_offset p) ps.
Proof. intros [H _]. eapply Forall_impl; [exact H |]. by intros p [? _]. Qed.

Lemma complete_total c ob : packets_ok c (ro_packets ob) ->
  complete c ob <-> total (ro_packets ob) = blen c.
Proof.
  intros Hok. pose proof (packets_from_0 _ _ Hok) as H0. pose proof (blen_nonneg c). split.
  - intros Hc. rewrite (covered_total c _ 0 Hok H0); [lia | lia | exact Hc].
  - intros Ht i Hi. apply (total_covered c _ 0 Hok H0); lia.
Qed.

Section object.
Context {Al : Allocator} (alloc_ok : forall n, malloc_ok n = true).

(** The checks on the first and last packets follow from contiguity. *)
Lemma full_ends c ps :
  blen c < two62 -> packets_ok c ps -> total ps = blen c -> 0 < blen c ->
  exists p q, head ps = Some p /\ last ps = Some q /\ rp_offset p = 0 /\ pk_end q = blen c.
Proof.
  intros Hc Hok Ht Hl. destruct ps as [| p ps]; [cbn in Ht; lia |].
  pose proof (total_bound c (p :: ps) (rp_offset p) Hok) as Hb.
  pose proof Hok as [[(H1 & H2 & H3 & _) _]%Forall_cons [Hp _]%StronglySorted_cons].
  exists p. destruct (last (p :: ps)) as [q |] eqn:El; [| by apply last_None in El].
  exists q. split_and!; try done.
  - assert (Forall (fun q => rp_offset p <= rp_offset q) (p :: ps)) as Hf.
    { constructor; [done |]. eapply Forall_impl; [exact Hp |]. unfold apart, pk_end. lia. }
    specialize (Hb Hf). unfold pk_end in *. lia.
  - apply last_Some in El as [l El]. rewrite El in *. destruct Hok as [Hok Hs].
    apply Forall_app in Hok as [Hokl [(Q1 & Q2 & Q3 & _) _]%Forall_cons].
    apply StronglySorted_app in Hs as (Hx & Hsl & _).
    assert (packets_ok (ztake (rp_offset q) c) l) as Hl'.
    { split; [| done]. apply Forall_forall. intros x Hxin.
      eapply Forall_forall in Hokl as (X1 & X2 & X3 & X4); [| exact Hxin].
      assert (apart x q) as Ha by (apply Hx; [done | apply elem_of_cons; by left]).
      unfold apart, packet_ok, pk_end in *. rewrite blen_ztake by lia. split_and!; try lia.
      rewrite X4. unfold slice. replace (rp_offset q) with
        (rp_offset x + (rp_offset q - rp_offset x)) by lia.
      rewrite zdrop_ztake by lia. by rewrite ztake_ztake by lia. }
    pose proof (total_bound _ l 0 Hl' (packets_from_0 _ _ Hl') (blen_nonneg _)) as Hbl.
    rewrite blen_ztake in Hbl by (unfold pk_end in *; lia).
    rewrite total_app in Ht. cbn in Ht. unfold pk_end in *. lia.
Qed.

Lemma reassemble_complete c ob :
  blen c < two62 -> packets_ok c (ro_packets ob) ->
  ro_data_received ob = total (ro_packets ob) -> ro_object_length ob = blen c ->
  ro_is_last_received ob = true -> complete c ob ->
  quicrq_reassembly_object_reassemble ob = (ro_set_reassembled ob (Some c), 0).
Proof.
  intros Hc Hok Hr Hlen Hlast Hcomp. apply complete_total in Hcomp; [| done].
  unfold quicrq_reassembly_object_reassemble. rewrite Hlen, Hr, Hcomp, Hlast. cbn [andb].
  destruct (Z.eqb_spec (blen c) 0) as [E |]; cbn [andb orb].
  { rewrite alloc_ok. by apply blen_zero_nil in E as ->. }
  rewrite Z.eqb_refl. cbn [negb]. pose proof (blen_nonneg c).
  destruct (full_ends c _ Hc Hok Hcomp ltac:(lia)) as (p & q & -> & -> & Hp & Hq).
  unfold pk_end in Hq. rewrite Hp, Hq, u64_small, !Z.eqb_refl by u64_lia. cbn [negb].
  destruct (Z.ltb_spec UINT64_MAX (blen c)); [u64_lia |]. rewrite alloc_ok. cbn [negb].
  rewrite (copy_packets_full c _ 0); [| done | done | by eapply packets_from_0 | lia | lia].
  by rewrite Z.sub_0_r, slice_all, !Z.eqb_refl.
Qed.

Lemma reassemble_incomplete c ob :
  packets_ok c (ro_packets ob) -> ro_data_received ob = total (ro_packets ob) ->
  ro_object_length ob = blen c -> ~ complete c ob ->
  quicrq_reassembly_object_reassemble ob = (ob, -1).
Proof.
  intros Hok Hr Hlen Hcomp. rewrite complete_total in Hcomp by done.
  unfold quicrq_reassembly_object_reassemble. rewrite Hlen, Hr.
  destruct (Z.eqb_spec (total (ro_packets ob)) (blen c)) as [| Hne]; [done |].
  destruct (Z.eqb_spec (blen c) 0) as [E |]; [| by rewrite andb_false_r].
  destruct (Z.eqb_spec (total (ro_packets ob)) 0); [congruence |].
  by rewrite andb_false_r.
Qed.
End object.
