(* ===== verification/ReassemblyDelivery.v ===== *)
(** * Deliveries of a reassembly context

    A history is a list of fragments consistent with the media, in any order,
    with repetitions and overlaps.  The lemmas relate the calls made to
    [ready_fn] with the media and with the fragments received. *)

From S2P Require Import Prelude Picosplay Media Reassembly ReassemblyProofs.

(** ** Running a history *)

Section run.
Context `{SL : SplayLaws (Z * Z) quicrq_object_node_compare}.
Context {Al : Allocator} {A : Type}.
Context (ready_fn : quicrq_reassembly_context_t -> A -> ready_event -> A * Z).

(** [ready_fn] with a record of its calls. *)
Definition logging ctx (app : A * list ready_event) (e : ready_event)
  : (A * list ready_event) * Z :=
  let '(a, ret) := ready_fn ctx app.1 e in ((a, app.2 ++ [e]), ret).

Definition input_f ctx (f : fragment) (app : A * list ready_event) :=
  quicrq_reassembly_input logging ctx (f_time f) (f_data f) (f_group f) (f_object f)
    (f_offset f) (f_delay f) (f_flags f) (f_nb_previous f) (f_object_length f)
    (f_data_length f) app.

(** Submit fragments one after the other, ignoring return codes. *)
Fixpoint run ctx (fs : list fragment) (app : A * list ready_event)
  : option (quicrq_reassembly_context_t * (A * list ready_event)) :=
  match fs with
  | [] => Some (ctx, app)
  | f :: fs' =>
      match input_f ctx f app with
      | Some (ctx, app, _) => run ctx fs' app
      | None => None
      end
  end.

(** The keys of the deliveries made in order: not the peeks. *)
Definition in_order (log : list ready_event) : list (Z * Z) :=
  map (fun e => (re_group_id e, re_object_id e))
    (List.filter (fun e => negb (bool_decide (re_mode e = quicrq_reassembly_object_peek))) log).

Lemma in_order_app l1 l2 : in_order (l1 ++ l2) = in_order l1 ++ in_order l2.
Proof. unfold in_order. by rewrite List.filter_app, List.map_app. Qed.
End run.

(** ** Invariants *)

(** [base] is what was delivered in order before the last start point, and
    [start] that start point. *)
Section invariants.
Context `{SL : SplayLaws (Z * Z) quicrq_object_node_compare}.
Context (m : media) (base : list (Z * Z)) (start : Z * Z).

(** What is known of an object before the current fragment is processed. *)
Record object_pre (k : Z * Z) (ob : quicrq_reassembly_object_t) : Prop := {
  op_key : (ro_group_id ob, ro_object_id ob) = k;
  op_ids : is_id k.1 /\ is_id k.2 /\ k.2 < count m k.1;
  op_packets : packets_ok (content m k) (ro_packets ob);
  op_received : ro_data_received ob = total (ro_packets ob);
  op_length : ro_object_length ob = blen (content m k);
  op_last : covered (ro_packets ob) (blen (content m k) - 1) -> ro_is_last_received ob = true;
  op_nb : 0 < k.1 -> k.2 = 0 -> covered (ro_packets ob) 0 ->
    ro_nb_objects_previous_group ob = count m (k.1 - 1);
  op_reass : ro_reassembled ob = None \/
    (ro_reassembled ob = Some (content m k) /\ complete (content m k) ob);
}.

(** An object that has processed at least one fragment. *)
Record object_inv (k : Z * Z) (ob : quicrq_reassembly_object_t) : Prop := {
  oi_pre : object_pre k ob;
  oi_empty : blen (content m k) = 0 -> ro_is_last_received ob = true /\
    (0 < k.1 -> k.2 = 0 -> ro_nb_objects_previous_group ob = count m (k.1 - 1));
}.

Definition next_key ctx : Z * Z := (rc_next_group_id ctx, rc_next_object_id ctx).

(** The end of a group is the beginning of the next one. *)
Definition normal (k : Z * Z) : Z * Z := if k.2 <? count m k.1 then k else (k.1 + 1, 0).

(** Structure of the store: [hole] is the object being updated, if any. *)
Record store_inv (hole : option (Z * Z)) ctx : Prop := {
  si_wf : splay_wf key_ok (rc_object_tree ctx);
  si_dom : forall k, k ∈ splay_nodes (rc_object_tree ctx) <-> is_Some (rc_objects ctx !! k);
  si_key : forall k, is_Some (rc_objects ctx !! k) -> is_id k.1 /\ is_id k.2;
  si_objects : forall k ob, rc_objects ctx !! k = Some ob -> Some k <> hole -> object_inv k ob;
  si_next : 0 <= rc_next_group_id ctx <= two62 /\
            0 <= rc_next_object_id ctx <= count m (rc_next_group_id ctx);
}.

(** A call of the callback carries the object it names. *)
Definition event_ok (e : ready_event) : Prop :=
  re_data e = content m (re_group_id e, re_object_id e) /\
  re_data_length e = blen (content m (re_group_id e, re_object_id e)).

(** What has been delivered, and where the context stands. *)
Record log_inv (fs : list fragment) ctx (log : list ready_event) : Prop := {
  li_events : Forall event_ok log;
  li_order : exists n, in_order log = base ++ map (media_from m start) (seq 0 n) /\
    normal (next_key ctx) = media_from m start n;
  li_received : Forall (fun e => fully_received m fs (re_group_id e, re_object_id e)) log;
}.

(** Received bytes come from the history, and the bytes of the objects that
    are still to be delivered are kept. *)
Record source_inv (fs : list fragment) ctx : Prop := {
  so_from : forall k ob, rc_objects ctx !! k = Some ob ->
    Exists (fun f => f_key f = k) fs /\
    forall i, covered (ro_packets ob) i -> byte_received fs k i;
  so_kept : forall f, f ∈ fs -> key_le (next_key ctx) (f_key f) ->
    exists ob, rc_objects ctx !! f_key f = Some ob /\
      forall i, f_offset f <= i < f_offset f + f_data_length f -> covered (ro_packets ob) i;
}.

(** Complete objects are reassembled; the ones that are next are not there. *)
Definition reassembled_inv (hole : option (Z * Z)) ctx : Prop :=
  forall k ob, rc_objects ctx !! k = Some ob -> Some k <> hole ->
    complete (content m k) ob -> is_Some (ro_reassembled ob).
Definition waiting ctx : Prop :=
  (forall ob, rc_objects ctx !! next_key ctx = Some ob -> ~ complete (content m (next_key ctx)) ob) /\
  (rc_next_object_id ctx = count m (rc_next_group_id ctx) ->
   forall ob, rc_objects ctx !! (rc_next_group_id ctx + 1, 0) = Some ob ->
     ~ complete (content m (rc_next_group_id ctx + 1, 0)) ob).

Lemma find_lookup hole ctx g o :
  store_inv hole ctx -> is_key g -> is_key o ->
  quicrq_object_find ctx g o = rc_objects ctx !! (g, o).
Proof.
  intros [Hwf Hdom _ _ _] Hg Ho. unfold quicrq_object_find.
  assert (key_ok (g, o)) as Hk by done.
  destruct (splay_find (rc_object_tree ctx) (g, o)) as [k |] eqn:E.
  - apply (splay_find_elem key_ok) in E as [Hin Hc]; [| done | done].
    apply quicrq_object_node_compare_eq in Hc as ->; [done | done |].
    destruct Hwf as [Hok _]. by eapply Forall_forall in Hin.
  - destruct (rc_objects ctx !! (g, o)) as [ob |] eqn:El; [| done]. exfalso.
    eapply (splay_find_None key_ok) in E; [| done | done |].
    + apply E. apply (cmp_refl (ok := key_ok)). done.
    + apply Hdom. by eexists.
Qed.

Lemma next_in_range hole ctx : store_inv hole ctx ->
  is_key (rc_next_group_id ctx) /\ is_key (rc_next_object_id ctx) /\
  rc_next_group_id ctx +64 1 = rc_next_group_id ctx + 1 /\
  rc_next_object_id ctx +64 1 = rc_next_object_id ctx + 1 /\
  is_key (rc_next_group_id ctx + 1).
Proof.
  intros [_ _ _ _ [H1 H2]]. pose proof (count_range m (rc_next_group_id ctx)).
  unfold is_key. rewrite !u64_small by u64_lia. split_and!; u64_lia.
Qed.

Record inv (fs : list fragment) ctx (log : list ready_event) : Prop := {
  inv_store : store_inv None ctx;
  inv_source : source_inv fs ctx;
  inv_log : log_inv fs ctx log;
}.

(** ** Facts on objects of the store *)

Lemma object_next_lt ctx k ob : store_inv None ctx ->
  rc_objects ctx !! k = Some ob -> object_inv k ob /\ k.2 < count m k.1 /\
  (ro_group_id ob, ro_object_id ob) = k.
Proof.
  intros Hs Hk. destruct (si_objects None ctx Hs k ob Hk) as [Hpre He]; [done |].
  split; [done |]. destruct Hpre as [Hkey (_ & _ & ?) _ _ _ _ _ _]. done.
Qed.

Lemma object_nb k ob : object_inv k ob -> complete (content m k) ob -> 0 < k.1 -> k.2 = 0 ->
  ro_nb_objects_previous_group ob = count m (k.1 - 1).
Proof.
  intros [Hpre He] Hc Hg Hk. pose proof (blen_nonneg (content m k)).
  destruct (Z.eq_dec (blen (content m k)) 0) as [E |].
  - by apply (He E).
  - apply (op_nb _ _ Hpre Hg Hk), Hc. lia.
Qed.

Lemma object_last k ob : object_inv k ob -> complete (content m k) ob ->
  ro_is_last_received ob = true.
Proof.
  intros [Hpre He] Hc. pose proof (blen_nonneg (content m k)).
  destruct (Z.eq_dec (blen (content m k)) 0) as [E |].
  - by apply (He E).
  - apply (op_last _ _ Hpre), Hc. lia.
Qed.

Lemma object_data k ob : object_inv k ob -> is_Some (ro_reassembled ob) ->
  ro_reassembled ob = Some (content m k) /\ complete (content m k) ob.
Proof. intros [Hpre _] [r Hr]. destruct (op_reass _ _ Hpre) as [E | ?]; [congruence | done]. Qed.

Lemma byte_received_mono fs f k i : byte_received fs k i -> byte_received (fs ++ [f]) k i.
Proof. intros H. apply Exists_app. by left. Qed.
Lemma fully_received_mono fs f k : fully_received m fs k -> fully_received m (fs ++ [f]) k.
Proof.
  intros [H1 H2]. split; [apply Exists_app; by left |].
  intros i Hi. by apply byte_received_mono, H2.
Qed.

Lemma complete_received fs ctx k ob : source_inv fs ctx -> rc_objects ctx !! k = Some ob ->
  complete (content m k) ob -> fully_received m fs k.
Proof.
  intros [Hf _] Hk Hc. destruct (Hf k ob Hk) as [He Hi]. split; [done |].
  intros i Hr. by apply Hi, Hc.
Qed.

(** A fully received object that is not yet passed is complete in the store. *)
Lemma received_complete fs ctx k : source_inv fs ctx -> fully_received m fs k ->
  key_le (next_key ctx) k -> exists ob, rc_objects ctx !! k = Some ob /\ complete (content m k) ob.
Proof.
  intros [_ Hkept] [He Hall] Hle. apply Exists_exists in He as (f & Hf & Hk).
  destruct (Hkept f Hf) as (ob & Hob & _); [by rewrite Hk |]. rewrite Hk in Hob.
  exists ob. split; [done |]. intros i Hi. specialize (Hall i Hi).
  apply Exists_exists in Hall as (f' & Hf' & Hk' & Hr).
  destruct (Hkept f' Hf') as (ob' & Hob' & Hc); [by rewrite Hk' |].
  rewrite Hk', Hob in Hob'. injection Hob' as <-. by apply Hc.
Qed.

(** ** The two moves of the delivery pointer *)

Lemma normal_next k : normal (k.1, k.2 + 1) = media_next m k.
Proof. done. Qed.

(** The next group has started and the current one is exhausted. *)
Lemma jump_inv fs ctx log :
  inv fs ctx log -> rc_next_object_id ctx = count m (rc_next_group_id ctx) ->
  rc_next_group_id ctx + 1 <= two62 ->
  inv fs (rc_set_next ctx (rc_next_group_id ctx +64 1) 0) log.
Proof.
  intros [Hs [Hfrom Hkept] [He (n & Ho & Hn) Hr]] Hnext Hlt.
  destruct (next_in_range None ctx Hs) as (_ & _ & -> & _ & _).
  destruct Hs as [Hwf Hdom Hkey Hobj [Hg Hob]].
  pose proof (count_range m (rc_next_group_id ctx + 1)). split.
  - split; cbn; try done. lia.
  - split; cbn; [done |]. intros f Hf Hle. apply Hkept; [done |].
    unfold key_le, next_key in *. cbn in *. lia.
  - split; try done. exists n. split; [done |]. rewrite <- Hn. unfold normal, next_key. cbn.
    destruct (Z.ltb_spec (rc_next_object_id ctx) (count m (rc_next_group_id ctx))); [lia |].
    destruct (Z.ltb_spec 0 (count m (rc_next_group_id ctx + 1))); [done | lia].
Qed.

Lemma delete_store ctx ob : store_inv None ctx ->
  rc_objects ctx !! (ro_group_id ob, ro_object_id ob) = Some ob ->
  let ctx' := quicrq_reassembly_object_delete ctx ob in
  splay_wf key_ok (rc_object_tree ctx') /\
  (forall k, k ∈ splay_nodes (rc_object_tree ctx') <-> is_Some (rc_objects ctx' !! k)) /\
  (length (splay_nodes (rc_object_tree ctx')) < length (splay_nodes (rc_object_tree ctx)))%nat.
Proof.
  intros [Hwf Hdom _ _ _] Hk. cbn.
  assert ((ro_group_id ob, ro_object_id ob) ∈ splay_nodes (rc_object_tree ctx)) as Hin
    by (apply Hdom; by eexists).
  split_and!.
  - by apply (splay_wf_delete key_ok).
  - intros k. rewrite (elem_of_splay_delete key_ok) by done. rewrite Hdom.
    rewrite lookup_delete_is_Some. split; intros [? ?]; split; auto using not_eq_sym.
  - rewrite (splay_delete_length (rc_object_tree ctx) (ro_group_id ob, ro_object_id ob)); [lia | | done].
    by apply (splay_wf_nodup key_ok).
Qed.

(** The object at the delivery pointer is delivered and removed. *)
Lemma deliver_inv fs ctx log ob e :
  inv fs ctx log -> rc_objects ctx !! next_key ctx = Some ob ->
  complete (content m (next_key ctx)) ob ->
  (re_group_id e, re_object_id e) = next_key ctx ->
  re_mode e <> quicrq_reassembly_object_peek -> event_ok e ->
  let ctx' := quicrq_reassembly_object_delete ctx ob in
  inv fs (rc_set_next ctx' (rc_next_group_id ctx') (rc_next_object_id ctx' +64 1)) (log ++ [e]).
Proof.
  intros [Hs Hsrc [He (n & Ho & Hn) Hr]] Hob Hc Hek Hmode Hev. cbn.
  destruct (object_next_lt ctx _ ob Hs Hob) as (_ & Hlt & Hkob).
  assert (rc_objects ctx !! (ro_group_id ob, ro_object_id ob) = Some ob) as Hk by by rewrite Hkob.
  destruct (delete_store ctx ob Hs Hk) as (Dwf & Ddom & _).
  destruct (next_in_range None ctx Hs) as (_ & _ & _ & -> & _).
  pose proof (complete_received fs ctx _ ob Hsrc Hob Hc) as Hfull.
  destruct Hs as [Hwf Hdom Hkey Hobj [Hg Hobj']]. destruct Hsrc as [Hfrom Hkept].
  unfold next_key in Hlt. cbn in Hlt. cbn in Dwf, Ddom. split.
  - split; cbn; try done.
    + intros k [x Hx]. apply Hkey. apply lookup_delete_Some in Hx as [_ Hx]. by eexists.
    + intros k x [_ Hx]%lookup_delete_Some. by apply Hobj.
    + lia.
  - split; cbn.
    + intros k x [_ Hx]%lookup_delete_Some. by apply Hfrom.
    + intros f Hf Hle. destruct (Hkept f Hf) as (x & Hx & Hcov).
      { unfold key_le, next_key in *. cbn in *. lia. }
      exists x. split; [| done]. rewrite lookup_delete_ne; [done |].
      rewrite Hkob. intros E. rewrite <- E in Hle. unfold key_le, next_key in Hle. cbn in Hle. lia.
  - assert (in_order (log ++ [e]) = in_order log ++ [next_key ctx]) as Eo.
    { rewrite in_order_app. unfold in_order at 2. cbn.
      rewrite bool_decide_false by done. cbn. by rewrite Hek. }
    assert (normal (next_key ctx) = next_key ctx) as En.
    { unfold normal, next_key. cbn.
      by destruct (Z.ltb_spec (rc_next_object_id ctx) (count m (rc_next_group_id ctx))); [| lia]. }
    rewrite En in Hn. split.
    + apply Forall_app. split; [done | by constructor].
    + exists (S n). rewrite seq_S, map_app, media_from_S, <- Hn. cbn. split.
      * by rewrite Eo, Ho, (assoc_L (++)), Hn.
      * apply (normal_next (next_key ctx)).
    + apply Forall_app. split; [done |]. constructor; [by rewrite Hek | done].
Qed.
End invariants.

(** ** The operations *)

Section operations.
Context `{SL : SplayLaws (Z * Z) quicrq_object_node_compare}.
Context (m : media) (base : list (Z * Z)) (start : Z * Z).
Context {Al : Allocator} (alloc_ok : forall n, malloc_ok n = true).
Context {A : Type} (ready_fn : quicrq_reassembly_context_t -> A -> ready_event -> A * Z).
Context (ready_ok : forall ctx a e, (ready_fn ctx a e).2 = 0).

Lemma logging_ok ctx a log e : exists a', logging ready_fn ctx (a, log) e = ((a', log ++ [e]), 0).
Proof.
  unfold logging. cbn. pose proof (ready_ok ctx a e) as Hr.
  destruct (ready_fn ctx a e) as [a' ret]. cbn in Hr. subst. by exists a'.
Qed.

Ltac log_event a' :=
  match goal with |- context [logging ready_fn ?c (?a, ?log) ?ev] =>
    destruct (logging_ok c a log ev) as [a' ->] end.

Lemma reassembled_delete ctx ob g o : reassembled_inv m None ctx ->
  reassembled_inv m None (rc_set_next (quicrq_reassembly_object_delete ctx ob) g o).
Proof. intros H k x. cbn. intros [_ Hx]%lookup_delete_Some. by apply H. Qed.

(** The search of the next deliverable object, as the loop makes it. *)
Lemma next_object_spec fs ctx log :
  inv m base start fs ctx log -> reassembled_inv m None ctx ->
  match
    match quicrq_object_find ctx (rc_next_group_id ctx) (rc_next_object_id ctx) with
    | Some ob => Some (ob, ctx)
    | None =>
        match quicrq_object_find ctx (rc_next_group_id ctx +64 1) 0 with
        | Some ob =>
            if bool_decide (is_Some (ro_reassembled ob)) &&
               (ro_nb_objects_previous_group ob =? rc_next_object_id ctx)
            then Some (ob, rc_set_next ctx (rc_next_group_id ctx +64 1) 0)
            else None
        | None => None
        end
    end
  with
  | None => waiting m ctx
  | Some (ob, ctx') =>
      inv m base start fs ctx' log /\ rc_objects ctx' = rc_objects ctx /\
      rc_object_tree ctx' = rc_object_tree ctx /\ rc_objects ctx' !! next_key ctx' = Some ob /\
      (ro_reassembled ob = None -> waiting m ctx')
  end.
Proof.
  intros Hinv Hre. pose proof (inv_store _ _ _ _ _ _ Hinv) as Hs.
  destruct (next_in_range m None ctx Hs) as (K1 & K2 & E1 & E2 & K3).
  rewrite (find_lookup m None), E1, (find_lookup m None) by done. fold (next_key ctx).
  destruct (rc_objects ctx !! next_key ctx) as [ob |] eqn:Eob.
  { split_and!; try done. intros Hnone.
    destruct (object_next_lt m ctx _ ob Hs Eob) as (_ & Hlt & _). split.
    - intros ob' Eob' Hc. rewrite Eob in Eob'. injection Eob' as <-.
      destruct (Hre _ _ Eob ltac:(done) Hc) as [? ?]. congruence.
    - intros E. unfold next_key in Hlt. cbn in Hlt. lia. }
  assert (forall ob, rc_objects ctx !! (rc_next_group_id ctx + 1, 0) = Some ob ->
    complete (content m (rc_next_group_id ctx + 1, 0)) ob ->
    ro_nb_objects_previous_group ob = count m (rc_next_group_id ctx)) as Hnb.
  { intros ob Hob Hc. destruct (object_next_lt m ctx _ ob Hs Hob) as (Hoi & _ & _).
    rewrite (object_nb m _ ob Hoi Hc) by (cbn; unfold is_key in *; lia). cbn. f_equal. lia. }
  destruct (rc_objects ctx !! (rc_next_group_id ctx + 1, 0)) as [ob |] eqn:Eob2.
  2: { split; [congruence |]. intros _ ob Hob. congruence. }
  destruct (object_next_lt m ctx _ ob Hs Eob2) as (Hoi & Hlt & Hk).
  case_bool_decide as Hsome; cbn [andb].
  - destruct (object_data m _ ob Hoi Hsome) as [Hdata Hcomp].
    specialize (Hnb ob eq_refl Hcomp).
    destruct (Z.eqb_spec (ro_nb_objects_previous_group ob) (rc_next_object_id ctx)) as [E |].
    + split_and!; try done.
      * rewrite <- E1. apply jump_inv; [done | congruence |].
        destruct (si_key _ _ _ Hs (rc_next_group_id ctx + 1, 0)) as [[_ Hi] _]; [by eexists |].
        cbn in Hi. lia.
      * intros Hnone. by rewrite Hdata in Hnone.
    + split; [congruence |]. congruence.
  - split; [congruence |]. intros _ ob' Hob' Hc.
    rewrite Eob2 in Hob'. injection Hob' as <-. apply Hsome. by eapply Hre.
Qed.

Lemma update_loop_spec fuel : forall fs ctx a log now,
  inv m base start fs ctx log -> reassembled_inv m None ctx ->
  (length (splay_nodes (rc_object_tree ctx)) < fuel)%nat ->
  exists ctx' a' log',
    update_start_point_loop (logging ready_fn) fuel ctx (a, log) now = Some (ctx', (a', log'), 0) /\
    inv m base start fs ctx' log' /\ reassembled_inv m None ctx' /\ waiting m ctx'.
Proof.
  induction fuel as [| fuel IH]; intros fs ctx a log now Hinv Hre Hf; [lia |].
  cbn [update_start_point_loop].
  pose proof (next_object_spec fs ctx log Hinv Hre) as Hnext.
  destruct (match quicrq_object_find ctx (rc_next_group_id ctx) (rc_next_object_id ctx)
            with Some _ => _ | None => _ end) as [[ob ctx1] |].
  2: { eexists _, _, _. split; [done |]. done. }
  destruct Hnext as (Hinv1 & Eobj & Etree & Hob & Hwait).
  assert (reassembled_inv m None ctx1) as Hre1 by (unfold reassembled_inv; by rewrite Eobj).
  destruct (ro_reassembled ob) as [bytes |] eqn:Er.
  2: { eexists _, _, _. split; [done |]. auto. }
  pose proof (inv_store _ _ _ _ _ _ Hinv1) as Hs1.
  destruct (object_next_lt m ctx1 _ ob Hs1 Hob) as (Hoi & Hlt & Hk).
  destruct (object_data m _ ob Hoi) as [Hdata Hcomp]; [by eexists |].
  rewrite Er in Hdata. injection Hdata as ->.
  match goal with |- context [logging ready_fn ctx1 (a, log) ?ev] => set (e := ev) end.
  destruct (logging_ok ctx1 a log e) as [a' ->]. cbn [Z.eqb].
  pose proof (deliver_inv m base start fs ctx1 log ob e Hinv1 Hob Hcomp Hk ltac:(done)) as Hdel.
  assert (event_ok m e) as Hev.
  { unfold event_ok. cbn. rewrite Hk. split; [done |]. apply (op_length _ _ _ (oi_pre _ _ _ Hoi)). }
  destruct (IH fs _ a' (log ++ [e]) now (Hdel Hev)) as (ctx' & a2 & log' & -> & ?).
  - by apply reassembled_delete.
  - destruct (delete_store m ctx1 ob Hs1) as (_ & _ & Hlen); [by rewrite Hk |].
    cbn in Hlen |- *. rewrite Etree in *. lia.
  - eauto 10.
Qed.

Lemma set_finished_inv fs ctx log fg fo fin :
  inv m base start fs ctx log -> inv m base start fs (rc_set_final ctx fg fo fin) log.
Proof. intros [[] [] []]. split; split; done. Qed.

Lemma update_start_point_spec fs ctx a log now :
  inv m base start fs ctx log -> reassembled_inv m None ctx ->
  exists ctx' a' log',
    quicrq_reassembly_update_start_point (logging ready_fn) ctx now (a, log)
      = Some (ctx', (a', log'), 0) /\
    inv m base start fs ctx' log' /\ reassembled_inv m None ctx' /\ waiting m ctx'.
Proof.
  intros Hinv Hre. unfold quicrq_reassembly_update_start_point.
  destruct (update_loop_spec (update_fuel ctx) fs ctx a log now Hinv Hre)
    as (ctx' & a' & log' & -> & Hinv' & Hre' & Hw); [unfold update_fuel; lia |].
  eexists _, _, _. split; [done |].
  destruct (_ && _); [| done]. split; [by apply set_finished_inv |]. done.
Qed.

(** ** Submission of one fragment *)

(** The state in which [input_fragment] runs: [ctx0] with the object [ob]
    found or created at key [k]. *)
Record prepared ctx0 (k : Z * Z) ctx ob : Prop := {
  pr_wf : splay_wf key_ok (rc_object_tree ctx);
  pr_nodes : forall k', k' ∈ splay_nodes (rc_object_tree ctx) <->
    k' = k \/ k' ∈ splay_nodes (rc_object_tree ctx0);
  pr_objects : rc_objects ctx = <[k := ob]> (rc_objects ctx0);
  pr_next : next_key ctx = next_key ctx0;
  pr_object : object_pre m k ob;
  pr_old : match rc_objects ctx0 !! k with
           | Some old => ro_packets ob = ro_packets old /\ ro_reassembled ob = ro_reassembled old
           | None => ro_packets ob = [] /\ ro_reassembled ob = None
           end;
}.

Definition f_covers (f : fragment) (i : Z) : Prop :=
  f_offset f <= i < f_offset f + f_data_length f.

Lemma rc_put_at ctx k ob : (ro_group_id ob, ro_object_id ob) = k ->
  rc_put ctx ob = rc_set_objects ctx (rc_object_tree ctx) (<[k := ob]> (rc_objects ctx)).
Proof. by intros <-. Qed.

(** The fragment [f] is accepted in object [ob'] of the store. *)
Lemma accept_inv fs ctx0 log k ctx ob f ob' :
  inv m base start fs ctx0 log -> prepared ctx0 k ctx ob -> f_key f = k ->
  object_inv m k ob' ->
  (forall i, covered (ro_packets ob') i <-> covered (ro_packets ob) i \/ f_covers f i) ->
  inv m base start (fs ++ [f]) (rc_put ctx ob') log.
Proof.
  intros [Hs Hsrc Hl] [Pwf Pn Po Pnext Pob Pold] Hfk Hoi Hcov.
  assert ((ro_group_id ob', ro_object_id ob') = k) as Hk by apply Hoi.
  rewrite (rc_put_at _ k) by done. rewrite Po, insert_insert_eq.
  unfold next_key in Pnext. injection Pnext as Png Pno.
  pose proof (op_ids _ _ _ Pob) as (I1 & I2 & _).
  destruct Hs as [Swf Sdom Skey Sobj Snext]. destruct Hsrc as [Hfrom Hkept].
  destruct Hl as [Le Lo Lr]. split.
  - split; cbn; try done.
    + intros k'. rewrite Pn, Sdom, lookup_insert_is_Some'. split; intros [? | ?]; auto.
    + intros k'. rewrite lookup_insert_is_Some'. intros [<- | ?]; auto.
    + intros k' x. rewrite lookup_insert_Some. intros [[<- <-] | [_ Hx]] ?; auto.
    + by rewrite Png, Pno.
  - split; cbn.
    + intros k' x. rewrite lookup_insert_Some. intros [[<- <-] | [_ Hx]].
      * split; [apply Exists_app; right; by constructor |].
        intros i. rewrite Hcov. intros [Hi | Hi].
        -- apply byte_received_mono. destruct (rc_objects ctx0 !! k) as [old |] eqn:Eo.
           ++ destruct Pold as [Ep _]. rewrite Ep in Hi. by apply (Hfrom k old Eo).
           ++ destruct Pold as [Ep _]. rewrite Ep in Hi. by apply covered_nil in Hi.
        -- apply Exists_app. right. by constructor.
      * destruct (Hfrom k' x Hx) as [He Hi].
        split; [apply Exists_app; by left |]. intros i Hc. by apply byte_received_mono, Hi.
    + intros f' [Hf' | ->%list_elem_of_singleton]%elem_of_app Hle.
      * destruct (Hkept f' Hf') as (x & Hx & Hc).
        { unfold key_le, next_key in *. cbn in Hle. by rewrite <- Png, <- Pno. }
        destruct (decide (f_key f' = k)) as [E | Hne].
        -- exists ob'. rewrite E, lookup_insert_eq. split; [done |].
           intros i Hi. apply Hcov. left. rewrite E in Hx. rewrite Hx in Pold.
           destruct Pold as [-> _]. by apply Hc.
        -- exists x. by rewrite lookup_insert_ne.
      * exists ob'. rewrite Hfk, lookup_insert_eq. split; [done |].
        intros i Hi. apply Hcov. by right.
  - split; try done.
    + unfold next_key in *. cbn. by rewrite Png, Pno.
    + eapply Forall_impl; [exact Lr |]. intros e. cbn. apply fully_received_mono.
Qed.

(** Rewriting an object without losing or inventing bytes. *)
Lemma replace_inv fs ctx log k ob ob' :
  inv m base start fs ctx log -> rc_objects ctx !! k = Some ob -> object_inv m k ob' ->
  ro_packets ob' = ro_packets ob -> inv m base start fs (rc_put ctx ob') log.
Proof.
  intros [Hs Hsrc Hl] Hob Hoi Hps.
  assert ((ro_group_id ob', ro_object_id ob') = k) as Hk by apply Hoi.
  rewrite (rc_put_at _ k) by done.
  destruct Hs as [Swf Sdom Skey Sobj Snext]. destruct Hsrc as [Hfrom Hkept].
  assert (is_Some (rc_objects ctx !! k)) as Hsome by by eexists. split.
  - split; cbn; try done.
    + intros k'. rewrite Sdom, lookup_insert_is_Some'.
      split; [by right |]. by intros [<- | ?].
    + intros k'. rewrite lookup_insert_is_Some'. intros [<- | ?]; auto.
    + intros k' x. rewrite lookup_insert_Some. intros [[<- <-] | [_ Hx]] ?; auto.
  - split; cbn.
    + intros k' x. rewrite lookup_insert_Some. intros [[<- <-] | [_ Hx]]; [| by apply Hfrom].
      rewrite Hps. by apply Hfrom.
    + intros f Hf Hle. destruct (Hkept f Hf Hle) as (x & Hx & Hc).
      destruct (decide (f_key f = k)) as [E | Hne].
      * exists ob'. rewrite E, lookup_insert_eq. split; [done |]. rewrite Hps.
        rewrite E, Hob in Hx. by injection Hx as <-.
      * exists x. by rewrite lookup_insert_ne.
  - destruct Hl. by split.
Qed.

Lemma peek_inv fs ctx log e :
  inv m base start fs ctx log -> re_mode e = quicrq_reassembly_object_peek -> event_ok m e ->
  fully_received m fs (re_group_id e, re_object_id e) -> inv m base start fs ctx (log ++ [e]).
Proof.
  intros [Hs Hsrc [Le Lo Lr]] Hm Hev Hfull. split; [done | done |].
  assert (in_order (log ++ [e]) = in_order log) as Eo.
  { rewrite in_order_app. unfold in_order at 2. cbn. rewrite bool_decide_true by done.
    cbn. by rewrite app_nil_r. }
  split; rewrite ?Eo; try done; apply Forall_app; (split; [done | by constructor]).
Qed.

(** A fragment behind the delivery pointer changes nothing. *)
Lemma late_inv fs ctx log f :
  inv m base start fs ctx log -> ~ key_le (next_key ctx) (f_key f) -> inv m base start (fs ++ [f]) ctx log.
Proof.
  intros [Hs [Hfrom Hkept] [Le Lo Lr]] Hlate. split; [done | |].
  - split.
    + intros k x Hx. destruct (Hfrom k x Hx) as [He Hi].
      split; [apply Exists_app; by left |]. intros i Hc. by apply byte_received_mono, Hi.
    + intros f' [Hf' | ->%list_elem_of_singleton]%elem_of_app Hle; [by apply Hkept | done].
  - split; try done. eapply Forall_impl; [exact Lr |]. intros e. cbn. apply fully_received_mono.
Qed.

(** The object after its properties are updated and the packet is added. *)
Lemma fragment_object k ob f nb last :
  object_pre m k ob -> consistent m f -> f_key f = k ->
  nb = (if (f_object f =? 0) && (f_offset f =? 0) then f_nb_previous f
        else ro_nb_objects_previous_group ob) ->
  last = (blen (content m k) <=? f_offset f + f_data_length f) || ro_is_last_received ob ->
  exists ob', quicrq_reassembly_object_add_packet
      (ro_set_props ob nb (ro_object_length ob) (ro_queue_delay ob) (ro_flags ob) last)
      (f_time f) (f_data f) (f_offset f) (f_data_length f) = (ob', 0) /\
    object_inv m k ob' /\ ro_reassembled ob' = ro_reassembled ob /\
    (forall i, covered (ro_packets ob') i <-> covered (ro_packets ob) i \/ f_covers f i).
Proof.
  intros [Hkey Hids Hok Hrec Hlen Hlast Hnb Hre] [Cg Co Cl Cr Cd Cnb] Hfk Enb Elast.
  rewrite Hfk in *. unfold quicrq_reassembly_object_add_packet.
  match goal with |- context [add_packet_loop ?o] => set (ob1 := o) end.
  destruct (add_packet_loop_spec alloc_ok (content m k) (content_range m k)
    (ro_packets ob1) ob1 [] (f_time f) (f_data f) (f_offset f) (f_data_length f))
    as (ob' & -> & Hadd).
  { split; try done; cbn; tauto. }
  exists ob'. split; [done |]. destruct Hadd as [(ps & r & t & Eob) Aok Atot Acov].
  assert (forall i, covered (ro_packets ob') i <-> covered (ro_packets ob) i \/ f_covers f i)
    as Hcov by (intros i; by rewrite Acov).
  clear Acov. assert (ro_reassembled ob' = ro_reassembled ob) as Ere by by rewrite Eob.
  assert (ro_is_last_received ob' = last /\ ro_nb_objects_previous_group ob' = nb) as [El En]
    by by rewrite Eob.
  assert (f_object f = k.2 /\ f_group f = k.1) as [Eo Eg] by by rewrite <- Hfk.
  split; [| done]. split; [split |].
  - by rewrite Eob.
  - done.
  - done.
  - done.
  - by rewrite Eob.
  - rewrite Hcov, El, Elast. intros [Hc | Hc]; [by rewrite Hlast, orb_true_r |].
    unfold f_covers in Hc. apply orb_true_iff. left. apply Z.leb_le. lia.
  - rewrite Hcov, En, Enb. intros Hg0 E0. rewrite E0 in Eo. rewrite Eo in *.
    intros [Hc | Hc]; cbn [Z.eqb andb]; destruct (Z.eqb_spec (f_offset f) 0);
      rewrite ?Cnb, ?Eg by (done || lia); try done; [by apply Hnb | unfold f_covers in Hc; lia].
  - rewrite Ere. destruct Hre as [? | [? Hc]]; [by left | right]. split; [done |].
    intros i Hi. apply Hcov. left. by apply Hc.
  - intros E. split.
    + rewrite El, Elast. apply orb_true_iff. left. apply Z.leb_le. lia.
    + rewrite En, Enb. intros Hg0 E0. rewrite E0 in Eo. rewrite Eo. cbn [Z.eqb andb].
      destruct (Z.eqb_spec (f_offset f) 0); [rewrite Cnb, Eg by lia; done | lia].
Qed.

Lemma complete_test k ob : object_inv m k ob ->
  ro_is_last_received ob && (ro_object_length ob <=? ro_data_received ob) = true <->
  complete (content m k) ob.
Proof.
  intros Hoi. pose proof (oi_pre _ _ _ Hoi) as [Hkey Hids Hok Hrec Hlen Hlast Hnb Hre].
  rewrite andb_true_iff, Z.leb_le, Hrec, Hlen.
  pose proof (total_bound _ _ 0 Hok (packets_from_0 _ _ Hok) (blen_nonneg _)) as Hb.
  split.
  - intros [_ Ht]. apply complete_total; [done | lia].
  - intros Hc. split; [by eapply object_last |]. apply complete_total in Hc; [lia | done].
Qed.

Lemma object_reassembled k ob : object_inv m k ob -> complete (content m k) ob ->
  exists ob', quicrq_reassembly_object_reassemble ob = (ob', 0) /\ object_inv m k ob' /\
    ro_reassembled ob' = Some (content m k) /\ ro_packets ob' = ro_packets ob /\
    ro_object_length ob' = blen (content m k).
Proof.
  intros Hoi Hc. pose proof (oi_pre _ _ _ Hoi) as [Hkey Hids Hok Hrec Hlen Hlast Hnb Hre].
  exists (ro_set_reassembled ob (Some (content m k))). split.
  { apply reassemble_complete; auto using content_range. by eapply object_last. }
  split; [| done]. destruct Hoi as [_ He].
  split; [split; try done; by right | done].
Qed.

Lemma reassembled_put hole ctx k ob :
  reassembled_inv m hole ctx -> hole = None \/ hole = Some k ->
  (ro_group_id ob, ro_object_id ob) = k ->
  (complete (content m k) ob -> is_Some (ro_reassembled ob)) ->
  reassembled_inv m None (rc_put ctx ob).
Proof.
  intros Hre Hh Hk Hc k' x. rewrite (rc_put_at _ k) by done. cbn.
  rewrite lookup_insert_Some. intros [[<- <-] | [Hne Hx]] _; [done |].
  apply (Hre k' x Hx). destruct Hh as [-> | ->]; congruence.
Qed.

(** The object [k] is the one the delivery pointer waits for. *)
Definition awaited ctx (k : Z * Z) : Prop :=
  k = next_key ctx \/
  (rc_next_object_id ctx = count m (rc_next_group_id ctx) /\ k = (rc_next_group_id ctx + 1, 0)).

Lemma waiting_put ctx0 ctx k ob :
  waiting m ctx0 -> next_key ctx = next_key ctx0 ->
  rc_objects ctx = <[k := ob]> (rc_objects ctx0) ->
  (awaited ctx0 k -> ~ complete (content m k) ob) -> waiting m ctx.
Proof.
  unfold awaited. intros [W1 W2] Hn Ho Hk. unfold waiting. rewrite Ho, Hn.
  unfold next_key in Hn. injection Hn as Hg Hi. rewrite Hg, Hi. split.
  - intros x. rewrite lookup_insert_Some. intros [[E <-] | [_ Hx]]; [| by apply W1].
    rewrite <- E. apply Hk. by left.
  - intros E x. rewrite lookup_insert_Some. intros [[Ek <-] | [_ Hx]]; [| by apply W2].
    rewrite <- Ek. apply Hk. right. by rewrite Ek.
Qed.

Lemma waiting_awaited ctx k ob :
  waiting m ctx -> awaited ctx k -> rc_objects ctx !! k = Some ob ->
  ~ complete (content m k) ob.
Proof. intros [W1 W2] [-> | [E ->]] Hob; [by apply W1 | by apply W2]. Qed.

(** Whether a completed object starts the next group. *)
Lemma jump_test hole ctx k ob :
  store_inv m hole ctx -> is_id k.1 -> object_inv m k ob -> complete (content m k) ob ->
  (k.1 =? rc_next_group_id ctx +64 1) && (k.2 =? 0) &&
    (ro_nb_objects_previous_group ob <=? rc_next_object_id ctx) = true <->
  k = (rc_next_group_id ctx + 1, 0) /\ rc_next_object_id ctx = count m (rc_next_group_id ctx).
Proof.
  intros Hs Hid Hoi Hc. destruct (next_in_range m hole ctx Hs) as (_ & _ & -> & _ & _).
  pose proof (si_next _ _ _ Hs) as [_ Hr].
  pose proof (next_in_range m hole ctx Hs) as (K1 & _). unfold is_key in K1.
  pose proof (object_nb m k ob Hoi Hc) as Hnb.
  rewrite !andb_true_iff, !Z.eqb_eq, Z.leb_le. destruct k as [g o]. cbn in *. split.
  - intros [[-> ->] Hle]. rewrite Hnb in Hle by lia.
    replace (rc_next_group_id ctx + 1 - 1) with (rc_next_group_id ctx) in Hle by lia.
    split; [done | lia].
  - intros [[= -> ->] E]. rewrite Hnb by lia.
    replace (rc_next_group_id ctx + 1 - 1) with (rc_next_group_id ctx) by lia. lia.
Qed.

(** Submission of a complete object that was not yet reassembled, from a
    context where [k] is the only change to a waiting one. *)
Lemma submit_in_sequence fs ctx a log k ob now fl :
  inv m base start fs ctx log -> rc_objects ctx !! k = Some ob -> complete (content m k) ob ->
  ro_reassembled ob = None -> reassembled_inv m (Some k) ctx -> k = next_key ctx ->
  exists ctx' a' log',
    submit_complete (logging ready_fn) ctx ob now k.1 k.2 fl (a, log)
      = Some (ctx', (a', log'), 0) /\
    inv m base start fs ctx' log' /\ reassembled_inv m None ctx' /\ waiting m ctx'.
Proof.
  intros Hinv Hob Hc Hnone Hre Ek. pose proof (inv_store _ _ _ _ _ _ Hinv) as Hs.
  destruct (object_next_lt m ctx k ob Hs Hob) as (Hoi & Hlt & Hk).
  destruct (op_ids _ _ _ (oi_pre _ _ _ Hoi)) as (Hid & _ & _).
  unfold submit_complete. pose proof (jump_test None ctx k ob Hs Hid Hoi Hc) as Hjump.
  destruct (_ && _ && _) eqn:Ej.
  { destruct (proj1 Hjump eq_refl) as [E _]. exfalso. rewrite Ek in E. unfold next_key in E.
    injection E as ? ?. lia. }
  rewrite Hnone. clear Hjump Ej.
  destruct (object_reassembled k ob Hoi Hc) as (ob' & -> & Hoi' & Hr' & Hp' & Hl').
  assert (inv m base start fs (rc_put ctx ob') log) as Hinv' by by eapply replace_inv.
  assert ((ro_group_id ob', ro_object_id ob') = k) as Hk' by apply Hoi'.
  assert (reassembled_inv m None (rc_put ctx ob')) as Hre'.
  { eapply reassembled_put; [exact Hre | by right | done |]. intros _. by eexists. }
  cbn [Z.eqb negb].
  log_event a'.
  unfold next_key in Ek. destruct k as [g o]. injection Ek as -> ->. cbn [fst snd].
  rewrite !Z.eqb_refl. cbn [Z.eqb andb].
  change (bool_decide (quicrq_reassembly_object_in_sequence = _)) with true. cbn [andb].
  match goal with |- context [log ++ [?ev]] => set (e := ev) end.
  assert (rc_objects (rc_put ctx ob') !! next_key (rc_put ctx ob') = Some ob') as Hob'.
  { rewrite (rc_put_at _ (rc_next_group_id ctx, rc_next_object_id ctx)) by done.
    apply lookup_insert_eq. }
  eapply update_start_point_spec.
  - apply (deliver_inv m base start fs (rc_put ctx ob') log ob' e Hinv' Hob'); try done.
    + intros i Hi. rewrite Hp'. by apply Hc.
    + unfold event_ok. cbn. by rewrite Hr'.
  - by apply reassembled_delete.
Qed.

Lemma submit_spec fs ctx0 ctx a log k ob now fl :
  inv m base start fs ctx log -> rc_objects ctx = <[k := ob]> (rc_objects ctx0) ->
  next_key ctx = next_key ctx0 -> waiting m ctx0 -> complete (content m k) ob ->
  ro_reassembled ob = None -> reassembled_inv m (Some k) ctx -> key_le (next_key ctx) k ->
  exists ctx' a' log',
    submit_complete (logging ready_fn) ctx ob now k.1 k.2 fl (a, log)
      = Some (ctx', (a', log'), 0) /\
    inv m base start fs ctx' log' /\ reassembled_inv m None ctx' /\ waiting m ctx'.
Proof.
  intros Hinv Hobs Hnk Hw Hc Hnone Hre Hle. pose proof (inv_store _ _ _ _ _ _ Hinv) as Hs.
  assert (rc_objects ctx !! k = Some ob) as Hob by (rewrite Hobs; apply lookup_insert_eq).
  destruct (object_next_lt m ctx k ob Hs Hob) as (Hoi & Hlt & Hk).
  destruct (op_ids _ _ _ (oi_pre _ _ _ Hoi)) as (Hid & _ & _).
  destruct (decide (k = next_key ctx)) as [E | Hne]; [by apply submit_in_sequence |].
  destruct (decide (k = (rc_next_group_id ctx + 1, 0) /\
    rc_next_object_id ctx = count m (rc_next_group_id ctx))) as [Hj | Hnj].
  - (* The next group starts: same as in sequence after the jump. *)
    pose proof (proj2 (jump_test None ctx k ob Hs Hid Hoi Hc) Hj) as Ej.
    destruct Hj as [-> Hcount].
    destruct (next_in_range m None ctx Hs) as (_ & _ & E1 & _ & _).
    assert (inv m base start fs (rc_set_next ctx (rc_next_group_id ctx +64 1) 0) log) as Hinv'.
    { apply jump_inv; [done | done |]. destruct Hid as [_ Hid]. cbn in Hid. lia. }
    destruct (submit_in_sequence fs _ a log (rc_next_group_id ctx + 1, 0) ob now fl Hinv')
      as (ctx' & a' & log' & Heq & Hres); try done.
    { unfold next_key. cbn. by rewrite E1. }
    exists ctx', a', log'. split; [| done]. rewrite <- Heq.
    unfold submit_complete. rewrite Ej. cbn [rc_set_next rc_next_group_id rc_next_object_id fst snd].
    rewrite E1. rewrite (u64_small (rc_next_group_id ctx + 1 + 1)).
    2: { destruct Hid as [? ?]. cbn in *. u64_lia. }
    destruct (Z.eqb_spec (rc_next_group_id ctx + 1) (rc_next_group_id ctx + 1 + 1)); [lia | done].
  - (* A peek. *)
    unfold submit_complete. pose proof (jump_test None ctx k ob Hs Hid Hoi Hc) as Hjump.
    destruct (_ && _ && _) eqn:Ej; [by destruct Hnj; apply Hjump |].
    rewrite Hnone. clear Hjump Ej.
    destruct (object_reassembled k ob Hoi Hc) as (ob' & -> & Hoi' & Hr' & Hp' & Hl').
    assert (inv m base start fs (rc_put ctx ob') log) as Hinv' by by eapply replace_inv.
    assert ((ro_group_id ob', ro_object_id ob') = k) as Hk' by apply Hoi'.
    assert (reassembled_inv m None (rc_put ctx ob')) as Hre'.
    { eapply reassembled_put; [exact Hre | by right | done |]. intros _. by eexists. }
    cbn [Z.eqb negb].
    log_event a'.
    assert ((rc_next_group_id ctx =? k.1) && (rc_next_object_id ctx =? k.2) = false) as ->.
    { apply not_true_iff_false. rewrite andb_true_iff, !Z.eqb_eq. intros [? ?]. apply Hne.
      unfold next_key. destruct k. cbn in *. congruence. }
    cbn [Z.eqb andb]. change (bool_decide (quicrq_reassembly_object_peek = _)) with false.
    match goal with |- context [log ++ [?ev]] => set (e := ev) end.
    eexists _, _, _. split; [done |]. split_and!.
    + apply peek_inv; [done | done | |].
      * unfold event_ok. cbn. rewrite Hr'. destruct k. done.
      * cbn. destruct k. eapply complete_received; [apply Hinv | exact Hob | exact Hc].
    + done.
    + eapply (waiting_put ctx0); [done | done | |].
      * rewrite (rc_put_at _ k) by done. cbn. by rewrite Hobs, insert_insert_eq.
      * intros Haw _. unfold awaited in Haw. rewrite <- Hnk in Haw.
        unfold next_key in Hnk. injection Hnk as Hg Ho. rewrite <- Hg, <- Ho in Haw. tauto.
Qed.

Lemma input_fragment_spec fs ctx0 ctx a log k ob f :
  inv m base start fs ctx0 log -> reassembled_inv m None ctx0 -> waiting m ctx0 ->
  prepared ctx0 k ctx ob -> consistent m f -> f_key f = k -> key_le (next_key ctx0) k ->
  exists ctx' a' log',
    input_fragment (logging ready_fn) ctx ob (f_time f) (f_data f) (f_group f) (f_object f)
      (f_offset f) (f_flags f) (f_nb_previous f) (f_object_length f) (f_data_length f) (a, log)
      = Some (ctx', (a', log'), 0) /\
    inv m base start (fs ++ [f]) ctx' log' /\ reassembled_inv m None ctx' /\ waiting m ctx'.
Proof.
  intros Hinv Hre Hw Hprep Hf Hfk Hle. pose proof Hprep as [Pwf Pn Po Pnext Pob Pold].
  pose proof Hf as [Cg Co Cl Cr Cd Cnb]. rewrite Hfk in *.
  pose proof (content_range m k) as Hcr. pose proof (blen_nonneg (content m k)).
  unfold input_fragment. rewrite (op_length _ _ _ Pob), Cl, (u64_small (_ + _)) by u64_lia.
  rewrite Z.eqb_refl.
  assert ((if blen (content m k) <=? f_offset f + f_data_length f
    then if blen (content m k) =? f_offset f + f_data_length f then 0 else -1 else 0) = 0) as ->.
  { destruct (Z.leb_spec (blen (content m k)) (f_offset f + f_data_length f)); [| done].
    destruct (Z.eqb_spec (blen (content m k)) (f_offset f + f_data_length f)); [done | lia]. }
  cbn [Z.eqb negb]. rewrite <- (op_length _ _ _ Pob).
  destruct (fragment_object k ob f _ ((ro_object_length ob <=? f_offset f + f_data_length f) ||
    ro_is_last_received ob) Pob Hf Hfk eq_refl) as (ob' & -> & Hoi & Hr & Hcov).
  { by rewrite (op_length _ _ _ Pob). }
  cbn [Z.eqb negb].
  pose proof (accept_inv fs ctx0 log k ctx ob f ob' Hinv Hprep Hfk Hoi Hcov) as Hinv'.
  assert ((ro_group_id ob', ro_object_id ob') = k) as Hk' by apply Hoi.
  assert (rc_objects (rc_put ctx ob') = <[k := ob']> (rc_objects ctx0)) as Hobs.
  { rewrite (rc_put_at _ k) by done. cbn. by rewrite Po, insert_insert_eq. }
  assert (next_key (rc_put ctx ob') = next_key ctx0) as Hnk by done.
  assert (reassembled_inv m (Some k) (rc_put ctx ob')) as Hreh.
  { intros k' x. rewrite Hobs, lookup_insert_Some.
    intros [[<- <-] | [_ Hx]] ?; [done | by apply (Hre k' x Hx)]. }
  pose proof (complete_test k ob' Hoi) as Htest.
  destruct (_ && _) eqn:Et.
  - assert (complete (content m k) ob') as Hc by by apply Htest.
    assert (f_group f = k.1 /\ f_object f = k.2) as [-> ->] by by rewrite <- Hfk.
    destruct (ro_reassembled ob') as [r |] eqn:Er.
    2: by eapply submit_spec; eauto; rewrite Hnk.
    (* A fragment of an object that was delivered out of order. *)
    assert (~ awaited ctx0 k) as Haw.
    { intros Haw. symmetry in Hr.
      destruct (op_reass _ _ _ Pob) as [E | [_ Hcob]]; [congruence |].
      destruct (rc_objects ctx0 !! k) as [old |] eqn:Eo; [| by destruct Pold; congruence].
      eapply (waiting_awaited ctx0 k old); try done. intros i Hi.
      destruct Pold as [<- _]. by apply Hcob. }
    pose proof (inv_store _ _ _ _ _ _ Hinv') as Hs.
    destruct (op_ids _ _ _ (oi_pre _ _ _ Hoi)) as (Hid & _ & _).
    unfold submit_complete. pose proof (jump_test None _ k ob' Hs Hid Hoi Hc) as Hjump.
    destruct (_ && _ && _) eqn:Ej.
    { destruct (proj1 Hjump eq_refl) as [-> E]. destruct Haw. right.
      injection Hnk as Eg Eo. cbn in E. by rewrite <- Eg, <- Eo. }
    rewrite Er. eexists _, _, _. split; [done |]. split_and!; [done | |].
    + intros k' x Hx _. destruct (decide (k' = k)) as [-> |].
      * intros _. rewrite Hobs, lookup_insert_eq in Hx. injection Hx as <-. by eexists.
      * apply (Hreh k' x Hx). congruence.
    + by eapply (waiting_put ctx0).
  - assert (~ complete (content m k) ob') as Hc by (intros Hc; by apply Htest in Hc).
    eexists _, _, _. split; [done |]. split_and!; [done | |].
    + intros k' x Hx _ Hcx. destruct (decide (k' = k)) as [-> |].
      * rewrite Hobs, lookup_insert_eq in Hx. by injection Hx as <-.
      * apply (Hreh k' x Hx); [congruence | done].
    + by eapply (waiting_put ctx0).
Qed.

(** A fresh object, and an object found, are [prepared]. *)
Lemma created_prepared ctx0 k f :
  store_inv m None ctx0 -> consistent m f -> f_key f = k -> rc_objects ctx0 !! k = None ->
  let ob := ro_set_props (object_zero (f_group f) (f_object f)) 0 (f_object_length f)
              (f_delay f) (f_flags f) false in
  prepared ctx0 k
    (rc_put (rc_set_objects ctx0 (splay_insert (rc_object_tree ctx0) (f_group f, f_object f))
      (<[(f_group f, f_object f) := object_zero (f_group f) (f_object f)]> (rc_objects ctx0))) ob) ob.
Proof.
  intros Hs [Cg Co Cl Cr Cd Cnb] <- Hnone ob. unfold f_key in *.
  assert (key_ok (f_group f, f_object f)) as Hk
    by (unfold key_ok, is_key, is_id in *; cbn; u64_lia).
  assert (splay_find (rc_object_tree ctx0) (f_group f, f_object f) = None) as Hf.
  { apply (splay_find_None key_ok); [apply Hs | done |]. intros x Hx Hc.
    pose proof (si_wf _ _ _ Hs) as [Hok _].
    apply quicrq_object_node_compare_eq in Hc as <-; [| done | by eapply Forall_forall in Hx].
    apply (si_dom _ _ _ Hs) in Hx as [? ?]. congruence. }
  split; cbn.
  - apply (splay_wf_insert key_ok); [apply Hs | done | done].
  - intros k'. apply (elem_of_splay_insert key_ok); [apply Hs | done | done].
  - by rewrite insert_insert_eq.
  - done.
  - split; cbn; try done; try tauto.
    + split; constructor.
    + intros H. by apply covered_nil in H.
    + intros _ _ H. by apply covered_nil in H.
  - by rewrite Hnone.
Qed.

Lemma found_prepared ctx0 k ob delay :
  store_inv m None ctx0 -> rc_objects ctx0 !! k = Some ob ->
  let ob' := ro_set_props ob (ro_nb_objects_previous_group ob) (ro_object_length ob) delay
               (ro_flags ob) (ro_is_last_received ob) in
  prepared ctx0 k (rc_put ctx0 ob') ob'.
Proof.
  intros Hs Hob ob'. pose proof (si_objects _ _ _ Hs k ob Hob ltac:(done)) as [Hpre _].
  assert ((ro_group_id ob', ro_object_id ob') = k) as Hk by apply Hpre.
  rewrite (rc_put_at _ k) by done. split; cbn.
  - apply Hs.
  - intros k'. split; [by right |]. intros [-> | ?]; [| done]. apply (si_dom _ _ _ Hs). by eexists.
  - done.
  - done.
  - destruct Hpre. by split.
  - by rewrite Hob.
Qed.

Lemma key_le_ltb a b : pair_ltb b.1 b.2 a.1 a.2 = false <-> key_le a b.
Proof. rewrite pair_ltb_false. unfold key_le. lia. Qed.

(** The state between two calls. *)
Record settled (fs : list fragment) ctx (log : list ready_event) : Prop := {
  st_inv : inv m base start fs ctx log;
  st_reassembled : reassembled_inv m None ctx;
  st_waiting : waiting m ctx;
}.

(** Every fragment is accepted and keeps the context settled. *)
Lemma input_f_spec fs ctx a log f :
  settled fs ctx log -> consistent m f ->
  exists ctx' a' log', input_f ready_fn ctx f (a, log) = Some (ctx', (a', log'), 0) /\
    settled (fs ++ [f]) ctx' log'.
Proof.
  intros [Hinv Hre Hw] Hf. pose proof (inv_store _ _ _ _ _ _ Hinv) as Hs.
  pose proof (key_le_ltb (next_key ctx) (f_key f)) as Hlt. unfold input_f, quicrq_reassembly_input.
  unfold next_key, f_key in Hlt. cbn in Hlt. destruct (pair_ltb _ _ _ _).
  { exists ctx, a, log. split; [done |]. split; [| done | done].
    apply late_inv; [done |]. intros Hle. by apply Hlt in Hle. }
  assert (key_le (next_key ctx) (f_key f)) as Hle by by apply Hlt.
  assert (key_ok (f_key f)) as [K1 K2].
  { destruct Hf. unfold key_ok, is_key, is_id, f_key in *. cbn. u64_lia. }
  rewrite (find_lookup m None) by done. fold (f_key f).
  destruct (rc_objects ctx !! f_key f) as [ob |] eqn:Eob.
  - destruct (input_fragment_spec fs ctx _ a log (f_key f) _ f Hinv Hre Hw
      (found_prepared ctx (f_key f) ob (if ro_queue_delay ob <? f_delay f then f_delay f
        else ro_queue_delay ob) Hs Eob) Hf eq_refl Hle) as (ctx' & a' & log' & -> & ? & ? & ?).
    by exists ctx', a', log'.
  - unfold quicrq_reassembly_object_create. rewrite alloc_ok.
    change (ro_nb_objects_previous_group (object_zero _ _)) with 0.
    change (ro_is_last_received (object_zero _ _)) with false.
    destruct (input_fragment_spec fs ctx _ a log (f_key f) _ f Hinv Hre Hw
      (created_prepared ctx (f_key f) f Hs Hf eq_refl Eob) Hf eq_refl Hle)
      as (ctx' & a' & log' & -> & ? & ? & ?).
    by exists ctx', a', log'.
Qed.

Lemma run_spec fs : forall fs0 ctx a log,
  settled fs0 ctx log -> Forall (consistent m) fs ->
  exists ctx' a' log', run ready_fn ctx fs (a, log) = Some (ctx', (a', log')) /\
    settled (fs0 ++ fs) ctx' log'.
Proof.
  induction fs as [| f fs IH]; intros fs0 ctx a log Hst Hfs; cbn.
  - rewrite app_nil_r. eauto 10.
  - apply Forall_cons in Hfs as [Hf Hfs].
    destruct (input_f_spec fs0 ctx a log f Hst Hf) as (ctx1 & a1 & log1 & -> & Hst1).
    destruct (IH _ ctx1 a1 log1 Hst1 Hfs) as (ctx2 & a2 & log2 & -> & Hst2).
    exists ctx2, a2, log2. by rewrite <- (assoc_L (++)) in Hst2.
Qed.

(** What a settled context says of its deliveries: in order, from [start],
    the objects that are received without a gap. *)
Lemma settled_in_order fs ctx log : settled fs ctx log ->
  exists n, in_order log = base ++ map (media_from m start) (seq 0 n) /\
    (forall i, (i < n)%nat -> fully_received m fs (media_from m start i)) /\
    ~ fully_received m fs (media_from m start n).
Proof.
  intros [[Hs Hsrc [He (n & Ho & Hn) Hr]] Hre [W1 W2]]. exists n. split_and!; [done | |].
  - intros i Hi. assert (media_from m start i ∈ in_order log) as Hin.
    { rewrite Ho. apply elem_of_app. right. apply list_elem_of_In, in_map, in_seq. lia. }
    unfold in_order in Hin. apply list_elem_of_In, in_map_iff in Hin as (e & <- & Hin).
    apply filter_In in Hin as [Hin%list_elem_of_In _].
    by eapply Forall_forall in Hin; [| exact Hr].
  - intros Hfull. rewrite <- Hn in Hfull. unfold normal in Hfull.
    pose proof (si_next _ _ _ Hs) as [_ [_ Hcount]].
    destruct (Z.ltb_spec (next_key ctx).2 (count m (next_key ctx).1)) as [Hlt | Hge].
    + destruct (received_complete m fs ctx _ Hsrc Hfull) as (ob & Hob & Hc).
      { unfold key_le. lia. }
      by eapply W1.
    + destruct (received_complete m fs ctx _ Hsrc Hfull) as (ob & Hob & Hc).
      { unfold key_le. cbn. lia. }
      cbn in Hge. eapply W2; [lia | done | done].
Qed.
End operations.
