(* ===== verification/ReassemblySafety.v ===== *)
(** * lib/reassembly.c on arbitrary fragments

    The peer may send fragments that contradict each other.  [synced] is the
    structural invariant that survives them: tree and store agree.  So does any
    property of the application that the callback keeps. *)

From S2P Require Import Prelude Picosplay Media Reassembly ReassemblyProofs ReassemblyDelivery.

Section arbitrary.
Context `{SL : SplayLaws (Z * Z) quicrq_object_node_compare}.
Context {Al : Allocator} {App : Type}.
Context (ready_fn : quicrq_reassembly_context_t -> App -> ready_event -> App * Z).

(** A property of the numbers of objects that fragments announce. *)
Context (count_ok : Z -> Prop) (count_ok_0 : count_ok 0).

Record synced ctx : Prop := {
  sy_wf : splay_wf key_ok (rc_object_tree ctx);
  sy_dom : forall k, k ∈ splay_nodes (rc_object_tree ctx) <-> is_Some (rc_objects ctx !! k);
  sy_keys : forall k ob, rc_objects ctx !! k = Some ob ->
    (ro_group_id ob, ro_object_id ob) = k /\ is_id k.1 /\ is_id k.2;
  sy_counts : forall k ob, rc_objects ctx !! k = Some ob -> count_ok (ro_nb_objects_previous_group ob);
  sy_next : 0 <= rc_next_group_id ctx <= two62 /\ 0 <= rc_next_object_id ctx <= two62;
}.

Lemma synced_find ctx g o : synced ctx -> is_key g -> is_key o ->
  quicrq_object_find ctx g o = rc_objects ctx !! (g, o).
Proof.
  intros [Hwf Hdom _ _ _] Hg Ho. unfold quicrq_object_find.
  assert (key_ok (g, o)) as Hk by done.
  destruct (splay_find (rc_object_tree ctx) (g, o)) as [k |] eqn:E.
  - apply (splay_find_elem key_ok) in E as [Hin Hc]; [| done | done].
    apply quicrq_object_node_compare_eq in Hc as ->; [done | done |].
    destruct Hwf as [Hok _]. by eapply Forall_forall in Hin.
  - destruct (rc_objects ctx !! (g, o)) as [ob |] eqn:El; [| done]. exfalso.
    eapply (splay_find_None key_ok) in E; [| done | done |].
    + apply E. apply (cmp_refl (ok := key_ok)). done.
    + apply Hdom. by eexists.
Qed.

Lemma synced_init : synced quicrq_reassembly_init.
Proof.
  split; cbn.
  - apply (splay_wf_empty key_ok).
  - intros k. rewrite splay_nodes_empty, lookup_empty, elem_of_nil.
    split; [done | by intros [? ?]].
  - intros k ob. by rewrite lookup_empty.
  - intros k ob. by rewrite lookup_empty.
  - u64_lia.
Qed.

Lemma synced_put ctx k ob ob' : synced ctx -> rc_objects ctx !! k = Some ob ->
  (ro_group_id ob', ro_object_id ob') = (ro_group_id ob, ro_object_id ob) ->
  count_ok (ro_nb_objects_previous_group ob') ->
  synced (rc_put ctx ob') /\ rc_objects (rc_put ctx ob') !! k = Some ob'.
Proof.
  intros [Hwf Hdom Hkeys Hnb Hnext] Hob Hk Hid. destruct (Hkeys k ob Hob) as (Hk' & Hi1 & Hi2).
  rewrite Hk' in Hk. rewrite (rc_put_at _ k) by done. split; [| apply lookup_insert_eq].
  split; cbn; try done.
  - intros k'. rewrite Hdom, lookup_insert_is_Some'. split; [by right |].
    intros [<- | ?]; [by eexists | done].
  - intros k' x. rewrite lookup_insert_Some. intros [[<- <-] | [_ Hx]]; auto.
  - intros k' x. rewrite lookup_insert_Some. intros [[<- <-] | [_ Hx]]; eauto.
Qed.

Lemma synced_delete ctx k ob : synced ctx -> rc_objects ctx !! k = Some ob ->
  let ctx' := quicrq_reassembly_object_delete ctx ob in
  synced ctx' /\ (length (splay_nodes (rc_object_tree ctx'))
                  < length (splay_nodes (rc_object_tree ctx)))%nat.
Proof.
  intros [Hwf Hdom Hkeys Hnb Hnext] Hob. destruct (Hkeys k ob Hob) as (E & Hi1 & Hi2).
  assert (k ∈ splay_nodes (rc_object_tree ctx)) as Hin by (apply Hdom; by eexists).
  unfold quicrq_reassembly_object_delete. rewrite E. cbn. split.
  - split; cbn; try done.
    + by apply (splay_wf_delete key_ok).
    + intros k'. rewrite (elem_of_splay_delete key_ok), Hdom, lookup_delete_is_Some by done.
      split; intros [? ?]; split; auto using not_eq_sym.
    + intros k' x [_ Hx]%lookup_delete_Some. auto.
    + intros k' x [_ Hx]%lookup_delete_Some. eauto.
  - rewrite (splay_delete_length (rc_object_tree ctx) k); [lia | | done].
    by apply (splay_wf_nodup key_ok).
Qed.

Lemma synced_next ctx g o : synced ctx -> 0 <= g <= two62 -> 0 <= o <= two62 ->
  synced (rc_set_next ctx g o).
Proof. intros [] ? ?. by split. Qed.

Lemma synced_final ctx g o b : synced ctx -> synced (rc_set_final ctx g o b).
Proof. intros []. by split. Qed.

(** A property of the application that the callback keeps. *)
Definition ready_event_ok (e : ready_event) : Prop := is_id (re_group_id e) /\ is_id (re_object_id e).
Context (P : App -> Prop).
Context (ready_keeps : forall ctx a e, synced ctx -> ready_event_ok e -> P a -> P (ready_fn ctx a e).1).

(** The loop stops within its fuel whatever the callback answers. *)
Lemma synced_update_loop fuel : forall ctx app now,
  synced ctx -> (length (splay_nodes (rc_object_tree ctx)) < fuel)%nat ->
  exists ctx' app' ret,
    update_start_point_loop ready_fn fuel ctx app now = Some (ctx', app', ret) /\ synced ctx' /\
    (P app -> P app').
Proof.
  induction fuel as [| fuel IH]; intros ctx app now Hs Hf; [lia |].
  cbn [update_start_point_loop]. pose proof (sy_next _ Hs) as [[] []].
  rewrite synced_find, (u64_small (rc_next_group_id ctx + 1)), synced_find
    by (done || unfold is_key; u64_lia).
  assert (forall ob ctx1, rc_objects ctx1 !! (rc_next_group_id ctx1, rc_next_object_id ctx1) = Some ob ->
    synced ctx1 -> rc_object_tree ctx1 = rc_object_tree ctx ->
    exists ctx' app' ret,
    match ro_reassembled ob with
    | None => Some (ctx1, app, 0)
    | Some bytes =>
        let '(app, ret) := ready_fn ctx1 app
          {| re_current_time := now; re_group_id := ro_group_id ob;
             re_object_id := ro_object_id ob; re_flags := ro_flags ob; re_data := bytes;
             re_data_length := ro_object_length ob;
             re_mode := quicrq_reassembly_object_repair |} in
        let ctx := quicrq_reassembly_object_delete ctx1 ob in
        let ctx := rc_set_next ctx (rc_next_group_id ctx) (rc_next_object_id ctx +64 1) in
        if ret =? 0 then update_start_point_loop ready_fn fuel ctx app now
        else Some (ctx, app, ret)
    end = Some (ctx', app', ret) /\ synced ctx' /\ (P app -> P app')) as Hstep.
  { intros ob ctx1 Hob Hs1 Htree. destruct (ro_reassembled ob); [| eauto 8].
    pose proof (sy_keys _ Hs1 _ _ Hob) as ([= Eg Eo] & Hid1 & Hid2). cbn in Hid1, Hid2.
    rewrite <- Eg in Hid1. rewrite <- Eo in Hid2.
    match goal with |- context [ready_fn ?c ?a ?e] =>
      assert (ready_event_ok e) as He by (by split);
      pose proof (ready_keeps c a e Hs1 He) as Hp;
      destruct (ready_fn c a e) as [app1 ret] end. cbn [fst] in Hp.
    destruct (synced_delete ctx1 _ ob Hs1 Hob) as [Hs2 Hlen].
    destruct (sy_keys _ Hs1 _ _ Hob) as (_ & Hi1 & Hi2). cbn in Hi1, Hi2.
    pose proof (sy_next _ Hs1) as [? _].
    cbn zeta. set (ctx2 := rc_set_next _ _ _).
    assert (synced ctx2) as Hs3.
    { apply synced_next; [done | cbn; lia |]. cbn.
      rewrite u64_small; unfold is_id in *; u64_lia. }
    destruct (ret =? 0); [| eauto 8].
    destruct (IH ctx2 app1 now Hs3) as (c3 & a3 & r3 & ? & ? & ?); [| by exists c3, a3, r3; auto].
    subst ctx2. unfold rc_set_next. cbn [rc_object_tree]. rewrite Htree in Hlen. lia. }
  destruct (rc_objects ctx !! (rc_next_group_id ctx, rc_next_object_id ctx)) as [ob |] eqn:Eob.
  { by apply Hstep. }
  destruct (rc_objects ctx !! (rc_next_group_id ctx + 1, 0)) as [ob |] eqn:Eob1; [| eauto 8].
  destruct (_ && _); [| eauto 8]. apply Hstep; [done | | done].
  destruct (sy_keys _ Hs _ _ Eob1) as (_ & Hi1 & _). cbn in Hi1. unfold is_id in Hi1.
  apply synced_next; [done | lia | u64_lia].
Qed.

Lemma synced_update ctx app now : synced ctx ->
  exists ctx' app' ret,
    quicrq_reassembly_update_start_point ready_fn ctx now app = Some (ctx', app', ret) /\
    synced ctx' /\ (P app -> P app').
Proof.
  intros Hs. unfold quicrq_reassembly_update_start_point.
  destruct (synced_update_loop (update_fuel ctx) ctx app now Hs) as (ctx' & app' & ret & -> & Hs' & Hp);
    [unfold update_fuel; lia |].
  eexists _, _, _. split; [done |]. split; [| exact Hp].
  destruct (_ && _); [by apply synced_final | done].
Qed.

(** The functions on one object keep its identity. *)
Definition same_key (ob ob' : quicrq_reassembly_object_t) : Prop :=
  (ro_group_id ob', ro_object_id ob') = (ro_group_id ob, ro_object_id ob) /\
  ro_nb_objects_previous_group ob' = ro_nb_objects_previous_group ob.

Lemma create_packet_key ob b a now d o n p ob' :
  quicrq_reassembly_object_create_packet ob b a now d o n = Some (p, ob') -> same_key ob ob'.
Proof.
  unfold quicrq_reassembly_object_create_packet. destruct (_ && _); [| done].
  by intros [= <- <-].
Qed.

Lemma add_packet_key after : forall ob before now data o n,
  same_key ob (add_packet_loop ob before after now data o n).1.
Proof.
  induction after as [| p after IH]; intros ob before now data o n; cbn [add_packet_loop].
  - destruct (0 <? n); [| done].
    destruct (quicrq_reassembly_object_create_packet _ _ _ _ _ _ _) as [[? ?] |] eqn:E; [| done].
    by eapply create_packet_key.
  - assert (match fill_hole ob before p after now data o n with
            | inl (ob', _) | inr (ob', _, _, _, _) => same_key ob ob' end) as Hf.
    { unfold fill_hole. repeat (dmatch; try done); by eapply create_packet_key. }
    destruct (fill_hole _ _ _ _ _ _ _ _) as [[ob' ?] | [[[[ob' b'] d'] o'] n']]; [done |].
    repeat (dmatch; try done); match goal with |- same_key ob (add_packet_loop ?x ?b after ?n ?d ?o ?l).1 =>
      destruct (IH x b n d o l), Hf; split; congruence end.
Qed.

Lemma reassemble_key ob : same_key ob (quicrq_reassembly_object_reassemble ob).1.
Proof. unfold quicrq_reassembly_object_reassemble. repeat (dmatch; try done). Qed.

(** A write of an object that keeps its identity. *)
Lemma synced_same ctx k ob ob' : synced ctx -> rc_objects ctx !! k = Some ob -> same_key ob ob' ->
  synced (rc_put ctx ob') /\ rc_objects (rc_put ctx ob') !! k = Some ob'.
Proof.
  intros Hs Hob [Hk Hn]. apply (synced_put ctx k ob); [done | done | done |].
  rewrite Hn. by eapply sy_counts.
Qed.

Lemma synced_submit ctx k ob now fl app :
  synced ctx -> rc_objects ctx !! k = Some ob ->
  exists ctx' app' ret,
    submit_complete ready_fn ctx ob now k.1 k.2 fl app = Some (ctx', app', ret) /\ synced ctx' /\
    (P app -> P app').
Proof.
  intros Hs Hob. unfold submit_complete.
  set (ctx1 := if _ && _ && _ then _ else ctx).
  assert (synced ctx1 /\ rc_objects ctx1 = rc_objects ctx) as [Hs1 Hobs].
  { subst ctx1. destruct (_ && _ && _) eqn:E; [| done]. split; [| done].
    pose proof (sy_next _ Hs) as [[] []]. b2p. destruct (sy_keys _ Hs _ _ Hob) as (_ & Hid & _).
    apply synced_next; [done | | u64_lia]. unfold is_id in Hid. lia. }
  rewrite <- Hobs in Hob. clearbody ctx1.
  destruct (ro_reassembled ob); [eauto 8 |].
  pose proof (reassemble_key ob) as Hkey.
  destruct (quicrq_reassembly_object_reassemble ob) as [ob' ret]. cbn in Hkey.
  destruct (synced_same ctx1 k ob ob' Hs1 Hob Hkey) as [Hs2 Hob2].
  destruct (negb (ret =? 0)); [eauto 8 |].
  destruct (sy_keys _ Hs1 _ _ Hob) as (_ & Hid1 & Hid2).
  match goal with |- context [ready_fn ?c ?a ?e] =>
    assert (ready_event_ok e) as He by (by split);
    pose proof (ready_keeps c a e Hs2 He) as Hp; destruct (ready_fn c a e) as [app1 ret1] end.
  cbn [fst] in Hp.
  destruct ((ret1 =? 0) && bool_decide _) eqn:Emode; [| eauto 8].
  apply andb_prop in Emode as [_ Emode].
  destruct (synced_delete _ _ _ Hs2 Hob2) as [Hs3 _].
  match goal with |- context [quicrq_reassembly_update_start_point ready_fn ?c app1 now] => idtac
  | |- context [quicrq_reassembly_update_start_point ready_fn ?c now app1] =>
    destruct (synced_update c app1 now) as (c3 & a3 & r3 & -> & Hs4 & Hp3) end.
  - apply synced_next; [done | |].
    + apply (sy_next _ Hs2).
    + destruct ((rc_next_group_id ctx1 =? k.1) && (rc_next_object_id ctx1 =? k.2)) eqn:E;
        [| by apply bool_decide_eq_true in Emode].
      b2p. unfold is_id in Hid2. cbn. rewrite u64_small; u64_lia.
  - exists c3, a3, r3. auto.
Qed.

Lemma synced_input_fragment ctx k ob now data offset fl nb len dlen app :
  synced ctx -> rc_objects ctx !! k = Some ob -> count_ok nb ->
  exists ctx' app' ret,
    input_fragment ready_fn ctx ob now data k.1 k.2 offset fl nb len dlen app
      = Some (ctx', app', ret) /\ synced ctx' /\ (P app -> P app').
Proof.
  intros Hs Hob Hnb. unfold input_fragment.
  match goal with |- context [quicrq_reassembly_object_add_packet ?x] => set (ob1 := x) end.
  destruct (synced_put ctx k ob ob1 Hs Hob eq_refl) as [Hs1 Hob1].
  { subst ob1. cbn. destruct (_ && _); [done | by eapply sy_counts]. }
  destruct (negb _); [eauto 8 |].
  pose proof (add_packet_key (ro_packets ob1) ob1 [] now data offset dlen) as Hk2.
  unfold quicrq_reassembly_object_add_packet. destruct (add_packet_loop _ _ _ _ _ _ _) as [ob2 ret].
  cbn [fst] in Hk2.
  destruct (synced_put ctx k ob ob2 Hs Hob) as [Hs2 Hob2].
  { by destruct Hk2 as [-> _]. }
  { destruct Hk2 as [_ ->]. eapply sy_counts, Hob1. done. }
  destruct (negb _); [eauto 8 |]. destruct (ro_is_last_received ob2 && _); [| eauto 8].
  by apply synced_submit.
Qed.

Lemma synced_input ctx now data g o offset delay fl nb len dlen app :
  malloc_ok sizeof_reassembly_object = true -> synced ctx -> is_id g -> is_id o -> count_ok nb ->
  exists ctx' app' ret,
    quicrq_reassembly_input ready_fn ctx now data g o offset delay fl nb len dlen app
      = Some (ctx', app', ret) /\ synced ctx' /\ (P app -> P app').
Proof.
  intros Hal Hs Hg Ho Hnb. unfold quicrq_reassembly_input. destruct (pair_ltb _ _ _ _); [eauto 8 |].
  assert (key_ok (g, o)) as [K1 K2] by (unfold key_ok, is_key, is_id in *; cbn; u64_lia).
  rewrite synced_find by done. destruct (rc_objects ctx !! (g, o)) as [ob |] eqn:Eob.
  - match goal with |- context [rc_put ctx ?x] =>
      destruct (synced_same ctx (g, o) ob x Hs Eob ltac:(done)) as [Hs1 Hob1] end.
    by apply (synced_input_fragment _ (g, o)).
  - unfold quicrq_reassembly_object_create. rewrite Hal.
    set (ctx1 := rc_set_objects ctx _ _).
    assert (splay_find (rc_object_tree ctx) (g, o) = None) as Hf.
    { apply (splay_find_None key_ok); [apply Hs | done |]. intros x Hx Hc.
      pose proof (sy_wf _ Hs) as [Hok _].
      apply quicrq_object_node_compare_eq in Hc as <-; [| done | by eapply Forall_forall in Hx].
      apply (sy_dom _ Hs) in Hx as [? ?]. congruence. }
    assert (synced ctx1) as Hs1.
    { destruct Hs as [Hwf Hdom Hkeys Hcounts Hnext]. split; cbn.
      - by apply (splay_wf_insert key_ok).
      - intros k. rewrite (elem_of_splay_insert key_ok), Hdom, lookup_insert_is_Some' by done.
        split; intros [? | ?]; auto.
      - intros k x. rewrite lookup_insert_Some. intros [[<- <-] | [_ Hx]]; auto.
      - intros k x. rewrite lookup_insert_Some. intros [[_ <-] | [_ Hx]]; [done | eauto].
      - done. }
    match goal with |- context [rc_put ctx1 ?x] =>
      destruct (synced_same ctx1 (g, o) (object_zero g o) x Hs1) as [Hs2 Hob2] end; [| done |].
    { subst ctx1. cbn. by rewrite lookup_insert_eq. }
    by apply (synced_input_fragment _ (g, o)).
Qed.

Lemma synced_learn_start ctx g o now app : synced ctx -> is_id g -> is_id o ->
  exists ctx' app' ret,
    quicrq_reassembly_learn_start_point ready_fn ctx g o now app = Some (ctx', app', ret) /\
    synced ctx' /\ (P app -> P app').
Proof.
  intros Hs Hg Ho. unfold quicrq_reassembly_learn_start_point. destruct (pair_leb _ _ _ _); [eauto 8 |].
  apply synced_update. unfold is_id in *. apply synced_next; [done | lia | lia].
Qed.
Lemma synced_learn_final ctx g o :
  synced ctx -> synced (quicrq_reassembly_learn_final_object_id ctx g o).1.
Proof.
  intros Hs. unfold quicrq_reassembly_learn_final_object_id.
  repeat (dmatch; cbn [fst]); repeat apply synced_final; done.
Qed.
End arbitrary.

(** ** Forgetting the record of the calls *)

Section forget.
Context `{Sp : Splay (Z * Z) quicrq_object_node_compare} {Al : Allocator} {A : Type}.
Context (ready_fn : quicrq_reassembly_context_t -> A -> ready_event -> A * Z).

Definition forget (r : option (quicrq_reassembly_context_t * (A * list ready_event) * Z))
  : option (quicrq_reassembly_context_t * A * Z) :=
  '(ctx, app, ret) ← r; Some (ctx, app.1, ret).

Lemma forget_loop fuel : forall ctx app now,
  update_start_point_loop ready_fn fuel ctx app.1 now
    = forget (update_start_point_loop (logging ready_fn) fuel ctx app now).
Proof.
  induction fuel as [| fuel IH]; intros ctx app now; cbn [update_start_point_loop]; [done |].
  match goal with |- match ?x with _ => _ end = _ => destruct x as [[ob ctx1] |] end; [| done].
  destruct (ro_reassembled ob); [| done]. unfold logging at 1.
  destruct (ready_fn _ _ _) as [a ret]. cbn [fst snd].
  destruct (ret =? 0); [by rewrite <- IH | done].
Qed.

Lemma forget_update ctx app now :
  quicrq_reassembly_update_start_point ready_fn ctx now app.1
    = forget (quicrq_reassembly_update_start_point (logging ready_fn) ctx now app).
Proof.
  unfold quicrq_reassembly_update_start_point. rewrite forget_loop.
  by destruct (update_start_point_loop (logging ready_fn) _ _ _ _) as [[[? ?] ?] |].
Qed.

Lemma forget_submit ctx ob now g o fl app :
  submit_complete ready_fn ctx ob now g o fl app.1
    = forget (submit_complete (logging ready_fn) ctx ob now g o fl app).
Proof.
  unfold submit_complete. destruct (ro_reassembled ob); [done |].
  destruct (quicrq_reassembly_object_reassemble ob) as [ob' ret].
  destruct (negb (ret =? 0)); [done |]. unfold logging at 1.
  destruct (ready_fn _ _ _) as [a ret']. cbn [fst snd].
  destruct (_ && _); [| done]. by rewrite <- forget_update.
Qed.

Lemma forget_input_fragment ctx ob now d g o off fl nb len n app :
  input_fragment ready_fn ctx ob now d g o off fl nb len n app.1
    = forget (input_fragment (logging ready_fn) ctx ob now d g o off fl nb len n app).
Proof.
  unfold input_fragment. destruct (negb _); [done |].
  destruct (quicrq_reassembly_object_add_packet _ _ _ _ _) as [ob' ret].
  destruct (negb _); [done |]. destruct (_ && _); [| done]. apply forget_submit.
Qed.

Lemma forget_input ctx now d g o off delay fl nb len n app :
  quicrq_reassembly_input ready_fn ctx now d g o off delay fl nb len n app.1
    = forget (quicrq_reassembly_input (logging ready_fn) ctx now d g o off delay fl nb len n app).
Proof.
  unfold quicrq_reassembly_input. destruct (pair_ltb _ _ _ _); [done |].
  destruct (quicrq_object_find ctx g o) as [ob |]; [apply forget_input_fragment |].
  destruct (quicrq_reassembly_object_create ctx g o) as [[ob ctx1] |]; [| done].
  apply forget_input_fragment.
Qed.
End forget.

(** ** Fragments do not change the final point *)

Section final_point.
Context `{Sp : Splay (Z * Z) quicrq_object_node_compare} {Al : Allocator} {A : Type}.
Context (ready_fn : quicrq_reassembly_context_t -> A -> ready_event -> A * Z).

Definition final_of ctx : Z * Z := (rc_final_group_id ctx, rc_final_object_id ctx).

Lemma final_loop fuel : forall ctx app now ctx' app' ret,
  update_start_point_loop ready_fn fuel ctx app now = Some (ctx', app', ret) ->
  final_of ctx' = final_of ctx.
Proof.
  induction fuel as [| fuel IH]; intros ctx app now ctx' app' ret; cbn [update_start_point_loop]; [done |].
  assert (forall ob ctx1, final_of ctx1 = final_of ctx ->
    match ro_reassembled ob with
    | None => Some (ctx1, app, 0)
    | Some bytes =>
        let '(app, ret) := ready_fn ctx1 app
          {| re_current_time := now; re_group_id := ro_group_id ob;
             re_object_id := ro_object_id ob; re_flags := ro_flags ob; re_data := bytes;
             re_data_length := ro_object_length ob;
             re_mode := quicrq_reassembly_object_repair |} in
        let ctx := quicrq_reassembly_object_delete ctx1 ob in
        let ctx := rc_set_next ctx (rc_next_group_id ctx) (rc_next_object_id ctx +64 1) in
        if ret =? 0 then update_start_point_loop ready_fn fuel ctx app now
        else Some (ctx, app, ret)
    end = Some (ctx', app', ret) -> final_of ctx' = final_of ctx) as Hstep.
  { intros ob ctx1 E1. destruct (ro_reassembled ob); [| by intros [= <- <- <-]].
    destruct (ready_fn _ _ _) as [a r]. cbn zeta. destruct (r =? 0).
    - intros E. rewrite <- E1. by apply IH in E.
    - by intros [= <- <- <-]. }
  destruct (quicrq_object_find ctx _ _); [by apply Hstep |].
  destruct (quicrq_object_find ctx _ 0); [| by intros [= <- <- <-]].
  destruct (_ && _); [by apply Hstep | by intros [= <- <- <-]].
Qed.

Lemma final_update ctx app now ctx' app' ret :
  quicrq_reassembly_update_start_point ready_fn ctx now app = Some (ctx', app', ret) ->
  final_of ctx' = final_of ctx.
Proof.
  unfold quicrq_reassembly_update_start_point.
  destruct (update_start_point_loop _ _ _ _ _) as [[[c a] r] |] eqn:E; [| done].
  apply final_loop in E. destruct (_ && _); by intros [= <- <- <-].
Qed.

Lemma final_input_fragment ctx ob now d g o off fl nb len n app ctx' app' ret :
  input_fragment ready_fn ctx ob now d g o off fl nb len n app = Some (ctx', app', ret) ->
  final_of ctx' = final_of ctx.
Proof.
  unfold input_fragment, submit_complete. destruct (negb _); [by intros [= <- <- <-] |].
  destruct (quicrq_reassembly_object_add_packet _ _ _ _ _) as [ob1 ret1].
  destruct (negb _); [by intros [= <- <- <-] |]. destruct (_ && _); [| by intros [= <- <- <-]].
  set (ctx1 := if _ && _ && _ then _ else rc_put ctx ob1).
  assert (final_of ctx1 = final_of ctx) as E1 by (subst ctx1; by destruct (_ && _ && _)).
  clearbody ctx1. destruct (ro_reassembled ob1); [by intros [= <- <- <-] |].
  destruct (quicrq_reassembly_object_reassemble ob1) as [ob2 ret2].
  destruct (negb _); [by intros [= <- <- <-] |]. destruct (ready_fn _ _ _) as [a r].
  destruct ((r =? 0) && _); [| by intros [= <- <- <-]]. intros E. apply final_update in E.
  by rewrite E.
Qed.

Lemma final_input ctx now d g o off delay fl nb len n app ctx' app' ret :
  quicrq_reassembly_input ready_fn ctx now d g o off delay fl nb len n app = Some (ctx', app', ret) ->
  final_of ctx' = final_of ctx.
Proof.
  unfold quicrq_reassembly_input. destruct (pair_ltb _ _ _ _); [by intros [= <- <- <-] |].
  destruct (quicrq_object_find ctx g o) as [ob |].
  - intros E. by apply final_input_fragment in E.
  - unfold quicrq_reassembly_object_create. destruct (malloc_ok _); [| done].
    intros E. by apply final_input_fragment in E.
Qed.
End final_point.
