(* ===== verification/ReassemblyTheorems.v ===== *)
(** * What lib/reassembly.c guarantees

    The properties of the reassembly component: packets and objects, the
    deliveries of a history of fragments, start and final points, and
    safety of the structures for fragments that no well behaved peer sends. *)

From S2P Require Import Prelude Picosplay Media Reassembly ReassemblyProofs ReassemblyDelivery.
From S2P Require Import ReassemblySafety.

(** ** A concrete instance for the witnesses *)

Module Demo.
#[export] Instance malloc_always : Allocator := fun _ => true.
Definition no_malloc : Allocator := fun _ => false.

(** Groups of two objects of three bytes. *)
Program Definition demo_media : media :=
  {| content := fun k => [k.1; k.2; 7]; count := fun _ => 2 |}.
Solve Obligations with (intros; cbv; split; congruence) || (intros; done).

Definition demo_fragment (g o offset len : Z) : fragment := {|
  f_time := 0; f_data := slice [g; o; 7] offset len; f_group := g; f_object := o;
  f_offset := offset; f_delay := 0; f_flags := 0; f_nb_previous := 2;
  f_object_length := 3; f_data_length := len |}.

(** Out of order, with an overlap and a repetition. *)
Definition demo_history : list fragment :=
  [demo_fragment 0 1 0 3; demo_fragment 0 0 1 2; demo_fragment 1 0 0 3; demo_fragment 0 0 0 2;
   demo_fragment 0 0 0 3; demo_fragment 1 1 2 1].

Lemma demo_consistent g o offset len :
  0 <= g < 100 -> 0 <= o < 2 -> 0 <= offset -> 0 <= len -> offset + len <= 3 ->
  consistent demo_media (demo_fragment g o offset len).
Proof. intros. split; cbn; unfold is_id, two62, blen; cbn; try lia; done. Qed.

Lemma demo_history_ok : Forall (consistent demo_media) demo_history.
Proof. repeat constructor; apply demo_consistent; lia. Qed.

Definition demo_ready : quicrq_reassembly_context_t -> unit -> ready_event -> unit * Z :=
  fun _ a _ => (a, 0).
End Demo.
Import Demo.

(** ** Histories of consistent fragments *)

Section theorems.
Context `{SL : SplayLaws (Z * Z) quicrq_object_node_compare}.
Context {Al : Allocator} {A : Type}.
Context (ready_fn : quicrq_reassembly_context_t -> A -> ready_event -> A * Z).
Context (m : media).

Lemma init_settled start :
  is_id start.1 -> 0 <= start.2 < count m start.1 ->
  settled m [] start [] (rc_set_next quicrq_reassembly_init start.1 start.2) [].
Proof.
  intros Hg Ho. split.
  - split.
    + split; cbn.
      * apply (splay_wf_empty key_ok).
      * intros k. rewrite splay_nodes_empty, lookup_empty, elem_of_nil.
        split; [done | by intros [? ?]].
      * intros k. rewrite lookup_empty. by intros [? ?].
      * intros k ob. by rewrite lookup_empty.
      * unfold is_id in Hg. lia.
    + split; cbn; [intros k ob; by rewrite lookup_empty |].
      intros f Hf. by apply not_elem_of_nil in Hf.
    + split; [done | | done]. exists O. split; [done |]. cbn. unfold normal, next_key. cbn.
      destruct (Z.ltb_spec start.2 (count m start.1)); [by destruct start | lia].
  - intros k ob. cbn. by rewrite lookup_empty.
  - split; intros; cbn in *; by rewrite lookup_empty in *.
Qed.

Lemma init_settled_0 : settled m [] (0, 0) [] quicrq_reassembly_init [].
Proof.
  apply (init_settled (0, 0)); cbn; [unfold is_id, two62; lia |].
  pose proof (count_range m 0). lia.
Qed.

(** Learning a start point beyond the delivery pointer. *)
Lemma learn_start_spec base start fs ctx a log g o now :
  (forall n, malloc_ok n = true) -> (forall ctx a e, (ready_fn ctx a e).2 = 0) ->
  settled m base start fs ctx log -> is_id g -> 0 <= o < count m g ->
  pair_leb g o (rc_next_group_id ctx) (rc_next_object_id ctx) = false ->
  exists ctx' a' log',
    quicrq_reassembly_learn_start_point (logging ready_fn) ctx g o now (a, log)
      = Some (ctx', (a', log'), 0) /\
    settled m (in_order log) (g, o) fs ctx' log'.
Proof.
  intros Hal Hready [[Hs [Hfrom Hkept] [He Ho Hr]] Hre Hw] Hg Hcount Hlt.
  unfold quicrq_reassembly_learn_start_point. rewrite Hlt.
  apply not_true_iff_false in Hlt. rewrite pair_leb_spec in Hlt.
  destruct (update_start_point_spec m (in_order log) (g, o) ready_fn Hready fs
    (rc_set_next ctx g o) a log now) as (ctx' & a' & log' & -> & ? & ? & ?).
  - split.
    + destruct Hs as [Hwf Hdom Hkey Hobj _]. split; cbn; try done. unfold is_id in Hg. lia.
    + split; cbn; [done |]. intros f Hf Hle. apply Hkept; [done |].
      unfold key_le, next_key in *. cbn in *. lia.
    + split; try done. exists O. cbn. rewrite app_nil_r. split; [done |].
      unfold normal, next_key. cbn. destruct (Z.ltb_spec o (count m g)); [done | lia].
  - done.
  - exists ctx', a', log'. split; [done |]. by split.
Qed.
End theorems.

(** C11: For fragments of a media received in any order, with repetitions and
    overlaps, every call of the application's callback carries exactly the
    bytes and the length of the object it names, and the objects delivered in
    order (not the peeks) are the objects of the media from the first one, up
    to and excluding the first that is not fully received: no gap, no
    repetition, no object withheld. *)
Theorem reassembly_delivers `{SL : SplayLaws (Z * Z) quicrq_object_node_compare}
    {Al : Allocator} {A : Type}
    (ready_fn : quicrq_reassembly_context_t -> A -> ready_event -> A * Z) (m : media)
    (fs : list fragment) (a : A) :
  (forall n, malloc_ok n = true) -> (forall ctx a e, (ready_fn ctx a e).2 = 0) ->
  Forall (consistent m) fs ->
  exists ctx a' log, run ready_fn quicrq_reassembly_init fs (a, []) = Some (ctx, (a', log)) /\
    Forall (fun e => re_data e = content m (re_group_id e, re_object_id e) /\
                     re_data_length e = blen (content m (re_group_id e, re_object_id e))) log /\
    exists n, in_order log = map (media_from m (0, 0)) (seq 0 n) /\
      (forall i, (i < n)%nat -> fully_received m fs (media_from m (0, 0) i)) /\
      ~ fully_received m fs (media_from m (0, 0) n).
Proof.
  intros Hal Hready Hfs.
  destruct (run_spec m [] (0, 0) Hal ready_fn Hready fs [] _ a [] (init_settled_0 m) Hfs)
    as (ctx & a' & log & -> & Hst).
  exists ctx, a', log. split; [done |]. split; [apply Hst |].
  apply (settled_in_order m [] (0, 0) fs ctx log Hst).
Qed.
Lemma reassembly_delivers_witness :
  (exists ctx a' log, run demo_ready quicrq_reassembly_init demo_history (tt, [])
     = Some (ctx, (a', log)) /\
   Forall (fun e => re_data e = content demo_media (re_group_id e, re_object_id e) /\
     re_data_length e = blen (content demo_media (re_group_id e, re_object_id e))) log /\
   exists n, in_order log = map (media_from demo_media (0, 0)) (seq 0 n) /\
     (forall i, (i < n)%nat -> fully_received demo_media demo_history
                                 (media_from demo_media (0, 0) i)) /\
     ~ fully_received demo_media demo_history (media_from demo_media (0, 0) n)) /\
  match run demo_ready quicrq_reassembly_init demo_history (tt, []) with
  | Some (_, (_, log)) => map (fun e => (re_group_id e, re_object_id e, re_mode e)) log =
      [(0, 1, quicrq_reassembly_object_peek); (1, 0, quicrq_reassembly_object_peek);
       (0, 0, quicrq_reassembly_object_in_sequence); (0, 1, quicrq_reassembly_object_repair);
       (1, 0, quicrq_reassembly_object_repair)]
  | None => False
  end.
Proof.
  split; [| by vm_compute].
  apply (reassembly_delivers demo_ready demo_media demo_history tt); [done | done |].
  apply demo_history_ok.
Defined.

(** C30: When a start point beyond the delivery pointer is learned in the middle
    of a history, the deliveries in order made so far are followed by the
    objects of the media from the start point, up to and excluding the first
    that is not fully received, whatever was received before or after the
    start point was known. *)
Theorem reassembly_start_point `{SL : SplayLaws (Z * Z) quicrq_object_node_compare}
    {Al : Allocator} {A : Type}
    (ready_fn : quicrq_reassembly_context_t -> A -> ready_event -> A * Z) (m : media)
    (fs1 fs2 : list fragment) (a : A) (g o now : Z) :
  (forall n, malloc_ok n = true) -> (forall ctx a e, (ready_fn ctx a e).2 = 0) ->
  Forall (consistent m) (fs1 ++ fs2) -> is_id g -> 0 <= o < count m g ->
  exists ctx1 a1 log1,
    run ready_fn quicrq_reassembly_init fs1 (a, []) = Some (ctx1, (a1, log1)) /\
    (pair_leb g o (rc_next_group_id ctx1) (rc_next_object_id ctx1) = false ->
     exists ctx2 a2 log2 ctx3 a3 log3,
       quicrq_reassembly_learn_start_point (logging ready_fn) ctx1 g o now (a1, log1)
         = Some (ctx2, (a2, log2), 0) /\
       run ready_fn ctx2 fs2 (a2, log2) = Some (ctx3, (a3, log3)) /\
       exists n, in_order log3 = in_order log1 ++ map (media_from m (g, o)) (seq 0 n) /\
         (forall i, (i < n)%nat -> fully_received m (fs1 ++ fs2) (media_from m (g, o) i)) /\
         ~ fully_received m (fs1 ++ fs2) (media_from m (g, o) n)).
Proof.
  intros Hal Hready [Hfs1 Hfs2]%Forall_app Hg Ho.
  destruct (run_spec m [] (0, 0) Hal ready_fn Hready fs1 [] _ a [] (init_settled_0 m) Hfs1)
    as (ctx1 & a1 & log1 & -> & Hst1).
  exists ctx1, a1, log1. split; [done |]. intros Hle.
  destruct (learn_start_spec ready_fn m [] (0, 0) fs1 ctx1 a1 log1 g o now Hal Hready Hst1 Hg Ho Hle)
    as (ctx2 & a2 & log2 & -> & Hst2).
  destruct (run_spec m _ _ Hal ready_fn Hready fs2 fs1 _ a2 log2 Hst2 Hfs2)
    as (ctx3 & a3 & log3 & Hrun & Hst3).
  exists ctx2, a2, log2, ctx3, a3, log3. split_and!; [done | done |].
  apply (settled_in_order m _ _ _ _ _ Hst3).
Qed.
Lemma reassembly_start_point_witness :
  exists ctx1 a1 log1,
    run demo_ready quicrq_reassembly_init [demo_fragment 2 1 0 3] (tt, [])
      = Some (ctx1, (a1, log1)) /\
    (pair_leb 2 0 (rc_next_group_id ctx1) (rc_next_object_id ctx1) = false ->
     exists ctx2 a2 log2 ctx3 a3 log3,
       quicrq_reassembly_learn_start_point (logging demo_ready) ctx1 2 0 5 (a1, log1)
         = Some (ctx2, (a2, log2), 0) /\
       run demo_ready ctx2 [demo_fragment 2 0 0 3] (a2, log2) = Some (ctx3, (a3, log3)) /\
       exists n, in_order log3 = in_order log1 ++ map (media_from demo_media (2, 0)) (seq 0 n) /\
         (forall i, (i < n)%nat -> fully_received demo_media
            ([demo_fragment 2 1 0 3] ++ [demo_fragment 2 0 0 3]) (media_from demo_media (2, 0) i)) /\
         ~ fully_received demo_media ([demo_fragment 2 1 0 3] ++ [demo_fragment 2 0 0 3])
             (media_from demo_media (2, 0) n)).
Proof.
  apply (reassembly_start_point demo_ready demo_media [demo_fragment 2 1 0 3]
    [demo_fragment 2 0 0 3] tt 2 0 5); [done | done | | done | done].
  repeat constructor; apply demo_consistent; lia.
Defined.

(** C31: Adding a fragment to an object whose packets are sorted, disjoint and
    carry bytes of the content [c] keeps them so, never fails, counts every
    byte once, and makes available exactly the bytes that were available or
    are in the fragment, whatever the overlap. *)
Theorem add_packet_correct {Al : Allocator} (c : list Z) (ob : quicrq_reassembly_object_t)
    (now offset n : Z) :
  (forall n, malloc_ok n = true) -> blen c < two62 ->
  packets_ok c (ro_packets ob) -> ro_data_received ob = total (ro_packets ob) ->
  0 <= offset -> 0 <= n -> offset + n <= blen c ->
  exists ob', quicrq_reassembly_object_add_packet ob now (slice c offset n) offset n = (ob', 0) /\
    packets_ok c (ro_packets ob') /\ ro_data_received ob' = total (ro_packets ob') /\
    (forall i, covered (ro_packets ob') i <->
       covered (ro_packets ob) i \/ offset <= i < offset + n) /\
    ro_reassembled ob' = ro_reassembled ob /\ ro_object_length ob' = ro_object_length ob.
Proof.
  intros Hal Hc Hok Ht Ho Hn Hr.
  destruct (add_packet_loop_spec Hal c Hc (ro_packets ob) ob [] now (slice c offset n) offset n)
    as (ob' & E & [(ps & r & t & Eob) Aok Atot Acov]).
  { split; try done; cbn; try tauto. }
  exists ob'. split; [exact E |]. split_and!; try done; by rewrite Eob.
Qed.
Lemma add_packet_correct_witness :
  let c := [1; 2; 3; 4; 5; 6; 7; 8] in
  let ob0 := (quicrq_reassembly_object_add_packet (object_zero 0 0) 0 (slice c 3 2) 3 2).1 in
  exists ob', quicrq_reassembly_object_add_packet ob0 9 (slice c 1 6) 1 6 = (ob', 0) /\
    packets_ok c (ro_packets ob') /\ ro_data_received ob' = total (ro_packets ob') /\
    (forall i, covered (ro_packets ob') i <-> covered (ro_packets ob0) i \/ 1 <= i < 1 + 6) /\
    ro_reassembled ob' = ro_reassembled ob0 /\ ro_object_length ob' = ro_object_length ob0.
Proof.
  intros c ob0. apply (add_packet_correct c ob0 9 1 6); try done.
  subst ob0 c. unfold packets_ok. cbn. split.
  - constructor; [| done]. unfold packet_ok, pk_end, blen. cbn. repeat split; lia.
  - repeat constructor.
Defined.

(** C32: Reassembly of an object succeeds exactly when all its bytes have been
    received, and then gives back its content; otherwise it fails and leaves
    the object as it was. *)
Theorem reassemble_iff_complete {Al : Allocator} (c : list Z) (ob : quicrq_reassembly_object_t) :
  (forall n, malloc_ok n = true) -> blen c < two62 ->
  packets_ok c (ro_packets ob) -> ro_data_received ob = total (ro_packets ob) ->
  ro_object_length ob = blen c -> ro_is_last_received ob = true ->
  (complete c ob /\
   quicrq_reassembly_object_reassemble ob = (ro_set_reassembled ob (Some c), 0)) \/
  (~ complete c ob /\ quicrq_reassembly_object_reassemble ob = (ob, -1)).
Proof.
  intros Hal Hc Hok Ht Hl Hlast.
  destruct (Z.eq_dec (total (ro_packets ob)) (blen c)) as [E | E];
    rewrite <- complete_total in E by done.
  - left. split; [done |]. by apply reassemble_complete.
  - right. split; [done |]. by apply (reassemble_incomplete c).
Qed.
Lemma reassemble_iff_complete_witness :
  let c := [4; 5; 6] in
  let ob := ro_set_props (quicrq_reassembly_object_add_packet (object_zero 0 0) 0 (slice c 0 2) 0 2).1
              0 3 0 0 true in
  (complete c ob /\
   quicrq_reassembly_object_reassemble ob = (ro_set_reassembled ob (Some c), 0)) \/
  (~ complete c ob /\ quicrq_reassembly_object_reassemble ob = (ob, -1)).
Proof.
  intros c ob. apply (reassemble_iff_complete c ob); try done.
  unfold packets_ok. cbn. split.
  - constructor; [| done]. unfold packet_ok, pk_end, blen. cbn. repeat split; lia.
  - repeat constructor.
Defined.

(** ** Arbitrary fragments *)

(** C33: Whatever the fragments say (contradictory lengths, offsets beyond the
    object, repeated data) and whatever the application answers, submitting
    them never dereferences a null pointer nor loops, as long as object
    structures can be allocated, and keeps the tree and the objects in
    agreement: one node per object, identifiers in range. *)
Theorem reassembly_input_safe `{SL : SplayLaws (Z * Z) quicrq_object_node_compare}
    {Al : Allocator} {A : Type}
    (ready_fn : quicrq_reassembly_context_t -> A -> ready_event -> A * Z)
    (fs : list fragment) (a : A) :
  malloc_ok sizeof_reassembly_object = true ->
  Forall (fun f => is_id (f_group f) /\ is_id (f_object f)) fs ->
  exists ctx app, run ready_fn quicrq_reassembly_init fs (a, []) = Some (ctx, app) /\
    synced (fun _ => True) ctx.
Proof.
  intros Hal. generalize (synced_init (fun _ => True)).
  generalize quicrq_reassembly_init (a, @nil ready_event).
  induction fs as [| f fs IH]; intros ctx app Hs Hfs; cbn [run]; [eauto |].
  apply Forall_cons in Hfs as [[Hg Ho] Hfs]. unfold input_f.
  destruct (synced_input (logging ready_fn) (fun _ => True) I (fun _ => True) ltac:(done) ctx
    (f_time f) (f_data f) (f_group f) (f_object f)
    (f_offset f) (f_delay f) (f_flags f) (f_nb_previous f) (f_object_length f) (f_data_length f)
    app Hal Hs Hg Ho I) as (ctx' & app' & ret & -> & Hs' & _).
  by apply IH.
Qed.
Lemma reassembly_input_safe_witness :
  let bad := {| f_time := 0; f_data := [1]; f_group := 0; f_object := 0; f_offset := 9;
    f_delay := 0; f_flags := 0; f_nb_previous := 77; f_object_length := 3; f_data_length := 1 |} in
  exists ctx app,
    run demo_ready quicrq_reassembly_init [demo_fragment 0 0 0 2; bad; demo_fragment 0 0 2 1]
      (tt, []) = Some (ctx, app) /\ synced (fun _ => True) ctx.
Proof.
  intros bad. apply (reassembly_input_safe demo_ready
    [demo_fragment 0 0 0 2; bad; demo_fragment 0 0 2 1] tt); [done |].
  repeat constructor; cbn; unfold two62; lia.
Defined.

(** If the structure of a new object cannot be allocated,
    [quicrq_reassembly_input] writes its fields through the null pointer
    before testing it: the model has no result. *)
Theorem reassembly_input_null_object `{SL : SplayLaws (Z * Z) quicrq_object_node_compare}
    {Al : Allocator} {A : Type}
    (ready_fn : quicrq_reassembly_context_t -> A -> ready_event -> A * Z)
    ctx now data g o offset delay fl nb len dlen (a : A) :
  malloc_ok sizeof_reassembly_object = false ->
  key_le (next_key ctx) (g, o) -> quicrq_object_find ctx g o = None ->
  quicrq_reassembly_input ready_fn ctx now data g o offset delay fl nb len dlen a = None.
Proof.
  intros Hal Hle Hf. unfold quicrq_reassembly_input.
  apply key_le_ltb in Hle. cbn in Hle. rewrite Hle, Hf.
  unfold quicrq_reassembly_object_create. by rewrite Hal.
Qed.
Lemma reassembly_input_null_object_witness :
  quicrq_reassembly_input (Al := no_malloc) demo_ready quicrq_reassembly_init
    0 [5] 0 0 0 0 0 0 1 1 tt = None.
Proof.
  apply (reassembly_input_null_object (Al := no_malloc) demo_ready quicrq_reassembly_init
    0 [5] 0 0 0 0 0 0 1 1 tt); [done | | done].
  unfold key_le. cbn. lia.
Defined.

(** C39: A fragment that ends beyond the length announced for its object is
    refused with an error: no byte of it is kept, nothing is delivered, and
    the delivery pointer does not move. *)
Theorem reassembly_input_overrun `{SL : SplayLaws (Z * Z) quicrq_object_node_compare}
    {Al : Allocator} {A : Type}
    (ready_fn : quicrq_reassembly_context_t -> A -> ready_event -> A * Z)
    ctx ob now data g o offset delay fl nb len dlen (a : A) :
  synced (fun _ => True) ctx -> is_id g -> is_id o -> key_le (next_key ctx) (g, o) ->
  rc_objects ctx !! (g, o) = Some ob -> 0 <= offset < two62 -> 0 <= dlen < two62 ->
  ro_object_length ob < offset + dlen ->
  exists ctx' ob',
    quicrq_reassembly_input ready_fn ctx now data g o offset delay fl nb len dlen a
      = Some (ctx', a, -1) /\
    rc_objects ctx' = <[(g, o) := ob']> (rc_objects ctx) /\ next_key ctx' = next_key ctx /\
    ro_packets ob' = ro_packets ob /\ ro_reassembled ob' = ro_reassembled ob.
Proof.
  intros Hs Hg Ho Hle Hob Hoff Hd Hlen. unfold quicrq_reassembly_input.
  apply key_le_ltb in Hle. cbn in Hle. rewrite Hle.
  rewrite (synced_find (fun _ => True)) by (try done; unfold is_key, is_id in *; u64_lia). rewrite Hob.
  destruct (sy_keys _ _ Hs _ _ Hob) as (Hk & _ & _).
  unfold input_fragment. cbn [ro_object_length ro_set_props].
  rewrite u64_small by u64_lia.
  destruct (Z.leb_spec (ro_object_length ob) (offset + dlen)); [| lia].
  destruct (Z.eqb_spec (ro_object_length ob) (offset + dlen)); [lia |]. cbn [Z.eqb negb].
  eexists _, _. split; [done |]. rewrite !(rc_put_at _ (g, o)) by done. cbn.
  by rewrite insert_insert_eq.
Qed.
Lemma reassembly_input_overrun_witness :
  let ob := object_zero 0 0 in
  let ctx := rc_set_objects quicrq_reassembly_init [(0, 0)] {[(0, 0) := ob]} in
  exists ctx' ob',
    quicrq_reassembly_input demo_ready ctx 0 [1; 2; 3] 0 0 2 0 0 0 3 3 tt = Some (ctx', tt, -1) /\
    rc_objects ctx' = <[(0, 0) := ob']> (rc_objects ctx) /\ next_key ctx' = next_key ctx /\
    ro_packets ob' = ro_packets ob /\ ro_reassembled ob' = ro_reassembled ob.
Proof.
  intros ob ctx.
  apply (reassembly_input_overrun demo_ready ctx ob 0 [1; 2; 3] 0 0 2 0 0 0 3 3 tt); try done.
  - split; cbn.
    + split; repeat constructor; cbn; lia.
    + intros k. rewrite list_elem_of_singleton. split.
      * intros ->. by eexists.
      * intros [x [<- _]%lookup_singleton_Some]. done.
    + intros k x [<- <-]%lookup_singleton_Some. split; [done |]. cbn. unfold is_id, two62. lia.
    + intros k x [<- <-]%lookup_singleton_Some. cbn. unfold is_id, two62. lia.
    + unfold two62. lia.
  - unfold key_le, next_key. cbn. lia.
Defined.

(** Learning the final point: the first one is recorded, a different one
    is refused and changes nothing, and when it is accepted the media is
    finished as soon as the delivery pointer has reached the final point in
    lexicographic order. *)
Theorem learn_final_spec `{Sp : Splay (Z * Z) quicrq_object_node_compare}
    (ctx : quicrq_reassembly_context_t) (g o : Z) :
  let known := negb ((rc_final_group_id ctx =? 0) && (rc_final_object_id ctx =? 0)) in
  let refused := known && negb ((rc_final_group_id ctx =? g) && (rc_final_object_id ctx =? o)) in
  if refused then quicrq_reassembly_learn_final_object_id ctx g o = (ctx, -1)
  else exists ctx', quicrq_reassembly_learn_final_object_id ctx g o = (ctx', 0) /\
    rc_final_group_id ctx' = g /\ rc_final_object_id ctx' = o /\
    rc_is_finished ctx' = rc_is_finished ctx ||
      pair_leb g o (rc_next_group_id ctx) (rc_next_object_id ctx) /\
    next_key ctx' = next_key ctx /\ rc_objects ctx' = rc_objects ctx.
Proof.
  intros known refused. subst known refused. unfold quicrq_reassembly_learn_final_object_id.
  destruct ((rc_final_group_id ctx =? 0) && (rc_final_object_id ctx =? 0)) eqn:E0; cbn [negb andb].
  - change ((0 =? 0)) with true. cbn [andb rc_set_final rc_next_group_id rc_next_object_id].
    destruct (pair_leb g o _ _); eexists; (split; [done |]); cbn; split_and!; try done;
      by rewrite ?orb_true_r, ?orb_false_r.
  - rewrite (Z.eqb_sym o). rewrite negb_andb.
    destruct (Z.eqb_spec (rc_final_group_id ctx) g) as [Eg |],
      (Z.eqb_spec (rc_final_object_id ctx) o) as [Eo |]; cbn [negb orb]; try done.
    change ((0 =? 0)) with true. cbn [andb].
    destruct (pair_leb g o _ _); eexists; (split; [done |]); cbn; split_and!; try done;
      by rewrite ?orb_true_r, ?orb_false_r.
Qed.

(** The two tests for the end of a media disagree: the test made when the
    delivery pointer moves compares group and object numbers separately, the
    one made when the final point is learned compares them in lexicographic
    order.  A context that learns the final point (1, 5) and then the start
    point (2, 0) is not finished; in the other order it is. *)
Theorem finished_depends_on_order :
  let final ctx := (quicrq_reassembly_learn_final_object_id ctx 1 5).1 in
  let start ctx := match quicrq_reassembly_learn_start_point demo_ready ctx 2 0 0 tt with
                   | Some (ctx, _, _) => ctx | None => ctx end in
  rc_is_finished (start (final quicrq_reassembly_init)) = false /\
  rc_is_finished (final (start quicrq_reassembly_init)) = true.
Proof. by vm_compute. Qed.
