(* ===== verification/Fragment.v ===== *)
(** * lib/fragment.c: the fragment cache

    A cache keeps the fragments of one media twice: in order of arrival (the
    doubly linked list from [first_fragment] to [last_fragment]), for the
    datagram publishers, and in a splay tree ordered by group, object and
    offset, for the stream publishers.  A fragment is never modified once it
    is in the cache; [cf_addr] is its address, fresh at each allocation. *)

From S2P Require Import Prelude Picosplay.

Record quicrq_cached_fragment_t := {
  cf_addr : Z;
  cf_group_id : Z;
  cf_object_id : Z;
  cf_offset : Z;
  cf_cache_time : Z;
  cf_queue_delay : Z;
  cf_nb_objects_previous_group : Z;
  cf_flags : Z;
  cf_object_length : Z;
  cf_data_length : Z;
  cf_data : list Z;
}.
#[export] Instance cached_fragment_eq_dec : EqDecision quicrq_cached_fragment_t.
Proof. solve_decision. Defined.

Definition sizeof_cached_fragment : Z := 152.

(** A zeroed structure used as a search key. *)
Definition fragment_key (g o offset : Z) : quicrq_cached_fragment_t := {|
  cf_addr := 0; cf_group_id := g; cf_object_id := o; cf_offset := offset; cf_cache_time := 0;
  cf_queue_delay := 0; cf_nb_objects_previous_group := 0; cf_flags := 0; cf_object_length := 0;
  cf_data_length := 0; cf_data := [] |}.

Definition quicrq_fragment_cache_node_compare (ls rs : quicrq_cached_fragment_t) : Z :=
  let ret := s64 (cf_group_id ls - cf_group_id rs) in
  if ret =? 0 then
    let ret := s64 (cf_object_id ls - cf_object_id rs) in
    if ret =? 0 then
      if cf_offset ls <? cf_offset rs then -1
      else if cf_offset rs <? cf_offset ls then 1 else ret
    else ret
  else ret.

(** Offset after the last byte. *)
Definition cf_end (f : quicrq_cached_fragment_t) : Z := cf_offset f +64 cf_data_length f.

Definition is_object (g o : Z) (f : quicrq_cached_fragment_t) : bool :=
  (cf_group_id f =? g) && (cf_object_id f =? o).

Section cache.
Context `{Sp : Splay quicrq_cached_fragment_t quicrq_fragment_cache_node_compare}.
Context {Al : Allocator}.

(** [fc_heap] is the address of the next allocation. *)
Record quicrq_fragment_cache_t := {
  fc_final_group_id : Z;
  fc_final_object_id : Z;
  fc_nb_object_received : Z;
  fc_subscribe_stream_id : Z;
  fc_first_group_id : Z;
  fc_first_object_id : Z;
  fc_next_group_id : Z;
  fc_next_object_id : Z;
  fc_next_offset : Z;
  fc_highest_group_id : Z;
  fc_highest_object_id : Z;
  fc_fragments : list quicrq_cached_fragment_t;   (* first_fragment ... last_fragment *)
  fc_fragment_tree : splay quicrq_fragment_cache_node_compare;
  fc_lowest_flags : Z;
  fc_is_feed_closed : bool;
  fc_cache_delete_time : Z;
  fc_heap : Z;
}.

(** Field updates. *)
Definition fc_set_final c g o := {| fc_final_group_id := g; fc_final_object_id := o;
  fc_nb_object_received := fc_nb_object_received c;
  fc_subscribe_stream_id := fc_subscribe_stream_id c; fc_first_group_id := fc_first_group_id c;
  fc_first_object_id := fc_first_object_id c; fc_next_group_id := fc_next_group_id c;
  fc_next_object_id := fc_next_object_id c; fc_next_offset := fc_next_offset c;
  fc_highest_group_id := fc_highest_group_id c; fc_highest_object_id := fc_highest_object_id c;
  fc_fragments := fc_fragments c; fc_fragment_tree := fc_fragment_tree c;
  fc_lowest_flags := fc_lowest_flags c; fc_is_feed_closed := fc_is_feed_closed c;
  fc_cache_delete_time := fc_cache_delete_time c; fc_heap := fc_heap c |}.
Definition fc_set_received c n := {| fc_final_group_id := fc_final_group_id c;
  fc_final_object_id := fc_final_object_id c; fc_nb_object_received := n;
  fc_subscribe_stream_id := fc_subscribe_stream_id c; fc_first_group_id := fc_first_group_id c;
  fc_first_object_id := fc_first_object_id c; fc_next_group_id := fc_next_group_id c;
  fc_next_object_id := fc_next_object_id c; fc_next_offset := fc_next_offset c;
  fc_highest_group_id := fc_highest_group_id c; fc_highest_object_id := fc_highest_object_id c;
  fc_fragments := fc_fragments c; fc_fragment_tree := fc_fragment_tree c;
  fc_lowest_flags := fc_lowest_flags c; fc_is_feed_closed := fc_is_feed_closed c;
  fc_cache_delete_time := fc_cache_delete_time c; fc_heap := fc_heap c |}.
Definition fc_set_first c g o := {| fc_final_group_id := fc_final_group_id c;
  fc_final_object_id := fc_final_object_id c; fc_nb_object_received := fc_nb_object_received c;
  fc_subscribe_stream_id := fc_subscribe_stream_id c; fc_first_group_id := g;
  fc_first_object_id := o; fc_next_group_id := fc_next_group_id c;
  fc_next_object_id := fc_next_object_id c; fc_next_offset := fc_next_offset c;
  fc_highest_group_id := fc_highest_group_id c; fc_highest_object_id := fc_highest_object_id c;
  fc_fragments := fc_fragments c; fc_fragment_tree := fc_fragment_tree c;
  fc_lowest_flags := fc_lowest_flags c; fc_is_feed_closed := fc_is_feed_closed c;
  fc_cache_delete_time := fc_cache_delete_time c; fc_heap := fc_heap c |}.
Definition fc_set_next c g o off := {| fc_final_group_id := fc_final_group_id c;
  fc_final_object_id := fc_final_object_id c; fc_nb_object_received := fc_nb_object_received c;
  fc_subscribe_stream_id := fc_subscribe_stream_id c; fc_first_group_id := fc_first_group_id c;
  fc_first_object_id := fc_first_object_id c; fc_next_group_id := g; fc_next_object_id := o;
  fc_next_offset := off; fc_highest_group_id := fc_highest_group_id c;
  fc_highest_object_id := fc_highest_object_id c; fc_fragments := fc_fragments c;
  fc_fragment_tree := fc_fragment_tree c; fc_lowest_flags := fc_lowest_flags c;
  fc_is_feed_closed := fc_is_feed_closed c; fc_cache_delete_time := fc_cache_delete_time c;
  fc_heap := fc_heap c |}.
Definition fc_set_highest c g o := {| fc_final_group_id := fc_final_group_id c;
  fc_final_object_id := fc_final_object_id c; fc_nb_object_received := fc_nb_object_received c;
  fc_subscribe_stream_id := fc_subscribe_stream_id c; fc_first_group_id := fc_first_group_id c;
  fc_first_object_id := fc_first_object_id c; fc_next_group_id := fc_next_group_id c;
  fc_next_object_id := fc_next_object_id c; fc_next_offset := fc_next_offset c;
  fc_highest_group_id := g; fc_highest_object_id := o; fc_fragments := fc_fragments c;
  fc_fragment_tree := fc_fragment_tree c; fc_lowest_flags := fc_lowest_flags c;
  fc_is_feed_closed := fc_is_feed_closed c; fc_cache_delete_time := fc_cache_delete_time c;
  fc_heap := fc_heap c |}.
Definition fc_set_fragments c fr tr hp := {| fc_final_group_id := fc_final_group_id c;
  fc_final_object_id := fc_final_object_id c; fc_nb_object_received := fc_nb_object_received c;
  fc_subscribe_stream_id := fc_subscribe_stream_id c; fc_first_group_id := fc_first_group_id c;
  fc_first_object_id := fc_first_object_id c; fc_next_group_id := fc_next_group_id c;
  fc_next_object_id := fc_next_object_id c; fc_next_offset := fc_next_offset c;
  fc_highest_group_id := fc_highest_group_id c; fc_highest_object_id := fc_highest_object_id c;
  fc_fragments := fr; fc_fragment_tree := tr; fc_lowest_flags := fc_lowest_flags c;
  fc_is_feed_closed := fc_is_feed_closed c; fc_cache_delete_time := fc_cache_delete_time c;
  fc_heap := hp |}.
Definition fc_set_lowest_flags c fl := {| fc_final_group_id := fc_final_group_id c;
  fc_final_object_id := fc_final_object_id c; fc_nb_object_received := fc_nb_object_received c;
  fc_subscribe_stream_id := fc_subscribe_stream_id c; fc_first_group_id := fc_first_group_id c;
  fc_first_object_id := fc_first_object_id c; fc_next_group_id := fc_next_group_id c;
  fc_next_object_id := fc_next_object_id c; fc_next_offset := fc_next_offset c;
  fc_highest_group_id := fc_highest_group_id c; fc_highest_object_id := fc_highest_object_id c;
  fc_fragments := fc_fragments c; fc_fragment_tree := fc_fragment_tree c; fc_lowest_flags := fl;
  fc_is_feed_closed := fc_is_feed_closed c; fc_cache_delete_time := fc_cache_delete_time c;
  fc_heap := fc_heap c |}.
Definition fc_set_feed_closed c b := {| fc_final_group_id := fc_final_group_id c;
  fc_final_object_id := fc_final_object_id c; fc_nb_object_received := fc_nb_object_received c;
  fc_subscribe_stream_id := fc_subscribe_stream_id c; fc_first_group_id := fc_first_group_id c;
  fc_first_object_id := fc_first_object_id c; fc_next_group_id := fc_next_group_id c;
  fc_next_object_id := fc_next_object_id c; fc_next_offset := fc_next_offset c;
  fc_highest_group_id := fc_highest_group_id c; fc_highest_object_id := fc_highest_object_id c;
  fc_fragments := fc_fragments c; fc_fragment_tree := fc_fragment_tree c;
  fc_lowest_flags := fc_lowest_flags c; fc_is_feed_closed := b;
  fc_cache_delete_time := fc_cache_delete_time c; fc_heap := fc_heap c |}.

Definition quicrq_fragment_cache_create_ctx : quicrq_fragment_cache_t := {|
  fc_final_group_id := 0; fc_final_object_id := 0; fc_nb_object_received := 0;
  fc_subscribe_stream_id := UINT64_MAX; fc_first_group_id := 0; fc_first_object_id := 0;
  fc_next_group_id := 0; fc_next_object_id := 0; fc_next_offset := 0; fc_highest_group_id := 0;
  fc_highest_object_id := 0; fc_fragments := []; fc_fragment_tree := splay_empty;
  fc_lowest_flags := 0; fc_is_feed_closed := false; fc_cache_delete_time := 0; fc_heap := 1 |}.

Definition quicrq_fragment_cache_media_clear c : quicrq_fragment_cache_t :=
  fc_set_fragments c [] splay_empty (fc_heap c).

(** [picosplay_delete_hint] calls the delete callback, which unlinks the
    fragment from the list before it is freed. *)
Definition quicrq_fragment_cache_node_delete c (f : quicrq_cached_fragment_t)
  : quicrq_fragment_cache_t :=
  fc_set_fragments c (List.filter (fun x => negb (cf_addr x =? cf_addr f)) (fc_fragments c))
    (splay_delete (fc_fragment_tree c) f) (fc_heap c).

(** The dereference of a pointer to a fragment, kept as the fragment that it
    pointed to: [None] if the fragment was freed since. *)
Definition deref_fragment c (f : quicrq_cached_fragment_t) : option quicrq_cached_fragment_t :=
  List.find (fun x => cf_addr x =? cf_addr f) (fc_fragments c).

Definition quicrq_fragment_cache_get_fragment c (g o offset : Z)
  : option quicrq_cached_fragment_t :=
  splay_find (fc_fragment_tree c) (fragment_key g o offset).

(** One turn of the progress loop: the new cache if [f] is the expected
    fragment. *)
Definition progress_step c (f : quicrq_cached_fragment_t) : option quicrq_fragment_cache_t :=
  let expected :=
    if (cf_group_id f =? fc_next_group_id c) && (cf_object_id f =? fc_next_object_id c) &&
       (cf_offset f =? fc_next_offset c)
    then Some c
    else if (cf_group_id f =? fc_next_group_id c +64 1) && (cf_object_id f =? 0) &&
            (cf_offset f =? 0) && (0 <? fc_next_object_id c) && (fc_next_offset c =? 0) &&
            (fc_next_object_id c =? cf_nb_objects_previous_group f)
    then Some (fc_set_next c (fc_next_group_id c +64 1) 0 0)
    else None in
  match expected with
  | None => None
  | Some c =>
      let next_offset := fc_next_offset c +64 cf_data_length f in
      Some (if cf_object_length f <=? next_offset
            then fc_set_next c (fc_next_group_id c) (fc_next_object_id c +64 1) 0
            else fc_set_next c (fc_next_group_id c) (fc_next_object_id c) next_offset)
  end.

Fixpoint progress_loop (fuel : nat) c (f : quicrq_cached_fragment_t)
  : option quicrq_fragment_cache_t :=
  match fuel with
  | O => None
  | S fuel' =>
      match progress_step c f with
      | None => Some c
      | Some c =>
          match splay_next (fc_fragment_tree c) f with
          | Some f' => progress_loop fuel' c f'
          | None => Some c
          end
      end
  end.

(** A turn of the loops per node of the tree, and a last one. *)
Definition tree_fuel c : nat := S (S (length (splay_nodes (fc_fragment_tree c)))).

Definition quicrq_fragment_cache_progress c (f : quicrq_cached_fragment_t)
  : option quicrq_fragment_cache_t :=
  let c :=
    if pair_ltb (fc_highest_group_id c) (fc_highest_object_id c) (cf_group_id f) (cf_object_id f)
    then fc_set_highest c (cf_group_id f) (cf_object_id f) else c in
  let c :=
    if (0 <? cf_flags f) && ((fc_lowest_flags c =? 0) || (cf_flags f <? fc_lowest_flags c))
    then fc_set_lowest_flags c (cf_flags f) else c in
  progress_loop (tree_fuel c) c f.

Definition quicrq_fragment_add_to_cache c (data : list Z) (group_id object_id offset queue_delay
    flags nb_objects_previous_group object_length data_length current_time : Z)
  : option (quicrq_fragment_cache_t * Z) :=
  if malloc_ok (sizeof_cached_fragment +64 data_length) then
    let fragment := {|
      cf_addr := fc_heap c; cf_group_id := group_id; cf_object_id := object_id;
      cf_offset := offset; cf_cache_time := current_time; cf_queue_delay := queue_delay;
      cf_nb_objects_previous_group := nb_objects_previous_group; cf_flags := flags;
      cf_object_length := object_length; cf_data_length := data_length;
      cf_data := ztake data_length data |} in
    let c := fc_set_fragments c (fc_fragments c ++ [fragment])
               (splay_insert (fc_fragment_tree c) fragment) (fc_heap c + 1) in
    match quicrq_fragment_cache_progress c fragment with
    | Some c => Some (c, 0)
    | None => None
    end
  else Some (c, -1).

(** The constant parameters of a proposed fragment. *)
Record proposal := {
  pp_data : list Z;
  pp_group_id : Z;
  pp_object_id : Z;
  pp_offset : Z;
  pp_queue_delay : Z;
  pp_flags : Z;
  pp_object_length : Z;
  pp_current_time : Z;
}.
Definition add_proposal c (p : proposal) (nb len : Z) : option (quicrq_fragment_cache_t * Z) :=
  quicrq_fragment_add_to_cache c (pp_data p) (pp_group_id p) (pp_object_id p) (pp_offset p)
    (pp_queue_delay p) (pp_flags p) nb (pp_object_length p) len (pp_current_time p).

(** What a turn of the loop leaves: the cache, [ret], [last_fragment_node],
    [nb_objects_previous_group], [data_length] and [data_was_added]. *)
Record propose_state := {
  ps_cache : quicrq_fragment_cache_t;
  ps_ret : Z;
  ps_node : option quicrq_cached_fragment_t;
  ps_nb : Z;
  ps_data_length : Z;
  ps_added : bool;
}.

(** The current fragment [f] overlaps or precedes what is left. *)
Definition propose_overlap (p : proposal) (f : quicrq_cached_fragment_t) (s : propose_state)
  : option propose_state :=
  let last := cf_end f in
  let fragment_end := pp_offset p +64 ps_data_length s in
  let tail :=
    if last <? fragment_end then
      (* Some of the fragment data comes after this one. Submit *)
      let added_length := fragment_end -64 last in
      match add_proposal (ps_cache s) p (ps_nb s) added_length with
      | None => None
      | Some (c, ret) =>
          Some {| ps_cache := c; ps_ret := ret; ps_node := ps_node s; ps_nb := 0;
                  ps_data_length := ps_data_length s -64 added_length; ps_added := true |}
      end
    else Some s in
  match tail with
  | None => None
  | Some s =>
      Some (
        if cf_offset f <=? pp_offset p then
          {| ps_cache := ps_cache s; ps_ret := ps_ret s; ps_node := ps_node s; ps_nb := ps_nb s;
             ps_data_length := 0; ps_added := ps_added s |}
        else
          {| ps_cache := ps_cache s; ps_ret := ps_ret s;
             ps_node := splay_previous (fc_fragment_tree (ps_cache s)) f; ps_nb := ps_nb s;
             ps_data_length :=
               if cf_offset f <? pp_offset p +64 ps_data_length s
               then cf_offset f -64 pp_offset p else ps_data_length s;
             ps_added := ps_added s |})
  end.

Definition propose_whole (p : proposal) (s : propose_state) : option propose_state :=
  match add_proposal (ps_cache s) p (ps_nb s) (ps_data_length s) with
  | None => None
  | Some (c, ret) =>
      Some {| ps_cache := c; ps_ret := ret; ps_node := ps_node s; ps_nb := ps_nb s;
              ps_data_length := 0; ps_added := true |}
  end.

Definition propose_step (p : proposal) (s : propose_state) : option propose_state :=
  match ps_node s with
  | Some f =>
      if negb (is_object (pp_group_id p) (pp_object_id p) f) || (cf_end f <? pp_offset p)
      then propose_whole p s else propose_overlap p f s
  | None => propose_whole p s
  end.

Fixpoint propose_loop (fuel : nat) (p : proposal) (s : propose_state) : option propose_state :=
  match fuel with
  | O => None
  | S fuel' =>
      match propose_step p s with
      | None => None
      | Some s =>
          if (ps_ret s =? 0) && (0 <? ps_data_length s) then propose_loop fuel' p s else Some s
      end
  end.

(** Walk back from the last fragment of the object: are all there? *)
Fixpoint contiguous_loop (fuel : nat) c (g o : Z) (node : quicrq_cached_fragment_t)
  : option bool :=
  match fuel with
  | O => None
  | S fuel' =>
      let previous_offset := cf_offset node in
      if 0 <? previous_offset then
        match splay_previous (fc_fragment_tree c) node with
        | None => Some false
        | Some f =>
            if negb (is_object g o f) || (cf_end f <? previous_offset) then Some false
            else contiguous_loop fuel' c g o f
        end
      else Some true
  end.

(** The result: the cache, [ret] and whether the consumers of the source are
    woken up ([quicrq_source_wakeup]). *)
Definition quicrq_fragment_propose_to_cache c (data : list Z) (group_id object_id offset
    queue_delay flags nb_objects_previous_group object_length data_length current_time : Z)
  : option (quicrq_fragment_cache_t * Z * bool) :=
  if pair_ltb group_id object_id (fc_first_group_id c) (fc_first_object_id c) then
    Some (c, 0, false)   (* This fragment is too old to be considered. *)
  else
    let key := fragment_key group_id object_id UINT64_MAX in
    let p := {| pp_data := data; pp_group_id := group_id; pp_object_id := object_id;
                pp_offset := offset; pp_queue_delay := queue_delay; pp_flags := flags;
                pp_object_length := object_length; pp_current_time := current_time |} in
    match propose_loop (tree_fuel c) p
            {| ps_cache := c; ps_ret := 0;
               ps_node := splay_find_previous (fc_fragment_tree c) key;
               ps_nb := nb_objects_previous_group; ps_data_length := data_length;
               ps_added := false |} with
    | None => None
    | Some s =>
        let c := ps_cache s in
        if (ps_ret s =? 0) && ps_added s then
          match splay_find_previous (fc_fragment_tree c) key with
          | None => Some (c, 0, true)
          | Some last =>
              if cf_object_length last <=? cf_end last then
                match contiguous_loop (tree_fuel c) c group_id object_id last with
                | None => None
                | Some true => Some (fc_set_received c (fc_nb_object_received c +64 1), 0, true)
                | Some false => Some (c, 0, true)
                end
              else Some (c, 0, true)
          end
        else Some (c, ps_ret s, false)
    end.

(** The cache part of [quicrq_fragment_cache_learn_start_point]: the start
    point is then set in the streams of the source. *)
Fixpoint delete_before (fuel : nat) c (before : quicrq_cached_fragment_t -> bool)
  : quicrq_fragment_cache_t :=
  match fuel with
  | O => c
  | S fuel' =>
      match splay_first (fc_fragment_tree c) with
      | Some f =>
          if before f then delete_before fuel' (quicrq_fragment_cache_node_delete c f) before
          else c
      | None => c
      end
  end.

Definition learn_start_point c (start_group_id start_object_id : Z) : quicrq_fragment_cache_t :=
  let c := fc_set_first c start_group_id start_object_id in
  let c :=
    if pair_ltb (fc_next_group_id c) (fc_next_object_id c) start_group_id start_object_id
    then fc_set_next c start_group_id start_object_id (fc_next_offset c) else c in
  delete_before (tree_fuel c) c
    (fun f => pair_ltb (cf_group_id f) (cf_object_id f) start_group_id start_object_id).

(** The cache part of [quicrq_fragment_cache_learn_end_point]. *)
Definition learn_end_point c (g o : Z) : quicrq_fragment_cache_t := fc_set_final c g o.

(** The cache part of [quicrq_fragment_cache_media_purge_to_gob]: [readers]
    lists the group of the first object state of each publisher, if any. *)
Definition kept_group (next_group_id : Z) (readers : list (option Z)) : Z :=
  fold_left (fun kept r => match r with
                           | Some g => if g <? kept then g else kept
                           | None => kept
                           end) readers next_group_id.

Definition purge_to_gob c (readers : list (option Z)) : quicrq_fragment_cache_t :=
  let kept := kept_group (fc_next_group_id c) readers in
  let c := delete_before (tree_fuel c) c (fun f => cf_group_id f <? kept) in
  match splay_first (fc_fragment_tree c) with
  | Some f => fc_set_first c (cf_group_id f) (cf_object_id f)
  | None => c
  end.

Definition quicrq_fragment_get_object_count c (group_id : Z) : Z :=
  match quicrq_fragment_cache_get_fragment c (group_id +64 1) 0 0 with
  | Some f => cf_nb_objects_previous_group f
  | None => 0
  end.

Definition quicrq_fragment_get_flags c (g o : Z) : Z :=
  match quicrq_fragment_cache_get_fragment c g o 0 with
  | Some f => cf_flags f
  | None => 0
  end.

(** [ret = -1] is [None]. *)
Definition quicrq_fragment_get_object_properties c (g o : Z) : option (Z * Z * Z) :=
  match quicrq_fragment_cache_get_fragment c g o 0 with
  | Some f => Some (cf_object_length f, cf_nb_objects_previous_group f, cf_flags f)
  | None => None
  end.

(** The loop of [quicrq_fragment_object_copy_available_data]: what was copied
    so far.  [None] if the fuel runs out. *)
Fixpoint copy_available_loop (fuel : nat) c (g o offset available : Z)
    (node : option quicrq_cached_fragment_t) (current_offset : Z) (buffer : list Z)
  : option (list Z) :=
  match fuel with
  | O => None
  | S fuel' =>
      match node with
      | Some f =>
          let fragment_size := blen buffer in
          if fragment_size <? available then
            if negb (is_object g o f) || negb (cf_offset f =? current_offset) then Some buffer
            else
              let buffer :=
                if offset <? current_offset +64 cf_data_length f then
                  let offset_offset :=
                    if current_offset <? offset then offset -64 current_offset else 0 in
                  let copied := cf_data_length f -64 offset_offset in
                  let copied := if available <? fragment_size +64 copied
                                then available -64 fragment_size else copied in
                  buffer ++ slice (cf_data f) offset_offset copied
                else buffer in
              copy_available_loop fuel' c g o offset available
                (splay_next (fc_fragment_tree c) f) (current_offset +64 cf_data_length f) buffer
          else Some buffer
      | None => Some buffer
      end
  end.

Definition quicrq_fragment_object_copy_available_data c (g o offset available : Z)
  : option (list Z) :=
  copy_available_loop (tree_fuel c) c g o offset available
    (quicrq_fragment_cache_get_fragment c g o 0) 0 [].

(** [quicrq_fragment_object_copy]: each fragment is copied at the beginning of
    the buffer, from its own bytes at the current offset.  [copies] lists the
    arguments [(position, source offset, length)] of the calls of [memcpy],
    with the fragment they read. *)
Fixpoint object_copy_loop (fuel : nat) c (g o : Z) (node : option quicrq_cached_fragment_t)
    (current_offset : Z) (copies : list (quicrq_cached_fragment_t * Z * Z * Z)) (nb : Z)
  : option (Z * list (quicrq_cached_fragment_t * Z * Z * Z) * Z * option Z) :=
  match fuel with
  | O => None
  | S fuel' =>
      match node with
      | Some f =>
          if negb (is_object g o f) || negb (cf_offset f =? current_offset)
          then Some (0, copies, nb, None)
          else
            let nb := if (cf_object_id f =? 0) && (cf_offset f =? 0)
                      then cf_nb_objects_previous_group f else nb in
            let copies := copies ++ [(f, 0, current_offset, cf_data_length f)] in
            let current_offset := current_offset +64 cf_data_length f in
            if cf_object_length f <=? current_offset
            then Some (current_offset, copies, nb, Some (cf_flags f))
            else object_copy_loop fuel' c g o (splay_next (fc_fragment_tree c) f) current_offset
                   copies nb
      | None => Some (0, copies, nb, None)
      end
  end.

(** The object size (0 if it is not all there), the copies, the number of
    objects of the previous group, and the flags when the object is there. *)
Definition quicrq_fragment_object_copy c (g o : Z) :=
  object_copy_loop (tree_fuel c) c g o (quicrq_fragment_cache_get_fragment c g o 0) 0 [] 0.

End cache.
