(* ===== verification/FragmentProofs.v ===== *)
(** * Correctness of the fragment cache

    Integrity: whatever is proposed, the cache holds pieces of the media, the
    tree and the list of arrivals hold the same fragments, and the loops end.
    Coverage: a proposal that does not extend past the end of a fragment it
    overlaps adds exactly its bytes, and the cached fragments of an object
    remain disjoint. *)

From S2P Require Import Prelude Picosplay Media Fragment.

(** ** The order of the tree *)

Definition fkey_ok (f : quicrq_cached_fragment_t) : Prop :=
  is_key (cf_group_id f) /\ is_key (cf_object_id f).

(** Split the comparisons and read the 64-bit differences. *)
Ltac fragment_compare :=
  unfold quicrq_fragment_cache_node_compare, fkey_ok, is_key in *; intros;
  repeat match goal with H : _ /\ _ |- _ => destruct H end;
  rewrite ?s64_small in * by u64_lia;
  repeat match goal with
    | |- context [?a =? 0] => destruct (Z.eqb_spec a 0)
    | |- context [?a <? ?b] => destruct (Z.ltb_spec a b)
    | H : context [?a =? 0] |- _ => destruct (Z.eqb_spec a 0)
    | H : context [?a <? ?b] |- _ => destruct (Z.ltb_spec a b)
    end; try lia.

Lemma fragment_compare_lt l r : fkey_ok l -> fkey_ok r ->
  quicrq_fragment_cache_node_compare l r < 0 <->
  cf_group_id l < cf_group_id r \/ (cf_group_id l = cf_group_id r /\
    (cf_object_id l < cf_object_id r \/
     (cf_object_id l = cf_object_id r /\ cf_offset l < cf_offset r))).
Proof. fragment_compare. Qed.

Lemma fragment_compare_eq l r : fkey_ok l -> fkey_ok r ->
  quicrq_fragment_cache_node_compare l r = 0 <->
  cf_group_id l = cf_group_id r /\ cf_object_id l = cf_object_id r /\ cf_offset l = cf_offset r.
Proof. fragment_compare. Qed.

Lemma fragment_compare_gt l r : fkey_ok l -> fkey_ok r ->
  0 < quicrq_fragment_cache_node_compare l r <-> quicrq_fragment_cache_node_compare r l < 0.
Proof. intros Hl Hr. rewrite (fragment_compare_lt r l) by done. revert Hl Hr. fragment_compare. Qed.

#[export] Instance fragment_order : CmpOrder quicrq_fragment_cache_node_compare fkey_ok.
Proof.
  split.
  - intros x Hx. apply fragment_compare_eq; auto.
  - intros x y Hx Hy. pose proof (fragment_compare_gt x y Hx Hy).
    pose proof (fragment_compare_gt y x Hy Hx). lia.
  - intros x y z Hx Hy Hz Hxy Hyz. apply fragment_compare_lt; [done | done |].
    apply fragment_compare_lt in Hxy; [| done | done].
    assert (quicrq_fragment_cache_node_compare y z < 0 \/
      quicrq_fragment_cache_node_compare y z = 0) as [H | H] by lia.
    + apply fragment_compare_lt in H; [lia | done | done].
    + apply fragment_compare_eq in H; [lia | done | done].
  - intros x y z Hx Hy Hz Hxy Hyz. apply fragment_compare_eq; [done | done |].
    apply fragment_compare_eq in Hxy; [| done | done].
    apply fragment_compare_eq in Hyz; [lia | done | done].
Qed.

Lemma is_object_spec g o f : is_object g o f = true <-> cf_group_id f = g /\ cf_object_id f = o.
Proof. unfold is_object. by rewrite andb_true_iff, !Z.eqb_eq. Qed.

(** ** Insertion in the order *)

Lemma ordered_insert_perm {N} (cmp : N -> N -> Z) n l : ordered_insert cmp n l ≡ₚ n :: l.
Proof.
  induction l as [| x l IH]; cbn; [done |]. destruct (cmp n x <? 0); [done |].
  rewrite IH. apply Permutation_swap.
Qed.

Lemma ordered_insert_before {N} (cmp : N -> N -> Z) n l1 f l2 :
  cmp n f < 0 ->
  exists l1', ordered_insert cmp n (l1 ++ f :: l2) = l1' ++ f :: l2 /\ l1' ≡ₚ n :: l1.
Proof.
  intros Hf. induction l1 as [| x l1 IH]; cbn.
  - destruct (Z.ltb_spec (cmp n f) 0); [| lia]. by exists [n].
  - destruct (cmp n x <? 0).
    + by exists (n :: x :: l1).
    + destruct IH as (l1' & -> & Hp). exists (x :: l1'). split; [done |].
      rewrite Hp. apply Permutation_swap.
Qed.

Lemma ordered_insert_weak {N} (cmp : N -> N -> Z) ok n l :
  CmpOrder cmp ok -> ok n -> Forall ok l -> StronglySorted (fun x y => cmp x y <= 0) l ->
  StronglySorted (fun x y => cmp x y <= 0) (ordered_insert cmp n l).
Proof.
  intros CO Hn Hok Hs. induction Hs as [| x l Hs IH Hx]; cbn; [repeat constructor |].
  apply Forall_cons in Hok as [Hokx Hokl]. destruct (Z.ltb_spec (cmp n x) 0).
  - constructor; [by constructor |]. constructor; [lia |].
    rewrite Forall_forall in Hx |- *. intros y Hy.
    pose proof (cmp_lt_trans (ok := ok) n x y Hn Hokx) as Ht.
    rewrite Forall_forall in Hokl. specialize (Hx y Hy). specialize (Ht (Hokl y Hy)). lia.
  - constructor; [by apply IH |]. apply Forall_ordered_insert; [| done].
    pose proof (cmp_sym (ok := ok) n x Hn Hokx). lia.
Qed.

Lemma ordered_find_previous_split {N} (cmp : N -> N -> Z) ok k l :
  CmpOrder cmp ok -> ok k -> Forall ok l -> StronglySorted (fun x y => cmp x y <= 0) l ->
  exists l1 l2, l = l1 ++ l2 /\ ordered_find_previous cmp k l = last l1 /\
    Forall (fun x => 0 <= cmp k x) l1 /\ Forall (fun x => cmp k x < 0) l2.
Proof.
  intros CO Hk Hok Hs. induction Hs as [| x l Hs IH Hx]; cbn; [by exists [], [] |].
  apply Forall_cons in Hok as [Hokx Hokl]. destruct (Z.ltb_spec (cmp k x) 0).
  - exists [], (x :: l). split_and!; try done. constructor; [done |].
    rewrite Forall_forall in Hx, Hokl |- *. intros y Hy.
    apply (cmp_lt_trans (ok := ok) k x y); auto.
  - destruct (IH Hokl) as (l1 & l2 & -> & -> & H1 & H2). exists (x :: l1), l2.
    split_and!; [done | | by constructor | done].
    destruct l1 as [| y l1]; cbn; [done |]. by destruct (last (y :: l1)) eqn:E; [| apply last_None in E].
Qed.

(** ** The store: list of arrivals and tree *)

Section store.
Context `{SL : SplayLaws quicrq_cached_fragment_t quicrq_fragment_cache_node_compare}.
Context {Al : Allocator}.

Record store_ok (c : quicrq_fragment_cache_t) : Prop := {
  so_sorted : splay_sorted fkey_ok (fc_fragment_tree c);
  so_same : forall f, f ∈ fc_fragments c <-> f ∈ splay_nodes (fc_fragment_tree c);
  so_addrs : NoDup (map cf_addr (fc_fragments c));
  so_heap : Forall (fun f => cf_addr f < fc_heap c) (fc_fragments c);
}.

Lemma store_ok_init : store_ok quicrq_fragment_cache_create_ctx.
Proof.
  split; cbn; unfold splay_sorted; rewrite ?splay_nodes_empty; repeat constructor; done.
Qed.

Lemma store_unique c f f' : store_ok c -> f ∈ fc_fragments c -> f' ∈ fc_fragments c ->
  cf_addr f = cf_addr f' -> f = f'.
Proof.
  intros [_ _ Hnd _]. generalize dependent (fc_fragments c). intros l Hnd.
  induction l as [| x l IH]; [by intros ?%not_elem_of_nil |]. cbn in Hnd.
  apply NoDup_cons in Hnd as [Hx Hnd].
  assert (forall y, y ∈ l -> cf_addr x <> cf_addr y) as Hne.
  { intros y Hy E. apply Hx. rewrite E. apply list_elem_of_In, in_map. by apply list_elem_of_In. }
  intros [-> | Hf]%elem_of_cons [-> | Hf']%elem_of_cons E; auto.
  - by destruct (Hne f' Hf').
  - by destruct (Hne f Hf).
Qed.

(** A pointer to a fragment of the cache can be followed. *)
Lemma deref_fragment_in c f : store_ok c -> f ∈ fc_fragments c -> deref_fragment c f = Some f.
Proof.
  intros Hst Hf. unfold deref_fragment. destruct (List.find _ _) as [x |] eqn:E.
  - apply List.find_some in E as [Hx E]. apply Z.eqb_eq in E. f_equal.
    apply (store_unique c); [done | by apply list_elem_of_In | done | done].
  - eapply List.find_none in E; [| by apply list_elem_of_In]. by rewrite Z.eqb_refl in E.
Qed.

(** The progress functions change the progress fields only. *)
Definition progress_only (c c' : quicrq_fragment_cache_t) : Prop :=
  exists g o off hg ho fl,
    c' = fc_set_lowest_flags (fc_set_highest (fc_set_next c g o off) hg ho) fl.

Lemma progress_only_refl c : progress_only c c.
Proof.
  exists (fc_next_group_id c), (fc_next_object_id c), (fc_next_offset c),
    (fc_highest_group_id c), (fc_highest_object_id c), (fc_lowest_flags c). by destruct c.
Qed.
Lemma progress_only_trans c1 c2 c3 :
  progress_only c1 c2 -> progress_only c2 c3 -> progress_only c1 c3.
Proof.
  intros (? & ? & ? & ? & ? & ? & ->) (g & o & off & hg & ho & fl & ->).
  by exists g, o, off, hg, ho, fl.
Qed.
Lemma progress_only_next c g o off : progress_only c (fc_set_next c g o off).
Proof. by exists g, o, off, (fc_highest_group_id c), (fc_highest_object_id c), (fc_lowest_flags c). Qed.
Lemma progress_only_highest c g o : progress_only c (fc_set_highest c g o).
Proof.
  by exists (fc_next_group_id c), (fc_next_object_id c), (fc_next_offset c), g, o, (fc_lowest_flags c).
Qed.
Lemma progress_only_lowest c fl : progress_only c (fc_set_lowest_flags c fl).
Proof.
  by exists (fc_next_group_id c), (fc_next_object_id c), (fc_next_offset c),
    (fc_highest_group_id c), (fc_highest_object_id c), fl.
Qed.
Hint Resolve progress_only_refl progress_only_next progress_only_highest progress_only_lowest : core.

Lemma progress_step_only c f c' : progress_step c f = Some c' -> progress_only c c'.
Proof.
  unfold progress_step. intros H. repeat dmatch_in H; try done; injection H as <-;
    eauto using progress_only_trans.
Qed.

Lemma progress_loop_spec fuel : forall c l1 f l2,
  splay_nodes (fc_fragment_tree c) = l1 ++ f :: l2 -> NoDup (splay_nodes (fc_fragment_tree c)) ->
  (length l2 < fuel)%nat ->
  exists c', progress_loop fuel c f = Some c' /\ progress_only c c'.
Proof.
  induction fuel as [| fuel IH]; intros c l1 f l2 E Hnd Hf; [lia |]. cbn [progress_loop].
  destruct (progress_step c f) as [c1 |] eqn:Es; [| eauto].
  apply progress_step_only in Es.
  assert (fc_fragment_tree c1 = fc_fragment_tree c) as Et.
  { by destruct Es as (? & ? & ? & ? & ? & ? & ->). }
  rewrite Et, (splay_next_eq _ f l1 l2) by done.
  destruct l2 as [| f' l2]; cbn; [eauto |].
  destruct (IH c1 (l1 ++ [f]) f' l2) as (c' & -> & Hc').
  - by rewrite Et, E, <- (assoc_L (++)).
  - by rewrite Et.
  - cbn in Hf. lia.
  - eauto using progress_only_trans.
Qed.

Lemma progress_spec c f : splay_sorted fkey_ok (fc_fragment_tree c) ->
  f ∈ splay_nodes (fc_fragment_tree c) ->
  exists c', quicrq_fragment_cache_progress c f = Some c' /\ progress_only c c'.
Proof.
  intros (_ & _ & Hnd) Hf. unfold quicrq_fragment_cache_progress.
  set (c1 := if pair_ltb _ _ _ _ then _ else c).
  set (c2 := if _ && _ then _ else c1).
  assert (progress_only c c1) as H1 by (subst c1; destruct (pair_ltb _ _ _ _); auto).
  assert (progress_only c1 c2) as H2 by (subst c2; destruct (_ && _); auto).
  pose proof (progress_only_trans _ _ _ H1 H2) as H. clearbody c1 c2.
  assert (fc_fragment_tree c2 = fc_fragment_tree c) as Et.
  { by destruct H as (? & ? & ? & ? & ? & ? & ->). }
  apply list_elem_of_split in Hf as (l1 & l2 & E).
  destruct (progress_loop_spec (tree_fuel c2) c2 l1 f l2) as (c' & -> & Hc').
  - by rewrite Et.
  - by rewrite Et.
  - unfold tree_fuel. rewrite Et, E, length_app. cbn. lia.
  - eauto using progress_only_trans.
Qed.

(** The fragment that [add_proposal] makes. *)
Definition proposed c (p : proposal) (nb len : Z) : quicrq_cached_fragment_t := {|
  cf_addr := fc_heap c; cf_group_id := pp_group_id p; cf_object_id := pp_object_id p;
  cf_offset := pp_offset p; cf_cache_time := pp_current_time p;
  cf_queue_delay := pp_queue_delay p; cf_nb_objects_previous_group := nb;
  cf_flags := pp_flags p; cf_object_length := pp_object_length p; cf_data_length := len;
  cf_data := ztake len (pp_data p) |}.

Lemma add_proposal_spec c p nb len :
  (forall n, malloc_ok n = true) -> store_ok c -> fkey_ok (proposed c p nb len) ->
  exists c', add_proposal c p nb len = Some (c', 0) /\ store_ok c' /\
    fc_fragments c' = fc_fragments c ++ [proposed c p nb len] /\
    splay_nodes (fc_fragment_tree c') =
      ordered_insert quicrq_fragment_cache_node_compare (proposed c p nb len)
        (splay_nodes (fc_fragment_tree c)) /\
    progress_only (fc_set_fragments c (fc_fragments c ++ [proposed c p nb len])
      (splay_insert (fc_fragment_tree c) (proposed c p nb len)) (fc_heap c + 1)) c'.
Proof.
  intros Hal Hc Hok. unfold add_proposal, quicrq_fragment_add_to_cache. rewrite Hal.
  fold (proposed c p nb len). set (f := proposed c p nb len) in *.
  set (c1 := fc_set_fragments c _ _ _). pose proof Hc as [Hs Hsame Hnd Hheap].
  pose proof Hs as (Hks & Hw & Hn).
  assert (f ∉ fc_fragments c) as Hnew.
  { intros Hin. eapply Forall_forall in Hin; [| exact Hheap]. subst f. cbn in Hin. lia. }
  assert (splay_nodes (fc_fragment_tree c1) =
    ordered_insert quicrq_fragment_cache_node_compare f (splay_nodes (fc_fragment_tree c))) as En.
  { apply (splay_nodes_insert fkey_ok); [apply fragment_order | done | done]. }
  assert (store_ok c1) as Hc1.
  { split.
    - unfold splay_sorted. rewrite En. split_and!.
      + by apply Forall_ordered_insert.
      + eapply ordered_insert_weak; [apply fragment_order | done | done | done].
      + rewrite ordered_insert_perm. constructor; [by rewrite <- Hsame | done].
    - intros x. rewrite En, elem_of_ordered_insert. subst c1. cbn.
      rewrite elem_of_app, list_elem_of_singleton, Hsame. tauto.
    - subst c1. cbn. rewrite map_app. apply NoDup_app. split; [done |]. split.
      + intros a Ha ->%list_elem_of_singleton. apply list_elem_of_In, in_map_iff in Ha
          as (x & Ex & Hx). apply list_elem_of_In in Hx.
        eapply Forall_forall in Hx; [| exact Hheap]. cbn in *. lia.
      + repeat constructor. apply not_elem_of_nil.
    - subst c1. cbn. apply Forall_app. split; [| repeat constructor; cbn; lia].
      eapply Forall_impl; [exact Hheap |]. cbn. lia. }
  destruct (progress_spec c1 f) as (c' & -> & Hp); [apply Hc1 | |].
  { rewrite En, elem_of_ordered_insert. by left. }
  exists c'. split; [done |]. pose proof Hp as (g & o & off & hg & ho & fl & ->).
  split_and!; try done. destruct Hc1. by split.
Qed.
End store.

(** ** Integrity of the proposals *)

(** A cached fragment is a piece of the media. *)
Record piece (m : media) (f : quicrq_cached_fragment_t) : Prop := {
  pc_group : is_id (cf_group_id f);
  pc_object : is_id (cf_object_id f);
  pc_length : cf_object_length f = blen (content m (cf_group_id f, cf_object_id f));
  pc_range : 0 <= cf_offset f /\ 0 <= cf_data_length f /\
    cf_offset f + cf_data_length f <= blen (content m (cf_group_id f, cf_object_id f));
  pc_data : cf_data f = slice (content m (cf_group_id f, cf_object_id f)) (cf_offset f)
                          (cf_data_length f);
}.

(** The proposal of the first [n] bytes of a buffer of pieces of the media. *)
Record genuine (m : media) (p : proposal) (n : Z) : Prop := {
  ge_group : is_id (pp_group_id p);
  ge_object : is_id (pp_object_id p);
  ge_length : pp_object_length p = blen (content m (pp_group_id p, pp_object_id p));
  ge_range : 0 <= pp_offset p /\ 0 <= n /\
    pp_offset p + n <= blen (content m (pp_group_id p, pp_object_id p));
  ge_data : pp_data p = slice (content m (pp_group_id p, pp_object_id p)) (pp_offset p) n;
}.

Lemma piece_end m f : piece m f -> cf_end f = cf_offset f + cf_data_length f /\
  cf_offset f + cf_data_length f < two62.
Proof.
  intros [_ _ _ Hr _]. pose proof (content_range m (cf_group_id f, cf_object_id f)).
  unfold cf_end. rewrite u64_small by u64_lia. lia.
Qed.

Lemma piece_key m f : piece m f -> fkey_ok f.
Proof. intros [Hg Ho _ _ _]. unfold fkey_ok, is_key, is_id in *. u64_lia. Qed.

Section integrity.
Context `{SL : SplayLaws quicrq_cached_fragment_t quicrq_fragment_cache_node_compare}.
Context {Al : Allocator} (alloc_ok : forall n, malloc_ok n = true).
Context (m : media).

Record cache_ok (c : quicrq_fragment_cache_t) : Prop := {
  co_store : store_ok c;
  co_pieces : Forall (piece m) (fc_fragments c);
}.

Lemma cache_node c f : cache_ok c -> f ∈ splay_nodes (fc_fragment_tree c) -> piece m f.
Proof.
  intros [Hs Hp] Hf. apply (so_same _ Hs) in Hf. by eapply Forall_forall in Hf; [| exact Hp].
Qed.

Lemma proposed_piece c p n nb len : genuine m p n -> 0 <= len <= n -> piece m (proposed c p nb len).
Proof.
  intros [Hg Ho Hl Hr Hd] Hlen. split; cbn; try done; [lia |].
  rewrite Hd. apply ztake_slice. lia.
Qed.

Lemma add_cache_ok c p n nb len :
  cache_ok c -> genuine m p n -> 0 <= len <= n ->
  exists c', add_proposal c p nb len = Some (c', 0) /\ cache_ok c' /\
    fc_fragments c' = fc_fragments c ++ [proposed c p nb len] /\
    splay_nodes (fc_fragment_tree c') =
      ordered_insert quicrq_fragment_cache_node_compare (proposed c p nb len)
        (splay_nodes (fc_fragment_tree c)).
Proof.
  intros [Hs Hp] Hge Hlen. pose proof (proposed_piece c p n nb len Hge Hlen) as Hpc.
  destruct (add_proposal_spec c p nb len alloc_ok Hs (piece_key m _ Hpc))
    as (c' & -> & Hs' & Ef & En & _).
  exists c'. split_and!; try done. split; [done |]. rewrite Ef. apply Forall_app. split; [done |].
  by constructor.
Qed.

(** Where the loop stands in the order of the tree. *)
Record walking (p : proposal) (n : Z) (s : propose_state) l1 l2 : Prop := {
  wk_cache : cache_ok (ps_cache s);
  wk_ret : ps_ret s = 0;
  wk_length : 0 <= ps_data_length s <= n;
  wk_nodes : splay_nodes (fc_fragment_tree (ps_cache s)) = l1 ++ l2;
  wk_node : ps_node s = last l1;
}.

(** The nodes that can still be visited. *)
Definition ahead (p : proposal) (f : quicrq_cached_fragment_t) : bool := pp_offset p <? cf_offset f.
Definition count_ahead p l := length (List.filter (ahead p) l).

Lemma count_ahead_app p l1 l2 : count_ahead p (l1 ++ l2) = (count_ahead p l1 + count_ahead p l2)%nat.
Proof. unfold count_ahead. by rewrite List.filter_app, length_app. Qed.

Lemma count_ahead_perm p l l' : l ≡ₚ l' -> count_ahead p l = count_ahead p l'.
Proof.
  unfold count_ahead. induction 1 as [| x l l' ? IH | x y l |]; cbn; [done | | | congruence].
  - by destruct (ahead p x); cbn; rewrite IH.
  - by destruct (ahead p x), (ahead p y).
Qed.

(** Everything the loop adds comes from the proposal. *)
Definition extends (p : proposal) (n : Z) (c c' : quicrq_fragment_cache_t) : Prop :=
  exists new, fc_fragments c' = fc_fragments c ++ new /\
    Forall (fun f => cf_group_id f = pp_group_id p /\ cf_object_id f = pp_object_id p /\
                     cf_offset f = pp_offset p /\ cf_data_length f <= n) new.

Lemma extends_refl p n c : extends p n c c.
Proof. exists []. by rewrite app_nil_r. Qed.
Lemma extends_trans p n c1 c2 c3 : extends p n c1 c2 -> extends p n c2 c3 -> extends p n c1 c3.
Proof.
  intros (n1 & E1 & H1) (n2 & E2 & H2). exists (n1 ++ n2). split; [| by apply Forall_app].
  by rewrite E2, E1, (assoc_L (++)).
Qed.

Lemma propose_whole_spec p n s l1 l2 :
  walking p n s l1 l2 -> genuine m p n ->
  exists s', propose_whole p s = Some s' /\ cache_ok (ps_cache s') /\ ps_ret s' = 0 /\
    ps_data_length s' = 0 /\ extends p n (ps_cache s) (ps_cache s').
Proof.
  intros [Hc Hr Hl En Ed] Hge. unfold propose_whole.
  destruct (add_cache_ok (ps_cache s) p n (ps_nb s) (ps_data_length s) Hc Hge Hl)
    as (c' & -> & Hc' & Ef & _).
  eexists. split; [done |]. split_and!; try done.
  eexists. split; [exact Ef |]. repeat constructor. cbn. lia.
Qed.

Lemma propose_overlap_spec p n s l1 f l2 :
  walking p n s (l1 ++ [f]) l2 -> genuine m p n -> is_object (pp_group_id p) (pp_object_id p) f = true ->
  pp_offset p <= cf_end f ->
  exists s', propose_overlap p f s = Some s' /\ extends p n (ps_cache s) (ps_cache s') /\
    ((cache_ok (ps_cache s') /\ ps_ret s' = 0 /\ ps_data_length s' = 0) \/
     (exists l1', walking p n s' l1' (f :: l2) /\ pp_offset p < cf_offset f /\
        count_ahead p l1' = count_ahead p l1)).
Proof.
  intros [Hc Hr Hl En Ed] Hge [Eg Eo]%is_object_spec He. unfold propose_overlap.
  rewrite <- (assoc_L (++)) in En. cbn in En.
  assert (piece m f) as Hf by (eapply cache_node; [exact Hc |]; rewrite En; apply elem_of_app; right; by left).
  destruct (piece_end m f Hf) as [Ee Hb]. rewrite Ee in *.
  pose proof (ge_range _ _ _ Hge) as Hgr. pose proof (content_range m (pp_group_id p, pp_object_id p)).
  pose proof (pc_range _ _ Hf) as Hfr.
  rewrite (u64_small (pp_offset p + ps_data_length s)) by u64_lia.
  (* the tail *)
  set (tail := if _ <? _ then _ else _).
  assert (exists s1 l1', tail = Some s1 /\ extends p n (ps_cache s) (ps_cache s1) /\
    cache_ok (ps_cache s1) /\ ps_ret s1 = 0 /\ 0 <= ps_data_length s1 <= n /\
    (pp_offset p < cf_offset f ->
     splay_nodes (fc_fragment_tree (ps_cache s1)) = l1' ++ f :: l2 /\
     count_ahead p l1' = count_ahead p l1)) as (s1 & l1' & -> & Hext & Hc1 & Hr1 & Hl1 & Hwalk).
  { subst tail. destruct (Z.ltb_spec (cf_offset f + cf_data_length f)
      (pp_offset p + ps_data_length s)) as [Hlt |].
    2: { exists s, l1. split_and!; try done; try lia. apply extends_refl. }
    rewrite u64_small by u64_lia.
    destruct (add_cache_ok (ps_cache s) p n (ps_nb s)
      (pp_offset p + ps_data_length s - (cf_offset f + cf_data_length f)) Hc Hge)
      as (c' & -> & Hc' & Ef & En'); [lia |].
    set (nf := proposed _ _ _ _) in *. rewrite En in En'.
    destruct (Z.lt_ge_cases (pp_offset p) (cf_offset f)) as [Hoff |].
    - destruct (ordered_insert_before quicrq_fragment_cache_node_compare nf l1 f l2)
        as (l1' & El & Hp).
      { apply fragment_compare_lt; [| by eapply piece_key | subst nf; cbn; lia].
        apply (piece_key m). apply (proposed_piece _ _ n); [done | lia]. }
      eexists _, l1'. split; [done |]. cbn. rewrite (u64_small (_ - _)) by u64_lia. split_and!; try done; try lia.
      + eexists. split; [exact Ef |]. repeat constructor. cbn. lia.
      + intros _. split; [congruence |]. rewrite (count_ahead_perm _ _ _ Hp).
        unfold count_ahead. cbn. unfold ahead at 1. cbn. by rewrite Z.ltb_irrefl.
    - eexists _, l1. split; [done |]. cbn. rewrite (u64_small (_ - _)) by u64_lia. split_and!; try done; try lia.
      eexists. split; [exact Ef |]. repeat constructor. cbn. lia. }
  eexists. split; [done |].
  destruct (Z.leb_spec (cf_offset f) (pp_offset p)) as [Hle | Hgt]; cbn.
  - split; [done |]. by left.
  - split; [done |]. right. destruct (Hwalk Hgt) as [Ew Ecnt]. exists l1'. split; [| done].
    split; cbn; try done.
    + rewrite (u64_small (pp_offset p + _)) by u64_lia.
      destruct (Z.ltb_spec (cf_offset f) (pp_offset p + ps_data_length s1)); [| lia].
      rewrite u64_small by u64_lia. lia.
    + apply (splay_previous_eq _ _ _ l2); [done |].
      apply (so_sorted _ (co_store _ Hc1)).
Qed.

Lemma propose_loop_spec p n : genuine m p n -> forall fuel s l1 l2,
  walking p n s l1 l2 -> (count_ahead p l1 < fuel)%nat ->
  exists s', propose_loop fuel p s = Some s' /\ cache_ok (ps_cache s') /\ ps_ret s' = 0 /\
    extends p n (ps_cache s) (ps_cache s').
Proof.
  intros Hge. induction fuel as [| fuel IH]; intros s l1 l2 Hw Hf; [lia |]. cbn [propose_loop].
  unfold propose_step. rewrite (wk_node _ _ _ _ _ Hw).
  destruct (last l1) as [f |] eqn:Elast.
  2: { destruct (propose_whole_spec p n s l1 l2 Hw Hge) as (s' & -> & Hc & Hr & Hl & He).
       rewrite Hr, Hl. cbn. eauto 10. }
  apply last_Some in Elast as [l1' ->].
  destruct (negb _ || _) eqn:Ecase.
  { destruct (propose_whole_spec p n s _ l2 Hw Hge) as (s' & -> & Hc & Hr & Hl & He).
    rewrite Hr, Hl. cbn. eauto 10. }
  b2p. destruct (propose_overlap_spec p n s l1' f l2 Hw Hge ltac:(done) ltac:(done))
    as (s' & -> & He & [(Hc & Hr & Hl) | (l' & Hw' & Hoff & Hcnt)]).
  { rewrite Hr, Hl. cbn. eauto 10. }
  rewrite (wk_ret _ _ _ _ _ Hw'). cbn [Z.eqb andb]. destruct (0 <? ps_data_length s').
  - destruct (IH s' l' (f :: l2) Hw') as (s2 & -> & ? & ? & ?).
    2: { exists s2. split_and!; try done. by eapply extends_trans. }
    rewrite Hcnt. rewrite count_ahead_app in Hf. unfold count_ahead at 2 in Hf. cbn in Hf.
    unfold ahead at 1 in Hf. destruct (Z.ltb_spec (pp_offset p) (cf_offset f)); [| lia].
    cbn in Hf. lia.
  - exists s'. split_and!; [done | apply Hw' | apply Hw' | done].
Qed.

(** Proposing a fragment of the media. *)
Definition proposal_of (f : fragment) : proposal := {|
  pp_data := f_data f; pp_group_id := f_group f; pp_object_id := f_object f;
  pp_offset := f_offset f; pp_queue_delay := f_delay f; pp_flags := f_flags f;
  pp_object_length := f_object_length f; pp_current_time := f_time f |}.
Definition propose_f c (f : fragment) : option (quicrq_fragment_cache_t * Z * bool) :=
  quicrq_fragment_propose_to_cache c (f_data f) (f_group f) (f_object f) (f_offset f) (f_delay f)
    (f_flags f) (f_nb_previous f) (f_object_length f) (f_data_length f) (f_time f).

Lemma consistent_genuine f : consistent m f -> genuine m (proposal_of f) (f_data_length f).
Proof. intros [Cg [Co _] Cl Cr Cd _]. by split. Qed.

(** The last node of an object: the search key is above all its offsets. *)
Lemma find_last c g o : cache_ok c -> is_id g -> is_id o ->
  exists l1 l2, splay_nodes (fc_fragment_tree c) = l1 ++ l2 /\
    splay_find_previous (fc_fragment_tree c) (fragment_key g o UINT64_MAX) = last l1 /\
    Forall (fun x => is_object g o x = false) l2 /\
    Forall (fun x => cf_group_id x < g \/ (cf_group_id x = g /\ cf_object_id x <= o)) l1.
Proof.
  intros Hc Hg Ho. pose proof (so_sorted _ (co_store _ Hc)) as Hs.
  assert (fkey_ok (fragment_key g o UINT64_MAX)) as Hk.
  { unfold fkey_ok, is_key, is_id in *. cbn. u64_lia. }
  assert (forall x, x ∈ splay_nodes (fc_fragment_tree c) ->
    fkey_ok x /\ cf_offset x < UINT64_MAX) as Hx.
  { intros x Hx. pose proof (cache_node c x Hc Hx) as Hp.
    split; [by eapply piece_key |]. destruct (piece_end m x Hp). destruct Hp. u64_lia. }
  rewrite (splay_find_previous_eq fkey_ok); [| apply fragment_order | done | done |].
  2: { apply Forall_forall. intros x Hin. destruct (Hx x Hin) as [Hxk Hxo].
       rewrite fragment_compare_eq by done. cbn. lia. }
  destruct (ordered_find_previous_split quicrq_fragment_cache_node_compare fkey_ok
    (fragment_key g o UINT64_MAX) (splay_nodes (fc_fragment_tree c)))
    as (l1 & l2 & E & El & Hl1 & Hl2); [apply fragment_order | done | apply Hs | apply Hs |].
  exists l1, l2. split_and!; [done | done | |].
  2: { apply Forall_forall. intros x Hin. destruct (Hx x) as [Hxk Hxo].
       { rewrite E. apply elem_of_app. by left. }
       eapply Forall_forall in Hin; [| exact Hl1]. cbn in Hin.
       pose proof (fragment_compare_lt (fragment_key g o UINT64_MAX) x Hk Hxk) as Hlt.
       cbn in Hlt. lia. }
  apply Forall_forall. intros x Hin.
  apply not_true_iff_false. rewrite is_object_spec. intros [? ?].
  destruct (Hx x) as [Hxk Hxo]; [rewrite E; apply elem_of_app; by right |].
  eapply Forall_forall in Hin; [| exact Hl2]. cbn in Hin.
  apply fragment_compare_lt in Hin; [cbn in Hin; lia | done | done].
Qed.

Lemma contiguous_total c g o : cache_ok c -> forall fuel node l1 l2,
  splay_nodes (fc_fragment_tree c) = l1 ++ node :: l2 -> (length l1 < fuel)%nat ->
  exists b, contiguous_loop fuel c g o node = Some b.
Proof.
  intros Hc. induction fuel as [| fuel IH]; intros node l1 l2 E Hf; [lia |]. cbn [contiguous_loop].
  destruct (0 <? cf_offset node); [| eauto].
  rewrite (splay_previous_eq _ _ _ _ E) by apply (so_sorted _ (co_store _ Hc)).
  destruct (last l1) as [f |] eqn:El; [| eauto]. apply last_Some in El as [l ->].
  destruct (_ || _); [eauto |]. rewrite length_app in Hf. cbn in Hf.
  apply (IH f l (node :: l2)); [| lia]. by rewrite E, <- (assoc_L (++)).
Qed.

Lemma count_ahead_length p l : (count_ahead p l <= length l)%nat.
Proof. apply filter_length_le. Qed.

(** Integrity and termination. *)
Lemma propose_f_spec c f : cache_ok c -> consistent m f ->
  exists c' wake, propose_f c f = Some (c', 0, wake) /\ cache_ok c' /\
    extends (proposal_of f) (f_data_length f) c c'.
Proof.
  intros Hc Hf. unfold propose_f, quicrq_fragment_propose_to_cache.
  destruct (pair_ltb _ _ _ _). { exists c, false. split_and!; [done | done | apply extends_refl]. }
  pose proof (consistent_genuine f Hf) as Hge. pose proof Hge as [Hg Ho _ Hr _]. cbn in Hg, Ho, Hr.
  destruct (find_last c (f_group f) (f_object f) Hc Hg Ho) as (l1 & l2 & E & -> & _ & _).
  fold (proposal_of f).
  edestruct (propose_loop_spec (proposal_of f) (f_data_length f) Hge (tree_fuel c)
    {| ps_cache := c; ps_ret := 0; ps_node := last l1; ps_nb := f_nb_previous f;
       ps_data_length := f_data_length f; ps_added := false |} l1 l2)
    as (s' & -> & Hc' & Hret & Hext).
  { split; try done. cbn. lia. }
  { unfold tree_fuel. rewrite E, length_app. pose proof (count_ahead_length (proposal_of f) l1). lia. }
  rewrite Hret. cbn [Z.eqb andb]. cbn [ps_cache] in Hext.
  destruct (ps_added s'); [| eauto].
  destruct (find_last _ (f_group f) (f_object f) Hc' Hg Ho) as (k1 & k2 & E' & -> & _ & _).
  destruct (last k1) as [la |] eqn:El; [| eauto]. apply last_Some in El as [k ->].
  destruct (_ <=? _); [| eauto].
  destruct (contiguous_total _ (f_group f) (f_object f) Hc' (tree_fuel (ps_cache s')) la k k2)
    as ([] & ->).
  - by rewrite E', <- (assoc_L (++)).
  - unfold tree_fuel. rewrite E', !length_app. lia.
  - eexists _, _. split; [done |]. split; [| done]. destruct Hc' as [[] ?]. split; [by split | done].
  - eauto.
Qed.
End integrity.

(** ** Coverage and disjointness *)

Section coverage.
Context `{SL : SplayLaws quicrq_cached_fragment_t quicrq_fragment_cache_node_compare}.
Context {Al : Allocator} (alloc_ok : forall n, malloc_ok n = true).
Context (m : media).

Definition frag_key (f : quicrq_cached_fragment_t) : Z * Z := (cf_group_id f, cf_object_id f).

(** Byte [i] of object [k] is in the cache. *)
Definition cached (c : quicrq_fragment_cache_t) (k : Z * Z) (i : Z) : Prop :=
  Exists (fun f => frag_key f = k /\ cf_offset f <= i < cf_offset f + cf_data_length f)
    (fc_fragments c).

(** The fragments of an object are disjoint, and empty only if it is. *)
Record tidy (c : quicrq_fragment_cache_t) : Prop := {
  td_cache : cache_ok m c;
  td_ordered : ordered quicrq_fragment_cache_node_compare (splay_nodes (fc_fragment_tree c));
  td_disjoint : forall f f', f ∈ fc_fragments c -> f' ∈ fc_fragments c ->
    frag_key f = frag_key f' -> cf_offset f < cf_offset f' ->
    cf_offset f + cf_data_length f <= cf_offset f';
  td_nonempty : forall f, f ∈ fc_fragments c ->
    0 < cf_data_length f \/ blen (content m (frag_key f)) = 0;
  td_nb : forall f, f ∈ fc_fragments c -> 0 < cf_group_id f -> cf_object_id f = 0 ->
    cf_offset f = 0 ->
    cf_nb_objects_previous_group f = count m (cf_group_id f - 1);
}.

Lemma tidy_deref c f : tidy c -> f ∈ fc_fragments c -> deref_fragment c f = Some f.
Proof. intros Ht. apply deref_fragment_in, Ht. Qed.

(** The proposal does not extend past the end of a fragment that it overlaps. *)
Record clean (c : quicrq_fragment_cache_t) (p : proposal) (nb n : Z) : Prop := {
  cl_genuine : genuine m p n;
  cl_ends : forall x, x ∈ fc_fragments c -> frag_key x = (pp_group_id p, pp_object_id p) ->
    ~ (pp_offset p < cf_offset x + cf_data_length x < pp_offset p + n);
  cl_nonempty : 0 < n \/ blen (content m (pp_group_id p, pp_object_id p)) = 0;
  cl_nb : 0 < pp_group_id p -> pp_object_id p = 0 -> pp_offset p = 0 -> nb = count m (pp_group_id p - 1);
}.

(** The room for a new fragment. *)
Definition free_range (c : quicrq_fragment_cache_t) (p : proposal) (len : Z) : Prop :=
  forall x, x ∈ fc_fragments c -> frag_key x = (pp_group_id p, pp_object_id p) ->
    (cf_offset x + cf_data_length x <= pp_offset p /\ cf_offset x < pp_offset p) \/
    (pp_offset p + len <= cf_offset x /\ pp_offset p < cf_offset x).

Lemma is_object_key p x : is_object (pp_group_id p) (pp_object_id p) x = true <->
  frag_key x = (pp_group_id p, pp_object_id p).
Proof. rewrite is_object_spec. unfold frag_key. split; [by intros [-> ->] | by intros [= -> ->]]. Qed.

Lemma add_tidy c p nb n len :
  tidy c -> clean c p nb n -> 0 <= len <= n -> 0 < len \/ n = 0 -> free_range c p len ->
  exists c', add_proposal c p nb len = Some (c', 0) /\ tidy c' /\
    fc_fragments c' = fc_fragments c ++ [proposed c p nb len].
Proof.
  intros [Hc Hord Hdis Hne Hnb] [Hge _ Hcne Hcnb] Hlen Hpos Hfree.
  destruct (add_cache_ok alloc_ok m c p n nb len Hc Hge Hlen) as (c' & -> & Hc' & Ef & En).
  exists c'. split_and!; try done.
  pose proof (proposed_piece m c p n nb len Hge Hlen) as Hp. split; [done | | | |].
  - rewrite En. pose proof (so_sorted _ (co_store _ _ Hc)) as (Hks & _ & _).
    apply (ordered_insert_ordered _ fkey_ok); [by eapply piece_key | done | done |].
    apply ordered_find_None, Forall_forall. intros x Hx E.
    rewrite fragment_compare_eq in E; [| by eapply piece_key | by eapply Forall_forall in Hx].
    cbn in E. destruct E as (Eg & Eo & Eoff).
    destruct (Hfree x) as [[_ H] | [_ H]]; [| | lia | lia].
    + by apply (so_same _ (co_store _ _ Hc)).
    + unfold frag_key. congruence.
  - intros f f'. rewrite Ef, !elem_of_app, !list_elem_of_singleton.
    intros [Hf | ->] [Hf' | ->] Hk Hlt; [by apply Hdis | | | lia].
    + destruct (Hfree f Hf Hk) as [[H _] | [_ H]]; cbn in *; lia.
    + destruct (Hfree f' Hf' (eq_sym Hk)) as [[_ H] | [H _]]; cbn in *; lia.
  - intros f. rewrite Ef, elem_of_app, list_elem_of_singleton.
    intros [Hf | ->]; [by apply Hne |]. cbn. unfold frag_key. cbn.
    destruct Hpos as [? | ->]; [by left | by right; destruct Hcne; [lia |]].
  - intros f. rewrite Ef, elem_of_app, list_elem_of_singleton.
    intros [Hf | ->]; [by apply Hnb | by apply Hcnb].
Qed.

(** What the loop does for a clean proposal. *)
Definition clean_result c p nb n (s : propose_state) : Prop :=
  ps_ret s = 0 /\ tidy (ps_cache s) /\
  ((ps_cache s = c /\ ps_added s = false /\
    forall i, pp_offset p <= i < pp_offset p + n -> cached c (pp_group_id p, pp_object_id p) i) \/
   (exists len, add_proposal c p nb len = Some (ps_cache s, 0) /\
      fc_fragments (ps_cache s) = fc_fragments c ++ [proposed c p nb len] /\
      0 <= len <= n /\ ps_added s = true /\
      forall i, pp_offset p + len <= i < pp_offset p + n ->
        cached c (pp_group_id p, pp_object_id p) i)).

Record clean_walk c p nb n (s : propose_state) l1 l2 : Prop := {
  cw_cache : ps_cache s = c;
  cw_ret : ps_ret s = 0;
  cw_nb : ps_nb s = nb;
  cw_added : ps_added s = false;
  cw_length : 0 <= ps_data_length s <= n;
  cw_positive : 0 < ps_data_length s \/ n = 0;
  cw_nodes : splay_nodes (fc_fragment_tree c) = l1 ++ l2;
  cw_node : ps_node s = last l1;
  cw_left : Forall (fun x => cf_group_id x < pp_group_id p \/
    (cf_group_id x = pp_group_id p /\ cf_object_id x <= pp_object_id p)) l1;
  cw_right : forall x, x ∈ l2 -> frag_key x = (pp_group_id p, pp_object_id p) ->
    pp_offset p + ps_data_length s <= cf_offset x /\ pp_offset p < cf_offset x;
  cw_covered : forall i, pp_offset p + ps_data_length s <= i < pp_offset p + n ->
    cached c (pp_group_id p, pp_object_id p) i;
}.

Lemma clean_add c p nb n s l1 l2 :
  tidy c -> clean c p nb n -> clean_walk c p nb n s l1 l2 -> free_range c p (ps_data_length s) ->
  exists c', add_proposal (ps_cache s) p (ps_nb s) (ps_data_length s) = Some (c', 0) /\
    forall node nb', clean_result c p nb n
      {| ps_cache := c'; ps_ret := 0; ps_node := node; ps_nb := nb'; ps_data_length := 0;
         ps_added := true |}.
Proof.
  intros Ht Hcl Hw Hfree.
  destruct (add_tidy c p nb n (ps_data_length s) Ht Hcl) as (c' & Ea & Ht' & Ef);
    [apply Hw | apply Hw | done |].
  exists c'. rewrite (cw_cache _ _ _ _ _ _ _ Hw), (cw_nb _ _ _ _ _ _ _ Hw). split; [done |].
  intros node nb'. split; [done |]. split; [done |]. right. exists (ps_data_length s).
  split_and!; try done; apply Hw.
Qed.

(** The nodes on the left of [f], or [f] itself, leave room for the proposal. *)
Lemma left_free c p nb n s l1 l2 :
  tidy c -> clean_walk c p nb n s l1 l2 ->
  match last l1 with
  | Some f => frag_key f = (pp_group_id p, pp_object_id p) ->
      cf_offset f + cf_data_length f <= pp_offset p /\ cf_offset f < pp_offset p
  | None => True
  end -> free_range c p (ps_data_length s).
Proof.
  intros [Hc Hord Hdis Hne Hnb] Hw Hlast x Hx Hk.
  pose proof (so_same _ (co_store _ _ Hc)) as Hsame.
  pose proof Hx as Hxn. rewrite Hsame, (cw_nodes _ _ _ _ _ _ _ Hw) in Hxn.
  apply elem_of_app in Hxn as [Hxl | Hxr]; [left | right; by apply (cw_right _ _ _ _ _ _ _ Hw)].
  destruct (last l1) as [f |] eqn:El; [| by apply last_None in El as ->; apply not_elem_of_nil in Hxl].
  apply last_Some in El as [l ->].
  assert (f ∈ splay_nodes (fc_fragment_tree c)) as Hfn.
  { rewrite (cw_nodes _ _ _ _ _ _ _ Hw), !elem_of_app. left. right. by left. }
  apply elem_of_app in Hxl as [Hxl | ->%list_elem_of_singleton]; [| by apply Hlast].
  assert (quicrq_fragment_cache_node_compare x f < 0) as Hlt.
  { pose proof (cw_nodes _ _ _ _ _ _ _ Hw) as En. rewrite En, <- (assoc_L (++)) in Hord.
    unfold ordered in Hord. apply StronglySorted_app in Hord as (Hx' & _ & _).
    apply Hx'; [done | by left]. }
  assert (piece m x /\ piece m f) as [Px Pf].
  { split; eapply cache_node; try exact Hc; [by apply Hsame | done]. }
  apply fragment_compare_lt in Hlt; [| by eapply piece_key | by eapply piece_key].
  pose proof (cw_left _ _ _ _ _ _ _ Hw) as Hleft.
  apply Forall_app in Hleft as [_ [Hleft _]%Forall_cons].
  unfold frag_key in Hk. injection Hk as Eg Eo.
  assert (frag_key f = frag_key x) as Efx by (unfold frag_key; f_equal; lia).
  specialize (Hdis x f Hx (proj2 (Hsame f) Hfn) (eq_sym Efx)).
  assert (cf_offset x < cf_offset f) as Ho by (unfold frag_key in Efx; injection Efx; lia).
  specialize (Hdis Ho). unfold frag_key in Efx, Hlast. rewrite Efx, Eg, Eo in Hlast.
  specialize (Hlast eq_refl). pose proof (pc_range _ _ Pf). lia.
Qed.

Lemma walk_stop c p nb n s l1 l2 :
  tidy c -> clean_walk c p nb n s l1 l2 -> ps_data_length s = 0 -> clean_result c p nb n s.
Proof.
  intros Ht Hw E. pose proof (cw_covered _ _ _ _ _ _ _ Hw) as Hcov.
  rewrite E, Z.add_0_r in Hcov. split; [apply Hw |]. rewrite (cw_cache _ _ _ _ _ _ _ Hw).
  split; [done |]. left. split_and!; try done. apply Hw.
Qed.

(** A node that starts inside the rest of the proposal, and covers its end: the
    walk goes on before it. *)
Lemma clean_walk_previous c p nb n s l f l2 :
  tidy c -> clean c p nb n -> clean_walk c p nb n s (l ++ [f]) l2 -> f ∈ fc_fragments c ->
  frag_key f = (pp_group_id p, pp_object_id p) -> pp_offset p < cf_offset f -> 0 <= cf_data_length f ->
  cf_offset f + cf_data_length f < two62 -> pp_offset p + ps_data_length s <= cf_offset f + cf_data_length f ->
  clean_walk c p nb n {| ps_cache := ps_cache s; ps_ret := ps_ret s;
    ps_node := splay_previous (fc_fragment_tree (ps_cache s)) f; ps_nb := ps_nb s;
    ps_data_length := if cf_offset f <? pp_offset p +64 ps_data_length s
                      then cf_offset f -64 pp_offset p else ps_data_length s;
    ps_added := ps_added s |} l (f :: l2).
Proof.
  intros Ht Hcl Hw Hf Hobj Hgt F2 Hb Hend.
  assert (forall i, cf_offset f <= i < cf_offset f + cf_data_length f ->
    cached c (pp_group_id p, pp_object_id p) i) as Hcf.
  { intros i Hi. apply Exists_exists. by exists f. }
  pose proof (ge_range _ _ _ (cl_genuine _ _ _ _ Hcl)) as Hgr. pose proof (cw_length _ _ _ _ _ _ _ Hw) as Hl.
  rewrite (u64_small (cf_offset f - pp_offset p)), (u64_small (pp_offset p + ps_data_length s)) by u64_lia.
  pose proof (cw_nodes _ _ _ _ _ _ _ Hw) as En. rewrite <- (assoc_L (++)) in En. cbn in En.
  pose proof (cw_positive _ _ _ _ _ _ _ Hw).
  destruct (Z.ltb_spec (cf_offset f) (pp_offset p + ps_data_length s));
    (split; cbn [ps_cache ps_ret ps_node ps_nb ps_data_length ps_added];
     try apply Hw; try lia; try done).
  all: try (rewrite (cw_cache _ _ _ _ _ _ _ Hw); apply (splay_previous_eq _ _ _ l2);
    [done | apply (so_sorted _ (co_store _ _ (td_cache _ Ht)))]).
  all: try (pose proof (cw_left _ _ _ _ _ _ _ Hw) as Hleft; by apply Forall_app in Hleft as [? _]).
  all: try (intros x [-> | Hx]%elem_of_cons Hk; [lia |];
    destruct (cw_right _ _ _ _ _ _ _ Hw x Hx Hk); lia).
  all: intros i Hi; destruct (Z.lt_ge_cases i (pp_offset p + ps_data_length s));
    [apply Hcf; lia | apply (cw_covered _ _ _ _ _ _ _ Hw); lia].
Qed.

Lemma clean_step c p nb n s l1 l2 :
  tidy c -> clean c p nb n -> clean_walk c p nb n s l1 l2 ->
  exists s', propose_step p s = Some s' /\
    ((ps_data_length s' = 0 /\ clean_result c p nb n s') \/
     (exists l f, l1 = l ++ [f] /\ clean_walk c p nb n s' l (f :: l2) /\ ahead p f = true)).
Proof.
  intros Ht Hcl Hw. pose proof (left_free c p nb n s l1 l2 Ht Hw) as Hfree.
  pose proof (clean_add c p nb n s l1 l2 Ht Hcl Hw) as Hadd.
  unfold propose_step. rewrite (cw_node _ _ _ _ _ _ _ Hw). unfold propose_whole.
  destruct (last l1) as [f |] eqn:El.
  2: { destruct (Hadd (Hfree I)) as (c' & -> & Hres). eexists. split; [done |]. left. by split. }
  apply last_Some in El as [l ->].
  assert (f ∈ fc_fragments c) as Hf.
  { apply (so_same _ (co_store _ _ (td_cache _ Ht))).
    rewrite (cw_nodes _ _ _ _ _ _ _ Hw), !elem_of_app. left. right. by left. }
  assert (piece m f) as Pf.
  { pose proof (co_pieces _ _ (td_cache _ Ht)) as Hp. by eapply Forall_forall in Hf; [| exact Hp]. }
  destruct (piece_end m f Pf) as [Ee Hb]. rewrite Ee. pose proof (pc_range _ _ Pf) as (F1 & F2 & _).
  destruct (negb _ || _) eqn:Ecase.
  { destruct Hadd as (c' & -> & Hres); [| eexists; split; [done |]; left; by split].
    apply Hfree. intros Hk. apply is_object_key in Hk. rewrite Hk in Ecase. cbn in Ecase. b2p. lia. }
  apply orb_false_elim in Ecase as [Hobj%negb_false_iff Hend%Z.ltb_ge].
  apply is_object_key in Hobj. unfold propose_overlap. rewrite Ee.
  pose proof (ge_range _ _ _ (cl_genuine _ _ _ _ Hcl)) as Hgr.
  pose proof (content_range m (pp_group_id p, pp_object_id p)).
  pose proof (cw_length _ _ _ _ _ _ _ Hw) as Hl.
  rewrite (u64_small (pp_offset p + ps_data_length s)) by u64_lia.
  destruct (Z.ltb_spec (cf_offset f + cf_data_length f) (pp_offset p + ps_data_length s)) as [Hlt |].
  - (* only contiguous *)
    assert (cf_offset f + cf_data_length f = pp_offset p) as E.
    { pose proof (cl_ends _ _ _ _ Hcl f Hf Hobj). lia. }
    assert (cf_offset f < pp_offset p) as Ho.
    { destruct (td_nonempty _ Ht f Hf) as [? | Hz]; [lia |]. rewrite Hobj in Hz. lia. }
    rewrite E, u64_small by u64_lia. replace (_ - _) with (ps_data_length s) by lia.
    destruct Hadd as (c' & -> & Hres).
    { apply Hfree. intros _. lia. }
    cbn. destruct (Z.leb_spec (cf_offset f) (pp_offset p)); [| lia].
    eexists. split; [done |]. left. by split.
  - eexists. split; [done |].
    assert (forall i, cf_offset f <= i < cf_offset f + cf_data_length f ->
      cached c (pp_group_id p, pp_object_id p) i) as Hcf.
    { intros i Hi. apply Exists_exists. by exists f. }
    destruct (Z.leb_spec (cf_offset f) (pp_offset p)) as [Hle | Hgt].
    + left. split; [done |]. split; [apply Hw |]. cbn. rewrite (cw_cache _ _ _ _ _ _ _ Hw).
      split; [done |]. left. split; [done |]. split; [apply Hw |]. intros i Hi.
      destruct (Z.lt_ge_cases i (pp_offset p + ps_data_length s)); [apply Hcf; lia |].
      apply (cw_covered _ _ _ _ _ _ _ Hw). lia.
    + right. exists l, f. split; [done |]. split; [| apply Z.ltb_lt; lia].
      by apply clean_walk_previous.
Qed.

Lemma clean_loop c p nb n : tidy c -> clean c p nb n -> forall fuel s l1 l2,
  clean_walk c p nb n s l1 l2 -> (count_ahead p l1 < fuel)%nat ->
  exists s', propose_loop fuel p s = Some s' /\ clean_result c p nb n s'.
Proof.
  intros Ht Hcl. induction fuel as [| fuel IH]; intros s l1 l2 Hw Hf; [lia |]. cbn [propose_loop].
  destruct (clean_step c p nb n s l1 l2 Ht Hcl Hw)
    as (s' & -> & [[E Hres] | (l & f & -> & Hw' & Ha)]).
  - rewrite E. rewrite andb_false_r. eauto.
  - rewrite (cw_ret _ _ _ _ _ _ _ Hw'). cbn [Z.eqb andb].
    destruct (Z.ltb_spec 0 (ps_data_length s')).
    + apply (IH s' l (f :: l2) Hw'). rewrite count_ahead_app in Hf.
      unfold count_ahead at 2 in Hf. cbn in Hf. rewrite Ha in Hf. cbn in Hf. lia.
    + exists s'. split; [done |]. eapply walk_stop; [done | exact Hw' |].
      pose proof (cw_length _ _ _ _ _ _ _ Hw'). lia.
Qed.

(** The caches that differ by statistics only. *)
Lemma tidy_received c n : tidy c -> tidy (fc_set_received c n).
Proof.
  intros [[Hs Hp] ? ? ? ?]. split; try done. split; [destruct Hs; by split | done].
Qed.

(** The fragment is recent enough, and clean for the cache. *)
Record acceptable c (f : fragment) : Prop := {
  ac_consistent : consistent m f;
  ac_recent : pair_ltb (f_group f) (f_object f) (fc_first_group_id c) (fc_first_object_id c) = false;
  ac_ends : forall x, x ∈ fc_fragments c -> frag_key x = f_key f ->
    ~ (f_offset f < cf_offset x + cf_data_length x < f_offset f + f_data_length f);
  ac_nonempty : 0 < f_data_length f \/ blen (content m (f_key f)) = 0;
}.

Lemma acceptable_clean c f : acceptable c f ->
  clean c (proposal_of f) (f_nb_previous f) (f_data_length f).
Proof.
  intros [Hc _ He Hn]. split; [by apply consistent_genuine | done | done |]. apply Hc.
Qed.

(** The bytes cached after a clean proposal. *)
Lemma clean_cached c f s :
  clean_result c (proposal_of f) (f_nb_previous f) (f_data_length f) s ->
  forall k i, cached (ps_cache s) k i <->
    cached c k i \/ (k = f_key f /\ f_offset f <= i < f_offset f + f_data_length f).
Proof.
  intros (_ & _ & [(-> & _ & Hcov) | (len & _ & Ef & Hlen & _ & Hcov)]) k i.
  - split; [by left |]. intros [? | [-> Hi]]; [done | by apply Hcov].
  - unfold cached at 1. rewrite Ef, Exists_app, Exists_cons, Exists_nil. fold (cached c k i).
    unfold frag_key at 1. cbn. cbn in Hcov. split.
    + intros [? | [[<- Hi] | []]]; [by left | right]. split; [done | lia].
    + intros [? | [-> Hi]]; [by left |].
      destruct (Z.lt_ge_cases i (f_offset f + len)); [right; left; split; [done | lia] | left].
      apply Hcov. lia.
Qed.

Lemma propose_f_clean c f : tidy c -> acceptable c f ->
  exists c' wake s, propose_f c f = Some (c', 0, wake) /\ tidy c' /\
    clean_result c (proposal_of f) (f_nb_previous f) (f_data_length f) s /\
    (c' = ps_cache s \/ c' = fc_set_received (ps_cache s) (fc_nb_object_received (ps_cache s) +64 1)).
Proof.
  intros Ht Hac. pose proof Hac as [Hf Hrec _ _].
  unfold propose_f, quicrq_fragment_propose_to_cache. rewrite Hrec.
  pose proof (acceptable_clean c f Hac) as Hcl.
  pose proof (cl_genuine _ _ _ _ Hcl) as [Hg Ho _ Hr _]. cbn in Hg, Ho, Hr.
  destruct (find_last m c (f_group f) (f_object f) (td_cache _ Ht) Hg Ho)
    as (l1 & l2 & E & -> & Hl2 & Hl1).
  fold (proposal_of f).
  edestruct (clean_loop c (proposal_of f) (f_nb_previous f) (f_data_length f) Ht Hcl (tree_fuel c)
    {| ps_cache := c; ps_ret := 0; ps_node := last l1; ps_nb := f_nb_previous f;
       ps_data_length := f_data_length f; ps_added := false |} l1 l2)
    as (s' & -> & Hres).
  { split; try done; cbn; try lia.
    intros x Hx Hk. eapply Forall_forall in Hx; [| exact Hl2]. cbn in Hx.
    apply (is_object_key (proposal_of f)) in Hk. cbn in Hk. congruence. }
  { unfold tree_fuel. rewrite E, length_app. pose proof (count_ahead_length (proposal_of f) l1). lia. }
  pose proof Hres as (-> & Ht' & _).
  cbn [Z.eqb andb]. destruct (ps_added s'); [| eauto 10].
  destruct (find_last m _ (f_group f) (f_object f) (td_cache _ Ht') Hg Ho)
    as (k1 & k2 & E' & -> & _ & _).
  destruct (last k1) as [la |] eqn:El; [| eauto 10]. apply last_Some in El as [k ->].
  destruct (_ <=? _); [| eauto 10].
  destruct (contiguous_total m _ (f_group f) (f_object f) (td_cache _ Ht')
    (tree_fuel (ps_cache s')) la k k2) as ([] & ->).
  - by rewrite E', <- (assoc_L (++)).
  - unfold tree_fuel. rewrite E', !length_app. lia.
  - eexists _, _, _. split; [done |]. split; [by apply tidy_received |]. split; [exact Hres | by right].
  - eauto 10.
Qed.

Lemma tidy_init : tidy quicrq_fragment_cache_create_ctx.
Proof.
  split.
  - split; [apply store_ok_init | constructor].
  - cbn. rewrite splay_nodes_empty. constructor.
  - intros f f' Hf. by apply not_elem_of_nil in Hf.
  - intros f Hf. by apply not_elem_of_nil in Hf.
  - intros f Hf. by apply not_elem_of_nil in Hf.
Qed.
End coverage.
