(* ===== verification/FragmentReads.v ===== *)
(** * Reading objects from the fragment cache

    The lookups by (group, object, offset), and the two functions that walk
    the fragments of an object in order. *)

From S2P Require Import Prelude Picosplay Media Fragment FragmentProofs.

Section reads.
Context `{SL : SplayLaws quicrq_cached_fragment_t quicrq_fragment_cache_node_compare}.
Context (m : media).

Lemma tidy_piece c f : tidy m c -> f ∈ fc_fragments c -> piece m f.
Proof.
  intros Ht Hf. pose proof (co_pieces _ _ (td_cache _ _ Ht)) as Hp.
  by eapply Forall_forall in Hf; [| exact Hp].
Qed.

Lemma tidy_node c f : tidy m c -> f ∈ splay_nodes (fc_fragment_tree c) <-> f ∈ fc_fragments c.
Proof. intros Ht. symmetry. apply (so_same _ (co_store _ _ (td_cache _ _ Ht))). Qed.

Lemma tidy_wf c : tidy m c -> splay_wf fkey_ok (fc_fragment_tree c).
Proof.
  intros Ht. split; [apply (so_sorted _ (co_store _ _ (td_cache _ _ Ht))) | by apply td_ordered in Ht].
Qed.

(** A lookup finds the fragment at that offset, if there is one. *)
Lemma get_fragment_key c g o off f :
  tidy m c -> is_key g -> is_key o ->
  quicrq_fragment_cache_get_fragment c g o off = Some f <->
  f ∈ fc_fragments c /\ frag_key f = (g, o) /\ cf_offset f = off.
Proof.
  intros Ht Hg Ho. unfold quicrq_fragment_cache_get_fragment.
  rewrite (splay_find_iff fkey_ok) by (done || by apply tidy_wf).
  rewrite tidy_node by done. split; intros [Hf H]; (split; [done |]).
  - apply fragment_compare_eq in H; [| done | by eapply piece_key, tidy_piece].
    cbn in H. unfold frag_key. destruct H as (-> & -> & ->). done.
  - apply fragment_compare_eq; [done | by eapply piece_key, tidy_piece |].
    cbn. unfold frag_key in H. destruct H as [[= -> ->] ->]. done.
Qed.

Lemma get_fragment_spec c g o off f :
  tidy m c -> is_id g -> is_id o ->
  quicrq_fragment_cache_get_fragment c g o off = Some f <->
  f ∈ fc_fragments c /\ frag_key f = (g, o) /\ cf_offset f = off.
Proof. intros. apply get_fragment_key; [done |..]; unfold is_key, is_id in *; u64_lia. Qed.

Lemma get_fragment_none c g o off :
  tidy m c -> is_id g -> is_id o -> quicrq_fragment_cache_get_fragment c g o off = None ->
  forall f, f ∈ fc_fragments c -> frag_key f = (g, o) -> cf_offset f <> off.
Proof.
  intros Ht Hg Ho Hn f Hf Hk E. by rewrite (proj2 (get_fragment_spec c g o off f Ht Hg Ho)) in Hn.
Qed.

(** Fragments of an object at the same offset are the same. *)
Lemma tidy_offset_unique c f f' : tidy m c -> f ∈ fc_fragments c -> f' ∈ fc_fragments c ->
  frag_key f = frag_key f' -> cf_offset f = cf_offset f' -> f = f'.
Proof.
  intros Ht Hf Hf' Hk Ho. destruct (tidy_piece c f Ht Hf) as [Hg Hob _ _ _].
  assert (quicrq_fragment_cache_get_fragment c (cf_group_id f) (cf_object_id f) (cf_offset f)
    = Some f) as E1 by by apply get_fragment_spec.
  assert (quicrq_fragment_cache_get_fragment c (cf_group_id f) (cf_object_id f) (cf_offset f)
    = Some f') as E2 by by apply get_fragment_spec.
  congruence.
Qed.

Lemma ordered_split_lt c l1 x l2 y :
  tidy m c -> splay_nodes (fc_fragment_tree c) = l1 ++ x :: l2 -> y ∈ l2 ->
  quicrq_fragment_cache_node_compare x y < 0.
Proof.
  intros Ht E Hy. pose proof (td_ordered _ _ Ht) as Hord. unfold ordered in Hord. rewrite E in Hord.
  apply StronglySorted_app in Hord as (_ & _ & [Hx _]%StronglySorted_cons).
  by eapply Forall_forall in Hy; [| exact Hx].
Qed.

(** The byte after a fragment is in the next node of the tree. *)
Lemma next_fragment c l1 f l2 :
  tidy m c -> splay_nodes (fc_fragment_tree c) = l1 ++ f :: l2 ->
  cached c (frag_key f) (cf_offset f + cf_data_length f) ->
  exists x l, l2 = x :: l /\ frag_key x = frag_key f /\
    cf_offset x = cf_offset f + cf_data_length f.
Proof.
  intros Ht E Hc. apply Exists_exists in Hc as (x & Hx & Hkx & Hr).
  assert (forall y, y ∈ l1 ++ f :: l2 -> y ∈ fc_fragments c /\ fkey_ok y) as Hin.
  { intros y Hy. rewrite <- E in Hy. apply tidy_node in Hy; [| done].
    split; [done |]. by eapply piece_key, tidy_piece. }
  assert (f ∈ fc_fragments c /\ fkey_ok f) as [Hf Fk].
  { apply Hin, elem_of_app. right. by left. }
  pose proof (pc_range _ _ (tidy_piece c f Ht Hf)) as Hfr.
  (* x is after f *)
  assert (cf_offset f < cf_offset x) as Hlt.
  { destruct (Z.lt_trichotomy (cf_offset f) (cf_offset x)) as [? | [Ho | Ho]]; [done | |].
    - assert (f = x) as <- by by apply (tidy_offset_unique c). lia.
    - pose proof (td_disjoint _ _ Ht x f Hx Hf Hkx Ho). lia. }
  pose proof (td_disjoint _ _ Ht f x Hf Hx (eq_sym Hkx) Hlt) as Hd.
  assert (cf_offset x = cf_offset f + cf_data_length f) as Eo by lia.
  assert (x ∈ l2) as Hx2.
  { pose proof Hx as Hxn. rewrite <- (tidy_node c x Ht), E in Hxn.
    apply elem_of_app in Hxn as [Hx1 | [-> | ?]%elem_of_cons]; [| lia | done].
    pose proof (td_ordered _ _ Ht) as Hord. unfold ordered in Hord. rewrite E in Hord.
    apply StronglySorted_app in Hord as (Hxf & _ & _).
    assert (quicrq_fragment_cache_node_compare x f < 0) as Hc by (apply Hxf; [done | by left]).
    apply fragment_compare_lt in Hc; [| by eapply piece_key, tidy_piece | done].
    unfold frag_key in Hkx. injection Hkx as ? ?. lia. }
  destruct l2 as [| y l]; [by apply not_elem_of_nil in Hx2 |]. exists y, l. split; [done |].
  apply elem_of_cons in Hx2 as [<- | Hxl]; [done |].
  (* y between f and x *)
  destruct (Hin y) as [Hy Yk]; [apply elem_of_app; right; right; by left |].
  pose proof (ordered_split_lt c l1 f (y :: l) y Ht E ltac:(by left)) as Hfy.
  assert (quicrq_fragment_cache_node_compare y x < 0) as Hyx.
  { apply (ordered_split_lt c (l1 ++ [f]) y l x Ht); [| done]. by rewrite E, <- (assoc_L (++)). }
  apply fragment_compare_lt in Hfy; [| done | done].
  apply fragment_compare_lt in Hyx; [| done | by eapply piece_key, tidy_piece].
  unfold frag_key in Hkx. injection Hkx as Eg Eob.
  assert (frag_key f = frag_key y) as Ky by (unfold frag_key; f_equal; lia).
  pose proof (td_disjoint _ _ Ht f y Hf Hy Ky). lia.
Qed.

(** The walk is at offset [cur] of object [k], and [l2] is what is left. *)
Definition at_offset (k : Z * Z) (cur e : Z) (l2 : list quicrq_cached_fragment_t) : Prop :=
  cur < e -> exists f l, l2 = f :: l /\ frag_key f = k /\ cf_offset f = cur.

(** [e] is the end of the bytes of [k] in the cache from its beginning. *)
Definition available_until c (k : Z * Z) (e : Z) : Prop :=
  0 <= e /\ (forall i, 0 <= i < e -> cached c k i) /\ ~ cached c k e.

Lemma available_length c k e : tidy m c -> available_until c k e -> e <= blen (content m k).
Proof.
  intros Ht (He & Hall & _). destruct (Z.le_gt_cases e (blen (content m k))) as [? | Hgt]; [done |].
  pose proof (blen_nonneg (content m k)).
  specialize (Hall (blen (content m k)) ltac:(lia)). apply Exists_exists in Hall as (f & Hf & <- & Hr).
  pose proof (pc_range _ _ (tidy_piece c f Ht Hf)). unfold frag_key in Hr. lia.
Qed.

Lemma at_offset_next c k e l1 f l2 :
  tidy m c -> splay_nodes (fc_fragment_tree c) = l1 ++ f :: l2 -> frag_key f = k ->
  available_until c k e -> cf_offset f < e ->
  cf_offset f + cf_data_length f <= e /\ at_offset k (cf_offset f + cf_data_length f) e l2.
Proof.
  intros Ht E <- (He & Hall & Hne) Hlt.
  assert (f ∈ fc_fragments c) as Hf.
  { apply tidy_node; [done |]. rewrite E. apply elem_of_app. right. by left. }
  pose proof (pc_range _ _ (tidy_piece c f Ht Hf)) as Hr. split.
  - destruct (Z.le_gt_cases (cf_offset f + cf_data_length f) e) as [? | Hgt]; [done |].
    destruct Hne. apply Exists_exists. exists f. split; [done |]. split; [done | lia].
  - intros Hlt'. destruct (next_fragment c l1 f l2 Ht E) as (x & l & -> & Hk & Ho); [| eauto].
    apply Hall. lia.
Qed.

Lemma first_fragment c k e : tidy m c -> is_id k.1 -> is_id k.2 -> available_until c k e ->
  exists l1 l2, splay_nodes (fc_fragment_tree c) = l1 ++ l2 /\
    quicrq_fragment_cache_get_fragment c k.1 k.2 0 = head l2 /\ at_offset k 0 e l2.
Proof.
  intros Ht Hg Ho (He & Hall & Hne). destruct k as [g o]. cbn [fst snd] in *.
  destruct (quicrq_fragment_cache_get_fragment c g o 0) as [f |] eqn:Ef.
  - apply get_fragment_spec in Ef as (Hf & Hk & Hz); [| done | done | done].
    apply (tidy_node c f Ht) in Hf. apply list_elem_of_split in Hf as (l1 & l2 & E).
    exists l1, (f :: l2). split; [done |]. split; [done |]. intros _. eauto.
  - exists (splay_nodes (fc_fragment_tree c)), []. rewrite app_nil_r. split; [done |].
    split; [done |]. intros Hlt. exfalso. specialize (Hall 0 ltac:(lia)).
    apply Exists_exists in Hall as (f & Hf & Hk & Hr).
    eapply get_fragment_none in Ef; [| done | done | done | exact Hf | done].
    pose proof (pc_range _ _ (tidy_piece c f Ht Hf)). lia.
Qed.

(** The bytes read so far when the walk is at [cur]. *)
Definition read_length (offset available cur : Z) : Z := Z.min available (Z.max 0 (cur - offset)).

Lemma read_length_blen (c : list Z) offset available cur :
  0 <= offset -> 0 <= available -> cur <= blen c ->
  blen (slice c offset (read_length offset available cur)) = read_length offset available cur.
Proof.
  intros. unfold read_length. destruct (Z.le_gt_cases cur offset).
  - by rewrite Z.max_l, Z.min_r by lia.
  - apply blen_slice; lia.
Qed.

(** What one fragment adds to the buffer. *)
Lemma copied_chunk (c : list Z) offset available cur len :
  0 <= offset < two62 -> 0 <= available < two62 -> 0 <= cur -> 0 <= len ->
  cur + len <= blen c -> blen c < two62 -> read_length offset available cur < available ->
  let size := read_length offset available cur in
  let skipped := if cur <? offset then offset -64 cur else 0 in
  let copied := len -64 skipped in
  let copied := if available <? size +64 copied then available -64 size else copied in
  (if offset <? cur +64 len
   then slice c offset size ++ slice (slice c cur len) skipped copied
   else slice c offset size)
  = slice c offset (read_length offset available (cur + len)).
Proof.
  intros Hoff Hava Hcur Hlen Hend Hc Hlt size. cbn zeta.
  rewrite (u64_small (cur + len)) by u64_lia.
  destruct (Z.ltb_spec offset (cur + len)); [| f_equal; subst size; unfold read_length; lia].
  set (oo := if cur <? offset then offset -64 cur else 0).
  assert (oo = Z.max 0 (offset - cur)) as Eoo.
  { subst oo. destruct (Z.ltb_spec cur offset); [rewrite u64_small by u64_lia |]; lia. }
  rewrite (u64_small (len - oo)) by u64_lia.
  rewrite (u64_small (size + _)), (u64_small (available - _))
    by (subst size; unfold read_length in *; u64_lia).
  set (cp := if _ <? _ then _ else _).
  assert (cp = Z.min (len - oo) (available - size)) as Ecp.
  { subst cp. destruct (Z.ltb_spec available (size + (len - oo))); lia. }
  unfold slice at 2. rewrite zdrop_slice, ztake_slice by lia. subst size.
  destruct (Z.le_gt_cases cur offset).
  - assert (read_length offset available cur = 0) as Er by (unfold read_length; lia).
    rewrite Er in *. rewrite slice_0. cbn [app]. f_equal; unfold read_length in *; lia.
  - assert (read_length offset available cur = cur - offset) as Er by (unfold read_length in *; lia).
    rewrite Er in *. replace (cur + oo) with (offset + (cur - offset)) by lia.
    rewrite slice_app by lia. f_equal. unfold read_length in *. lia.
Qed.

(** The walk goes on after a fragment of the object at the current offset. *)
Lemma walk_next c k e l1 f l2 :
  tidy m c -> splay_nodes (fc_fragment_tree c) = l1 ++ f :: l2 -> frag_key f = k ->
  available_until c k e -> cf_offset f <= e ->
  cf_offset f + cf_data_length f <= e /\ at_offset k (cf_offset f + cf_data_length f) e l2.
Proof.
  intros Ht E Hk Hav Hle. destruct (Z.eq_dec (cf_offset f) e) as [Ee |].
  2: { apply (at_offset_next c k e l1 f l2); try done. lia. }
  assert (f ∈ fc_fragments c) as Hf.
  { apply tidy_node; [done |]. rewrite E. apply elem_of_app. right. by left. }
  pose proof (pc_range _ _ (tidy_piece c f Ht Hf)). destruct Hav as (_ & _ & Hne).
  assert (cf_data_length f = 0) as ->.
  { destruct (Z.eq_dec (cf_data_length f) 0); [done |]. destruct Hne.
    apply Exists_exists. exists f. split; [done |]. split; [done | lia]. }
  split; [lia |]. intros ?. lia.
Qed.

Lemma copy_loop_spec c g o offset available e fuel : forall l1 l2 cur,
  tidy m c -> is_id g -> is_id o -> available_until c (g, o) e ->
  0 <= offset < two62 -> 0 <= available < two62 ->
  splay_nodes (fc_fragment_tree c) = l1 ++ l2 -> (length l2 < fuel)%nat ->
  0 <= cur <= e -> at_offset (g, o) cur e l2 ->
  copy_available_loop fuel c g o offset available (head l2) cur
    (slice (content m (g, o)) offset (read_length offset available cur))
  = Some (slice (content m (g, o)) offset (read_length offset available e)).
Proof.
  induction fuel as [| fuel IH]; intros l1 l2 cur Ht Hg Ho Hav Hoff Hava E Hf Hcur Hat; [lia |].
  pose proof (available_length c _ e Ht Hav) as Hlen. pose proof (content_range m (g, o)).
  cbn [copy_available_loop]. destruct l2 as [| f l]; cbn [head].
  { destruct (Z.eq_dec cur e) as [-> |]; [done |].
    destruct (Hat ltac:(lia)) as (? & ? & ? & _). done. }
  rewrite read_length_blen by lia.
  destruct (Z.ltb_spec (read_length offset available cur) available) as [Hlt | Hge].
  2: { f_equal. f_equal. unfold read_length in *. lia. }
  destruct (negb _ || _) eqn:Ecase.
  { destruct (Z.eq_dec cur e) as [-> |]; [done |].
    destruct (Hat ltac:(lia)) as (f0 & l0 & [= <- <-] & Hk & Hcf).
    unfold frag_key in Hk. injection Hk as <- <-. unfold is_object in Ecase.
    by rewrite Hcf, !Z.eqb_refl in Ecase. }
  apply orb_false_elim in Ecase as [[Eg Eo]%negb_false_iff%is_object_spec Hc%negb_false_iff%Z.eqb_eq].
  assert (frag_key f = (g, o)) as Hk by (unfold frag_key; congruence).
  destruct (walk_next c (g, o) e l1 f l Ht E Hk Hav ltac:(lia)) as [Hend Hnext].
  assert (f ∈ fc_fragments c) as Hfin.
  { apply tidy_node; [done |]. rewrite E. apply elem_of_app. right. by left. }
  pose proof (tidy_piece c f Ht Hfin) as Pf. pose proof (pc_range _ _ Pf) as Hfr.
  rewrite (splay_next_eq _ _ _ _ E) by apply (so_sorted _ (co_store _ _ (td_cache _ _ Ht))).
  rewrite Hc in Hend, Hnext. rewrite (pc_data _ _ Pf). unfold frag_key in Hk. rewrite Hk, Hc.
  rewrite copied_chunk by lia. rewrite (u64_small (cur + _)) by u64_lia.
  apply (IH (l1 ++ [f])); try done; [by rewrite E, <- (assoc_L (++)) | cbn in Hf; lia | lia].
Qed.

(** ** Whole objects *)

(** The fragments of an object from offset [cur] to [e], in order. *)
Fixpoint contiguous (k : Z * Z) (cur e : Z) (fs : list quicrq_cached_fragment_t) : Prop :=
  match fs with
  | [] => cur = e
  | f :: fs' => frag_key f = k /\ cf_offset f = cur /\ cur < e /\
      contiguous k (cur + cf_data_length f) e fs'
  end.

Definition copy_call (f : quicrq_cached_fragment_t) : quicrq_cached_fragment_t * Z * Z * Z :=
  (f, 0, cf_offset f, cf_data_length f).

(** The bytes of an object from [offset] on, up to the first that is missing. *)
Lemma copy_available_spec c (g o offset available e : Z) :
  tidy m c -> is_id g -> is_id o -> available_until c (g, o) e ->
  0 <= offset < two62 -> 0 <= available < two62 ->
  quicrq_fragment_object_copy_available_data c g o offset available =
    Some (slice (content m (g, o)) offset (Z.min available (Z.max 0 (e - offset)))).
Proof.
  intros Ht Hg Ho Hav Hoff Hava. pose proof Hav as (He & _).
  destruct (first_fragment c (g, o) e Ht Hg Ho Hav) as (l1 & l2 & E & Ef & Hat).
  cbn [fst snd] in Ef. unfold quicrq_fragment_object_copy_available_data. rewrite Ef.
  change (Z.min available (Z.max 0 (e - offset))) with (read_length offset available e).
  rewrite <- (copy_loop_spec c g o offset available e (tree_fuel c) l1 l2 0); try done.
  - unfold read_length. by rewrite Z.max_l, Z.min_r by lia.
  - unfold tree_fuel. rewrite E, length_app. lia.
Qed.

(** There is a first byte that is missing. *)
Lemma available_exists c k : tidy m c -> exists e, available_until c k e.
Proof.
  intros Ht.
  assert (forall n : nat, (exists e, available_until c k e) \/ forall i, 0 <= i < Z.of_nat n -> cached c k i) as H.
  { induction n as [| n [IH | IH]]; [right; lia | by left |].
    destruct (decide (cached c k (Z.of_nat n))) as [Hn | Hn].
    - right. intros i Hi. destruct (Z.eq_dec i (Z.of_nat n)) as [-> |]; [done | apply IH; lia].
    - left. exists (Z.of_nat n). split; [lia | done]. }
  destruct (H (S (length (content m k)))) as [He | Hall]; [done | exfalso].
  specialize (Hall (blen (content m k)) ltac:(unfold blen; lia)).
  apply Exists_exists in Hall as (f & Hf & <- & Hr).
  pose proof (pc_range _ _ (tidy_piece c f Ht Hf)). unfold frag_key in Hr. lia.
Qed.

Lemma object_copy_loop_spec c g o fuel : forall l1 l2 cur copies nb,
  tidy m c -> is_id g -> is_id o -> available_until c (g, o) (blen (content m (g, o))) ->
  splay_nodes (fc_fragment_tree c) = l1 ++ l2 -> (length l2 < fuel)%nat ->
  0 <= cur < blen (content m (g, o)) -> at_offset (g, o) cur (blen (content m (g, o))) l2 ->
  exists fs nb' flags,
    object_copy_loop fuel c g o (head l2) cur copies nb =
      Some (blen (content m (g, o)), copies ++ map copy_call fs, nb', Some flags) /\
    contiguous (g, o) cur (blen (content m (g, o))) fs /\ Forall (fun f => f ∈ fc_fragments c) fs.
Proof.
  induction fuel as [| fuel IH]; intros l1 l2 cur copies nb Ht Hg Ho Hav E Hf Hcur Hat; [lia |].
  pose proof (content_range m (g, o)). cbn [object_copy_loop].
  destruct (Hat ltac:(lia)) as (f & l & -> & Hk & Hc). cbn [head].
  assert (is_object g o f = true) as Hob.
  { apply is_object_spec. unfold frag_key in Hk. by injection Hk. }
  rewrite Hob, Hc, Z.eqb_refl. cbn [negb orb].
  destruct (walk_next c (g, o) _ l1 f l Ht E Hk Hav ltac:(lia)) as [Hend Hnext].
  assert (f ∈ fc_fragments c) as Hfin.
  { apply tidy_node; [done |]. rewrite E. apply elem_of_app. right. by left. }
  pose proof (tidy_piece c f Ht Hfin) as Pf. pose proof (pc_range _ _ Pf) as Hfr.
  rewrite Hc in Hend, Hnext. rewrite (u64_small (cur + _)) by u64_lia.
  pose proof (pc_length _ _ Pf) as Hl. unfold frag_key in Hk. rewrite Hk in Hl. rewrite Hl.
  destruct (Z.leb_spec (blen (content m (g, o))) (cur + cf_data_length f)) as [Hle | Hgt].
  - exists [f]. eexists _, _. cbn. unfold copy_call. rewrite Hc. split.
    { replace (cur + cf_data_length f) with (blen (content m (g, o))) by lia. done. }
    split; [| by repeat constructor]. split_and!; try done; lia.
  - rewrite (splay_next_eq _ _ _ _ E) by apply (so_sorted _ (co_store _ _ (td_cache _ _ Ht))).
    destruct (IH (l1 ++ [f]) l (cur + cf_data_length f) (copies ++ [(f, 0, cur, cf_data_length f)])
      (if (cf_object_id f =? 0) && (cur =? 0) then cf_nb_objects_previous_group f else nb))
      as (fs & nb' & fl & -> & Hcon & Hin); try done;
      [by rewrite E, <- (assoc_L (++)) | cbn in Hf; lia | lia |].
    exists (f :: fs), nb', fl. cbn. rewrite <- (assoc_L (++)). unfold copy_call at 2. rewrite Hc.
    split; [done |]. split; [| by constructor]. split_and!; try done; lia.
Qed.
End reads.
