(* ===== verification/FragmentHistory.v ===== *)
(** * Histories of the fragment cache

    Sequences of proposals, the in-order pointer, and the removal of old
    fragments. *)

From S2P Require Import Prelude Picosplay Media Fragment FragmentProofs FragmentReads.

Section history.
Context `{SL : SplayLaws quicrq_cached_fragment_t quicrq_fragment_cache_node_compare}.
Context {Al : Allocator} (alloc_ok : forall n, malloc_ok n = true).
Context (m : media).

(** Propose fragments one after the other. *)
Fixpoint propose_all c (fs : list fragment) : option quicrq_fragment_cache_t :=
  match fs with
  | [] => Some c
  | f :: fs' =>
      match propose_f c f with
      | Some (c, _, _) => propose_all c fs'
      | None => None
      end
  end.

(** ** Arbitrary fragments of the media *)

Definition from_history (fs : list fragment) c : Prop :=
  forall k i, cached c k i -> byte_received fs k i.

Lemma extends_from fs c c' f :
  from_history fs c -> extends (proposal_of f) (f_data_length f) c c' -> from_history (fs ++ [f]) c'.
Proof.
  intros H (new & Ef & Hnew) k i. unfold cached. rewrite Ef, Exists_app. intros [Hc | Hc].
  - apply Exists_app. left. by apply H.
  - apply Exists_app. right. constructor. apply Exists_exists in Hc as (x & Hx & <- & Hi).
    eapply Forall_forall in Hx; [| exact Hnew]. cbn in Hx. unfold f_key, frag_key.
    destruct Hx as (-> & -> & E & Hl). split; [done | lia].
Qed.

Lemma propose_all_integrity fs : forall fs0 c,
  cache_ok m c -> from_history fs0 c -> Forall (consistent m) fs ->
  exists c', propose_all c fs = Some c' /\ cache_ok m c' /\ from_history (fs0 ++ fs) c'.
Proof.
  induction fs as [| f fs IH]; intros fs0 c Hc Hh Hfs; cbn [propose_all].
  - rewrite app_nil_r. eauto.
  - apply Forall_cons in Hfs as [Hf Hfs].
    destruct (propose_f_spec alloc_ok m c f Hc Hf) as (c1 & wake & -> & Hc1 & He).
    destruct (IH (fs0 ++ [f]) c1 Hc1 (extends_from fs0 c c1 f Hh He) Hfs) as (c2 & -> & ? & ?).
    exists c2. by rewrite <- (assoc_L (++)) in *.
Qed.

(** ** The in-order pointer *)

(** All the bytes of object [k] are in the cache. *)
Definition whole c (k : Z * Z) : Prop := forall i, 0 <= i < blen (content m k) -> cached c k i.

(** Everything before the pointer is in the cache. *)
Record pointer_ok c : Prop := {
  po_bytes : 0 <= fc_next_offset c < two62 /\
    forall i, 0 <= i < fc_next_offset c -> cached c (fc_next_group_id c, fc_next_object_id c) i;
  po_objects : 0 <= fc_next_object_id c <= two62 /\
    forall o, 0 <= o < fc_next_object_id c -> whole c (fc_next_group_id c, o);
  po_groups : 0 <= fc_next_group_id c <= two62 /\
    forall g o, 0 <= g < fc_next_group_id c -> 0 <= o < count m g -> whole c (g, o);
}.

Lemma progress_step_pointer c f c' :
  tidy m c -> f ∈ fc_fragments c -> pointer_ok c -> progress_step c f = Some c' -> pointer_ok c'.
Proof.
  intros Ht Hf [[B1 B2] [O1 O2] [G1 G2]] Hs.
  pose proof (tidy_piece m c f Ht Hf) as Pf. pose proof (pc_range _ _ Pf) as Hr.
  pose proof (content_range m (frag_key f)) as Hcr. pose proof (pc_length _ _ Pf) as Hl.
  pose proof (pc_group _ _ Pf) as Hg. pose proof (pc_object _ _ Pf) as Ho. unfold is_id in *.
  assert (forall g o off, frag_key f = (g, o) -> cf_offset f = off -> 0 <= off ->
    (forall i, 0 <= i < off -> cached c (g, o) i) ->
    forall i, 0 <= i < off + cf_data_length f -> cached c (g, o) i) as Hext.
  { intros g o off Hk Eo Hoff Hb i Hi. destruct (Z.lt_ge_cases i off); [by apply Hb; lia |].
    apply Exists_exists. exists f. split; [done |]. split; [done | lia]. }
  assert (forall g o off, frag_key f = (g, o) -> cf_offset f = off -> 0 <= off ->
    (forall i, 0 <= i < off -> cached c (g, o) i) ->
    (forall o', 0 <= o' < o -> whole c (g, o')) ->
    (forall g' o', 0 <= g' < g -> 0 <= o' < count m g' -> whole c (g', o')) ->
    pointer_ok (if cf_object_length f <=? off +64 cf_data_length f
      then fc_set_next c g (o +64 1) 0 else fc_set_next c g o (off +64 cf_data_length f))) as Hstep.
  { intros g o off Hk Eo Hoff Hb Hob Hgr. pose proof (Hext g o off Hk Eo Hoff Hb) as Hb'.
    unfold frag_key in Hk. injection Hk as Ekg Eko.
    unfold frag_key in Hcr. rewrite (u64_small (off + _)), (u64_small (o + 1)) by u64_lia.
    rewrite Hl. rewrite Ekg, Eko in *. destruct (Z.leb_spec (blen (content m (g, o))) (off + cf_data_length f)).
    - split; cbn.
      + split; [lia |]. intros i Hi. lia.
      + split; [lia |]. intros o' Ho'. destruct (Z.eq_dec o' o) as [-> |]; [| apply Hob; lia].
        intros i Hi. apply Hb'. lia.
      + split; [lia | done].
    - split; cbn; (split; [lia | done]). }
  unfold progress_step in Hs.
  destruct ((cf_group_id f =? fc_next_group_id c) && _ && _) eqn:E1.
  { injection Hs as <-. b2p. apply Hstep; try done; [unfold frag_key; congruence | lia]. }
  destruct (_ && _ && _ && _ && _ && _) eqn:E2; [| done]. injection Hs as <-. b2p.
  assert (fc_next_group_id c +64 1 = fc_next_group_id c + 1) as En by (apply u64_small; u64_lia).
  rewrite En in *. cbn [fc_next_offset fc_next_group_id fc_next_object_id fc_set_next].
  assert (count m (fc_next_group_id c) = fc_next_object_id c) as Ecount.
  { rewrite (td_nb _ _ Ht f Hf) in * by lia.
    replace (fc_next_group_id c) with (cf_group_id f - 1) at 1 by lia. congruence. }
  apply (Hstep (fc_next_group_id c + 1) 0 0); try lia.
  - unfold frag_key. congruence.
  - intros g o Hg' Ho'. destruct (Z.eq_dec g (fc_next_group_id c)) as [-> |]; [| apply G2; lia].
    apply O2. lia.
Qed.

(** A property of caches that depends on the fragments and on the pointer. *)
Lemma pointer_ok_ext c c' :
  fc_fragments c' = fc_fragments c -> fc_next_group_id c' = fc_next_group_id c ->
  fc_next_object_id c' = fc_next_object_id c -> fc_next_offset c' = fc_next_offset c ->
  pointer_ok c -> pointer_ok c'.
Proof.
  intros Ef Eg Eo Eoff [B O G]. split; unfold whole, cached in *; rewrite Ef, ?Eg, ?Eo, ?Eoff; done.
Qed.

Lemma pointer_ok_more c c' new :
  fc_fragments c' = fc_fragments c ++ new -> fc_next_group_id c' = fc_next_group_id c ->
  fc_next_object_id c' = fc_next_object_id c -> fc_next_offset c' = fc_next_offset c ->
  pointer_ok c -> pointer_ok c'.
Proof.
  intros Ef Eg Eo Eoff [[? B] [? O] [? G]].
  assert (forall k i, cached c k i -> cached c' k i) as Hmore.
  { intros k i Hc. unfold cached. rewrite Ef. apply Exists_app. by left. }
  split; unfold whole in *; rewrite ?Eg, ?Eo, ?Eoff; (split; [done |]); eauto.
Qed.

Lemma progress_loop_pointer fuel : forall c f l1 l2 c',
  tidy m c -> splay_nodes (fc_fragment_tree c) = l1 ++ f :: l2 -> pointer_ok c ->
  progress_loop fuel c f = Some c' -> pointer_ok c'.
Proof.
  induction fuel as [| fuel IH]; intros c f l1 l2 c' Ht E Hp; cbn [progress_loop]; [done |].
  destruct (progress_step c f) as [c1 |] eqn:Es; [| by intros [= <-]].
  assert (f ∈ fc_fragments c) as Hf.
  { apply (tidy_node m); [done |]. rewrite E. apply elem_of_app. right. by left. }
  pose proof (progress_step_pointer c f c1 Ht Hf Hp Es) as Hp1.
  apply progress_step_only in Es as (g & o & off & hg & ho & fl & ->). 
  change (fc_fragment_tree (fc_set_lowest_flags _ _)) with (fc_fragment_tree c).
  rewrite (splay_next_eq _ _ _ _ E) by apply (so_sorted _ (co_store _ _ (td_cache _ _ Ht))).
  destruct l2 as [| x l]; cbn [head]; [by intros [= <-] |].
  apply (IH _ x (l1 ++ [f]) l); [| by cbn; rewrite E, <- (assoc_L (++)) | done].
  destruct Ht as [[[] ?] ? ? ? ?]. by do 3 (split; try done).
Qed.

Lemma progress_only_tidy c c' : progress_only c c' -> tidy m c' -> tidy m c.
Proof.
  intros (? & ? & ? & ? & ? & ? & ->) [[Hs Hp] ? ? ? ?].
  split; try done. split; [destruct Hs; by split | done].
Qed.

Lemma add_pointer c p nb len c' :
  add_proposal c p nb len = Some (c', 0) -> store_ok c -> fkey_ok (proposed c p nb len) ->
  tidy m c' -> pointer_ok c -> pointer_ok c'.
Proof.
  intros E Hs Hk Ht Hp. destruct (add_proposal_spec c p nb len alloc_ok Hs Hk)
    as (c2 & E2 & Hs2 & Ef & En & Hpo). rewrite E in E2. injection E2 as <-.
  pose proof (progress_only_tidy _ _ Hpo Ht) as Ht1.
  unfold add_proposal, quicrq_fragment_add_to_cache in E. rewrite alloc_ok in E.
  fold (proposed c p nb len) in E. set (f := proposed c p nb len) in *.
  set (c1 := fc_set_fragments c _ _ _) in *.
  assert (f ∈ splay_nodes (fc_fragment_tree c1)) as Hf.
  { apply (tidy_node m); [done |]. subst c1. cbn. apply elem_of_snoc. by right. }
  assert (pointer_ok c1) as Hp1 by by apply (pointer_ok_more c c1 [f]).
  unfold quicrq_fragment_cache_progress in E. revert E.
  set (c3 := if _ && (_ || _) then _ else _).
  assert (fc_fragments c3 = fc_fragments c1 /\ fc_fragment_tree c3 = fc_fragment_tree c1 /\
    pointer_ok c3 /\ tidy m c3) as (E1 & E2 & Hp3 & Ht3).
  { subst c3. destruct (_ && (_ || _)), (pair_ltb _ _ _ _); (split; [done |]; split; [done |]);
      (split; [by apply (pointer_ok_ext c1) |]); eapply progress_only_tidy; try exact Ht1;
      try apply progress_only_refl;
      exists (fc_next_group_id c1), (fc_next_object_id c1), (fc_next_offset c1),
        (fc_highest_group_id c1), (fc_highest_object_id c1), (fc_lowest_flags c1);
      by destruct c. }
  clearbody c3. intros E. rewrite <- E2 in Hf. apply list_elem_of_split in Hf as (l1 & l2 & En3).
  destruct (progress_loop _ c3 f) as [c4 |] eqn:El; [| done]. injection E as <-.
  eapply progress_loop_pointer; [exact Ht3 | exact En3 | exact Hp3 | exact El].
Qed.

Lemma clean_pointer c f s : tidy m c -> consistent m f -> pointer_ok c ->
  clean_result m c (proposal_of f) (f_nb_previous f) (f_data_length f) s ->
  pointer_ok (ps_cache s).
Proof.
  intros Ht Hf Hp (_ & Ht' & [(-> & _) | (len & E & _ & Hl & _)]); [done |].
  eapply (add_pointer _ _ _ _ _ E); [apply Ht | | done | done].
  eapply piece_key, (proposed_piece m _ _ (f_data_length f)); [by apply consistent_genuine | done].
Qed.

(** ** Fragments that are repeated but never overlap otherwise *)

Definition same_range (f f' : fragment) : Prop :=
  f_offset f = f_offset f' /\ f_data_length f = f_data_length f'.
Definition no_overlap (f f' : fragment) : Prop :=
  f_key f = f_key f' -> same_range f f' \/
    f_offset f + f_data_length f <= f_offset f' \/ f_offset f' + f_data_length f' <= f_offset f.

(** Each cached fragment has the range of a fragment of the history. *)
Record exact (fs : list fragment) c : Prop := {
  ex_tidy : tidy m c;
  ex_ranges : forall x, x ∈ fc_fragments c -> exists f, f ∈ fs /\ frag_key x = f_key f /\
    cf_offset x = f_offset f /\ cf_data_length x = f_data_length f;
  ex_cached : forall k i, cached c k i <-> byte_received fs k i;
  ex_first : fc_first_group_id c = 0 /\ fc_first_object_id c = 0;
}.

Lemma exact_acceptable fs c f :
  exact fs c -> consistent m f -> 0 < f_data_length f \/ blen (content m (f_key f)) = 0 ->
  Forall (no_overlap f) fs -> acceptable m c f.
Proof.
  intros [Ht Hr _ [E1 E2]] Hf Hne Hno. split; [done | | | done].
  - rewrite E1, E2. apply pair_ltb_false. destruct Hf as [[? ?] [[? ?] _] _ _ _ _]. lia.
  - intros x Hx Hk. pose proof (pc_range _ _ (tidy_piece m c x Ht Hx)).
    destruct (Hr x Hx) as (f' & Hf' & Hk' & Eo & El).
    eapply Forall_forall in Hf'; [| exact Hno]. unfold no_overlap, same_range in Hf'. cbn in Hf'.
    destruct Hf' as [[? ?] | ?]; [congruence | lia | lia].
Qed.

(** The first and final points are not moved by proposals. *)
Definition ends c : (Z * Z) * (Z * Z) :=
  ((fc_first_group_id c, fc_first_object_id c), (fc_final_group_id c, fc_final_object_id c)).

Lemma add_proposal_ends c p nb len c' : add_proposal c p nb len = Some (c', 0) ->
  store_ok c -> fkey_ok (proposed c p nb len) -> ends c' = ends c.
Proof.
  intros E Hs Hk. destruct (add_proposal_spec c p nb len alloc_ok Hs Hk)
    as (c2 & E2 & _ & _ & _ & (? & ? & ? & ? & ? & ? & ->)).
  rewrite E in E2. by injection E2 as ->.
Qed.

Lemma clean_ends c f s : tidy m c -> consistent m f ->
  clean_result m c (proposal_of f) (f_nb_previous f) (f_data_length f) s ->
  ends (ps_cache s) = ends c.
Proof.
  intros Ht Hf (_ & _ & [(-> & _) | (len & E & _ & Hl & _)]); [done |].
  apply (add_proposal_ends _ _ _ _ _ E); [apply Ht |].
  eapply piece_key, (proposed_piece m _ _ (f_data_length f)); [by apply consistent_genuine | done].
Qed.

(** A clean proposal that adds something adds the whole fragment, when the
    cached ranges are those of the history. *)
Lemma exact_whole fs c f s len :
  exact fs c -> Forall (no_overlap f) fs -> tidy m (ps_cache s) ->
  fc_fragments (ps_cache s) = fc_fragments c ++ [proposed c (proposal_of f) (f_nb_previous f) len] ->
  0 <= len <= f_data_length f ->
  (forall i, f_offset f + len <= i < f_offset f + f_data_length f -> cached c (f_key f) i) ->
  len = f_data_length f.
Proof.
  intros [Ht Hr _ _] Hno Ht' Ef Hlen Hcov. destruct (Z.eq_dec len (f_data_length f)); [done |].
  specialize (Hcov (f_offset f + len) ltac:(lia)).
  apply Exists_exists in Hcov as (x & Hx & Hk & Hi).
  destruct (Hr x Hx) as (f' & Hf' & Hk' & Eo & El).
  eapply Forall_forall in Hf'; [| exact Hno]. unfold no_overlap, same_range in Hf'. cbn in Hf'.
  destruct Hf' as [[Eo' _] | Hd]; [congruence | | lia].
  set (pf := proposed _ _ _ _) in *. exfalso.
  assert (x = pf) as ->.
  { apply (tidy_offset_unique m (ps_cache s)); [done | rewrite Ef; apply elem_of_snoc; by left
      | rewrite Ef; apply elem_of_snoc; by right | done | subst pf; cbn; lia]. }
  pose proof (so_heap _ (co_store _ _ (td_cache _ _ Ht))) as Hh.
  eapply Forall_forall in Hx; [| exact Hh]. subst pf. cbn in Hx. lia.
Qed.

Lemma byte_received_snoc fs f k i :
  byte_received (fs ++ [f]) k i <->
  byte_received fs k i \/ (f_key f = k /\ f_offset f <= i < f_offset f + f_data_length f).
Proof. unfold byte_received. rewrite Exists_app, Exists_cons, Exists_nil. tauto. Qed.

Lemma exact_step fs c f s :
  exact fs c -> consistent m f -> Forall (no_overlap f) fs ->
  clean_result m c (proposal_of f) (f_nb_previous f) (f_data_length f) s ->
  exact (fs ++ [f]) (ps_cache s).
Proof.
  intros Hex Hf Hno Hres. pose proof Hex as [Ht Hr Hc Hfirst].
  pose proof (clean_cached m c f s Hres) as Hcov.
  pose proof (clean_ends c f s Ht Hf Hres) as [= E1 E2 _ _]. split.
  - apply Hres.
  - destruct Hres as (_ & Ht' & [(-> & _ & Hcv) | (len & _ & Ef & Hl & _ & Hcv)]); intros x Hx.
    + destruct (Hr x Hx) as (f' & Hf' & ?). exists f'. split; [| done]. apply elem_of_app. by left.
    + rewrite Ef in Hx. apply elem_of_app in Hx as [Hx | ->%list_elem_of_singleton].
      * destruct (Hr x Hx) as (f' & Hf' & ?). exists f'. split; [| done]. apply elem_of_app. by left.
      * exists f. split; [apply elem_of_app; right; by left |]. split; [done |]. split; [done |].
        cbn. by apply (exact_whole fs c f s).
  - intros k i. rewrite Hcov, byte_received_snoc, Hc. split; intros [? | [? ?]]; auto.
  - by rewrite E1, E2.
Qed.

Lemma exact_received fs c n : exact fs c -> exact fs (fc_set_received c n).
Proof. intros [Ht Hr Hc Hf]. split; [by apply tidy_received | done | done | done]. Qed.

Lemma exact_final fs c g o : exact fs c -> exact fs (learn_end_point c g o).
Proof.
  intros [[[Hs Hp] ? ? ? ?] ? ? ?]. split; try done. split; try done.
  split; [destruct Hs; by split | done].
Qed.

(** One more fragment. *)
Lemma propose_exact fs c f :
  exact fs c -> consistent m f -> 0 < f_data_length f \/ blen (content m (f_key f)) = 0 ->
  Forall (no_overlap f) fs ->
  exists c' wake, propose_f c f = Some (c', 0, wake) /\ exact (fs ++ [f]) c' /\
    (pointer_ok c -> pointer_ok c') /\ ends c' = ends c /\
    (forall x, x ∈ fc_fragments c -> x ∈ fc_fragments c').
Proof.
  intros Hex Hf Hne Hno. pose proof (exact_acceptable fs c f Hex Hf Hne Hno) as Hac.
  destruct (propose_f_clean alloc_ok m c f (ex_tidy _ _ Hex) Hac)
    as (c' & wake & s & -> & _ & Hres & Hc).
  pose proof (exact_step fs c f s Hex Hf Hno Hres) as Hs.
  pose proof (clean_ends c f s (ex_tidy _ _ Hex) Hf Hres) as He.
  assert (fc_fragments c' = fc_fragments (ps_cache s)) as Efr by by destruct Hc as [-> | ->].
  exists c', wake. split; [done |]. split_and!.
  - destruct Hc as [-> | ->]; [done | by apply exact_received].
  - intros Hp. pose proof (clean_pointer c f s (ex_tidy _ _ Hex) Hf Hp Hres).
    destruct Hc as [-> | ->]; [done | by apply (pointer_ok_ext (ps_cache s))].
  - by destruct Hc as [-> | ->].
  - intros x Hx. rewrite Efr. destruct Hres as (_ & _ & [(-> & _) | (len & _ & -> & _)]); [done |].
    apply elem_of_app. by left.
Qed.

(** The highest group and object of the cache. *)
Definition highest c : Z * Z := (fc_highest_group_id c, fc_highest_object_id c).
Definition raised (k k' : Z * Z) : Z * Z := if pair_ltb k.1 k.2 k'.1 k'.2 then k' else k.

Lemma progress_loop_highest fuel : forall c f c', progress_loop fuel c f = Some c' -> highest c' = highest c.
Proof.
  induction fuel as [| fuel IH]; intros c f c'; cbn [progress_loop]; [done |].
  destruct (progress_step c f) as [c1 |] eqn:E; [| by intros [= <-]].
  assert (highest c1 = highest c) as <-.
  { unfold progress_step in E.
    destruct (_ && _); [| destruct (_ && _); [| done]]; injection E as <-; by destruct (_ <=? _). }
  destruct (splay_next _ f) as [f' |]; [apply IH | by intros [= <-]].
Qed.

Lemma add_proposal_highest c p nb len c' : add_proposal c p nb len = Some (c', 0) ->
  highest c' = raised (highest c) (pp_group_id p, pp_object_id p).
Proof.
  unfold add_proposal, quicrq_fragment_add_to_cache. rewrite alloc_ok.
  unfold quicrq_fragment_cache_progress. destruct (progress_loop _ _ _) as [c1 |] eqn:E; [| done].
  intros [= <-]. apply progress_loop_highest in E. rewrite E.
  unfold raised, highest. destruct ((0 <? _) && _); cbn; by destruct (pair_ltb _ _ _ _).
Qed.

(** A fragment that arrives is added at the end of the cache, or not at all. *)
Lemma propose_appends fs c f : exact fs c -> consistent m f -> 0 < f_data_length f ->
  Forall (no_overlap f) fs ->
  exists c' wake, propose_f c f = Some (c', 0, wake) /\ exact (fs ++ [f]) c' /\ ends c' = ends c /\
    (fc_fragments c' = fc_fragments c /\ highest c' = highest c \/
     exists x, fc_fragments c' = fc_fragments c ++ [x] /\ frag_key x = f_key f /\
       cf_queue_delay x = f_delay f /\ cf_nb_objects_previous_group x = f_nb_previous f /\
       highest c' = raised (highest c) (f_key f)).
Proof.
  intros Hex Hf Hlen Hno.
  pose proof (exact_acceptable fs c f Hex Hf (or_introl Hlen) Hno) as Hac.
  destruct (propose_f_clean alloc_ok m c f (ex_tidy _ _ Hex) Hac)
    as (c' & wake & s & E & _ & Hres & Hc).
  destruct (propose_exact fs c f Hex Hf (or_introl Hlen) Hno) as (c2 & wake2 & E2 & Hex' & _).
  rewrite E in E2. injection E2 as <- <-. exists c', wake. split; [done |]. split; [done |]. split.
  { rewrite <- (clean_ends c f s (ex_tidy _ _ Hex) Hf Hres). by destruct Hc as [-> | ->]. }
  assert (fc_fragments c' = fc_fragments (ps_cache s) /\ highest c' = highest (ps_cache s)) as [-> ->]
    by by destruct Hc as [-> | ->].
  destruct Hres as (_ & _ & [(-> & _) | (len & Hadd & -> & _)]); [by left | right].
  apply add_proposal_highest in Hadd. by eexists.
Qed.

Lemma propose_all_exact fs : forall fs0 c,
  exact fs0 c -> pointer_ok c -> Forall (consistent m) fs ->
  Forall (fun f => 0 < f_data_length f \/ blen (content m (f_key f)) = 0) fs ->
  (forall f f', f ∈ fs0 ++ fs -> f' ∈ fs0 ++ fs -> no_overlap f f') ->
  exists c', propose_all c fs = Some c' /\ exact (fs0 ++ fs) c' /\ pointer_ok c'.
Proof.
  induction fs as [| f fs IH]; intros fs0 c Hex Hp Hfs Hne Hno; cbn [propose_all].
  - rewrite app_nil_r. eauto.
  - apply Forall_cons in Hfs as [Hf Hfs]. apply Forall_cons in Hne as [Hn Hne].
    assert (Forall (no_overlap f) fs0) as Hnof.
    { apply Forall_forall. intros f' Hf'. apply Hno; [apply elem_of_middle |].
      apply elem_of_app. by left. }
    destruct (propose_exact fs0 c f Hex Hf Hn Hnof) as (c1 & wake & -> & Hex1 & Hp1 & _).
    destruct (IH (fs0 ++ [f]) c1 Hex1 (Hp1 Hp) Hfs Hne) as (c2 & -> & ?).
    + intros g g' Hg Hg'. apply Hno; rewrite <- (assoc_L (++)) in *; done.
    + exists c2. by rewrite <- (assoc_L (++)) in *.
Qed.

Lemma exact_init : exact [] quicrq_fragment_cache_create_ctx.
Proof.
  split; [apply tidy_init | | | done].
  - intros x Hx. by apply not_elem_of_nil in Hx.
  - intros k i. split; intros H; by apply Exists_nil in H.
Qed.

Lemma pointer_init : pointer_ok quicrq_fragment_cache_create_ctx.
Proof. split; cbn; (split; [u64_lia |]); intros; lia. Qed.

Lemma store_ok_next c g o off : store_ok c -> store_ok (fc_set_next c g o off).
Proof. intros []. by split. Qed.

(** ** Removal of the fragments before a point *)

Lemma node_delete_store c f : store_ok c -> f ∈ fc_fragments c ->
  let c' := quicrq_fragment_cache_node_delete c f in
  store_ok c' /\ fc_fragments c' = List.filter (fun x => negb (bool_decide (x = f))) (fc_fragments c).
Proof.
  intros Hs Hf. pose proof Hs as [Hso Hsame Hnd Hh].
  assert (List.filter (fun x => negb (cf_addr x =? cf_addr f)) (fc_fragments c) =
    List.filter (fun x => negb (bool_decide (x = f))) (fc_fragments c)) as E.
  { apply filter_ext_in. intros x Hx%list_elem_of_In. f_equal.
    destruct (Z.eqb_spec (cf_addr x) (cf_addr f)) as [Ea | Ea]; symmetry.
    - apply bool_decide_eq_true. by apply (store_unique c).
    - apply bool_decide_eq_false. by intros ->. }
  cbn. split; [| exact E]. pose proof Hf as Hfn. rewrite Hsame in Hfn.
  assert (NoDup (splay_nodes (fc_fragment_tree c))) as Hnn by apply Hso.
  split; cbn.
  - pose proof Hfn as Hsplit. apply list_elem_of_split in Hsplit as (l1 & l2 & En).
    unfold splay_sorted. rewrite (splay_nodes_delete _ f l1 l2) by done.
    destruct Hso as (Hk & Hw & _). rewrite En in Hk, Hw, Hnn.
    apply Forall_app in Hk as [Hk1 [_ Hk2]%Forall_cons].
    apply StronglySorted_app in Hw as (Hx & Hw1 & [_ Hw2]%StronglySorted_cons).
    apply NoDup_app in Hnn as (Hn1 & Hd & [_ Hn2]%NoDup_cons). split_and!.
    + by apply Forall_app.
    + apply StronglySorted_app. split_and!; try done. intros x y ? ?. apply Hx; [done | by right].
    + apply NoDup_app. split_and!; try done. intros x Hx1 Hx2. apply (Hd x Hx1). by right.
  - intros x. rewrite E, (elem_of_splay_delete_nodup _ f x) by done.
    by rewrite elem_of_filter_bool, Hsame, negb_true_iff, bool_decide_eq_false.
  - by apply NoDup_map_filter.
  - apply Forall_forall. intros x [Hx _]%elem_of_filter_bool. by eapply Forall_forall in Hx; [| exact Hh].
Qed.

(** [before] holds of a prefix of the order. *)
Definition prefix_closed (before : quicrq_cached_fragment_t -> bool) : Prop :=
  forall x y, fkey_ok x -> fkey_ok y -> quicrq_fragment_cache_node_compare x y <= 0 ->
    before y = true -> before x = true.

Lemma delete_before_spec before : prefix_closed before -> forall fuel c,
  store_ok c -> (length (splay_nodes (fc_fragment_tree c)) < fuel)%nat ->
  let c' := delete_before fuel c before in
  store_ok c' /\
  fc_fragments c' = List.filter (fun f => negb (before f)) (fc_fragments c) /\
  (forall f, splay_first (fc_fragment_tree c') = Some f -> before f = false) /\
  exists fr tr, c' = fc_set_fragments c fr tr (fc_heap c).
Proof.
  intros Hpre. induction fuel as [| fuel IH]; intros c Hs Hf; [lia |]. cbn [delete_before].
  pose proof Hs as [(Hk & Hw & Hnn) Hsame _ _].
  assert (exists fr tr, c = fc_set_fragments c fr tr (fc_heap c)) as Hid.
  { exists (fc_fragments c), (fc_fragment_tree c). by destruct c. }
  assert ((forall f, f ∈ fc_fragments c -> before f = false) ->
    fc_fragments c = List.filter (fun f => negb (before f)) (fc_fragments c)) as Hall.
  { intros Hall. symmetry. clear -Hall. induction (fc_fragments c) as [| x l IHl]; cbn; [done |].
    rewrite Hall by by left. cbn. f_equal. apply IHl. intros f Hf. apply Hall. by right. }
  destruct (splay_first (fc_fragment_tree c)) as [f |] eqn:Ef.
  2: { split_and!; [done | | intros ? ?; congruence | done]. apply Hall. intros f Hin. apply Hsame in Hin.
       rewrite splay_first_eq in Ef. destruct (splay_nodes (fc_fragment_tree c)); [| done].
       by apply not_elem_of_nil in Hin. }
  pose proof (splay_first_cons _ _ Ef) as [l El].
  assert (f ∈ fc_fragments c) as Hfin by (apply Hsame; rewrite El; by left).
  destruct (before f) eqn:Eb.
  - destruct (node_delete_store c f Hs Hfin) as [Hs1 E1].
    assert (length (splay_nodes (fc_fragment_tree c)) = S (length (splay_nodes
      (fc_fragment_tree (quicrq_fragment_cache_node_delete c f))))) as Hlen.
    { apply splay_delete_length; [done | rewrite El; by left]. }
    destruct (IH (quicrq_fragment_cache_node_delete c f) Hs1 ltac:(lia))
      as (Hs2 & E2 & Hfirst & fr & tr & E3).
    split_and!; [done | | done | by exists fr, tr]. rewrite E2, E1.
    clear -Eb. induction (fc_fragments c) as [| x l IHl]; cbn; [done |].
    destruct (decide (x = f)) as [-> | Hne].
    + rewrite bool_decide_true by done. cbn. by rewrite Eb, IHl.
    + rewrite bool_decide_false by done. cbn. by destruct (before x); cbn; rewrite IHl.
  - split_and!; [done | | intros ? ?; congruence | done]. apply Hall. intros x Hx.
    apply not_true_iff_false. intros Hbx. apply Hsame in Hx. rewrite El in Hx, Hw, Hk.
    apply elem_of_cons in Hx as [-> | Hx]; [congruence |].
    apply StronglySorted_cons in Hw as [Hw _]. apply Forall_cons in Hk as [Hkf Hkl].
    rewrite Forall_forall in Hw, Hkl. rewrite (Hpre f x) in Eb; try done; auto.
Qed.

Lemma prefix_group kept : prefix_closed (fun f => cf_group_id f <? kept).
Proof.
  intros x y Hx Hy Hc Hb. apply Z.ltb_lt. apply Z.ltb_lt in Hb.
  destruct (Z.eq_dec (quicrq_fragment_cache_node_compare x y) 0) as [E |].
  - apply fragment_compare_eq in E; [lia | done | done].
  - assert (quicrq_fragment_cache_node_compare x y < 0) as Hlt by lia.
    apply fragment_compare_lt in Hlt; [lia | done | done].
Qed.

Lemma prefix_point g o : prefix_closed (fun f => pair_ltb (cf_group_id f) (cf_object_id f) g o).
Proof.
  intros x y Hx Hy Hc Hb. rewrite pair_ltb_spec in *.
  destruct (Z.eq_dec (quicrq_fragment_cache_node_compare x y) 0) as [E |].
  - apply fragment_compare_eq in E; [lia | done | done].
  - assert (quicrq_fragment_cache_node_compare x y < 0) as Hlt by lia.
    apply fragment_compare_lt in Hlt; [lia | done | done].
Qed.

Lemma kept_group_spec next readers :
  kept_group next readers <= next /\
  (forall g, Some g ∈ readers -> kept_group next readers <= g) /\
  (kept_group next readers = next \/ Some (kept_group next readers) ∈ readers).
Proof.
  unfold kept_group. revert next. induction readers as [| r rs IH]; intros next; cbn.
  - split; [lia |]. split; [| by left]. intros g Hg. by apply not_elem_of_nil in Hg.
  - assert (exists next', match r with
      | Some g => if g <? next then g else next | None => next end = next' /\
      next' <= next /\ (forall g, r = Some g -> next' <= g) /\
      (next' = next \/ r = Some next')) as (next' & -> & H1 & H2 & H3).
    { destruct r as [g |]; [| exists next; split_and!; [done | lia | done | by left]].
      destruct (Z.ltb_spec g next); eexists; split_and!; try done; try lia;
        try (intros ? [= <-]; lia); auto. }
    destruct (IH next') as (I1 & I2 & I3). split_and!.
    + lia.
    + intros g [E | Hg]%elem_of_cons; [specialize (H2 g (eq_sym E)); lia | by apply I2].
    + destruct I3 as [-> | ?]; [| by right; right].
      destruct H3 as [-> | ->]; [by left | right; by left].
Qed.
End history.
