(* ===== verification/FragmentProgress.v ===== *)
(** * The progress of the fragment cache

    The in-order pointer of the cache is as far as it can be: the byte that
    follows it is not in the cache, the next group being entered with its
    first fragment. *)

From S2P Require Import Prelude Picosplay Media Fragment FragmentProofs FragmentReads FragmentHistory.

Section progress.
Context `{SL : SplayLaws quicrq_cached_fragment_t quicrq_fragment_cache_node_compare}.
Context {Al : Allocator} (alloc_ok : forall n, malloc_ok n = true).
Context (m : media).
Implicit Types c : quicrq_fragment_cache_t.
Implicit Types x y z : quicrq_cached_fragment_t.

(** The pointer, where a fragment starts, and where the pointer is after it. *)
Definition pointer c : Z * Z * Z := (fc_next_group_id c, fc_next_object_id c, fc_next_offset c).
Definition starts x : Z * Z * Z := (frag_key x, cf_offset x).
Definition after x : Z * Z * Z :=
  if blen (content m (frag_key x)) <=? cf_offset x + cf_data_length x
  then (cf_group_id x, cf_object_id x + 1, 0)
  else (cf_group_id x, cf_object_id x, cf_offset x + cf_data_length x).

(** The fragment continues from the position. *)
Definition continues (p : Z * Z * Z) x : Prop :=
  starts x = p \/
  let '(g, o, off) := p in o = count m g /\ off = 0 /\ starts x = (g + 1, 0, 0).

(** A position in the media: at the end of a group or before an object, or
    inside of an object; a group is entered with its first bytes. *)
Definition place_ok (p : Z * Z * Z) : Prop :=
  let '(g, o, off) := p in
  0 <= g <= two62 /\ 0 <= o <= count m g /\
  (off = 0 \/ (o < count m g /\ 0 < off < blen (content m (g, o)))) /\ (o = 0 -> off = 0 -> g = 0).

Definition cache_in_media c : Prop :=
  forall x, x ∈ fc_fragments c -> cf_object_id x < count m (cf_group_id x).

(** A position inside of an object is the end of a fragment, and there is a
    fragment of every object before it. *)
Definition boundary c (p : Z * Z * Z) : Prop :=
  let '(g, o, off) := p in
  off = 0 \/ exists w, w ∈ fc_fragments c /\ frag_key w = (g, o) /\ 0 < cf_data_length w /\
               cf_offset w + cf_data_length w = off.
Definition passed c (p : Z * Z * Z) : Prop :=
  forall g o, 0 <= g -> 0 <= o < count m g -> key_lt (g, o) p.1 ->
  exists x, x ∈ fc_fragments c /\ frag_key x = (g, o).
Definition reached c (p : Z * Z * Z) : Prop := place_ok p /\ boundary c p /\ passed c p.

Definition furthest c : Prop :=
  reached c (pointer c) /\ forall x, x ∈ fc_fragments c -> ~ continues (pointer c) x.

Lemma after_place c x : tidy m c -> cache_in_media c -> x ∈ fc_fragments c -> place_ok (after x).
Proof.
  intros Ht Hin Hx. pose proof (tidy_piece m c x Ht Hx) as [Hg Ho _ Hr _]. specialize (Hin x Hx).
  unfold after, place_ok, is_id, two62 in *. fold (frag_key x) in Hr.
  destruct (Z.leb_spec (blen (content m (frag_key x))) (cf_offset x + cf_data_length x)); [lia |].
  destruct (td_nonempty _ _ Ht x Hx); [| lia].
  change (cf_group_id x, cf_object_id x) with (frag_key x). lia.
Qed.

Lemma reached_more c c' p : (forall x, x ∈ fc_fragments c -> x ∈ fc_fragments c') ->
  reached c p -> reached c' p.
Proof.
  intros Hsub (Hpl & Hb & Hpa). split; [done |]. split.
  - unfold boundary in *. destruct p as [[g o] off]. destruct Hb as [? | (w & ? & ?)]; [by left | right].
    exists w. by split; [apply Hsub |].
  - intros g o Hg Ho Hlt. destruct (Hpa g o Hg Ho Hlt) as (x & ? & ?). exists x. by split; [apply Hsub |].
Qed.

Lemma after_reached c p x : tidy m c -> cache_in_media c -> x ∈ fc_fragments c -> reached c p ->
  continues p x -> reached c (after x).
Proof.
  intros Ht Hin Hx (_ & _ & Hpa) Hc. split; [by apply (after_place c) |].
  unfold boundary, passed, after. split.
  - destruct (Z.leb_spec (blen (content m (frag_key x))) (cf_offset x + cf_data_length x)); [by left | right].
    exists x. split; [done |]. split; [done |]. split; [| done].
    pose proof (pc_range _ _ (tidy_piece m c x Ht Hx)) as Hr. fold (frag_key x) in Hr.
    destruct (td_nonempty _ _ Ht x Hx); lia.
  - intros g o Hg Ho Hlt. destruct (decide ((g, o) = frag_key x)) as [-> | Hne]; [by exists x |].
    apply Hpa; [done | done |]. destruct p as [[g0 o0] off0]. unfold continues, starts, frag_key in *.
    assert (g = cf_group_id x -> o <> cf_object_id x) as Hne' by (intros ? ?; congruence).
    unfold key_lt in *. cbn [fst snd] in *.
    destruct Hc as [[= <- <- _] | (-> & _ & [= Eg Eo _])]; destruct (_ <=? _); cbn [fst snd] in Hlt; try lia.
    + destruct (Z.eq_dec g g0) as [-> |]; lia.
    + destruct (Z.eq_dec g g0) as [-> |]; lia.
Qed.

(** A turn of the loop. *)
Lemma progress_step_cases c x : tidy m c -> x ∈ fc_fragments c -> place_ok (pointer c) ->
  match progress_step c x with
  | Some c1 => continues (pointer c) x /\ pointer c1 = after x
  | None => ~ continues (pointer c) x
  end.
Proof.
  intros Ht Hx (Hg & Ho & Hoff & _). pose proof (tidy_piece m c x Ht Hx) as Hp.
  pose proof (count_range m (fc_next_group_id c)) as Hcr. pose proof (piece_end _ _ Hp) as [_ Hbig].
  pose proof Hp as [Hxg Hxo Hl Hr _].
  assert (fc_next_group_id c +64 1 = fc_next_group_id c + 1) as En by (apply u64_small; u64_lia).
  unfold progress_step, continues, starts, pointer, frag_key. rewrite En.
  assert (forall c', (fc_next_group_id c', fc_next_object_id c', fc_next_offset c') = starts x ->
    pointer (if cf_object_length x <=? fc_next_offset c' +64 cf_data_length x
             then fc_set_next c' (fc_next_group_id c') (fc_next_object_id c' +64 1) 0
             else fc_set_next c' (fc_next_group_id c') (fc_next_object_id c')
                    (fc_next_offset c' +64 cf_data_length x)) = after x) as Hafter.
  { intros c' [= -> -> ->]. unfold after, frag_key. rewrite Hl.
    rewrite (u64_small (_ + cf_data_length x)), (u64_small (_ + 1)) by (unfold is_id in *; u64_lia).
    by destruct (_ <=? _). }
  destruct (_ && _ && (cf_offset x =? _)) eqn:E1.
  { b2p. assert (starts x = (fc_next_group_id c, fc_next_object_id c, fc_next_offset c)) as E
      by (unfold starts, frag_key; congruence).
    split; [left; exact E | by apply Hafter]. }
  assert (starts x <> (fc_next_group_id c, fc_next_object_id c, fc_next_offset c)) as Hne.
  { intros [= H1 H2 H3]. by rewrite H1, H2, H3, !Z.eqb_refl in E1. }
  destruct (_ && _ && _ && _ && _ && _) eqn:E2.
  - b2p. assert (fc_next_object_id c = count m (fc_next_group_id c)) as Ec.
    { pose proof (td_nb _ _ Ht x Hx ltac:(lia) ltac:(lia) ltac:(lia)) as Hnb.
      replace (cf_group_id x - 1) with (fc_next_group_id c) in Hnb by lia. congruence. }
    split; [right; split_and!; try done; congruence |]. apply Hafter. cbn. unfold starts, frag_key. congruence.
  - intros [? | (Ec & E0 & [= Eg Eo Eof])]; [done |].
    assert (cf_nb_objects_previous_group x = count m (fc_next_group_id c)) as Enb.
    { rewrite (td_nb _ _ Ht x Hx) by lia. f_equal. lia. }
    rewrite Eg, Eo, Eof, Ec, Enb, E0, !Z.eqb_refl, (proj2 (Z.ltb_lt 0 _)) in E2 by lia. done.
Qed.

(** ** The next node of the tree *)

(** Nothing between [x] and [y]: [y] is the node that follows. *)
Lemma tree_next c l1 x l2 y : tidy m c -> splay_nodes (fc_fragment_tree c) = l1 ++ x :: l2 ->
  y ∈ fc_fragments c -> quicrq_fragment_cache_node_compare x y < 0 ->
  (forall z, z ∈ fc_fragments c -> quicrq_fragment_cache_node_compare x z < 0 ->
     quicrq_fragment_cache_node_compare z y < 0 -> False) -> head l2 = Some y.
Proof.
  intros Ht E Hy Hlt Hno.
  assert (forall z, z ∈ l1 ++ x :: l2 -> z ∈ fc_fragments c /\ fkey_ok z) as Hin.
  { intros z Hz. rewrite <- E in Hz. apply (tidy_node m) in Hz; [| done].
    split; [done |]. by eapply piece_key, tidy_piece. }
  assert (fkey_ok x) as Xk by (apply Hin, elem_of_middle).
  assert (fkey_ok y) as Yk by by eapply piece_key, tidy_piece.
  assert (y ∈ l2) as Hy2.
  { pose proof Hy as Hyn. rewrite <- (tidy_node m c y Ht), E in Hyn.
    apply elem_of_app in Hyn as [Hy1 | [-> | ?]%elem_of_cons]; [| | done].
    - pose proof (td_ordered _ _ Ht) as Hord. unfold ordered in Hord. rewrite E in Hord.
      apply StronglySorted_app in Hord as (Hyx & _ & _).
      assert (quicrq_fragment_cache_node_compare y x < 0) as Hc by (apply Hyx; [done | by left]).
      apply fragment_compare_lt in Hc; [| done | done]. apply fragment_compare_lt in Hlt; [lia | done | done].
    - apply fragment_compare_lt in Hlt; [lia | done | done]. }
  destruct l2 as [| z l]; [by apply not_elem_of_nil in Hy2 |]. cbn. f_equal.
  apply elem_of_cons in Hy2 as [<- | Hyl]; [done | exfalso]. apply (Hno z).
  - apply Hin, elem_of_app. right. right. by left.
  - apply (ordered_split_lt m c l1 x (z :: l) z Ht E). by left.
  - apply (ordered_split_lt m c (l1 ++ [x]) z l y Ht); [| done]. by rewrite E, <- (assoc_L (++)).
Qed.

(** The fragment that continues from the end of [x] is the next one. *)
Lemma continues_next c l1 x l2 y : tidy m c -> cache_in_media c ->
  splay_nodes (fc_fragment_tree c) = l1 ++ x :: l2 -> y ∈ fc_fragments c ->
  continues (after x) y -> head l2 = Some y.
Proof.
  intros Ht Hin E Hy Hc.
  assert (x ∈ fc_fragments c) as Hx by (apply (tidy_node m); [done | rewrite E; apply elem_of_middle]).
  pose proof (tidy_piece m c x Ht Hx) as Hpx. pose proof (pc_range _ _ Hpx) as Hrx.
  pose proof (tidy_piece m c y Ht Hy) as Hpy. pose proof (pc_range _ _ Hpy) as Hry.
  pose proof (Hin x Hx) as Hcx. pose proof (Hin y Hy) as Hcy.
  assert (forall z, z ∈ fc_fragments c -> fkey_ok z) as Hkey by (intros; by eapply piece_key, tidy_piece).
  assert (forall z, z ∈ fc_fragments c -> quicrq_fragment_cache_node_compare x z < 0 ->
    frag_key z = frag_key x -> cf_offset x + cf_data_length x <= cf_offset z /\
      cf_offset z < blen (content m (frag_key x))) as Hsame.
  { intros z Hz Hlt Hk. apply fragment_compare_lt in Hlt; [| by apply Hkey ..].
    pose proof Hk as [= Ek1 Ek2].
    pose proof (td_disjoint _ _ Ht x z Hx Hz (eq_sym Hk) ltac:(lia)) as Hd.
    pose proof (pc_range _ _ (tidy_piece m c z Ht Hz)) as Hrz. fold (frag_key z) in Hrz.
    pose proof (td_nonempty _ _ Ht z Hz) as Hnz. rewrite Hk in Hrz, Hnz. split; [lia |]. lia. }
  apply (tree_next c l1 x l2 y Ht E Hy).
  - apply fragment_compare_lt; [by apply Hkey .. |]. unfold continues, after in Hc.
    destruct (Z.leb_spec (blen (content m (frag_key x))) (cf_offset x + cf_data_length x)).
    + destruct Hc as [[= ] | (_ & _ & [= ])]; lia.
    + destruct Hc as [[= Eg Eo Eoff] | (Ec & _ & _)]; [| unfold frag_key in *; lia].
      destruct (td_nonempty _ _ Ht x Hx); [lia |]. unfold frag_key in *. lia.
  - intros z Hz Hxz Hzy. specialize (Hsame z Hz Hxz). pose proof (Hin z Hz) as Hcz.
    destruct (tidy_piece m c z Ht Hz) as [_ [Hoz _] _ Hrz _].
    apply fragment_compare_lt in Hxz; [| by apply Hkey ..].
    apply fragment_compare_lt in Hzy; [| by apply Hkey ..].
    unfold continues, after, frag_key in *.
    destruct (Z.leb_spec (blen (content m (cf_group_id x, cf_object_id x))) (cf_offset x + cf_data_length x))
      as [Hle | Hgt].
    + assert ((cf_group_id z, cf_object_id z) <> (cf_group_id x, cf_object_id x)) as Hne.
      { intros Ek. destruct (Hsame Ek). lia. }
      assert (cf_group_id z = cf_group_id x -> cf_object_id z <> cf_object_id x) as Hne' by (intros ? ?; congruence).
      destruct Hc as [[= ] | (Ec & _ & [= ])]; [lia |].
      destruct (Z.eq_dec (cf_group_id z) (cf_group_id x)) as [Eg |]; [rewrite Eg in Hcz; lia | lia].
    + destruct Hc as [[= Eg Eo Eoff] | (Ec & _ & _)]; [| lia].
      assert ((cf_group_id z, cf_object_id z) = (cf_group_id x, cf_object_id x)) as Ek by (f_equal; lia).
      destruct (Hsame Ek). lia.
Qed.

(** ** The loop *)

Lemma furthest_ext c c' : fc_fragments c' = fc_fragments c -> pointer c' = pointer c ->
  furthest c -> furthest c'.
Proof.
  unfold furthest. intros Ef ->. rewrite Ef. intros [Hr Hno]. split; [| done].
  apply (reached_more c); [by rewrite Ef | done].
Qed.

Lemma progress_loop_furthest fuel : forall c f l1 l2 c',
  tidy m c -> cache_in_media c -> splay_nodes (fc_fragment_tree c) = l1 ++ f :: l2 -> reached c (pointer c) ->
  (forall x, x ∈ fc_fragments c -> continues (pointer c) x -> x = f) ->
  progress_loop fuel c f = Some c' -> furthest c'.
Proof.
  induction fuel as [| fuel IH]; intros c f l1 l2 c' Ht Hin E Hpl Hone; cbn [progress_loop]; [done |].
  assert (f ∈ fc_fragments c) as Hf by (apply (tidy_node m); [done | rewrite E; apply elem_of_middle]).
  pose proof (progress_step_cases c f Ht Hf (proj1 Hpl)) as Hs.
  destruct (progress_step c f) as [c1 |] eqn:Es.
  2: { intros [= <-]. split; [done |]. intros x Hx Hc. apply Hs. by rewrite <- (Hone x Hx Hc). }
  destruct Hs as [Hcf Hp1]. apply progress_step_only in Es as Honly.
  pose proof Honly as (g & o & off & hg & ho & fl & Ec1).
  assert (fc_fragments c1 = fc_fragments c /\ fc_fragment_tree c1 = fc_fragment_tree c) as [Ef1 Et1] by by rewrite Ec1.
  assert (tidy m c1) as Ht1.
  { rewrite Ec1. destruct Ht as [[[] ?] ? ? ? ?]. by do 3 (split; try done). }
  rewrite Et1, (splay_next_eq _ _ _ _ E) by apply (so_sorted _ (co_store _ _ (td_cache _ _ Ht))).
  assert (reached c1 (pointer c1)) as Hpl1.
  { rewrite Hp1. apply (reached_more c); [by rewrite Ef1 |]. by apply (after_reached c (pointer c)). }
  destruct l2 as [| x l]; cbn [head].
  { intros [= <-]. split; [done |]. rewrite Ef1, Hp1. intros y Hy Hc.
    pose proof (continues_next c l1 f [] y Ht Hin E Hy Hc). done. }
  apply (IH _ x (l1 ++ [f]) l); [done | unfold cache_in_media; by rewrite Ef1
    | by rewrite Et1, E, <- (assoc_L (++)) | done |].
  rewrite Ef1, Hp1. intros y Hy Hc. pose proof (continues_next c l1 f (x :: l) y Ht Hin E Hy Hc) as Hh.
  by injection Hh.
Qed.

Lemma add_furthest c p nb len c' :
  add_proposal c p nb len = Some (c', 0) -> store_ok c -> fkey_ok (proposed c p nb len) ->
  tidy m c' -> cache_in_media c' -> furthest c -> furthest c'.
Proof.
  intros E Hs Hk Ht Hin [Hpl Hno]. destruct (add_proposal_spec c p nb len alloc_ok Hs Hk)
    as (c2 & E2 & Hs2 & Ef & En & Hpo). rewrite E in E2. injection E2 as <-.
  pose proof (progress_only_tidy m _ _ Hpo Ht) as Ht1.
  unfold add_proposal, quicrq_fragment_add_to_cache in E. rewrite alloc_ok in E.
  fold (proposed c p nb len) in E. set (f := proposed c p nb len) in *.
  set (c1 := fc_set_fragments c _ _ _) in *.
  assert (f ∈ splay_nodes (fc_fragment_tree c1)) as Hf.
  { apply (tidy_node m); [done |]. subst c1. cbn. apply elem_of_snoc. by right. }
  unfold quicrq_fragment_cache_progress in E. revert E. set (c3 := if _ && (_ || _) then _ else _).
  assert (fc_fragments c3 = fc_fragments c1 /\ fc_fragment_tree c3 = fc_fragment_tree c1 /\
    pointer c3 = pointer c /\ tidy m c3) as (E1 & E2 & Hp3 & Ht3).
  { subst c3. destruct (_ && (_ || _)), (pair_ltb _ _ _ _); do 3 (split; [done |]);
      eapply progress_only_tidy; try exact Ht1; try apply progress_only_refl;
      exists (fc_next_group_id c1), (fc_next_object_id c1), (fc_next_offset c1),
        (fc_highest_group_id c1), (fc_highest_object_id c1), (fc_lowest_flags c1);
      by destruct c. }
  clearbody c3. intros E. rewrite <- E2 in Hf. apply list_elem_of_split in Hf as (l1 & l2 & En3).
  destruct (progress_loop _ c3 f) as [c4 |] eqn:El; [| done]. injection E as <-.
  change (fc_fragments c1) with (fc_fragments c ++ [f]) in E1.
  eapply progress_loop_furthest; [exact Ht3 | | exact En3 | | | exact El].
  - unfold cache_in_media in *. by rewrite E1, <- Ef.
  - rewrite Hp3. apply (reached_more c); [| done]. intros x Hx. rewrite E1. apply elem_of_app. by left.
  - rewrite E1, Hp3. intros x [Hx | ->]%elem_of_snoc Hc; [by destruct (Hno x Hx) | done].
Qed.

(** ** Proposals *)

Lemma exact_in_media fs c : exact m fs c -> Forall (consistent m) fs -> cache_in_media c.
Proof.
  intros Hex Hfs x Hx. destruct (ex_ranges _ _ _ Hex x Hx) as (f & Hf & [= -> ->] & _).
  rewrite Forall_forall in Hfs. by destruct (Hfs f Hf) as [_ [_ Ho] _ _ _ _].
Qed.

Lemma furthest_init : furthest quicrq_fragment_cache_create_ctx.
Proof.
  split; [| by intros x ?%not_elem_of_nil]. split; [| split; [by left |]].
  - pose proof (count_range m 0). unfold place_ok. cbn. unfold two62. lia.
  - intros g o Hg Ho Hlt. unfold key_lt in Hlt. cbn in Hlt. lia.
Qed.

Lemma propose_furthest fs c f :
  exact m fs c -> Forall (consistent m) fs -> consistent m f ->
  0 < f_data_length f \/ blen (content m (f_key f)) = 0 -> Forall (no_overlap f) fs -> furthest c ->
  forall c' ret wake, propose_f c f = Some (c', ret, wake) -> furthest c'.
Proof.
  intros Hex Hfs Hf Hne Hno Hfu c' ret wake E.
  destruct (propose_f_clean alloc_ok m c f (ex_tidy _ _ _ Hex) (exact_acceptable m fs c f Hex Hf Hne Hno))
    as (c2 & wake2 & s & E2 & _ & Hres & Hc). rewrite E in E2. injection E2 as <- _ _.
  pose proof (exact_in_media (fs ++ [f]) _ (exact_step alloc_ok m fs c f s Hex Hf Hno Hres)
    ltac:(apply Forall_app; split; [done | by apply Forall_singleton])) as Hin.
  assert (furthest (ps_cache s)) as Hs.
  { destruct Hres as (_ & Ht' & [(-> & _) | (len & Ea & _ & Hl & _)]); [done |].
    eapply (add_furthest _ _ _ _ _ Ea); [apply (ex_tidy _ _ _ Hex) | | done | done | done].
    eapply piece_key, (proposed_piece m _ _ (f_data_length f)); [by apply consistent_genuine | done]. }
  destruct Hc as [-> | ->]; [done | by apply (furthest_ext (ps_cache s))].
Qed.

(** ** The objects that arrived *)

(** There is a fragment of every object that arrived, empty objects included. *)
Definition objects_kept (fs : list fragment) c : Prop :=
  forall f, f ∈ fs -> exists x, x ∈ fc_fragments c /\ frag_key x = f_key f.

Lemma propose_empty c f c' ret wake : tidy m c -> consistent m f ->
  (fc_first_group_id c = 0 /\ fc_first_object_id c = 0) -> f_data_length f = 0 ->
  propose_f c f = Some (c', ret, wake) ->
  exists x, x ∈ fc_fragments c' /\ frag_key x = f_key f.
Proof.
  intros Ht Hf [E1 E2] E0. pose proof Hf as [Hg [Ho _] _ Hr _ _]. unfold is_id in *.
  unfold propose_f, quicrq_fragment_propose_to_cache. rewrite E1, E2.
  rewrite (proj2 (pair_ltb_false (f_group f) (f_object f) 0 0)) by lia.
  unfold tree_fuel at 1. cbn [propose_loop].
  set (p := {| pp_data := f_data f |}). set (key := fragment_key _ _ _).
  set (s := {| ps_cache := c; ps_ret := 0 |}).
  assert (forall s', propose_step p s = Some s' -> ps_ret s' = 0 /\ ps_data_length s' = 0 /\
    exists x, x ∈ fc_fragments (ps_cache s') /\ frag_key x = f_key f) as Hstep.
  { assert (forall s', propose_whole p s = Some s' -> ps_ret s' = 0 /\ ps_data_length s' = 0 /\
      exists x, x ∈ fc_fragments (ps_cache s') /\ frag_key x = f_key f) as Hwhole.
    { intros s'. unfold propose_whole. cbn [ps_cache ps_nb ps_data_length s].
      destruct (add_proposal_spec c p (f_nb_previous f) (f_data_length f) alloc_ok) as (c2 & -> & _ & Ef & _).
      - apply Ht.
      - unfold fkey_ok, is_key. cbn. unfold is_id, two62 in *. pose proof (content_range m (f_key f)). lia.
      - intros [= <-]. split; [done |]. split; [done |]. cbn [ps_cache]. rewrite Ef.
        eexists. split; [apply elem_of_snoc; by right | done]. }
    intros s'. unfold propose_step. destruct (ps_node s) as [x |] eqn:En; [| apply Hwhole].
    destruct (negb _ || _) eqn:Eo; [apply Hwhole |]. apply orb_false_iff in Eo as [Eo Eend].
    apply negb_false_iff, is_object_key in Eo. unfold propose_overlap. cbn [ps_data_length s].
    rewrite E0, Z.add_0_r, (u64_small (pp_offset p)) by (cbn; pose proof (content_range m (f_key f)); u64_lia).
    rewrite Eend. assert (x ∈ fc_fragments c) as Hx.
    { apply (splay_find_previous_le fkey_ok) in En as [Hx _].
      - by apply (tidy_node m).
      - apply fragment_order.
      - apply (so_sorted _ (co_store _ _ (td_cache _ _ Ht))).
      - unfold fkey_ok, is_key. cbn. unfold is_id, two62 in *. u64_lia. }
    intros [= <-]. destruct (Z.leb_spec (cf_offset x) (f_offset f)); cbn [ps_ret ps_data_length ps_cache s];
      (split; [done |]); (split; [| by exists x]); [done |].
    rewrite E0, Z.add_0_r, (u64_small (f_offset f)) by (pose proof (content_range m (f_key f)); u64_lia).
    by rewrite (proj2 (Z.ltb_ge _ _)) by lia. }
  destruct (propose_step p s) as [s' |] eqn:Es; [| done].
  destruct (Hstep s' eq_refl) as (Er & El & x & Hx & Hk). rewrite Er, El. cbn [Z.eqb Z.ltb Z.compare andb].
  intros E. exists x. split; [| done].
  assert (fc_fragments c' = fc_fragments (ps_cache s')) as ->; [| done].
  repeat case_match; by simplify_eq/=.
Qed.

Lemma propose_kept fs c f c' ret wake :
  exact m fs c -> consistent m f -> 0 < f_data_length f \/ blen (content m (f_key f)) = 0 ->
  Forall (no_overlap f) fs -> objects_kept fs c -> propose_f c f = Some (c', ret, wake) ->
  objects_kept (fs ++ [f]) c'.
Proof.
  intros Hex Hf Hne Hno Hk E.
  destruct (propose_exact alloc_ok m fs c f Hex Hf Hne Hno) as (c2 & wake2 & E2 & Hex2 & _ & _ & Hsub).
  rewrite E in E2. injection E2 as <- _ _. intros f0 [Hf0 | ->]%elem_of_snoc.
  - destruct (Hk f0 Hf0) as (x & Hx & ?). exists x. by split; [apply Hsub |].
  - destruct (Z.eq_dec (f_data_length f) 0) as [E0 |].
    + apply (propose_empty c f c' ret wake); [apply Hex | done | apply Hex | done | done].
    + destruct Hf as [_ _ _ Hr _ _]. assert (cached c' (f_key f) (f_offset f)) as Hc.
      { apply (ex_cached _ _ _ Hex2), Exists_exists. exists f. split; [apply elem_of_snoc; by right |].
        split; [done | lia]. }
      apply Exists_exists in Hc as (x & ? & ? & _). by exists x.
Qed.

(** ** The pointer and what arrived *)

(** All the objects before the point arrived. *)
Definition received_before (fs : list fragment) (p : Z * Z) : Prop :=
  forall g o, 0 <= g -> 0 <= o < count m g -> key_lt (g, o) p -> fully_received m fs (g, o).

Definition started (fs : list fragment) (k : Z * Z) : Prop :=
  fully_received m fs k \/ byte_received fs k 0.
(** The place of the first object that did not fully arrive; it is after the
    last object of a group as long as the next group has not started. *)
Record frontier (fs : list fragment) (p : Z * Z) : Prop := {
  fr_place : 0 <= p.1 /\ 0 <= p.2 <= count m p.1;
  fr_before : received_before fs p;
  fr_next : if p.2 =? count m p.1 then ~ started fs (p.1 + 1, 0) else ~ fully_received m fs p;
  fr_entered : p.2 = 0 -> p.1 = 0 \/ byte_received fs p 0;
}.

Lemma frontier_unique fs p q : frontier fs p -> frontier fs q -> p = q.
Proof.
  assert (forall p q, frontier fs p -> frontier fs q -> ~ key_lt p q) as Hlt.
  { intros [g o] [g' o'] [[Hg Ho] _ Hn _] [[Hg' Ho'] Hb' Hn' He'] Hlt. unfold key_lt in *. cbn [fst snd] in *.
    pose proof (count_range m (g + 1)). destruct (Z.eqb_spec o (count m g)) as [-> | Hne].
    - assert (g < g') by (destruct Hlt as [? | [-> ?]]; lia). apply Hn. destruct (decide (g' = g + 1 /\ o' = 0)) as [[-> ->] |].
      + right. destruct (He' eq_refl); [lia | done].
      + left. apply Hb'; [lia | lia | unfold key_lt; cbn; lia].
    - apply Hn, Hb'; unfold key_lt; cbn; lia. }
  intros Hp Hq. pose proof (Hlt p q Hp Hq). pose proof (Hlt q p Hq Hp). destruct p, q. unfold key_lt in *.
  cbn [fst snd] in *. f_equal; lia.
Qed.

(** What is there of the next object. *)
Lemma furthest_frontier fs c : exact m fs c -> Forall (consistent m) fs -> pointer_ok m c -> furthest c ->
  objects_kept fs c ->
  let k := (fc_next_group_id c, fc_next_object_id c) in
  frontier fs k /\ (fc_next_offset c <> 0 <-> byte_received fs k 0).
Proof.
  intros Hex Hfs [Hby Hob Hgr] [(Hpl & Hbd & Hpa) Hno] Hk. cbv zeta. pose proof (ex_tidy _ _ _ Hex) as Ht.
  destruct Hpl as (Hg & Ho & Hoff & Hent).
  assert (forall q, started fs q -> exists x, x ∈ fc_fragments c /\ starts x = (q, 0)) as Hstart.
  { intros q Hq. assert (byte_received fs q 0 -> exists x, x ∈ fc_fragments c /\ starts x = (q, 0)) as Hb0.
    { intros (x & Hx & <- & Hi)%(ex_cached _ _ _ Hex)%Exists_exists. exists x. split; [done |].
      pose proof (pc_range _ _ (tidy_piece m c x Ht Hx)). unfold starts. f_equal. lia. }
    destruct Hq as [[(f & Hf & <-)%Exists_exists Hall] | Hb]; [| by apply Hb0].
    destruct (Z.eq_dec (blen (content m (f_key f))) 0) as [E |].
    - destruct (Hk f Hf) as (x & Hx & Hkx). exists x. split; [done |]. unfold starts. rewrite Hkx. f_equal.
      pose proof (pc_range _ _ (tidy_piece m c x Ht Hx)) as Hr. fold (frag_key x) in Hr. rewrite Hkx in Hr. lia.
    - apply Hb0, Hall. pose proof (blen_nonneg (content m (f_key f))). lia. }
  split; [split |]; cbn [fst snd].
  - lia.
  - intros g o Hg0 Ho0 Hlt. split.
    + destruct (Hpa g o Hg0 Ho0 Hlt) as (x & Hx & Hkx). destruct (ex_ranges _ _ _ Hex x Hx) as (f & Hf & Hkf & _).
      apply Exists_exists. exists f. split; [done | congruence].
    + intros i Hi. apply (ex_cached _ _ _ Hex). unfold key_lt in Hlt. cbn [fst snd] in Hlt.
      destruct (Z.eq_dec g (fc_next_group_id c)) as [-> |].
      * apply (proj2 Hob); [lia | done].
      * apply (proj2 Hgr); [lia | lia | done].
  - destruct (Z.eqb_spec (fc_next_object_id c) (count m (fc_next_group_id c))) as [E | E].
    + intros (x & Hx & Hs)%Hstart. apply (Hno x Hx). right. split; [done |]. split; [lia | done].
    + intros Hf. destruct (Z.eq_dec (fc_next_offset c) 0) as [E0 | E0].
      * destruct (Hstart _ (or_introl Hf)) as (x & Hx & Hs). apply (Hno x Hx). left. unfold pointer. by rewrite E0.
      * destruct Hoff as [? | [_ Hoff]]; [done |].
        destruct (proj1 (Exists_exists _ _) (proj2 (ex_cached _ _ _ Hex _ _) (proj2 Hf (fc_next_offset c) ltac:(lia))))
          as (y & Hy & Hky & Hi).
        destruct Hbd as [? | (w & Hw & Hkw & Hlw & Hew)]; [done |]. apply (Hno y Hy). left.
        unfold starts, pointer. rewrite Hky. f_equal.
        destruct (Z.lt_trichotomy (cf_offset y) (cf_offset w)) as [Hlt | [Eq | Hlt]].
        -- pose proof (td_disjoint _ _ Ht y w Hy Hw ltac:(congruence) Hlt). lia.
        -- assert (y = w) as -> by (apply (tidy_offset_unique m c); [done .. | congruence | done]). lia.
        -- pose proof (td_disjoint _ _ Ht w y Hw Hy ltac:(congruence) Hlt). lia.
  - intros E. destruct (Z.eq_dec (fc_next_offset c) 0) as [E0 | E0]; [left; by apply Hent | right].
    apply (ex_cached _ _ _ Hex). apply (proj2 Hby). destruct Hoff; lia.
  - split.
    + intros E0. apply (ex_cached _ _ _ Hex). apply (proj2 Hby). destruct Hoff; lia.
    + intros Hb E0. destruct (Hstart _ (or_intror Hb)) as (x & Hx & Hs). apply (Hno x Hx). left.
      unfold pointer. by rewrite E0.
Qed.
End progress.
