(* ===== verification/FragmentTheorems.v ===== *)
(** * What the fragment cache guarantees

    The properties of the cache part of lib/fragment.c, and three inputs on
    which the code does not do what it means to. *)

From S2P Require Import Prelude Picosplay Media Fragment FragmentProofs FragmentReads FragmentHistory.

(** ** A concrete instance for the witnesses *)

Module CacheDemo.
#[export] Instance malloc_always : Allocator := fun _ => true.

Program Definition cache_media : media :=
  {| content := fun k => [k.1; k.2; 7; 8; 9; 10; 11; 12]; count := fun _ => 2 |}.
Solve Obligations with (intros; cbv; split; congruence) || (intros; done).

Definition part (g o offset len : Z) : fragment := {|
  f_time := 0; f_data := slice [g; o; 7; 8; 9; 10; 11; 12] offset len; f_group := g; f_object := o;
  f_offset := offset; f_delay := 0; f_flags := 128; f_nb_previous := if o =? 0 then 2 else 0;
  f_object_length := 8; f_data_length := len |}.

Lemma part_consistent g o offset len :
  0 <= g < 100 -> 0 <= o < 2 -> 0 <= offset -> 0 <= len -> offset + len <= 8 ->
  consistent cache_media (part g o offset len).
Proof.
  intros. split; cbn; unfold is_id, two62, blen; cbn; try lia; try done. by intros _ -> _.
Qed.

(** Two objects, out of order, with a repetition. *)
Definition parts : list fragment := [part 0 1 0 8; part 0 0 3 5; part 0 0 0 3; part 0 0 3 5].

Lemma parts_consistent : Forall (consistent cache_media) parts.
Proof. repeat constructor; apply part_consistent; lia. Qed.

(** The parts do not overlap except for the repetition. *)
Lemma parts_no_overlap f f' : f ∈ parts -> f' ∈ parts -> no_overlap f f'.
Proof.
  intros Hf Hf' Hk. unfold parts in *. rewrite !elem_of_cons, elem_of_nil in *.
  unfold same_range.
  repeat match goal with H : _ \/ _ |- _ => destruct H as [-> | H] end; try done;
    cbn in *; try discriminate; lia.
Qed.

Lemma parts_nonempty :
  Forall (fun f => 0 < f_data_length f \/ blen (content cache_media (f_key f)) = 0) parts.
Proof. repeat constructor. Qed.

(** The same, followed by the first object of the next group. *)
Definition two_groups : list fragment := parts ++ [part 1 0 0 8].
Lemma two_groups_consistent : Forall (consistent cache_media) two_groups.
Proof. repeat constructor; apply part_consistent; lia. Qed.
Lemma two_groups_nonempty :
  Forall (fun f => 0 < f_data_length f \/ blen (content cache_media (f_key f)) = 0) two_groups.
Proof. repeat constructor. Qed.
Lemma two_groups_no_overlap f f' : f ∈ two_groups -> f' ∈ two_groups -> no_overlap f f'.
Proof.
  unfold two_groups. rewrite !elem_of_snoc. intros [Hf | ->] [Hf' | ->]; [by apply parts_no_overlap | | |];
    intros Hk; [exfalso | exfalso | by left]; unfold parts in *; rewrite !elem_of_cons, elem_of_nil in *;
    destruct_or?; by subst.
Qed.
End CacheDemo.
Import CacheDemo.

(** C24: Integrity of the cache.  Whatever fragments of a media are proposed, in
    any order, repeated and overlapping: the loops end and no call fails;
    every cached fragment carries the bytes of the media at its offset, and
    only bytes that were received; the tree and the list of arrivals hold the
    same fragments, the tree in (group, object, offset) order. *)
Theorem cache_integrity
    `{SL : SplayLaws quicrq_cached_fragment_t quicrq_fragment_cache_node_compare}
    {Al : Allocator} (m : media) (fs : list fragment) :
  (forall n, malloc_ok n = true) -> Forall (consistent m) fs ->
  exists c, propose_all quicrq_fragment_cache_create_ctx fs = Some c /\
    Forall (fun f => cf_data f = slice (content m (cf_group_id f, cf_object_id f)) (cf_offset f)
                                   (cf_data_length f)) (fc_fragments c) /\
    (forall k i, cached c k i -> byte_received fs k i) /\
    (forall f, f ∈ fc_fragments c <-> f ∈ splay_nodes (fc_fragment_tree c)) /\
    splay_sorted fkey_ok (fc_fragment_tree c).
Proof.
  intros Hal Hfs. destruct (propose_all_integrity Hal m fs [] quicrq_fragment_cache_create_ctx)
    as (c & -> & [Hs Hp] & Hfrom); [apply (td_cache m), tidy_init | | done |].
  { intros k i H. by apply Exists_nil in H. }
  exists c. split; [done |]. split.
  { eapply Forall_impl; [exact Hp |]. by intros f [_ _ _ _ ?]. }
  split; [exact Hfrom |]. split; apply Hs.
Qed.
Lemma cache_integrity_witness :
  let fs := [part 0 0 0 5; part 0 0 2 6; part 0 0 1 7] in
  exists c, propose_all quicrq_fragment_cache_create_ctx fs = Some c /\
    Forall (fun f => cf_data f = slice (content cache_media (cf_group_id f, cf_object_id f))
                                   (cf_offset f) (cf_data_length f)) (fc_fragments c) /\
    (forall k i, cached c k i -> byte_received fs k i) /\
    (forall f, f ∈ fc_fragments c <-> f ∈ splay_nodes (fc_fragment_tree c)) /\
    splay_sorted fkey_ok (fc_fragment_tree c).
Proof.
  intros fs. apply (cache_integrity cache_media fs); [done |].
  repeat constructor; apply part_consistent; lia.
Defined.

(** C14: Coverage of the cache.  For a history of fragments that may be repeated
    but do not overlap otherwise, in any order, the cache holds exactly the
    bytes received; the cached fragments of an object are disjoint; and
    everything before the in-order pointer (next group, object and offset) is
    in the cache. *)
Theorem cache_coverage
    `{SL : SplayLaws quicrq_cached_fragment_t quicrq_fragment_cache_node_compare}
    {Al : Allocator} (m : media) (fs : list fragment) :
  (forall n, malloc_ok n = true) -> Forall (consistent m) fs ->
  Forall (fun f => 0 < f_data_length f \/ blen (content m (f_key f)) = 0) fs ->
  (forall f f', f ∈ fs -> f' ∈ fs -> no_overlap f f') ->
  exists c, propose_all quicrq_fragment_cache_create_ctx fs = Some c /\
    (forall k i, cached c k i <-> byte_received fs k i) /\
    (forall f f', f ∈ fc_fragments c -> f' ∈ fc_fragments c -> frag_key f = frag_key f' ->
       f = f' \/ cf_offset f + cf_data_length f <= cf_offset f' \/
       cf_offset f' + cf_data_length f' <= cf_offset f) /\
    (forall i, 0 <= i < fc_next_offset c -> cached c (fc_next_group_id c, fc_next_object_id c) i) /\
    (forall o, 0 <= o < fc_next_object_id c -> whole m c (fc_next_group_id c, o)) /\
    (forall g o, 0 <= g < fc_next_group_id c -> 0 <= o < count m g -> whole m c (g, o)).
Proof.
  intros Hal Hfs Hne Hno.
  destruct (propose_all_exact Hal m fs [] quicrq_fragment_cache_create_ctx)
    as (c & -> & [Ht _ Hc _] & [[_ Hb] [_ Ho] [_ Hg]]);
    [apply exact_init | apply pointer_init | done | done | done |].
  exists c. split_and!; try done. intros f f' Hf Hf' Hk.
  destruct (Z.lt_trichotomy (cf_offset f) (cf_offset f')) as [Hlt | [E | Hlt]].
  - right. left. by apply (td_disjoint _ _ Ht).
  - left. by apply (tidy_offset_unique m c).
  - right. right. by apply (td_disjoint _ _ Ht).
Qed.
Lemma cache_coverage_witness :
  (exists c, propose_all quicrq_fragment_cache_create_ctx parts = Some c /\
    (forall k i, cached c k i <-> byte_received parts k i) /\
    (forall f f', f ∈ fc_fragments c -> f' ∈ fc_fragments c -> frag_key f = frag_key f' ->
       f = f' \/ cf_offset f + cf_data_length f <= cf_offset f' \/
       cf_offset f' + cf_data_length f' <= cf_offset f) /\
    (forall i, 0 <= i < fc_next_offset c -> cached c (fc_next_group_id c, fc_next_object_id c) i) /\
    (forall o, 0 <= o < fc_next_object_id c -> whole cache_media c (fc_next_group_id c, o)) /\
    (forall g o, 0 <= g < fc_next_group_id c -> 0 <= o < count cache_media g ->
       whole cache_media c (g, o))) /\
  match propose_all quicrq_fragment_cache_create_ctx parts with
  | Some c => (fc_next_group_id c, fc_next_object_id c, fc_next_offset c,
               length (fc_fragments c)) = (0, 2, 0, 3%nat)
  | None => False
  end.
Proof.
  split; [| by vm_compute].
  apply (cache_coverage cache_media parts); [done | apply parts_consistent | apply parts_nonempty |].
  apply parts_no_overlap.
Defined.

(** C37: A single proposal that does not extend past the end of a cached
    fragment that it overlaps: the cache gains exactly its bytes. *)
Theorem propose_adds_exactly
    `{SL : SplayLaws quicrq_cached_fragment_t quicrq_fragment_cache_node_compare}
    {Al : Allocator} (m : media) c (f : fragment) :
  (forall n, malloc_ok n = true) -> tidy m c -> acceptable m c f ->
  exists c' wake, propose_f c f = Some (c', 0, wake) /\ tidy m c' /\
    forall k i, cached c' k i <->
      cached c k i \/ (k = f_key f /\ f_offset f <= i < f_offset f + f_data_length f).
Proof.
  intros Hal Ht Hac.
  destruct (propose_f_clean Hal m c f Ht Hac) as (c' & wake & s & -> & Ht' & Hres & Hc').
  exists c', wake. split; [done |]. split; [done |].
  pose proof (clean_cached m c f s Hres) as Hcov. by destruct Hc' as [-> | ->].
Qed.
Lemma propose_adds_exactly_witness :
  let c := match propose_f quicrq_fragment_cache_create_ctx (part 0 0 3 2) with
           | Some (c, _, _) => c | None => quicrq_fragment_cache_create_ctx end in
  exists c' wake, propose_f c (part 0 0 1 4) = Some (c', 0, wake) /\ tidy cache_media c' /\
    forall k i, cached c' k i <-> cached c k i \/ (k = (0, 0) /\ 1 <= i < 1 + 4).
Proof.
  intros c.
  assert (tidy cache_media c) as Ht.
  { destruct (propose_adds_exactly cache_media quicrq_fragment_cache_create_ctx (part 0 0 3 2))
      as (c1 & wake & E & Ht & _); [done | apply tidy_init | |].
    - split; [apply part_consistent; lia | done | | by left].
      intros x Hx. by apply not_elem_of_nil in Hx.
    - subst c. by rewrite E. }
  apply (propose_adds_exactly cache_media c (part 0 0 1 4)); [done | exact Ht |].
  split; [apply part_consistent; lia | done | | by left].
  intros x Hx _. assert (map cf_end (fc_fragments c) = [5]) as Ec by done.
  assert (map cf_offset (fc_fragments c) = [3] /\ map cf_data_length (fc_fragments c) = [2])
    as [Eo El] by done.
  destruct (fc_fragments c) as [| y [| ? ?]]; try done. injection Eo as Eo. injection El as El.
  apply list_elem_of_singleton in Hx as ->. cbn. lia.
Defined.

(** A proposal that extends past the end of a cached fragment that it
    overlaps: the bytes after that end are lost.  They are added with the
    offset and the first bytes of the proposal, instead of the bytes after
    the overlap.  Five bytes of an object of eight are cached, the whole
    object is then proposed and accepted: byte 5 is still missing, and the
    cache has two fragments at offset 0. *)
Theorem propose_loses_tail :
  match propose_all quicrq_fragment_cache_create_ctx [part 0 0 0 5; part 0 0 0 8] with
  | Some c =>
      ~ cached c (0, 0) 5 /\
      map (fun f => (cf_offset f, cf_data_length f, cf_data f)) (fc_fragments c) =
        [(0, 5, [0; 0; 7; 8; 9]); (0, 3, [0; 0; 7])] /\
      option_map (fun r => r.1.2) (propose_f c (part 0 0 0 8)) = Some 0
  | None => False
  end.
Proof.
  vm_compute. split; [| done]. intros H.
  repeat match goal with H : Exists _ (_ :: _) |- _ => apply Exists_cons in H as [[_ [H1 H2]] | H] end.
  - discriminate H2.
  - discriminate H2.
  - by apply Exists_nil in H.
Qed.

(** C36: Reading the available bytes of an object.  When the bytes before [e]
    are in the cache and byte [e] is not, the copy from [offset] of at most
    [available] bytes gives the bytes of the media from [offset] to [e], cut
    at [available]. *)
Theorem copy_available_exact
    `{SL : SplayLaws quicrq_cached_fragment_t quicrq_fragment_cache_node_compare}
    (m : media) c (g o offset available e : Z) :
  tidy m c -> is_id g -> is_id o -> available_until c (g, o) e ->
  0 <= offset < two62 -> 0 <= available < two62 ->
  quicrq_fragment_object_copy_available_data c g o offset available =
    Some (slice (content m (g, o)) offset (Z.min available (Z.max 0 (e - offset)))).
Proof.
  apply copy_available_spec.
Qed.

(** The cache of the parts, for the witnesses. *)
Definition parts_cache :=
  default quicrq_fragment_cache_create_ctx (propose_all quicrq_fragment_cache_create_ctx parts).

Lemma parts_cache_exact : exact cache_media parts parts_cache.
Proof.
  destruct (propose_all_exact (Al := malloc_always) ltac:(done) cache_media parts [] quicrq_fragment_cache_create_ctx)
    as (c & E & Hex & _); [apply exact_init | apply pointer_init | apply parts_consistent
      | apply parts_nonempty | apply parts_no_overlap |].
  unfold parts_cache. by rewrite E.
Qed.

Lemma parts_available : available_until parts_cache (0, 0) 8.
Proof.
  pose proof (ex_cached _ _ _ parts_cache_exact) as Hc. split; [lia |]. split.
  - intros i Hi. apply Hc. unfold byte_received, parts.
    destruct (Z.lt_ge_cases i 3).
    + do 2 right. left. split; [done | cbn; lia].
    + right. left. split; [done | cbn; lia].
  - rewrite Hc. unfold byte_received, parts. intros H.
    repeat (apply Exists_cons in H as [[_ H] | H]; [cbn in H; lia |]). by apply Exists_nil in H.
Qed.

Lemma copy_available_exact_witness :
  quicrq_fragment_object_copy_available_data parts_cache 0 0 2 4 =
    Some (slice (content cache_media (0, 0)) 2 (Z.min 4 (Z.max 0 (8 - 2)))) /\
  slice (content cache_media (0, 0)) 2 4 = [7; 8; 9; 10].
Proof.
  split; [| done]. apply (copy_available_exact cache_media parts_cache 0 0 2 4 8);
    [apply parts_cache_exact | done | done | apply parts_available | done | done].
Defined.

(** Copying a whole object that is in the cache.  The size is right, and
    the calls of [memcpy] read each fragment of the object in order; but they
    all write at the beginning of the buffer, and they read fragment [f] from
    its own byte [cf_offset f].  So the copy is right when one fragment holds
    the object, and otherwise reads past the end of a fragment. *)
Theorem object_copy_overreads
    `{SL : SplayLaws quicrq_cached_fragment_t quicrq_fragment_cache_node_compare}
    (m : media) c (g o : Z) :
  tidy m c -> is_id g -> is_id o -> 0 < blen (content m (g, o)) -> whole m c (g, o) ->
  exists copies nb flags,
    quicrq_fragment_object_copy c g o = Some (blen (content m (g, o)), copies, nb, Some flags) /\
    ((exists f, copies = [(f, 0, 0, blen (content m (g, o)))] /\ cf_data f = content m (g, o)) \/
     (exists f source length, (f, 0, source, length) ∈ copies /\
        cf_data_length f < source + length)).
Proof.
  intros Ht Hg Ho Hpos Hw. set (L := blen (content m (g, o))) in *.
  assert (available_until c (g, o) L) as Hav.
  { split; [lia |]. split; [exact Hw |]. intros H. apply Exists_exists in H as (f & Hf & Hk & Hr).
    pose proof (pc_range _ _ (tidy_piece m c f Ht Hf)) as Hp. unfold frag_key in Hk.
    rewrite Hk in Hp. fold L in Hp. lia. }
  destruct (first_fragment m c (g, o) L Ht Hg Ho Hav) as (l1 & l2 & E & Ef & Hat).
  cbn [fst snd] in Ef. unfold quicrq_fragment_object_copy. rewrite Ef.
  destruct (object_copy_loop_spec m c g o (tree_fuel c) l1 l2 0 [] 0)
    as (fs & nb & flags & -> & Hcon & Hin); try done; [unfold tree_fuel; rewrite E, length_app; lia |].
  cbn [app]. fold L in Hcon |- *. exists (map copy_call fs), nb, flags. split; [done |].
  destruct fs as [| f fs]; [cbn in Hcon; lia |]. cbn in Hcon. destruct Hcon as (Hk & Hf0 & _ & Hcon).
  apply Forall_cons in Hin as [Hfin Hin]. pose proof (tidy_piece m c f Ht Hfin) as Pf.
  destruct fs as [| f' fs].
  - cbn in Hcon. left. exists f. cbn. unfold copy_call. rewrite Hf0.
    replace (cf_data_length f) with L by lia. split; [done |].
    rewrite (pc_data _ _ Pf), Hf0. unfold frag_key in Hk. rewrite Hk.
    replace (cf_data_length f) with L by lia. apply slice_all.
  - cbn in Hcon. destruct Hcon as (Hk' & Hf' & Hlt & _). right.
    exists f', (cf_offset f'), (cf_data_length f'). split; [cbn; right; left |].
    destruct (td_nonempty _ _ Ht f Hfin) as [? | Hz]; [lia |]. rewrite Hk in Hz. fold L in Hz. lia.
Qed.
Lemma object_copy_overreads_witness :
  exists copies nb flags,
    quicrq_fragment_object_copy parts_cache 0 0
      = Some (blen (content cache_media (0, 0)), copies, nb, Some flags) /\
    ((exists f, copies = [(f, 0, 0, blen (content cache_media (0, 0)))] /\
        cf_data f = content cache_media (0, 0)) \/
     (exists f source length, (f, 0, source, length) ∈ copies /\
        cf_data_length f < source + length)).
Proof.
  apply (object_copy_overreads cache_media parts_cache 0 0);
    [apply parts_cache_exact | done | done | done |].
  intros i Hi. by apply parts_available.
Defined.


(** Learning the start point removes exactly the fragments before it, keeps
    the order of arrival of the others, and moves the first point, and the
    in-order pointer if it is behind. *)
Theorem learn_start_exact
    `{SL : SplayLaws quicrq_cached_fragment_t quicrq_fragment_cache_node_compare} c (g o : Z) :
  store_ok c ->
  let c' := learn_start_point c g o in
  store_ok c' /\
  fc_fragments c' = List.filter (fun f => negb (pair_ltb (cf_group_id f) (cf_object_id f) g o))
                      (fc_fragments c) /\
  (fc_first_group_id c', fc_first_object_id c') = (g, o) /\
  (fc_next_group_id c', fc_next_object_id c') =
    (if pair_ltb (fc_next_group_id c) (fc_next_object_id c) g o then (g, o)
     else (fc_next_group_id c, fc_next_object_id c)).
Proof.
  intros Hs. cbn zeta. unfold learn_start_point.
  set (c1 := fc_set_first c g o).
  set (c2 := if pair_ltb _ _ _ _ then _ else c1).
  assert (store_ok c2 /\ fc_fragments c2 = fc_fragments c /\
    (fc_first_group_id c2, fc_first_object_id c2) = (g, o) /\
    (fc_next_group_id c2, fc_next_object_id c2) =
      (if pair_ltb (fc_next_group_id c) (fc_next_object_id c) g o then (g, o)
       else (fc_next_group_id c, fc_next_object_id c))) as (Hs2 & Ef & E1 & E2).
  { subst c2 c1. cbn [fc_set_first fc_next_group_id fc_next_object_id].
    destruct (pair_ltb _ _ _ _); (split; [destruct Hs; by split | done]). }
  clearbody c2. destruct (delete_before_spec _ (prefix_point g o) (tree_fuel c2) c2 Hs2)
    as (Hs' & Ef' & _ & fr & tr & Ec); [unfold tree_fuel; lia |].
  split_and!; [done | by rewrite Ef', Ef | by rewrite Ec | by rewrite Ec].
Qed.
Lemma learn_start_exact_witness :
  let c' := learn_start_point parts_cache 0 1 in
  store_ok c' /\
  fc_fragments c' = List.filter (fun f => negb (pair_ltb (cf_group_id f) (cf_object_id f) 0 1))
                      (fc_fragments parts_cache) /\
  (fc_first_group_id c', fc_first_object_id c') = (0, 1) /\
  (fc_next_group_id c', fc_next_object_id c') =
    (if pair_ltb (fc_next_group_id parts_cache) (fc_next_object_id parts_cache) 0 1 then (0, 1)
     else (fc_next_group_id parts_cache, fc_next_object_id parts_cache)).
Proof.
  apply (learn_start_exact parts_cache 0 1).
  apply (co_store _ _ (td_cache _ _ (ex_tidy _ _ _ parts_cache_exact))).
Defined.

(** The offset of the in-order pointer is not reset when the start point
    moves it to another object: after a partly received object (0, 0) and the
    start point (3, 0), the pointer waits for a fragment of (3, 0) at offset
    5, and receiving the whole object does not move it. *)
Theorem learn_start_stale_offset :
  match propose_all quicrq_fragment_cache_create_ctx [part 0 0 0 5] with
  | Some c =>
      match propose_all (learn_start_point c 3 0) [part 3 0 0 8] with
      | Some c =>
          map (fun f => (cf_group_id f, cf_offset f, cf_data_length f)) (fc_fragments c)
            = [(3, 0, 8)] /\
          (fc_next_group_id c, fc_next_object_id c, fc_next_offset c) = (3, 0, 5)
      | None => False
      end
  | None => False
  end.
Proof. by vm_compute. Qed.
