(* ===== verification/Ack.v ===== *)
(** * lib/quicrq.c: acknowledgement of datagrams

    For each media sent as datagrams, the stream context keeps the fragments
    sent and not yet forgotten, in a splay tree ordered by group, object and
    offset, and a horizon, the point below which everything is acknowledged.
    Lost fragments are queued again, split if they are too long, and extra
    copies may be scheduled.

    The records live in [ak_states], keyed by (group, object, offset): a
    record is only created after a failed lookup, so the key designates one
    record.  The tree and the queue of extra repeats hold keys.  [None] stands
    for undefined behaviour: a [NULL] or dangling pointer is dereferenced, or
    a buffer is read past its end. *)

From S2P Require Import Prelude Picosplay PicoFrames Proto.

Abbreviation akey := (Z * Z * Z)%type.

Record quicrq_datagram_ack_state_t := {
  da_group_id : Z;
  da_object_id : Z;
  da_object_offset : Z;
  da_nb_objects_previous_group : Z;
  da_queue_delay : Z;
  da_flags : Z;
  da_object_length : Z;
  da_length : Z;
  da_is_acked : bool;
  da_nack_received : bool;
  da_extra_repeat_time : Z;
  da_extra_data : option (list Z);
  da_is_extra_queued : bool;
  da_start_time : Z;
  da_last_sent_time : Z;
}.
Definition sizeof_datagram_ack_state : Z := 168.

Definition da_key (d : quicrq_datagram_ack_state_t) : akey :=
  (da_group_id d, da_object_id d, da_object_offset d).

(** Field updates. *)
Definition da_set_acked d := {| da_group_id := da_group_id d; da_object_id := da_object_id d;
  da_object_offset := da_object_offset d;
  da_nb_objects_previous_group := da_nb_objects_previous_group d;
  da_queue_delay := da_queue_delay d; da_flags := da_flags d;
  da_object_length := da_object_length d; da_length := da_length d; da_is_acked := true;
  da_nack_received := da_nack_received d; da_extra_repeat_time := da_extra_repeat_time d;
  da_extra_data := da_extra_data d; da_is_extra_queued := da_is_extra_queued d;
  da_start_time := da_start_time d; da_last_sent_time := da_last_sent_time d |}.
Definition da_set_nack d b := {| da_group_id := da_group_id d; da_object_id := da_object_id d;
  da_object_offset := da_object_offset d;
  da_nb_objects_previous_group := da_nb_objects_previous_group d;
  da_queue_delay := da_queue_delay d; da_flags := da_flags d;
  da_object_length := da_object_length d; da_length := da_length d; da_is_acked := da_is_acked d;
  da_nack_received := b; da_extra_repeat_time := da_extra_repeat_time d;
  da_extra_data := da_extra_data d; da_is_extra_queued := da_is_extra_queued d;
  da_start_time := da_start_time d; da_last_sent_time := da_last_sent_time d |}.
Definition da_set_length d n := {| da_group_id := da_group_id d; da_object_id := da_object_id d;
  da_object_offset := da_object_offset d;
  da_nb_objects_previous_group := da_nb_objects_previous_group d;
  da_queue_delay := da_queue_delay d; da_flags := da_flags d;
  da_object_length := da_object_length d; da_length := n; da_is_acked := da_is_acked d;
  da_nack_received := da_nack_received d; da_extra_repeat_time := da_extra_repeat_time d;
  da_extra_data := da_extra_data d; da_is_extra_queued := da_is_extra_queued d;
  da_start_time := da_start_time d; da_last_sent_time := da_last_sent_time d |}.
Definition da_set_sent d now := {| da_group_id := da_group_id d; da_object_id := da_object_id d;
  da_object_offset := da_object_offset d;
  da_nb_objects_previous_group := da_nb_objects_previous_group d;
  da_queue_delay := da_queue_delay d; da_flags := da_flags d;
  da_object_length := da_object_length d; da_length := da_length d; da_is_acked := da_is_acked d;
  da_nack_received := da_nack_received d; da_extra_repeat_time := da_extra_repeat_time d;
  da_extra_data := da_extra_data d; da_is_extra_queued := da_is_extra_queued d;
  da_start_time := da_start_time d; da_last_sent_time := now |}.
Definition da_set_props d olen nack := {| da_group_id := da_group_id d;
  da_object_id := da_object_id d; da_object_offset := da_object_offset d;
  da_nb_objects_previous_group := da_nb_objects_previous_group d;
  da_queue_delay := da_queue_delay d; da_flags := da_flags d; da_object_length := olen;
  da_length := da_length d; da_is_acked := da_is_acked d; da_nack_received := nack;
  da_extra_repeat_time := da_extra_repeat_time d; da_extra_data := da_extra_data d;
  da_is_extra_queued := da_is_extra_queued d; da_start_time := da_start_time d;
  da_last_sent_time := da_last_sent_time d |}.
Definition da_set_extra d time data queued := {| da_group_id := da_group_id d;
  da_object_id := da_object_id d; da_object_offset := da_object_offset d;
  da_nb_objects_previous_group := da_nb_objects_previous_group d;
  da_queue_delay := da_queue_delay d; da_flags := da_flags d;
  da_object_length := da_object_length d; da_length := da_length d; da_is_acked := da_is_acked d;
  da_nack_received := da_nack_received d; da_extra_repeat_time := time; da_extra_data := data;
  da_is_extra_queued := queued; da_start_time := da_start_time d;
  da_last_sent_time := da_last_sent_time d |}.

Definition quicrq_datagram_ack_node_compare (l r : akey) : Z :=
  let '(gl, ol, offl) := l in
  let '(gr, or, offr) := r in
  let ret := s64 (gl - gr) in
  let ret := if ret =? 0 then s64 (ol - or) else ret in
  if ret =? 0 then s64 (offl - offr) else ret.

(** The settings of the quicrq context. *)
Record extra_settings := {
  extra_repeat_on_nack : bool;
  extra_repeat_after_received_delayed : bool;
  extra_repeat_delay : Z;
}.

Definition quicrq_set_extra_repeat (qr : extra_settings) (on_nack after_delayed : Z)
  : extra_settings := {|
  extra_repeat_on_nack := negb (on_nack =? 0);
  extra_repeat_after_received_delayed := negb (after_delayed =? 0);
  extra_repeat_delay := extra_repeat_delay qr |}.

Definition quicrq_set_extra_repeat_delay (qr : extra_settings) (delay_in_microseconds : Z)
  : extra_settings := {|
  extra_repeat_on_nack := extra_repeat_on_nack qr;
  extra_repeat_after_received_delayed := extra_repeat_after_received_delayed qr;
  extra_repeat_delay := delay_in_microseconds |}.

(** The queue of datagrams of picoquic: its limits, and the result of
    [picoquic_queue_datagram_frame] given what was queued so far. *)
Class PicoQueue := {
  PICOQUIC_MAX_PACKET_SIZE : Z;
  PICOQUIC_DATAGRAM_QUEUE_MAX_LENGTH : Z;
  picoquic_queue_datagram_frame : list (list Z) -> Z -> list Z -> Z;
}.

Section ack.
Context `{Sp : Splay akey quicrq_datagram_ack_node_compare}.
Context {Al : Allocator} {PF : PicoFrames} {PQ : PicoQueue}.

(** The part of the stream context that the acknowledgements use: the queue of
    extra repeats from [extra_first] to [extra_last], the horizon, the
    counters, the tree and its records; [ak_queued] lists the datagrams given
    to picoquic by the repeats. *)
Record quicrq_datagram_ack_ctx_t := {
  ak_media_id : Z;
  ak_extra : list akey;
  ak_horizon_group_id : Z;
  ak_horizon_object_id : Z;
  ak_horizon_offset : Z;
  ak_horizon_is_last_fragment : bool;
  ak_nb_horizon_events : Z;
  ak_nb_horizon_acks : Z;
  ak_nb_extra_sent : Z;
  ak_nb_fragment_lost : Z;
  ak_tree : splay quicrq_datagram_ack_node_compare;
  ak_states : gmap akey quicrq_datagram_ack_state_t;
  ak_queued : list (list Z);
}.

(** Field updates. *)
Definition ak_set_extra c l n := {| ak_media_id := ak_media_id c; ak_extra := l;
  ak_horizon_group_id := ak_horizon_group_id c; ak_horizon_object_id := ak_horizon_object_id c;
  ak_horizon_offset := ak_horizon_offset c;
  ak_horizon_is_last_fragment := ak_horizon_is_last_fragment c;
  ak_nb_horizon_events := ak_nb_horizon_events c; ak_nb_horizon_acks := ak_nb_horizon_acks c;
  ak_nb_extra_sent := n; ak_nb_fragment_lost := ak_nb_fragment_lost c; ak_tree := ak_tree c;
  ak_states := ak_states c; ak_queued := ak_queued c |}.
Definition ak_set_horizon c g o off last := {| ak_media_id := ak_media_id c;
  ak_extra := ak_extra c; ak_horizon_group_id := g; ak_horizon_object_id := o;
  ak_horizon_offset := off; ak_horizon_is_last_fragment := last;
  ak_nb_horizon_events := ak_nb_horizon_events c; ak_nb_horizon_acks := ak_nb_horizon_acks c;
  ak_nb_extra_sent := ak_nb_extra_sent c; ak_nb_fragment_lost := ak_nb_fragment_lost c;
  ak_tree := ak_tree c; ak_states := ak_states c; ak_queued := ak_queued c |}.
Definition ak_count c events acks lost := {| ak_media_id := ak_media_id c; ak_extra := ak_extra c;
  ak_horizon_group_id := ak_horizon_group_id c; ak_horizon_object_id := ak_horizon_object_id c;
  ak_horizon_offset := ak_horizon_offset c;
  ak_horizon_is_last_fragment := ak_horizon_is_last_fragment c; ak_nb_horizon_events := events;
  ak_nb_horizon_acks := acks; ak_nb_extra_sent := ak_nb_extra_sent c; ak_nb_fragment_lost := lost;
  ak_tree := ak_tree c; ak_states := ak_states c; ak_queued := ak_queued c |}.
Definition ak_set_tree c t m := {| ak_media_id := ak_media_id c; ak_extra := ak_extra c;
  ak_horizon_group_id := ak_horizon_group_id c; ak_horizon_object_id := ak_horizon_object_id c;
  ak_horizon_offset := ak_horizon_offset c;
  ak_horizon_is_last_fragment := ak_horizon_is_last_fragment c;
  ak_nb_horizon_events := ak_nb_horizon_events c; ak_nb_horizon_acks := ak_nb_horizon_acks c;
  ak_nb_extra_sent := ak_nb_extra_sent c; ak_nb_fragment_lost := ak_nb_fragment_lost c;
  ak_tree := t; ak_states := m; ak_queued := ak_queued c |}.
Definition ak_set_queued c q := {| ak_media_id := ak_media_id c; ak_extra := ak_extra c;
  ak_horizon_group_id := ak_horizon_group_id c; ak_horizon_object_id := ak_horizon_object_id c;
  ak_horizon_offset := ak_horizon_offset c;
  ak_horizon_is_last_fragment := ak_horizon_is_last_fragment c;
  ak_nb_horizon_events := ak_nb_horizon_events c; ak_nb_horizon_acks := ak_nb_horizon_acks c;
  ak_nb_extra_sent := ak_nb_extra_sent c; ak_nb_fragment_lost := ak_nb_fragment_lost c;
  ak_tree := ak_tree c; ak_states := ak_states c; ak_queued := q |}.

Definition ak_put c (k : akey) (d : quicrq_datagram_ack_state_t) : quicrq_datagram_ack_ctx_t :=
  ak_set_tree c (ak_tree c) (<[k := d]> (ak_states c)).

(** ** The queue of extra repeats *)

Definition quicrq_datagram_ack_extra_dequeue c (k : akey) : option quicrq_datagram_ack_ctx_t :=
  das ← ak_states c !! k;
  match da_extra_data das with
  | None => Some c
  | Some _ =>
      let c := ak_set_extra c (List.filter (fun x => negb (bool_decide (x = k))) (ak_extra c))
                 (ak_nb_extra_sent c) in
      Some (ak_put c k (da_set_extra das 0 None (da_is_extra_queued das)))
  end.

Definition quicrq_datagram_ack_extra_queue c (k : akey) (data : list Z) (repeat_time : Z)
  : option quicrq_datagram_ack_ctx_t :=
  das ← ak_states c !! k;
  if da_is_extra_queued das then Some c
  else
    let c := ak_put c k (da_set_extra das (da_extra_repeat_time das) (da_extra_data das) true) in
    (* new repeat request replaces the previous one *)
    c ← quicrq_datagram_ack_extra_dequeue c k;
    das ← ak_states c !! k;
    if malloc_ok (da_length das) then
      if blen data <? da_length das then None   (* memcpy past the end of data *)
      else
        let c := ak_put c k (da_set_extra das repeat_time (Some (ztake (da_length das) data))
                               (da_is_extra_queued das)) in
        Some (ak_set_extra c (ak_extra c ++ [k]) (ak_nb_extra_sent c + 1))
    else Some c.

(** ** The tree of records *)

(** [picosplay_delete_hint], which calls the delete callback. *)
Definition quicrq_datagram_ack_node_delete c (k : akey) : option quicrq_datagram_ack_ctx_t :=
  das ← ak_states c !! k;
  c ← (if da_extra_data das is Some _ then quicrq_datagram_ack_extra_dequeue c k else Some c);
  Some (ak_set_tree c (splay_delete (ak_tree c) k) (delete k (ak_states c))).

Definition quicrq_datagram_ack_ctx_init (media_id : Z) : quicrq_datagram_ack_ctx_t := {|
  ak_media_id := media_id; ak_extra := []; ak_horizon_group_id := UINT64_MAX;
  ak_horizon_object_id := UINT64_MAX; ak_horizon_offset := UINT64_MAX;
  ak_horizon_is_last_fragment := true; ak_nb_horizon_events := 0; ak_nb_horizon_acks := 0;
  ak_nb_extra_sent := 0; ak_nb_fragment_lost := 0; ak_tree := splay_empty; ak_states := ∅;
  ak_queued := [] |}.

Definition quicrq_datagram_ack_find c (group_id object_id object_offset : Z) : option akey :=
  splay_find (ak_tree c) (group_id, object_id, object_offset).

Definition quicrq_datagram_check_horizon c (group_id object_id object_offset : Z) : Z :=
  let ret := s64 (group_id - ak_horizon_group_id c) in
  let ret := if ret =? 0 then s64 (object_id - ak_horizon_object_id c) else ret in
  if ret =? 0 then s64 (object_offset - ak_horizon_offset c) else ret.

(** The result: the context, [ret] and [*p_created_state]. *)
Definition quicrq_datagram_ack_init (qr : extra_settings) c (group_id object_id object_offset flags
    nb_objects_previous_group : Z) (data : list Z) (length queue_delay object_length
    current_time : Z) : option (quicrq_datagram_ack_ctx_t * Z * option akey) :=
  if quicrq_datagram_check_horizon c group_id object_id object_offset <? 0 then
    Some (ak_count c (ak_nb_horizon_events c + 1) (ak_nb_horizon_acks c) (ak_nb_fragment_lost c),
          0, None)
  else
    match quicrq_datagram_ack_find c group_id object_id object_offset with
    | Some _ => Some (c, 1, None)
    | None =>
        if malloc_ok sizeof_datagram_ack_state then
          let da_new := {|
            da_group_id := group_id; da_object_id := object_id; da_object_offset := object_offset;
            da_nb_objects_previous_group := nb_objects_previous_group;
            da_queue_delay := queue_delay; da_flags := flags; da_object_length := object_length;
            da_length := length; da_is_acked := false; da_nack_received := false;
            da_extra_repeat_time := 0; da_extra_data := None; da_is_extra_queued := false;
            da_start_time := current_time; da_last_sent_time := 0 |} in
          let k := da_key da_new in
          let c := ak_set_tree c (splay_insert (ak_tree c) k) (<[k := da_new]> (ak_states c)) in
          c ← (if extra_repeat_after_received_delayed qr && (0 <? extra_repeat_delay qr) &&
                  (20 <? queue_delay)
               then quicrq_datagram_ack_extra_queue c k data
                      (current_time +64 extra_repeat_delay qr)
               else Some c);
          Some (c, 0, Some k)
        else Some (c, -1, None)
    end.

(** ** Acknowledgements *)

(** [ret] of [handle_ack] is always 0 and is omitted. *)
Fixpoint ack_loop (fuel : nat) c (group_id object_id : Z) (found : akey)
    (acked_length acked_offset : Z) : option quicrq_datagram_ack_ctx_t :=
  match fuel with
  | O => None
  | S fuel' =>
      if 0 <? acked_length then
        das ← ak_states c !! found;
        let c := ak_put c found (da_set_acked das) in
        let acked_length := s64 (acked_length - da_length das) in
        let acked_offset := acked_offset +64 da_length das in
        if 0 <? acked_length then
          next ← splay_next (ak_tree c) found;      (* NULL is not tested *)
          next_das ← ak_states c !! next;
          if negb (da_group_id next_das =? group_id) || negb (da_object_id next_das =? object_id)
             || negb (da_object_offset next_das =? acked_offset)
          then Some c
          else ack_loop fuel' c group_id object_id next acked_length acked_offset
        else Some c
      else Some c
  end.

(** Whether a record comes just after the horizon. *)
Definition just_after c (das : quicrq_datagram_ack_state_t) : bool :=
  if da_group_id das =? ak_horizon_group_id c then
    if da_object_id das =? ak_horizon_object_id c then
      da_object_offset das =? ak_horizon_offset c
    else if ak_horizon_is_last_fragment c then
      (da_object_id das -64 ak_horizon_object_id c =? 1) && (da_object_offset das =? 0)
    else false
  else
    ak_horizon_is_last_fragment c && (da_group_id das =? ak_horizon_group_id c +64 1) &&
    (da_object_offset das =? 0) &&
    (da_nb_objects_previous_group das =? ak_horizon_object_id c +64 1).

(** Progress the horizon. *)
Fixpoint horizon_loop (fuel : nat) c (next_node : option akey)
  : option quicrq_datagram_ack_ctx_t :=
  match fuel with
  | O => None
  | S fuel' =>
      match next_node with
      | None => Some c
      | Some k =>
          das ← ak_states c !! k;
          if negb (da_is_acked das) then Some c
          else if negb (just_after c das) then Some c
          else
            (* collapse the horizon *)
            let offset := da_object_offset das +64 da_length das in
            let c := ak_set_horizon c (da_group_id das) (da_object_id das) offset
                       (da_object_length das <=? offset) in
            let next_node := splay_next (ak_tree c) k in
            c ← quicrq_datagram_ack_node_delete c k;
            horizon_loop fuel' c next_node
      end
  end.

(** A turn per record, and a last one. *)
Definition ack_fuel c : nat := S (S (length (splay_nodes (ak_tree c)))).

Definition quicrq_datagram_handle_ack c (group_id object_id object_offset length : Z)
  : option quicrq_datagram_ack_ctx_t :=
  let horizon_delta_group := s64 (group_id - ak_horizon_group_id c) in
  let horizon_delta := s64 (object_id - ak_horizon_object_id c) in
  let below := ak_count c (ak_nb_horizon_events c) (ak_nb_horizon_acks c + 1)
                 (ak_nb_fragment_lost c) in
  (* the context, is_below_horizon, should_check_horizon, acked_length, acked_offset *)
  let '(c, is_below_horizon, should_check_horizon, acked_length, acked_offset) :=
    if (horizon_delta_group =? 0) && (horizon_delta =? 0) then
      if object_offset +64 length <? ak_horizon_offset c then
        (below, true, false, s64 length, object_offset)
      else if object_offset <? ak_horizon_offset c then
        (* update the ACK to only retain the part above the horizon *)
        (c, false, true, s64 (s64 length - (ak_horizon_offset c - object_offset)),
         ak_horizon_offset c)
      else if object_offset =? ak_horizon_offset c then
        (c, false, true, s64 length, object_offset)
      else (c, false, false, s64 length, object_offset)
    else if (horizon_delta_group <? 0) || ((horizon_delta_group =? 0) && (horizon_delta <? 0)) then
      (below, true, false, s64 length, object_offset)
    else if (horizon_delta_group =? 0) && (horizon_delta =? 1) && ak_horizon_is_last_fragment c &&
            (object_offset =? 0) then
      (c, false, true, s64 length, object_offset)
    else
      (c, false, ak_horizon_group_id c =? UINT64_MAX, s64 length, object_offset) in
  c ← (if is_below_horizon then Some c
       else match quicrq_datagram_ack_find c group_id object_id acked_offset with
            | Some found =>
                ack_loop (ack_fuel c) c group_id object_id found acked_length acked_offset
            | None => Some c
            end);
  if should_check_horizon then horizon_loop (ack_fuel c) c (splay_first (ak_tree c)) else Some c.

(** ** Repeats *)

(** One datagram of [quicrq_datagram_handle_repeat]: the header, the number of
    bytes of data it carries and the datagram. *)
Definition repeat_datagram c (found : quicrq_datagram_ack_state_t) (data : list Z)
    (data_length current_time : Z) : option (list Z * Z * Z) :=
  let queue_delay_delta :=
    if da_start_time found <? current_time
    then (current_time -64 da_start_time found +64 500) / 1000 else 0 in
  header ← quicrq_datagram_header_encode (ak_media_id c) (da_group_id found) (da_object_id found)
             (da_object_offset found) (da_queue_delay found +64 queue_delay_delta)
             (da_flags found) (da_nb_objects_previous_group found) (da_object_length found)
             PICOQUIC_MAX_PACKET_SIZE;
  let header_length := blen header in
  let datagram_length := header_length +64 data_length in
  let '(fragment_length, datagram_length) :=
    if PICOQUIC_DATAGRAM_QUEUE_MAX_LENGTH <? datagram_length
    then (PICOQUIC_DATAGRAM_QUEUE_MAX_LENGTH -64 header_length, PICOQUIC_DATAGRAM_QUEUE_MAX_LENGTH)
    else (data_length, datagram_length) in
  Some (header, fragment_length, datagram_length).

(** The fragment is split after the [p] bytes of the datagram: the rest gets a
    record of its own; the context, [ret], and the new [found], [data] and
    [data_length]. *)
Definition split_repeated (qr : extra_settings) c (found : akey) (das : quicrq_datagram_ack_state_t) (p : Z)
    (data : list Z) (data_length : Z) : option (quicrq_datagram_ack_ctx_t * Z * option (akey * list Z * Z)) :=
  let next_offset := da_object_offset das +64 p in
  let data := zdrop p data in
  let data_length := data_length -64 p in
  '(c, ret, created) ← quicrq_datagram_ack_init qr c (da_group_id das)
     (da_object_id das) next_offset (da_flags das)
     (da_nb_objects_previous_group das) data data_length (da_queue_delay das)
     (da_object_length das) (da_start_time das);
  if ret =? 0 then
    next ← created;                                (* NULL is not tested *)
    next_das ← ak_states c !! next;
    let c := ak_put c next (da_set_props next_das (da_object_length das) (da_nack_received das)) in
    das ← ak_states c !! found;
    let c := ak_put c found (da_set_length das p) in
    Some (c, 0, Some (next, data, data_length))
  else Some (c, ret, None).

(** One turn of the loop: the context, [ret] and what remains to be sent, the
    new [found], [data] and [data_length], unless the loop stops. *)
Definition repeat_turn (qr : extra_settings) c (found : akey) (data : list Z) (data_length : Z)
    (prepare_extra : bool) (current_time : Z)
  : option (quicrq_datagram_ack_ctx_t * Z * option (akey * list Z * Z)) :=
  das ← ak_states c !! found;
  if negb ((0 <? data_length) || (da_flags das =? 255)) then Some (c, 0, None)
  else
    let das := da_set_sent das current_time in
    let c := ak_put c found das in
    '(header, fragment_length, datagram_length) ←
       repeat_datagram c das data data_length current_time;
    if PICOQUIC_MAX_PACKET_SIZE <? blen header +64 fragment_length then Some (c, -1, None)
    else if blen data <? fragment_length then None  (* memcpy past the end of data *)
    else
      let datagram := header ++ ztake fragment_length data in
      let ret := picoquic_queue_datagram_frame (ak_queued c) datagram_length datagram in
      if ret =? 0 then
        let c := ak_set_queued c (ak_queued c ++ [datagram]) in
        c ← (if prepare_extra && (0 <? extra_repeat_delay qr)
             then quicrq_datagram_ack_extra_queue c found data
                    (current_time +64 extra_repeat_delay qr)
             else Some c);
        if fragment_length <? data_length then
          split_repeated qr c found das fragment_length data data_length
        else Some (c, 0, None)
      else Some (c, ret, None).

Fixpoint repeat_loop (fuel : nat) (qr : extra_settings) c (found : akey) (data : list Z)
    (data_length : Z) (prepare_extra : bool) (current_time : Z)
  : option (quicrq_datagram_ack_ctx_t * Z) :=
  match fuel with
  | O => None
  | S fuel' =>
      '(c, ret, next) ← repeat_turn qr c found data data_length prepare_extra current_time;
      match next with
      | Some (found, data, data_length) =>
          repeat_loop fuel' qr c found data data_length prepare_extra current_time
      | None => Some (c, ret)
      end
  end.

(** A turn per byte of data, and a last one. *)
Definition quicrq_datagram_handle_repeat (qr : extra_settings) (is_connected : bool) c
    (found : akey) (data : list Z) (data_length : Z) (prepare_extra : bool) (current_time : Z)
  : option (quicrq_datagram_ack_ctx_t * Z) :=
  if is_connected then
    repeat_loop (S (S (Z.to_nat data_length))) qr c found data data_length prepare_extra
      current_time
  else Some (c, -1).

Definition quicrq_datagram_handle_lost (qr : extra_settings) (is_connected : bool) c
    (group_id object_id object_offset sent_time : Z) (bytes : list Z) (length current_time : Z)
  : option (quicrq_datagram_ack_ctx_t * Z) :=
  match quicrq_datagram_ack_find c group_id object_id object_offset with
  | None => Some (c, 0)
  | Some k =>
      das ← ak_states c !! k;
      if negb (da_is_acked das) then
        if negb (da_is_extra_queued das) || (da_last_sent_time das <=? sent_time +64 1000) then
          let c := ak_put c k (da_set_nack das true) in
          let c := ak_count c (ak_nb_horizon_events c) (ak_nb_horizon_acks c)
                     (ak_nb_fragment_lost c + 1) in
          quicrq_datagram_handle_repeat qr is_connected c k bytes length
            (extra_repeat_on_nack qr) current_time
        else Some (c, 0)
      else Some (c, 0)
  end.

(** The part of [quicrq_handle_extra_repeat] about one stream: the context and
    the next wake up time. *)
Fixpoint extra_repeat_loop (fuel : nat) (qr : extra_settings) (is_connected : bool) c
    (next_time current_time : Z) : option (quicrq_datagram_ack_ctx_t * Z) :=
  match fuel with
  | O => None
  | S fuel' =>
      match ak_extra c with
      | [] => Some (c, next_time)
      | k :: _ =>
          das ← ak_states c !! k;
          if da_extra_repeat_time das <=? current_time then
            data ← da_extra_data das;
            '(c, _) ← quicrq_datagram_handle_repeat qr is_connected c k data (da_length das) false
                        current_time;
            c ← quicrq_datagram_ack_extra_dequeue c k;
            extra_repeat_loop fuel' qr is_connected c current_time current_time
          else
            Some (c, if da_extra_repeat_time das <? next_time
                     then da_extra_repeat_time das else next_time)
      end
  end.

(** All the turns that the loop can make: a repeat splits a record in pieces
    that may be queued in turn, but that carry fewer bytes. *)
Definition extra_fuel c : nat :=
  S (list_sum (map (fun k => match ak_states c !! k with
                             | Some das => Nat.max 1 (Z.to_nat (da_length das))
                             | None => 1
                             end) (ak_extra c)))%nat.

Fixpoint extra_streams (qr : extra_settings) (is_connected : bool)
    (streams : list quicrq_datagram_ack_ctx_t) (next_time current_time : Z)
  : option (list quicrq_datagram_ack_ctx_t * Z) :=
  match streams with
  | [] => Some ([], next_time)
  | c :: streams =>
      '(c, next_time) ← extra_repeat_loop (extra_fuel c) qr is_connected c next_time current_time;
      '(streams, next_time) ← extra_streams qr is_connected streams next_time current_time;
      Some (c :: streams, next_time)
  end.

(** The connections, each with whether [cnx] is set and its streams. *)
Fixpoint extra_connections (qr : extra_settings)
    (cnxs : list (bool * list quicrq_datagram_ack_ctx_t)) (next_time current_time : Z)
  : option (list (bool * list quicrq_datagram_ack_ctx_t) * Z) :=
  match cnxs with
  | [] => Some ([], next_time)
  | (is_connected, streams) :: cnxs =>
      '(streams, next_time) ← extra_streams qr is_connected streams next_time current_time;
      '(cnxs, next_time) ← extra_connections qr cnxs next_time current_time;
      Some ((is_connected, streams) :: cnxs, next_time)
  end.

Definition quicrq_handle_extra_repeat (qr : extra_settings)
    (cnxs : list (bool * list quicrq_datagram_ack_ctx_t)) (current_time : Z) :=
  extra_connections qr cnxs UINT64_MAX current_time.

(** ** Entry point of the picoquic callbacks *)

Inductive datagram_event :=
  | picoquic_callback_datagram_acked
  | picoquic_callback_datagram_lost
  | picoquic_callback_datagram_spurious
  | picoquic_callback_other.

(** A stream of the connection, as [quicrq_find_stream_ctx_for_datagram] sees
    it. *)
Record datagram_stream := {
  ds_is_sender : bool;
  ds_transport_mode : quicrq_transport_mode_enum;
  ds_ack : quicrq_datagram_ack_ctx_t;
}.

(** The streams before the one found, it, and those after it. *)
Fixpoint quicrq_find_stream_ctx_for_datagram (streams : list datagram_stream) (media_id : Z)
    (is_sender : bool)
  : option (list datagram_stream * datagram_stream * list datagram_stream) :=
  match streams with
  | [] => None
  | s :: streams =>
      if Bool.eqb (ds_is_sender s) is_sender &&
         bool_decide (ds_transport_mode s = quicrq_transport_mode_datagram) &&
         (ak_media_id (ds_ack s) =? media_id)
      then Some ([], s, streams)
      else match quicrq_find_stream_ctx_for_datagram streams media_id is_sender with
           | Some (before, x, after) => Some (s :: before, x, after)
           | None => None
           end
  end.

Definition quicrq_handle_datagram_ack_nack (qr : extra_settings) (is_connected : bool)
    (streams : list datagram_stream) (event : datagram_event) (send_time : Z)
    (bytes : option (list Z)) (current_time : Z) : option (list datagram_stream * Z) :=
  match bytes with
  | None => Some (streams, -1)
  | Some bytes =>
      match quicrq_datagram_header_decode bytes with
      | None => Some (streams, -1)
      | Some ((media_id, group_id, object_id, object_offset, _, _, _, _), next_bytes) =>
          match quicrq_find_stream_ctx_for_datagram streams media_id true with
          | None => Some (streams, 0)
          | Some (before, s, after) =>
              let data_length := blen next_bytes in
              '(c, ret) ←
                match event with
                | picoquic_callback_datagram_acked | picoquic_callback_datagram_spurious =>
                    c ← quicrq_datagram_handle_ack (ds_ack s) group_id object_id object_offset
                          data_length;
                    Some (c, 0)
                | picoquic_callback_datagram_lost =>
                    quicrq_datagram_handle_lost qr is_connected (ds_ack s) group_id object_id
                      object_offset send_time next_bytes data_length current_time
                | picoquic_callback_other => Some (ds_ack s, -1)
                end;
              Some (before ++ {| ds_is_sender := ds_is_sender s;
                                 ds_transport_mode := ds_transport_mode s;
                                 ds_ack := c |} :: after, ret)
          end
      end
  end.

End ack.
