(* ===== verification/AckProofs.v ===== *)
(** * Well-formedness of the acknowledgement state

    The order of the records, the invariant [ack_ok] that ties the tree, the
    records and the queue of extra repeats, and what each operation does to
    it. *)

From S2P Require Import Prelude Picosplay PicoFrames Proto Ack.

(** ** The order of the records *)

Definition akey_ok (k : akey) : Prop :=
  let '(g, o, off) := k in is_key g /\ is_key o /\ is_key off.

Definition akey_lt (k l : akey) : Prop :=
  let '(g, o, off) := k in
  let '(g', o', off') := l in
  g < g' \/ (g = g' /\ (o < o' \/ (o = o' /\ off < off'))).

Ltac akey_destruct :=
  repeat match goal with
  | k : akey |- _ => destruct k as [[? ?] ?]
  | H : akey_ok _ |- _ => progress cbn in H; destruct H as (? & ? & ?)
  end.

Lemma ack_compare_cases k l : akey_ok k -> akey_ok l ->
  (quicrq_datagram_ack_node_compare k l < 0 <-> akey_lt k l) /\
  (quicrq_datagram_ack_node_compare k l = 0 <-> k = l) /\
  (0 < quicrq_datagram_ack_node_compare k l <-> akey_lt l k).
Proof.
  intros Hk Hl. akey_destruct. cbn. unfold is_key in *.
  rewrite !s64_small by lia.
  repeat (match goal with |- context [(?a - ?b) =? 0] => destruct (Z.eqb_spec (a - b) 0) end;
          try lia);
    (split; [| split]); split; intros; simplify_eq; try lia; repeat f_equal; lia.
Qed.

Lemma ack_compare_lt k l : akey_ok k -> akey_ok l ->
  quicrq_datagram_ack_node_compare k l < 0 <-> akey_lt k l.
Proof. intros. by apply ack_compare_cases. Qed.

Lemma ack_compare_eq k l : akey_ok k -> akey_ok l ->
  quicrq_datagram_ack_node_compare k l = 0 <-> k = l.
Proof. intros. by apply ack_compare_cases. Qed.

Lemma akey_lt_trans k l m : akey_lt k l -> akey_lt l m -> akey_lt k m.
Proof. akey_destruct. cbn. lia. Qed.

Lemma akey_lt_irrefl k : ~ akey_lt k k.
Proof. akey_destruct. cbn. lia. Qed.

#[export] Instance ack_order : CmpOrder quicrq_datagram_ack_node_compare akey_ok.
Proof.
  split.
  - intros x Hx. by apply ack_compare_eq.
  - intros x y Hx Hy. destruct (ack_compare_cases x y Hx Hy) as (H1 & H2 & H3).
    destruct (ack_compare_cases y x Hy Hx) as (H4 & H5 & H6).
    destruct (Z.lt_trichotomy (quicrq_datagram_ack_node_compare x y) 0) as [H | [H | H]].
    + pose proof (proj2 H6 (proj1 H1 H)). lia.
    + apply H2 in H as ->. pose proof (proj2 (proj1 (proj2 (ack_compare_cases y y Hy Hy))) eq_refl). lia.
    + pose proof (proj2 H4 (proj1 H3 H)). lia.
  - intros x y z Hx Hy Hz Hxy Hyz. apply ack_compare_lt; [done | done |].
    apply ack_compare_lt in Hxy; [| done | done].
    assert (quicrq_datagram_ack_node_compare y z < 0 \/
            quicrq_datagram_ack_node_compare y z = 0) as [H | H] by lia.
    + apply ack_compare_lt in H; [| done | done]. by eapply akey_lt_trans.
    + apply ack_compare_eq in H; [| done | done]. by subst.
  - intros x y z Hx Hy Hz Hxy Hyz. apply ack_compare_eq in Hxy; [| done | done]. by subst.
Qed.

Section proofs.
Context `{Sp : Splay akey quicrq_datagram_ack_node_compare} {SL : SplayLaws Sp}.
Context {Al : Allocator} {PF : PicoFrames} {PQ : PicoQueue}.
Implicit Types (c : quicrq_datagram_ack_ctx_t) (k : akey) (d : quicrq_datagram_ack_state_t).

(** ** The invariant *)

(** The properties of a fragment that its header carries. *)
Definition props_ok (nb olen delay start : Z) : Prop :=
  is_id nb /\ is_id olen /\ 0 <= delay < 2305843009213693952 /\ is_id start.

(** A record: its fields stay in the 62-bit range. *)
Definition das_ok d : Prop :=
  is_id (da_group_id d) /\ is_id (da_object_id d) /\ 0 <= da_object_offset d /\
  0 <= da_length d /\ da_object_offset d + da_length d < two62 /\
  props_ok (da_nb_objects_previous_group d) (da_object_length d) (da_queue_delay d)
    (da_start_time d).

Definition horizon_unset c : Prop :=
  ak_horizon_group_id c = UINT64_MAX /\ ak_horizon_object_id c = UINT64_MAX /\
  ak_horizon_offset c = UINT64_MAX /\ ak_horizon_is_last_fragment c = true.
Definition horizon_set c : Prop :=
  is_id (ak_horizon_group_id c) /\ is_id (ak_horizon_object_id c) /\
  0 <= ak_horizon_offset c < two62.

Record extra_ok c : Prop := {
  extra_nodup : NoDup (ak_extra c);
  extra_elem : forall k, k ∈ ak_extra c <->
    exists d, ak_states c !! k = Some d /\ da_extra_data d <> None;
  extra_marked : forall k d data, ak_states c !! k = Some d ->
    da_extra_data d = Some data -> da_is_extra_queued d = true;
}.

Record tree_ok c : Prop := {
  tree_wf : splay_wf akey_ok (ak_tree c);
  tree_elem : forall k, k ∈ splay_nodes (ak_tree c) <-> is_Some (ak_states c !! k);
  tree_key : forall k d, ak_states c !! k = Some d -> da_key d = k /\ das_ok d;
  tree_horizon : horizon_unset c \/ horizon_set c;
  tree_media : is_id (ak_media_id c);
}.

Definition ack_ok c : Prop := tree_ok c /\ extra_ok c.

Lemma da_key_inv d g o off : da_key d = (g, o, off) ->
  da_group_id d = g /\ da_object_id d = o /\ da_object_offset d = off.
Proof. unfold da_key. by intros [= -> -> ->]. Qed.

Lemma das_ok_key d : das_ok d -> akey_ok (da_key d).
Proof. unfold das_ok, da_key, is_id. cbn. unfold is_key. u64_lia. Qed.

Lemma tree_key_ok c k d : tree_ok c -> ak_states c !! k = Some d -> akey_ok k.
Proof. intros Hc Hd. apply (tree_key c Hc) in Hd as [<- Hd]. by apply das_ok_key. Qed.

Lemma tree_find c k : tree_ok c -> akey_ok k ->
  splay_find (ak_tree c) k = if decide (is_Some (ak_states c !! k)) then Some k else None.
Proof.
  intros Hc Hk. pose proof (tree_wf c Hc) as Hwf.
  destruct (splay_find (ak_tree c) k) as [x |] eqn:E.
  - apply (splay_find_elem akey_ok) in E as [Hx Hcmp]; [| done | done].
    assert (akey_ok x) as Hxo by (destruct Hwf as [Hf _]; by eapply Forall_forall in Hf).
    apply ack_compare_eq in Hcmp as <-; [| done | done].
    rewrite decide_True; [done |]. by apply (tree_elem c Hc).
  - rewrite decide_False; [done |]. intros Hs. apply (tree_elem c Hc) in Hs.
    eapply (splay_find_None akey_ok) in E; [| done | done | done].
    apply E. by apply ack_compare_eq.
Qed.

Lemma tree_find_some c g o off k : tree_ok c -> akey_ok (g, o, off) ->
  quicrq_datagram_ack_find c g o off = Some k ->
  k = (g, o, off) /\ exists d, ak_states c !! k = Some d.
Proof.
  intros Hc Hk. unfold quicrq_datagram_ack_find. rewrite tree_find by done.
  destruct (decide _) as [[d Hd] |]; [| done]. intros [= <-]. eauto.
Qed.

Lemma tree_find_none c g o off : tree_ok c -> akey_ok (g, o, off) ->
  quicrq_datagram_ack_find c g o off = None -> ak_states c !! (g, o, off) = None.
Proof.
  intros Hc Hk. unfold quicrq_datagram_ack_find. rewrite tree_find by done.
  destruct (decide _) as [| Hn]; [done |]. intros _. by apply eq_None_not_Some.
Qed.

(** ** What the queue of extra repeats leaves unchanged *)

(** A record but for its place in the queue of extra repeats. *)
Definition core d : quicrq_datagram_ack_state_t := da_set_extra d 0 None false.

Record keeps c c' : Prop := {
  keeps_media : ak_media_id c' = ak_media_id c;
  keeps_group : ak_horizon_group_id c' = ak_horizon_group_id c;
  keeps_object : ak_horizon_object_id c' = ak_horizon_object_id c;
  keeps_offset : ak_horizon_offset c' = ak_horizon_offset c;
  keeps_last : ak_horizon_is_last_fragment c' = ak_horizon_is_last_fragment c;
  keeps_tree : ak_tree c' = ak_tree c;
  keeps_states : core <$> ak_states c' = core <$> ak_states c;
  keeps_queued : ak_queued c' = ak_queued c;
}.

Lemma keeps_refl c : keeps c c.
Proof. by split. Qed.

Lemma keeps_trans c1 c2 c3 : keeps c1 c2 -> keeps c2 c3 -> keeps c1 c3.
Proof. intros [] []. split; congruence. Qed.

Lemma keeps_lookup c c' k d : keeps c c' -> ak_states c !! k = Some d ->
  exists d', ak_states c' !! k = Some d' /\ core d' = core d.
Proof.
  intros Hk Hd. assert ((core <$> ak_states c') !! k = Some (core d)) as H.
  { by rewrite (keeps_states _ _ Hk), lookup_fmap, Hd. }
  rewrite lookup_fmap in H. destruct (ak_states c' !! k) as [d' |]; cbn in H; [| done].
  exists d'. split; [done |]. congruence.
Qed.

Lemma keeps_sym_lookup c c' k d' : keeps c c' -> ak_states c' !! k = Some d' ->
  exists d, ak_states c !! k = Some d /\ core d' = core d.
Proof.
  intros Hk Hd. assert ((core <$> ak_states c) !! k = Some (core d')) as H.
  { by rewrite <- (keeps_states _ _ Hk), lookup_fmap, Hd. }
  rewrite lookup_fmap in H. destruct (ak_states c !! k) as [d |]; cbn in H; [| done].
  exists d. split; [done |]. congruence.
Qed.

Lemma keeps_set_extra c l n : keeps c (ak_set_extra c l n).
Proof. by split. Qed.

(** The fields that a common core gives. *)
Lemma core_fields d d' : core d' = core d ->
  da_key d' = da_key d /\ da_length d' = da_length d /\ da_is_acked d' = da_is_acked d /\
  da_object_length d' = da_object_length d /\ da_flags d' = da_flags d /\
  da_nb_objects_previous_group d' = da_nb_objects_previous_group d /\
  da_queue_delay d' = da_queue_delay d /\ da_start_time d' = da_start_time d.
Proof. destruct d, d'. cbn. intros [=]. subst. by split_and!. Qed.

Lemma core_das_ok d d' : core d' = core d -> das_ok d -> das_ok d'.
Proof.
  destruct d, d'. cbn. intros [=]. by subst.
Qed.

Lemma keeps_tree_ok c c' : keeps c c' -> tree_ok c -> tree_ok c'.
Proof.
  intros Hk [Hwf Hel Hkey Hh Hm]. split.
  - by rewrite (keeps_tree _ _ Hk).
  - intros k. rewrite (keeps_tree _ _ Hk), Hel. split; intros [d Hd].
    + destruct (keeps_lookup _ _ _ _ Hk Hd) as (d' & Hd' & _). by exists d'.
    + destruct (keeps_sym_lookup _ _ _ _ Hk Hd) as (d' & Hd' & _). by exists d'.
  - intros k d' Hd'. destruct (keeps_sym_lookup _ _ _ _ Hk Hd') as (d & Hd & Hcore).
    destruct (Hkey k d Hd) as [Hkd Hok]. split; [| by eapply core_das_ok].
    by destruct (core_fields _ _ Hcore) as [-> _].
  - unfold horizon_unset, horizon_set in *. by destruct Hk as [_ -> -> -> -> _ _ _].
  - by rewrite (keeps_media _ _ Hk).
Qed.

Lemma ak_put_lookup c k d : ak_states (ak_put c k d) !! k = Some d.
Proof. apply lookup_insert_eq. Qed.

Lemma ak_put_lookup_ne c k d k' : k <> k' -> ak_states (ak_put c k d) !! k' = ak_states c !! k'.
Proof. apply lookup_insert_ne. Qed.

Lemma keeps_put c k d d' : ak_states c !! k = Some d -> core d' = core d ->
  keeps c (ak_put c k d').
Proof.
  intros Hd Hc. split; try done. cbn. rewrite fmap_insert, Hc. apply insert_id.
  by rewrite lookup_fmap, Hd.
Qed.

Lemma tree_ok_put c k d d' : tree_ok c -> ak_states c !! k = Some d ->
  da_key d' = k -> das_ok d' -> tree_ok (ak_put c k d').
Proof.
  intros [Hwf Hel Hkey Hh Hm] Hd Hk Hok. split; [done | | | done | done].
  - intros x. cbn. rewrite Hel. destruct (decide (k = x)) as [<- | Hne].
    + rewrite lookup_insert_eq, Hd. by split; intros _; eexists.
    + by rewrite lookup_insert_ne.
  - intros x y. cbn. rewrite lookup_insert_Some. intros [[<- <-] | [_ Hy]]; [done | by apply Hkey].
Qed.

(** A change to a record that is not about the queue. *)
Lemma extra_ok_put c k d d' : extra_ok c -> ak_states c !! k = Some d ->
  da_extra_data d' = da_extra_data d -> da_is_extra_queued d' = da_is_extra_queued d ->
  extra_ok (ak_put c k d').
Proof.
  intros [Hnd Hel Hlong] Hd Hdata Hq. split; [done | |].
  - intros x. cbn. rewrite Hel. destruct (decide (k = x)) as [<- | Hne].
    + rewrite lookup_insert_eq. split; intros (y & Hy & Hx); simplify_eq; eexists; split; eauto;
        congruence.
    + by rewrite lookup_insert_ne.
  - intros x y data. cbn. rewrite lookup_insert_Some. intros [[<- <-] | [_ Hy]]; [| by eauto].
    rewrite Hdata, Hq. by eapply Hlong.
Qed.

Lemma extra_dequeue_spec c k d : ack_ok c -> ak_states c !! k = Some d ->
  exists c', quicrq_datagram_ack_extra_dequeue c k = Some c' /\ ack_ok c' /\ keeps c c' /\
    (forall k', k' ∈ ak_extra c' <-> k' ∈ ak_extra c /\ k' <> k) /\
    ak_nb_extra_sent c' = ak_nb_extra_sent c /\
    (exists d', ak_states c' !! k = Some d' /\ da_extra_data d' = None /\
       da_is_extra_queued d' = da_is_extra_queued d) /\
    forall k', k' <> k -> ak_states c' !! k' = ak_states c !! k'.
Proof.
  intros Hack Hd. pose proof Hack as [Ht [Hnd Hel Hlong]].
  unfold quicrq_datagram_ack_extra_dequeue. rewrite Hd. cbn [mbind option_bind].
  destruct (da_extra_data d) as [data |] eqn:Ed; cycle 1.
  { exists c. split; [done |]. split; [done |]. split; [apply keeps_refl |].
    split_and!; [| done | by eauto | done]. intros k'. split; [| tauto]. intros Hk'. split; [done |]. intros ->.
    apply Hel in Hk' as (d' & Hd' & Hn). congruence. }
  eexists. split; [reflexivity |].
  assert (forall k', k' ∈ List.filter (fun x => negb (bool_decide (x = k))) (ak_extra c) <->
            k' ∈ ak_extra c /\ k' <> k) as Hf.
  { intros k'. rewrite elem_of_filter_bool, negb_true_iff, bool_decide_eq_false. tauto. }
  split_and!; [split | | done | done | | ].
  - eapply (tree_ok_put (ak_set_extra c _ _)); [by destruct Ht | done | |];
      apply (tree_key c Ht) in Hd as [Hkd Hok]; done.
  - split; cbn.
    + by apply List.NoDup_filter, NoDup_ListNoDup in Hnd || (apply NoDup_ListNoDup, List.NoDup_filter, NoDup_ListNoDup).
    + intros k'. rewrite Hf, Hel. destruct (decide (k = k')) as [<- | Hne].
      * rewrite lookup_insert_eq. split; [tauto |]. intros (y & [= <-] & Hy). done.
      * rewrite lookup_insert_ne by done. split; [tauto | by split].
    + intros x y l. rewrite lookup_insert_Some. intros [[<- <-] | [_ Hy]]; [done | by eauto].
  - eapply keeps_trans; [apply keeps_set_extra |]. by apply (keeps_put _ k d).
  - eexists. split; [apply lookup_insert_eq |]. done.
  - intros k' Hne. cbn. by rewrite lookup_insert_ne.
Qed.

(** A record outside of the queue enters it. *)
Lemma extra_ok_enqueue c k d d' data n : ack_ok c -> ak_states c !! k = Some d ->
  da_extra_data d = None -> core d' = core d -> da_extra_data d' = Some data ->
  da_is_extra_queued d' = true ->
  ack_ok (ak_set_extra (ak_put c k d') (ak_extra c ++ [k]) n).
Proof.
  intros [Ht [Hnd Hel Hlong]] Hd Hn Hc Hdata Hq.
  split.
  - assert (tree_ok (ak_put c k d')) as [] by
      (eapply keeps_tree_ok; [by apply (keeps_put c k d) | done]). by split.
  - split; cbn.
    + apply NoDup_app. split_and!; [done | | apply NoDup_singleton].
      intros x Hx ->%list_elem_of_singleton. apply Hel in Hx as (y & Hy & ?). congruence.
    + intros x. rewrite elem_of_snoc, Hel. destruct (decide (k = x)) as [<- | Hne].
      * rewrite lookup_insert_eq. split; [intros _; eexists; split; [done | congruence] | by right].
      * rewrite lookup_insert_ne by done. split; [intros [? | ->]; done | by left].
    + intros x y l. rewrite lookup_insert_Some. intros [[<- <-] | [_ Hy]]; [done | by eauto].
Qed.

Lemma extra_queue_spec c k d data time : ack_ok c -> ak_states c !! k = Some d ->
  (da_length d <= blen data ->
     is_Some (quicrq_datagram_ack_extra_queue c k data time)) /\
  forall c', quicrq_datagram_ack_extra_queue c k data time = Some c' -> ack_ok c' /\ keeps c c' /\
    (forall k', k' ∈ ak_extra c -> k' ∈ ak_extra c') /\
    forall k', k' <> k -> ak_states c' !! k' = ak_states c !! k'.
Proof.
  intros Hok Hd. unfold quicrq_datagram_ack_extra_queue. rewrite Hd. cbn [mbind option_bind].
  destruct (da_is_extra_queued d) eqn:Eq.
  { split; [by eexists |]. intros c' [= <-]. split_and!; auto using keeps_refl. }
  assert (da_extra_data d = None) as Hnone.
  { destruct (da_extra_data d) as [l |] eqn:El; [| done].
    destruct Hok as [_ Hx]. apply (extra_marked c Hx k d l Hd) in El. congruence. }
  set (d1 := da_set_extra d _ _ true).
  assert (keeps c (ak_put c k d1)) as K1 by (by apply (keeps_put c k d)).
  assert (extra_ok (ak_put c k d1)) as X1.
  { destruct Hok as [_ [Hnd Hel Hlong]]. split; [done | |].
    - intros x. cbn. rewrite Hel. destruct (decide (k = x)) as [<- | Hne].
      + rewrite lookup_insert_eq. split; intros (y & Hy & ?); simplify_eq; by cbn in *.
      + by rewrite lookup_insert_ne.
    - intros x y l. cbn. rewrite lookup_insert_Some. intros [[<- <-] | [_ Hy]]; [| by eauto].
      cbn. congruence. }
  assert (ack_ok (ak_put c k d1)) as Hok1 by (split; [by eapply keeps_tree_ok; [| apply Hok] | done]).
  unfold quicrq_datagram_ack_extra_dequeue. rewrite !ak_put_lookup. cbn [mbind option_bind].
  change (da_extra_data d1) with (da_extra_data d). rewrite Hnone. cbn [mbind option_bind].
  rewrite !ak_put_lookup. cbn [mbind option_bind]. change (da_length d1) with (da_length d).
  destruct (malloc_ok (da_length d)).
  - destruct (Z.ltb_spec (blen data) (da_length d)); [split; [lia | done] |].
    split; [by eexists |]. intros c' [= <-]. split_and!.
    + eapply (extra_ok_enqueue (ak_put c k d1) k d1); try done; apply ak_put_lookup.
    + eapply keeps_trans; [| apply keeps_set_extra]. eapply keeps_trans; [exact K1 |].
      apply (keeps_put (ak_put c k d1) k d1); [apply ak_put_lookup | done].
    + intros x Hx. cbn. apply elem_of_app. by left.
    + intros x Hne. cbn. by rewrite !lookup_insert_ne.
  - split; [by eexists |]. intros c' [= <-]. split_and!; auto.
    intros x Hne. cbn. by rewrite !lookup_insert_ne.
Qed.

(** ** The tree operations *)

(** The two contexts have the same horizon, name and queued datagrams. *)
Record same_horizon c c' : Prop := {
  sh_media : ak_media_id c' = ak_media_id c;
  sh_group : ak_horizon_group_id c' = ak_horizon_group_id c;
  sh_object : ak_horizon_object_id c' = ak_horizon_object_id c;
  sh_offset : ak_horizon_offset c' = ak_horizon_offset c;
  sh_last : ak_horizon_is_last_fragment c' = ak_horizon_is_last_fragment c;
  sh_queued : ak_queued c' = ak_queued c;
}.

Lemma keeps_same_horizon c c' : keeps c c' -> same_horizon c c'.
Proof. intros []. by split. Qed.

Lemma same_horizon_trans c1 c2 c3 : same_horizon c1 c2 -> same_horizon c2 c3 -> same_horizon c1 c3.
Proof. intros [] []. split; congruence. Qed.

Lemma ack_node_delete_spec c k d : ack_ok c -> ak_states c !! k = Some d ->
  exists c', quicrq_datagram_ack_node_delete c k = Some c' /\ ack_ok c' /\ same_horizon c c' /\
    core <$> ak_states c' = delete k (core <$> ak_states c) /\
    ak_tree c' = splay_delete (ak_tree c) k.
Proof.
  intros Hok Hd. unfold quicrq_datagram_ack_node_delete. rewrite Hd. cbn [mbind option_bind].
  assert (exists c1, (if da_extra_data d is Some _ then quicrq_datagram_ack_extra_dequeue c k
                      else Some c) = Some c1 /\ ack_ok c1 /\ keeps c c1 /\ k ∉ ak_extra c1)
    as (c1 & -> & Hok1 & Hk1 & Hout).
  { destruct (da_extra_data d) eqn:Ed.
    - destruct (extra_dequeue_spec c k d Hok Hd) as (c1 & -> & Hok1 & Hk1 & Hex & _).
      exists c1. split_and!; try done. rewrite Hex. tauto.
    - exists c. split_and!; try done. intros Hin.
      apply (extra_elem c (proj2 Hok)) in Hin as (d' & Hd' & ?). congruence. }
  cbn [mbind option_bind]. eexists. split; [reflexivity |].
  destruct (keeps_lookup _ _ _ _ Hk1 Hd) as (d1 & Hd1 & _).
  destruct Hok1 as [[Hwf Hel Hkey Hh Hm] [Hnd Hex Hlong]].
  assert (k ∈ splay_nodes (ak_tree c1)) as Hin by (apply Hel; eauto).
  split_and!; [split | | | ].
  - split; cbn; [by apply (splay_wf_delete akey_ok) | | | done | done].
    + intros x. rewrite (elem_of_splay_delete akey_ok), Hel by done.
      destruct (decide (k = x)) as [<- | Hne].
      * rewrite lookup_delete_eq. split; [tauto | by intros [? ?]].
      * rewrite lookup_delete_ne by done. split; [tauto | by split].
    + intros x y [_ Hy]%lookup_delete_Some. by apply Hkey.
  - split; cbn; [done | |].
    + intros x. destruct (decide (k = x)) as [<- | Hne].
      * rewrite lookup_delete_eq. split; [done | by intros (y & Hy & _)].
      * by rewrite lookup_delete_ne.
    + intros x y data [_ Hy]%lookup_delete_Some. by eapply Hlong.
  - eapply same_horizon_trans; [by apply keeps_same_horizon |]. by split.
  - cbn. by rewrite fmap_delete, (keeps_states _ _ Hk1).
  - cbn. by rewrite (keeps_tree _ _ Hk1).
Qed.

(** Position of a key with respect to the horizon. *)
Definition hz_key c : akey :=
  (ak_horizon_group_id c, ak_horizon_object_id c, ak_horizon_offset c).
Definition hz_lt c k : Prop := horizon_set c /\ akey_lt k (hz_key c).
Definition hz_le c k : Prop := horizon_set c /\ (akey_lt k (hz_key c) \/ k = hz_key c).

Lemma same_horizon_lt c c' k : same_horizon c c' -> hz_lt c' k <-> hz_lt c k.
Proof. intros [_ H1 H2 H3 _ _]. unfold hz_lt, hz_key, horizon_set. by rewrite H1, H2, H3. Qed.

Lemma same_horizon_le c c' k : same_horizon c c' -> hz_le c' k <-> hz_le c k.
Proof. intros [_ H1 H2 H3 _ _]. unfold hz_le, hz_key, horizon_set. by rewrite H1, H2, H3. Qed.

Lemma horizon_excl c : horizon_unset c -> horizon_set c -> False.
Proof. intros (Hg & _) (Hs & _). rewrite Hg in Hs. unfold is_id in Hs. u64_lia. Qed.

Lemma check_horizon_spec c g o off : tree_ok c -> is_id g -> is_id o -> 0 <= off < two62 ->
  (quicrq_datagram_check_horizon c g o off <? 0) = true <-> hz_lt c (g, o, off).
Proof.
  intros Hc Hg Ho Hoff. rewrite Z.ltb_lt. unfold quicrq_datagram_check_horizon, hz_lt.
  destruct (tree_horizon c Hc) as [Hu | Hs].
  - assert (forall P, horizon_set c /\ P <-> False) as ->
      by (intros P; split; [intros [Hs _] | done]; by eapply horizon_excl).
    destruct Hu as (-> & -> & -> & _). unfold is_id in *. unfold UINT64_MAX.
    assert (s64 (g - 18446744073709551615) = g + 1) as ->.
    { unfold s64, u64. replace (g - 18446744073709551615) with (g + 1 + (-1) * two64) by u64_lia.
      rewrite Z.mod_add by u64_lia. rewrite Z.mod_small by u64_lia.
      destruct (Z.ltb_spec (g + 1) 9223372036854775808); u64_lia. }
    destruct (Z.eqb_spec (g + 1) 0); [lia |]. destruct (Z.eqb_spec (g + 1) 0); [lia |]. u64_lia.
  - unfold hz_key. cbn [akey_lt]. assert (forall P : Prop, (horizon_set c /\ P) <-> P) as -> by tauto.
    unfold horizon_set, is_id in *. rewrite !s64_small by u64_lia.
    repeat (match goal with |- context [(?a - ?b) =? 0] => destruct (Z.eqb_spec (a - b) 0) end;
            try lia).
Qed.

Definition da_new (g o off fl nb len delay olen now : Z) : quicrq_datagram_ack_state_t := {|
  da_group_id := g; da_object_id := o; da_object_offset := off;
  da_nb_objects_previous_group := nb; da_queue_delay := delay; da_flags := fl;
  da_object_length := olen; da_length := len; da_is_acked := false; da_nack_received := false;
  da_extra_repeat_time := 0; da_extra_data := None; da_is_extra_queued := false;
  da_start_time := now; da_last_sent_time := 0 |}.

(** A new record without data for an extra repeat. *)
Lemma ack_ok_insert c k d : ack_ok c -> da_key d = k -> das_ok d -> akey_ok k ->
  splay_find (ak_tree c) k = None -> ak_states c !! k = None ->
  da_extra_data d = None -> da_is_extra_queued d = false ->
  ack_ok (ak_set_tree c (splay_insert (ak_tree c) k) (<[k := d]> (ak_states c))).
Proof.
  intros [[Hwf Hel Hkeys Hh Hm] [Hnd Hex Hlong]] Hkd Hdas Hkey Hfind Hnone Hdata Hqueued. split; split; cbn; try done.
  - by apply (splay_wf_insert akey_ok).
  - intros x. rewrite (elem_of_splay_insert akey_ok), Hel by done.
    destruct (decide (k = x)) as [<- | Hne].
    + rewrite lookup_insert_eq. split; [by eexists | by left].
    + rewrite lookup_insert_ne by done. split; [intros [-> | ?]; done | by right].
  - intros x y. rewrite lookup_insert_Some. intros [[<- <-] | [_ Hy]]; [by split | by apply Hkeys].
  - intros x. rewrite Hex. destruct (decide (k = x)) as [<- | Hne].
    + rewrite lookup_insert_eq. split; intros (y & Hy & Hq).
      * congruence.
      * injection Hy as <-. congruence.
    + by rewrite lookup_insert_ne.
  - intros x y l. rewrite lookup_insert_Some. intros [[<- <-] | [_ Hy]]; [congruence | by eapply Hlong].
Qed.

(** The outcomes of [quicrq_datagram_ack_init]. *)
Inductive ack_init_result c k d (below : Prop) c' : Z -> option akey -> Prop :=
  | init_below : below -> c' = ak_count c (ak_nb_horizon_events c + 1) (ak_nb_horizon_acks c)
                                 (ak_nb_fragment_lost c) ->
      ack_init_result c k d below c' 0 None
  | init_duplicate : ~ below -> is_Some (ak_states c !! k) -> c' = c ->
      ack_init_result c k d below c' 1 None
  | init_memory : ~ below -> ak_states c !! k = None -> malloc_ok sizeof_datagram_ack_state = false -> c' = c ->
      ack_init_result c k d below c' (-1) None
  | init_created : ~ below -> ak_states c !! k = None ->
      malloc_ok sizeof_datagram_ack_state = true -> ack_ok c' -> same_horizon c c' ->
      ak_tree c' = splay_insert (ak_tree c) k ->
      core <$> ak_states c' = <[k := core d]> (core <$> ak_states c) ->
      ack_init_result c k d below c' 0 (Some k).

Lemma ack_init_spec qr c g o off fl nb data len delay olen now :
  ack_ok c -> is_id g -> is_id o -> 0 <= off -> 0 <= len -> off + len < two62 ->
  props_ok nb olen delay now ->
  (len <= blen data ->
     is_Some (quicrq_datagram_ack_init qr c g o off fl nb data len delay olen now)) /\
  forall c' ret created,
    quicrq_datagram_ack_init qr c g o off fl nb data len delay olen now = Some (c', ret, created) ->
    ack_init_result c (g, o, off) (da_new g o off fl nb len delay olen now) (hz_lt c (g, o, off))
      c' ret created.
Proof.
  intros Hok Hg Ho Hoff Hlen Hend Hprops. set (d := da_new g o off fl nb len delay olen now).
  assert (das_ok d) as Hdas by (by unfold das_ok).
  assert (akey_ok (g, o, off)) as Hkey by apply (das_ok_key d Hdas).
  unfold quicrq_datagram_ack_init.
  pose proof (check_horizon_spec c g o off (proj1 Hok) Hg Ho ltac:(lia)) as Hz.
  destruct (_ <? 0).
  { split; [by eexists |]. intros c' ret created [= <- <- <-]. apply init_below; [by apply Hz | done]. }
  assert (~ hz_lt c (g, o, off)) as Hnz by (intros H; by apply Hz in H). clear Hz.
  destruct (quicrq_datagram_ack_find c g o off) as [k |] eqn:Ef.
  { split; [by eexists |]. intros c' ret created [= <- <- <-].
    apply tree_find_some in Ef as (-> & d' & Hd'); [| apply Hok | done].
    apply init_duplicate; [done | by eexists | done]. }
  pose proof (tree_find_none _ _ _ _ (proj1 Hok) Hkey Ef) as Hnone.
  destruct (malloc_ok sizeof_datagram_ack_state) eqn:Em; cycle 1.
  { split; [by eexists |]. intros c' ret created [= <- <- <-]. by apply init_memory. }
  cbv zeta. fold (da_new g o off fl nb len delay olen now). fold d.
  unfold quicrq_datagram_ack_find in Ef. set (k := da_key d) in *.
  change (g, o, off) with k in *.
  assert (da_key d = k) as Hkd by done. clearbody k.
  set (c1 := ak_set_tree c (splay_insert (ak_tree c) k) (<[k := d]> (ak_states c))).
  assert (ack_ok c1) as Hok1 by by apply ack_ok_insert.
  assert (ak_states c1 !! k = Some d) as Hd1 by apply lookup_insert_eq.
  assert (forall c2, keeps c1 c2 -> ack_ok c2 ->
    ack_init_result c k d (hz_lt c k) c2 0 (Some k)) as Hdone.
  { intros c2 Hk Hok2. apply init_created; [done | done | done | done | | |].
    - eapply same_horizon_trans; [| by apply keeps_same_horizon]. by split.
    - by rewrite (keeps_tree _ _ Hk).
    - rewrite (keeps_states _ _ Hk). cbn. by rewrite fmap_insert. }
  destruct (_ && _ && _).
  - pose proof (extra_queue_spec c1 _ d data (now +64 extra_repeat_delay qr) Hok1 Hd1) as [Hs Hc].
    split.
    + intros Hl. destruct (Hs Hl) as [c2 ->]. by eexists.
    + intros c' ret created. destruct (quicrq_datagram_ack_extra_queue _ _ _ _) as [c2 |]; [| done].
      intros [= <- <- <-]. destruct (Hc c2 eq_refl) as (? & ? & _). auto.
  - split; [by eexists |]. intros c' ret created [= <- <- <-]. auto using keeps_refl.
Qed.

End proofs.
