(* ===== verification/AckLoops.v ===== *)
(** * The loops of the acknowledgement processing

    What the loop that marks records and the loop that moves the horizon do to
    the state, and that they end without a fault. *)

From S2P Require Import Prelude Picosplay PicoFrames Proto Ack AckProofs.

(** ** Where an acknowledgement falls *)

(** The horizon: [None] until a first record is forgotten, then where the
    last one forgotten ends, and whether it is the end of its object. *)
Definition horizon := option (akey * bool).

(** The range ends below the horizon. *)
Definition below (h : horizon) (g o e : Z) : bool :=
  match h with
  | None => false
  | Some ((hg, ho, hx), _) =>
      (g <? hg) || ((g =? hg) && ((o <? ho) || ((o =? ho) && (e <? hx))))
  end.

(** Where a range that is not below the horizon starts above it. *)
Definition start (h : horizon) (g o off : Z) : Z :=
  match h with
  | None => off
  | Some ((hg, ho, hx), _) => if (g =? hg) && (o =? ho) then Z.max off hx else off
  end.

(** The range starts at the horizon: in the same object, or at the start of
    the next object of the same group when the object of the horizon is
    complete; the first object of the next group does not count. *)
Definition reaches (h : horizon) (g o off : Z) : bool :=
  match h with
  | None => true
  | Some ((hg, ho, hx), last) =>
      (g =? hg) && (((o =? ho) && (off <=? hx)) || ((o =? ho + 1) && last && (off =? 0)))
  end.

Section loops.
Context `{Sp : Splay akey quicrq_datagram_ack_node_compare} {SL : SplayLaws Sp}.
Context {Al : Allocator} {PF : PicoFrames} {PQ : PicoQueue}.
Implicit Types (c : quicrq_datagram_ack_ctx_t) (k : akey) (d : quicrq_datagram_ack_state_t).

Definition horizon_of c : horizon :=
  if ak_horizon_group_id c =? UINT64_MAX then None
  else Some (hz_key c, ak_horizon_is_last_fragment c).

Lemma horizon_of_unset c : horizon_unset c -> horizon_of c = None.
Proof. intros (H & _). unfold horizon_of. by rewrite H. Qed.

Lemma horizon_of_set c : horizon_set c ->
  horizon_of c = Some (hz_key c, ak_horizon_is_last_fragment c).
Proof.
  intros (H & _). unfold horizon_of. destruct (Z.eqb_spec (ak_horizon_group_id c) UINT64_MAX); [| done].
  unfold is_id in H. u64_lia.
Qed.

Lemma same_horizon_of c c' : same_horizon c c' -> horizon_of c' = horizon_of c.
Proof. intros [_ H1 H2 H3 H4 _]. unfold horizon_of, hz_key. by rewrite H1, H2, H3, H4. Qed.

(** [marked c c' ks]: [c'] is [c] with the records [ks] marked as acked. *)
Record marked c c' (ks : list akey) : Prop := {
  marked_ok : ack_ok c -> ack_ok c';
  marked_horizon : same_horizon c c';
  marked_tree : ak_tree c' = ak_tree c;
  marked_in : forall k d, k ∈ ks -> ak_states c !! k = Some d ->
    ak_states c' !! k = Some (da_set_acked d);
  marked_out : forall k, k ∉ ks -> ak_states c' !! k = ak_states c !! k;
  marked_sub : forall k, k ∈ ks -> is_Some (ak_states c !! k);
}.

Lemma marked_nil c : marked c c [].
Proof.
  split; try done.
  - intros k d Hk. by apply elem_of_nil in Hk.
  - intros k Hk. by apply elem_of_nil in Hk.
Qed.

Lemma marked_one c k d : ak_states c !! k = Some d -> marked c (ak_put c k (da_set_acked d)) [k].
Proof.
  intros Hd. split; try done.
  - intros [Ht Hx]. destruct (tree_key c Ht k d Hd) as [Hk Hok]. split.
    + by eapply tree_ok_put.
    + by eapply extra_ok_put.
  - intros x y ->%list_elem_of_singleton Hy. cbn. rewrite lookup_insert_eq. congruence.
  - intros x Hx. cbn. rewrite lookup_insert_ne; [done |]. intros ->. apply Hx. by left.
  - intros x ->%list_elem_of_singleton. by eexists.
Qed.

Lemma marked_app c1 c2 c3 ks ls : marked c1 c2 ks -> marked c2 c3 ls -> marked c1 c3 (ks ++ ls).
Proof.
  intros [Ok1 H1 T1 I1 O1 S1] [Ok2 H2 T2 I2 O2 S2]. split.
  - auto.
  - by eapply same_horizon_trans.
  - congruence.
  - intros k d Hin Hd. destruct (decide (k ∈ ks)) as [Hk | Hk].
    + specialize (I1 k d Hk Hd). destruct (decide (k ∈ ls)) as [Hl | Hl].
      * by rewrite (I2 _ _ Hl I1).
      * by rewrite O2.
    + apply elem_of_app in Hin as [? | Hl]; [done |]. apply I2; [done |]. by rewrite O1.
  - intros k [Hk Hl]%not_elem_of_app. by rewrite O2, O1.
  - intros k [Hk | Hk]%elem_of_app; [by apply S1 |]. destruct (S2 k Hk) as [d Hd].
    destruct (decide (k ∈ ks)) as [Hk' | Hk']; [by apply S1 |]. rewrite O1 in Hd by done. by eexists.
Qed.

Lemma marked_lookup c c' ks k d : marked c c' ks -> ak_states c !! k = Some d ->
  exists d', ak_states c' !! k = Some d' /\ da_key d' = da_key d /\ da_length d' = da_length d /\
    da_object_length d' = da_object_length d /\
    (da_is_acked d' = true <-> da_is_acked d = true \/ k ∈ ks).
Proof.
  intros Hm Hd. destruct (decide (k ∈ ks)) as [Hk | Hk].
  - exists (da_set_acked d). rewrite (marked_in _ _ _ Hm _ _ Hk Hd). split_and!; try done.
    cbn. tauto.
  - exists d. rewrite (marked_out _ _ _ Hm _ Hk). split_and!; try done. tauto.
Qed.

Lemma splay_next_lt c k n : tree_ok c -> k ∈ splay_nodes (ak_tree c) ->
  splay_next (ak_tree c) k = Some n ->
  n ∈ splay_nodes (ak_tree c) /\ akey_lt k n.
Proof.
  intros Hc Hk Hn. destruct (tree_wf c Hc) as [Hok Hs].
  pose proof (splay_wf_nodup akey_ok _ (tree_wf c Hc)) as Hnd.
  apply list_elem_of_split in Hk as (l1 & l2 & E).
  rewrite (splay_next_eq _ k l1 l2 E Hnd) in Hn. destruct l2 as [| y l2]; [done |].
  injection Hn as ->. rewrite E in Hok, Hs |- *. split.
  - apply elem_of_app. right. right. by left.
  - apply Forall_app in Hok as [_ [Hk [Hy _]%Forall_cons]%Forall_cons].
    apply ack_compare_lt; [done | done |].
    apply StronglySorted_app in Hs as (_ & _ & [Hf _]%StronglySorted_cons).
    by apply Forall_cons in Hf as [? _].
Qed.

(** There is a next node when there is a larger key. *)
Lemma splay_next_some c k m : tree_ok c -> k ∈ splay_nodes (ak_tree c) ->
  m ∈ splay_nodes (ak_tree c) -> akey_lt k m -> is_Some (splay_next (ak_tree c) k).
Proof.
  intros Hc Hk Hm Hlt. destruct (tree_wf c Hc) as [Hok Hs].
  pose proof (splay_wf_nodup akey_ok _ (tree_wf c Hc)) as Hnd.
  apply list_elem_of_split in Hk as (l1 & l2 & E).
  rewrite (splay_next_eq _ k l1 l2 E Hnd). destruct l2 as [| y l2]; [| by eexists]. exfalso.
  rewrite E in Hok, Hs, Hm. apply elem_of_app in Hm as [Hm | ->%list_elem_of_singleton].
  - apply StronglySorted_app in Hs as (Hx & _ & _). specialize (Hx m k Hm ltac:(by left)). cbn in Hx.
    apply Forall_app in Hok as [H1 [Hk _]%Forall_cons]. rewrite Forall_forall in H1.
    apply ack_compare_lt in Hx; [| by apply H1 | done].
    by eapply akey_lt_irrefl, akey_lt_trans.
  - by eapply akey_lt_irrefl.
Qed.

(** ** Marking *)

(** The records marked start inside the range acknowledged. *)
Lemma ack_loop_marks fuel c g o x n c' :
  tree_ok c -> is_Some (ak_states c !! (g, o, x)) -> 0 <= x -> x + n < two62 ->
  ack_loop fuel c g o (g, o, x) n x = Some c' ->
  exists ks, marked c c' ks /\
    (forall k, k ∈ ks -> exists y, k = (g, o, y) /\ x <= y < x + n) /\
    (0 < n -> (g, o, x) ∈ ks).
Proof.
  revert c x n. induction fuel as [| fuel IH]; intros c x n Hc [d Hd] Hx Hn; [done |].
  cbn [ack_loop]. destruct (Z.ltb_spec 0 n); cycle 1.
  { intros [= <-]. exists []. split_and!; [apply marked_nil | by intros k ?%elem_of_nil | lia]. }
  rewrite Hd. cbn [mbind option_bind].
  pose proof (tree_key c Hc _ _ Hd) as [Hk Hdok]. unfold das_ok in Hdok.
  apply da_key_inv in Hk as (Hkg & Hko & Hkx).
  set (c1 := ak_put c (g, o, x) (da_set_acked d)).
  assert (marked c c1 [(g, o, x)]) as M1 by by apply marked_one.
  assert (tree_ok c1) as Hc1.
  { eapply tree_ok_put; [done | done | | by apply (tree_key c Hc) in Hd]. unfold da_key. cbn. congruence. }
  rewrite s64_small by u64_lia. rewrite (u64_small (x + da_length d)) by u64_lia.
  assert (forall k, k ∈ [(g, o, x)] -> exists y, k = (g, o, y) /\ x <= y < x + n) as Hone.
  { intros k ->%list_elem_of_singleton. exists x. split; [done | lia]. }
  destruct (Z.ltb_spec 0 (n - da_length d)); cycle 1.
  { intros [= <-]. exists [(g, o, x)]. split_and!; [done | done | by left]. }
  change (ak_tree c1) with (ak_tree c).
  destruct (splay_next (ak_tree c) (g, o, x)) as [next |] eqn:En; cbn [mbind option_bind]; [| done].
  destruct (ak_states c1 !! next) as [nd |] eqn:End; cbn [mbind option_bind]; [| done].
  destruct (negb _ || negb _ || negb _) eqn:Eb.
  { intros [= <-]. exists [(g, o, x)]. split_and!; [done | done | by left]. }
  apply orb_false_iff in Eb as [[E1 E2]%orb_false_iff E3].
  apply negb_false_iff, Z.eqb_eq in E1, E2, E3.
  pose proof (tree_key c1 Hc1 _ _ End) as [Hnk _].
  assert (next = (g, o, x + da_length d)) as -> by (rewrite <- Hnk; unfold da_key; congruence).
  intros Hrec. apply IH in Hrec as (ks & M2 & Hks & Hin);
    [| done | by eexists | lia | lia].
  exists ((g, o, x) :: ks). split_and!.
  - by apply (marked_app _ _ _ [(g, o, x)] ks M1).
  - intros k [-> | Hk]%elem_of_cons; [apply Hone; by left |].
    destruct (Hks k Hk) as (y & -> & Hy). exists y. split; [done | lia].
  - intros _. by left.
Qed.

(** No fault when each record that ends inside the range is followed by
    another one. *)
Lemma ack_loop_total fuel c g o x n l1 l2 :
  tree_ok c -> splay_nodes (ak_tree c) = l1 ++ (g, o, x) :: l2 -> (length l2 < fuel)%nat ->
  0 <= x -> x + n < two62 ->
  (forall y d, ak_states c !! (g, o, y) = Some d -> x <= y < x + n ->
     0 < da_length d /\
     (y + da_length d < x + n -> is_Some (ak_states c !! (g, o, y + da_length d)))) ->
  is_Some (ack_loop fuel c g o (g, o, x) n x).
Proof.
  revert c x n l1 l2. induction fuel as [| fuel IH]; intros c x n l1 l2 Hc E Hf Hx Hn Hcov; [lia |].
  cbn [ack_loop]. destruct (Z.ltb_spec 0 n); [| by eexists].
  assert ((g, o, x) ∈ splay_nodes (ak_tree c)) as Hin
    by (rewrite E; apply elem_of_app; right; by left).
  pose proof Hin as [d Hd]%(tree_elem c Hc). rewrite Hd. cbn [mbind option_bind].
  pose proof (tree_key c Hc _ _ Hd) as [Hk Hdok]. unfold das_ok in Hdok.
  apply da_key_inv in Hk as (Hkg & Hko & Hkx).
  destruct (Hcov x d Hd ltac:(lia)) as [Hpos Hnext].
  rewrite s64_small by u64_lia. rewrite (u64_small (x + da_length d)) by u64_lia.
  destruct (Z.ltb_spec 0 (n - da_length d)); [| by eexists].
  destruct (Hnext ltac:(lia)) as [nd0 Hnd0].
  set (c1 := ak_put c (g, o, x) (da_set_acked d)).
  assert (tree_ok c1) as Hc1.
  { eapply tree_ok_put; [done | done | | by apply (tree_key c Hc) in Hd]. unfold da_key. cbn. congruence. }
  change (ak_tree c1) with (ak_tree c).
  destruct (splay_next_some c (g, o, x) (g, o, x + da_length d)) as [next En];
    [done | done | apply (tree_elem c Hc); by eexists | cbn; lia |].
  pose proof (splay_next_lt c _ _ Hc Hin En) as [Hni _].
  rewrite En. cbn [mbind option_bind].
  pose proof Hni as [nd End]%(tree_elem c1 Hc1). rewrite End. cbn [mbind option_bind].
  destruct (negb _ || negb _ || negb _) eqn:Eb; [by eexists |].
  apply orb_false_iff in Eb as [[E1 E2]%orb_false_iff E3].
  apply negb_false_iff, Z.eqb_eq in E1, E2, E3.
  pose proof (tree_key c1 Hc1 _ _ End) as [Hnk _].
  assert (next = (g, o, x + da_length d)) as -> by (rewrite <- Hnk; unfold da_key; congruence).
  pose proof (splay_wf_nodup akey_ok _ (tree_wf c Hc)) as Hnodup.
  rewrite (splay_next_eq _ _ l1 l2 E Hnodup) in En. destruct l2 as [| y l2]; [done |].
  injection En as ->. cbn in Hf.
  eapply (IH c1 _ _ (l1 ++ [(g, o, x)]) l2); [done | | lia | lia | lia |].
  { change (ak_tree c1) with (ak_tree c). rewrite E. by rewrite <- (assoc_L (++)). }
  intros y d' Hy Hr.
  assert (forall z, is_Some (ak_states c !! z) -> is_Some (ak_states c1 !! z)) as Hmono.
  { intros z Hz. by apply (tree_elem c1 Hc1), (tree_elem c Hc). }
  assert (exists d0, ak_states c !! (g, o, y) = Some d0 /\ da_length d' = da_length d0)
    as (d0 & Hd0 & ->).
  { unfold c1 in Hy. destruct (decide ((g, o, x) = (g, o, y))) as [Heq | Hne].
    - rewrite <- Heq in Hy. rewrite ak_put_lookup in Hy. injection Hy as <-. rewrite <- Heq. eauto.
    - rewrite ak_put_lookup_ne in Hy by done. eauto. }
  destruct (Hcov y d0 Hd0 ltac:(lia)) as [Hp Hc2]. split; [done |].
  intros Hlt. apply Hmono, Hc2. lia.
Qed.

(** ** Moving the horizon *)

(** [forgets c c' ks]: [c'] is [c] without the acknowledged records [ks], the
    horizon being moved past them. *)
Record forgets c c' (ks : list akey) : Prop := {
  forgets_ok : ack_ok c';
  forgets_media : ak_media_id c' = ak_media_id c;
  forgets_queued : ak_queued c' = ak_queued c;
  forgets_in : forall k, k ∈ ks -> ak_states c' !! k = None /\
    exists d, ak_states c !! k = Some d /\ da_is_acked d = true /\
      hz_le c' (da_group_id d, da_object_id d, da_object_offset d + da_length d);
  forgets_out : forall k, k ∉ ks -> core <$> ak_states c' !! k = core <$> ak_states c !! k;
  forgets_horizon : forall k, hz_le c k -> hz_le c' k;
  forgets_same : ks = [] -> same_horizon c c';
}.

(** The horizon moves forward. *)
Lemma just_after_forward c d k last : tree_ok c -> das_ok d -> just_after c d = true ->
  hz_le c k ->
  hz_le (ak_set_horizon c (da_group_id d) (da_object_id d) (da_object_offset d + da_length d) last) k.
Proof.
  intros Hc Hd Hj [Hs Hk]. unfold das_ok, is_id in Hd. split.
  { unfold horizon_set, is_id. cbn. lia. }
  unfold just_after in Hj. unfold horizon_set, is_id in Hs. destruct k as [[kg ko] kx].
  unfold akey_lt, hz_key in *. cbn [ak_set_horizon ak_horizon_group_id ak_horizon_object_id ak_horizon_offset].
  assert (u64 (ak_horizon_group_id c + 1) = ak_horizon_group_id c + 1) as E1 by (apply u64_small; u64_lia).
  rewrite E1 in Hj.
  assert (kg < ak_horizon_group_id c \/ (kg = ak_horizon_group_id c /\ (ko < ak_horizon_object_id c \/
    (ko = ak_horizon_object_id c /\ kx <= ak_horizon_offset c)))) as Hle.
  { destruct Hk as [? | [= -> -> ->]]; lia. }
  assert (kg < da_group_id d \/ (kg = da_group_id d /\ (ko < da_object_id d \/
    (ko = da_object_id d /\ kx <= da_object_offset d + da_length d)))) as Hgoal.
  { destruct (Z.eqb_spec (da_group_id d) (ak_horizon_group_id c)).
    - destruct (Z.eqb_spec (da_object_id d) (ak_horizon_object_id c)); [b2p; lia |].
      destruct (ak_horizon_is_last_fragment c); [| done].
      apply andb_prop in Hj as [Hj _]. apply Z.eqb_eq in Hj.
      assert (da_object_id d = ak_horizon_object_id c + 1); [| lia].
      unfold u64 in Hj. destruct (Z_lt_le_dec (da_object_id d) (ak_horizon_object_id c)).
      + replace (da_object_id d - ak_horizon_object_id c)
          with (da_object_id d - ak_horizon_object_id c + two64 + (-1) * two64) in Hj by lia.
        rewrite Z.mod_add, Z.mod_small in Hj by u64_lia. u64_lia.
      + rewrite Z.mod_small in Hj by u64_lia. lia.
    - b2p. lia. }
  destruct Hgoal as [? | (-> & [? | (-> & ?)])]; [left; lia | left; lia |].
  destruct (Z.eq_dec kx (da_object_offset d + da_length d)) as [-> | ?]; [by right | left; lia].
Qed.

Lemma forgets_nil c : ack_ok c -> forgets c c [].
Proof. intros Hok. split; try done. intros k Hk. by apply elem_of_nil in Hk. Qed.

(** The first record is forgotten, then others. *)
Lemma forgets_cons c c2 c' k d last ks : ack_ok c -> ak_states c !! k = Some d -> da_is_acked d = true ->
  just_after c d = true ->
  let c1 := ak_set_horizon c (da_group_id d) (da_object_id d) (da_object_offset d + da_length d) last in
  horizon_set c1 -> same_horizon c1 c2 -> core <$> ak_states c2 = delete k (core <$> ak_states c) ->
  forgets c2 c' ks -> forgets c c' (k :: ks).
Proof.
  intros Hok Hd Eack Ej c1 Hs1 Hh2 Hst2 [Ok Med Que In Out Hor Same].
  destruct (tree_key c (proj1 Hok) k d Hd) as [Hkey Hdok].
  assert (forall x, x <> k -> core <$> ak_states c2 !! x = core <$> ak_states c !! x) as Hne.
  { intros x Hx. rewrite <- !lookup_fmap, Hst2, lookup_delete_ne by done. done. }
  assert (forall x, hz_le c x -> hz_le c' x) as Hfwd.
  { intros x Hx. apply Hor. apply (same_horizon_le c1 c2); [done |].
    by apply just_after_forward; [apply Hok | ..]. }
  split; try done.
  - by rewrite Med, (sh_media _ _ Hh2).
  - by rewrite Que, (sh_queued _ _ Hh2).
  - intros x [-> | Hx]%elem_of_cons.
    + assert (ak_states c2 !! k = None) as Hk2.
      { apply (fmap_None core). by rewrite <- lookup_fmap, Hst2, lookup_delete_eq. }
      split.
      { destruct (decide (k ∈ ks)) as [Hks | Hks]; [by apply In in Hks as [? _] |].
        apply (fmap_None core). rewrite Out by done. by rewrite Hk2. }
      exists d. split_and!; [done | done |]. apply Hor, (same_horizon_le c1 c2); [done |].
      split; [done |]. by right.
    + destruct (In x Hx) as (Hn & dx & Hdx & Hax & Hzx). split; [done |].
      assert (x <> k) as Hxk.
      { intros ->. assert ((core <$> ak_states c2) !! k = Some (core dx)) as Hc2
          by by rewrite lookup_fmap, Hdx. by rewrite Hst2, lookup_delete_eq in Hc2. }
      specialize (Hne x Hxk). rewrite Hdx in Hne. cbn in Hne.
      destruct (ak_states c !! x) as [d0 |]; [| done]. injection Hne as Hcore.
      destruct (core_fields dx d0) as (Ek' & El' & Ea' & _); [unfold core, da_set_extra; congruence |].
      exists d0. split_and!; [done | congruence |]. unfold da_key in Ek'. injection Ek' as -> -> ->.
      by rewrite El'.
  - intros x [Hxk Hx]%not_elem_of_cons. by rewrite Out, Hne.
Qed.

Lemma horizon_loop_forgets fuel c :
  ack_ok c -> (length (splay_nodes (ak_tree c)) < fuel)%nat ->
  exists c' ks, horizon_loop fuel c (splay_first (ak_tree c)) = Some c' /\ forgets c c' ks.
Proof.
  revert c. induction fuel as [| fuel IH]; intros c Hok Hf; [lia |]. cbn [horizon_loop].
  destruct (splay_first (ak_tree c)) as [k |] eqn:Ek; cycle 1.
  { exists c, []. split; [done | by apply forgets_nil]. }
  pose proof (splay_first_elem _ _ Ek) as Hin.
  pose proof Hin as [d Hd]%(tree_elem c (proj1 Hok)). rewrite Hd. cbn [mbind option_bind].
  destruct (da_is_acked d) eqn:Eack; cbn [negb]; cycle 1.
  { exists c, []. split; [done | by apply forgets_nil]. }
  destruct (just_after c d) eqn:Ej; cbn [negb]; cycle 1.
  { exists c, []. split; [done | by apply forgets_nil]. }
  destruct (tree_key c (proj1 Hok) k d Hd) as [Hkey Hdok].
  assert (u64 (da_object_offset d + da_length d) = da_object_offset d + da_length d) as ->
    by (unfold das_ok in Hdok; apply u64_small; u64_lia).
  set (c1 := ak_set_horizon c _ _ _ _).
  assert (horizon_set c1) as Hs1 by (unfold horizon_set, das_ok, is_id in *; cbn; lia).
  assert (ack_ok c1) as Hok1.
  { destruct Hok as [[Hwf Hel Hkeys _ Hm] [Hnd Hex Hlong]]. split; split; try done. by right. }
  destruct (ack_node_delete_spec c1 k d Hok1 Hd) as (c2 & E2 & Hok2 & Hh2 & Hst2 & Ht2).
  rewrite E2. cbn [mbind option_bind].
  change (ak_tree c1) with (ak_tree c) in *.
  pose proof (splay_wf_nodup akey_ok _ (tree_wf c (proj1 Hok))) as Hnodup.
  assert (splay_next (ak_tree c) k = splay_first (ak_tree c2)) as ->.
  { apply splay_first_cons in Ek as [l El].
    rewrite (splay_next_eq _ k [] l El Hnodup), Ht2, splay_first_eq.
    by rewrite (splay_nodes_delete _ k [] l El Hnodup). }
  destruct (IH c2 Hok2) as (c' & ks & E' & Hks).
  { rewrite Ht2. pose proof (splay_delete_length (ak_tree c) k Hnodup Hin). lia. }
  exists c', (k :: ks). split; [done |]. by eapply forgets_cons.
Qed.

(** ** The whole processing of an acknowledgement *)

Ltac eqb_cases :=
  repeat (match goal with
  | |- context [?a =? ?b] => destruct (Z.eqb_spec a b); try (exfalso; lia)
  | |- context [?a <? ?b] => destruct (Z.ltb_spec a b); try (exfalso; lia)
  | |- context [?a <=? ?b] => destruct (Z.leb_spec a b); try (exfalso; lia)
  end; cbn [andb orb]).

Lemma handle_ack_branches c g o off n :
  tree_ok c -> is_id g -> is_id o -> 0 <= off -> 0 <= n -> off + n < two62 ->
  let h := horizon_of c in
  let x := start h g o off in
  quicrq_datagram_handle_ack c g o off n =
    if below h g o (off + n) then
      Some (ak_count c (ak_nb_horizon_events c) (ak_nb_horizon_acks c + 1) (ak_nb_fragment_lost c))
    else
      c ← match quicrq_datagram_ack_find c g o x with
          | Some found => ack_loop (ack_fuel c) c g o found (off + n - x) x
          | None => Some c
          end;
      if reaches h g o off then horizon_loop (ack_fuel c) c (splay_first (ak_tree c)) else Some c.
Proof.
  intros Hc Hg Ho Hoff Hn Hend. unfold quicrq_datagram_handle_ack. cbv zeta.
  unfold is_id in Hg, Ho. rewrite (s64_small n) by u64_lia.
  replace (off + n - off) with n by lia.
  destruct (tree_horizon c Hc) as [Hu | Hs].
  - rewrite (horizon_of_unset _ Hu). cbn [below start reaches].
    assert (forall z, 0 <= z < two62 -> s64 (z - UINT64_MAX) = z + 1) as Hmax.
    { intros z Hz. unfold s64, u64, UINT64_MAX.
      replace (z - 18446744073709551615) with (z + 1 + (-1) * two64) by u64_lia.
      rewrite Z.mod_add, Z.mod_small by u64_lia.
      destruct (Z.ltb_spec (z + 1) 9223372036854775808); u64_lia. }
    destruct Hu as (-> & -> & -> & ->). rewrite !Hmax by done.
    destruct (Z.eqb_spec (g + 1) 0); [lia |]. destruct (Z.ltb_spec (g + 1) 0); [lia |].
    cbn [andb orb]. rewrite Z.eqb_refl. by replace (off + n - off) with n by lia.
  - rewrite (horizon_of_set _ Hs). unfold hz_key. cbn [below start reaches].
    pose proof Hs as (Hhg & Hho & Hhx). unfold is_id in Hhg, Hho.
    rewrite !s64_small by u64_lia. rewrite (u64_small (off + n)) by u64_lia.
    assert ((ak_horizon_group_id c =? UINT64_MAX) = false) as -> by (apply Z.eqb_neq; u64_lia).
    destruct (ak_horizon_is_last_fragment c); eqb_cases; rewrite ?Z.max_l, ?Z.max_r by lia; try done;
      first [by replace (off + n - off) with n by lia |
             by replace (n - (ak_horizon_offset c - off)) with (off + n - ak_horizon_offset c) by lia].
Qed.

(** Either the range is below the horizon, or what is left of it, from [x],
    is above. *)
Lemma handle_ack_cases c g o off n :
  tree_ok c -> is_id g -> is_id o -> 0 <= off -> 0 <= n -> off + n < two62 ->
  (hz_lt c (g, o, off + n) /\
   quicrq_datagram_handle_ack c g o off n =
     Some (ak_count c (ak_nb_horizon_events c) (ak_nb_horizon_acks c + 1)
             (ak_nb_fragment_lost c))) \/
  exists x m check, off <= x /\ x + m = off + n /\
    (forall e, x < e -> ~ hz_le c (g, o, e)) /\
    (x <> off -> hz_lt c (g, o, off)) /\
    (horizon_set c -> ak_horizon_group_id c < g -> check = false) /\
    quicrq_datagram_handle_ack c g o off n =
      (c ← (match quicrq_datagram_ack_find c g o x with
            | Some found => ack_loop (ack_fuel c) c g o found m x
            | None => Some c
            end);
       if (check : bool) then horizon_loop (ack_fuel c) c (splay_first (ak_tree c)) else Some c).
Proof.
  intros Hc Hg Ho Hoff Hn Hend. rewrite (handle_ack_branches c g o off n) by done. cbv zeta.
  destruct (tree_horizon c Hc) as [Hu | Hs].
  - rewrite (horizon_of_unset _ Hu). cbn [below start reaches]. right.
    assert (~ horizon_set c) as Hns by (intros Hs; by eapply horizon_excl).
    exists off, (off + n - off), true. split_and!; try done; [lia | by intros ? _ [? _]].
  - rewrite (horizon_of_set _ Hs). unfold hz_lt, hz_le, hz_key. cbn [below start reaches].
    set (hg := ak_horizon_group_id c). set (ho := ak_horizon_object_id c). set (hx := ak_horizon_offset c).
    destruct ((g <? hg) || _) eqn:Eb; [left; split; [split; [done | cbn; b2p; lia] | done] | right].
    apply not_true_iff_false in Eb. rewrite !orb_true_iff, !andb_true_iff, !orb_true_iff, !andb_true_iff in Eb.
    rewrite !Z.ltb_lt, !Z.eqb_eq in Eb.
    set (x := if _ && _ then _ else _).
    assert (off <= x /\ (x <> off -> g = hg /\ o = ho /\ off < hx) /\ (g = hg -> o = ho -> hx <= x)) as (Hx & Hne & Hge).
    { subst x. destruct (Z.eqb_spec g hg), (Z.eqb_spec o ho); cbn [andb]; lia. }
    exists x, (off + n - x), ((g =? hg) && (((o =? ho) && (off <=? hx)) || ((o =? ho + 1) && ak_horizon_is_last_fragment c && (off =? 0)))).
    split_and!; [done | lia | | | | done].
    + intros e He [_ [Hlt | [= -> -> ->]]]; cbn in *; lia.
    + intros Hxo. split; [done |]. cbn. lia.
    + intros _ Hlt. by rewrite (proj2 (Z.eqb_neq _ _)) by lia.
Qed.

Lemma find_akey_ok g o x n : is_id g -> is_id o -> 0 <= x -> 0 <= n -> x + n < two62 ->
  akey_ok (g, o, x).
Proof. unfold is_id, akey_ok, is_key. intros. u64_lia. Qed.

(** The records that an acknowledgement marks, from the offset [x] where it
    starts. *)
Lemma ack_range_marks c g o off n x m c1 :
  ack_ok c -> is_id g -> is_id o -> 0 <= off -> 0 <= n -> off + n < two62 ->
  off <= x -> x + m = off + n -> (x <> off -> hz_lt c (g, o, off)) ->
  match quicrq_datagram_ack_find c g o x with
  | Some found => ack_loop (ack_fuel c) c g o found m x | None => Some c end = Some c1 ->
  exists ks, marked c c1 ks /\ (forall k, k ∈ ks -> exists y, k = (g, o, y) /\ off <= y < off + n) /\
    (is_Some (ak_states c !! (g, o, off)) -> 0 < n -> ~ hz_lt c (g, o, off) -> (g, o, off) ∈ ks).
Proof.
  intros Hok Hg Ho Hoff Hn Hend Hx Hm Hxo. destruct (Z.lt_ge_cases (off + n) x) as [Hbig | Hbig].
  { (* nothing is left of the range *)
    assert (m <= 0) as Hm0 by lia.
    assert (match quicrq_datagram_ack_find c g o x with
            | Some found => ack_loop (ack_fuel c) c g o found m x | None => Some c end = Some c) as ->.
    { destruct (quicrq_datagram_ack_find c g o x); [| done]. unfold ack_fuel. cbn [ack_loop].
      destruct (Z.ltb_spec 0 m); [lia | done]. }
    intros [= <-]. exists []. split_and!; [apply marked_nil | | ].
    - intros k Hk. by apply elem_of_nil in Hk.
    - intros _ _ Hnz. destruct Hnz. apply Hxo. lia. }
  assert (akey_ok (g, o, x)) as Hkey by (apply (find_akey_ok _ _ _ 0); try done; lia).
  destruct (quicrq_datagram_ack_find c g o x) as [k |] eqn:Ef.
  - apply tree_find_some in Ef as (-> & d & Hd); [| apply Hok | done]. intros Hl.
    apply ack_loop_marks in Hl as (ks & Hmk & Hin & Hfirst);
      [| apply Hok | by eexists | lia | lia].
    exists ks. split_and!; [done | |].
    + intros k Hk. destruct (Hin k Hk) as (y & -> & ?). exists y. split; [done | lia].
    + intros _ Hpos Hnz. destruct (decide (x = off)) as [-> | Hne]; [apply Hfirst; lia |].
      destruct Hnz. by apply Hxo.
  - intros [= <-]. exists []. split_and!; [apply marked_nil | |].
    + intros k Hk. by apply elem_of_nil in Hk.
    + intros [d Hd] _ Hnz. destruct (decide (x = off)) as [-> | Hne].
      * by rewrite (tree_find_none c g o off (proj1 Hok) Hkey Ef) in Hd.
      * destruct Hnz. by apply Hxo.
Qed.

Lemma handle_ack_effect c g o off n c' :
  ack_ok c -> is_id g -> is_id o -> 0 <= off -> 0 <= n -> off + n < two62 ->
  quicrq_datagram_handle_ack c g o off n = Some c' ->
  exists c1 ks gone, marked c c1 ks /\ forgets c1 c' gone /\
    (forall k, k ∈ ks -> exists y, k = (g, o, y) /\ off <= y < off + n) /\
    (is_Some (ak_states c !! (g, o, off)) -> 0 < n -> ~ hz_lt c (g, o, off) -> (g, o, off) ∈ ks) /\
    (horizon_set c -> ak_horizon_group_id c < g -> gone = []).
Proof.
  intros Hok Hg Ho Hoff Hn Hend.
  destruct (handle_ack_cases c g o off n) as [[Hlt ->] | (x & m & check & Hx & Hm & _ & Hxo & Hchk & ->)];
    [apply Hok | done .. | |].
  { intros [= <-]. exists c, [], []. split_and!; [apply marked_nil | | | | done].
    - assert (ack_ok (ak_count c (ak_nb_horizon_events c) (ak_nb_horizon_acks c + 1)
        (ak_nb_fragment_lost c))) as Hok' by by destruct Hok as [[] []].
      split; try done. intros k Hk. by apply elem_of_nil in Hk.
    - intros k Hk. by apply elem_of_nil in Hk.
    - intros _ Hpos Hnz. destruct Hnz. destruct Hlt as [Hs Hlt]. split; [done |].
      eapply akey_lt_trans; [| exact Hlt]. cbn. lia. }
  destruct (match quicrq_datagram_ack_find c g o x with Some _ => _ | None => _ end) as [c1 |] eqn:Ec1;
    [| done].
  pose proof (ack_range_marks c g o off n x m c1 Hok Hg Ho Hoff Hn Hend Hx Hm Hxo Ec1) as Hmark.
  destruct Hmark as (ks & Hmk & Hin & Hfirst). cbn [mbind option_bind].
  pose proof (marked_ok _ _ _ Hmk Hok) as Hok1.
  destruct check.
  - destruct (horizon_loop_forgets (ack_fuel c1) c1 Hok1) as (c2 & gone & -> & Hforget);
      [unfold ack_fuel; lia |].
    intros [= <-]. exists c1, ks, gone. split_and!; try done.
    intros Hs Hlt. by specialize (Hchk Hs Hlt).
  - intros [= <-]. exists c1, ks, []. split_and!; try done. by apply forgets_nil.
Qed.

Lemma handle_ack_total c g o off n :
  ack_ok c -> is_id g -> is_id o -> 0 <= off -> 0 <= n -> off + n < two62 ->
  (forall y d, ak_states c !! (g, o, y) = Some d -> off <= y < off + n ->
     0 < da_length d /\ (y + da_length d < off + n ->
       is_Some (ak_states c !! (g, o, y + da_length d)) \/ hz_le c (g, o, y + da_length d))) ->
  is_Some (quicrq_datagram_handle_ack c g o off n).
Proof.
  intros Hok Hg Ho Hoff Hn Hend Hcov.
  destruct (handle_ack_cases c g o off n) as [[_ ->] | (x & m & check & Hx & Hm & Habove & _ & _ & ->)];
    [apply Hok | done .. | by eexists |].
  assert (exists c1, match quicrq_datagram_ack_find c g o x with
     | Some found => ack_loop (ack_fuel c) c g o found m x | None => Some c end = Some c1 /\ ack_ok c1)
    as (c1 & -> & Hok1).
  { destruct (Z.lt_ge_cases (off + n) x) as [Hbig | Hbig].
    { exists c. split; [| done]. destruct (quicrq_datagram_ack_find c g o x); [| done].
      unfold ack_fuel. cbn [ack_loop]. destruct (Z.ltb_spec 0 m); [lia | done]. }
    assert (akey_ok (g, o, x)) as Hkey by (apply (find_akey_ok _ _ _ 0); try done; lia).
    destruct (quicrq_datagram_ack_find c g o x) as [k |] eqn:Ef; [| by exists c].
    apply tree_find_some in Ef as (-> & d & Hd); [| apply Hok | done].
    assert ((g, o, x) ∈ splay_nodes (ak_tree c)) as Hin by (apply (tree_elem c (proj1 Hok)); by eexists).
    apply list_elem_of_split in Hin as (l1 & l2 & E).
    assert (is_Some (ack_loop (ack_fuel c) c g o (g, o, x) m x)) as [c1 Ec1].
    { apply (ack_loop_total _ c g o x m l1 l2); [apply Hok | done | | lia | lia |].
      { unfold ack_fuel. rewrite E, length_app. cbn. lia. }
      intros y dy Hy Hr. destruct (Hcov y dy Hy ltac:(lia)) as [Hpos Hnext]. split; [done |].
      intros Hlt. destruct (Hnext ltac:(lia)) as [? | Hz]; [done |].
      destruct (Habove (y + da_length dy)); [lia | done]. }
    exists c1. split; [done |].
    apply ack_loop_marks in Ec1 as (ks & Hmk & _); [| apply Hok | by eexists | lia | lia].
    by apply (marked_ok _ _ _ Hmk). }
  cbn [mbind option_bind]. destruct check; [| by eexists].
  destruct (horizon_loop_forgets (ack_fuel c1) c1 Hok1) as (c2 & gone & -> & _);
    [unfold ack_fuel; lia | by eexists].
Qed.

End loops.
