(* ===== verification/AckRepeat.v ===== *)
(** * The repetition of lost datagrams

    What one turn of the loop of [quicrq_datagram_handle_repeat] queues, and
    the record it leaves when it splits a fragment. *)

From S2P Require Import Prelude Picosplay PicoFrames Proto Ack AckProofs.

(** The limits of the queue of picoquic: any header fits in a datagram. *)
Class PicoQueueLaws (PQ : PicoQueue) : Prop :=
  picoquic_limits : 57 < PICOQUIC_DATAGRAM_QUEUE_MAX_LENGTH <= PICOQUIC_MAX_PACKET_SIZE /\
    PICOQUIC_MAX_PACKET_SIZE < 65536.

Definition is_time (t : Z) : Prop := 0 <= t < 2305843009213693952.

Section repeat.
Context `{Sp : Splay akey quicrq_datagram_ack_node_compare} {SL : SplayLaws Sp}.
Context {Al : Allocator} {PF : PicoFrames} {FL : FramesLaws PF}.
Context {PQ : PicoQueue} {PL : PicoQueueLaws PQ}.
Implicit Types (c : quicrq_datagram_ack_ctx_t) (k : akey) (d : quicrq_datagram_ack_state_t).

(** What a receiver finds in a datagram: the fields of the header and the
    data. *)
Definition carries (mid : Z) d (delay off : Z) (piece datagram : list Z) : Prop :=
  quicrq_datagram_header_decode datagram =
    Some ((mid, da_group_id d, da_object_id d, off, delay, da_flags d,
           if (da_object_id d =? 0) && (off =? 0) then da_nb_objects_previous_group d else 0,
           da_object_length d), piece).

(** The delay announced when the fragment is sent at a given time. *)
Definition repeat_delay d (now : Z) : Z :=
  da_queue_delay d +
  (if da_start_time d <? now then (now - da_start_time d + 500) / 1000 else 0).

(** The bytes of data of the first datagram, given the header. *)
Lemma repeat_datagram_spec c d data n now :
  is_id (ak_media_id c) -> das_ok d -> is_time now -> 0 <= n < two62 ->
  exists header p, repeat_datagram c d data n now = Some (header, p, blen header + p) /\
    blen header + p <= PICOQUIC_DATAGRAM_QUEUE_MAX_LENGTH /\ 0 <= p <= n /\
    (0 < n -> 0 < p) /\
    forall piece, carries (ak_media_id c) d (repeat_delay d now) (da_object_offset d)
                    piece (header ++ piece).
Proof.
  intros Hm (Hg & Ho & Hoff & Hlen & Hend & Hnb & Hol & Hdel & Hst) Hnow Hn.
  pose proof picoquic_limits as [Hq Hp]. unfold repeat_datagram.
  assert ((if da_start_time d <? now then (now -64 da_start_time d +64 500) / 1000 else 0) =
    (if da_start_time d <? now then (now - da_start_time d + 500) / 1000 else 0)) as ->.
  { unfold is_time, is_id in *. destruct (Z.ltb_spec (da_start_time d) now); [| done].
    by rewrite (u64_small (now - _)), u64_small by u64_lia. }
  assert (0 <= (if da_start_time d <? now then (now - da_start_time d + 500) / 1000 else 0)
    < 2305843009213693952) as Hdd.
  { unfold is_time, is_id in *. destruct (Z.ltb_spec (da_start_time d) now); [| lia]. split.
    - apply Z.div_pos; lia.
    - apply Z.div_lt_upper_bound; lia. }
  rewrite (u64_small (da_queue_delay d + _)) by u64_lia. fold (repeat_delay d now).
  assert (is_varint (repeat_delay d now)) as Hrd by (unfold is_varint, repeat_delay; u64_lia).
  assert (is_varint (da_object_offset d)) as Hov by (unfold is_varint; u64_lia).
  pose proof (datagram_header_parses _ _ _ _ _ (da_flags d) _ _ Hm Hg Ho Hov Hrd Hnb Hol) as Hparse.
  destruct (datagram_header_fits _ _ _ _ _ (da_flags d) _ _ Hm Hg Ho Hov Hrd Hnb Hol)
    as (hl & Hhl & H0 & Hroom & _).
  assert (hl <= PICOQUIC_MAX_PACKET_SIZE) as Hmax by lia.
  destruct (Hroom PICOQUIC_MAX_PACKET_SIZE Hmax) as (header & Eh & Hbl).
  rewrite Eh. cbn [mbind option_bind]. rewrite (u64_small (blen header + n)) by u64_lia.
  assert (forall piece, carries (ak_media_id c) d (repeat_delay d now) (da_object_offset d) piece
            (header ++ piece)) as Hc by (intros piece; by apply (Hparse _ _ piece Eh)).
  destruct (Z.ltb_spec PICOQUIC_DATAGRAM_QUEUE_MAX_LENGTH (blen header + n)).
  - exists header, (PICOQUIC_DATAGRAM_QUEUE_MAX_LENGTH - blen header).
    rewrite (u64_small (_ - _)) by u64_lia. split_and!; try lia; [| done]. do 3 f_equal. lia.
  - exists header, n. split_and!; try lia; done.
Qed.

(** The lengths of the records: what the splits change. *)
Definition lens c : gmap akey Z := da_length <$> ak_states c.

Lemma lens_lookup c k n : lens c !! k = Some n <->
  exists d, ak_states c !! k = Some d /\ da_length d = n.
Proof.
  unfold lens. rewrite lookup_fmap. destruct (ak_states c !! k) as [d |]; cbn.
  - split; [intros [= <-]; eauto | by intros (? & [= <-] & <-)].
  - split; [done | by intros (? & ? & _)].
Qed.

Lemma core_length : da_length ∘ core = da_length.
Proof. done. Qed.

Lemma keeps_lens c c' : keeps c c' -> lens c' = lens c.
Proof.
  intros Hk. unfold lens. rewrite <- core_length, !map_fmap_compose.
  by rewrite (keeps_states _ _ Hk).
Qed.

(** The identity and properties of a fragment. *)
Record same_props d d' : Prop := {
  sp_group : da_group_id d' = da_group_id d;
  sp_object : da_object_id d' = da_object_id d;
  sp_flags : da_flags d' = da_flags d;
  sp_nb : da_nb_objects_previous_group d' = da_nb_objects_previous_group d;
  sp_olen : da_object_length d' = da_object_length d;
  sp_delay : da_queue_delay d' = da_queue_delay d;
  sp_start : da_start_time d' = da_start_time d;
}.

(** The outcomes of a turn from a record [d] with [n] bytes to send. *)
Inductive turn_result c k d (data : list Z) (n now : Z) c'
  : Z -> option (akey * list Z * Z) -> Prop :=
  | turn_nothing : n = 0 -> da_flags d <> 255 -> c' = c -> turn_result c k d data n now c' 0 None
  | turn_refused ret : ret <> 0 -> ack_ok c' -> same_horizon c c' -> lens c' = lens c ->
      (exists len dg, picoquic_queue_datagram_frame (ak_queued c) len dg = ret) ->
      turn_result c k d data n now c' ret None
  | turn_last datagram : ack_ok c' -> same_horizon (ak_set_queued c (ak_queued c ++ [datagram])) c' ->
      lens c' = lens c -> n <= blen data -> blen datagram <= PICOQUIC_DATAGRAM_QUEUE_MAX_LENGTH ->
      carries (ak_media_id c) d (repeat_delay d now) (da_object_offset d) (ztake n data) datagram ->
      turn_result c k d data n now c' 0 None
  | turn_no_split datagram p ret : 0 < p < n -> ack_ok c' ->
      same_horizon (ak_set_queued c (ak_queued c ++ [datagram])) c' -> lens c' = lens c ->
      p <= blen data -> blen datagram <= PICOQUIC_DATAGRAM_QUEUE_MAX_LENGTH ->
      carries (ak_media_id c) d (repeat_delay d now) (da_object_offset d) (ztake p data) datagram ->
      ((ret = 1 /\ is_Some (ak_states c !! (da_group_id d, da_object_id d, da_object_offset d + p))) \/
       (ret = -1 /\ malloc_ok sizeof_datagram_ack_state = false)) ->
      turn_result c k d data n now c' ret None
  | turn_split datagram p k' d' : 0 < p < n -> ack_ok c' ->
      same_horizon (ak_set_queued c (ak_queued c ++ [datagram])) c' ->
      k' = (da_group_id d, da_object_id d, da_object_offset d + p) ->
      ak_states c !! k' = None -> ak_states c' !! k' = Some d' -> same_props d d' ->
      ~ hz_lt c k' ->
      lens c' = <[k := p]> (<[k' := n - p]> (lens c)) ->
      p <= blen data -> blen datagram <= PICOQUIC_DATAGRAM_QUEUE_MAX_LENGTH ->
      carries (ak_media_id c) d (repeat_delay d now) (da_object_offset d) (ztake p data) datagram ->
      turn_result c k d data n now c' 0 (Some (k', zdrop p data, n - p)).

Lemma extra_queue_opt (b : bool) c k d data time : ack_ok c -> ak_states c !! k = Some d ->
  (da_length d <= blen data ->
     is_Some (if b then quicrq_datagram_ack_extra_queue c k data time else Some c)) /\
  forall c', (if b then quicrq_datagram_ack_extra_queue c k data time else Some c) = Some c' ->
    ack_ok c' /\ keeps c c'.
Proof.
  intros Hok Hd. destruct b.
  - destruct (extra_queue_spec c k d data time Hok Hd) as [Hs Hc]. split; [done |].
    intros c' E. by destruct (Hc c' E) as (? & ? & _).
  - split; [by eexists |]. intros c' [= <-]. by auto using keeps_refl.
Qed.

Lemma ack_ok_queued c q : ack_ok c -> ack_ok (ak_set_queued c q).
Proof. by intros [[] []]. Qed.

(** The end of a split: the new record takes the properties of the old one,
    which becomes shorter. *)
Lemma split_records c k k' d d' p olen nack : ack_ok c -> k <> k' ->
  ak_states c !! k = Some d -> ak_states c !! k' = Some d' -> 0 <= p ->
  da_object_offset d + p < two62 -> is_id olen ->
  let c1 := ak_put c k' (da_set_props d' olen nack) in
  let c2 := ak_put c1 k (da_set_length d p) in
  ak_states c1 !! k = Some d /\ ack_ok c2 /\ same_horizon c c2 /\
  lens c2 = <[k := p]> (lens c) /\ ak_states c2 !! k' = Some (da_set_props d' olen nack).
Proof.
  intros [Ht Hx] Hne Hd Hd' Hp Hend Hol c1 c2.
  destruct (tree_key c Ht k d Hd) as [Hkey Hok]. destruct (tree_key c Ht k' d' Hd') as [Hkey' Hok'].
  assert (ak_states c1 !! k = Some d) as Hd1 by (unfold c1; by rewrite ak_put_lookup_ne).
  assert (tree_ok c1) as Ht1.
  { apply (tree_ok_put c k' d'); [done | done | done |]. unfold das_ok, props_ok in *. cbn. tauto. }
  assert (extra_ok c1) as Hx1 by by apply (extra_ok_put c k' d').
  split_and!; [done | split | done | | ].
  - apply (tree_ok_put c1 k d); [done | done | done |]. unfold das_ok in *. cbn. tauto.
  - by apply (extra_ok_put c1 k d).
  - unfold lens, c2, c1. cbn. rewrite !fmap_insert. cbn. f_equal.
    apply insert_id. by rewrite lookup_fmap, Hd'.
  - unfold c2. rewrite ak_put_lookup_ne by done. apply ak_put_lookup.
Qed.

Lemma created_records c c' k k' d' : ack_ok c' -> k <> k' -> is_Some (ak_states c !! k) ->
  core <$> ak_states c' = <[k' := core d']> (core <$> ak_states c) ->
  exists d1 d2, ak_states c' !! k' = Some d1 /\ core d1 = core d' /\ ak_states c' !! k = Some d2 /\ da_key d2 = k.
Proof.
  intros [Ht _] Hne Hk Hs.
  assert ((core <$> ak_states c') !! k' = Some (core d')) as H1 by (rewrite Hs; apply lookup_insert_eq).
  assert (is_Some (ak_states c' !! k)) as [d2 Hd2].
  { by rewrite <- (fmap_is_Some core), <- lookup_fmap, Hs, lookup_insert_ne, lookup_fmap, fmap_is_Some by done. }
  rewrite lookup_fmap in H1. destruct (ak_states c' !! k') as [d1 |]; [| done]. apply (inj Some) in H1.
  exists d1, d2. split_and!; try done. by apply (tree_key c' Ht k d2).
Qed.

Lemma lens_dom c c' x : lens c' = lens c -> is_Some (ak_states c' !! x) <-> is_Some (ak_states c !! x).
Proof.
  intros Hl. rewrite <- (fmap_is_Some da_length), <- lookup_fmap. fold (lens c').
  rewrite Hl. unfold lens. by rewrite lookup_fmap, fmap_is_Some.
Qed.

(** The split, once the first datagram was queued: from [c] to [c2], whose
    records are the same. *)
Section split.
Context c c2 k d (data dg : list Z) (n p now : Z).
Context (c2_ok : ack_ok c2) (same2 : same_horizon (ak_set_queued c (ak_queued c ++ [dg])) c2).
Context (lens2 : lens c2 = lens c).
Context (record_d : ak_states c !! k = Some d) (key_d : da_key d = k) (ok_d : das_ok d).
Context (pieces : 0 < p < n) (in_range : da_object_offset d + n < two62) (in_data : p <= blen data).
Context (dg_fits : blen dg <= PICOQUIC_DATAGRAM_QUEUE_MAX_LENGTH).
Context (dg_carries : carries (ak_media_id c) d (repeat_delay d now) (da_object_offset d) (ztake p data) dg).
Let k' : akey := (da_group_id d, da_object_id d, da_object_offset d + p).

Lemma split_key_differs : k <> k'.
Proof. rewrite <- key_d. unfold k', da_key. intros [=]; lia. Qed.

Lemma split_not_below : hz_lt c2 k' -> hz_lt c k.
Proof.
  intros Hz. apply (same_horizon_lt _ _ k' same2) in Hz as [Hs Hlt]. split; [done |].
  eapply akey_lt_trans; [| exact Hlt]. rewrite <- key_d. unfold k', da_key. cbn. lia.
Qed.

(** The two records of a split. *)
Lemma split_created qr c3 : ack_ok c3 -> same_horizon c2 c3 -> ak_states c2 !! k' = None -> ~ hz_lt c2 k' ->
  core <$> ak_states c3 = <[k' := core (da_new (da_group_id d) (da_object_id d) (da_object_offset d + p) (da_flags d)
    (da_nb_objects_previous_group d) (n - p) (da_queue_delay d) (da_object_length d) (da_start_time d))]>
    (core <$> ak_states c2) ->
  quicrq_datagram_ack_init qr c2 (da_group_id d) (da_object_id d) (da_object_offset d + p) (da_flags d)
    (da_nb_objects_previous_group d) (zdrop p data) (n - p) (da_queue_delay d) (da_object_length d)
    (da_start_time d) = Some (c3, 0, Some k') ->
  exists c', split_repeated qr c2 k (da_set_sent d now) p data n = Some (c', 0, Some (k', zdrop p data, n - p)) /\
    turn_result c k d data n now c' 0 (Some (k', zdrop p data, n - p)).
Proof.
  intros Hok3 Hsh3 Hnone Hnb Hst3 Hinit. unfold das_ok, props_ok in ok_d. pose proof split_key_differs as Hne.
  unfold split_repeated. cbn [da_set_sent da_group_id da_object_id da_object_offset da_flags
       da_nb_objects_previous_group da_queue_delay da_object_length da_start_time].
  rewrite (u64_small (_ + p)), (u64_small (n - p)), Hinit by u64_lia. cbn [mbind option_bind Z.eqb].
  destruct (created_records c2 c3 k k' _ Hok3 Hne (proj2 (lens_dom c c2 k lens2) (mk_is_Some _ _ record_d)) Hst3)
    as (d' & d3 & Hd' & Hcore' & Hd3 & Hk3).
  rewrite Hd'. cbn [mbind option_bind].
  destruct (split_records c3 k k' d3 d' p (da_object_length d) (da_nack_received (da_set_sent d now)))
    as (E3 & Hok4 & Hsh4 & Hl4 & Hk4'); [done | done | done | done | lia | | tauto |].
  { rewrite <- key_d in Hk3. apply da_key_inv in Hk3 as (_ & _ & ->). lia. }
  rewrite E3. cbn [mbind option_bind]. eexists. split; [reflexivity |].
  destruct (core_fields _ _ Hcore') as (Fk & Fl & _ & Fol & Ffl & Fnb & Fdel & Fst). injection Fk as Fg Fo Fx.
  eapply (turn_split c k d data n now _ dg p k');
    [lia | done | | done | | exact Hk4' | by split | | | done | done | done].
  - eapply same_horizon_trans; [exact same2 |]. by eapply same_horizon_trans.
  - apply eq_None_not_Some. intros Hs. apply (lens_dom c c2 k' lens2) in Hs. by rewrite Hnone in Hs; destruct Hs.
  - intros Hb. by apply Hnb, (same_horizon_lt _ _ k' same2).
  - etrans; [exact Hl4 |]. f_equal. rewrite <- lens2. unfold lens.
    rewrite <- core_length, !map_fmap_compose, Hst3, !fmap_insert. done.
Qed.

Lemma split_repeated_spec qr :
  (n <= blen data -> ~ hz_lt c k -> is_Some (split_repeated qr c2 k (da_set_sent d now) p data n)) /\
  forall c' ret next, split_repeated qr c2 k (da_set_sent d now) p data n = Some (c', ret, next) ->
    turn_result c k d data n now c' ret next.
Proof.
  pose proof ok_d as Hdok. unfold das_ok, props_ok in Hdok.
  destruct (ack_init_spec qr c2 (da_group_id d) (da_object_id d) (da_object_offset d + p)
    (da_flags d) (da_nb_objects_previous_group d) (zdrop p data) (n - p) (da_queue_delay d)
    (da_object_length d) (da_start_time d)) as [Hi Hi'];
    [done | tauto | tauto | lia | lia | lia | unfold props_ok; tauto |].
  fold k' in Hi'. revert Hi Hi'.
  destruct (quicrq_datagram_ack_init _ _ _ _ _ _ _ _ _ _ _ _) as [[[c3 ret3] created] |] eqn:E; intros Hi Hi'; cycle 1.
  { assert (split_repeated qr c2 k (da_set_sent d now) p data n = None) as ->.
    { unfold split_repeated. cbn -[quicrq_datagram_ack_init Z.mul].
      by rewrite (u64_small (_ + p)), (u64_small (n - p)), E by u64_lia. }
    split; [| done]. intros Hl _. destruct Hi; [| done]. rewrite blen_zdrop; lia. }
  assert (created = None -> split_repeated qr c2 k (da_set_sent d now) p data n =
    if ret3 =? 0 then None else Some (c3, ret3, None)) as Hstop.
  { intros ->. unfold split_repeated. cbn -[quicrq_datagram_ack_init Z.mul].
    rewrite (u64_small (_ + p)), (u64_small (n - p)), E by u64_lia. cbn [mbind option_bind]. by destruct (ret3 =? 0). }
  destruct (Hi' c3 ret3 created eq_refl) as [Hb _ | Hnb Hdup E3 | Hnb Hnone Hmem E3 | Hnb Hnone Hmem Hok3 Hsh3 Ht3 Hst3].
  - rewrite Hstop by done. split; [| done]. intros _ Hnz. by destruct Hnz; apply split_not_below.
  - rewrite Hstop by done. split; [by eexists |]. intros c' ret next [= <- <- <-]. rewrite E3.
    apply (turn_no_split c k d data n now _ dg p); [lia | done .. |]. left. split; [done |]. by apply (lens_dom c c2 k' lens2).
  - rewrite Hstop by done. split; [by eexists |]. intros c' ret next [= <- <- <-]. rewrite E3.
    apply (turn_no_split c k d data n now _ dg p); [lia | done .. |]. by right.
  - destruct (split_created qr c3 Hok3 Hsh3 Hnone Hnb Hst3 E) as (c4 & -> & Hturn).
    split; [by eexists |]. by intros c' ret next [= <- <- <-].
Qed.
End split.

Lemma repeat_turn_spec qr c k d data n prep now :
  ack_ok c -> ak_states c !! k = Some d -> is_time now -> 0 <= n ->
  da_object_offset d + n < two62 ->
  (da_length d <= blen data -> n <= blen data -> ~ hz_lt c k ->
     is_Some (repeat_turn qr c k data n prep now)) /\
  forall c' ret next, repeat_turn qr c k data n prep now = Some (c', ret, next) ->
    turn_result c k d data n now c' ret next.
Proof.
  intros Hok Hd Hnow Hn Hend. destruct (tree_key c (proj1 Hok) k d Hd) as [Hkey Hdok].
  pose proof (tree_media c (proj1 Hok)) as Hmid. unfold repeat_turn. rewrite Hd. cbn [mbind option_bind].
  destruct (negb ((0 <? n) || (da_flags d =? 255))) eqn:Estop.
  { split; [by eexists |]. intros c' ret next [= <- <- <-]. b2p. by apply turn_nothing; [lia |..]. }
  set (d0 := da_set_sent d now). set (c0 := ak_put c k d0).
  assert (ack_ok c0) as Hok0.
  { split; [by apply (tree_ok_put c k d); [apply Hok | ..] | by apply (extra_ok_put c k d); [apply Hok | ..]]. }
  assert (lens c0 = lens c) as Hl0.
  { unfold lens, c0. cbn. rewrite fmap_insert. apply insert_id. by rewrite lookup_fmap, Hd. }
  destruct (repeat_datagram_spec c0 d0 data n now) as (h & p & -> & Hbl & Hp & Hpos & Hcar);
    [done | done | done | unfold das_ok in Hdok; lia |].
  cbn [mbind option_bind]. pose proof picoquic_limits as Hlim. pose proof (blen_nonneg h).
  rewrite (u64_small (blen h + p)) by u64_lia.
  destruct (Z.ltb_spec PICOQUIC_MAX_PACKET_SIZE (blen h + p)); [lia |].
  destruct (Z.ltb_spec (blen data) p) as [Hlong | Hlong]; [split; [lia | done] |].
  set (dg := h ++ ztake p data).
  assert (blen dg <= PICOQUIC_DATAGRAM_QUEUE_MAX_LENGTH) as Hdg
    by (unfold dg; rewrite blen_app, blen_ztake by lia; lia).
  assert (carries (ak_media_id c) d (repeat_delay d now) (da_object_offset d) (ztake p data) dg)
    as Hc by apply Hcar.
  change (ak_queued c0) with (ak_queued c).
  destruct (Z.eqb_spec (picoquic_queue_datagram_frame (ak_queued c) (blen h + p) dg) 0); cycle 1.
  { split; [by eexists |]. intros c' ret next [= <- <- <-]. apply turn_refused; try done. by eauto. }
  set (c1 := ak_set_queued c0 _).
  assert (ack_ok c1) as Hok1 by by apply ack_ok_queued.
  assert (ak_states c1 !! k = Some d0) as Hd1 by apply ak_put_lookup.
  destruct (extra_queue_opt (prep && (0 <? extra_repeat_delay qr)) c1 k d0 data
              (now +64 extra_repeat_delay qr) Hok1 Hd1) as [Hext Hext'].
  destruct (if prep && _ then _ else _) as [c2 |] eqn:E2; cycle 1.
  { split; [| done]. intros Hl _ _. by destruct (Hext Hl). }
  destruct (Hext' c2 eq_refl) as [Hok2 Hk2]. clear Hext Hext'. cbn [mbind option_bind].
  assert (same_horizon (ak_set_queued c (ak_queued c ++ [dg])) c2) as Hsh2.
  { eapply same_horizon_trans; [| by apply keeps_same_horizon]. done. }
  assert (lens c2 = lens c) as Hl2 by (rewrite (keeps_lens c1 c2) by done; exact Hl0).
  destruct (Z.ltb_spec p n) as [Hpn | Hpn]; cycle 1.
  { split; [by eexists |]. intros c' ret next [= <- <- <-].
    replace p with n in * by lia. by eapply turn_last. }
  destruct (split_repeated_spec c c2 k d data dg n p now Hok2 Hsh2 Hl2 Hd Hkey Hdok ltac:(lia) Hend Hlong Hdg Hc qr)
    as [Hs Hs']. split; [by auto | done].
Qed.

End repeat.
