(* ===== verification/AckExact.v ===== *)
(** * What an acknowledgement does, as a specification

    Definitions that say, without the loops of the code, where an
    acknowledgement starts, which records it marks and which ones it forgets,
    and the lemmas that the code does exactly that. *)

From S2P Require Import Prelude Picosplay PicoFrames Proto Ack.
From S2P Require Import AckProofs AckLoops AckRepeat.

(** ** The specification *)

(** [y] is where the next record of the object starts after [x]. *)
Definition adjacent (m : gmap akey Z) (g o x y : Z) : Prop :=
  x < y /\ is_Some (m !! (g, o, y)) /\ forall z, x < z < y -> m !! (g, o, z) = None.

(** The records that cover [n] bytes from [x]: each starts where the one
    before it ends, with no other record between the two.  [m] gives the
    length of the records. *)
Inductive chain (m : gmap akey Z) (g o : Z) : Z -> Z -> list akey -> Prop :=
  | chain_done x n : n <= 0 -> chain m g o x n []
  | chain_missing x n : 0 < n -> m !! (g, o, x) = None -> chain m g o x n []
  | chain_last x n l : 0 < n -> m !! (g, o, x) = Some l ->
      n <= l \/ ~ adjacent m g o x (x + l) -> chain m g o x n [(g, o, x)]
  | chain_next x n l ks : l < n -> m !! (g, o, x) = Some l -> adjacent m g o x (x + l) ->
      chain m g o (x + l) (n - l) ks -> chain m g o x n ((g, o, x) :: ks).

Abbreviation records := (gmap akey quicrq_datagram_ack_state_t).

Definition mark (ks : list akey) (m : records) : records :=
  map_imap (fun k d => Some (if decide (k ∈ ks) then da_set_acked d else d)) m.

Definition forget (ks : list akey) (m : records) : records := foldr delete m ks.

(** The record continues the horizon: it starts where the horizon is, or it
    is the first fragment of the next object, or it is a first fragment in
    the next group, that announces as many objects in the group of the
    horizon as there are up to the horizon (the object id is not tested). *)
Definition continues (h : horizon) (d : quicrq_datagram_ack_state_t) : Prop :=
  match h with
  | None =>
      da_group_id d = 0 /\ da_object_offset d = 0 /\ da_nb_objects_previous_group d = 0
  | Some ((hg, ho, hx), last) =>
      (da_group_id d = hg /\ da_object_id d = ho /\ da_object_offset d = hx) \/
      (last = true /\ da_object_offset d = 0 /\
       ((da_group_id d = hg /\ da_object_id d = ho + 1) \/
        (da_group_id d = hg + 1 /\ da_nb_objects_previous_group d = ho + 1)))
  end.

(** The horizon after a record. *)
Definition end_of (d : quicrq_datagram_ack_state_t) : horizon :=
  let e := da_object_offset d + da_length d in
  Some ((da_group_id d, da_object_id d, e), da_object_length d <=? e).

(** The records [ks], all acknowledged, lead from a horizon to another. *)
Inductive leads (m : records) : horizon -> list akey -> horizon -> Prop :=
  | leads_nil h : leads m h [] h
  | leads_cons h k d ks h' : m !! k = Some d -> da_is_acked d = true -> continues h d ->
      leads m (end_of d) ks h' -> leads m h (k :: ks) h'.

Definition least (m : records) (k : akey) : Prop :=
  is_Some (m !! k) /\ forall k', is_Some (m !! k') -> k' = k \/ akey_lt k k'.

(** The records forgotten come before all the others, are acknowledged and
    continue each other from the horizon, and there are as many as possible:
    the first of the others is not acknowledged or does not continue. *)
Record collapses (m : records) (h : horizon) (ks : list akey) (h' : horizon) : Prop := {
  collapses_leads : leads m h ks h';
  collapses_first : forall k k', k ∈ ks -> k' ∉ ks -> is_Some (m !! k') -> akey_lt k k';
  collapses_stops : forall k d, least (forget ks m) k -> m !! k = Some d ->
    ~ (da_is_acked d = true /\ continues h' d);
}.

Lemma leads_weaken m m' h ks h' : (forall k d, m !! k = Some d -> m' !! k = Some d) ->
  leads m h ks h' -> leads m' h ks h'.
Proof. intros Hm Hl. induction Hl; [constructor |]. econstructor; eauto. Qed.

Lemma collapses_nil m h : (forall k d, least m k -> m !! k = Some d ->
  ~ (da_is_acked d = true /\ continues h d)) -> collapses m h [] h.
Proof.
  intros Hs. split; [constructor | | done]. by intros k k' Hk%elem_of_nil.
Qed.

Lemma collapses_cons m h k d ks h' : least m k -> m !! k = Some d -> da_is_acked d = true ->
  continues h d -> collapses (delete k m) (end_of d) ks h' -> collapses m h (k :: ks) h'.
Proof.
  intros Hk Hd Ha Hc [Hl Hf Hs]. split.
  - apply (leads_cons _ _ _ d); [done | done | done |].
    eapply leads_weaken; [| exact Hl]. intros x y [_ ?]%lookup_delete_Some. done.
  - intros x y [-> | Hx]%elem_of_cons [Hyk Hy]%not_elem_of_cons Hsome.
    + by destruct (proj2 Hk y Hsome) as [-> | ?].
    + apply (Hf x y Hx Hy). by rewrite lookup_delete_ne.
  - intros x y Hx Hy. assert (x <> k) as Hne.
    { intros ->. destruct Hx as [[z Hz] _]. cbn in Hz. by rewrite lookup_delete_eq in Hz. }
    apply (Hs x y); [| by rewrite lookup_delete_ne]. unfold forget in *. cbn [foldr] in Hx.
    by rewrite <- delete_foldr_delete.
Qed.

Section exact.
Context `{Sp : Splay akey quicrq_datagram_ack_node_compare} {SL : SplayLaws Sp}.
Context {Al : Allocator} {PF : PicoFrames} {PQ : PicoQueue}.
Implicit Types (c : quicrq_datagram_ack_ctx_t) (k : akey) (d : quicrq_datagram_ack_state_t).

(** The records but for the queue of extra repeats. *)
Definition records_of c : records := core <$> ak_states c.

Lemma marked_lens c c' ks : marked c c' ks -> lens c' = lens c.
Proof.
  intros Hm. unfold lens. apply map_eq. intros k. rewrite !lookup_fmap.
  destruct (ak_states c !! k) as [d |] eqn:Hd.
  - destruct (marked_lookup _ _ _ _ _ Hm Hd) as (d' & -> & _ & Hl & _). cbn. by rewrite Hl.
  - destruct (decide (k ∈ ks)) as [Hk | Hk].
    + destruct (marked_sub _ _ _ Hm k Hk). congruence.
    + by rewrite (marked_out _ _ _ Hm k Hk), Hd.
Qed.

Lemma marked_records c c' ks : marked c c' ks -> records_of c' = mark ks (records_of c).
Proof.
  intros Hm. unfold records_of, mark. apply map_eq. intros k. rewrite map_lookup_imap, !lookup_fmap.
  destruct (decide (k ∈ ks)) as [Hk | Hk].
  - destruct (marked_sub _ _ _ Hm k Hk) as [d Hd]. by rewrite (marked_in _ _ _ Hm k d Hk Hd), Hd.
  - rewrite (marked_out _ _ _ Hm k Hk). by destruct (ak_states c !! k).
Qed.

(** ** Marking *)

Lemma splay_next_least c k n m : tree_ok c -> k ∈ splay_nodes (ak_tree c) ->
  splay_next (ak_tree c) k = Some n -> m ∈ splay_nodes (ak_tree c) -> akey_lt k m ->
  m = n \/ akey_lt n m.
Proof.
  intros Hc Hk Hn Hm Hlt. destruct (tree_wf c Hc) as [Hok Hs].
  pose proof (splay_wf_nodup akey_ok _ (tree_wf c Hc)) as Hnd.
  apply list_elem_of_split in Hk as (l1 & l2 & E).
  rewrite (splay_next_eq _ k l1 l2 E Hnd) in Hn. destruct l2 as [| y l2]; [done |].
  injection Hn as ->. rewrite E in Hok, Hs, Hm. rewrite Forall_forall in Hok.
  assert (forall x y, x ∈ l1 ++ k :: n :: l2 -> y ∈ l1 ++ k :: n :: l2 ->
    quicrq_datagram_ack_node_compare x y < 0 -> akey_lt x y) as Hcmp.
  { intros x y Hx Hy. apply ack_compare_lt; by apply Hok. }
  apply StronglySorted_app in Hs as (Hx & _ & [Hf [Hg _]%StronglySorted_cons]%StronglySorted_cons).
  assert (m ∈ l1 \/ m = k \/ m = n \/ m ∈ l2) as [H | [-> | [-> | H]]].
  { rewrite elem_of_app, !elem_of_cons in Hm. tauto. }
  - destruct (akey_lt_irrefl m). eapply akey_lt_trans; [| exact Hlt].
    apply Hcmp; [rewrite elem_of_app; by left | rewrite elem_of_app; right; by left |].
    apply (Hx m k H). by left.
  - by destruct (akey_lt_irrefl k).
  - by left.
  - right. rewrite Forall_forall in Hg.
    apply Hcmp; [rewrite elem_of_app, !elem_of_cons; tauto | by rewrite elem_of_app, !elem_of_cons; tauto |].
    by apply Hg.
Qed.

(** The next record continues the range when it is adjacent. *)
Lemma next_adjacent c g o x y nk : tree_ok c -> is_Some (ak_states c !! (g, o, x)) -> x < y ->
  splay_next (ak_tree c) (g, o, x) = Some nk ->
  adjacent (lens c) g o x y <-> nk = (g, o, y).
Proof.
  intros Hc Hx Hxy Hn. assert (forall k, is_Some (lens c !! k) <-> k ∈ splay_nodes (ak_tree c)) as Hin.
  { intros k. rewrite (tree_elem c Hc). unfold lens. by rewrite lookup_fmap, fmap_is_Some. }
  apply (tree_elem c Hc) in Hx. destruct (splay_next_lt c _ _ Hc Hx Hn) as [Hnin Hlt].
  pose proof (fun m => splay_next_least c (g, o, x) nk m Hc Hx Hn) as Hleast. split.
  - intros (_ & Hy & Hbetween). destruct (Hleast (g, o, y)) as [? | H]; [by apply Hin | cbn; lia | done |].
    exfalso. destruct nk as [[ng no] nx]. cbn in Hlt, H.
    assert (ng = g /\ no = o /\ x < nx < y) as (-> & -> & Hz) by lia.
    apply Hin in Hnin. rewrite (Hbetween nx Hz) in Hnin. by destruct Hnin.
  - intros ->. split_and!; [done | by apply Hin |]. intros z Hz. apply eq_None_not_Some.
    intros Hs%Hin. destruct (Hleast (g, o, z) Hs) as [[=] | H]; cbn in *; lia.
Qed.

Lemma ack_loop_chain fuel c g o x n c' :
  tree_ok c -> is_Some (ak_states c !! (g, o, x)) -> 0 <= x -> x + n < two62 ->
  ack_loop fuel c g o (g, o, x) n x = Some c' ->
  exists ks, marked c c' ks /\ chain (lens c) g o x n ks.
Proof.
  revert c x n. induction fuel as [| fuel IH]; intros c x n Hc [d Hd] Hx Hn; [done |].
  cbn [ack_loop]. destruct (Z.ltb_spec 0 n); cycle 1.
  { intros [= <-]. exists []. split; [apply marked_nil | by constructor]. }
  rewrite Hd. cbn [mbind option_bind].
  pose proof (tree_key c Hc _ _ Hd) as [Hk Hdok]. unfold das_ok in Hdok.
  apply da_key_inv in Hk as (Hkg & Hko & Hkx).
  assert (lens c !! (g, o, x) = Some (da_length d)) as Hl by (apply lens_lookup; eauto).
  set (c1 := ak_put c (g, o, x) (da_set_acked d)).
  assert (marked c c1 [(g, o, x)]) as M1 by by apply marked_one.
  assert (tree_ok c1) as Hc1.
  { eapply tree_ok_put; [done | done | | by apply (tree_key c Hc) in Hd]. unfold da_key. cbn. congruence. }
  rewrite s64_small by u64_lia. rewrite (u64_small (x + da_length d)) by u64_lia.
  assert (n <= da_length d \/ ~ adjacent (lens c) g o x (x + da_length d) ->
    Some c1 = Some c' -> exists ks, marked c c' ks /\ chain (lens c) g o x n ks) as Hlast.
  { intros Hwhy [= <-]. exists [(g, o, x)]. split; [done |]. by apply (chain_last _ _ _ _ _ (da_length d)). }
  destruct (Z.ltb_spec 0 (n - da_length d)); [| apply Hlast; lia].
  change (ak_tree c1) with (ak_tree c).
  destruct (splay_next (ak_tree c) (g, o, x)) as [next |] eqn:En; cbn [mbind option_bind]; [| done].
  destruct (ak_states c1 !! next) as [nd |] eqn:End; cbn [mbind option_bind]; [| done].
  pose proof (tree_key c1 Hc1 _ _ End) as [Hnk _].
  assert (x < x + da_length d -> adjacent (lens c) g o x (x + da_length d) <->
    next = (g, o, x + da_length d)) as Hadj.
  { intros Hlt. apply next_adjacent; [done | by eexists | done | done]. }
  destruct (negb _ || negb _ || negb _) eqn:Eb.
  { apply Hlast. right. intros Ha. pose proof Ha as (Hlt & _). apply (Hadj Hlt) in Ha as ->.
    apply da_key_inv in Hnk as (E1 & E2 & E3). by rewrite E1, E2, E3, !Z.eqb_refl in Eb. }
  apply orb_false_iff in Eb as [[E1 E2]%orb_false_iff E3].
  apply negb_false_iff, Z.eqb_eq in E1, E2, E3.
  assert (next = (g, o, x + da_length d)) as -> by (rewrite <- Hnk; unfold da_key; congruence).
  assert (x < x + da_length d) as Hlt.
  { apply (splay_next_lt c) in En as [_ En]; [cbn in En; lia | done |].
    apply (tree_elem c Hc). by eexists. }
  intros Hrec. apply IH in Hrec as (ks & M2 & Hch); [| done | by eexists | lia | lia].
  exists ((g, o, x) :: ks). split; [by apply (marked_app _ _ _ [(g, o, x)] ks M1) |].
  rewrite (marked_lens _ _ _ M1) in Hch.
  apply (chain_next _ _ _ _ _ (da_length d)); [lia | done | by apply Hadj | done].
Qed.

(** ** Forgetting *)

Lemma just_after_continues c d : tree_ok c -> das_ok d ->
  just_after c d = true <-> continues (horizon_of c) d.
Proof.
  intros Hc Hd. unfold das_ok, props_ok, is_id in Hd. unfold just_after.
  destruct (tree_horizon c Hc) as [Hu | Hs].
  - rewrite (horizon_of_unset _ Hu). destruct Hu as (-> & -> & -> & ->). cbn [continues].
    change (u64 (UINT64_MAX + 1)) with 0.
    destruct (Z.eqb_spec (da_group_id d) UINT64_MAX); [u64_lia |].
    rewrite !andb_true_iff, !Z.eqb_eq. tauto.
  - rewrite (horizon_of_set _ Hs). unfold hz_key. cbn [continues].
    unfold horizon_set, is_id in Hs. rewrite !(u64_small (_ + 1)) by u64_lia.
    destruct (Z.eqb_spec (da_group_id d) (ak_horizon_group_id c)) as [-> |]; cycle 1.
    { rewrite !andb_true_iff, !Z.eqb_eq.
      split; [tauto | intros [? | (? & ? & [? | ?])]; [lia | lia | tauto]]. }
    destruct (Z.eqb_spec (da_object_id d) (ak_horizon_object_id c)) as [-> |].
    { rewrite Z.eqb_eq. lia. }
    destruct (ak_horizon_is_last_fragment c); [| lia].
    rewrite andb_true_iff, !Z.eqb_eq.
    enough (u64 (da_object_id d - ak_horizon_object_id c) = 1 <->
      da_object_id d = ak_horizon_object_id c + 1) as -> by lia.
    unfold u64. destruct (Z_lt_le_dec (da_object_id d) (ak_horizon_object_id c)).
    + replace (da_object_id d - ak_horizon_object_id c)
        with (da_object_id d - ak_horizon_object_id c + two64 + (-1) * two64) by lia.
      rewrite Z.mod_add, Z.mod_small by u64_lia. u64_lia.
    + rewrite Z.mod_small by u64_lia. lia.
Qed.

Lemma continues_core h d : continues h (core d) <-> continues h d.
Proof. done. Qed.

(** The first node of the tree is the least record. *)
Lemma first_least c k : tree_ok c ->
  splay_first (ak_tree c) = Some k <-> least (records_of c) k.
Proof.
  intros Hc. assert (forall x, is_Some (records_of c !! x) <-> x ∈ splay_nodes (ak_tree c)) as Hin.
  { intros x. rewrite (tree_elem c Hc). unfold records_of. by rewrite lookup_fmap, fmap_is_Some. }
  assert (forall y, splay_first (ak_tree c) = Some y -> least (records_of c) y) as Hfirst.
  { intros y Hy. pose proof (splay_first_elem _ _ Hy) as Hy'. split; [by apply Hin |].
    intros x Hx%Hin. destruct (tree_wf c Hc) as [Hok Hs]. rewrite Forall_forall in Hok.
    pose proof (Hok y Hy') as Hyk. pose proof (Hok x Hx) as Hxk.
    apply splay_first_cons in Hy as [l El]. rewrite El in Hs, Hx.
    apply elem_of_cons in Hx as [-> | Hx]; [by left | right].
    apply StronglySorted_cons in Hs as [Hf _]. rewrite Forall_forall in Hf.
    apply ack_compare_lt; [done | done |]. by apply Hf. }
  split; [apply Hfirst |]. intros [Hk Hl].
  destruct (splay_first (ak_tree c)) as [y |] eqn:Ey.
  - destruct (Hfirst y eq_refl) as [Hy Hl']. destruct (Hl y Hy) as [-> | H1]; [done |].
    destruct (Hl' k Hk) as [-> | H2]; [done |]. destruct (akey_lt_irrefl k).
    by eapply akey_lt_trans.
  - rewrite splay_first_eq in Ey. apply Hin in Hk. destruct (splay_nodes (ak_tree c)); [| done].
    by apply elem_of_nil in Hk.
Qed.

(** What the loop that moves the horizon does. *)
Record moved c c' (ks : list akey) : Prop := {
  moved_ok : ack_ok c';
  moved_queued : ak_queued c' = ak_queued c;
  moved_records : records_of c' = forget ks (records_of c);
  moved_horizon : collapses (records_of c) (horizon_of c) ks (horizon_of c');
}.

Lemma moved_nil c : ack_ok c ->
  (forall k d, splay_first (ak_tree c) = Some k -> ak_states c !! k = Some d ->
     da_is_acked d = true -> just_after c d = true -> False) -> moved c c [].
Proof.
  intros Hok Hs. split; [done | done | done |]. apply collapses_nil. intros k d Hk Hd [Ha Hc].
  apply (first_least c k (proj1 Hok)) in Hk. unfold records_of in Hd. rewrite lookup_fmap in Hd.
  destruct (ak_states c !! k) as [d0 |] eqn:Hd0; [| done]. injection Hd as <-.
  apply (Hs k d0); [done | done | done |]. apply just_after_continues; [apply Hok | | done].
  by apply (tree_key c (proj1 Hok) k).
Qed.

Lemma horizon_loop_exact fuel c :
  ack_ok c -> (length (splay_nodes (ak_tree c)) < fuel)%nat ->
  exists c' ks, horizon_loop fuel c (splay_first (ak_tree c)) = Some c' /\ moved c c' ks.
Proof.
  revert c. induction fuel as [| fuel IH]; intros c Hok Hf; [lia |]. cbn [horizon_loop].
  destruct (splay_first (ak_tree c)) as [k |] eqn:Ek; cycle 1.
  { exists c, []. split; [done |]. apply moved_nil; [done |]. by rewrite Ek. }
  pose proof (splay_first_elem _ _ Ek) as Hin.
  pose proof Hin as [d Hd]%(tree_elem c (proj1 Hok)). rewrite Hd. cbn [mbind option_bind].
  destruct (da_is_acked d) eqn:Eack; cbn [negb]; cycle 1.
  { exists c, []. split; [done |]. apply moved_nil; [done |]. rewrite Ek. intros. simplify_eq. congruence. }
  destruct (just_after c d) eqn:Ej; cbn [negb]; cycle 1.
  { exists c, []. split; [done |]. apply moved_nil; [done |]. rewrite Ek. intros. simplify_eq. congruence. }
  destruct (tree_key c (proj1 Hok) k d Hd) as [Hkey Hdok].
  assert (u64 (da_object_offset d + da_length d) = da_object_offset d + da_length d) as ->
    by (unfold das_ok in Hdok; apply u64_small; u64_lia).
  set (c1 := ak_set_horizon c _ _ _ _).
  assert (horizon_set c1) as Hs1 by (unfold horizon_set, das_ok, is_id in *; cbn; lia).
  assert (ack_ok c1) as Hok1.
  { destruct Hok as [[Hwf Hel Hkeys _ Hm] [Hnd Hex Hlong]]. split; split; try done. by right. }
  destruct (ack_node_delete_spec c1 k d Hok1 Hd) as (c2 & E2 & Hok2 & Hh2 & Hst2 & Ht2).
  rewrite E2. cbn [mbind option_bind]. change (ak_tree c1) with (ak_tree c) in *.
  pose proof (splay_wf_nodup akey_ok _ (tree_wf c (proj1 Hok))) as Hnodup.
  apply (first_least c k (proj1 Hok)) in Ek as Hleast.
  assert (splay_next (ak_tree c) k = splay_first (ak_tree c2)) as ->.
  { apply splay_first_cons in Ek as [l El].
    rewrite (splay_next_eq _ k [] l El Hnodup), Ht2, splay_first_eq.
    by rewrite (splay_nodes_delete _ k [] l El Hnodup). }
  destruct (IH c2 Hok2) as (c' & ks & E' & [Hok' Hq Hr Hm]).
  { rewrite Ht2. pose proof (splay_delete_length (ak_tree c) k Hnodup Hin). lia. }
  exists c', (k :: ks). split; [done |].
  change (records_of c2 = delete k (records_of c)) in Hst2. rewrite Hst2 in Hr, Hm.
  rewrite (same_horizon_of _ _ Hh2), (horizon_of_set c1 Hs1) in Hm. split.
  - done.
  - rewrite Hq. apply (sh_queued _ _ Hh2).
  - rewrite Hr. unfold forget. cbn [foldr]. by rewrite delete_foldr_delete.
  - apply (collapses_cons _ _ _ (core d)); [done | | done | | exact Hm].
    + unfold records_of. by rewrite lookup_fmap, Hd.
    + by apply continues_core, just_after_continues; [apply Hok | |].
Qed.

(** ** The whole processing *)

Lemma start_bounds c g o off : tree_ok c -> 0 <= off < two62 ->
  0 <= start (horizon_of c) g o off < two62.
Proof.
  intros Hc Hoff. destruct (tree_horizon c Hc) as [Hu | Hs].
  - by rewrite (horizon_of_unset _ Hu).
  - rewrite (horizon_of_set _ Hs). unfold hz_key. cbn [start].
    destruct (_ && _); [| done]. unfold horizon_set in Hs. lia.
Qed.

Lemma ack_range_chain c g o x n c1 :
  ack_ok c -> is_id g -> is_id o -> 0 <= x < two62 -> x + n < two62 ->
  match quicrq_datagram_ack_find c g o x with
  | Some found => ack_loop (ack_fuel c) c g o found n x
  | None => Some c
  end = Some c1 ->
  exists ks, marked c c1 ks /\ chain (lens c) g o x n ks.
Proof.
  intros [Hc _] Hg Ho Hx Hn.
  assert (akey_ok (g, o, x)) as Hkey by (unfold akey_ok, is_key, is_id in *; u64_lia).
  destruct (quicrq_datagram_ack_find c g o x) as [k |] eqn:Ef.
  - apply tree_find_some in Ef as (-> & d & Hd); [| done | done].
    apply ack_loop_chain; [done | by eexists | lia | done].
  - apply tree_find_none in Ef; [| done | done]. intros [= <-]. exists []. split; [apply marked_nil |].
    destruct (Z_lt_le_dec 0 n); [| by constructor]. constructor; [done |].
    unfold lens. by rewrite lookup_fmap, Ef.
Qed.

(** The effect of an acknowledgement on the records and the horizon. *)
Definition acknowledged c (g o off n : Z) c' : Prop :=
  let h := horizon_of c in
  let x := start h g o off in
  if below h g o (off + n) then ak_states c' = ak_states c /\ horizon_of c' = h
  else
    exists marked_keys gone,
      let m := mark marked_keys (records_of c) in
      chain (lens c) g o x (off + n - x) marked_keys /\
      (if reaches h g o off then collapses m h gone (horizon_of c')
       else gone = [] /\ horizon_of c' = h) /\
      records_of c' = forget gone m.

Lemma handle_ack_acknowledged c g o off n c' :
  ack_ok c -> is_id g -> is_id o -> 0 <= off -> 0 <= n -> off + n < two62 ->
  quicrq_datagram_handle_ack c g o off n = Some c' ->
  ack_ok c' /\ ak_queued c' = ak_queued c /\ acknowledged c g o off n c'.
Proof.
  intros Hok Hg Ho Hoff Hn Hend.
  rewrite (handle_ack_branches c g o off n); [| apply Hok | done..]. unfold acknowledged. cbv zeta.
  destruct (below _ _ _ _).
  { intros [= <-]. split_and!; try done. by destruct Hok as [[] []]. }
  set (x := start _ _ _ _). pose proof (start_bounds c g o off (proj1 Hok) ltac:(lia)) as Hx. fold x in Hx.
  destruct (match quicrq_datagram_ack_find c g o x with Some _ => _ | None => _ end) as [c1 |] eqn:E1;
    cbn [mbind option_bind]; [| done].
  apply ack_range_chain in E1 as (ks & Hm & Hch); [| done | done | done | done | lia].
  pose proof (marked_ok _ _ _ Hm Hok) as Hok1. pose proof (marked_horizon _ _ _ Hm) as Hh.
  rewrite <- (same_horizon_of _ _ Hh).
  destruct (reaches _ _ _ _).
  - destruct (horizon_loop_exact (ack_fuel c1) c1 Hok1) as (c2 & gone & -> & [? ? ? ?]);
      [unfold ack_fuel; lia |].
    intros [= <-]. split_and!; [done | |].
    + etrans; [done |]. apply (sh_queued _ _ Hh).
    + exists ks, gone. rewrite <- (marked_records _ _ _ Hm). split_and!; done.
  - intros [= <-]. split_and!; [done | apply (sh_queued _ _ Hh) |].
    exists ks, []. rewrite <- (marked_records _ _ _ Hm). split_and!; done.
Qed.
End exact.
