(* ===== verification/AckHistory.v ===== *)
(** * Histories of a datagram stream

    A transition system over the acknowledgement state: fragments are sent,
    datagrams are acknowledged or lost in any order, copies are sent after a
    delay.  Its invariant says that the records left by the splits can always
    be followed from the start of a datagram to its end, so that no
    acknowledgement reads a record that does not exist. *)

From S2P Require Import Prelude Picosplay PicoFrames Proto Ack AckProofs AckLoops AckRepeat.

Section history.
Context `{Sp : Splay akey quicrq_datagram_ack_node_compare} {SL : SplayLaws Sp}.
Context {Al : Allocator} {PF : PicoFrames} {FL : FramesLaws PF}.
Context {PQ : PicoQueue} {PL : PicoQueueLaws PQ}.
Implicit Types (c : quicrq_datagram_ack_ctx_t) (k : akey) (d : quicrq_datagram_ack_state_t).

(** A datagram sent: its position and the bytes of data it carries. *)
Abbreviation sent_t := (list (akey * Z)).
Implicit Types (sent : sent_t).

(** The position and length of the data of a datagram. *)
Definition datagram_range (bytes : list Z) : option (akey * Z) :=
  match quicrq_datagram_header_decode bytes with
  | Some ((_, g, o, off, _, _, _, _), data) => Some ((g, o, off), blen data)
  | None => None
  end.

(** The positions where something ends in an object: a record, a datagram. *)
Definition endpoint c sent (g o e : Z) : Prop :=
  (exists x n, lens c !! (g, o, x) = Some n /\ e = x + n) \/
  (exists x n, ((g, o, x), n) ∈ sent /\ e = x + n).

Record history_ok c sent : Prop := {
  ho_ack : ack_ok c;
  ho_sent : forall g o x n, ((g, o, x), n) ∈ sent ->
    is_id g /\ is_id o /\ 0 <= x /\ 0 <= n /\ x + n < two62;
  ho_inside : forall g o x l, lens c !! (g, o, x) = Some l ->
    exists a n, ((g, o, a), n) ∈ sent /\ a <= x /\ x + l <= a + n /\ (0 < n -> 0 < l);
  ho_positive : forall g o x l a n, lens c !! (g, o, x) = Some l ->
    ((g, o, a), n) ∈ sent -> a <= x < a + n -> 0 < l;
  ho_followed : forall g o e a n, endpoint c sent g o e ->
    ((g, o, a), n) ∈ sent -> a < e < a + n ->
    is_Some (lens c !! (g, o, e)) \/ hz_le c (g, o, e);
}.

Lemma history_same c c' sent : history_ok c sent -> ack_ok c' -> lens c' = lens c ->
  (forall k, hz_le c k -> hz_le c' k) -> history_ok c' sent.
Proof.
  intros [Hok Hs Hi Hp Hf] Hok' Hl Hz. split; try done.
  - intros g o x l. rewrite Hl. apply Hi.
  - intros g o x l a n. rewrite Hl. apply Hp.
  - intros g o e a n. unfold endpoint. rewrite Hl. intros He Ha Hr.
    destruct (Hf g o e a n He Ha Hr) as [? | ?]; [by left | right; auto].
Qed.

(** A datagram inside another one, that ends where something already ends or
    where a record starts, may be sent. *)
Lemma history_send_inside c sent g o x n a m : history_ok c sent ->
  ((g, o, a), m) ∈ sent -> a <= x -> 0 <= n -> x + n <= a + m ->
  endpoint c sent g o (x + n) \/ is_Some (lens c !! (g, o, x + n)) ->
  history_ok c (sent ++ [((g, o, x), n)]).
Proof.
  intros [Hok Hs Hi Hp Hf] Ha Hax Hn Hend Hep.
  destruct (Hs _ _ _ _ Ha) as (Hg & Ho & Ha0 & Hm & Hbound).
  assert (forall g' o' a' n', ((g', o', a'), n') ∈ sent ++ [((g, o, x), n)] ->
    exists b l, ((g', o', b), l) ∈ sent /\ b <= a' /\ a' + n' <= b + l /\ 0 <= n' /\ 0 <= a') as Hin.
  { intros g' o' a' n' [Hin | [= -> -> -> ->]%list_elem_of_singleton]%elem_of_app.
    - exists a', n'. destruct (Hs _ _ _ _ Hin) as (_ & _ & ? & ? & _). split_and!; [done | lia..].
    - exists a, m. split_and!; [done | lia..]. }
  split; [done | | | |].
  - intros g' o' x' n' (b & l & Hb & ? & ? & ? & ?)%Hin.
    destruct (Hs _ _ _ _ Hb) as (? & ? & ? & ? & ?). split_and!; [done | done | lia..].
  - intros g' o' x' l (a' & n' & ? & ?)%Hi. exists a', n'. split; [apply elem_of_app; by left | done].
  - intros g' o' x' l a' n' Hl (b & m' & Hb & ? & ? & ? & ?)%Hin Hr.
    apply (Hp _ _ _ _ _ _ Hl Hb). lia.
  - intros g' o' e a' n' He (b & m' & Hb & ? & ? & ? & ?)%Hin Hr.
    assert (endpoint c sent g' o' e \/ is_Some (lens c !! (g', o', e))) as [He' | ?]; [| | by left].
    { destruct He as [Hrec | (x' & l & [Hx | [= -> -> -> ->]%list_elem_of_singleton]%elem_of_app & ->)].
      - left. by left.
      - left. right. by exists x', l.
      - done. }
    apply (Hf _ _ _ _ _ He' Hb). lia.
Qed.

(** The split of a record along a datagram. *)
Lemma history_split c c' sent g o x l n p a m : history_ok c sent -> ack_ok c' ->
  lens c !! (g, o, x) = Some l -> 0 < p < n ->
  ((g, o, a), m) ∈ sent -> a <= x -> x + n <= a + m -> endpoint c sent g o (x + n) ->
  lens c' = <[(g, o, x) := p]> (<[(g, o, x + p) := n - p]> (lens c)) ->
  (forall k, hz_le c k -> hz_le c' k) -> history_ok c' sent.
Proof.
  intros [Hok Hs Hi Hp Hf] Hok' Hrec Hpn Ha Hax Hend Hep Hl Hz.
  assert (forall g' o' x' l', lens c' !! (g', o', x') = Some l' ->
    (g' = g /\ o' = o /\ ((x' = x /\ l' = p) \/ (x' = x + p /\ l' = n - p))) \/
    lens c !! (g', o', x') = Some l') as Hcases.
  { intros g' o' x' l'. rewrite Hl, !lookup_insert_Some.
    intros [[[= <- <- <-] <-] | [_ [[[= <- <- <-] <-] | [_ ?]]]]; [left | left | by right];
      (split_and!; [done | done |]); [by left | by right]. }
  assert (forall k, is_Some (lens c !! k) -> is_Some (lens c' !! k)) as Hmono.
  { intros k Hk. rewrite Hl. apply lookup_insert_is_Some'. right. apply lookup_insert_is_Some'. by right. }
  split; try done.
  - intros g' o' x' l' [(-> & -> & H) | H]%Hcases; [| by apply Hi]. exists a, m. split; [done | lia].
  - intros g' o' x' l' a' n' [(-> & -> & H) | H]%Hcases; [lia | by apply Hp].
  - intros g' o' e a' n' He Hin Hr.
    assert (endpoint c sent g' o' e \/ is_Some (lens c' !! (g', o', e))) as [He' | ?]; [| | by left].
    { destruct He as [(x' & l' & [(-> & -> & [[-> ->] | [-> ->]]) | H]%Hcases & ->) | Hs'].
      - right. rewrite Hl, lookup_insert_ne, lookup_insert_eq by (intros [=]; lia). by eexists.
      - left. replace (x + p + (n - p)) with (x + n) by lia. done.
      - left. left. by exists x', l'.
      - left. by right. }
    destruct (Hf _ _ _ _ _ He' Hin Hr) as [? | ?]; [left | right]; auto.
Qed.

(** A fragment disjoint from those already sent. *)
Definition fresh_range sent (g o x n : Z) : Prop :=
  forall a m, ((g, o, a), m) ∈ sent -> 0 < n /\ 0 < m /\ (x + n <= a \/ a + m <= x).

Lemma history_send_fresh c c' sent g o x n : history_ok c sent -> ack_ok c' ->
  is_id g -> is_id o -> 0 <= x -> 0 <= n -> x + n < two62 -> fresh_range sent g o x n ->
  lens c' = lens c \/ lens c' = <[(g, o, x) := n]> (lens c) ->
  (forall k, hz_le c k -> hz_le c' k) ->
  history_ok c' (sent ++ [((g, o, x), n)]).
Proof.
  intros [Hok Hs Hi Hp Hf] Hok' Hg Ho Hx Hn Hend Hfresh Hl Hz.
  assert (forall k l, lens c' !! k = Some l -> (k = (g, o, x) /\ l = n) \/ lens c !! k = Some l)
    as Hcases.
  { intros k l. destruct Hl as [-> | ->]; [by right |]. rewrite lookup_insert_Some.
    intros [[<- <-] | [_ ?]]; [by left | by right]. }
  assert (forall k, is_Some (lens c !! k) -> is_Some (lens c' !! k)) as Hmono.
  { intros k Hk. destruct Hl as [-> | ->]; [done |]. apply lookup_insert_is_Some'. by right. }
  assert (forall e, endpoint c sent g o e -> exists a m, ((g, o, a), m) ∈ sent /\ a <= e <= a + m) as Hep.
  { intros e [(y & l & Hy & ->) | (y & l & Hy & ->)].
    - destruct (Hi _ _ _ _ Hy) as (a & m & Ha & ?). exists a, m. split; [done |].
      destruct (proj1 (lens_lookup _ _ _) Hy) as (d & Hd & <-).
      apply (tree_key c (proj1 Hok)) in Hd as [_ Hd]. unfold das_ok in Hd. lia.
    - exists y, l. split; [done |]. destruct (Hs _ _ _ _ Hy). lia. }
  split; [done | | | |].
  - intros g' o' x' n' [? | [= -> -> -> ->]%list_elem_of_singleton]%elem_of_app; [by apply Hs | done].
  - intros g' o' x' l [[[= -> -> ->] ->] | H]%Hcases.
    + exists x, n. split; [apply elem_of_snoc; by right | lia].
    + destruct (Hi _ _ _ _ H) as (a & m & ? & ?). exists a, m. split; [apply elem_of_app; by left | done].
  - intros g' o' x' l a m Hl' Hin Hr. apply Hcases in Hl' as [[[= -> -> ->] ->] | H].
    + apply elem_of_app in Hin as [Hin | [= -> ->]%list_elem_of_singleton]; [| lia].
      destruct (Hfresh _ _ Hin); lia.
    + apply elem_of_app in Hin as [Hin | [= -> -> -> ->]%list_elem_of_singleton]; [by apply (Hp _ _ _ _ _ _ H Hin) |].
      destruct (Hi _ _ _ _ H) as (a' & m' & Ha' & ? & ? & ?). destruct (Hfresh _ _ Ha') as (? & ? & ?).
      lia.
  - intros g' o' e a m He Hin Hr.
    apply elem_of_app in Hin as [Hin | [= -> -> -> ->]%list_elem_of_singleton].
    + assert (endpoint c sent g' o' e \/ (g' = g /\ o' = o /\ e = x + n)) as [He' | (-> & -> & ->)].
      { destruct He as [(y & l & [[[= -> -> ->] ->] | H]%Hcases & ->) |
          (y & l & [Hy | [= -> -> -> ->]%list_elem_of_singleton]%elem_of_app & ->)].
        - by right.
        - left. left. by exists y, l.
        - left. right. by exists y, l.
        - by right. }
      * destruct (Hf _ _ _ _ _ He' Hin Hr) as [? | ?]; [left | right]; auto.
      * destruct (Hfresh _ _ Hin) as (? & ? & ?). lia.
    + exfalso. destruct He as [(y & l & [[[= ->] ->] | H]%Hcases & ->) |
          (y & l & [Hy | [= -> ->]%list_elem_of_singleton]%elem_of_app & ->)]; [lia | | | lia].
      * destruct (Hep (y + l)) as (a' & m' & Ha' & ?); [left; by exists y, l |].
        destruct (Hfresh _ _ Ha') as (? & ? & ?). lia.
      * destruct (Hfresh _ _ Hy) as (? & ? & ?). lia.
Qed.

Lemma carries_range mid d delay off piece dg : carries mid d delay off piece dg ->
  datagram_range dg = Some ((da_group_id d, da_object_id d, off), blen piece).
Proof. unfold carries, datagram_range. by intros ->. Qed.

(** What a repeat queues goes to the datagrams sent. *)
Lemma repeat_loop_history fuel qr c k d data n prep now c' ret sent a m :
  malloc_ok sizeof_datagram_ack_state = true -> is_time now ->
  history_ok c sent -> ak_states c !! k = Some d -> 0 <= n ->
  ((da_group_id d, da_object_id d, a), m) ∈ sent ->
  a <= da_object_offset d -> da_object_offset d + n <= a + m ->
  endpoint c sent (da_group_id d) (da_object_id d) (da_object_offset d + n) ->
  repeat_loop fuel qr c k data n prep now = Some (c', ret) ->
  exists news, ak_queued c' = ak_queued c ++ news /\
    history_ok c' (sent ++ omap datagram_range news).
Proof.
  intros Hmalloc Hnow. revert c k d data n sent a m.
  induction fuel as [| fuel IH]; intros c k d data n sent a m Hh Hd Hn Ha Hax Hend Hep; [done |].
  cbn [repeat_loop]. pose proof (ho_ack _ _ Hh) as Hok.
  destruct (ho_sent _ _ Hh _ _ _ _ Ha) as (Hg & Ho & Ha0 & Hm & Hb).
  destruct (tree_key c (proj1 Hok) k d Hd) as [Hkey _].
  assert (lens c !! (da_group_id d, da_object_id d, da_object_offset d) = Some (da_length d)) as Hrec.
  { apply lens_lookup. exists d. split; [| done]. change (ak_states c !! da_key d = Some d).
    by rewrite Hkey. }
  destruct (repeat_turn qr c k data n prep now) as [[[c1 ret1] next] |] eqn:Et; [| done].
  cbn [mbind option_bind].
  apply (repeat_turn_spec qr c k d data n prep now) in Et; [| done | done | done | done | lia].
  destruct Et as [Hn0 Hfl -> | ret1 Hr Hok1 Hsh Hl Hq | dg Hok1 Hsh Hl Hnl Hdg Hc |
    dg p ret1 Hp Hok1 Hsh Hl Hpl Hdg Hc Hwhy |
    dg p k' d' Hp Hok1 Hsh -> Hnone Hd' Hsame Hnz Hl Hpl Hdg Hc].
  - intros [= <- <-]. exists []. rewrite !app_nil_r. done.
  - intros [= <- <-]. exists []. rewrite !app_nil_r. split; [apply (sh_queued _ _ Hsh) |].
    eapply history_same; [exact Hh | done | done |]. intros x. by apply same_horizon_le.
  - intros [= <- <-]. exists [dg]. split; [apply (sh_queued _ _ Hsh) |].
    cbn. rewrite (carries_range _ _ _ _ _ _ Hc). cbn. rewrite blen_ztake by lia.
    eapply (history_send_inside _ _ _ _ _ _ a m); [| done | lia | lia | lia | ].
    + eapply history_same; [exact Hh | done | done |]. intros x. by apply (same_horizon_le _ _ x Hsh).
    + left. unfold endpoint. by rewrite Hl.
  - intros [= <- <-]. exists [dg]. split; [apply (sh_queued _ _ Hsh) |].
    cbn. rewrite (carries_range _ _ _ _ _ _ Hc). cbn. rewrite blen_ztake by lia.
    destruct Hwhy as [[-> Hrec'] | [_ ?]]; [| congruence].
    eapply (history_send_inside _ _ _ _ _ _ a m); [| done | lia | lia | lia | ].
    + eapply history_same; [exact Hh | done | done |]. intros x. by apply (same_horizon_le _ _ x Hsh).
    + right. rewrite Hl. unfold lens. by rewrite lookup_fmap, fmap_is_Some.
  - assert (history_ok c1 sent) as Hh1.
    { eapply (history_split c c1 sent _ _ _ _ n p a m); try done.
      - by rewrite Hl, <- Hkey.
      - intros x. by apply (same_horizon_le _ _ x Hsh). }
    assert (is_Some (lens c1 !! (da_group_id d, da_object_id d, da_object_offset d + p))) as Hs.
    { unfold lens. by rewrite lookup_fmap, Hd'. }
    assert (history_ok c1 (sent ++ [((da_group_id d, da_object_id d, da_object_offset d), p)])) as Hh2.
    { eapply (history_send_inside _ _ _ _ _ _ a m); [done | done | lia | lia | lia |]. by right. }
    destruct (tree_key c1 (proj1 Hok1) _ d' Hd') as [(Eg & Eo & Ex)%da_key_inv _].
    intros Hloop. apply (IH c1 _ d' _ _ (sent ++ [((da_group_id d, da_object_id d, da_object_offset d), p)]) a m)
      in Hloop as (news & Hq & Hfinal); [| done | done | lia | | lia | lia |].
    + exists (dg :: news). split.
      { rewrite Hq, (sh_queued _ _ Hsh). cbn. by rewrite <- (assoc_L (++)). }
      cbn. rewrite (carries_range _ _ _ _ _ _ Hc). cbn. rewrite blen_ztake by lia.
      by rewrite <- (assoc_L (++)) in Hfinal.
    + rewrite Eg, Eo. apply elem_of_app. by left.
    + rewrite Eg, Eo, Ex. replace (da_object_offset d + p + (n - p)) with (da_object_offset d + n) by lia.
      left. exists (da_object_offset d + p), (n - p). split; [| lia].
      rewrite Hl, lookup_insert_ne, lookup_insert_eq; [done |]. rewrite <- Hkey. intros [=]; lia.
Qed.

End history.
