(* ===== verification/AckTheorems.v ===== *)
(** * Correctness of the acknowledgement of datagrams *)

From stdpp Require Import relations.
From S2P Require Import Prelude Picosplay PicoFrames Proto.
From S2P Require Import Ack AckProofs AckLoops AckRepeat AckExact AckHistory.

Section theorems.
Context `{Sp : Splay akey quicrq_datagram_ack_node_compare} {SL : SplayLaws Sp}.
Context {Al : Allocator} {PF : PicoFrames} {FL : FramesLaws PF}.
Context {PQ : PicoQueue} {PL : PicoQueueLaws PQ}.
Implicit Types (c : quicrq_datagram_ack_ctx_t) (k : akey) (d : quicrq_datagram_ack_state_t).

(** ** Histories *)

(** The acknowledgement state and the datagrams sent. *)
Record ack_world := { aw_ctx : quicrq_datagram_ack_ctx_t; aw_sent : list (akey * Z) }.

Inductive ack_step (qr : extra_settings) (is_connected : bool) : ack_world -> ack_world -> Prop :=
  | step_send c sent g o off fl nb data delay olen now c' created :
      is_id g -> is_id o -> 0 <= off -> off + blen data < two62 -> props_ok nb olen delay now ->
      fresh_range sent g o off (blen data) ->
      quicrq_datagram_ack_init qr c g o off fl nb data (blen data) delay olen now =
        Some (c', 0, created) ->
      ack_step qr is_connected {| aw_ctx := c; aw_sent := sent |}
        {| aw_ctx := c'; aw_sent := sent ++ [((g, o, off), blen data)] |}
  | step_not_sent c sent g o off fl nb data delay olen now c' ret created :
      is_id g -> is_id o -> 0 <= off -> off + blen data < two62 -> props_ok nb olen delay now ->
      ret <> 0 ->
      quicrq_datagram_ack_init qr c g o off fl nb data (blen data) delay olen now =
        Some (c', ret, created) ->
      ack_step qr is_connected {| aw_ctx := c; aw_sent := sent |}
        {| aw_ctx := c'; aw_sent := sent |}
  | step_acked c sent g o off n c' :
      ((g, o, off), n) ∈ sent ->
      quicrq_datagram_handle_ack c g o off n = Some c' ->
      ack_step qr is_connected {| aw_ctx := c; aw_sent := sent |}
        {| aw_ctx := c'; aw_sent := sent |}
  | step_lost c sent g o off bytes sent_time now c' ret news :
      ((g, o, off), blen bytes) ∈ sent -> is_time now ->
      quicrq_datagram_handle_lost qr is_connected c g o off sent_time bytes (blen bytes) now =
        Some (c', ret) ->
      ak_queued c' = ak_queued c ++ news ->
      ack_step qr is_connected {| aw_ctx := c; aw_sent := sent |}
        {| aw_ctx := c'; aw_sent := sent ++ omap datagram_range news |}
  | step_extra c sent next_time now c' next_time' news :
      is_time now ->
      extra_repeat_loop (extra_fuel c) qr is_connected c next_time now = Some (c', next_time') ->
      ak_queued c' = ak_queued c ++ news ->
      ack_step qr is_connected {| aw_ctx := c; aw_sent := sent |}
        {| aw_ctx := c'; aw_sent := sent ++ omap datagram_range news |}.

Lemma history_init mid : is_id mid -> history_ok (quicrq_datagram_ack_ctx_init mid) [].
Proof.
  intros Hmid. split.
  - split; split; cbn; try done.
    + apply splay_wf_empty.
    + intros k. rewrite splay_nodes_empty, lookup_empty, elem_of_nil. split; [done | by intros []].
    + by left.
    + constructor.
    + intros k. rewrite elem_of_nil, lookup_empty. split; [done | by intros (? & ? & _)].
  - intros g o x n H. by apply elem_of_nil in H.
  - intros g o x l H. unfold lens in H. cbn in H. by rewrite fmap_empty, lookup_empty in H.
  - intros g o x l a n _ H. by apply elem_of_nil in H.
  - intros g o e a n _ H. by apply elem_of_nil in H.
Qed.

(** Acknowledgements keep the invariant: what they forget is below the
    horizon. *)
Lemma history_ack c c1 c' ks gone sent : history_ok c sent -> marked c c1 ks ->
  forgets c1 c' gone -> history_ok c' sent.
Proof.
  intros Hh Hm Hf. pose proof (marked_lens _ _ _ Hm) as Hl1.
  assert (history_ok c1 sent) as [Hok1 Hs1 Hi1 Hp1 Hf1].
  { eapply history_same; [exact Hh | by apply (marked_ok _ _ _ Hm), Hh | done |].
    intros k. by apply same_horizon_le, (marked_horizon _ _ _ Hm). }
  assert (forall k l, lens c' !! k = Some l -> lens c1 !! k = Some l) as Hsub.
  { intros k l. destruct (decide (k ∈ gone)) as [Hk | Hk].
    - unfold lens. rewrite lookup_fmap. destruct (forgets_in _ _ _ Hf k Hk) as [-> _]. done.
    - pose proof (forgets_out _ _ _ Hf k Hk) as E. unfold lens. rewrite !lookup_fmap.
      destruct (ak_states c' !! k) as [d' |], (ak_states c1 !! k) as [d1 |]; try done.
      apply (inj Some) in E. destruct (core_fields _ _ E) as (_ & Hl & _). cbn. congruence. }
  split; [apply (forgets_ok _ _ _ Hf) | done | | | ].
  - intros g o x l H%Hsub. by apply Hi1.
  - intros g o x l a n H%Hsub. by apply Hp1.
  - intros g o e a n He Hin Hr.
    assert (endpoint c1 sent g o e) as He1.
    { destruct He as [(x & l & H%Hsub & ->) | H]; [left; by exists x, l | by right]. }
    destruct (Hf1 _ _ _ _ _ He1 Hin Hr) as [[l Hl] | Hz]; [| right; by apply (forgets_horizon _ _ _ Hf)].
    destruct (decide ((g, o, e) ∈ gone)) as [Hk | Hk].
    + right. destruct (forgets_in _ _ _ Hf _ Hk) as (_ & d & Hd & _ & Hz & Hzle).
      destruct (tree_key c1 (proj1 Hok1) _ d Hd) as [Hkey Hdok]. split; [done |].
      apply da_key_inv in Hkey as (Eg & Eo & Ee). rewrite Eg, Eo, Ee in Hzle. unfold das_ok in Hdok.
      destruct (Z.eq_dec (da_length d) 0) as [E0 | E0].
      * by rewrite E0, Z.add_0_r in Hzle.
      * left. destruct Hzle as [Hlt | Heq].
        -- eapply akey_lt_trans; [| exact Hlt]. cbn. lia.
        -- rewrite <- Heq. cbn. lia.
    + left. pose proof (forgets_out _ _ _ Hf _ Hk) as E. apply lens_lookup in Hl as (d & Hd & _).
      rewrite Hd in E. unfold lens. rewrite lookup_fmap.
      destruct (ak_states c' !! (g, o, e)); [by eexists | done].
Qed.

Lemma history_put c k d d' sent : history_ok c sent -> ak_states c !! k = Some d ->
  da_key d' = k -> das_ok d' -> da_length d' = da_length d -> da_extra_data d' = da_extra_data d ->
  da_is_extra_queued d' = da_is_extra_queued d -> history_ok (ak_put c k d') sent.
Proof.
  intros Hh Hd Hk Hdok Hl He Hq. pose proof (ho_ack _ _ Hh) as [Ht Hx].
  eapply history_same; [exact Hh | | | done].
  - split; [by eapply tree_ok_put | by eapply extra_ok_put].
  - unfold lens. cbn. rewrite fmap_insert, Hl. apply insert_id. by rewrite lookup_fmap, Hd.
Qed.

Lemma history_keeps c c' sent : history_ok c sent -> ack_ok c' -> keeps c c' -> history_ok c' sent.
Proof.
  intros Hh Hok Hk. eapply history_same; [exact Hh | done | by apply keeps_lens |].
  intros k. by apply same_horizon_le, keeps_same_horizon.
Qed.

(** A repeat of the whole record, or of a datagram sent. *)
Lemma handle_repeat_history qr conn c k d data n prep now c' ret sent a m :
  malloc_ok sizeof_datagram_ack_state = true -> is_time now ->
  history_ok c sent -> ak_states c !! k = Some d -> 0 <= n ->
  ((da_group_id d, da_object_id d, a), m) ∈ sent ->
  a <= da_object_offset d -> da_object_offset d + n <= a + m ->
  endpoint c sent (da_group_id d) (da_object_id d) (da_object_offset d + n) ->
  quicrq_datagram_handle_repeat qr conn c k data n prep now = Some (c', ret) ->
  exists news, ak_queued c' = ak_queued c ++ news /\
    history_ok c' (sent ++ omap datagram_range news).
Proof.
  intros Hmal Hnow Hh Hd Hn Ha Hax Hend Hep. unfold quicrq_datagram_handle_repeat.
  destruct conn; [by eapply repeat_loop_history |].
  intros [= <- <-]. exists []. by rewrite !app_nil_r.
Qed.

Lemma record_range c sent k d : history_ok c sent -> ak_states c !! k = Some d ->
  lens c !! (da_group_id d, da_object_id d, da_object_offset d) = Some (da_length d) /\ das_ok d.
Proof.
  intros Hh Hd. destruct (tree_key c (proj1 (ho_ack _ _ Hh)) k d Hd) as [Hkey Hdok].
  split; [| done]. apply lens_lookup. exists d. split; [| done].
  change (ak_states c !! da_key d = Some d). by rewrite Hkey.
Qed.

Lemma extra_loop_history fuel qr conn c next_time now c' next_time' sent :
  malloc_ok sizeof_datagram_ack_state = true -> is_time now -> history_ok c sent ->
  extra_repeat_loop fuel qr conn c next_time now = Some (c', next_time') ->
  exists news, ak_queued c' = ak_queued c ++ news /\
    history_ok c' (sent ++ omap datagram_range news).
Proof.
  intros Hmal Hnow. revert c next_time sent.
  induction fuel as [| fuel IH]; intros c next_time sent Hh; [done |]. cbn [extra_repeat_loop].
  destruct (ak_extra c) as [| k extra] eqn:Ex.
  { intros [= <- <-]. exists []. by rewrite !app_nil_r. }
  destruct (ak_states c !! k) as [d |] eqn:Hd; cbn [mbind option_bind]; [| done].
  destruct (_ <=? now).
  2: { intros [= <- <-]. exists []. by rewrite !app_nil_r. }
  destruct (da_extra_data d) as [data |]; cbn [mbind option_bind]; [| done].
  destruct (quicrq_datagram_handle_repeat _ _ _ _ _ _ _ _) as [[c1 ret] |] eqn:Er;
    cbn [mbind option_bind]; [| done].
  destruct (record_range _ _ _ _ Hh Hd) as [Hrec Hdok].
  destruct (ho_inside _ _ Hh _ _ _ _ Hrec) as (a & m & Ha & ? & ? & _).
  eapply handle_repeat_history in Er as (news & Hq & Hh1);
    [| done | done | exact Hh | exact Hd | unfold das_ok in Hdok; lia | exact Ha | lia | lia | ].
  2: { left. by eexists _, _. }
  destruct (quicrq_datagram_ack_extra_dequeue c1 k) as [c2 |] eqn:Edq; cbn [mbind option_bind]; [| done].
  assert (exists d1, ak_states c1 !! k = Some d1) as [d1 Hd1].
  { unfold quicrq_datagram_ack_extra_dequeue in Edq. destruct (ak_states c1 !! k); [by eexists | done]. }
  destruct (extra_dequeue_spec c1 k d1 (ho_ack _ _ Hh1) Hd1) as (c2' & E & Hok2 & Hk2 & _).
  rewrite E in Edq. injection Edq as ->.
  intros Hloop. apply IH with (sent := sent ++ omap datagram_range news) in Hloop as (news' & Hq' & Hh').
  - exists (news ++ news'). split.
    + by rewrite Hq', (keeps_queued _ _ Hk2), Hq, (assoc_L (++)).
    + by rewrite omap_app, (assoc_L (++)).
  - by eapply history_keeps.
Qed.

Lemma ack_step_history qr conn w w' :
  malloc_ok sizeof_datagram_ack_state = true -> ack_step qr conn w w' ->
  history_ok (aw_ctx w) (aw_sent w) -> history_ok (aw_ctx w') (aw_sent w').
Proof.
  intros Hmal Hstep Hh. destruct Hstep as
    [c sent g o off fl nb data delay olen now c' created Hg Ho Hoff Hend Hprops Hfresh Hi
    | c sent g o off fl nb data delay olen now c' ret created Hg Ho Hoff Hend Hprops Hret Hi
    | c sent g o off n c' Hin Ha
    | c sent g o off bytes sent_time now c' ret news Hin Hnow Hl Hq
    | c sent next_time now c' next_time' news Hnow He Hq]; cbn [aw_ctx aw_sent] in *.
  - pose proof (blen_nonneg data).
    apply ack_init_spec in Hi; [| apply Hh | done .. ].
    remember 0 as ret eqn:Eret in Hi.
    destruct Hi as [Hb -> | | | Hnb Hnone Hmem Hok' Hsh Ht Hst].
    + eapply history_send_fresh; try done; [| by left]. destruct Hh as [[[] []] _ _ _ _]. done.
    + done.
    + done.
    + eapply history_send_fresh; try done.
      * right. unfold lens. rewrite <- core_length, !map_fmap_compose, Hst, fmap_insert. done.
      * intros k. by apply (same_horizon_le _ _ k Hsh).
  - pose proof (blen_nonneg data).
    apply ack_init_spec in Hi; [| apply Hh | done .. ].
    by destruct Hi as [Hb -> | Hnb Hd -> | Hnb Hnone Hm -> | Hnb Hnone Hm Hok' Hsh Ht Hst].
  - destruct (ho_sent _ _ Hh _ _ _ _ Hin) as (? & ? & ? & ? & ?).
    apply handle_ack_effect in Ha as (c1 & ks & gone & Hm & Hf & _); [| apply Hh | done..].
    by eapply history_ack.
  - destruct (ho_sent _ _ Hh _ _ _ _ Hin) as (Hg & Ho & ? & ? & ?).
    assert (akey_ok (g, o, off)) as Hkey by (by apply (find_akey_ok g o off (blen bytes))).
    unfold quicrq_datagram_handle_lost in Hl.
    assert (forall c'', Some (c, 0) = Some (c'', ret) -> ak_queued c'' = ak_queued c ++ news ->
      history_ok c'' (sent ++ omap datagram_range news)) as Hsame.
    { intros c'' [= <- <-] Hq'. rewrite <- (app_nil_r (ak_queued c)) in Hq' at 1.
      apply (inj (ak_queued c ++.)) in Hq' as <-. by rewrite app_nil_r. }
    destruct (quicrq_datagram_ack_find c g o off) as [k |] eqn:Ef; [| by apply Hsame].
    apply tree_find_some in Ef as (-> & d & Hd); [| apply Hh | done].
    rewrite Hd in Hl. cbn [mbind option_bind] in Hl.
    destruct (negb (da_is_acked d)); [| by apply Hsame].
    destruct (_ || _); [| by apply Hsame].
    destruct (tree_key c (proj1 (ho_ack _ _ Hh)) _ d Hd) as [Hk Hdok].
    pose proof Hk as (Eg & Eo & Ex)%da_key_inv.
    set (d0 := da_set_nack d true) in *. set (c0 := ak_put c _ d0) in *. set (c1 := ak_count c0 _ _ _) in *.
    assert (history_ok c0 sent) as Hh0 by by apply (history_put c _ d).
    assert (history_ok c1 sent) as Hh1 by (destruct Hh0 as [[[] []] ? ? ? ?]; by split; [split; split | ..]).
    eapply (handle_repeat_history _ _ c1 _ d0 _ _ _ _ _ _ sent off (blen bytes)) in Hl
      as (news' & Hq' & Hfinal); [| done | done | done | apply ak_put_lookup | done | | | | ].
    + rewrite Hq in Hq'. apply (inj (ak_queued c ++.)) in Hq' as ->. done.
    + by rewrite <- Eg, <- Eo in Hin.
    + cbn. lia.
    + cbn. lia.
    + right. exists off, (blen bytes). cbn. rewrite Ex. split; [| done]. by rewrite <- Eg, <- Eo in Hin.
  - apply extra_loop_history with (sent := sent) in He as (news' & Hq' & Hfinal); [| done..].
    rewrite Hq in Hq'. apply (inj (ak_queued c ++.)) in Hq' as ->. done.
Qed.

Lemma ack_steps_history qr conn w w' :
  malloc_ok sizeof_datagram_ack_state = true -> rtc (ack_step qr conn) w w' ->
  history_ok (aw_ctx w) (aw_sent w) -> history_ok (aw_ctx w') (aw_sent w').
Proof. intros Hmal Hs. induction Hs; [done |]. intros Hh. eauto using ack_step_history. Qed.

Lemma history_ack_total c sent g o off n : history_ok c sent -> ((g, o, off), n) ∈ sent ->
  is_Some (quicrq_datagram_handle_ack c g o off n).
Proof.
  intros Hh Hin. destruct (ho_sent _ _ Hh _ _ _ _ Hin) as (? & ? & ? & ? & ?).
  apply handle_ack_total; [apply Hh | done.. |]. intros y d Hy Hr.
  assert (lens c !! (g, o, y) = Some (da_length d)) as Hly by (apply lens_lookup; eauto).
  pose proof (ho_positive _ _ Hh _ _ _ _ _ _ Hly Hin Hr) as Hpos. split; [done |]. intros Hlt.
  destruct (ho_followed _ _ Hh g o (y + da_length d) off n) as [[l Hl] | ?]; [| done | lia | | by right].
  { left. by exists y, (da_length d). }
  left. apply lens_lookup in Hl as (d' & -> & _). by eexists.
Qed.

(** ** Repeats *)

(** The pieces of some data, with their offsets. *)
Fixpoint numbered (off : Z) (chunks : list (list Z)) : list (Z * list Z) :=
  match chunks with
  | [] => []
  | chunk :: chunks => (off, chunk) :: numbered (off + blen chunk) chunks
  end.

Lemma carries_same_props mid d d' delay off piece dg : same_props d d' ->
  carries mid d' delay off piece dg -> carries mid d delay off piece dg.
Proof. intros [H1 H2 H3 H4 H5 _ _]. unfold carries. by rewrite H1, H2, H3, H4, H5. Qed.

Lemma repeat_delay_same_props d d' now : same_props d d' -> repeat_delay d' now = repeat_delay d now.
Proof. intros [_ _ _ _ _ H1 H2]. unfold repeat_delay. by rewrite H1, H2. Qed.

Lemma same_props_trans d1 d2 d3 : same_props d1 d2 -> same_props d2 d3 -> same_props d1 d3.
Proof. intros [] []. split; congruence. Qed.

(** The datagrams of a repeat of the fragment [d], from offset [off]. *)
Definition repeat_datagrams mid d now off (chunks : list (list Z)) (dgs : list (list Z)) : Prop :=
  Forall2 (fun '(x, chunk) dg => carries mid d (repeat_delay d now) x chunk dg /\
             blen dg <= PICOQUIC_DATAGRAM_QUEUE_MAX_LENGTH) (numbered off chunks) dgs.

(** The repeat has stopped before a record of the data that follow. *)
Definition stopped_at c d (chunks : list (list Z)) : Prop :=
  0 < blen (concat chunks) /\
  is_Some (ak_states c !! (da_group_id d, da_object_id d, da_object_offset d + blen (concat chunks))).

Lemma repeat_loop_carries fuel qr c k d0 d data prep now :
  malloc_ok sizeof_datagram_ack_state = true ->
  (forall q len dg, picoquic_queue_datagram_frame q len dg = 0) -> is_time now ->
  ack_ok c -> ak_states c !! k = Some d -> same_props d0 d -> da_length d <= blen data ->
  da_object_offset d + blen data < two62 -> ~ hz_lt c k -> (Z.to_nat (blen data) < fuel)%nat ->
  exists c' ret news chunks,
    repeat_loop fuel qr c k data (blen data) prep now = Some (c', ret) /\
    ack_ok c' /\ ak_queued c' = ak_queued c ++ news /\
    repeat_datagrams (ak_media_id c) d0 now (da_object_offset d) chunks news /\
    (exists rest, data = concat chunks ++ rest /\ (ret = 0 -> rest = [])) /\
    (ret = 0 \/ (ret = 1 /\ stopped_at c d chunks)).
Proof.
  intros Hmal Hqueue Hnow. revert c k d data.
  induction fuel as [| fuel IH]; intros c k d data Hok Hd Hsp Hlen Hend Hnz Hf; [lia |].
  cbn [repeat_loop]. pose proof (blen_nonneg data) as Hn.
  destruct (repeat_turn_spec qr c k d data (blen data) prep now) as [Htot Hspec];
    [done | done | done | done | done |].
  destruct Htot as [[[c1 ret1] next] Et]; [done | lia | done |]. rewrite Et. cbn [mbind option_bind].
  apply Hspec in Et. clear Hspec.
  assert (forall x piece dg, carries (ak_media_id c) d (repeat_delay d now) x piece dg ->
    carries (ak_media_id c) d0 (repeat_delay d0 now) x piece dg) as Hcar.
  { intros x piece dg Hc. rewrite <- (repeat_delay_same_props d0 d) by done.
    by eapply carries_same_props. }
  destruct Et as [Hn0 Hfl -> | ret1 Hr Hok1 Hsh Hl Hq | dg Hok1 Hsh Hl Hnl Hdg Hc |
    dg p ret1 Hp Hok1 Hsh Hl Hpl Hdg Hc Hwhy |
    dg p k' d' Hp Hok1 Hsh -> Hnone Hd' Hsame Hnz' Hl Hpl Hdg Hc].
  - exists c, 0, [], []. rewrite (blen_zero_nil _ Hn0), app_nil_r. split_and!; try done.
    + constructor.
    + by exists [].
    + by left.
  - destruct Hq as (len & dg & Hq). by rewrite Hqueue in Hq.
  - exists c1, 0, [dg], [data]. rewrite ztake_all in Hc. split_and!; try done.
    + apply (sh_queued _ _ Hsh).
    + constructor; [| constructor]. split; auto.
    + exists []. cbn. by rewrite !app_nil_r.
    + by left.
  - destruct Hwhy as [[-> Hstop] | [_ ?]]; [| congruence].
    exists c1, 1, [dg], [ztake p data]. split_and!; try done.
    + apply (sh_queued _ _ Hsh).
    + constructor; [| constructor]. split; auto.
    + exists (zdrop p data). cbn. rewrite app_nil_r, ztake_zdrop. done.
    + right. unfold stopped_at. cbn [concat]. rewrite app_nil_r, blen_ztake by lia. by split_and!; [| lia |].
  - assert (blen (zdrop p data) = blen data - p) as Ep by (rewrite blen_zdrop; lia).
    rewrite <- Ep.
    destruct (tree_key c1 (proj1 Hok1) _ d' Hd') as [(Eg & Eo & Ex)%da_key_inv _].
    assert (da_length d' = blen data - p) as El'.
    { assert (lens c1 !! (da_group_id d, da_object_id d, da_object_offset d + p) = Some (da_length d'))
        as H1 by (apply lens_lookup; eauto).
      destruct (tree_key c (proj1 Hok) k d Hd) as [Hkey _].
      rewrite Hl, lookup_insert_ne, lookup_insert_eq in H1; [by injection H1 |].
      rewrite <- Hkey. intros [=]. lia. }
    destruct (IH c1 (da_group_id d, da_object_id d, da_object_offset d + p) d' (zdrop p data))
      as (c' & ret & news & chunks & Hloop & Hok' & Hq & Hdgs & (rest & Hdata & Hrest) & Hret);
      [done | done | by eapply same_props_trans | lia | lia | | lia |].
    { intros Hz. apply Hnz'. by apply (same_horizon_lt _ _ _ Hsh). }
    exists c', ret, (dg :: news), (ztake p data :: chunks). split_and!; try done.
    + rewrite Hq, (sh_queued _ _ Hsh). cbn. by rewrite <- (assoc_L (++)).
    + constructor; [split; auto |]. rewrite blen_ztake by lia. rewrite <- Ex.
      by rewrite (sh_media _ _ Hsh) in Hdgs.
    + exists rest. split; [| done]. cbn. rewrite <- (assoc_L (++)), <- Hdata. by rewrite ztake_zdrop.
    + destruct Hret as [-> | [-> [Hpos Hrec]]]; [by left | right]. split; [done |].
      unfold stopped_at. cbn [concat]. rewrite blen_app, blen_ztake by lia. split; [lia |].
      rewrite Eg, Eo, Ex, <- Z.add_assoc in Hrec. rewrite <- (fmap_is_Some da_length), <- lookup_fmap.
      fold (lens c). rewrite <- (fmap_is_Some da_length), <- lookup_fmap in Hrec. fold (lens c1) in Hrec.
      destruct (tree_key c (proj1 Hok) k d Hd) as [Hkey _].
      rewrite Hl, lookup_insert_ne, lookup_insert_ne in Hrec; [done | intros [=]; lia |].
      rewrite <- Hkey. intros [=]. lia.
Qed.

(** ** The properties *)

(** [C16] Safety: whatever fragments are sent (each new one disjoint from the
    others of its object), acknowledged or lost in any order, with splits and
    extra copies, the acknowledgement of a datagram that was sent never
    follows a missing record, and the state stays well formed. *)
Theorem ack_never_faults qr conn mid w :
  malloc_ok sizeof_datagram_ack_state = true -> is_id mid ->
  rtc (ack_step qr conn) {| aw_ctx := quicrq_datagram_ack_ctx_init mid; aw_sent := [] |} w ->
  ack_ok (aw_ctx w) /\
  forall g o off n, ((g, o, off), n) ∈ aw_sent w ->
    is_Some (quicrq_datagram_handle_ack (aw_ctx w) g o off n).
Proof.
  intros Hmal Hmid Hsteps. apply (ack_steps_history qr conn) in Hsteps as Hh; [| done | by apply history_init].
  split; [apply Hh |]. intros g o off n Hin. by eapply history_ack_total.
Qed.

(** [C26] Exact effect of an acknowledgement, whatever happened before:
    the acknowledgement of a datagram that was sent does not fault and has
    exactly the effect [acknowledged].  When its range ends below the horizon,
    nothing changes.  Otherwise the records that it marks are the chain that
    covers the range from its start, or from the horizon if it starts below:
    each record starts where the one before it ends, and the chain stops early
    where another record starts in between.  If the range starts at the
    horizon, the first records are forgotten as long as they are acknowledged
    and continue the horizon, and the horizon moves to the end of the last
    one.  The other records and the horizon are kept. *)
Theorem handle_ack_exact qr conn mid w g o off n :
  malloc_ok sizeof_datagram_ack_state = true -> is_id mid ->
  rtc (ack_step qr conn) {| aw_ctx := quicrq_datagram_ack_ctx_init mid; aw_sent := [] |} w ->
  ((g, o, off), n) ∈ aw_sent w ->
  exists c', quicrq_datagram_handle_ack (aw_ctx w) g o off n = Some c' /\
    ack_ok c' /\ ak_queued c' = ak_queued (aw_ctx w) /\ acknowledged (aw_ctx w) g o off n c'.
Proof.
  intros Hmal Hmid Hsteps Hin.
  apply (ack_steps_history qr conn) in Hsteps as Hh; [| done | by apply history_init].
  destruct (history_ack_total _ _ _ _ _ _ Hh Hin) as [c' Ha]. exists c'. split; [done |].
  destruct (ho_sent _ _ Hh _ _ _ _ Hin) as (? & ? & ? & ? & ?).
  by apply handle_ack_acknowledged; [apply Hh | ..].
Qed.

(** Registration of a fragment, on every branch: below the horizon
    nothing changes; a fragment already there is reported as a duplicate; a
    new one gets a record with its properties, not acknowledged, and the
    others keep theirs. *)
Theorem ack_init_correct qr c g o off fl nb data delay olen now :
  ack_ok c -> is_id g -> is_id o -> 0 <= off -> off + blen data < two62 ->
  props_ok nb olen delay now ->
  let k := (g, o, off) in
  exists c' ret created,
    quicrq_datagram_ack_init qr c g o off fl nb data (blen data) delay olen now = Some (c', ret, created) /\
    ack_ok c' /\ (forall x, hz_le c' x <-> hz_le c x) /\
    (hz_lt c k -> ret = 0 /\ created = None /\ ak_states c' = ak_states c) /\
    (~ hz_lt c k -> is_Some (ak_states c !! k) -> ret = 1 /\ created = None /\ c' = c) /\
    (~ hz_lt c k -> ak_states c !! k = None -> malloc_ok sizeof_datagram_ack_state = false ->
       ret = -1 /\ created = None /\ c' = c) /\
    (~ hz_lt c k -> ak_states c !! k = None -> malloc_ok sizeof_datagram_ack_state = true ->
       ret = 0 /\ created = Some k /\
       exists d, ak_states c' !! k = Some d /\
         core d = da_new g o off fl nb (blen data) delay olen now /\
         forall x, x <> k -> core <$> ak_states c' !! x = core <$> ak_states c !! x).
Proof.
  intros Hok Hg Ho Hoff Hend Hprops k. subst k. pose proof (blen_nonneg data).
  destruct (ack_init_spec qr c g o off fl nb data (blen data) delay olen now) as [Htot Hspec]; try done.
  destruct Htot as [[[c' ret] created] E]; [done |]. exists c', ret, created. split; [done |].
  apply Hspec in E. clear Hspec.
  destruct E as [Hb -> | Hnb Hs -> | Hnb Hnone Hm -> | Hnb Hnone Hm Hok' Hsh Ht Hst].
  - split_and!; try done. by destruct Hok as [[] []].
  - destruct Hs as [d Hd]. split_and!; try done; intros; congruence.
  - split_and!; try done; [intros _ [d Hd]; congruence | intros; congruence].
  - split_and!; try done; [| intros _ [d Hd]; congruence | intros; congruence |].
    + intros x. by apply same_horizon_le.
    + intros _ _ _. split_and!; try done.
      assert ((core <$> ak_states c') !! (g, o, off) = Some (core (da_new g o off fl nb (blen data) delay olen now)))
        as Hk by (rewrite Hst; apply lookup_insert_eq).
      rewrite lookup_fmap in Hk. destruct (ak_states c' !! (g, o, off)) as [d |]; [| done].
      apply (inj Some) in Hk. exists d. split_and!; [done | done |].
      intros x Hx. by rewrite <- lookup_fmap, Hst, lookup_insert_ne, lookup_fmap.
Qed.

(** The horizon is stuck at the end of a group: the acknowledgement of a
    fragment of a later group never moves it and forgets nothing, even for
    the first fragment of the next group. *)
Theorem horizon_stuck_next_group c g o off n c' :
  ack_ok c -> is_id g -> is_id o -> 0 <= off -> 0 <= n -> off + n < two62 ->
  horizon_set c -> ak_horizon_group_id c < g ->
  quicrq_datagram_handle_ack c g o off n = Some c' ->
  hz_key c' = hz_key c /\
  ak_horizon_is_last_fragment c' = ak_horizon_is_last_fragment c /\
  forall k, is_Some (ak_states c' !! k) <-> is_Some (ak_states c !! k).
Proof.
  intros Hok Hg Ho Hoff Hn Hend Hs Hlt Ha.
  destruct (handle_ack_effect c g o off n c') as (c1 & ks & gone & Hm & Hf & _ & _ & Hgone); try done.
  pose proof (forgets_same _ _ _ Hf (Hgone Hs Hlt)) as Hsh.
  pose proof (same_horizon_trans _ _ _ (marked_horizon _ _ _ Hm) Hsh) as [_ H1 H2 H3 H4 _].
  unfold hz_key. rewrite H1, H2, H3, H4. split_and!; [done | done |]. intros k.
  rewrite (Hgone Hs Hlt) in Hf. pose proof (forgets_out _ _ _ Hf k (not_elem_of_nil k)) as E.
  rewrite <- (fmap_is_Some core), E, fmap_is_Some.
  pose proof (marked_lens _ _ _ Hm) as Hl. rewrite <- (fmap_is_Some da_length), <- lookup_fmap.
  fold (lens c1). rewrite Hl. unfold lens. by rewrite lookup_fmap, fmap_is_Some.
Qed.

(** A datagram without data, such as the placeholder of a skipped
    object, is never acknowledged: its record stays, not acknowledged, and
    every later record with it. *)
Theorem empty_datagram_never_acked c g o off c' k d :
  ack_ok c -> is_id g -> is_id o -> 0 <= off < two62 ->
  quicrq_datagram_handle_ack c g o off 0 = Some c' ->
  ak_states c !! k = Some d -> da_is_acked d = false ->
  exists d', ak_states c' !! k = Some d' /\ da_is_acked d' = false.
Proof.
  intros Hok Hg Ho Hoff Ha Hd Hack.
  destruct (handle_ack_effect c g o off 0 c') as (c1 & ks & gone & Hm & Hf & Hks & _ & _); try done; [lia | lia |].
  assert (k ∉ ks) as Hk by (intros (y & _ & ?)%Hks; lia).
  assert (ak_states c1 !! k = Some d) as Hd1 by (by rewrite (marked_out _ _ _ Hm)).
  assert (k ∉ gone) as Hg'.
  { intros Hin. destruct (forgets_in _ _ _ Hf k Hin) as (_ & d1 & Hd1' & ? & _). congruence. }
  pose proof (forgets_out _ _ _ Hf k Hg') as E. rewrite Hd1 in E.
  destruct (ak_states c' !! k) as [d' |]; [| done]. apply (inj Some) in E.
  destruct (core_fields _ _ E) as (_ & _ & Hack' & _). exists d'. split; [done | congruence].
Qed.

(** [C25] Completeness of a repeat: the data of a lost fragment is queued in
    one or several datagrams, each within the limit of picoquic, that carry
    its identity and properties and consecutive pieces of the data: all of
    it with the result 0; or, with the result 1, a part of it that is not
    empty and stops where a record, created by a previous split, already
    starts. *)
Theorem repeat_carries_all qr c k d data prep now :
  malloc_ok sizeof_datagram_ack_state = true ->
  (forall q len dg, picoquic_queue_datagram_frame q len dg = 0) -> is_time now ->
  ack_ok c -> ak_states c !! k = Some d -> da_length d <= blen data ->
  da_object_offset d + blen data < two62 -> ~ hz_lt c k ->
  exists c' ret news chunks rest,
    quicrq_datagram_handle_repeat qr true c k data (blen data) prep now = Some (c', ret) /\
    ack_ok c' /\ ak_queued c' = ak_queued c ++ news /\
    repeat_datagrams (ak_media_id c) d now (da_object_offset d) chunks news /\
    data = concat chunks ++ rest /\
    ((ret = 0 /\ rest = []) \/ (ret = 1 /\ stopped_at c d chunks)).
Proof.
  intros Hmal Hq Hnow Hok Hd Hlen Hend Hnz.
  destruct (repeat_loop_carries (S (S (Z.to_nat (blen data)))) qr c k d d data prep now)
    as (c' & ret & news & chunks & E & Hok' & Hnews & Hdgs & (rest & Hdata & Hrest) & Hret);
    try done; [lia |].
  exists c', ret, news, chunks, rest. split_and!; try done.
  destruct Hret as [-> | ?]; [left; auto | by right].
Qed.

End theorems.

(** ** A stream with a fragment of 1300 bytes, lost and then split *)

(** The results of a run are evaluated one component at a time: the contexts
    themselves carry the instances, which are not for display. *)
Lemma run3_eq {A B C} (o : option (A * B * C)) d b x :
  (fun r => (r.1.2, r.2)) <$> o = Some (b, x) ->
  o = Some (match o with Some (a, _, _) => a | None => d end, b, x).
Proof. destruct o as [[[a b'] x'] |]; cbn; [| done]. by intros [= <- <-]. Qed.
Lemma run2_eq {A B} (o : option (A * B)) d b :
  (fun r => r.2) <$> o = Some b -> o = Some (match o with Some (a, _) => a | None => d end, b).
Proof. destruct o as [[a b'] |]; cbn; [| done]. by intros [= <-]. Qed.
Lemma run1_eq {A} (o : option A) d :
  (fun _ => tt) <$> o = Some tt -> o = Some (match o with Some a => a | None => d end).
Proof. by destruct o. Qed.
Ltac run := first [apply run3_eq | apply run2_eq | apply run1_eq]; vm_compute; reflexivity.

Module AckDemo.
#[export] Instance malloc_always : Allocator := fun _ => true.
#[export] Instance queue_always : PicoQueue := {|
  PICOQUIC_MAX_PACKET_SIZE := 1536;
  PICOQUIC_DATAGRAM_QUEUE_MAX_LENGTH := 1200;
  picoquic_queue_datagram_frame := fun _ _ _ => 0 |}.
#[export] Instance queue_always_laws : PicoQueueLaws queue_always.
Proof. split; cbn; lia. Qed.

Definition settings : extra_settings := {|
  extra_repeat_on_nack := false; extra_repeat_after_received_delayed := false;
  extra_repeat_delay := 0 |}.
Definition fragment : list Z := repeat 7 1300.
Definition ctx0 : quicrq_datagram_ack_ctx_t := quicrq_datagram_ack_ctx_init 1.
Definition sent_ctx : quicrq_datagram_ack_ctx_t :=
  match quicrq_datagram_ack_init settings ctx0 0 0 0 128 0 fragment 1300 10 1300 1000 with
  | Some (c, _, _) => c | None => ctx0 end.
Definition lost_ctx : quicrq_datagram_ack_ctx_t :=
  match quicrq_datagram_handle_lost settings true sent_ctx 0 0 0 1000 fragment 1300 90000 with
  | Some (c, _) => c | None => ctx0 end.
(** The two datagrams of the split are acknowledged, the second one first. *)
Definition middle_ctx : quicrq_datagram_ack_ctx_t :=
  match quicrq_datagram_handle_ack lost_ctx 0 0 1190 110 with Some c => c | None => ctx0 end.
Definition acked_ctx : quicrq_datagram_ack_ctx_t :=
  match quicrq_datagram_handle_ack middle_ctx 0 0 0 1190 with Some c => c | None => ctx0 end.

Definition world0 : ack_world := {| aw_ctx := ctx0; aw_sent := [] |}.
Definition world1 : ack_world := {| aw_ctx := sent_ctx; aw_sent := [((0, 0, 0), blen fragment)] |}.
Definition world2 : ack_world := {| aw_ctx := lost_ctx;
  aw_sent := [((0, 0, 0), blen fragment)] ++ omap datagram_range (ak_queued lost_ctx) |}.

Example ack_split : aw_sent world2 =
  [((0, 0, 0), 1300); ((0, 0, 0), 1190); ((0, 0, 1190), 110)].
Proof. vm_compute. reflexivity. Qed.

(** The fragment is repeated again later, when the longer delay makes the
    header longer: the pieces differ, so do the records.  The acknowledgement
    of the whole fragment then marks the records at 0 and 1188, moves the
    horizon to the end of the object, and leaves the record at 1190, which
    no acknowledgement will mark as it is now below the horizon. *)
Definition split_again_ctx : quicrq_datagram_ack_ctx_t :=
  match quicrq_datagram_handle_lost settings true lost_ctx 0 0 0 1000 fragment 1300 20000000 with
  | Some (c, _) => c | None => ctx0 end.
Definition all_acked_ctx : quicrq_datagram_ack_ctx_t :=
  match quicrq_datagram_handle_ack split_again_ctx 0 0 0 1300 with Some c => c | None => ctx0 end.
Definition tail_acked_ctx : quicrq_datagram_ack_ctx_t :=
  match quicrq_datagram_handle_ack all_acked_ctx 0 0 1190 110 with Some c => c | None => ctx0 end.
Definition summary (c : quicrq_datagram_ack_ctx_t) :=
  (horizon_of c, omap (fun k => (fun d => (k, da_length d, da_is_acked d)) <$> ak_states c !! k)
                   (splay_nodes (ak_tree c))).
Example different_splits :
  (summary split_again_ctx).2 =
    [((0, 0, 0), 1188, false); ((0, 0, 1188), 112, false); ((0, 0, 1190), 110, false)] /\
  summary all_acked_ctx = (Some ((0, 0, 1300), true), [((0, 0, 1190), 110, false)]) /\
  summary tail_acked_ctx = summary all_acked_ctx.
Proof. vm_compute. repeat split. Qed.

Lemma steps1 : rtc (ack_step settings true) world0 world1.
Proof.
  apply rtc_once. apply (step_send settings true ctx0 [] 0 0 0 128 0 fragment 10 1300 1000 sent_ctx
    (Some (0, 0, 0))); [done | done | lia | vm_compute; reflexivity | unfold props_ok, is_id; u64_lia | |
    run].
  intros a m H. by apply elem_of_nil in H.
Qed.

Lemma steps2 : rtc (ack_step settings true) world0 world2.
Proof.
  eapply rtc_r; [exact steps1 |].
  apply (step_lost settings true sent_ctx [((0, 0, 0), blen fragment)] 0 0 0 fragment 1000 90000 lost_ctx 0
    (ak_queued lost_ctx)); [by left | done | run | done].
Qed.

(** After the acknowledgements, the first fragment of the next group. *)
Definition next_fragment : list Z := [1; 2; 3].
Definition next_ctx : quicrq_datagram_ack_ctx_t :=
  match quicrq_datagram_ack_init settings acked_ctx 1 0 0 128 1 next_fragment 3 10 3 2000 with
  | Some (c, _, _) => c | None => ctx0 end.
Definition next_acked_ctx : quicrq_datagram_ack_ctx_t :=
  match quicrq_datagram_handle_ack next_ctx 1 0 0 3 with Some c => c | None => ctx0 end.
Definition sent3 : list (akey * Z) := aw_sent world2 ++ [((1, 0, 0), blen next_fragment)].

Lemma steps3 : rtc (ack_step settings true) world0 {| aw_ctx := next_ctx; aw_sent := sent3 |}.
Proof.
  eapply rtc_r; [eapply rtc_r; [eapply rtc_r; [exact steps2 |] |] |].
  - apply (step_acked settings true lost_ctx (aw_sent world2) 0 0 1190 110 middle_ctx);
      [rewrite ack_split; right; right; by left | run].
  - apply (step_acked settings true middle_ctx (aw_sent world2) 0 0 0 1190 acked_ctx);
      [rewrite ack_split; right; by left | run].
  - apply (step_send settings true acked_ctx (aw_sent world2) 1 0 0 128 1 next_fragment 10 3 2000
      next_ctx (Some (1, 0, 0))); [done | done | lia | vm_compute; reflexivity | unfold props_ok, is_id; u64_lia | |
      run].
    rewrite ack_split. intros a m H.
    by repeat (apply elem_of_cons in H as [[=] | H]); apply elem_of_nil in H.
Qed.

Lemma next_ok : ack_ok next_ctx.
Proof.
  apply (ack_steps_history settings true _ _ eq_refl steps3). by apply history_init.
Qed.

Lemma lost_ok : ack_ok lost_ctx.
Proof.
  apply (ack_steps_history settings true _ _ eq_refl steps2). by apply history_init.
Qed.
Lemma sent_ok : ack_ok sent_ctx.
Proof.
  apply (ack_steps_history settings true _ _ eq_refl steps1). by apply history_init.
Qed.
(** A skipped object. *)
Definition skipped_ctx : quicrq_datagram_ack_ctx_t :=
  match quicrq_datagram_ack_init settings ctx0 0 0 0 255 0 [] 0 10 0 1000 with
  | Some (c, _, _) => c | None => ctx0 end.
Definition skipped_acked_ctx : quicrq_datagram_ack_ctx_t :=
  match quicrq_datagram_handle_ack skipped_ctx 0 0 0 0 with Some c => c | None => ctx0 end.
Lemma skipped_ok : ack_ok skipped_ctx.
Proof.
  apply (ho_ack _ ([] ++ [((0, 0, 0), blen (@nil Z))])).
  refine (ack_step_history settings true world0 {| aw_ctx := skipped_ctx; aw_sent := _ |} eq_refl _ _);
    [| by apply history_init].
  apply (step_send settings true ctx0 [] 0 0 0 255 0 [] 10 0 1000 skipped_ctx (Some (0, 0, 0)));
    [done | done | lia | vm_compute; reflexivity | unfold props_ok, is_id; u64_lia | | run].
  intros a m H. by apply elem_of_nil in H.
Qed.
Lemma ctx0_ok : ack_ok ctx0.
Proof. by apply (ho_ack _ []), history_init. Qed.
End AckDemo.
Import AckDemo.

Lemma ack_never_faults_witness : is_Some (quicrq_datagram_handle_ack lost_ctx 0 0 0 1300).
Proof.
  apply (ack_never_faults settings true 1 world2 eq_refl); [done | exact steps2 |].
  rewrite ack_split. by left.
Defined.

(** The acknowledgement of the whole fragment, once it is split: the records
    of the two halves are marked and forgotten. *)
Lemma handle_ack_exact_witness :
  (exists c', quicrq_datagram_handle_ack lost_ctx 0 0 0 1300 = Some c' /\
     ack_ok c' /\ acknowledged lost_ctx 0 0 0 1300 c') /\
  (fun c => (horizon_of c, length (splay_nodes (ak_tree c)))) <$>
    quicrq_datagram_handle_ack lost_ctx 0 0 0 1300 = Some (Some ((0, 0, 1300), true), 0%nat).
Proof.
  split; [| vm_compute; reflexivity].
  destruct (handle_ack_exact settings true 1 world2 0 0 0 1300 eq_refl) as (c' & E & Hok & _ & Ha);
    [done | exact steps2 | rewrite ack_split; by left |].
  exists c'. split_and!; [exact E | exact Hok | exact Ha].
Defined.

Lemma ack_init_correct_witness : exists c' ret created,
  quicrq_datagram_ack_init settings ctx0 0 0 0 128 0 fragment 1300 10 1300 1000 = Some (c', ret, created)
  /\ ret = 0 /\ created = Some (0, 0, 0).
Proof.
  destruct (ack_init_correct settings ctx0 0 0 0 128 0 fragment 10 1300 1000)
    as (c' & ret & created & E & _ & _ & _ & _ & _ & Hnew);
    [exact ctx0_ok | done | done | lia | vm_compute; reflexivity | unfold props_ok, is_id; u64_lia |].
  exists c', ret, created. split; [exact E |].
  destruct Hnew as (? & ? & _); [| by vm_compute | done | done].
  intros [[[Hg Hg'] _] _]. vm_compute in Hg'. congruence.
Defined.

(** The first fragment of group 1 is acknowledged and comes just after the
    horizon, which does not move. *)
Lemma horizon_stuck_next_group_witness :
  hz_key next_acked_ctx = (0, 0, 1300) /\
  option_map (fun d => (da_is_acked d, just_after next_acked_ctx d))
    (ak_states next_acked_ctx !! (1, 0, 0)) = Some (true, true).
Proof.
  split; [| vm_compute; reflexivity].
  destruct (horizon_stuck_next_group next_ctx 1 0 0 3 next_acked_ctx) as [-> _];
    [exact next_ok | done | done | lia | lia | u64_lia | | vm_compute; reflexivity | run |
     vm_compute; reflexivity].
  vm_compute. repeat split; discriminate.
Defined.

(** A skipped object: one record without data, acknowledged in vain. *)
Lemma empty_datagram_never_acked_witness :
  exists d, ak_states skipped_acked_ctx !! (0, 0, 0) = Some d /\ da_is_acked d = false.
Proof.
  destruct (ak_states skipped_ctx !! (0, 0, 0)) as [d0 |] eqn:Ed0; [| vm_compute in Ed0; discriminate].
  apply (empty_datagram_never_acked skipped_ctx 0 0 0 skipped_acked_ctx (0, 0, 0) d0);
    [exact skipped_ok | done | done | done | run | exact Ed0 |].
  assert (da_is_acked <$> ak_states skipped_ctx !! (0, 0, 0) = Some false) as H by (vm_compute; reflexivity).
  rewrite Ed0 in H. by injection H.
Defined.

Lemma repeat_carries_all_witness :
  (exists d c' ret news chunks rest,
    ak_states sent_ctx !! (0, 0, 0) = Some d /\
    quicrq_datagram_handle_repeat settings true sent_ctx (0, 0, 0) fragment (blen fragment) false 90000 =
      Some (c', ret) /\ ak_queued c' = ak_queued sent_ctx ++ news /\ fragment = concat chunks ++ rest /\
    ((ret = 0 /\ rest = []) \/ (ret = 1 /\ stopped_at sent_ctx d chunks))) /\
  (fun r => (r.2, map blen (ak_queued r.1))) <$>
    quicrq_datagram_handle_repeat settings true sent_ctx (0, 0, 0) fragment (blen fragment) false 90000 =
    Some (0, [1200; 120]).
Proof.
  split; [| vm_compute; reflexivity].
  destruct (ak_states sent_ctx !! (0, 0, 0)) as [d0 |] eqn:Ed0; [| vm_compute in Ed0; discriminate].
  assert ((fun d => (da_length d, da_object_offset d)) <$> ak_states sent_ctx !! (0, 0, 0) =
    Some (1300, 0)) as H by (vm_compute; reflexivity).
  rewrite Ed0 in H. injection H as Hlen Hoff.
  destruct (repeat_carries_all settings sent_ctx (0, 0, 0) d0 fragment false 90000)
    as (c' & ret & news & chunks & rest & E & _ & Hq & _ & Hdata & Hret);
    [done | done | done | exact sent_ok | exact Ed0 | by rewrite Hlen | by rewrite Hoff | |].
  { intros [[[Hg Hg'] _] _]. vm_compute in Hg'. congruence. }
  exists d0, c', ret, news, chunks, rest. split; [reflexivity |]. split; [exact E |]. split; [exact Hq |].
  split; [exact Hdata | exact Hret].
Defined.
