(* ===== verification/AckContents.v ===== *)
(** * The bytes that the repeats of datagrams carry

    The records of the datagrams of a media keep the properties of its objects,
    and the copies waiting to be repeated keep their bytes: whatever is queued
    by a loss or by the timer carries bytes of the media, inside the range of
    the record that is repeated. *)

From S2P Require Import Prelude Picosplay PicoFrames Media Proto.
From S2P Require Import Ack AckProofs AckLoops AckRepeat AckHistory AckTheorems.

(** The fragment that a datagram of a media carries. *)
Definition datagram_fragment {PF : PicoFrames} (mid : Z) (bytes : list Z) : option fragment :=
  match quicrq_datagram_header_decode bytes with
  | Some ((media_id, g, o, off, delay, fl, nb, olen), data) =>
      if media_id =? mid then
        Some {| f_time := 0; f_data := data; f_group := g; f_object := o; f_offset := off;
                f_delay := delay; f_flags := fl; f_nb_previous := nb; f_object_length := olen;
                f_data_length := blen data |}
      else None
  | None => None
  end.

(** It carries bytes of the media. *)
Definition genuine_datagram {PF : PicoFrames} (md : media) (mid : Z) (bytes : list Z) : Prop :=
  exists f, datagram_fragment mid bytes = Some f /\ consistent md f.

Lemma datagram_fragment_decode {PF : PicoFrames} mid bytes f : datagram_fragment mid bytes = Some f ->
  quicrq_datagram_header_decode bytes =
    Some ((mid, f_group f, f_object f, f_offset f, f_delay f, f_flags f, f_nb_previous f,
           f_object_length f), f_data f) /\ f_data_length f = blen (f_data f).
Proof.
  unfold datagram_fragment.
  destruct (quicrq_datagram_header_decode bytes) as [[[[[[[[[mid' g] o] off] delay] fl] nb] olen] data] |]; [| done].
  destruct (Z.eqb_spec mid' mid) as [-> |]; [| done]. by intros [= <-].
Qed.

Lemma datagram_fragment_range {PF : PicoFrames} mid bytes f : datagram_fragment mid bytes = Some f ->
  datagram_range bytes = Some ((f_group f, f_object f, f_offset f), f_data_length f).
Proof.
  unfold datagram_fragment, datagram_range.
  destruct (quicrq_datagram_header_decode bytes) as [[[[[[[[[mid' g] o] off] delay] fl] nb] olen] data] |]; [| done].
  destruct (mid' =? mid); [| done]. by intros [= <-].
Qed.

Section contents.
Context `{Sp : Splay akey quicrq_datagram_ack_node_compare} {SL : SplayLaws Sp}.
Context {Al : Allocator} {PF : PicoFrames} {FL : FramesLaws PF}.
Context {PQ : PicoQueue} {PL : PicoQueueLaws PQ}.
Context (md : media).
Implicit Types (c : quicrq_datagram_ack_ctx_t) (k : akey) (d : quicrq_datagram_ack_state_t).

(** Data that starts at the offset of a record. *)
Definition data_of d (data : list Z) : Prop :=
  let object := content md (da_group_id d, da_object_id d) in
  da_object_offset d + blen data <= blen object /\ data = slice object (da_object_offset d) (blen data).

Record record_ok k d : Prop := {
  rc_key : da_key d = k;
  rc_media : media_key md (da_group_id d, da_object_id d);
  rc_length : da_object_length d = blen (content md (da_group_id d, da_object_id d));
  rc_offset : 0 <= da_object_offset d;
  rc_previous : 0 < da_group_id d -> da_object_id d = 0 -> da_object_offset d = 0 ->
    da_nb_objects_previous_group d = count md (da_group_id d - 1);
  rc_extra : forall data, da_extra_data d = Some data -> data_of d data;
}.

Definition records_ok c : Prop := forall k d, ak_states c !! k = Some d -> record_ok k d.

Lemma data_of_take d data n : 0 <= da_object_offset d -> 0 <= n <= blen data -> data_of d data ->
  data_of d (ztake n data).
Proof.
  intros Ho Hn [Hl E]. unfold data_of. rewrite blen_ztake by lia. split; [lia |].
  rewrite E at 1. by apply ztake_slice.
Qed.

Lemma records_put c k d : records_ok c -> record_ok k d -> records_ok (ak_put c k d).
Proof.
  intros Hc Hd x y. cbn. rewrite lookup_insert_Some. intros [[<- <-] | [_ Hy]]; [done | by eapply Hc].
Qed.

(** A record but for its marks and its place in the queue. *)
Lemma record_ok_same k d d' : record_ok k d -> da_group_id d' = da_group_id d ->
  da_object_id d' = da_object_id d -> da_object_offset d' = da_object_offset d ->
  da_object_length d' = da_object_length d ->
  da_nb_objects_previous_group d' = da_nb_objects_previous_group d ->
  (da_extra_data d' = da_extra_data d \/ da_extra_data d' = None) -> record_ok k d'.
Proof.
  intros [H0 H1 H2 H3 H4 H5] E1 E2 E3 E4 E5 E6. split; unfold data_of, da_key in *; rewrite ?E1, ?E2, ?E3, ?E4, ?E5; try done.
  intros data Hd. destruct E6 as [E6 | E6]; rewrite E6 in Hd; [by apply H5 | done].
Qed.

(** ** Acknowledgements *)

Lemma dequeue_records c k c' : records_ok c -> quicrq_datagram_ack_extra_dequeue c k = Some c' ->
  records_ok c'.
Proof.
  intros Hc. unfold quicrq_datagram_ack_extra_dequeue.
  destruct (ak_states c !! k) as [d |] eqn:Hd; cbn [mbind option_bind]; [| done].
  destruct (da_extra_data d); intros [= <-]; [| done].
  apply (records_put (ak_set_extra c _ _)); [done |].
  apply (record_ok_same k d); auto.
Qed.

Lemma node_delete_records c k c' : records_ok c -> quicrq_datagram_ack_node_delete c k = Some c' ->
  records_ok c'.
Proof.
  intros Hc. unfold quicrq_datagram_ack_node_delete.
  destruct (ak_states c !! k) as [d |]; cbn [mbind option_bind]; [| done].
  assert (forall c1, records_ok c1 ->
    records_ok (ak_set_tree c1 (splay_delete (ak_tree c1) k) (delete k (ak_states c1)))) as Hdel.
  { intros c1 Hc1 x y. cbn. intros [_ Hy]%lookup_delete_Some. by eapply Hc1. }
  destruct (da_extra_data d).
  - destruct (quicrq_datagram_ack_extra_dequeue c k) as [c1 |] eqn:E; cbn [mbind option_bind]; [| done].
    intros [= <-]. by eapply Hdel, dequeue_records.
  - intros [= <-]. by apply Hdel.
Qed.

Lemma ack_loop_records fuel c g o k n x c' : records_ok c -> ack_loop fuel c g o k n x = Some c' ->
  records_ok c'.
Proof.
  revert c k n x. induction fuel as [| fuel IH]; intros c k n x Hc; [done |]. cbn [ack_loop].
  destruct (0 <? n); [| by intros [= <-]].
  destruct (ak_states c !! k) as [d |] eqn:Hd; cbn [mbind option_bind]; [| done].
  assert (records_ok (ak_put c k (da_set_acked d))) as Hc1.
  { apply records_put; [done |]. apply (record_ok_same k d); auto. }
  destruct (0 <? _); [| by intros [= <-]].
  destruct (splay_next _ _) as [next |]; cbn [mbind option_bind]; [| done].
  destruct (ak_states _ !! next); cbn [mbind option_bind]; [| done].
  destruct (_ || _); [by intros [= <-] | by apply IH].
Qed.

Lemma horizon_loop_records fuel c next c' : records_ok c -> horizon_loop fuel c next = Some c' ->
  records_ok c'.
Proof.
  revert c next. induction fuel as [| fuel IH]; intros c next Hc; [done |]. cbn [horizon_loop].
  destruct next as [k |]; [| by intros [= <-]].
  destruct (ak_states c !! k) as [d |]; cbn [mbind option_bind]; [| done].
  destruct (negb (da_is_acked d)); [by intros [= <-] |].
  destruct (negb _); [by intros [= <-] |].
  destruct (quicrq_datagram_ack_node_delete _ k) as [c1 |] eqn:E; cbn [mbind option_bind]; [| done].
  apply IH. by apply (node_delete_records (ak_set_horizon c (da_group_id d) (da_object_id d)
    (da_object_offset d +64 da_length d)
    (da_object_length d <=? da_object_offset d +64 da_length d)) k).
Qed.

Lemma handle_ack_records c g o off n c' : records_ok c ->
  quicrq_datagram_handle_ack c g o off n = Some c' -> records_ok c'.
Proof.
  intros Hc. unfold quicrq_datagram_handle_ack.
  match goal with |- match ?r with _ => _ end = _ -> _ =>
    destruct r as [[[[c0 below] check] len] x] eqn:Er end.
  assert (records_ok c0) as Hc0.
  { repeat (match type of Er with context [if ?b then _ else _] => destruct b end);
      by injection Er as <- _ _ _ _. }
  clear Er. intros H.
  assert (exists c1, (if check then horizon_loop (ack_fuel c1) c1 (splay_first (ak_tree c1)) else Some c1)
    = Some c' /\ records_ok c1) as (c1 & H1 & Hc1).
  { destruct below; cbn [mbind option_bind] in H; [by exists c0 |].
    destruct (quicrq_datagram_ack_find c0 g o x) as [k |]; cbn [mbind option_bind] in H; [| by exists c0].
    destruct (ack_loop _ _ _ _ _ _ _) as [c1 |] eqn:E; cbn [mbind option_bind] in H; [| done].
    exists c1. split; [done |]. by eapply ack_loop_records. }
  destruct check; [by eapply horizon_loop_records | by injection H1 as <-].
Qed.

(** ** Copies and repeats *)

Lemma extra_queue_records c k data time c' : records_ok c ->
  (forall d, ak_states c !! k = Some d -> 0 <= da_length d /\ data_of d data) ->
  quicrq_datagram_ack_extra_queue c k data time = Some c' -> records_ok c'.
Proof.
  intros Hc Hdata. unfold quicrq_datagram_ack_extra_queue.
  destruct (ak_states c !! k) as [d |] eqn:Hd; cbn [mbind option_bind]; [| done].
  destruct (da_is_extra_queued d); [by intros [= <-] |].
  destruct (Hdata d eq_refl) as [Hlen Hof]. pose proof (Hc _ _ Hd) as Hrec.
  set (d0 := da_set_extra d _ _ true).
  assert (records_ok (ak_put c k d0)) as Hc0.
  { apply records_put; [done |]. apply (record_ok_same k d); auto. }
  destruct (quicrq_datagram_ack_extra_dequeue _ k) as [c1 |] eqn:E; cbn [mbind option_bind]; [| done].
  pose proof (dequeue_records _ _ _ Hc0 E) as Hc1.
  assert (exists d1, ak_states c1 !! k = Some d1 /\ da_group_id d1 = da_group_id d /\
    da_object_id d1 = da_object_id d /\ da_object_offset d1 = da_object_offset d /\
    da_length d1 = da_length d) as (d1 & Hd1 & E1 & E2 & E3 & E4).
  { unfold quicrq_datagram_ack_extra_dequeue in E. rewrite ak_put_lookup in E. cbn [mbind option_bind] in E.
    destruct (da_extra_data d0); injection E as <-; rewrite ak_put_lookup; by eexists. }
  rewrite Hd1. cbn [mbind option_bind]. destruct (malloc_ok (da_length d1)); [| by intros [= <-]].
  destruct (Z.ltb_spec (blen data) (da_length d1)); [done |]. intros [= <-].
  apply (records_put c1); [done |]. destruct (Hc1 _ _ Hd1) as [H0 H1 H2 H3 H4 H5].
  split; try done. cbn. intros data' [= <-].
  assert (data_of d1 (ztake (da_length d1) data)) as Ht; [| done].
  apply data_of_take; [done | lia |]. unfold data_of in *. by rewrite E1, E2, E3.
Qed.

Lemma ack_init_records qr c g o off fl nb data len delay olen now c' ret created :
  records_ok c -> 0 <= len -> record_ok (g, o, off) (da_new g o off fl nb len delay olen now) ->
  data_of (da_new g o off fl nb len delay olen now) data ->
  quicrq_datagram_ack_init qr c g o off fl nb data len delay olen now = Some (c', ret, created) ->
  records_ok c' /\ match created with Some k => k = (g, o, off) | None => True end.
Proof.
  intros Hc Hlen Hrec Hof. unfold quicrq_datagram_ack_init.
  destruct (_ <? 0); [intros [= <- <- <-]; by split |].
  destruct (quicrq_datagram_ack_find c g o off); [intros [= <- <- <-]; by split |].
  destruct (malloc_ok _); [| intros [= <- <- <-]; by split]. cbv zeta.
  fold (da_new g o off fl nb len delay olen now). set (d := da_new g o off fl nb len delay olen now) in *.
  set (c1 := ak_set_tree c _ _).
  assert (records_ok c1) as Hc1.
  { intros x y. cbn. rewrite lookup_insert_Some. intros [[<- <-] | [_ Hy]]; [done | by eapply Hc]. }
  destruct (_ && _ && _); cbn [mbind option_bind].
  - destruct (quicrq_datagram_ack_extra_queue _ _ _ _) as [c2 |] eqn:E; cbn [mbind option_bind]; [| done].
    intros [= <- <- <-]. split; [| done]. apply extra_queue_records in E; [done | done |].
    intros d1. cbn. rewrite lookup_insert_eq. intros [= <-]. by split.
  - intros [= <- <- <-]. by split.
Qed.

Lemma repeat_datagram_length c d data n now h p len : 0 <= n ->
  repeat_datagram c d data n now = Some (h, p, len) -> 0 <= p.
Proof.
  intros Hn. unfold repeat_datagram.
  destruct (quicrq_datagram_header_encode _ _ _ _ _ _ _ _ _); cbn [mbind option_bind]; [| done].
  destruct (_ <? _); intros [= _ <- _]; [apply u64_range | done].
Qed.

(** A split keeps the records, and what remains to be sent starts at the new
    record. *)
Lemma split_repeated_records qr c k d p data n c' ret next :
  records_ok c -> record_ok k d -> 0 <= p < n -> n < two62 -> data_of d data -> p <= blen data ->
  split_repeated qr c k d p data n = Some (c', ret, next) ->
  records_ok c' /\
  forall k' data' n', next = Some (k', data', n') -> exists d', ak_states c' !! k' = Some d' /\
    data_of d' data'.
Proof.
  intros Hc Hrec Hpn Hn Hof Hdata. unfold split_repeated.
  pose proof Hrec as [H0 H1 H2 H3 H4 H5]. destruct Hof as [Hend Edata].
  pose proof (content_range md (da_group_id d, da_object_id d)).
  set (k1 := (da_group_id d, da_object_id d, da_object_offset d + p)).
  rewrite (u64_small (_ + p)), (u64_small (n - p)) by u64_lia.
  assert (data_of (da_new (da_group_id d) (da_object_id d) (da_object_offset d + p) (da_flags d)
    (da_nb_objects_previous_group d) (n - p) (da_queue_delay d) (da_object_length d) (da_start_time d))
    (zdrop p data)) as Hof1.
  { unfold data_of. cbn. rewrite blen_zdrop by lia. split; [lia |].
    rewrite Edata at 1. by rewrite zdrop_slice by lia. }
  destruct (quicrq_datagram_ack_init _ _ _ _ _ _ _ _ _ _ _ _) as [[[c3 ret3] created] |] eqn:E3;
    cbn [mbind option_bind]; [| done].
  apply ack_init_records in E3 as [Hc3 Hk3]; [| done | lia | | done].
  2: { destruct (Z.eq_dec p 0) as [-> | Hp0].
       - rewrite Z.add_0_r. by split.
       - split; try done; cbn; lia. }
  destruct (ret3 =? 0); [| by intros [= <- <- <-]].
  destruct created as [k' |]; cbn [mbind option_bind]; [| done]. subst k'.
  destruct (ak_states c3 !! _) as [d' |] eqn:Hd'; cbn [mbind option_bind]; [| done].
  pose proof (Hc3 _ _ Hd') as Hrec'. pose proof (rc_key _ _ Hrec') as Hkey'.
  unfold da_key in Hkey'. injection Hkey' as Eg Eo Ex.
  set (c4 := ak_put c3 k1 (da_set_props d' (da_object_length d) (da_nack_received d))).
  assert (records_ok c4) as Hc4.
  { apply records_put; [done |]. apply (record_ok_same k1 d'); auto.
    cbn. rewrite (rc_length _ _ Hrec'), Eg, Eo. done. }
  fold k1. fold c4. destruct (ak_states c4 !! k) as [d3 |] eqn:Hd3; cbn [mbind option_bind]; [| done].
  intros [= <- <- <-]. split.
  { apply records_put; [done |]. apply (record_ok_same k d3); auto. }
  intros k' data' n' [= <- <- <-].
  assert (exists d5, ak_states (ak_put c4 k (da_set_length d3 p)) !! k1 = Some d5 /\ da_key d5 = k1)
    as (d5 & Hd5 & [= Fg Fo Fx]).
  { destruct (decide (k = k1)) as [E | Hne].
    - rewrite <- E, ak_put_lookup. eexists. split; [done |]. apply (rc_key _ _ (Hc4 _ _ Hd3)).
    - rewrite ak_put_lookup_ne by done. unfold c4. rewrite ak_put_lookup. eexists. split; [done |].
      apply (rc_key _ _ Hrec'). }
  exists d5. split; [exact Hd5 |]. unfold data_of in Hof1 |- *. by rewrite Fg, Fo, Fx.
Qed.

(** A turn of a repeat keeps the records, and what remains to be sent starts at
    the new record. *)
Lemma repeat_turn_records qr c k d data n prep now c' ret next :
  records_ok c -> ak_states c !! k = Some d -> 0 <= da_length d -> 0 <= n < two62 -> data_of d data ->
  repeat_turn qr c k data n prep now = Some (c', ret, next) ->
  records_ok c' /\
  forall k' data' n', next = Some (k', data', n') -> exists d', ak_states c' !! k' = Some d' /\
    data_of d' data'.
Proof.
  intros Hc Hd Hl Hn Hof. unfold repeat_turn. rewrite Hd. cbn [mbind option_bind].
  pose proof (Hc _ _ Hd) as Hrec.
  assert (forall c1 r, records_ok c1 -> Some (c1, r, None) = Some (c', ret, next) ->
    records_ok c' /\ forall k' data' n', next = Some (k', data', n') -> exists d',
      ak_states c' !! k' = Some d' /\ data_of d' data') as Hstop.
  { by intros c1 r Hc1 [= <- <- <-]. }
  destruct (negb _); [by apply Hstop |].
  set (d0 := da_set_sent d now). set (c0 := ak_put c k d0).
  assert (records_ok c0) as Hc0 by (apply records_put; [done |]; apply (record_ok_same k d); auto).
  destruct (repeat_datagram _ _ _ _ _) as [[[h p] len] |] eqn:Ep; [| done]. cbn [mbind option_bind].
  apply repeat_datagram_length in Ep; [| lia].
  destruct (_ <? blen h +64 p); [by apply Hstop |].
  destruct (Z.ltb_spec (blen data) p); [done |].
  destruct (_ =? 0); [| by apply Hstop].
  set (c1 := ak_set_queued c0 _). assert (records_ok c1) as Hc1 by done.
  assert (ak_states c1 !! k = Some d0) as Hd0 by apply lookup_insert_eq.
  destruct (if prep && (0 <? extra_repeat_delay qr) then _ else _) as [c2 |] eqn:E2;
    cbn [mbind option_bind]; [| done].
  assert (records_ok c2) as Hc2.
  { destruct (prep && _); [| by injection E2 as <-].
    apply extra_queue_records in E2; [done | done |]. intros x. rewrite Hd0. intros [= <-]. by split. }
  destruct (Z.ltb_spec p n) as [Hpn |]; [| by apply Hstop].
  apply (split_repeated_records qr c2 k d0); [done | | lia | lia | done | done].
  by apply (record_ok_same k d); auto.
Qed.

(** A datagram of the media [mid], that carries bytes of the object [k] between
    two offsets, and some of them if they differ. *)
Definition carries_within (mid : Z) (k : Z * Z) (lo hi : Z) (dg : list Z) : Prop :=
  exists f, datagram_fragment mid dg = Some f /\ consistent md f /\ f_key f = k /\
    lo <= f_offset f /\ f_offset f + f_data_length f <= hi /\ (lo < hi -> 0 < f_data_length f).

Lemma within_genuine mid (k : Z * Z) lo hi dg : carries_within mid k lo hi dg -> genuine_datagram md mid dg.
Proof. intros (f & Hf & Hc & _). by exists f. Qed.

Lemma within_weaken mid (k : Z * Z) lo hi lo' hi' dg : carries_within mid k lo hi dg -> lo' <= lo -> hi <= hi' ->
  (lo' < hi' -> lo < hi) -> carries_within mid k lo' hi' dg.
Proof. intros (f & Hf & Hc & Hk & Hl & Hh & Hp) H1 H2 H3. exists f. split_and!; auto; lia. Qed.

Lemma carries_fragment mid k d delay piece dg : record_ok k d -> das_ok d -> data_of d piece ->
  carries mid d delay (da_object_offset d) piece dg ->
  carries_within mid (da_group_id d, da_object_id d) (da_object_offset d)
    (da_object_offset d + blen piece) dg.
Proof.
  intros [H0 [H1 H1'] H2 H3 H4 _] (Hg & Ho & _) [Hend Edata] Hc. pose proof (blen_nonneg piece).
  unfold carries in Hc. eexists. unfold datagram_fragment. rewrite Hc, Z.eqb_refl.
  split; [done |]. cbn [f_key f_offset f_data_length f_group f_object fst snd].
  split; [| split_and!; [done | lia | lia | lia]].
  split; unfold f_key; cbn; try done.
  - split; [done | apply H1'].

  - intros Hg0 E1 E2. rewrite E1, E2. cbn. by apply H4.
Qed.

Lemma repeat_loop_contents fuel qr c k d data n prep now c' ret :
  is_time now -> ack_ok c -> records_ok c -> ak_states c !! k = Some d ->
  data_of d data -> 0 <= n -> da_object_offset d + n < two62 ->
  repeat_loop fuel qr c k data n prep now = Some (c', ret) ->
  exists news, ak_queued c' = ak_queued c ++ news /\ records_ok c' /\ ak_media_id c' = ak_media_id c /\
    Forall (carries_within (ak_media_id c) (da_group_id d, da_object_id d) (da_object_offset d)
              (da_object_offset d + n)) news.
Proof.
  intros Hnow. revert c k d data n.
  induction fuel as [| fuel IH]; intros c k d data n Hok Hc Hd Hof Hn Hbig; [done |]. cbn [repeat_loop].
  destruct (repeat_turn qr c k data n prep now) as [[[c1 ret1] next] |] eqn:Et; [| done].
  cbn [mbind option_bind]. pose proof (Hc _ _ Hd) as Hrec.
  destruct (tree_key c (proj1 Hok) k d Hd) as [Hkey Hdok]. pose proof Hof as [Hend Edata].
  pose proof (content_range md (da_group_id d, da_object_id d)).
  destruct (repeat_turn_records qr c k d data n prep now c1 ret1 next Hc Hd) as [Hc1 Hnext]; try done.
  { unfold das_ok in Hdok. lia. }
  { pose proof (rc_offset _ _ Hrec). lia. }
  apply (repeat_turn_spec qr c k d data n prep now) in Et; [| done..].
  assert (forall p delay dg, 0 <= p <= blen data -> carries (ak_media_id c) d delay (da_object_offset d) (ztake p data) dg ->
    carries_within (ak_media_id c) (da_group_id d, da_object_id d) (da_object_offset d)
      (da_object_offset d + p) dg) as Hone.
  { intros p delay dg Hp Hcar.
    assert (data_of d (ztake p data)) as Hofp by (apply data_of_take; [apply Hrec | lia | done]).
    pose proof (carries_fragment _ k d delay _ dg Hrec Hdok Hofp Hcar) as Hw.
    by rewrite blen_ztake in Hw by lia. }
  destruct Et as [Hn0 Hfl -> | ret1 Hr Hok1 Hsh Hl Hq | dg Hok1 Hsh Hl Hnl Hdg Hcar |
    dg p ret1 Hp Hok1 Hsh Hl Hpl Hdg Hcar Hwhy |
    dg p k' d' Hp Hok1 Hsh -> Hnone Hd' Hsame Hnz Hl Hpl Hdg Hcar].
  - intros [= <- <-]. exists []. by rewrite app_nil_r.
  - intros [= <- <-]. exists []. rewrite app_nil_r. split_and!; try done; apply Hsh.
  - intros [= <- <-]. exists [dg]. split_and!; [apply (sh_queued _ _ Hsh) | done | apply Hsh |].
    apply Forall_singleton. eapply (Hone n _ dg); [lia | exact Hcar].
  - intros [= <- <-]. exists [dg]. split_and!; [apply (sh_queued _ _ Hsh) | done | apply Hsh |].
    apply Forall_singleton. eapply within_weaken; [by eapply (Hone p _ dg); [lia |] | lia..].
  - destruct (Hnext _ _ _ eq_refl) as (d1 & Hd1 & Hof1 & Hb1). rewrite Hd' in Hd1. injection Hd1 as <-.
    pose proof (rc_key _ _ (Hc1 _ _ Hd')) as (Eg & Eo & Ex)%da_key_inv.
    intros Hloop. apply (IH c1 _ d' _ _) in Hloop as (news & Hq & Hc' & Hmid & Hnews);
      [| done | done | done | done | lia | lia].
    pose proof (sh_media _ _ Hsh) as Em. cbn in Em. rewrite Em, Eg, Eo, Ex in Hnews.
    exists (dg :: news). split_and!.
    + rewrite Hq, (sh_queued _ _ Hsh). cbn. by rewrite <- (assoc_L (++)).
    + done.
    + congruence.
    + constructor; [eapply within_weaken; [by eapply (Hone p _ dg); [lia |] | lia..] |].
      eapply Forall_impl; [exact Hnews |]. intros x Hx. eapply within_weaken; [exact Hx | lia..].
Qed.

Lemma handle_repeat_contents qr conn c k d data n prep now c' ret :
  is_time now -> ack_ok c -> records_ok c -> ak_states c !! k = Some d ->
  data_of d data -> 0 <= n -> da_object_offset d + n < two62 ->
  quicrq_datagram_handle_repeat qr conn c k data n prep now = Some (c', ret) ->
  exists news, ak_queued c' = ak_queued c ++ news /\ records_ok c' /\ ak_media_id c' = ak_media_id c /\
    Forall (carries_within (ak_media_id c) (da_group_id d, da_object_id d) (da_object_offset d)
              (da_object_offset d + n)) news.
Proof.
  intros Hnow Hok Hc Hd Hof Hn Hbig. unfold quicrq_datagram_handle_repeat.
  destruct conn; [by apply repeat_loop_contents |].
  intros [= <- <-]. exists []. by rewrite app_nil_r.
Qed.

(** The loss of a datagram: its bytes are those of its range. *)
Lemma handle_lost_contents qr conn c g o off sent_time bytes now c' ret :
  is_time now -> ack_ok c -> records_ok c -> is_id g -> is_id o -> 0 <= off ->
  off + blen bytes <= blen (content md (g, o)) -> bytes = slice (content md (g, o)) off (blen bytes) ->
  quicrq_datagram_handle_lost qr conn c g o off sent_time bytes (blen bytes) now = Some (c', ret) ->
  exists news, ak_queued c' = ak_queued c ++ news /\ records_ok c' /\ ak_media_id c' = ak_media_id c /\
    Forall (carries_within (ak_media_id c) (g, o) off (off + blen bytes)) news.
Proof.
  intros Hnow Hok Hc Hg Ho Hoff Hend Ebytes. unfold quicrq_datagram_handle_lost.
  pose proof (content_range md (g, o)). pose proof (blen_nonneg bytes).
  assert (forall c0 r0, c0 = c -> Some (c0, r0) = Some (c', ret) -> exists news,
    ak_queued c' = ak_queued c ++ news /\ records_ok c' /\ ak_media_id c' = ak_media_id c /\
    Forall (carries_within (ak_media_id c) (g, o) off (off + blen bytes)) news) as Hsame.
  { intros c0 r0 -> [= <- <-]. exists []. by rewrite app_nil_r. }
  assert (akey_ok (g, o, off)) as Hkey by (by apply (find_akey_ok g o off (blen bytes)); try lia).
  destruct (quicrq_datagram_ack_find c g o off) as [k |] eqn:Ef; [| by apply Hsame].
  apply tree_find_some in Ef as (-> & d & Hd); [| apply Hok | done].
  rewrite Hd. cbn [mbind option_bind]. destruct (negb (da_is_acked d)); [| by apply Hsame].
  destruct (_ || _); [| by apply Hsame].
  destruct (tree_key c (proj1 Hok) _ d Hd) as [(Eg & Eo & Ex)%da_key_inv Hdok].
  set (d0 := da_set_nack d true). set (c1 := ak_count _ _ _ _).
  assert (ack_ok c1) as Hok1.
  { assert (ack_ok (ak_put c (g, o, off) d0)) as [[] []]; [| by split; split].
    destruct Hok as [Ht Hx]. split; [apply (tree_ok_put c _ d) | apply (extra_ok_put c _ d)]; try done.
    unfold da_key. cbn. by rewrite Eg, Eo, Ex. }
  assert (records_ok c1) as Hc1.
  { apply (records_put c); [done |]. apply (record_ok_same _ d); auto. }
  intros Hr. eapply (handle_repeat_contents _ _ c1 _ d0) in Hr as (news & Hq & Hc' & Hm & Hnews);
    [| done | done | done | apply ak_put_lookup | | lia | cbn; lia].
  - cbn in Hnews. rewrite Eg, Eo, Ex in Hnews. by exists news.
  - unfold data_of. cbn. by rewrite Eg, Eo, Ex.
Qed.

(** The timer: each copy comes from the range of a record. *)
Definition inside (mid : Z) (sent : list (akey * Z)) (dg : list Z) : Prop :=
  exists g o a m, ((g, o, a), m) ∈ sent /\ carries_within mid (g, o) a (a + m) dg.

Lemma inside_more mid sent news dg : Forall (inside mid sent) news ->
  inside mid (sent ++ omap datagram_range news) dg -> inside mid sent dg.
Proof.
  intros Hnews (g & o & a & m & [Hin | Hin]%elem_of_app & Hw); [by exists g, o, a, m |].
  apply list_elem_of_omap in Hin as (x & Hx & Er). rewrite Forall_forall in Hnews.
  destruct (Hnews x Hx) as (g' & o' & a' & m' & Hin' & f & Hf & Hcf & [= Eg Eo] & Hlo & Hhi & Hp).
  rewrite (datagram_fragment_range _ _ _ Hf) in Er. injection Er as <- <- <- <-.
  rewrite Eg, Eo in Hw. exists g', o', a', m'. split; [done |].
  eapply within_weaken; [exact Hw | lia | lia | lia].
Qed.

Lemma extra_loop_contents fuel qr conn c next_time now c' next_time' sent :
  malloc_ok sizeof_datagram_ack_state = true -> is_time now -> history_ok c sent -> records_ok c ->
  extra_repeat_loop fuel qr conn c next_time now = Some (c', next_time') ->
  exists news, ak_queued c' = ak_queued c ++ news /\ records_ok c' /\ ak_media_id c' = ak_media_id c /\
    Forall (inside (ak_media_id c) sent) news.
Proof.
  intros Hmal Hnow. revert c next_time sent.
  induction fuel as [| fuel IH]; intros c next_time sent Hh Hc; [done |]. cbn [extra_repeat_loop].
  destruct (ak_extra c) as [| k extra] eqn:Ex.
  { intros [= <- <-]. exists []. by rewrite app_nil_r. }
  destruct (ak_states c !! k) as [d |] eqn:Hd; cbn [mbind option_bind]; [| done].
  destruct (_ <=? now).
  2: { intros [= <- <-]. exists []. by rewrite app_nil_r. }
  destruct (da_extra_data d) as [data |] eqn:Edata; cbn [mbind option_bind]; [| done].
  destruct (quicrq_datagram_handle_repeat _ _ _ _ _ _ _ _) as [[c1 ret] |] eqn:Er;
    cbn [mbind option_bind]; [| done].
  destruct (record_range _ _ _ _ Hh Hd) as [Hrec Hdok].
  destruct (ho_inside _ _ Hh _ _ _ _ Hrec) as (a & m & Ha & Hax & Hend & Hpos).
  pose proof Er as Er'. unfold das_ok in Hdok.
  eapply handle_repeat_history in Er as (news & Hq & Hh1);
    [| done | done | exact Hh | exact Hd | lia | exact Ha | lia | lia | left; by eexists _, _].
  apply (handle_repeat_contents _ _ _ _ d) in Er' as (news' & Hq' & Hc1 & Hm1 & Hw);
    [| done | apply Hh | done | done | by apply (rc_extra _ _ (Hc _ _ Hd)) | lia | lia].
  rewrite Hq in Hq'. apply (inj (ak_queued c ++.)) in Hq' as <-.
  destruct (quicrq_datagram_ack_extra_dequeue c1 k) as [c2 |] eqn:Edq; cbn [mbind option_bind]; [| done].
  assert (exists d1, ak_states c1 !! k = Some d1) as [d1 Hd1].
  { unfold quicrq_datagram_ack_extra_dequeue in Edq. destruct (ak_states c1 !! k); [by eexists | done]. }
  destruct (extra_dequeue_spec c1 k d1 (ho_ack _ _ Hh1) Hd1) as (c2' & E & Hok2 & Hk2 & _).
  rewrite E in Edq. injection Edq as ->. pose proof (dequeue_records _ _ _ Hc1 E) as Hc2.
  pose proof (keeps_media _ _ Hk2) as Hm2.
  assert (Forall (inside (ak_media_id c) sent) news) as Hin.
  { eapply Forall_impl; [exact Hw |]. intros dg Hdg. exists (da_group_id d), (da_object_id d), a, m.
    split; [done |]. eapply within_weaken; [exact Hdg | lia | lia | lia]. }
  intros Hloop. apply IH with (sent := sent ++ omap datagram_range news) in Hloop
    as (news' & Hq' & Hc' & Hm' & Hin'); [| by eapply history_keeps | done].
  exists (news ++ news'). split_and!.
  - by rewrite Hq', (keeps_queued _ _ Hk2), Hq, (assoc_L (++)).
  - done.
  - congruence.
  - apply Forall_app. split; [done |]. rewrite Hm2, Hm1 in Hin'. eapply Forall_impl; [exact Hin' |].
    intros dg. by apply inside_more.
Qed.
End contents.
