(* ===== verification/ExtraRepeat.v ===== *)
(** * The queue of the extra repeats is processed

    A repeat of a record that is due may split it, and the pieces may be queued
    and due in turn.  Each turn of the loop of [quicrq_handle_extra_repeat]
    decreases the bytes that are queued. *)

From stdpp Require Import relations.
From S2P Require Import Prelude Picosplay PicoFrames Proto.
From S2P Require Import Ack AckProofs AckLoops AckRepeat AckHistory AckTheorems.

Section extra.
Context `{Sp : Splay akey quicrq_datagram_ack_node_compare} {SL : SplayLaws Sp}.
Context {Al : Allocator} {PF : PicoFrames} {FL : FramesLaws PF}.
Context {PQ : PicoQueue} {PL : PicoQueueLaws PQ}.
Implicit Types (c : quicrq_datagram_ack_ctx_t) (k : akey) (d : quicrq_datagram_ack_state_t).

(** ** What is queued *)

(** The share of a record: its bytes, or 1. *)
Definition share c k : nat :=
  match lens c !! k with Some n => Nat.max 1 (Z.to_nat n) | None => 1 end.
Definition shares c ks : nat := list_sum (map (share c) ks).

Lemma share_positive c k : (1 <= share c k)%nat.
Proof. unfold share. destruct (lens c !! k); lia. Qed.

Lemma shares_app c l1 l2 : shares c (l1 ++ l2) = (shares c l1 + shares c l2)%nat.
Proof. unfold shares. by rewrite map_app, list_sum_app. Qed.

Lemma shares_cons c k l : shares c (k :: l) = (share c k + shares c l)%nat.
Proof. done. Qed.

Lemma shares_filter c (f : akey -> bool) l : (shares c (List.filter f l) <= shares c l)%nat.
Proof.
  induction l as [| k l IH]; cbn [List.filter]; [done |].
  destruct (f k); rewrite ?shares_cons in *; lia.
Qed.

Lemma shares_same c c' l : (forall k, k ∈ l -> lens c' !! k = lens c !! k) -> shares c' l = shares c l.
Proof.
  intros H. unfold shares. f_equal. apply map_ext_in. intros k Hk. unfold share.
  by rewrite H by by apply list_elem_of_In.
Qed.

Lemma extra_fuel_shares c : extra_fuel c = S (shares c (ak_extra c)).
Proof.
  unfold extra_fuel, shares, share, lens. f_equal. f_equal. apply map_ext. intros k.
  rewrite lookup_fmap. by destruct (ak_states c !! k).
Qed.

(** ** Operations that queue *)

(** The copies that are queued cover their records. *)
Definition covered c : Prop := forall k d data,
  ak_states c !! k = Some d -> da_extra_data d = Some data -> da_length d <= blen data.

Lemma covered_put c k d : covered c ->
  (forall data, da_extra_data d = Some data -> da_length d <= blen data) -> covered (ak_put c k d).
Proof.
  intros Hc Hd x y data. cbn. rewrite lookup_insert_Some. intros [[<- <-] | [_ Hx]]; [apply Hd |].
  by eapply Hc.
Qed.

(** The queue grows by the record at the end, or not at all. *)
Definition queues c k c' : Prop :=
  (ak_extra c' = ak_extra c \/ ak_extra c' = ak_extra c ++ [k]) /\
  (forall x, x <> k -> ak_states c' !! x = ak_states c !! x) /\ (covered c -> covered c').

(** A record that is not queued is put at the end of the queue. *)
Lemma extra_queue_queues c k d data time c' : ak_states c !! k = Some d -> 0 <= da_length d ->
  da_extra_data d = None -> quicrq_datagram_ack_extra_queue c k data time = Some c' -> queues c k c'.
Proof.
  intros Hd Hl Hn. unfold quicrq_datagram_ack_extra_queue. rewrite Hd. cbn [mbind option_bind].
  destruct (da_is_extra_queued d); [intros [= <-]; split_and!; auto |].
  unfold quicrq_datagram_ack_extra_dequeue. rewrite ak_put_lookup. cbn [mbind option_bind da_set_extra
    da_extra_data]. rewrite Hn. cbn [mbind option_bind]. rewrite ak_put_lookup. cbn [mbind option_bind].
  assert (forall c1 d1, covered c1 -> da_extra_data d1 = None -> covered (ak_put c1 k d1)) as Hput.
  { intros c1 d1 Hc1 Hd1. apply covered_put; [done |]. congruence. }
  change (da_length (da_set_extra d _ _ _)) with (da_length d).
  destruct (malloc_ok _).
  - destruct (Z.ltb_spec (blen data) (da_length d)); [done |]. intros [= <-]. split_and!; [by right | |].
    + intros x Hx. cbn. by rewrite !lookup_insert_ne.
    + intros Hc. apply covered_put; [by apply Hput |]. cbn. intros data' [= <-]. rewrite blen_ztake; lia.
  - intros [= <-]. split_and!; [by left | | auto]. intros x Hx. cbn. by rewrite lookup_insert_ne.
Qed.

Lemma ack_init_queues qr c g o off fl nb data len delay olen now c' ret created : 0 <= len ->
  quicrq_datagram_ack_init qr c g o off fl nb data len delay olen now = Some (c', ret, created) ->
  match created with
  | Some k => queues c k c' /\ ret = 0
  | None => ak_extra c' = ak_extra c /\ ak_states c' = ak_states c
  end.
Proof.
  intros Hlen. unfold quicrq_datagram_ack_init. destruct (_ <? 0); [by intros [= <- <- <-] |].
  destruct (quicrq_datagram_ack_find c g o off); [by intros [= <- <- <-] |].
  destruct (malloc_ok _); [| by intros [= <- <- <-]]. cbv zeta.
  fold (da_new g o off fl nb len delay olen now). set (d := da_new g o off fl nb len delay olen now).
  set (c1 := ak_set_tree c _ _).
  assert (queues c (da_key d) c1) as (_ & H1 & H2).
  { split_and!; [by left | | intros Hc; by exact (covered_put c (da_key d) d Hc ltac:(done))]. intros x Hx. cbn. by rewrite lookup_insert_ne. }
  destruct (_ && _ && _).
  - destruct (quicrq_datagram_ack_extra_queue c1 (da_key d) data _) as [c2 |] eqn:E; [| done].
    intros [= <- <- <-]. split; [| done].
    apply (extra_queue_queues c1 (da_key d) d) in E as (? & H3 & ?); [| apply lookup_insert_eq | done ..].
    split_and!; [done | | auto]. intros x Hx. by rewrite H3, H1.
  - intros [= <- <- <-]. split; [| done]. split_and!; auto.
Qed.

(** What a turn of a repeat does to the queue. *)
Lemma repeat_turn_queues qr c k d data n now c' ret next :
  ak_states c !! k = Some d -> 0 <= n <= da_length d ->
  (forall k' data' n', next = Some (k', data', n') -> ak_states c !! k' = None) ->
  repeat_turn qr c k data n false now = Some (c', ret, next) ->
  match next with
  | Some (k', _, _) => ak_extra c' = ak_extra c \/ ak_extra c' = ak_extra c ++ [k']
  | None => ak_extra c' = ak_extra c
  end /\ (covered c -> covered c').
Proof.
  intros Hd Hn Hfresh. unfold repeat_turn. rewrite Hd. cbn [mbind option_bind].
  destruct (negb _); [by intros [= <- <- <-] |].
  destruct (repeat_datagram _ _ _ _ _) as [[[h p] len] |]; [| done]. cbn [mbind option_bind].
  assert (covered c -> covered (ak_put c k (da_set_sent d now))) as Hc0.
  { intros Hc. apply covered_put; [done |]. intros data'. by apply (Hc k d). }
  destruct (_ <? blen h +64 p); [by intros [= <- <- <-] |]. destruct (blen data <? p); [done |].
  destruct (_ =? 0); [| by intros [= <- <- <-]]. cbn [andb mbind option_bind].
  destruct (Z.ltb_spec p n); [| by intros [= <- <- <-]].
  unfold split_repeated.
  destruct (quicrq_datagram_ack_init _ _ _ _ _ _ _ _ _ _ _ _) as [[[c3 ret3] created] |] eqn:E; [| done].
  cbn [mbind option_bind]. set (c1 := ak_set_queued _ _) in E.
  apply ack_init_queues in E; [| apply u64_range].
  destruct created as [k' |]; cycle 1.
  { destruct E as [Ex Es]. destruct (ret3 =? 0); [done |]. intros [= <- <- <-]. split; [exact Ex |].
    intros Hc x y z. rewrite Es. by apply (Hc0 Hc). }
  destruct E as [(Hex & Hother & Hcov) ->]. cbn [Z.eqb mbind option_bind].
  destruct (ak_states c3 !! k') as [d' |] eqn:Ed'; [| done]. cbn [mbind option_bind].
  destruct (ak_states (ak_put c3 k' _) !! k) as [d3 |] eqn:E3; [| done]. cbn [mbind option_bind].
  intros [= <- <- <-]. split; [exact Hex |]. intros Hc. specialize (Hfresh _ _ _ eq_refl).
  assert (k <> k') as Hne by congruence.
  assert (covered c3) as Hc3 by by apply Hcov, Hc0.
  apply covered_put; [apply covered_put; [done |]; intros data'; by apply (Hc3 k' d') |].
  rewrite ak_put_lookup_ne, Hother in E3 by done. cbn in E3. rewrite lookup_insert_eq in E3.
  injection E3 as <-. cbn. intros data' Hdata'. apply (Hc k d) in Hdata'; [lia | done].
Qed.

(** A new record is above the horizon. *)
Definition all_above c : Prop := forall k, is_Some (ak_states c !! k) -> ~ hz_lt c k.

(** The contexts from which no operation of the queue faults. *)
Record queue_ok c : Prop := {
  qo_ack : ack_ok c;
  qo_covered : covered c;
  qo_above : all_above c;
}.

Lemma lens_is_Some c k : is_Some (lens c !! k) <-> is_Some (ak_states c !! k).
Proof. unfold lens. by rewrite lookup_fmap, fmap_is_Some. Qed.

Lemma all_above_same c c' q : all_above c -> same_horizon (ak_set_queued c q) c' ->
  (forall k, is_Some (lens c' !! k) -> is_Some (lens c !! k) \/ ~ hz_lt c k) -> all_above c'.
Proof.
  intros Ha Hsh Hl k Hk%lens_is_Some Hz. apply (same_horizon_lt _ _ k Hsh) in Hz.
  destruct (Hl k Hk) as [Hc | Hc]; [| by apply Hc]. apply lens_is_Some in Hc. by apply (Ha k).
Qed.

(** What a whole repeat does: the pieces that it queues, and what remains of
    the record, are no more than the record. *)
Lemma repeat_loop_shares qr now fuel c k d data n :
  is_time now -> queue_ok c -> ak_states c !! k = Some d -> da_length d = n ->
  n <= blen data -> (S (Z.to_nat n) < fuel)%nat ->
  exists c' ret news m, repeat_loop fuel qr c k data n false now = Some (c', ret) /\ queue_ok c' /\
    ak_extra c' = ak_extra c ++ news /\ lens c' !! k = Some m /\
    (forall x, x <> k -> is_Some (lens c !! x) -> lens c' !! x = lens c !! x) /\
    (Nat.max 1 (Z.to_nat m) + shares c' news <= Nat.max 1 (Z.to_nat n))%nat.
Proof.
  intros Hnow. revert c k d data n. induction fuel as [| fuel IH]; [lia |].
  intros c k d data n Hq Hd Hlen Hdata Hfuel. pose proof Hq as [Hok Hcov Hab].
  destruct (tree_key c (proj1 Hok) k d Hd) as [Hkey Hdok].
  assert (0 <= n /\ da_object_offset d + n < two62) as [Hn Hend] by (unfold das_ok in Hdok; lia).
  assert (lens c !! k = Some n) as Hk by (apply lens_lookup; eauto).
  destruct (repeat_turn_spec qr c k d data n false now Hok Hd Hnow Hn Hend) as [Htot Hres].
  destruct Htot as [[[c1 ret] next] E]; [lia | done | by apply Hab; eauto |].
  cbn [repeat_loop]. rewrite E. cbn [mbind option_bind]. specialize (Hres _ _ _ E).
  apply (repeat_turn_queues _ _ _ _ _ _ _ _ _ _ Hd) in E as [Hex Hcov1]; [| lia |].
  2: { intros k' data' n' ->. inversion Hres; congruence. }
  specialize (Hcov1 Hcov).
  assert (forall c0, c0 = c1 -> ack_ok c0 -> all_above c0 -> ak_extra c0 = ak_extra c ->
    lens c0 = lens c -> exists c' ret0 news m, Some (c0, ret) = Some (c', ret0) /\ queue_ok c' /\
    ak_extra c' = ak_extra c ++ news /\ lens c' !! k = Some m /\
    (forall x, x <> k -> is_Some (lens c !! x) -> lens c' !! x = lens c !! x) /\
    (Nat.max 1 (Z.to_nat m) + shares c' news <= Nat.max 1 (Z.to_nat n))%nat) as Hlast.
  { intros c0 -> Hok1 Hab1 He Hl. exists c1, ret, [], n. rewrite Hl, app_nil_r.
    split_and!; try done. cbn. lia. }
  destruct Hres as [Hn0 Hfl -> | ret Hr Hok1 Hsh Hl _ | dg Hok1 Hsh Hl _ _ _ |
    dg p ret Hp Hok1 Hsh Hl _ _ _ _ | dg p k' d' Hp Hok1 Hsh Hk' Hnone Hd' Hsame Hnz Hl Hpl _ _].
  - by apply Hlast.
  - apply Hlast; try done. eapply (all_above_same c _ (ak_queued c)); [done | by destruct Hsh |].
    intros x. rewrite Hl. by left.
  - apply Hlast; try done. eapply all_above_same; [done | exact Hsh |]. intros x. rewrite Hl. by left.
  - apply Hlast; try done. eapply all_above_same; [done | exact Hsh |]. intros x. rewrite Hl. by left.
  - clear Hlast. assert (k <> k') as Hne by congruence.
    assert (queue_ok c1) as Hq1.
    { split; [done | done |]. eapply all_above_same; [done | exact Hsh |]. intros x. rewrite Hl.
      intros [<- | [<- | Hx]%lookup_insert_is_Some']%lookup_insert_is_Some'; [| by right | by left].
      left. by eexists. }
    assert (lens c1 !! k' = Some (n - p)) as Hk1 by (by rewrite Hl, lookup_insert_ne, lookup_insert_eq).
    apply lens_lookup in Hk1 as (d1 & Hd1 & Hlen1).
    destruct (IH c1 k' d1 (zdrop p data) (n - p) Hq1 Hd1 Hlen1) as
      (c2 & ret2 & news & m & -> & Hq2 & He2 & Hm & Hsame2 & Hle); [rewrite blen_zdrop; lia | lia |].
    assert (lens c2 !! k = Some p) as Hkp.
    { rewrite Hsame2; [by rewrite Hl, lookup_insert_eq | done |]. rewrite Hl, lookup_insert_eq. by eexists. }
    exists c2, ret2. destruct Hex as [Hex | Hex].
    + exists news, p. split_and!; [done | done | by rewrite He2, Hex | done | | lia].
      intros x Hx Hs. assert (x <> k') by (intros ->; apply lens_is_Some in Hs; rewrite Hnone in Hs; by destruct Hs).
      rewrite Hsame2; [| done |]; rewrite Hl, !lookup_insert_ne by done; done.
    + exists (k' :: news), p. split_and!; [done | done | by rewrite He2, Hex, <- (assoc_L (++)) | done | |].
      * intros x Hx Hs. assert (x <> k') by (intros ->; apply lens_is_Some in Hs; rewrite Hnone in Hs; by destruct Hs).
        rewrite Hsame2; [| done |]; rewrite Hl, !lookup_insert_ne by done; done.
      * rewrite shares_cons. unfold share at 1. rewrite Hm. lia.
Qed.

(** ** The loop over the queue *)

(** The head of the queue of [c'] is not due at [now], and the time [t] of the
    next wake up is not after it. *)
Definition drained (now t : Z) c' : Prop := queue_ok c' /\
  match ak_extra c' with
  | [] => True
  | k :: _ => exists d, ak_states c' !! k = Some d /\ now < da_extra_repeat_time d /\
                t <= da_extra_repeat_time d
  end.

Lemma queue_ok_dequeue c k d : queue_ok c -> ak_states c !! k = Some d ->
  exists c', quicrq_datagram_ack_extra_dequeue c k = Some c' /\ queue_ok c' /\ lens c' = lens c /\
    (da_extra_data d <> None ->
     ak_extra c' = List.filter (fun x => negb (bool_decide (x = k))) (ak_extra c)).
Proof.
  intros [Hok Hcov Hab] Hd.
  destruct (extra_dequeue_spec c k d Hok Hd) as (c1 & E & Hok1 & Hk1 & _ & _ & (d1 & Hd1 & Hn1 & _) & Hother).
  exists c1. pose proof (keeps_lens _ _ Hk1) as Hl. split_and!; [done | split | done | ].
  - done.
  - intros x y data Hx Hy. destruct (decide (x = k)) as [-> | Hne].
    + rewrite Hd1 in Hx. injection Hx as <-. congruence.
    + rewrite Hother in Hx by done. by eapply Hcov.
  - eapply (all_above_same c c1 (ak_queued c)); [done | |].
    + apply keeps_same_horizon in Hk1. by destruct Hk1.
    + intros x. rewrite Hl. by left.
  - intros Hdata. unfold quicrq_datagram_ack_extra_dequeue in E. rewrite Hd in E. cbn [mbind option_bind] in E.
    destruct (da_extra_data d); [| done]. by injection E as <-.
Qed.

Lemma handle_repeat_shares qr conn now c k d data : is_time now -> queue_ok c ->
  ak_states c !! k = Some d -> da_length d <= blen data ->
  exists c' ret news, quicrq_datagram_handle_repeat qr conn c k data (da_length d) false now = Some (c', ret) /\
    queue_ok c' /\ ak_extra c' = ak_extra c ++ news /\ is_Some (lens c' !! k) /\
    (forall x, x <> k -> is_Some (lens c !! x) -> lens c' !! x = lens c !! x) /\
    (S (shares c' news) <= share c k)%nat.
Proof.
  intros Hnow Hq Hd Hlen.
  assert (share c k = Nat.max 1 (Z.to_nat (da_length d))) as Hs.
  { unfold share, lens. by rewrite lookup_fmap, Hd. }
  unfold quicrq_datagram_handle_repeat. destruct conn.
  - destruct (repeat_loop_shares qr now (S (S (Z.to_nat (da_length d)))) c k d data (da_length d) Hnow Hq Hd
      eq_refl Hlen ltac:(lia)) as (c' & ret & news & m & E & Hq' & He & Hm & Hsame & Hle).
    exists c', ret, news. split_and!; try done; first [lia | by eexists].
  - exists c, (-1), []. rewrite app_nil_r. split_and!; try done; first [cbn; lia | apply lens_is_Some; by eexists].
Qed.

Lemma extra_loop_drains qr conn now fuel c next : is_time now -> queue_ok c ->
  (shares c (ak_extra c) < fuel)%nat ->
  exists c' t, extra_repeat_loop fuel qr conn c next now = Some (c', t) /\ drained now t c' /\
    (t <= next \/ t <= now).
Proof.
  intros Hnow. revert c next. induction fuel as [| fuel IH]; [lia |]. intros c next Hq Hfuel.
  pose proof Hq as [[Ht [Hnd Hel _]] Hcov _]. cbn [extra_repeat_loop].
  destruct (ak_extra c) as [| k extra] eqn:Ex.
  { exists c, next. split_and!; [done | split; [done | by rewrite Ex] | left; lia]. }
  destruct (proj1 (Hel k) ltac:(left)) as (d & Hd & Hdata). rewrite Hd. cbn [mbind option_bind].
  destruct (Z.leb_spec (da_extra_repeat_time d) now) as [Hdue | Hdue]; cycle 1.
  { exists c. eexists. split; [reflexivity |].
    split; [split; [done | rewrite Ex; exists d] |]; destruct (Z.ltb_spec (da_extra_repeat_time d) next);
      split_and?; try done; try lia; left; lia. }
  destruct (da_extra_data d) as [data |] eqn:Ed; [| done]. cbn [mbind option_bind].
  destruct (handle_repeat_shares qr conn now c k d data Hnow Hq Hd (Hcov k d data Hd Ed)) as
    (c1 & ret & news & -> & Hq1 & He1 & [d1 Hd1]%lens_is_Some & Hsame & Hle).
  cbn [mbind option_bind].
  destruct (queue_ok_dequeue c1 k d1 Hq1 Hd1) as (c2 & -> & Hq2 & Hl2 & Hf). cbn [mbind option_bind].
  rewrite shares_cons in Hfuel.
  assert (forall l, (forall x, x ∈ l -> x <> k /\ is_Some (ak_states c !! x)) -> shares c2 l = shares c l) as Hold.
  { intros l Hin. apply shares_same. intros x Hx. rewrite Hl2. destruct (Hin x Hx).
    apply Hsame; [done | by apply lens_is_Some]. }
  assert (da_extra_data d1 <> None) as Hd1data.
  { assert (k ∈ ak_extra c1) as Hin by (rewrite He1, Ex; left).
    apply (extra_elem c1 (proj2 (qo_ack _ Hq1))) in Hin as (d2 & Hd2 & ?). congruence. }
  assert (shares c2 (ak_extra c2) < fuel)%nat as Hless.
  { rewrite (Hf Hd1data), He1, Ex. cbn [app List.filter]. rewrite bool_decide_true by done. cbn [negb].
    rewrite List.filter_app, shares_app. pose proof (shares_filter c2 (fun x => negb (bool_decide (x = k))) news).
    assert (shares c2 news = shares c1 news) as E2.
    { apply shares_same. intros x _. by rewrite Hl2. }
    rewrite Hold; [pose proof (shares_filter c (fun x => negb (bool_decide (x = k))) extra); lia |].
    intros x [Hx Hb]%elem_of_filter_bool. b2p. split; [by apply bool_decide_eq_false in Hb |].
    destruct (proj1 (Hel x) ltac:(by right)) as (dx & Hdx & _). by eexists. }
  destruct (IH c2 now Hq2 Hless) as (c' & t & -> & Hdr & Ht'). exists c', t. split_and!; [done | done |].
  right. lia.
Qed.

(** What the drain of a stream, of the streams of a connection and of all
    connections have in common. *)
Lemma drained_le now t t' c : drained now t c -> t' <= t \/ t' <= now -> drained now t' c.
Proof.
  intros [Hq Hh] Ht. split; [done |]. destruct (ak_extra c); [done |].
  destruct Hh as (d & ? & ? & ?). exists d. split_and!; [done | done | lia].
Qed.

Lemma extra_streams_drain qr conn now cs next : is_time now -> Forall queue_ok cs ->
  exists cs' t, extra_streams qr conn cs next now = Some (cs', t) /\ Forall (drained now t) cs' /\
    length cs' = length cs /\ (t <= next \/ t <= now).
Proof.
  intros Hnow Hcs. revert next. induction Hcs as [| c cs Hc Hcs IH]; intros next.
  { exists [], next. split_and!; [done | done | done | left; lia]. }
  cbn [extra_streams].
  destruct (extra_loop_drains qr conn now (extra_fuel c) c next Hnow Hc) as (c1 & t1 & -> & Hd1 & Ht1).
  { rewrite extra_fuel_shares. lia. }
  cbn [mbind option_bind]. destruct (IH t1) as (cs1 & t2 & -> & Hd2 & Hl & Ht2). cbn [mbind option_bind].
  exists (c1 :: cs1), t2. split_and!; [done | | cbn; lia | lia].
  constructor; [by eapply drained_le | done].
Qed.

(** [C15]: the processing of the extra repeats always ends, without a fault: in
    the contexts whose queued copies cover their records, none of which is
    below the horizon, for any number of connections and streams, the loop
    takes the records of every queue, from its head, up to a record that is not
    due (a record that is due may wait behind it, see Example [due_behind_head]),
    whatever the limits of the datagrams, the splits that they cause and the allocations that fail,
    although each split may queue a new record that is due at once; it keeps
    the connections, their streams and the invariants of the queues, and the
    time of the next call that it returns is not after the time of any record
    that is still at the head of a queue. *)
Theorem extra_repeat_terminates qr cnxs now :
  is_time now -> Forall (fun cnx => Forall queue_ok (snd cnx)) cnxs ->
  exists cnxs' t, quicrq_handle_extra_repeat qr cnxs now = Some (cnxs', t) /\
    Forall2 (fun cnx cnx' => fst cnx' = fst cnx /\ length (snd cnx') = length (snd cnx) /\
               Forall (drained now t) (snd cnx')) cnxs cnxs'.
Proof.
  intros Hnow Hall. unfold quicrq_handle_extra_repeat.
  cut (forall next, exists cnxs' t, extra_connections qr cnxs next now = Some (cnxs', t) /\
    (t <= next \/ t <= now) /\
    Forall2 (fun cnx cnx' => fst cnx' = fst cnx /\ length (snd cnx') = length (snd cnx) /\
               Forall (drained now t) (snd cnx')) cnxs cnxs').
  { intros H. destruct (H UINT64_MAX) as (cnxs' & t & ? & _ & ?). eauto. }
  induction Hall as [| [conn cs] cnxs Hcs Hall IH]; intros next.
  { exists [], next. split_and!; [done | left; lia | done]. }
  cbn [extra_connections].
  destruct (extra_streams_drain qr conn now cs next Hnow Hcs) as (cs1 & t1 & -> & Hd1 & Hl1 & Ht1).
  cbn [mbind option_bind]. destruct (IH t1) as (cnxs' & t & -> & Ht & Hd). cbn [mbind option_bind].
  exists ((conn, cs1) :: cnxs'), t. split_and!; [done | lia |]. constructor; [| done].
  split_and!; [done | done |]. eapply Forall_impl; [exact Hd1 |]. intros c Hc. by eapply drained_le.
Qed.
End extra.

(** A fragment that is queued when it is sent, and split when it is repeated:
    the second part is queued, and due, in turn. *)
Import AckDemo.
Module ExtraDemo.
Definition delayed : extra_settings :=
  quicrq_set_extra_repeat_delay (quicrq_set_extra_repeat settings 0 1) 100.
Definition queued_run :=
  quicrq_datagram_ack_init delayed ctx0 0 0 0 128 0 fragment 1300 30 1300 1000.
Definition queued_ctx : quicrq_datagram_ack_ctx_t :=
  match queued_run with Some (c, _, _) => c | None => ctx0 end.
Lemma queued_run_eq : queued_run = Some (queued_ctx, 0, Some (0, 0, 0)).
Proof. unfold queued_ctx. run. Qed.

Lemma queued_ok : queue_ok queued_ctx.
Proof.
  assert (horizon_unset queued_ctx) as Hunset by (vm_compute; split_and!; reflexivity).
  split.
  - apply (ho_ack _ ([] ++ [((0, 0, 0), blen fragment)])).
    refine (ack_step_history delayed true world0 {| aw_ctx := queued_ctx; aw_sent := _ |} eq_refl _ _);
      [| by apply history_init].
    apply (step_send delayed true ctx0 [] 0 0 0 128 0 fragment 30 1300 1000 queued_ctx (Some (0, 0, 0)));
      [done | done | lia | vm_compute; reflexivity | unfold props_ok, is_id; u64_lia | | exact queued_run_eq].
    intros a m H. by apply elem_of_nil in H.
  - assert (covered ctx0) as H0 by (intros k d data; cbn; by rewrite lookup_empty).
    pose proof queued_run_eq as E. apply ack_init_queues in E as [(_ & _ & Hc) _]; [by apply Hc | lia].
  - intros k _ [Hs _]. by apply (horizon_excl queued_ctx).
Qed.

Definition repeated := quicrq_handle_extra_repeat delayed [(true, [queued_ctx])] 2000.
Example repeated_twice :
  (fun r => map (fun cnx => map (fun c => (length (ak_queued c), ak_extra c)) (snd cnx)) (fst r)) <$> repeated
  = Some [[(3%nat, [])]].
Proof. vm_compute. reflexivity. Qed.

(** The queue is not ordered by time: the second part of a split fragment,
    which is due, is queued behind a record that is not, and waits for it. *)
Definition later : extra_settings :=
  quicrq_set_extra_repeat_delay (quicrq_set_extra_repeat settings 0 1) 10000.
Definition two_queued_ctx : quicrq_datagram_ack_ctx_t :=
  match (r ← quicrq_datagram_ack_init later ctx0 0 0 0 128 0 fragment 1300 30 1300 1000;
         quicrq_datagram_ack_init later r.1.1 0 1 0 128 0 [1; 2; 3] 3 30 3 2000)
  with Some (c, _, _) => c | None => ctx0 end.
Definition queue_times (c : quicrq_datagram_ack_ctx_t) : list (akey * option Z) :=
  map (fun k => (k, da_extra_repeat_time <$> ak_states c !! k)) (ak_extra c).
Example due_behind_head :
  queue_times two_queued_ctx = [((0, 0, 0), Some 11000); ((0, 1, 0), Some 12000)] /\
  (fun r => map (fun cnx => map queue_times (snd cnx)) (fst r)) <$>
    quicrq_handle_extra_repeat later [(true, [two_queued_ctx])] 11500 =
  Some [[[((0, 1, 0), Some 12000); ((0, 0, 1191), Some 11000)]]].
Proof. split; vm_compute; reflexivity. Qed.
End ExtraDemo.
Import ExtraDemo.

Lemma extra_repeat_terminates_witness : exists cnxs' t,
  quicrq_handle_extra_repeat delayed [(true, [queued_ctx])] 2000 = Some (cnxs', t).
Proof.
  destruct (extra_repeat_terminates delayed [(true, [queued_ctx])] 2000) as (cnxs' & t & E & _).
  - by unfold is_time.
  - apply Forall_singleton. cbn. apply list.Forall_singleton. exact queued_ok.
  - exists cnxs', t. exact E.
Defined.
