(* ===== verification/MsgBuffer.v ===== *)
(** * lib/quicrq.c: message buffers

    Control messages travel on streams, each preceded by its length on two
    bytes.  A [quicrq_message_buffer_t] accumulates a message from the pieces
    that the transport delivers, or feeds one to the transport piece by piece.

    [mb_buffer] holds the bytes written to the buffer so far, [mb_buffer_alloc]
    its capacity.  [None] stands for undefined behaviour: a copy outside of
    the buffer. *)

From S2P Require Import Prelude.

Record quicrq_message_buffer_t := {
  mb_nb_bytes_read : Z;
  mb_message_size : Z;
  mb_buffer_alloc : Z;
  mb_buffer : list Z;
}.

(** [memset(msg_buffer, 0, ...)]. *)
Definition msg_buffer_zero : quicrq_message_buffer_t :=
  {| mb_nb_bytes_read := 0; mb_message_size := 0; mb_buffer_alloc := 0; mb_buffer := [] |}.

(** Field updates. *)
Definition mb_set_size mb nb size : quicrq_message_buffer_t :=
  {| mb_nb_bytes_read := nb; mb_message_size := size; mb_buffer_alloc := mb_buffer_alloc mb;
     mb_buffer := mb_buffer mb |}.
Definition mb_set_buffer mb alloc buffer : quicrq_message_buffer_t :=
  {| mb_nb_bytes_read := mb_nb_bytes_read mb; mb_message_size := mb_message_size mb;
     mb_buffer_alloc := alloc; mb_buffer := buffer |}.

(** [memcpy(buffer + offset, data, blen data)]. *)
Definition mb_write mb (offset : Z) (data : list Z) : option quicrq_message_buffer_t :=
  if (offset <=? blen (mb_buffer mb)) && (offset + blen data <=? mb_buffer_alloc mb)
  then Some (mb_set_buffer mb (mb_buffer_alloc mb)
               (ztake offset (mb_buffer mb) ++ data ++ zdrop (offset + blen data) (mb_buffer mb)))
  else None.

(** Whether [picoquic_provide_stream_data_buffer] gives a buffer of that
    length, for the given fin and active marks. *)
Class PicoStream := picoquic_provide_stream_data_buffer : Z -> bool -> bool -> bool.

Section buffers.
Context {Al : Allocator} {PS : PicoStream}.
Implicit Types mb : quicrq_message_buffer_t.

Definition quicrq_msg_buffer_alloc mb (space bytes_stored : Z) : quicrq_message_buffer_t * Z :=
  if mb_buffer_alloc mb <? bytes_stored then (mb, -1)
  else if mb_buffer_alloc mb <? space then
    if malloc_ok space then
      let copied := if (0 <? bytes_stored) && (bytes_stored <=? space)
                    then ztake bytes_stored (mb_buffer mb) else [] in
      (mb_set_buffer mb space copied, 0)
    else (mb, -1)
  else (mb, 0).

(** The two bytes of the length. *)
Fixpoint store_length mb (bytes : list Z) : quicrq_message_buffer_t * list Z :=
  match bytes with
  | b :: bytes' =>
      if mb_nb_bytes_read mb <? 2 then
        store_length (mb_set_size mb (mb_nb_bytes_read mb + 1)
                        (u64 (Z.shiftl (mb_message_size mb) 8) +64 b)) bytes'
      else (mb, bytes)
  | [] => (mb, bytes)
  end.

(** The result: the buffer, the bytes from the returned pointer on ([None]
    for [NULL]) and [*is_finished]. *)
Definition quicrq_msg_buffer_store (bytes : list Z) mb
  : option (quicrq_message_buffer_t * option (list Z) * bool) :=
  let '(mb, bytes) := store_length mb bytes in
  if 2 <=? mb_nb_bytes_read mb then
    let bytes_stored := mb_nb_bytes_read mb -64 2 in
    let required := mb_message_size mb -64 bytes_stored in
    if 0 <? required then
      let '(mb, ret) := quicrq_msg_buffer_alloc mb (mb_message_size mb) bytes_stored in
      if negb (ret =? 0) then Some (mb, None, false)
      else
        let '(length, is_finished) :=
          if required <=? blen bytes then (required, true) else (blen bytes, false) in
        mb ← mb_write mb bytes_stored (ztake length bytes);
        Some (mb_set_size mb (mb_nb_bytes_read mb + length) (mb_message_size mb),
              Some (zdrop length bytes), is_finished)
    else Some (mb, Some bytes, true)
  else Some (mb, Some bytes, false).

Definition quicrq_msg_buffer_reset mb : quicrq_message_buffer_t := mb_set_size mb 0 0.

Definition quicrq_msg_buffer_release mb : quicrq_message_buffer_t := msg_buffer_zero.

(** The two bytes of the length fed to the transport: what is written, and
    the new [nb_bytes_read]. *)
Fixpoint feed_length (fuel : nat) (total_size nb available : Z) : list Z * Z :=
  match fuel with
  | O => ([], nb)
  | S fuel' =>
      if (nb <? 2) && (0 <? available) then
        let b := if nb =? 0 then Z.land (Z.shiftr total_size 8) 255 else Z.land total_size 255 in
        let '(bytes, nb) := feed_length fuel' total_size (nb + 1) (available - 1) in
        (b :: bytes, nb)
      else ([], nb)
  end.

(** The result: the buffer, [ret] and what is written in the stream: the
    bytes and the active mark ([None] if there is nothing to send or no
    buffer is provided). *)
Definition quicrq_msg_buffer_prepare_to_send_message mb (space : Z) (more_to_send : bool)
  : option (quicrq_message_buffer_t * Z * option (list Z * bool)) :=
  let total_size := mb_message_size mb in
  let total_to_send := 2 +64 total_size in
  if mb_nb_bytes_read mb <? total_to_send then
    let available := total_to_send -64 mb_nb_bytes_read mb in
    let '(more_to_send, available) :=
      if space <? available then (true, space) else (more_to_send, available) in
    let done mb := if total_to_send <=? mb_nb_bytes_read mb then mb_set_size mb 0 0 else mb in
    if picoquic_provide_stream_data_buffer available false more_to_send then
      let '(header, nb) := feed_length 2 total_size (mb_nb_bytes_read mb) available in
      let available := available - blen header in
      if (0 <? available) && (nb <? mb_message_size mb +64 2) then
        let offset := nb -64 2 in
        if blen (mb_buffer mb) <? offset + available then None
        else
          Some (done (mb_set_size mb (nb + available) total_size), 0,
                Some (header ++ slice (mb_buffer mb) offset available, more_to_send))
      else Some (done (mb_set_size mb nb total_size), 0, Some (header, more_to_send))
    else Some (done mb, -1, None)
  else Some (mb, 0, None).

(** ** Receiving a stream of messages

    The loop that the receivers run on the bytes of each delivery: [handle]
    processes a complete message and returns [ret]. *)
Section receive.
Context {St : Type} (handle : list Z -> St -> St * Z).

Fixpoint receive_loop (fuel : nat) (s : St) mb (bytes : list Z)
  : option (St * quicrq_message_buffer_t * Z) :=
  match fuel with
  | O => None
  | S fuel' =>
      match bytes with
      | [] => Some (s, mb, 0)
      | _ =>
          '(mb, next_bytes, is_finished) ← quicrq_msg_buffer_store bytes mb;
          match next_bytes with
          | None => Some (s, mb, -1)
          | Some bytes =>
              if is_finished : bool then
                let '(s, ret) := handle (ztake (mb_message_size mb) (mb_buffer mb)) s in
                let mb := quicrq_msg_buffer_reset mb in
                if ret =? 0 then receive_loop fuel' s mb bytes else Some (s, mb, ret)
              else receive_loop fuel' s mb bytes
          end
      end
  end.

(** Each turn reads a byte at least. *)
Definition receive_bytes (s : St) mb (bytes : list Z) :=
  receive_loop (S (length bytes)) s mb bytes.
End receive.

End buffers.
