(* ===== verification/MsgBufferTheorems.v ===== *)
(** * lib/quicrq.c: what the message buffers guarantee

    The reference is a parser of the whole byte stream, [parse_frame]; the
    code sees the stream in pieces and keeps a partial message in its buffer. *)

From S2P Require Import Prelude MsgBuffer.

(** A message as it travels: its length on two bytes, and its bytes. *)
Definition frame (m : list Z) : list Z :=
  [Z.shiftr (blen m) 8; Z.land (blen m) 255] ++ m.

(** The first message of a stream, and what follows it. *)
Definition parse_frame (l : list Z) : option (list Z * list Z) :=
  match l with
  | b1 :: b2 :: data =>
      if b1 * 256 + b2 <=? blen data
      then Some (ztake (b1 * 256 + b2) data, zdrop (b1 * 256 + b2) data) else None
  | _ => None
  end.

Definition is_byte (b : Z) : Prop := 0 <= b < 256.

(** ** The reference receiver: the stream is parsed message by message, up to
    an incomplete one or to the first message whose handler fails *)
Section reference.
Context {St : Type} (handle : list Z -> St -> St * Z).

Fixpoint handle_frames (fuel : nat) (s : St) (l : list Z) : St * list Z * Z :=
  match fuel, parse_frame l with
  | S fuel', Some (m, rest) =>
      let '(s, ret) := handle m s in
      if ret =? 0 then handle_frames fuel' s rest else (s, [], ret)
  | _, _ => (s, l, 0)
  end.

(** Every message takes two bytes at least. *)
Definition handle_stream (s : St) (l : list Z) : St * list Z * Z :=
  handle_frames (length l) s l.
End reference.

(** The buffer holds [acc], the beginning of a message. *)
Definition mb_holds (mb : quicrq_message_buffer_t) (acc : list Z) : Prop :=
  mb_nb_bytes_read mb = blen acc /\
  blen (mb_buffer mb) <= mb_buffer_alloc mb /\
  match acc with
  | [] => mb_message_size mb = 0
  | [b] => mb_message_size mb = b
  | b1 :: b2 :: data =>
      mb_message_size mb = b1 * 256 + b2 /\ blen data < b1 * 256 + b2 /\
      ztake (blen data) (mb_buffer mb) = data /\ blen data <= blen (mb_buffer mb)
  end.

Lemma mb_holds_zero : mb_holds msg_buffer_zero [].
Proof. done. Qed.

Lemma mb_holds_reset mb : blen (mb_buffer mb) <= mb_buffer_alloc mb ->
  mb_holds (quicrq_msg_buffer_reset mb) [].
Proof. done. Qed.

(** ** Parsing *)

Lemma frame_parse m rest : blen m < 65536 -> parse_frame (frame m ++ rest) = Some (m, rest).
Proof.
  intros Hm. pose proof (blen_nonneg m). unfold frame, parse_frame. cbn [app].
  assert (Z.shiftr (blen m) 8 * 256 + Z.land (blen m) 255 = blen m) as ->.
  { rewrite Z.shiftr_div_pow2 by lia. change 255 with (Z.ones 8).
    rewrite Z.land_ones by lia. change (2 ^ 8) with 256.
    pose proof (Z.div_mod (blen m) 256). lia. }
  rewrite blen_app. pose proof (blen_nonneg rest).
  rewrite (proj2 (Z.leb_le _ _)) by lia. by rewrite ztake_app, zdrop_app.
Qed.

Lemma parse_frame_length l m rest : parse_frame l = Some (m, rest) ->
  (length rest < length l)%nat.
Proof.
  destruct l as [| b1 [| b2 data]]; cbn [parse_frame]; [done .. |]. dmatch; [| done].
  intros [= _ <-]. unfold zdrop. rewrite length_drop. cbn. lia.
Qed.

Lemma handle_frames_fuel {St} (h : list Z -> St -> St * Z) f1 f2 s l :
  (length l <= f1)%nat -> (length l <= f2)%nat ->
  handle_frames h f1 s l = handle_frames h f2 s l.
Proof.
  revert f2 s l. induction f1 as [| f1 IH]; intros [| f2] s l H1 H2.
  - done.
  - destruct l; [done | cbn in H1; lia].
  - destruct l; [done | cbn in H2; lia].
  - cbn [handle_frames]. destruct (parse_frame l) as [[m rest] |] eqn:E; [| done].
    apply parse_frame_length in E. destruct (h m s) as [s' ret].
    destruct (ret =? 0); [| done]. apply IH; lia.
Qed.

Lemma handle_stream_step {St} (h : list Z -> St -> St * Z) s l m rest s' :
  parse_frame l = Some (m, rest) -> h m s = (s', 0) ->
  handle_stream h s l = handle_stream h s' rest.
Proof.
  intros E Hh. unfold handle_stream. pose proof (parse_frame_length _ _ _ E) as Hl.
  destruct (length l) as [| n] eqn:El; [lia |]. cbn [handle_frames]. rewrite E, Hh. cbn [Z.eqb].
  apply handle_frames_fuel; lia.
Qed.

Lemma handle_stream_fails {St} (h : list Z -> St -> St * Z) s l m rest s' ret :
  parse_frame l = Some (m, rest) -> h m s = (s', ret) -> ret <> 0 ->
  handle_stream h s l = (s', [], ret).
Proof.
  intros E Hh Hr. unfold handle_stream. pose proof (parse_frame_length _ _ _ E) as Hl.
  destruct (length l) as [| n] eqn:El; [lia |]. cbn [handle_frames]. rewrite E, Hh.
  by rewrite (proj2 (Z.eqb_neq _ _)).
Qed.

Lemma handle_stream_none {St} (h : list Z -> St -> St * Z) s l :
  parse_frame l = None -> handle_stream h s l = (s, l, 0).
Proof. unfold handle_stream. intros E. destruct (length l); cbn; [done | by rewrite E]. Qed.

Lemma parse_frame_app l k m rest :
  parse_frame l = Some (m, rest) -> parse_frame (l ++ k) = Some (m, rest ++ k).
Proof.
  destruct l as [| b1 [| b2 data]]; cbn [parse_frame app]; [done .. |].
  destruct (Z.leb_spec (b1 * 256 + b2) (blen data)) as [Hle |]; [| done]. intros [= <- <-].
  rewrite blen_app. pose proof (blen_nonneg k). rewrite (proj2 (Z.leb_le _ _)) by lia.
  unfold ztake, zdrop. unfold blen in *. by rewrite take_app_le, drop_app_le by lia.
Qed.

(** A message that was not complete takes a part of what follows. *)
Lemma parse_frame_shorter acc bytes m rest :
  Forall is_byte acc -> Forall is_byte bytes ->
  parse_frame acc = None -> parse_frame (acc ++ bytes) = Some (m, rest) ->
  (length rest < length bytes)%nat.
Proof.
  intros Ha Hb. destruct acc as [| b1 [| b2 data]]; cbn [parse_frame app].
  - intros _ E. by apply parse_frame_length in E.
  - intros _. destruct bytes as [| b2 data]; [done |]. dmatch; [| done]. intros [= _ <-].
    unfold zdrop. rewrite length_drop. cbn. lia.
  - destruct (Z.leb_spec (b1 * 256 + b2) (blen data)); [done |]. intros _. dmatch; [| done].
    intros [= _ <-]. b2p. rewrite blen_app in *. unfold zdrop, blen in *.
    rewrite length_drop, length_app. lia.
Qed.

(** The reference does not depend on how the stream is cut. *)
Lemma handle_stream_app {St} (h : list Z -> St -> St * Z) s l k :
  handle_stream h s (l ++ k) =
  let '(s', pending, ret) := handle_stream h s l in
  if ret =? 0 then handle_stream h s' (pending ++ k) else (s', [], ret).
Proof.
  remember (length l) as n eqn:Hn. revert s l Hn.
  induction (lt_wf n) as [n _ IH]. intros s l ->.
  destruct (parse_frame l) as [[m rest] |] eqn:E.
  - pose proof (parse_frame_length _ _ _ E) as Hl.
    pose proof (parse_frame_app _ k _ _ E) as E'.
    destruct (h m s) as [s' ret] eqn:Hh. destruct (Z.eq_dec ret 0) as [-> | Hr].
    + rewrite (handle_stream_step _ _ _ _ _ _ E Hh), (handle_stream_step _ _ _ _ _ _ E' Hh).
      by eapply IH.
    + rewrite (handle_stream_fails _ _ _ _ _ _ _ E Hh Hr),
        (handle_stream_fails _ _ _ _ _ _ _ E' Hh Hr).
      by rewrite (proj2 (Z.eqb_neq _ _)).
  - by rewrite (handle_stream_none h s l E).
Qed.

Lemma mb_holds_incomplete mb acc : mb_holds mb acc -> parse_frame acc = None.
Proof.
  intros (_ & _ & H). destruct acc as [| b1 [| b2 data]]; [done | done |]. cbn [parse_frame].
  by rewrite (proj2 (Z.leb_gt _ _)) by apply H.
Qed.

(** ** Storing *)

Lemma mb_write_exact mb data new :
  blen (mb_buffer mb) <= mb_buffer_alloc mb ->
  ztake (blen data) (mb_buffer mb) = data -> blen data <= blen (mb_buffer mb) ->
  blen data + blen new <= mb_buffer_alloc mb ->
  exists buffer, mb_write mb (blen data) new = Some (mb_set_buffer mb (mb_buffer_alloc mb) buffer)
    /\ ztake (blen data + blen new) buffer = data ++ new
    /\ blen data + blen new <= blen buffer <= mb_buffer_alloc mb.
Proof.
  intros Ha Ht Hd Hn. pose proof (blen_nonneg data). pose proof (blen_nonneg new).
  unfold mb_write.
  rewrite (proj2 (Z.leb_le _ _)), (proj2 (Z.leb_le _ _)) by lia. cbn [andb].
  rewrite Ht. eexists. split; [done |]. rewrite app_assoc, <- blen_app. split.
  - apply ztake_app.
  - rewrite !blen_app. destruct (Z.le_gt_cases (blen data + blen new) (blen (mb_buffer mb))).
    + rewrite blen_zdrop by lia. lia.
    + unfold zdrop. rewrite drop_ge by (unfold blen in *; lia).
      change (blen (@nil Z)) with 0. lia.
Qed.

Section store.
Context {Al : Allocator} {PS : PicoStream}.
Context (Hmalloc : forall n, 0 < n < 65536 -> malloc_ok n = true).

Lemma msg_buffer_alloc_holds mb data n :
  blen (mb_buffer mb) <= mb_buffer_alloc mb ->
  ztake (blen data) (mb_buffer mb) = data -> blen data <= blen (mb_buffer mb) ->
  blen data < n < 65536 ->
  exists mb', quicrq_msg_buffer_alloc mb n (blen data) = (mb', 0)
    /\ mb_nb_bytes_read mb' = mb_nb_bytes_read mb /\ mb_message_size mb' = mb_message_size mb
    /\ blen (mb_buffer mb') <= mb_buffer_alloc mb' /\ n <= mb_buffer_alloc mb'
    /\ ztake (blen data) (mb_buffer mb') = data /\ blen data <= blen (mb_buffer mb').
Proof.
  intros Ha Ht Hd Hn. pose proof (blen_nonneg data) as H0. unfold quicrq_msg_buffer_alloc.
  rewrite (proj2 (Z.ltb_ge _ _)) by lia.
  destruct (Z.ltb_spec (mb_buffer_alloc mb) n) as [Hs | Hs].
  - rewrite Hmalloc by lia. eexists. split; [done |]. cbn.
    destruct (Z.ltb_spec 0 (blen data)); cbn [andb].
    + rewrite (proj2 (Z.leb_le _ _)) by lia. rewrite Ht.
      repeat split; first [done | lia | apply ztake_all].
    + assert (data = []) as -> by (apply blen_zero_nil; lia). cbn in *.
      repeat split; try done; cbn; unfold blen; cbn; lia.
  - exists mb. repeat split; done || lia.
Qed.

(** The bytes that follow the length. *)
Lemma store_data mb bytes b1 b2 data :
  mb_nb_bytes_read mb = 2 + blen data -> blen (mb_buffer mb) <= mb_buffer_alloc mb ->
  is_byte b1 -> is_byte b2 -> mb_message_size mb = b1 * 256 + b2 ->
  blen data < b1 * 256 + b2 ->
  ztake (blen data) (mb_buffer mb) = data -> blen data <= blen (mb_buffer mb) ->
  exists mb' rest fin, quicrq_msg_buffer_store bytes mb = Some (mb', Some rest, fin) /\
    let used := ztake (b1 * 256 + b2 - blen data) bytes in
    let whole := data ++ used in
    bytes = used ++ rest /\ fin = (b1 * 256 + b2 <=? blen whole)
    /\ mb_message_size mb' = b1 * 256 + b2 /\ mb_nb_bytes_read mb' = 2 + blen whole
    /\ blen (mb_buffer mb') <= mb_buffer_alloc mb'
    /\ ztake (blen whole) (mb_buffer mb') = whole /\ blen whole <= blen (mb_buffer mb')
    /\ (fin = false -> rest = []).
Proof.
  intros Hnb Ha H1 H2 Hsz Hlt Ht Hd. unfold is_byte in *.
  pose proof (blen_nonneg data). pose proof (blen_nonneg bytes).
  unfold quicrq_msg_buffer_store.
  assert (store_length mb bytes = (mb, bytes)) as ->.
  { destruct bytes; [done |]. cbn [store_length]. by rewrite (proj2 (Z.ltb_ge _ _)) by lia. }
  rewrite (proj2 (Z.leb_le _ _)) by lia. rewrite Hnb, Hsz.
  rewrite (u64_small (2 + blen data - 2)) by u64_lia.
  replace (2 + blen data - 2) with (blen data) by lia.
  rewrite u64_small by u64_lia. rewrite (proj2 (Z.ltb_lt _ _)) by lia.
  destruct (msg_buffer_alloc_holds mb data (b1 * 256 + b2)) as (mb1 & -> & Enb & Esz & Ha1 & Hn1 & Ht1 & Hd1);
    [done .. | lia |]. cbn [negb Z.eqb].
  set (required := b1 * 256 + b2 - blen data) in *.
  set (len := Z.min required (blen bytes)).
  assert ((if required <=? blen bytes then (required, true) else (blen bytes, false))
          = (len, required <=? blen bytes)) as -> by (unfold len; dmatch; b2p; f_equal; lia).
  assert (ztake len bytes = ztake required bytes) as Hlen.
  { unfold len. destruct (Z.min_spec required (blen bytes)) as [[? ->] | [? ->]]; [done |].
    rewrite ztake_all. by rewrite ztake_ge by lia. }
  rewrite Hlen.
  assert (blen (ztake required bytes) = len) as Hbl.
  { rewrite <- Hlen. apply blen_ztake. lia. }
  destruct (mb_write_exact mb1 data (ztake required bytes)) as (buffer & -> & Hb1 & Hb2); [done .. | lia |].
  cbn [mbind option_bind]. eexists _, _, _. split; [done |]. cbn zeta. rewrite !blen_app, Hbl.
  cbn. split; [| split; [| split; [| split; [| split; [| split; [| split]]]]]].
  - rewrite <- Hlen. by rewrite ztake_zdrop.
  - unfold len. apply Bool.eq_iff_eq_true. rewrite !Z.leb_le. lia.
  - lia.
  - rewrite Enb. lia.
  - lia.
  - rewrite <- Hbl. done.
  - lia.
  - intros Hf%Z.leb_gt. apply blen_zero_nil. rewrite blen_zdrop by lia. lia.
Qed.

(** What one call promises, with [acc] received before it. *)
Definition stored mb acc bytes : Prop :=
  exists mb' rest fin, quicrq_msg_buffer_store bytes mb = Some (mb', Some rest, fin) /\
    (length rest <= length bytes)%nat /\ Forall is_byte rest /\
    blen (mb_buffer mb') <= mb_buffer_alloc mb' /\
    if fin : bool
    then parse_frame (acc ++ bytes) = Some (ztake (mb_message_size mb') (mb_buffer mb'), rest)
    else rest = [] /\ mb_holds mb' (acc ++ bytes) /\ parse_frame (acc ++ bytes) = None.

Lemma store_after_length mb b1 b2 data bytes :
  mb_nb_bytes_read mb = 2 + blen data -> blen (mb_buffer mb) <= mb_buffer_alloc mb ->
  is_byte b1 -> is_byte b2 -> Forall is_byte bytes -> mb_message_size mb = b1 * 256 + b2 ->
  blen data < b1 * 256 + b2 \/ (data = [] /\ b1 * 256 + b2 = 0) ->
  ztake (blen data) (mb_buffer mb) = data -> blen data <= blen (mb_buffer mb) ->
  stored mb (b1 :: b2 :: data) bytes.
Proof.
  intros Hnb Ha H1 H2 Hbytes Hsz Hlt Ht Hd. unfold stored. cbn [app parse_frame].
  destruct Hlt as [Hlt | [-> H0]].
  - destruct (store_data mb bytes b1 b2 data)
      as (mb' & rest & fin & -> & E & -> & Hsz' & Hnb' & Ha' & Ht' & Hd' & Hr); [done .. |].
    cbn zeta in *. eexists _, _, _. split; [done |].
    set (used := ztake _ bytes) in *.
    assert (length rest <= length bytes)%nat by (rewrite E, length_app; lia).
    assert (Forall is_byte rest) by (rewrite E in Hbytes; by apply Forall_app in Hbytes as [_ ?]).
    repeat split; [done .. |].
    rewrite E, app_assoc, (blen_app (data ++ used) rest). pose proof (blen_nonneg rest).
    destruct (Z.leb_spec (b1 * 256 + b2) (blen (data ++ used))) as [Hle | Hgt].
    + rewrite (proj2 (Z.leb_le _ _)) by lia. rewrite Hsz'.
      assert (blen (data ++ used) = b1 * 256 + b2) as Hw.
      { apply Z.le_antisymm; [| done]. rewrite blen_app. unfold used.
        pose proof (blen_nonneg bytes).
        destruct (Z.le_gt_cases (b1 * 256 + b2 - blen data) (blen bytes));
          [rewrite blen_ztake by lia | rewrite ztake_ge by lia]; lia. }
      rewrite <- Hw, Ht', ztake_app, zdrop_app. done.
    + rewrite Hr by done. rewrite app_nil_r, blen_nil.
      rewrite (proj2 (Z.leb_gt _ _)) by lia. split; [done |]. split; [| done].
      unfold mb_holds. rewrite !blen_cons. repeat split; done || lia.
  - rewrite H0 in *. unfold quicrq_msg_buffer_store. rewrite blen_nil in *.
    assert (store_length mb bytes = (mb, bytes)) as ->.
    { destruct bytes; [done |]. cbn [store_length]. by rewrite (proj2 (Z.ltb_ge _ _)) by lia. }
    rewrite Hnb, Hsz. cbn. eexists _, _, _. split; [done |]. repeat split; [done .. |].
    rewrite Hsz. rewrite (proj2 (Z.leb_le _ _)) by apply blen_nonneg. done.
Qed.

Lemma store_byte b bytes mb : mb_nb_bytes_read mb < 2 ->
  quicrq_msg_buffer_store (b :: bytes) mb
  = quicrq_msg_buffer_store bytes
      (mb_set_size mb (mb_nb_bytes_read mb + 1) (u64 (Z.shiftl (mb_message_size mb) 8) +64 b)).
Proof.
  intros H. unfold quicrq_msg_buffer_store. cbn [store_length].
  by rewrite (proj2 (Z.ltb_lt _ _)).
Qed.

Lemma add_length_byte n b : 0 <= n < 256 -> is_byte b -> u64 (Z.shiftl n 8) +64 b = n * 256 + b.
Proof.
  unfold is_byte. intros. rewrite Z.shiftl_mul_pow2 by lia. change (2 ^ 8) with 256.
  rewrite (u64_small (n * 256)) by u64_lia. apply u64_small. u64_lia.
Qed.

(** The second byte of the length is read. *)
Lemma store_length_end mb b1 b2 bytes :
  blen (mb_buffer mb) <= mb_buffer_alloc mb -> is_byte b1 -> is_byte b2 ->
  Forall is_byte bytes -> stored (mb_set_size mb 2 (b1 * 256 + b2)) [b1; b2] bytes.
Proof.
  intros Ha H1 H2 Hb. apply store_after_length; try done.
  - unfold is_byte in *. destruct (Z.eq_dec (b1 * 256 + b2) 0); [by right |].
    left. change (blen (@nil Z)) with 0. lia.
  - apply blen_nonneg.
Qed.

(** One call: what the code keeps, and what the parser of the whole stream
    says. *)
Lemma store_spec mb acc bytes :
  mb_holds mb acc -> Forall is_byte acc -> Forall is_byte bytes -> stored mb acc bytes.
Proof.
  intros (Hnb & Ha & Hacc) Hbacc Hb.
  destruct acc as [| b1 [| b2 data]].
  - destruct bytes as [| b1 [| b2 bytes]].
    + eexists _, _, _. unfold quicrq_msg_buffer_store. cbn [store_length]. rewrite Hnb. done.
    + apply Forall_cons in Hb as [H1 _]. unfold stored. rewrite store_byte by (rewrite Hnb; done).
      rewrite Hnb, Hacc, add_length_byte by done. eexists _, _, _.
      unfold quicrq_msg_buffer_store. cbn. split; [done |]. repeat split; first [done | cbn; lia].
    + apply Forall_cons in Hb as [H1 Hb]. apply Forall_cons in Hb as [H2 Hb]. unfold stored.
      rewrite store_byte by (rewrite Hnb; done).
      rewrite store_byte by (cbn; rewrite Hnb; done). cbn.
      rewrite Hnb, Hacc, (add_length_byte 0 b1), add_length_byte by done.
      destruct (store_length_end mb b1 b2 bytes) as (mb' & rest & fin & E & Hl & Hrest);
        [done .. |].
      exists mb', rest, fin. repeat split; [apply E | cbn; lia | apply Hrest ..].
  - destruct bytes as [| b2 bytes].
    + eexists _, _, _. unfold quicrq_msg_buffer_store. cbn [store_length]. rewrite Hnb. done.
    + apply Forall_cons in Hbacc as [H1 _]. apply Forall_cons in Hb as [H2 Hb]. unfold stored.
      rewrite store_byte by (rewrite Hnb; done).
      rewrite Hnb, Hacc, add_length_byte by done.
      destruct (store_length_end mb b1 b2 bytes) as (mb' & rest & fin & E & Hl & Hrest);
        [done .. |].
      exists mb', rest, fin. repeat split; [apply E | cbn; lia | apply Hrest ..].
  - destruct Hacc as (Hsz & Hlt & Ht & Hd).
    apply Forall_cons in Hbacc as [H1 Hbacc]. apply Forall_cons in Hbacc as [H2 Hbd].
    apply store_after_length; try done; [rewrite Hnb, !blen_cons; lia | by left].
Qed.

(** ** Receiving *)
Section receiving.
Context {St : Type} (handle : list Z -> St -> St * Z).

Lemma receive_loop_refines fuel s mb acc bytes :
  (length bytes < fuel)%nat ->
  mb_holds mb acc -> Forall is_byte acc -> Forall is_byte bytes ->
  exists s' mb' pending ret, handle_stream handle s (acc ++ bytes) = (s', pending, ret) /\
    receive_loop handle fuel s mb bytes = Some (s', mb', ret) /\ mb_holds mb' pending /\
    Forall is_byte pending.
Proof.
  revert s mb acc bytes. induction fuel as [| fuel IH]; intros s mb acc bytes Hf Hh Ha Hb; [lia |].
  pose proof (mb_holds_incomplete _ _ Hh) as Hn. cbn [receive_loop].
  destruct (decide (bytes = [])) as [-> | Hne].
  { rewrite app_nil_r. exists s, mb, acc, 0. by rewrite handle_stream_none by done. }
  match goal with |- context [match bytes with [] => _ | _ :: _ => ?body end] =>
    assert (forall r, match bytes with [] => r | _ :: _ => body end = body) as -> by by destruct bytes
  end.
  assert (0 < length bytes)%nat by (destruct bytes; cbn; [done | lia]).
  destruct (store_spec mb acc bytes Hh Ha Hb) as (mb1 & rest & fin & -> & Hl & Hr & Hal & Hfin).
  cbn [mbind option_bind]. destruct fin.
  - pose proof (parse_frame_shorter _ _ _ _ Ha Hb Hn Hfin) as Hs.
    destruct (handle _ s) as [s1 ret] eqn:Eh. destruct (Z.eqb_spec ret 0) as [-> | Hret].
    + rewrite (handle_stream_step _ _ _ _ _ _ Hfin Eh). apply (IH s1 _ [] rest); [lia | done ..].
    + rewrite (handle_stream_fails _ _ _ _ _ _ _ Hfin Eh Hret). by eexists _, _, _, _.
  - destruct Hfin as (-> & Hh1 & Hp). rewrite handle_stream_none by done.
    destruct fuel; [lia |]. exists s, mb1, (acc ++ bytes), 0. rewrite Forall_app. done.
Qed.

(** The deliveries of the transport, up to the first error. *)
Fixpoint receive_chunks (s : St) mb (chunks : list (list Z))
  : option (St * quicrq_message_buffer_t * Z) :=
  match chunks with
  | [] => Some (s, mb, 0)
  | bytes :: chunks' =>
      '(s, mb, ret) ← receive_bytes handle s mb bytes;
      if ret =? 0 then receive_chunks s mb chunks' else Some (s, mb, ret)
  end.

Lemma receive_chunks_refines s mb acc chunks :
  mb_holds mb acc -> Forall is_byte acc -> Forall (Forall is_byte) chunks ->
  exists s' mb' pending ret, handle_stream handle s (acc ++ concat chunks) = (s', pending, ret) /\
    receive_chunks s mb chunks = Some (s', mb', ret) /\ (ret = 0 -> mb_holds mb' pending).
Proof.
  revert s mb acc. induction chunks as [| bytes chunks IH]; intros s mb acc Hh Ha Hc;
    cbn [receive_chunks concat].
  - rewrite app_nil_r. exists s, mb, acc, 0.
    rewrite handle_stream_none by by apply mb_holds_incomplete in Hh. done.
  - apply Forall_cons in Hc as [Hb Hc].
    destruct (receive_loop_refines (S (length bytes)) s mb acc bytes)
      as (s1 & mb1 & pending & ret & H1 & H2 & H3 & H4); [lia | done .. |].
    unfold receive_bytes. rewrite H2. cbn [mbind option_bind].
    rewrite app_assoc, handle_stream_app, H1. destruct (Z.eqb_spec ret 0) as [-> | Hret].
    + by apply IH.
    + by exists s1, mb1, [], ret.
Qed.
End receiving.
End store.

(** ** Sending *)

(** The bytes of the frame of a message, from [nb] on. *)
Definition mb_sends (mb : quicrq_message_buffer_t) (m : list Z) : Prop :=
  0 <= mb_nb_bytes_read mb < 2 + blen m /\ mb_message_size mb = blen m /\
  ztake (blen m) (mb_buffer mb) = m.

Lemma frame_length m : blen (frame m) = 2 + blen m.
Proof. unfold frame. rewrite blen_app. reflexivity. Qed.

Lemma length_high_byte n : 0 <= n < 65536 -> Z.land (Z.shiftr n 8) 255 = Z.shiftr n 8.
Proof.
  intros. change 255 with (Z.ones 8). rewrite Z.land_ones by lia.
  rewrite Z.shiftr_div_pow2 by lia. apply Z.mod_small. change (2 ^ 8) with 256.
  split; [apply Z.div_pos | apply Z.div_lt_upper_bound]; lia.
Qed.

Lemma feed_length_frame m nb available :
  blen m < 65536 -> 0 <= nb -> 0 <= available -> nb + available <= 2 + blen m ->
  feed_length 2 (blen m) nb available
  = (slice (frame m) nb (Z.min available (2 - nb)), Z.max nb (Z.min 2 (nb + available))).
Proof.
  intros Hm H1 H2 H3. pose proof (blen_nonneg m).
  assert (nb = 0 \/ nb = 1 \/ 2 <= nb) as [-> | [-> | Hn]] by lia; cycle 2.
  - cbn [feed_length]. rewrite (proj2 (Z.ltb_ge _ _)) by lia. cbn [andb].
    unfold slice, ztake. rewrite (Z2Nat.nonpos (Z.min _ _)) by lia. f_equal. lia.
  - cbn [feed_length]. rewrite length_high_byte by lia.
    assert (available = 0 \/ available = 1 \/ 2 <= available) as [-> | [-> | Ha]] by lia;
      [done .. |].
    rewrite (Z.min_r available), (Z.min_l 2), (proj2 (Z.ltb_lt 0 available)),
      (proj2 (Z.ltb_lt 0 (available - 1))) by lia. done.
  - cbn [feed_length]. 
    assert (available = 0 \/ 1 <= available) as [-> | Ha] by lia; [done |].
    rewrite (Z.min_r available), (Z.min_l 2), (proj2 (Z.ltb_lt 0 available)) by lia. done.
Qed.

Lemma slice_frame_data m o l : 0 <= o -> slice (frame m) (2 + o) l = slice m o l.
Proof.
  intros. unfold slice. rewrite <- zdrop_zdrop by lia. by unfold frame; rewrite zdrop_app'.
Qed.

Lemma slice_of_ztake {A} (b : list A) n o l : 0 <= o -> 0 <= l -> o + l <= n ->
  slice (ztake n b) o l = slice b o l.
Proof.
  intros. unfold slice. replace n with (o + (n - o)) by lia. rewrite zdrop_ztake by lia.
  apply ztake_ztake. lia.
Qed.

Section sending.
Context {PS : PicoStream}.
Context (Hprovide : forall n fin active, picoquic_provide_stream_data_buffer n fin active = true).

(** One call sends the next bytes of the frame, as many as there is space
    for; the buffer is reset after the last one. *)
Lemma prepare_message_spec mb m space more :
  0 < blen m < 65536 -> 0 <= space -> mb_sends mb m ->
  let nb := mb_nb_bytes_read mb in
  let n := Z.min space (2 + blen m - nb) in
  exists mb' active, quicrq_msg_buffer_prepare_to_send_message mb space more
    = Some (mb', 0, Some (slice (frame m) nb n, active)) /\
    if nb + n =? 2 + blen m
    then mb_nb_bytes_read mb' = 0 /\ mb_message_size mb' = 0 /\ active = more
    else mb_sends mb' m /\ mb_nb_bytes_read mb' = nb + n /\ active = true.
Proof.
  intros Hm Hs ((H0 & Hnb) & Hsz & Ht) nb n. fold nb in H0, Hnb.
  pose proof (blen_nonneg m).
  assert (blen m <= blen (mb_buffer mb)) as Hb.
  { destruct (Z.le_gt_cases (blen m) (blen (mb_buffer mb))) as [| Hgt]; [done |].
    rewrite ztake_ge in Ht by lia. rewrite Ht in Hgt. lia. }
  unfold quicrq_msg_buffer_prepare_to_send_message. rewrite Hsz. fold nb.
  rewrite (u64_small (2 + blen m)) by u64_lia. rewrite (u64_small (2 + blen m - nb)) by u64_lia.
  rewrite (proj2 (Z.ltb_lt nb _)) by lia.
  assert ((if space <? 2 + blen m - nb then (true, space) else (more, 2 + blen m - nb))
          = ((if nb + n =? 2 + blen m then more else true), n)) as ->.
  { unfold n. destruct (Z.ltb_spec space (2 + blen m - nb)).
    - rewrite (proj2 (Z.eqb_neq _ _)) by lia. f_equal. lia.
    - rewrite (proj2 (Z.eqb_eq _ _)) by lia. f_equal. lia. }
  rewrite Hprovide, feed_length_frame by lia. pose proof (frame_length m).
  set (k := Z.max 0 (Z.min n (2 - nb))).
  assert (slice (frame m) nb (Z.min n (2 - nb)) = slice (frame m) nb k) as ->.
  { unfold k, slice, ztake. f_equal. lia. }
  rewrite blen_slice by lia.
  replace (Z.max nb (Z.min 2 (nb + n))) with (nb + k) by lia.
  rewrite (u64_small (blen m + 2)) by u64_lia.
  destruct (Z.ltb_spec 0 (n - k)) as [Hk | Hk]; cbn [andb].
  - rewrite (proj2 (Z.ltb_lt _ _)) by lia. rewrite (u64_small (nb + k - 2)) by u64_lia.
    rewrite (proj2 (Z.ltb_ge _ _)) by lia.
    assert (slice (mb_buffer mb) (nb + k - 2) (n - k) = slice (frame m) (nb + k) (n - k)) as ->.
    { replace (nb + k) with (2 + (nb + k - 2)) at 2 by lia. rewrite slice_frame_data by lia.
      rewrite <- Ht at 1. by rewrite slice_of_ztake by lia. }
    rewrite slice_app by lia. replace (k + (n - k)) with n by lia.
    replace (nb + k + (n - k)) with (nb + n) by lia. cbn [mb_nb_bytes_read mb_set_size].
    eexists _, _. split; [done |]. destruct (Z.eqb_spec (nb + n) (2 + blen m)).
    + by rewrite (proj2 (Z.leb_le _ _)) by lia.
    + rewrite (proj2 (Z.leb_gt _ _)) by lia. unfold mb_sends. cbn. repeat split; done || lia.
  - replace k with n by lia. cbn [mb_nb_bytes_read mb_set_size].
    eexists _, _. split; [done |]. destruct (Z.eqb_spec (nb + n) (2 + blen m)); [lia |].
    rewrite (proj2 (Z.leb_gt _ _)) by lia. unfold mb_sends. cbn. repeat split; done || lia.
Qed.

(** The calls of the transport, until the message is sent. *)
Fixpoint send_calls (mb : quicrq_message_buffer_t) (spaces : list Z)
  : option (list Z * quicrq_message_buffer_t) :=
  match spaces with
  | [] => Some ([], mb)
  | space :: spaces' =>
      if mb_message_size mb =? 0 then Some ([], mb)
      else
        '(mb, _, out) ← quicrq_msg_buffer_prepare_to_send_message mb space true;
        '(bytes, mb) ← send_calls mb spaces';
        Some (default [] (fst <$> out) ++ bytes, mb)
  end.

Definition total (spaces : list Z) : Z := foldr Z.add 0 spaces.

Lemma total_nonneg spaces : Forall (Z.le 0) spaces -> 0 <= total spaces.
Proof. induction 1; cbn; [lia |]. unfold total in *. lia. Qed.

Lemma send_calls_spec spaces mb m :
  0 < blen m < 65536 -> Forall (Z.le 0) spaces -> mb_sends mb m ->
  exists mb', send_calls mb spaces
    = Some (slice (frame m) (mb_nb_bytes_read mb)
              (Z.min (total spaces) (2 + blen m - mb_nb_bytes_read mb)), mb') /\
    (2 + blen m - mb_nb_bytes_read mb <= total spaces ->
     mb_nb_bytes_read mb' = 0 /\ mb_message_size mb' = 0).
Proof.
  intros Hm Hs. revert mb. induction Hs as [| space spaces Hsp Hs IH]; intros mb Hb.
  - cbn [send_calls]. change (total []) with 0. destruct Hb as (Hnb & _).
    rewrite Z.min_l by lia. exists mb. split; [done | lia].
  - pose proof (total_nonneg _ Hs) as Ht. change (total (space :: spaces)) with (space + total spaces).
    destruct Hb as ((H0 & Hnb) & Hsz & Hbuf). cbn [send_calls].
    rewrite Hsz, (proj2 (Z.eqb_neq _ _)) by lia.
    destruct (prepare_message_spec mb m space true) as (mb1 & active & -> & Hmb1);
      [done .. |]. cbn [mbind option_bind].
    set (nb := mb_nb_bytes_read mb) in *. set (n := Z.min space (2 + blen m - nb)) in *.
    destruct (Z.eqb_spec (nb + n) (2 + blen m)) as [E | E].
    + destruct Hmb1 as (Hnb1 & Hsz1 & _).
      assert (send_calls mb1 spaces = Some ([], mb1)) as ->.
      { destruct spaces; cbn [send_calls]; [done |]. by rewrite Hsz1. }
      cbn [mbind option_bind fmap option_fmap option_map default fst]. exists mb1.
      rewrite app_nil_r. split; [| done].
      replace (Z.min (space + total spaces) (2 + blen m - nb)) with n by lia. done.
    + destruct Hmb1 as (Hmb1 & Hnb1 & _). destruct (IH mb1 Hmb1) as (mb' & -> & Hend).
      cbn [mbind option_bind fmap option_fmap option_map default fst]. exists mb'.
      rewrite Hnb1 in *. split; [| intros; apply Hend; lia].
      unfold id. rewrite slice_app by (pose proof Hmb1 as ((? & ?) & _); lia).
      by replace (n + Z.min (total spaces) (2 + blen m - (nb + n)))
        with (Z.min (space + total spaces) (2 + blen m - nb)) by lia.
Qed.
End sending.

(** ** The theorems *)

(** [C17] Receiving the control stream in pieces is equivalent to parsing the
    whole stream, whatever its bytes, the sizes of the pieces, the handler of
    the messages and the message it fails on: the same messages are handled
    in the same order with the same result, no copy is out of bounds, and the
    loop ends.  What is left of an incomplete message is in the buffer. *)
Theorem receive_any_chunking {Al : Allocator} {St : Type} (handle : list Z -> St -> St * Z)
    (s : St) (chunks : list (list Z)) :
  (forall n, 0 < n < 65536 -> malloc_ok n = true) -> Forall (Forall is_byte) chunks ->
  exists s' mb' pending ret, handle_stream handle s (concat chunks) = (s', pending, ret) /\
    receive_chunks handle s msg_buffer_zero chunks = Some (s', mb', ret) /\
    (ret = 0 -> mb_holds mb' pending).
Proof.
  intros Hm Hc. by apply (receive_chunks_refines Hm handle s msg_buffer_zero []).
Qed.

Lemma handle_stream_frames {St} (handle : list Z -> St -> St * Z) (f : St -> list Z -> St) s ms :
  (forall m s, handle m s = (f s m, 0)) -> Forall (fun m => blen m < 65536) ms ->
  handle_stream handle s (concat (map frame ms)) = (fold_left f ms s, [], 0).
Proof.
  intros Hf Hms. revert s. induction Hms as [| m ms Hm Hms IH]; intros s; [done |].
  cbn [map concat fold_left]. rewrite <- IH.
  eapply handle_stream_step; [by apply frame_parse | apply Hf].
Qed.

(** A message ready to be sent. *)
Definition mb_of_message (m : list Z) : quicrq_message_buffer_t :=
  {| mb_nb_bytes_read := 0; mb_message_size := blen m; mb_buffer_alloc := blen m; mb_buffer := m |}.

Lemma frame_bytes m : blen m < 65536 -> Forall is_byte m -> Forall is_byte (frame m).
Proof.
  intros Hm Hb. pose proof (blen_nonneg m). unfold frame. cbn [app]. unfold is_byte in *.
  repeat constructor; [| | | | done].
  - apply Z.shiftr_nonneg. lia.
  - rewrite Z.shiftr_div_pow2 by lia. apply Z.div_lt_upper_bound; [lia |].
    change (2 ^ 8) with 256. lia.
  - apply Z.land_nonneg. lia.
  - change 255 with (Z.ones 8). rewrite Z.land_ones by lia. by apply Z.mod_pos_bound.
Qed.

(** [C18] Messages sent one after the other, each with whatever space the
    transport gives at each call, and received in whatever pieces the
    transport delivers, are handled whole, in order and exactly once; both
    buffers end empty. *)
Theorem messages_roundtrip {Al : Allocator} {PS : PicoStream} {St : Type}
    (f : St -> list Z -> St) (s : St) (sent : list (list Z * list Z)) (chunks : list (list Z)) :
  (forall n, 0 < n < 65536 -> malloc_ok n = true) ->
  (forall n fin active, picoquic_provide_stream_data_buffer n fin active = true) ->
  Forall (fun '(m, spaces) => 0 < blen m < 65536 /\ Forall is_byte m /\
            Forall (Z.le 0) spaces /\ 2 + blen m <= total spaces) sent ->
  exists outs : list (list Z),
    Forall2 (fun '(m, spaces) bytes => exists mb,
      send_calls (mb_of_message m) spaces = Some (bytes, mb) /\
      mb_nb_bytes_read mb = 0 /\ mb_message_size mb = 0) sent outs /\
    (concat chunks = concat outs ->
     exists mb', receive_chunks (fun m s => (f s m, 0)) s msg_buffer_zero chunks
       = Some (fold_left f (map fst sent) s, mb', 0) /\ mb_holds mb' []).
Proof.
  intros Hmalloc Hprovide Hsent. exists (map frame (map fst sent)). split.
  - clear s. induction Hsent as [| [m spaces] sent (Hm & Hb & Hs & Ht) Hsent IH];
      cbn [map fst]; constructor; [| apply IH].
    destruct (send_calls_spec Hprovide spaces (mb_of_message m) m) as (mb' & E & Hend); [done .. | |].
    { unfold mb_sends. cbn. repeat split; [lia .. | apply ztake_all]. }
    cbn in E, Hend. exists mb'. split; [| apply Hend; lia].
    rewrite E, Z.min_r, Z.sub_0_r by lia. rewrite <- frame_length. by rewrite slice_all.
  - intros Hcat.
    assert (Forall (Forall is_byte) chunks) as Hbytes.
    { apply Forall_concat. rewrite Hcat. apply Forall_concat, Forall_map, Forall_map.
      eapply Forall_impl; [exact Hsent |]. intros [m spaces] (Hm & Hb & _). cbn [fst]. apply frame_bytes; done || lia. }
    destruct (receive_any_chunking (fun m s => (f s m, 0)) s chunks Hmalloc Hbytes)
      as (s' & mb' & pending & ret & E & Hr & Hh).
    rewrite Hcat, (handle_stream_frames _ f) in E; [| done |].
    + injection E as <- <- <-. exists mb'. split; [done | by apply Hh].
    + apply Forall_map. eapply Forall_impl; [exact Hsent |]. intros [m spaces] (Hm & _). cbn. lia.
Qed.

(** ** Witnesses *)
Module MsgDemo.
#[local] Instance malloc_always : Allocator := fun _ => true.
#[local] Instance stream_ready : PicoStream := fun _ _ _ => true.

(** Two messages, sent with little space at a time. *)
Definition sent : list (list Z * list Z) := [([1; 2; 3], [1; 0; 2; 10]); ([4], [3])].
Definition chunks : list (list Z) := [[0]; [3; 1]; []; [2; 3; 0; 1; 4]].
Definition keep (s : list (list Z)) (m : list Z) : list (list Z) := s ++ [m].
(** A handler that refuses the message [4]. *)
Definition refuse (m : list Z) (s : list (list Z)) : list (list Z) * Z :=
  (s ++ [m], if bool_decide (m = [4]) then -1 else 0).

Example outcome :
  receive_chunks (fun m s => (keep s m, 0)) [] msg_buffer_zero chunks
  = Some ([[1; 2; 3]; [4]],
          {| mb_nb_bytes_read := 0; mb_message_size := 0; mb_buffer_alloc := 3;
             mb_buffer := [4; 2; 3] |}, 0).
Proof. reflexivity. Qed.
End MsgDemo.

Lemma receive_any_chunking_witness :
  exists s' mb' pending ret,
    handle_stream MsgDemo.refuse [] (concat MsgDemo.chunks) = (s', pending, ret) /\
    receive_chunks (Al := MsgDemo.malloc_always) MsgDemo.refuse [] msg_buffer_zero MsgDemo.chunks
      = Some (s', mb', ret) /\ (ret = 0 -> mb_holds mb' pending).
Proof.
  apply (receive_any_chunking (Al := MsgDemo.malloc_always) MsgDemo.refuse [] MsgDemo.chunks).
  - done.
  - unfold MsgDemo.chunks, is_byte. repeat constructor; done.
Defined.

Lemma messages_roundtrip_witness :
  exists outs : list (list Z),
    Forall2 (fun '(m, spaces) bytes => exists mb,
      send_calls (PS := MsgDemo.stream_ready) (mb_of_message m) spaces = Some (bytes, mb) /\
      mb_nb_bytes_read mb = 0 /\ mb_message_size mb = 0) MsgDemo.sent outs /\
    (concat MsgDemo.chunks = concat outs ->
     exists mb', receive_chunks (Al := MsgDemo.malloc_always)
         (fun m s => (MsgDemo.keep s m, 0)) [] msg_buffer_zero MsgDemo.chunks
       = Some (fold_left MsgDemo.keep (map fst MsgDemo.sent) [], mb', 0) /\ mb_holds mb' []).
Proof.
  apply (messages_roundtrip (Al := MsgDemo.malloc_always) (PS := MsgDemo.stream_ready)
           MsgDemo.keep [] MsgDemo.sent MsgDemo.chunks).
  - done.
  - done.
  - unfold MsgDemo.sent, is_byte. repeat constructor; done.
Defined.
