(* ===== verification/PublisherContext.v ===== *)
(** * lib/quicrq_fragment.h, lib/quicrq_internal.h: the state of a publisher

    The context of a publisher, that reads a fragment cache for one stream,
    the states of the objects that it sends as datagrams, and the congestion
    state of a connection. *)

From S2P Require Import Prelude Picosplay Fragment.

Inductive quicrq_congestion_control_enum :=
  | quicrq_congestion_control_none
  | quicrq_congestion_control_delay
  | quicrq_congestion_control_group
  | quicrq_congestion_control_group_p.
#[export] Instance congestion_control_eq_dec : EqDecision quicrq_congestion_control_enum.
Proof. solve_decision. Defined.

Record quicrq_cnx_congestion_state_t := {
  cg_has_backlog : bool;
  cg_is_congested : bool;
  cg_max_flags : Z;
  cg_priority_threshold : Z;
  cg_old_priority_threshold : Z;
  cg_congestion_check_time : Z;
}.

(** The connection context is zeroed when it is created. *)
Definition congestion_zero : quicrq_cnx_congestion_state_t := {|
  cg_has_backlog := false; cg_is_congested := false; cg_max_flags := 0;
  cg_priority_threshold := 0; cg_old_priority_threshold := 0; cg_congestion_check_time := 0 |}.

(** The state of an object sent as datagrams.  The states live in a map keyed
    by (group, object), the tree holds the keys. *)
Abbreviation okey := (Z * Z)%type.

Record quicrq_fragment_publisher_object_state_t := {
  po_group_id : Z;
  po_object_id : Z;
  po_nb_objects_previous_group : Z;
  po_object_length : Z;
  po_bytes_sent : Z;
  po_is_dropped : bool;
  po_is_sent : bool;
}.
Definition sizeof_publisher_object : Z := 96.

Definition po_set_sent p  := {| po_group_id := po_group_id p; po_object_id := po_object_id p;
  po_nb_objects_previous_group := po_nb_objects_previous_group p;
  po_object_length := po_object_length p; po_bytes_sent := po_bytes_sent p;
  po_is_dropped := po_is_dropped p; po_is_sent := true |}.
Definition po_document p bytes dropped nb := {| po_group_id := po_group_id p;
  po_object_id := po_object_id p; po_nb_objects_previous_group := nb;
  po_object_length := po_object_length p; po_bytes_sent := bytes; po_is_dropped := dropped;
  po_is_sent := po_is_sent p |}.

Definition quicrq_fragment_publisher_object_node_compare (l r : okey) : Z :=
  let ret := s64 (l.1 - r.1) in
  if ret =? 0 then s64 (l.2 - r.2) else ret.
#[global] Typeclasses Opaque quicrq_fragment_publisher_object_node_compare.

Section context.
Context `{Sp : Splay quicrq_cached_fragment_t quicrq_fragment_cache_node_compare}.
Context {So : Splay okey quicrq_fragment_publisher_object_node_compare}.

(** The four flags of the structure that no function uses are left out; the
    pointers to the stream and to the cache are arguments of the functions. *)
Record quicrq_fragment_publisher_context_t := {
  pc_current_group_id : Z;
  pc_current_object_id : Z;
  pc_current_offset : Z;
  pc_congestion_control_mode : quicrq_congestion_control_enum;
  pc_end_of_congestion_group_id : Z;
  pc_is_current_object_skipped : bool;
  pc_has_backlog : bool;
  pc_current_fragment : option quicrq_cached_fragment_t;
  pc_length_sent : Z;
  pc_is_current_fragment_sent : bool;
  pc_tree : splay quicrq_fragment_publisher_object_node_compare;
  pc_objects : gmap okey quicrq_fragment_publisher_object_state_t;
}.

(** Field updates. *)
Definition pc_set_current m g o off := {| pc_current_group_id := g; pc_current_object_id := o;
  pc_current_offset := off; pc_congestion_control_mode := pc_congestion_control_mode m;
  pc_end_of_congestion_group_id := pc_end_of_congestion_group_id m;
  pc_is_current_object_skipped := pc_is_current_object_skipped m;
  pc_has_backlog := pc_has_backlog m; pc_current_fragment := pc_current_fragment m;
  pc_length_sent := pc_length_sent m;
  pc_is_current_fragment_sent := pc_is_current_fragment_sent m; pc_tree := pc_tree m;
  pc_objects := pc_objects m |}.
Definition pc_set_end_of_congestion m g := {| pc_current_group_id := pc_current_group_id m;
  pc_current_object_id := pc_current_object_id m; pc_current_offset := pc_current_offset m;
  pc_congestion_control_mode := pc_congestion_control_mode m; pc_end_of_congestion_group_id := g;
  pc_is_current_object_skipped := pc_is_current_object_skipped m;
  pc_has_backlog := pc_has_backlog m; pc_current_fragment := pc_current_fragment m;
  pc_length_sent := pc_length_sent m;
  pc_is_current_fragment_sent := pc_is_current_fragment_sent m; pc_tree := pc_tree m;
  pc_objects := pc_objects m |}.
Definition pc_set_skipped m b := {| pc_current_group_id := pc_current_group_id m;
  pc_current_object_id := pc_current_object_id m; pc_current_offset := pc_current_offset m;
  pc_congestion_control_mode := pc_congestion_control_mode m;
  pc_end_of_congestion_group_id := pc_end_of_congestion_group_id m;
  pc_is_current_object_skipped := b; pc_has_backlog := pc_has_backlog m;
  pc_current_fragment := pc_current_fragment m; pc_length_sent := pc_length_sent m;
  pc_is_current_fragment_sent := pc_is_current_fragment_sent m; pc_tree := pc_tree m;
  pc_objects := pc_objects m |}.
Definition pc_set_backlog m b := {| pc_current_group_id := pc_current_group_id m;
  pc_current_object_id := pc_current_object_id m; pc_current_offset := pc_current_offset m;
  pc_congestion_control_mode := pc_congestion_control_mode m;
  pc_end_of_congestion_group_id := pc_end_of_congestion_group_id m;
  pc_is_current_object_skipped := pc_is_current_object_skipped m; pc_has_backlog := b;
  pc_current_fragment := pc_current_fragment m; pc_length_sent := pc_length_sent m;
  pc_is_current_fragment_sent := pc_is_current_fragment_sent m; pc_tree := pc_tree m;
  pc_objects := pc_objects m |}.
Definition pc_set_fragment m f := {| pc_current_group_id := pc_current_group_id m;
  pc_current_object_id := pc_current_object_id m; pc_current_offset := pc_current_offset m;
  pc_congestion_control_mode := pc_congestion_control_mode m;
  pc_end_of_congestion_group_id := pc_end_of_congestion_group_id m;
  pc_is_current_object_skipped := pc_is_current_object_skipped m;
  pc_has_backlog := pc_has_backlog m; pc_current_fragment := f;
  pc_length_sent := pc_length_sent m;
  pc_is_current_fragment_sent := pc_is_current_fragment_sent m; pc_tree := pc_tree m;
  pc_objects := pc_objects m |}.
Definition pc_set_sent m n b := {| pc_current_group_id := pc_current_group_id m;
  pc_current_object_id := pc_current_object_id m; pc_current_offset := pc_current_offset m;
  pc_congestion_control_mode := pc_congestion_control_mode m;
  pc_end_of_congestion_group_id := pc_end_of_congestion_group_id m;
  pc_is_current_object_skipped := pc_is_current_object_skipped m;
  pc_has_backlog := pc_has_backlog m; pc_current_fragment := pc_current_fragment m;
  pc_length_sent := n; pc_is_current_fragment_sent := b; pc_tree := pc_tree m;
  pc_objects := pc_objects m |}.
Definition pc_set_objects m t os := {| pc_current_group_id := pc_current_group_id m;
  pc_current_object_id := pc_current_object_id m; pc_current_offset := pc_current_offset m;
  pc_congestion_control_mode := pc_congestion_control_mode m;
  pc_end_of_congestion_group_id := pc_end_of_congestion_group_id m;
  pc_is_current_object_skipped := pc_is_current_object_skipped m;
  pc_has_backlog := pc_has_backlog m; pc_current_fragment := pc_current_fragment m;
  pc_length_sent := pc_length_sent m;
  pc_is_current_fragment_sent := pc_is_current_fragment_sent m; pc_tree := t; pc_objects := os |}.

End context.
