(* ===== verification/Congestion.v ===== *)
(** * lib/congestion.c: which objects are skipped

    The delay based algorithm keeps a threshold per connection: objects whose
    flags reach it are skipped.  The group based one skips what is left of a
    group when the publisher lags behind the cache. *)

From S2P Require Import Prelude Picosplay Fragment PublisherContext.

Definition QUICRQ_CONGESTION_THRESHOLD : Z := 5.

Section congestion.
Context `{Sp : Splay quicrq_cached_fragment_t quicrq_fragment_cache_node_compare}.
Context {So : Splay okey quicrq_fragment_publisher_object_node_compare}.
Implicit Types m : quicrq_fragment_publisher_context_t.
Implicit Types c : quicrq_fragment_cache_t.
Implicit Types cg : quicrq_cnx_congestion_state_t.

(** [cnx_ctx->qr_ctx->congestion_control_mode != 0]. *)
Definition mode_is_set (qr_mode : quicrq_congestion_control_enum) : bool :=
  match qr_mode with quicrq_congestion_control_none => false | _ => true end.

(** The new congestion state, and whether the packet should be skipped. *)
Definition quicrq_congestion_check_per_cnx (qr_mode : quicrq_congestion_control_enum) cg
    (flags : Z) (has_backlog : bool) (current_time : Z) : quicrq_cnx_congestion_state_t * bool :=
  let max_flags :=
    if (cg_max_flags cg <? flags) && negb (flags =? 255) then flags else cg_max_flags cg in
  let backlog := cg_has_backlog cg || has_backlog in
  let cg :=
    if negb (cg_is_congested cg) then
      if has_backlog then
        {| cg_has_backlog := false; cg_is_congested := true; cg_max_flags := max_flags;
           cg_priority_threshold := max_flags; cg_old_priority_threshold := 255;
           cg_congestion_check_time := cg_congestion_check_time cg |}
      else
        {| cg_has_backlog := backlog; cg_is_congested := false; cg_max_flags := max_flags;
           cg_priority_threshold := cg_priority_threshold cg;
           cg_old_priority_threshold := cg_old_priority_threshold cg;
           cg_congestion_check_time := cg_congestion_check_time cg |}
    else if cg_congestion_check_time cg <=? current_time then
      let old := cg_priority_threshold cg in
      let '(threshold, congested) :=
        if negb (cg_old_priority_threshold cg =? cg_priority_threshold cg) then (old, true)
        else if backlog then ((if 128 <? old then old - 1 else old), true)
        else if old <? max_flags then (old + 1, true)
        else (old, false) in
      {| cg_has_backlog := false; cg_is_congested := congested; cg_max_flags := max_flags;
         cg_priority_threshold := threshold; cg_old_priority_threshold := old;
         cg_congestion_check_time := cg_congestion_check_time cg +64 50000 |}
    else
      {| cg_has_backlog := backlog; cg_is_congested := true; cg_max_flags := max_flags;
         cg_priority_threshold := cg_priority_threshold cg;
         cg_old_priority_threshold := cg_old_priority_threshold cg;
         cg_congestion_check_time := cg_congestion_check_time cg |} in
  (cg, mode_is_set qr_mode && cg_is_congested cg && (cg_priority_threshold cg <=? flags)).

(** The loop over the groups between the one sent and the last one: the
    [previous_group_size] and [backlog] it ends with. *)
Fixpoint backlog_loop (fuel : nat) c (current_group_id previous_group_id previous_group_size
    backlog : Z) : option (Z * Z) :=
  match fuel with
  | O => None
  | S fuel' =>
      if current_group_id <? previous_group_id then
        let previous_group_id := previous_group_id - 1 in
        let backlog := backlog +64 previous_group_size in
        if QUICRQ_CONGESTION_THRESHOLD <=? backlog then Some (previous_group_size, backlog)
        else
          let size := quicrq_fragment_get_object_count c (previous_group_id -64 1) in
          backlog_loop fuel' c current_group_id previous_group_id (if size =? 0 then 1 else size)
            backlog
      else Some (previous_group_size, backlog)
  end.

(** Each turn adds one object at least to the backlog. *)
Definition backlog_fuel : nat := 6.

Definition quicrq_compute_group_mode_congestion c m (current_group_id current_object_id : Z)
  : option (quicrq_fragment_publisher_context_t * bool) :=
  if current_group_id <? pc_end_of_congestion_group_id m then Some (m, true)
  else if current_group_id <? fc_next_group_id c then
    let previous_group_id := fc_next_group_id c - 1 in
    let previous_group_size := quicrq_fragment_get_object_count c (previous_group_id -64 1) in
    if previous_group_size =? 0 then Some (m, false)
    else
      '(size, backlog) ← backlog_loop backlog_fuel c current_group_id previous_group_id
                           previous_group_size (fc_next_object_id c);
      let backlog := if current_object_id <? size then backlog +64 (size - current_object_id)
                     else backlog in
      if QUICRQ_CONGESTION_THRESHOLD <=? backlog
      then Some (pc_set_end_of_congestion m (current_group_id +64 1), true)
      else Some (m, false)
  else Some (m, false).

(** The in-order pointer of the cache is ahead of the object by a group or by
    the threshold. *)
Definition lags_behind c (g o : Z) : bool :=
  (g <? fc_next_group_id c) ||
  ((g =? fc_next_group_id c) && (o +64 QUICRQ_CONGESTION_THRESHOLD <? fc_next_object_id c)).

(** Called with a current fragment only: [None] is a null dereference. *)
Definition quicrq_evaluate_stream_congestion (qr_mode : quicrq_congestion_control_enum) c m cg
    (current_time : Z)
  : option (quicrq_fragment_publisher_context_t * quicrq_cnx_congestion_state_t * bool) :=
  let started := (0 <? pc_current_offset m) || (0 <? pc_length_sent m) in
  match pc_congestion_control_mode m with
  | quicrq_congestion_control_none => Some (m, cg, false)
  | quicrq_congestion_control_group | quicrq_congestion_control_group_p =>
      if started then Some (m, cg, false)
      else
        '(m, skip) ← quicrq_compute_group_mode_congestion c m (pc_current_group_id m)
                       (pc_current_object_id m);
        Some (m, cg, skip)
  | quicrq_congestion_control_delay =>
      let m := if started then m
               else pc_set_backlog m (lags_behind c (pc_current_group_id m) (pc_current_object_id m)) in
      f ← pc_current_fragment m;
      let '(cg, skip) := quicrq_congestion_check_per_cnx qr_mode cg (cf_flags f)
                           (pc_has_backlog m) current_time in
      Some (m, cg, skip)
  end.

(** The fields of the unidirectional stream that the function reads. *)
Definition quicrq_evaluate_warp_congestion (qr_mode : quicrq_congestion_control_enum) c m cg
    (current_group_id current_object_id next_object_size flags current_time : Z)
  : option (quicrq_fragment_publisher_context_t * quicrq_cnx_congestion_state_t * bool) :=
  if (flags =? 255) && (next_object_size =? 0) then Some (m, cg, true)
  else
    match pc_congestion_control_mode m with
    | quicrq_congestion_control_none => Some (m, cg, false)
    | quicrq_congestion_control_group | quicrq_congestion_control_group_p =>
        '(m, skip) ← quicrq_compute_group_mode_congestion c m current_group_id current_object_id;
        Some (m, cg, skip)
    | quicrq_congestion_control_delay =>
        let has_backlog := lags_behind c current_group_id current_object_id in
        if (0 <? current_object_id) && negb (flags =? 255) then
          let '(cg, skip) :=
            quicrq_congestion_check_per_cnx qr_mode cg flags has_backlog current_time in
          Some (m, cg, skip)
        else Some (m, cg, false)
    end.

Definition quicrq_evaluate_datagram_congestion (qr_mode : quicrq_congestion_control_enum) c m cg
    (current_time : Z)
  : option (quicrq_fragment_publisher_context_t * quicrq_cnx_congestion_state_t * bool) :=
  let delta_t_max := QUICRQ_CONGESTION_THRESHOLD * 33333 in
  f ← pc_current_fragment m;
  if negb (cf_object_id f =? 0) && (0 <? cf_data_length f) then
    match pc_congestion_control_mode m with
    | quicrq_congestion_control_none => Some (m, cg, false)
    | quicrq_congestion_control_group | quicrq_congestion_control_group_p =>
        '(m, skip) ← quicrq_compute_group_mode_congestion c m (cf_group_id f) (cf_object_id f);
        Some (m, cg, skip)
    | quicrq_congestion_control_delay =>
        let has_backlog := delta_t_max <? s64 (current_time - cf_cache_time f) in
        let '(cg, skip) := quicrq_congestion_check_per_cnx qr_mode cg (cf_flags f) has_backlog
                             current_time in
        Some (m, cg, skip)
    end
  else Some (m, cg, false).

End congestion.
