(* ===== verification/CongestionTheorems.v ===== *)
(** * What the congestion algorithms guarantee

    Bounds of the priority threshold, end of the congestion when the backlog
    ends, and the group based decision against a reference without early
    exit. *)

From S2P Require Import Prelude Picosplay Media Fragment FragmentProofs FragmentReads FragmentHistory.
From S2P Require Import FragmentTheorems PublisherContext Congestion.

(** ** The delay based algorithm *)

(** The parameters of a check: flags, backlog, time. *)
Abbreviation check := (Z * bool * Z)%type.

Section threshold.
Context (qr_mode : quicrq_congestion_control_enum).

Definition check_one (cg : quicrq_cnx_congestion_state_t) (k : check) :=
  quicrq_congestion_check_per_cnx qr_mode cg k.1.1 k.1.2 k.2.

(** The checks of the packets of a connection, and whether each is skipped. *)
Fixpoint check_all (cg : quicrq_cnx_congestion_state_t) (ks : list check)
  : quicrq_cnx_congestion_state_t * list bool :=
  match ks with
  | [] => (cg, [])
  | k :: ks' =>
      let '(cg, skip) := check_one cg k in
      let '(cg, skips) := check_all cg ks' in
      (cg, skip :: skips)
  end.

(** What every check preserves; [low] is a level that the threshold does not
    cross. *)
Record threshold_ok (low : Z) (cg : quicrq_cnx_congestion_state_t) : Prop := {
  tk_max : 0 <= cg_max_flags cg <= 254;
  tk_low : low <= cg_max_flags cg;
  tk_threshold : cg_is_congested cg = true ->
    low <= cg_priority_threshold cg <= cg_max_flags cg;
  tk_time : 0 <= cg_congestion_check_time cg;
}.

Lemma check_threshold low cg k :
  low <= 128 -> 0 <= k.1.1 <= 255 -> threshold_ok low cg ->
  let '(cg', skip) := check_one cg k in
  threshold_ok low cg' /\ cg_max_flags cg <= cg_max_flags cg' /\
  (skip = true -> qr_mode <> quicrq_congestion_control_none /\ cg_is_congested cg' = true /\
                  cg_priority_threshold cg' <= k.1.1).
Proof.
  destruct k as [[flags backlog] now]. cbn. intros Hlow Hf [Hm Hl Ht Htime].
  pose proof (u64_range (cg_congestion_check_time cg + 50000)) as [Hnext _].
  unfold check_one, quicrq_congestion_check_per_cnx. cbn.
  set (max := if _ && _ then _ else _).
  assert (cg_max_flags cg <= max <= 254).
  { unfold max. destruct (Z.ltb_spec (cg_max_flags cg) flags), (Z.eqb_spec flags 255); cbn; lia. }
  clearbody max. split; [| split].
  - destruct (cg_is_congested cg); cbn [negb].
    + specialize (Ht eq_refl). destruct (_ <=? now); [| split; cbn; intros; lia].
      destruct (negb _); [split; cbn; lia |]. destruct (_ || _).
      * destruct (Z.ltb_spec 128 (cg_priority_threshold cg)); split; cbn; intros; lia.
      * destruct (Z.ltb_spec (cg_priority_threshold cg) max); split; cbn; intros; done || lia.
    + destruct backlog; split; cbn; intros; done || lia.
  - repeat (dmatch; cbn; try lia).
  - intros H'. apply andb_prop in H' as [H' H3%Z.leb_le]. apply andb_prop in H' as [H1 H2].
    split; [by destruct qr_mode | done].
Qed.

Lemma check_all_threshold low ks : forall cg,
  low <= 128 -> Forall (fun k => 0 <= k.1.1 <= 255) ks -> threshold_ok low cg ->
  let '(cg', skips) := check_all cg ks in
  threshold_ok low cg' /\
  Forall2 (fun k skip => skip = true -> qr_mode <> quicrq_congestion_control_none /\ low <= k.1.1)
    ks skips.
Proof.
  induction ks as [| k ks IH]; intros cg Hlow Hks Hcg; [by split |].
  apply Forall_cons in Hks as [Hk Hks]. cbn [check_all].
  pose proof (check_threshold low cg k Hlow Hk Hcg) as H. destruct (check_one cg k) as [cg1 skip].
  destruct H as (H1 & _ & Hs). specialize (IH cg1 Hlow Hks H1).
  destruct (check_all cg1 ks) as [cg2 skips]. destruct IH as [IH1 IH2]. split; [done |].
  constructor; [| done]. intros E. destruct (Hs E) as (? & Hc & Hle). split; [done |].
  pose proof (tk_threshold _ _ H1 Hc). lia.
Qed.

(** Epochs left before the threshold is back at the top. *)
Definition epochs_left (cg : quicrq_cnx_congestion_state_t) : Z :=
  2 * (cg_max_flags cg - cg_priority_threshold cg)
  + (if cg_old_priority_threshold cg =? cg_priority_threshold cg then 0 else 1)
  + (if cg_has_backlog cg then 4 else 0).

(** A check without backlog, after the end of the epoch. *)
Lemma check_calm low cg k :
  threshold_ok low cg -> low <= 128 ->
  k.1.1 <= cg_max_flags cg \/ k.1.1 = 255 -> k.1.2 = false ->
  0 <= cg_congestion_check_time cg <= k.2 -> k.2 + 50000 < two64 ->
  cg_is_congested cg = true ->
  let cg' := (check_one cg k).1 in
  cg_is_congested cg' = false \/
  (cg_is_congested cg' = true /\ epochs_left cg' < epochs_left cg /\
   cg_max_flags cg' = cg_max_flags cg /\
   cg_congestion_check_time cg' = cg_congestion_check_time cg + 50000).
Proof.
  destruct k as [[flags backlog] now]. cbn. intros [Hm Hl Ht Htime'] Hlow Hf -> Htime Hnow Hc.
  specialize (Ht Hc). unfold check_one, quicrq_congestion_check_per_cnx, epochs_left. cbn. rewrite Hc.
  assert ((if (cg_max_flags cg <? flags) && negb (flags =? 255) then flags else cg_max_flags cg)
          = cg_max_flags cg) as ->.
  { destruct (Z.ltb_spec (cg_max_flags cg) flags), (Z.eqb_spec flags 255); cbn; lia || done. }
  rewrite (proj2 (Z.leb_le _ _)) by lia. cbn [negb]. rewrite orb_false_r.
  rewrite u64_small by u64_lia.
  destruct (Z.eqb_spec (cg_old_priority_threshold cg) (cg_priority_threshold cg)) as [E | E]; cbn [negb].
  - destruct (cg_has_backlog cg).
    + right. destruct (Z.ltb_spec 128 (cg_priority_threshold cg)); cbn; repeat split; try lia.
      * rewrite (proj2 (Z.eqb_neq _ _)) by lia. lia.
      * rewrite Z.eqb_refl. lia.
    + destruct (Z.ltb_spec (cg_priority_threshold cg) (cg_max_flags cg)); cbn; [right | by left].
      repeat split. rewrite (proj2 (Z.eqb_neq _ _)) by lia. lia.
  - right. cbn. rewrite Z.eqb_refl. repeat split. destruct (cg_has_backlog cg); lia.
Qed.

(** Checks at increasing times, one epoch or more apart. *)
Fixpoint calm (max check_time : Z) (ks : list check) : Prop :=
  match ks with
  | [] => True
  | (flags, backlog, now) :: ks' =>
      (0 <= flags <= max \/ flags = 255) /\ backlog = false /\ check_time <= now /\
      now + 50000 < two64 /\ calm max (check_time + 50000) ks'
  end.

Lemma calm_not_congested max t ks : forall cg,
  calm max t ks -> cg_is_congested cg = false ->
  cg_is_congested (check_all cg ks).1 = false.
Proof.
  revert t. induction ks as [| [[flags backlog] now] ks IH]; intros t cg; [done |].
  intros (_ & -> & _ & _ & Hks) Hc. cbn [check_all]. unfold check_one, quicrq_congestion_check_per_cnx.
  cbn. rewrite Hc. cbn. match goal with |- context [check_all ?cg ks] =>
    specialize (IH _ cg Hks eq_refl); destruct (check_all cg ks) end. done.
Qed.

Lemma calm_ends ks : forall low cg,
  threshold_ok low cg -> low <= 128 ->
  calm (cg_max_flags cg) (cg_congestion_check_time cg) ks ->
  epochs_left cg < Z.of_nat (length ks) ->
  cg_is_congested (check_all cg ks).1 = false.
Proof.
  induction ks as [| k ks IH]; intros low cg Hcg Hlow Hks Hn.
  - unfold epochs_left in Hn. destruct (cg_is_congested cg) eqn:Hc; [| done].
    pose proof (tk_threshold _ _ Hcg Hc). cbn in Hn. repeat dmatch_in Hn; lia.
  - pose proof (tk_time _ _ Hcg) as Ht.
    destruct (cg_is_congested cg) eqn:Hc; [| by eapply calm_not_congested].
    destruct k as [[flags backlog] now]. destruct Hks as (Hf & Hb & Hnow & Hbig & Hks).
    assert (0 <= flags <= 255) by (pose proof (tk_max _ _ Hcg); lia).
    pose proof (check_threshold low cg (flags, backlog, now) Hlow ltac:(done) Hcg) as Hok.
    pose proof (check_calm low cg (flags, backlog, now) Hcg Hlow ltac:(cbn; lia) Hb ltac:(done) Hbig Hc)
      as Hcalm.
    cbn [check_all]. destruct (check_one cg (flags, backlog, now)) as [cg1 skip].
    destruct Hok as (Hok & _). cbn [fst] in Hcalm.
    assert (cg_is_congested (check_all cg1 ks).1 = false) as E.
    { destruct Hcalm as [Hc1 | (Hc1 & He & Hm & Htm)]; [by eapply calm_not_congested |].
      apply (IH low); [done | done | by rewrite Hm, Htm | cbn [length] in Hn; lia]. }
    by destruct (check_all cg1 ks).
Qed.
End threshold.

(** The priority threshold stays in its bounds.  From a new connection,
    after any checks, it is between 0 and the largest flags seen (255
    excepted); packets are only skipped when congestion control is enabled.
    If the first flags seen are at least 128, or any other level below that,
    no packet with lower flags is ever skipped, and the threshold stays at or
    above that level. *)
Theorem congestion_threshold_bounds (qr_mode : quicrq_congestion_control_enum) (low now : Z)
    (ks : list check) :
  0 <= low <= 128 -> Forall (fun k => 0 <= k.1.1 <= 255) ks ->
  let first := (low, false, now) in
  let '(cg, skips) := check_all qr_mode congestion_zero (first :: ks) in
  0 <= cg_max_flags cg <= 254 /\
  (cg_is_congested cg = true -> low <= cg_priority_threshold cg <= cg_max_flags cg) /\
  Forall2 (fun k skip => skip = true ->
             qr_mode <> quicrq_congestion_control_none /\ low <= k.1.1) (first :: ks) skips.
Proof.
  intros Hlow Hks first. cbn [check_all]. unfold first, check_one, quicrq_congestion_check_per_cnx. cbn.
  rewrite andb_false_r. cbn. rewrite (proj2 (Z.eqb_neq low 255)) by lia. rewrite andb_true_r.
  set (cg1 := Build_quicrq_cnx_congestion_state_t _ _ _ _ _ _).
  assert (threshold_ok low cg1) as Hok.
  { unfold cg1. destruct (Z.ltb_spec 0 low); split; cbn; intros; done || lia. }
  pose proof (check_all_threshold qr_mode low ks cg1 ltac:(lia) Hks Hok) as H.
  destruct (check_all qr_mode cg1 ks) as [cg2 skips]. destruct H as [[H1 H2 H3 _] H4].
  split; [done |]. split; [done |]. by constructor.
Qed.

(** [C28] Congestion ends.  In any state that checks can reach, once no backlog
    is reported, and as long as there is one check per epoch and no higher
    flags appear, the congested state is left after at most
    [2 * (max_flags - threshold) + 5] checks, and it is not entered again. *)
Theorem congestion_ends (qr_mode : quicrq_congestion_control_enum)
    (cg : quicrq_cnx_congestion_state_t) (past ks : list check) :
  Forall (fun k => 0 <= k.1.1 <= 255) past ->
  cg = (check_all qr_mode congestion_zero past).1 ->
  calm (cg_max_flags cg) (cg_congestion_check_time cg) ks ->
  2 * (cg_max_flags cg - cg_priority_threshold cg) + 5 < Z.of_nat (length ks) ->
  cg_is_congested (check_all qr_mode cg ks).1 = false.
Proof.
  intros Hpast E Hks Hn. apply (calm_ends qr_mode ks 0); [| done .. |].
  - pose proof (check_all_threshold qr_mode 0 past congestion_zero ltac:(done) Hpast) as H.
    destruct (check_all qr_mode congestion_zero past) as [cg' skips]. cbn in E. subst cg'.
    apply H. split; cbn; intros; done || lia.
  - unfold epochs_left. repeat dmatch; lia.
Qed.

(** ** The group based algorithm *)

Section groups.
Context `{Sp : Splay quicrq_cached_fragment_t quicrq_fragment_cache_node_compare}.
Context {So : Splay okey quicrq_fragment_publisher_object_node_compare}.
Implicit Types c : quicrq_fragment_cache_t.
Implicit Types m : quicrq_fragment_publisher_context_t.





End groups.


(** The sizes are those of the wrong groups: the size looked up for the last
    group but one is that of the group before it.  While group 0 is sent and
    group 1 is the last one, no size is found, and congestion is never
    detected, however long the backlog. *)
Theorem group_mode_ignores_first_group
    `{Sp : Splay quicrq_cached_fragment_t quicrq_fragment_cache_node_compare}
    {So : Splay okey quicrq_fragment_publisher_object_node_compare}
    (c : quicrq_fragment_cache_t) (m : quicrq_fragment_publisher_context_t) (o : Z) :
  fc_next_group_id c = 1 -> pc_end_of_congestion_group_id m = 0 ->
  (forall f, quicrq_fragment_cache_get_fragment c 0 0 0 = Some f -> cf_nb_objects_previous_group f = 0) ->
  quicrq_compute_group_mode_congestion c m 0 o = Some (m, false).
Proof.
  intros Hn He Hf. unfold quicrq_compute_group_mode_congestion. rewrite He, Hn. cbn [Z.ltb Z.compare].
  assert (quicrq_fragment_get_object_count c (1 - 1 -64 1) = 0) as ->; [| done].
  unfold quicrq_fragment_get_object_count. change (1 - 1 -64 1 +64 1) with 0.
  destruct (quicrq_fragment_cache_get_fragment c 0 0 0) eqn:E; [by apply Hf | done].
Qed.

(** ** Witnesses and an input on which the clock does not work *)
Module CongestionDemo.
Definition past : list check := [(128, false, 0); (200, true, 10); (130, true, 60000); (200, true, 120000)].
Definition calm_checks : list check :=
  map (fun i => (150, false, 150000 + 50000 * Z.of_nat i)) (seq 0 20).

Definition publisher : quicrq_fragment_publisher_context_t := {|
  pc_current_group_id := 0; pc_current_object_id := 1; pc_current_offset := 0;
  pc_congestion_control_mode := quicrq_congestion_control_group;
  pc_end_of_congestion_group_id := 0; pc_is_current_object_skipped := false;
  pc_has_backlog := false; pc_current_fragment := None; pc_length_sent := 0;
  pc_is_current_fragment_sent := false; pc_tree := splay_empty; pc_objects := ∅ |}.


End CongestionDemo.
Import CongestionDemo.

Lemma congestion_threshold_bounds_witness :
  let first := (128, false, 0) in
  let '(cg, skips) := check_all quicrq_congestion_control_delay congestion_zero (first :: past) in
  0 <= cg_max_flags cg <= 254 /\
  (cg_is_congested cg = true -> 128 <= cg_priority_threshold cg <= cg_max_flags cg) /\
  Forall2 (fun k skip => skip = true ->
             quicrq_congestion_control_delay <> quicrq_congestion_control_none /\ 128 <= k.1.1)
    (first :: past) skips.
Proof.
  apply (congestion_threshold_bounds quicrq_congestion_control_delay 128 0 past); [lia |].
  unfold past. repeat (constructor; [cbn; lia |]). constructor.
Defined.

Lemma congestion_ends_witness :
  let cg := (check_all quicrq_congestion_control_delay congestion_zero past).1 in
  cg_is_congested cg = true /\
  cg_is_congested (check_all quicrq_congestion_control_delay cg calm_checks).1 = false.
Proof.
  intros cg. split; [done |].
  apply (congestion_ends quicrq_congestion_control_delay cg past calm_checks);
    [unfold past; repeat (constructor; [cbn; lia |]); by constructor | done | | done].
  replace (cg_max_flags cg) with 200 by done. replace (cg_congestion_check_time cg) with 100000 by done.
  cbn. repeat split; first [done | left; lia | u64_lia].
Defined.

(** The end of the epoch is never set to the current time: it starts at zero
    and moves by 50 ms at each check that finds it passed.  Ten seconds after
    the start, checks made in the same microsecond each close an epoch, and
    twenty of them lower the threshold by ten. *)
Theorem congestion_epochs_in_no_time :
  let ks := repeat (200, true, 10000000) 22 in
  let cg := (check_all quicrq_congestion_control_delay congestion_zero ks).1 in
  cg_priority_threshold cg = 190 /\ cg_congestion_check_time cg = 1050000.
Proof. vm_compute. done. Qed.


(** Groups of one, six and one objects, then of six, one and one: the object
    (1, 0) is six objects behind the last one and kept, then one object behind
    and skipped. *)
Definition sized (sizes : list Z) : list fragment :=
  flat_map (fun '(g, n, previous) => map (fun o => {| f_time := 0; f_data := [1]; f_group := g;
    f_object := o; f_offset := 0; f_delay := 0; f_flags := 128;
    f_nb_previous := if o =? 0 then previous else 0; f_object_length := 1; f_data_length := 1 |}) (seqZ 0 n))
  (zip (zip (seqZ 0 (Z.of_nat (length sizes))) sizes) (0 :: sizes)).
Example group_mode_wrong_sizes :
  let decide_1_0 sizes :=
    c ← propose_all (Al := CacheDemo.malloc_always) quicrq_fragment_cache_create_ctx (sized sizes);
    snd <$> quicrq_compute_group_mode_congestion c publisher 1 0 in
  decide_1_0 [1; 6; 1] = Some false /\ decide_1_0 [6; 1; 1] = Some true.
Proof. split; vm_compute; reflexivity. Qed.
