(* ===== verification/Publisher.v ===== *)
(** * lib/fragment.c: the stream publisher

    A publisher feeds one subscriber from a fragment cache.  The stream
    publisher, [quicrq_fragment_publisher_fn], gives the objects in order; the
    datagram publisher (DatagramPublisher.v) gives the fragments in order of
    arrival.

    The cache, the fields of the stream context and the congestion state of
    the connection are arguments.  [None] stands for undefined behaviour: a
    null or dangling pointer is dereferenced, or a copy reads past the end. *)

From S2P Require Import Prelude Picosplay Fragment PublisherContext Congestion.

Inductive quicrq_media_source_action_enum :=
  | quicrq_media_source_get_data
  | quicrq_media_source_skip_object
  | quicrq_media_source_close.

(** The output arguments of the source functions. *)
Record source_output := {
  so_data : list Z;               (* what is written in [data] *)
  so_data_length : Z;
  so_flags : Z;
  so_is_new_group : bool;
  so_object_length : Z;
  so_is_media_finished : bool;
  so_is_still_active : bool;
  so_should_skip : bool;
}.

Section publisher.
Context `{Sp : Splay quicrq_cached_fragment_t quicrq_fragment_cache_node_compare}.
Context {So : Splay okey quicrq_fragment_publisher_object_node_compare}.
Implicit Types c : quicrq_fragment_cache_t.
Implicit Types m : quicrq_fragment_publisher_context_t.
Implicit Types cg : quicrq_cnx_congestion_state_t.

(** The result: the context, and the start group and object identifiers of
    the stream. *)
Definition quicrq_fragment_publisher_subscribe c (qr_mode : quicrq_congestion_control_enum)
  : quicrq_fragment_publisher_context_t * Z * Z :=
  ({| pc_current_group_id := fc_first_group_id c; pc_current_object_id := fc_first_object_id c;
      pc_current_offset := 0; pc_congestion_control_mode := qr_mode;
      pc_end_of_congestion_group_id := 0; pc_is_current_object_skipped := false;
      pc_has_backlog := false; pc_current_fragment := None; pc_length_sent := 0;
      pc_is_current_fragment_sent := false; pc_tree := splay_empty; pc_objects := ∅ |},
   fc_first_group_id c, fc_first_object_id c).

(** Whether [is_cache_closing_needed] is set in the quicrq context; the
    publisher context is freed. *)
Definition quicrq_fragment_publisher_close c : bool := fc_is_feed_closed c.

(** The final point is known, and is not after the given object. *)
Definition past_final c (g o : Z) : bool :=
  (negb (fc_final_group_id c =? 0) || negb (fc_final_object_id c =? 0)) &&
  pair_leb (fc_final_group_id c) (fc_final_object_id c) g o.

(** Look for the fragment to send: the context, [*is_new_group] and
    [*is_media_finished]. *)
Definition find_current_fragment c m : quicrq_fragment_publisher_context_t * bool * bool :=
  let g := pc_current_group_id m in
  let o := pc_current_object_id m in
  if pc_is_current_object_skipped m then
    match quicrq_fragment_cache_get_fragment c g (o +64 1) 0 with
    | Some f =>
        (pc_set_skipped (pc_set_current (pc_set_fragment m (Some f)) g (o +64 1) 0) false, false, false)
    | None =>
        let m := pc_set_fragment m None in
        let finished := past_final c g (o +64 1) in
        match quicrq_fragment_cache_get_fragment c (g +64 1) 0 0 with
        | Some f =>
            if cf_nb_objects_previous_group f <=? o +64 1 then
              (pc_set_fragment (pc_set_skipped (pc_set_current m (g +64 1) 0 0) false) (Some f),
               true, false)
            else (m, false, finished)
        | None => (m, false, finished)
        end
    end
  else
    match pc_current_fragment m with
    | Some _ => (m, false, false)
    | None =>
        match quicrq_fragment_cache_get_fragment c g o (pc_current_offset m) with
        | Some f => (pc_set_fragment m (Some f), false, false)
        | None =>
            if pc_current_offset m =? 0 then
              match quicrq_fragment_cache_get_fragment c (g +64 1) 0 0 with
              | Some f =>
                  if cf_nb_objects_previous_group f <=? o
                  then (pc_set_current (pc_set_fragment m (Some f)) (g +64 1) 0 0, true, false)
                  else (m, false, false)
              | None => (m, false, false)
              end
            else (m, false, false)
        end
    end.

(** The position after the end of the current fragment. *)
Definition end_fragment m (f : quicrq_cached_fragment_t) : quicrq_fragment_publisher_context_t :=
  let next_offset := pc_current_offset m +64 cf_data_length f in
  let m :=
    if cf_object_length f <=? next_offset
    then pc_set_current m (pc_current_group_id m) (pc_current_object_id m +64 1) 0
    else pc_set_current m (pc_current_group_id m) (pc_current_object_id m) next_offset in
  pc_set_fragment (pc_set_sent m 0 (pc_is_current_fragment_sent m)) None.

(** The [quicrq_media_source_get_data] action: [with_data] tells whether a
    buffer of [data_max_size] bytes is given, [flags] is the value of [*flags]
    at the call. *)
Definition publisher_get_data (qr_mode : quicrq_congestion_control_enum) c m cg
    (stream_next_object_id : Z) (with_data : bool) (data_max_size flags current_time : Z)
  : option (quicrq_fragment_publisher_context_t * quicrq_cnx_congestion_state_t * source_output) :=
  let nothing new finished := {|
    so_data := []; so_data_length := 0; so_flags := flags; so_is_new_group := new;
    so_object_length := 0; so_is_media_finished := finished; so_is_still_active := false;
    so_should_skip := false |} in
  if past_final c (pc_current_group_id m) (pc_current_object_id m)
  then Some (m, cg, nothing false true)
  else
    let '(m, is_new_group, finished) := find_current_fragment c m in
    match pc_current_fragment m with
    | None => Some (m, cg, nothing is_new_group finished)
    | Some f =>
        f ← deref_fragment c f;
        let available := cf_data_length f -64 pc_length_sent m in
        let '(end_of_fragment, copied) :=
          if available <=? data_max_size then (true, available) else (false, data_max_size) in
        let output data skip := {|
          so_data := data; so_data_length := copied; so_flags := cf_flags f;
          so_is_new_group := is_new_group; so_object_length := cf_object_length f;
          so_is_media_finished := finished; so_is_still_active := true; so_should_skip := skip |} in
        if with_data then
          if cf_data_length f <? pc_length_sent m + copied then None
          else
            let data := slice (cf_data f) (pc_length_sent m) copied in
            let m := pc_set_sent m (pc_length_sent m +64 copied) (pc_is_current_fragment_sent m) in
            Some (if end_of_fragment then end_fragment m f else m, cg, output data false)
        else if (0 <? available) && negb (cf_object_id f =? 0) && negb (stream_next_object_id =? 0)
        then
          '(m, cg, skip) ← quicrq_evaluate_stream_congestion qr_mode c m cg current_time;
          Some (m, cg, output [] skip)
        else Some (m, cg, output [] false)
    end.

(** The context is [None] once it is closed. *)
Definition quicrq_fragment_publisher_fn (qr_mode : quicrq_congestion_control_enum)
    (action : quicrq_media_source_action_enum) c m cg
    (stream_next_object_id : Z) (with_data : bool) (data_max_size flags current_time : Z)
  : option (option quicrq_fragment_publisher_context_t * quicrq_cnx_congestion_state_t *
            option source_output) :=
  match action with
  | quicrq_media_source_get_data =>
      '(m, cg, out) ← publisher_get_data qr_mode c m cg stream_next_object_id with_data
                        data_max_size flags current_time;
      Some (Some m, cg, Some out)
  | quicrq_media_source_skip_object => Some (Some (pc_set_skipped m true), cg, None)
  | quicrq_media_source_close => Some (None, cg, None)
  end.

Definition quicrq_fragment_is_ready_to_send (qr_mode : quicrq_congestion_control_enum) c m cg
    (stream_next_object_id data_max_size current_time : Z)
  : option (quicrq_fragment_publisher_context_t * quicrq_cnx_congestion_state_t * bool) :=
  '(m, cg, out) ← publisher_get_data qr_mode c m cg stream_next_object_id false data_max_size 0
                    current_time;
  Some (m, cg, 0 <? so_data_length out).

(** [quicrq_fragment_notify_final_to_control]: the final group and object of
    the stream, and whether it is marked active. *)
Definition quicrq_fragment_notify_final_to_control c (final_group_id final_object_id : Z)
  : Z * Z * bool :=
  if (negb (fc_final_group_id c =? 0) || negb (fc_final_object_id c =? 0)) &&
     (final_group_id =? 0) && (final_object_id =? 0)
  then (fc_final_group_id c, fc_final_object_id c, true)
  else (final_group_id, final_object_id, false).

End publisher.
