(* ===== verification/DatagramPublisher.v ===== *)
(** * lib/fragment.c: the datagram publisher

    Fragments are sent in order of arrival in the cache, cut to the size of
    the datagrams.  The publisher keeps the state of the objects that it
    sends, in a tree from which the objects fully sent are pruned.  Every
    datagram is registered with the acknowledgements (Ack.v).

    [None] stands for undefined behaviour: a null or dangling pointer is
    dereferenced, or a copy reads past the end. *)

From S2P Require Import Prelude Picosplay PicoFrames Proto Fragment PublisherContext Congestion Ack.

(** Whether [picoquic_provide_datagram_buffer] gives a buffer of that
    length. *)
Class PicoDatagram := picoquic_provide_datagram_buffer : Z -> bool.

Section datagrams.
Context `{Sp : Splay quicrq_cached_fragment_t quicrq_fragment_cache_node_compare}.
Context {So : Splay okey quicrq_fragment_publisher_object_node_compare}.
Context {Sa : Splay akey quicrq_datagram_ack_node_compare}.
Context {Al : Allocator} {PF : PicoFrames} {PD : PicoDatagram}.
Implicit Types c : quicrq_fragment_cache_t.
Implicit Types m : quicrq_fragment_publisher_context_t.
Implicit Types cg : quicrq_cnx_congestion_state_t.
Implicit Types a : quicrq_datagram_ack_ctx_t.

(** ** The states of the objects *)

Definition quicrq_fragment_publisher_object_add m (group_id object_id object_length : Z)
  : option quicrq_fragment_publisher_context_t :=
  if malloc_ok sizeof_publisher_object then
    Some (pc_set_objects m (splay_insert (pc_tree m) (group_id, object_id))
            (<[(group_id, object_id) := {|
                po_group_id := group_id; po_object_id := object_id;
                po_nb_objects_previous_group := 0; po_object_length := object_length;
                po_bytes_sent := 0; po_is_dropped := false; po_is_sent := false |}]>
              (pc_objects m)))
  else None.

(** The state of a node of the tree. *)
Definition object_state m (k : option okey) : option quicrq_fragment_publisher_object_state_t :=
  k ← k; pc_objects m !! k.

Definition quicrq_fragment_publisher_object_get m (group_id object_id : Z)
  : option quicrq_fragment_publisher_object_state_t :=
  object_state m (splay_find (pc_tree m) (group_id, object_id)).

Definition po_key (p : quicrq_fragment_publisher_object_state_t) : okey :=
  (po_group_id p, po_object_id p).

Definition next_in_sequence (first next : quicrq_fragment_publisher_object_state_t) : bool :=
  ((po_group_id next =? po_group_id first) && (po_object_id next =? po_object_id first +64 1)) ||
  ((po_group_id next =? po_group_id first +64 1) && (po_object_id next =? 0) &&
   (po_nb_objects_previous_group next =? po_object_id first +64 1)).

Fixpoint prune_loop (fuel : nat) m (first : option quicrq_fragment_publisher_object_state_t)
  : option quicrq_fragment_publisher_context_t :=
  match fuel with
  | O => None
  | S fuel' =>
      match first with
      | None => Some m
      | Some p =>
          if po_is_sent p then
            match object_state m (splay_next (pc_tree m) (po_key p)) with
            | None => Some m
            | Some next =>
                if next_in_sequence p next
                then prune_loop fuel'
                       (pc_set_objects m (splay_delete (pc_tree m) (po_key p))
                          (delete (po_key p) (pc_objects m))) (Some next)
                else Some m
            end
          else Some m
      end
  end.

(** Each turn deletes a node. *)
Definition quicrq_fragment_datagram_publisher_object_prune m
  : option quicrq_fragment_publisher_context_t :=
  prune_loop (S (length (splay_nodes (pc_tree m)))) m (object_state m (splay_first (pc_tree m))).

(** The result: the context and [ret]. *)
Definition quicrq_fragment_datagram_publisher_object_update m (should_skip : bool)
    (next_offset copied : Z) : option (quicrq_fragment_publisher_context_t * Z) :=
  f ← pc_current_fragment m;
  let k := (cf_group_id f, cf_object_id f) in
  let found :=
    match quicrq_fragment_publisher_object_get m (cf_group_id f) (cf_object_id f) with
    | Some p => Some (m, p)
    | None =>
        m ← quicrq_fragment_publisher_object_add m (cf_group_id f) (cf_object_id f)
              (cf_object_length f);
        p ← pc_objects m !! k;
        Some (m, p)
    end in
  match found with
  | None => Some (m, -1)
  | Some (m, p) =>
      let is_last_fragment := po_object_length p <=? next_offset in
      let p := po_document p (po_bytes_sent p +64 copied) should_skip
                 (if 0 <? cf_nb_objects_previous_group f then cf_nb_objects_previous_group f
                  else po_nb_objects_previous_group p) in
      if (is_last_fragment && (next_offset <=? copied)) || (po_object_length p <=? po_bytes_sent p)
      then
        m ← quicrq_fragment_datagram_publisher_object_prune
              (pc_set_objects m (pc_tree m) (<[k := po_set_sent p]> (pc_objects m)));
        Some (m, 0)
      else Some (pc_set_objects m (pc_tree m) (<[k := p]> (pc_objects m)), 0)
  end.

(** ** The fragments in order of arrival *)

(** Before the start point of the stream. *)
Definition before_start (start_group_id start_object_id : Z) (f : quicrq_cached_fragment_t) : bool :=
  pair_ltb (cf_group_id f) (cf_object_id f) start_group_id start_object_id.

Fixpoint first_from_start (start_group_id start_object_id : Z)
    (fragments : list quicrq_cached_fragment_t) : option quicrq_cached_fragment_t :=
  match fragments with
  | [] => None
  | f :: rest =>
      if before_start start_group_id start_object_id f
      then first_from_start start_group_id start_object_id rest else Some f
  end.

(** Whether the object [(g, o)] is before the list of objects. *)
Definition before_objects m (g o : Z) : bool :=
  match object_state m (splay_first (pc_tree m)) with
  | Some p => pair_ltb g o (po_group_id p) (po_object_id p)
  | None => false
  end.

(** The loop over the fragments that follow the current one, [rest], until
    one has to be sent: the context and [*should_skip]. *)
Fixpoint next_fragment_loop (qr_mode : quicrq_congestion_control_enum) c
    (start_group_id start_object_id current_time : Z) (rest : list quicrq_cached_fragment_t) m cg
  : option (quicrq_fragment_publisher_context_t * quicrq_cnx_congestion_state_t * bool) :=
  match rest with
  | [] => Some (m, cg, false)
  | f :: rest' =>
      let m := pc_set_fragment (pc_set_sent m 0 false) (Some f) in
      match quicrq_fragment_publisher_object_get m (cf_group_id f) (cf_object_id f) with
      | None =>
          if before_objects m (cf_group_id f) (cf_object_id f) then
            next_fragment_loop qr_mode c start_group_id start_object_id current_time rest'
              (pc_set_sent m 0 true) cg
          else quicrq_evaluate_datagram_congestion qr_mode c m cg current_time
      | Some p =>
          if po_is_dropped p || before_start start_group_id start_object_id f then
            next_fragment_loop qr_mode c start_group_id start_object_id current_time rest'
              (pc_set_sent m 0 true) cg
          else Some (m, cg, false)
      end
  end.

(** The fragments after [f]: [None] if it is not in the cache any more. *)
Fixpoint fragments_after (fragments : list quicrq_cached_fragment_t) (f : quicrq_cached_fragment_t)
  : option (list quicrq_cached_fragment_t) :=
  match fragments with
  | [] => None
  | x :: rest => if cf_addr x =? cf_addr f then Some rest else fragments_after rest f
  end.

Definition quicrq_fragment_datagram_publisher_check_fragment
    (qr_mode : quicrq_congestion_control_enum) c (start_group_id start_object_id : Z) m cg
    (current_time : Z)
  : option (quicrq_fragment_publisher_context_t * quicrq_cnx_congestion_state_t * bool) :=
  let m :=
    match pc_current_fragment m with
    | Some _ => m
    | None =>
        pc_set_sent
          (pc_set_fragment m (first_from_start start_group_id start_object_id (fc_fragments c)))
          (pc_length_sent m) false
    end in
  match pc_current_fragment m with
  | None => Some (m, cg, false)
  | Some f =>
      if pc_is_current_fragment_sent m then
        rest ← fragments_after (fc_fragments c) f;
        next_fragment_loop qr_mode c start_group_id start_object_id current_time rest m cg
      else Some (m, cg, false)
  end.

(** ** Sending *)

(** What a call does: the publisher and acknowledgement contexts, [ret], the
    datagram that is sent, [*media_was_sent] and [*at_least_one_active]. *)
Record datagram_result := {
  dr_media : quicrq_fragment_publisher_context_t;
  dr_ack : quicrq_datagram_ack_ctx_t;
  dr_ret : Z;
  dr_datagram : option (list Z);
  dr_media_was_sent : bool;
  dr_at_least_one_active : bool;
}.

(** [qr_time] is [picoquic_get_quic_time]. *)
Definition quicrq_fragment_datagram_publisher_send_fragment (qr : extra_settings) m a
    (media_id space : Z) (at_least_one_active should_skip : bool) (qr_time : Z)
  : option datagram_result :=
  f ← pc_current_fragment m;
  let stop ret active := {| dr_media := m; dr_ack := a; dr_ret := ret; dr_datagram := None;
                            dr_media_was_sent := false; dr_at_least_one_active := active |} in
  let offset := if should_skip then 0 else cf_offset f +64 pc_length_sent m in
  let flags := if should_skip then 255 else cf_flags f in
  let object_length := if should_skip then 0 else cf_object_length f in
  match quicrq_datagram_header_encode media_id (cf_group_id f) (cf_object_id f) offset
          (cf_queue_delay f) flags (cf_nb_objects_previous_group f) object_length
          QUICRQ_DATAGRAM_HEADER_MAX with
  | None => Some (stop (-1) at_least_one_active)
  | Some header =>
      let h_size := blen header in
      if space <? h_size then Some (stop 0 true)
      else
        let copied :=
          if negb should_skip && (0 <? cf_data_length f) then
            let available := cf_data_length f -64 pc_length_sent m in
            if available <=? space - h_size then available else space - h_size
          else 0 in
        if (0 <? copied) || should_skip || (cf_data_length f =? 0) then
          if negb (picoquic_provide_datagram_buffer (copied + h_size))
          then Some (stop (-1) at_least_one_active)
          else if (0 <? copied) && (cf_data_length f <? pc_length_sent m + copied) then None
          else
            let data := slice (cf_data f) (pc_length_sent m) copied in
            let length_sent := pc_length_sent m +64 copied in
            let m := pc_set_sent m length_sent
                       (pc_is_current_fragment_sent m ||
                        (should_skip || (cf_data_length f <=? length_sent))) in
            '(a, ret, _) ← quicrq_datagram_ack_init qr a (cf_group_id f) (cf_object_id f) offset flags
                             (cf_nb_objects_previous_group f) data copied (cf_queue_delay f)
                             (cf_object_length f) qr_time;
            '(m, ret) ← (if ret =? 0
                         then quicrq_fragment_datagram_publisher_object_update m should_skip
                                (offset +64 copied) copied
                         else Some (m, ret));
            Some {| dr_media := m; dr_ack := a; dr_ret := ret; dr_datagram := Some (header ++ data);
                    dr_media_was_sent := true; dr_at_least_one_active := true |}
        else Some (stop 0 at_least_one_active)
  end.

(** [*not_ready] is the last component. *)
Definition quicrq_fragment_datagram_publisher_prepare (qr_mode : quicrq_congestion_control_enum)
    (qr : extra_settings) c (start_group_id start_object_id : Z) m a cg (media_id space : Z)
    (at_least_one_active : bool) (current_time qr_time : Z)
  : option (datagram_result * quicrq_cnx_congestion_state_t * bool) :=
  '(m, cg, should_skip) ← quicrq_fragment_datagram_publisher_check_fragment qr_mode c
                            start_group_id start_object_id m cg current_time;
  match pc_current_fragment m, pc_is_current_fragment_sent m with
  | Some f, false =>
      _ ← deref_fragment c f;
      r ← quicrq_fragment_datagram_publisher_send_fragment qr m a media_id space
            at_least_one_active should_skip qr_time;
      Some (r, cg, false)
  | _, _ =>
      Some ({| dr_media := m; dr_ack := a; dr_ret := 0; dr_datagram := None;
               dr_media_was_sent := false; dr_at_least_one_active := at_least_one_active |},
            cg, true)
  end.

(** The final group and object identifiers of the stream are [fin]; the
    result adds the new ones, and whether the control stream is marked active
    and [is_active_datagram] cleared. *)
Definition quicrq_fragment_datagram_publisher_fn (qr_mode : quicrq_congestion_control_enum)
    (qr : extra_settings) c (start_group_id start_object_id : Z) (fin : Z * Z) m a cg
    (media_id space : Z) (at_least_one_active : bool) (current_time qr_time : Z)
  : option (datagram_result * quicrq_cnx_congestion_state_t * (Z * Z) * bool) :=
  '(r, cg, not_ready) ← quicrq_fragment_datagram_publisher_prepare qr_mode qr c start_group_id
                          start_object_id m a cg media_id space at_least_one_active current_time
                          qr_time;
  let m := dr_media r in
  if not_ready && (negb (fc_final_group_id c =? 0) || negb (fc_final_object_id c =? 0)) &&
     ((fin.1 =? 0) && (fin.2 =? 0))
  then
    match pc_current_fragment m with
    | Some f =>
        if pc_is_current_fragment_sent m then
          rest ← fragments_after (fc_fragments c) f;
          match rest with
          | [] => Some (r, cg, (fc_final_group_id c, fc_final_object_id c), true)
          | _ => Some (r, cg, fin, false)
          end
        else Some (r, cg, fin, false)
    | None => Some (r, cg, fin, false)
    end
  else Some (r, cg, fin, false).

End datagrams.
