(* ===== verification/DatagramObjects.v ===== *)
(** * The objects that are sent as datagrams

    The invariant of the tree of objects of a datagram publisher, against the
    pieces that were sent so far: the counts are exact, an object is marked
    sent when all its bytes were sent, and what is before the first object of
    the tree, pruned from it, was sent. *)

From S2P Require Import Prelude Picosplay PicoFrames Media Proto.
From S2P Require Import Fragment PublisherContext Congestion Ack DatagramPublisher.

(** ** The order of the objects *)

Definition okey_ok (k : okey) : Prop := is_key k.1 /\ is_key k.2.

Lemma publisher_compare_lt l r : okey_ok l -> okey_ok r ->
  quicrq_fragment_publisher_object_node_compare l r < 0 <-> key_lt l r.
Proof.
  intros [? ?] [? ?]. unfold quicrq_fragment_publisher_object_node_compare, key_lt, is_key in *.
  rewrite !s64_small by u64_lia. destruct (Z.eqb_spec (l.1 - r.1) 0); lia.
Qed.

Lemma publisher_compare_eq l r : okey_ok l -> okey_ok r ->
  quicrq_fragment_publisher_object_node_compare l r = 0 <-> l = r.
Proof.
  intros [? ?] [? ?]. unfold quicrq_fragment_publisher_object_node_compare, is_key in *.
  rewrite !s64_small by u64_lia. destruct l as [a b], r as [a' b']; cbn in *.
  destruct (Z.eqb_spec (a - a') 0); split; try intros [= -> ->]; try lia.
  intros. f_equal; lia.
Qed.

#[export] Instance publisher_order : CmpOrder quicrq_fragment_publisher_object_node_compare okey_ok.
Proof.
  split; unfold quicrq_fragment_publisher_object_node_compare; intros;
    repeat match goal with H : okey_ok _ |- _ => destruct H end; unfold is_key in *;
    rewrite !s64_small in * by u64_lia;
    repeat match goal with |- context [?a =? 0] => destruct (Z.eqb_spec a 0)
      | H : context [?a =? 0] |- _ => destruct (Z.eqb_spec a 0) end; lia.
Qed.

(** ** The bytes sent *)

(** The offsets of the bytes of an object in the pieces sent, in order. *)
Definition offsets (pub : list fragment) (k : okey) : list Z :=
  flat_map (fun f => if bool_decide (f_key f = k) then seqZ (f_offset f) (f_data_length f) else []) pub.

Lemma offsets_app pub pub' k : offsets (pub ++ pub') k = offsets pub k ++ offsets pub' k.
Proof. apply flat_map_app. Qed.

Lemma offsets_one f k :
  offsets [f] k = if bool_decide (f_key f = k) then seqZ (f_offset f) (f_data_length f) else [].
Proof. unfold offsets. cbn. by rewrite app_nil_r. Qed.

Lemma elem_of_offsets pub k i : i ∈ offsets pub k <-> byte_received pub k i.
Proof.
  unfold byte_received. induction pub as [| f pub IH]; cbn.
  - rewrite Exists_nil. split; [by intros ?%not_elem_of_nil | done].
  - rewrite elem_of_app, Exists_cons, <- IH. unfold offsets. apply or_iff_compat_r.
    destruct (bool_decide_reflect (f_key f = k)); [| rewrite elem_of_nil; tauto].
    rewrite elem_of_seqZ. tauto.
Qed.

(** Distinct offsets below [n], as many as [n]: all of them. *)
Lemma offsets_full (l : list Z) n : NoDup l -> (forall i, i ∈ l -> 0 <= i < n) ->
  n <= blen l -> forall i, 0 <= i < n -> i ∈ l.
Proof.
  intros Hnd Hin Hlen i Hi.
  assert (l ⊆+ seqZ 0 n) as Hsub.
  { apply NoDup_submseteq; [done |]. intros x Hx. apply elem_of_seqZ. specialize (Hin x Hx). lia. }
  assert (l ≡ₚ seqZ 0 n) as Hp.
  { apply submseteq_length_Permutation; [done |]. rewrite length_seqZ. unfold blen in Hlen. lia. }
  rewrite Hp. apply elem_of_seqZ. lia.
Qed.

Lemma offsets_bound (l : list Z) n : NoDup l -> 0 <= n -> (forall i, i ∈ l -> 0 <= i < n) -> blen l <= n.
Proof.
  intros Hnd Hn Hin. assert (l ⊆+ seqZ 0 n) as Hsub.
  { apply NoDup_submseteq; [done |]. intros x Hx. apply elem_of_seqZ. specialize (Hin x Hx). lia. }
  apply submseteq_length in Hsub. rewrite length_seqZ in Hsub. unfold blen. lia.
Qed.

(** ** The invariant of the tree *)

Section objects.
Context `{Sp : Splay quicrq_cached_fragment_t quicrq_fragment_cache_node_compare}.
Context {So : Splay okey quicrq_fragment_publisher_object_node_compare} {SL : SplayLaws So}.
Context {Al : Allocator} (md : media).
Implicit Types m : quicrq_fragment_publisher_context_t.
Implicit Types p : quicrq_fragment_publisher_object_state_t.
Implicit Types pub : list fragment.

(** An object of the media, with identifiers below 2^62. *)
Definition media_id (k : okey) : Prop := media_key md k /\ is_id k.1 /\ is_id k.2.

(** The number of objects of the previous group, when it is known, is right. *)
Definition previous_ok (k : okey) (nb : Z) : Prop :=
  0 < k.1 -> k.2 = 0 -> nb = 0 \/ nb = count md (k.1 - 1).

Record object_ok pub (k : okey) p : Prop := {
  ob_key : po_key p = k;
  ob_media : media_id k;
  ob_length : po_object_length p = blen (content md k);
  ob_bytes : po_bytes_sent p = blen (offsets pub k);
  ob_kept : po_is_dropped p = false;
  ob_sent : po_is_sent p = true -> fully_received md pub k;
  ob_previous : previous_ok k (po_nb_objects_previous_group p);
}.

Record objects_ok pub m : Prop := {
  oo_wf : splay_wf okey_ok (pc_tree m);
  oo_nodes : forall k, k ∈ splay_nodes (pc_tree m) <-> is_Some (pc_objects m !! k);
  oo_object : forall k p, pc_objects m !! k = Some p -> object_ok pub k p;
  oo_empty : splay_nodes (pc_tree m) = [] -> pub = [];
  oo_pruned : forall first k, splay_first (pc_tree m) = Some first -> media_key md k ->
    key_lt k first -> fully_received md pub k;
  oo_present : forall f, f ∈ pub -> is_Some (pc_objects m !! f_key f) \/
    exists first, splay_first (pc_tree m) = Some first /\ key_lt (f_key f) first;
}.

(** The pieces are disjoint and inside their objects. *)
Definition pieces_ok pub : Prop := forall k, media_key md k ->
  NoDup (offsets pub k) /\ forall i, i ∈ offsets pub k -> 0 <= i < blen (content md k).

Lemma media_id_ok k : media_id k -> okey_ok k.
Proof. unfold media_id, okey_ok, is_id, is_key. u64_lia. Qed.

Lemma objects_ok_key pub m k : objects_ok pub m -> k ∈ splay_nodes (pc_tree m) -> media_id k.
Proof.
  intros Hm Hk. apply (oo_nodes _ _ Hm) in Hk as [p Hp]. apply (ob_media _ _ _ (oo_object _ _ Hm k p Hp)).
Qed.

(** The order of the nodes. *)
Lemma first_lt pub m first l k : objects_ok pub m -> splay_nodes (pc_tree m) = first :: l -> k ∈ l ->
  key_lt first k.
Proof.
  intros Hm E Hk. pose proof (oo_wf _ _ Hm) as [Hok Hs]. rewrite E in Hok, Hs.
  apply StronglySorted_cons in Hs as [Hf _]. apply Forall_cons in Hok as [Hf0 Hok].
  rewrite Forall_forall in Hf, Hok. apply publisher_compare_lt; auto.
Qed.

Lemma object_get pub m (g o : Z) : objects_ok pub m -> media_id (g, o) ->
  quicrq_fragment_publisher_object_get m g o = pc_objects m !! (g, o).
Proof.
  intros Hm Hk. pose proof (oo_wf _ _ Hm) as Hwf. pose proof (media_id_ok _ Hk) as Hok.
  unfold quicrq_fragment_publisher_object_get, object_state.
  destruct (splay_find (pc_tree m) (g, o)) as [x |] eqn:E; cbn [mbind option_bind].
  - apply (splay_find_elem okey_ok) in E as [Hx Hc]; [| done ..].
    pose proof (media_id_ok _ (objects_ok_key _ _ _ Hm Hx)) as Hxo.
    by apply publisher_compare_eq in Hc as <-.
  - symmetry. apply eq_None_not_Some. intros Hs. apply (oo_nodes _ _ Hm) in Hs.
    eapply (splay_find_None okey_ok) in E; [| done | done | exact Hs]. by destruct E; apply publisher_compare_eq.
Qed.

(** An object that is not fully sent is not before the first one. *)
Lemma before_objects_spec pub m k : objects_ok pub m -> media_id k -> ~ fully_received md pub k ->
  before_objects m k.1 k.2 = false.
Proof.
  intros Hm Hk Hn. unfold before_objects, object_state.
  destruct (splay_first (pc_tree m)) as [first |] eqn:E; cbn [mbind option_bind]; [| done].
  pose proof (splay_first_elem _ _ E) as [p Hp]%(oo_nodes _ _ Hm). rewrite Hp.
  pose proof (ob_key _ _ _ (oo_object _ _ Hm _ _ Hp)) as Ekey.
  destruct (pair_ltb _ _ _ _) eqn:El; [| done]. destruct Hn. apply pair_ltb_spec in El.
  apply (oo_pruned _ _ Hm first k E); [apply Hk |]. rewrite <- Ekey. exact El.
Qed.

(** The pointer to the current fragment is not part of the invariant. *)
Lemma objects_ok_same pub m m' : pc_tree m' = pc_tree m -> pc_objects m' = pc_objects m ->
  objects_ok pub m -> objects_ok pub m'.
Proof. intros Et Eo [H1 H2 H3 H4 H5 H6]. split; rewrite ?Et, ?Eo; done. Qed.

(** ** Pruning *)

Lemma in_sequence pub m first next l p q : objects_ok pub m ->
  splay_nodes (pc_tree m) = first :: next :: l ->
  pc_objects m !! first = Some p -> pc_objects m !! next = Some q -> next_in_sequence p q = true ->
  forall k, media_key md k -> key_lt k next -> k = first \/ key_lt k first.
Proof.
  intros Hm E Hp Hq Hs k [Hk1 Hk2] Hlt.
  destruct (oo_object _ _ Hm _ _ Hp) as [Ep [[Hf1 Hf2] [Hif1 Hif2]] _ _ _ _ _].
  destruct (oo_object _ _ Hm _ _ Hq) as [Eq [[Hn1 Hn2] _] _ _ _ _ Hnb].
  destruct first as [g o], next as [g' o'], k as [kg ko]. unfold po_key in Ep, Eq.
  injection Ep as Eg Eo. injection Eq as Eg' Eo'. unfold next_in_sequence in Hs.
  rewrite Eg, Eo, Eg', Eo' in Hs. unfold key_lt, previous_ok, is_id in *. cbn [fst snd] in *.
  rewrite !u64_small in Hs by u64_lia.
  assert ((kg, ko) = (g, o) <-> kg = g /\ ko = o) as -> by (split; [by intros [=] | by intros [-> ->]]).
  apply orb_true_iff in Hs as [Hs | Hs]; b2p.
  - destruct (Z.eq_dec kg g) as [-> |]; lia.
  - destruct (Hnb ltac:(lia) ltac:(lia)) as [? | Ec]; [lia |].
    replace (g' - 1) with g in Ec by lia. destruct (Z.eq_dec kg g) as [-> |]; lia.
Qed.

Lemma prune_loop_ok fuel pub m : objects_ok pub m ->
  (length (splay_nodes (pc_tree m)) < fuel)%nat ->
  exists t os, prune_loop fuel m (object_state m (splay_first (pc_tree m))) = Some (pc_set_objects m t os) /\
    objects_ok pub (pc_set_objects m t os).
Proof.
  revert m. induction fuel as [| fuel IH]; intros m Hm Hf; [lia |]. cbn [prune_loop].
  assert (forall r, r = m -> exists t os, Some r = Some (pc_set_objects m t os) /\
    objects_ok pub (pc_set_objects m t os)) as Hstop.
  { intros r ->. exists (pc_tree m), (pc_objects m). by destruct m. }
  destruct (splay_first (pc_tree m)) as [first |] eqn:E; cbn [object_state mbind option_bind];
    [| by apply Hstop].
  pose proof (splay_first_elem _ _ E) as Hin. pose proof Hin as [p Hp]%(oo_nodes _ _ Hm). rewrite Hp.
  destruct (oo_object _ _ Hm _ _ Hp) as [Ep Hmed _ _ _ Hsent _]. rewrite Ep.
  destruct (po_is_sent p) eqn:Es; [| by apply Hstop].
  apply splay_first_cons in E as [l El].
  pose proof (splay_wf_nodup okey_ok _ (oo_wf _ _ Hm)) as Hnd.
  rewrite (splay_next_eq _ first [] l El Hnd).
  destruct l as [| next l]; cbn [head object_state mbind option_bind]; [by apply Hstop |].
  assert (next ∈ splay_nodes (pc_tree m)) as [q Hq]%(oo_nodes _ _ Hm) by (rewrite El; right; by left).
  rewrite Hq. destruct (next_in_sequence p q) eqn:En; [| by apply Hstop].
  set (m1 := pc_set_objects m (splay_delete (pc_tree m) first) (delete first (pc_objects m))).
  assert (splay_nodes (pc_tree m1) = next :: l) as El1.
  { cbn. by rewrite (splay_nodes_delete _ first [] (next :: l) El Hnd). }
  assert (splay_first (pc_tree m1) = Some next) as E1 by (by rewrite splay_first_eq, El1).
  assert (key_lt first next) as Hlt by (eapply first_lt; [exact Hm | exact El | by left]).
  assert (first <> next) as Hne by (intros ->; unfold key_lt in Hlt; lia).
  assert (objects_ok pub m1) as Hm1.
  { split.
    - by apply (splay_wf_delete okey_ok); [apply Hm |].
    - intros k. cbn. rewrite (elem_of_splay_delete okey_ok), (oo_nodes _ _ Hm) by (try apply Hm; done).
      destruct (decide (k = first)) as [-> | Hk].
      + rewrite lookup_delete_eq. split; [by intros [_ ?] | by intros [? ?]].
      + rewrite lookup_delete_ne by done. tauto.
    - intros k x. cbn. intros [_ Hx]%lookup_delete_Some. by apply (oo_object _ _ Hm).
    - rewrite El1. done.
    - intros first' k. rewrite E1. intros [= <-] Hk Hkn.
      destruct (in_sequence _ _ _ _ _ _ _ Hm El Hp Hq En k Hk Hkn) as [-> | Hkf]; [by apply Hsent |].
      apply (oo_pruned _ _ Hm first); [by rewrite splay_first_eq, El | done | done].
    - intros f Hf'. rewrite E1. destruct (oo_present _ _ Hm f Hf') as [Hs | (x & Hx & Hxf)].
      + destruct (decide (f_key f = first)) as [-> | Hk]; [right; by exists next |].
        left. cbn. by rewrite lookup_delete_ne.
      + right. exists next. split; [done |]. rewrite splay_first_eq, El in Hx. injection Hx as <-.
        unfold key_lt in *. lia. }
  assert (Some q = object_state m1 (splay_first (pc_tree m1))) as ->.
  { rewrite E1. cbn. by rewrite lookup_delete_ne. }
  destruct (IH m1 Hm1) as (t & os & -> & Hm2).
  { rewrite El1. rewrite El in Hf. cbn in Hf |- *. lia. }
  by exists t, os.
Qed.

Lemma prune_ok pub m : objects_ok pub m ->
  exists t os, quicrq_fragment_datagram_publisher_object_prune m = Some (pc_set_objects m t os) /\
    objects_ok pub (pc_set_objects m t os).
Proof. intros Hm. apply prune_loop_ok; [done | lia]. Qed.

(** ** A piece is sent *)

Lemma received_more pub x k : fully_received md pub k -> fully_received md (pub ++ [x]) k.
Proof.
  intros [Hex Hall]. split; [apply Exists_app; by left |]. intros i Hi.
  apply Exists_app. left. by apply Hall.
Qed.

(** A new object enters the tree after the first one. *)
Lemma add_ok pub m k : objects_ok pub m -> media_id k -> pc_objects m !! k = None ->
  ~ fully_received md pub k -> (pub = [] -> forall k', media_key md k' -> ~ key_lt k' k) ->
  malloc_ok sizeof_publisher_object = true ->
  exists m' p t os,
    quicrq_fragment_publisher_object_add m k.1 k.2 (blen (content md k)) = Some m' /\
    m' = pc_set_objects m t os /\ pc_objects m' !! k = Some p /\ objects_ok pub m'.
Proof.
  intros Hm Hk Hnone Hnf Hmin Hal. unfold quicrq_fragment_publisher_object_add. rewrite Hal.
  rewrite <- surjective_pairing. eexists _, _, _, _. split; [done |]. split; [done |].
  split; [apply lookup_insert_eq |].
  pose proof (oo_wf _ _ Hm) as Hwf. pose proof (media_id_ok _ Hk) as Hok.
  assert (splay_find (pc_tree m) k = None) as Hfind.
  { apply (splay_find_None okey_ok); [done | done |]. intros x Hx Hc.
    apply publisher_compare_eq in Hc as <-; [| done | by apply media_id_ok, (objects_ok_key pub m)].
    apply (oo_nodes _ _ Hm) in Hx as [? ?]. congruence. }
  assert (offsets pub k = [] /\ forall first, splay_first (pc_tree m) = Some first -> key_lt first k)
    as [Hoff Hfirst].
  { assert (forall first, splay_first (pc_tree m) = Some first -> ~ key_lt k first) as Hno.
    { intros first E Hlt. destruct Hnf. by apply (oo_pruned _ _ Hm first); [| apply Hk |]. }
    split.
    - destruct (offsets pub k) as [| i l] eqn:E; [done |].
      assert (i ∈ offsets pub k) as Hi by (rewrite E; by left).
      apply elem_of_offsets, Exists_exists in Hi as (f & Hf & Ek & _).
      destruct (oo_present _ _ Hm f Hf) as [Hs | (first & Ef & Hlt)]; rewrite Ek in *.
      + rewrite Hnone in Hs. by destruct Hs.
      + by destruct (Hno first).
    - intros first E. specialize (Hno first E). pose proof (splay_first_elem _ _ E) as Hin.
      assert (first <> k) by (intros ->; apply (oo_nodes _ _ Hm) in Hin as [? ?]; congruence).
      destruct first as [g o], k as [g' o']. unfold key_lt in *. cbn [fst snd] in *.
      destruct (Z.eq_dec g g') as [-> |]; [| lia].
      destruct (Z.eq_dec o o') as [-> |]; [done | lia]. }
  assert (splay_first (splay_insert (pc_tree m) k) =
    Some (default k (splay_first (pc_tree m)))) as Ef.
  { rewrite !splay_first_eq, (splay_nodes_insert okey_ok); [| apply publisher_order | by apply (splay_wf_sorted okey_ok) | done].
    rewrite splay_first_eq in Hfirst. destruct (splay_nodes (pc_tree m)) as [| first l] eqn:El; [done |].
    cbn in Hfirst |- *. specialize (Hfirst first eq_refl).
    destruct (Z.ltb_spec (quicrq_fragment_publisher_object_node_compare k first) 0) as [Hlt |]; [| done].
    apply publisher_compare_lt in Hlt; [unfold key_lt in *; lia | done |].
    apply media_id_ok, (objects_ok_key pub m); [done |]. rewrite El. by left. }
  split; cbn.
  - by apply (splay_wf_insert okey_ok).
  - intros x. rewrite (elem_of_splay_insert okey_ok), (oo_nodes _ _ Hm) by done.
    rewrite lookup_insert_is_Some. destruct (decide (k = x)) as [-> |]; [tauto |].
    split; [intros [-> | ?]; [done | by right] | intros [? | [_ ?]]; [done | by right]].
  - intros x p. rewrite lookup_insert_Some. intros [[<- <-] | [_ Hp]]; [| by apply (oo_object _ _ Hm)].
    split; cbn; try done; [by destruct k | by rewrite Hoff | by left].
  - intros E. assert (k ∈ splay_nodes (splay_insert (pc_tree m) k)) as Hin
      by (apply (elem_of_splay_insert okey_ok); auto). rewrite E in Hin. by apply not_elem_of_nil in Hin.
  - rewrite Ef. intros first x [= <-] Hx Hlt. destruct (splay_first (pc_tree m)) as [first |] eqn:E; cbn in Hlt.
    + by apply (oo_pruned _ _ Hm first).
    + rewrite splay_first_eq in E. destruct (splay_nodes (pc_tree m)) eqn:El; [| done].
      by destruct (Hmin (oo_empty _ _ Hm El) x).
  - intros f Hf. rewrite Ef. destruct (oo_present _ _ Hm f Hf) as [Hs | (first & E & Hlt)].
    + left. apply lookup_insert_is_Some'. by right.
    + right. rewrite E. by exists first.
Qed.

(** The object of the piece is updated. *)
Lemma put_ok pub m k p p' x : objects_ok pub m -> pc_objects m !! k = Some p -> f_key x = k ->
  object_ok (pub ++ [x]) k p' ->
  objects_ok (pub ++ [x]) (pc_set_objects m (pc_tree m) (<[k := p']> (pc_objects m))).
Proof.
  intros Hm Hp Hx Hp'.
  assert (forall k', is_Some (<[k := p']> (pc_objects m) !! k') <-> is_Some (pc_objects m !! k')) as Hdom.
  { intros k'. destruct (decide (k = k')) as [<- |].
    - rewrite lookup_insert_eq, Hp. split; by eexists.
    - by rewrite lookup_insert_ne. }
  split; cbn.
  - apply Hm.
  - intros k'. by rewrite Hdom, (oo_nodes _ _ Hm).
  - intros k' q. rewrite lookup_insert_Some. intros [[<- <-] | [Hne Hq]]; [done |].
    destruct (oo_object _ _ Hm _ _ Hq) as [H1 H2 H3 H4 H5 H6 H7]. split; try done.
    + by rewrite offsets_app, offsets_one, bool_decide_false, app_nil_r by congruence.
    + intros Hs. by apply received_more, H6.
  - intros E. assert (k ∈ splay_nodes (pc_tree m)) as Hin by (apply (oo_nodes _ _ Hm); eauto).
    rewrite E in Hin. by apply not_elem_of_nil in Hin.
  - intros first k' E Hk' Hlt. by eapply received_more, (oo_pruned _ _ Hm).
  - intros f [Hf | ->]%elem_of_snoc.
    + rewrite Hdom. by apply (oo_present _ _ Hm).
    + left. rewrite Hx, lookup_insert_eq. by eexists.
Qed.

(** The piece completes the object, for one reason or the other. *)
Lemma piece_completes pub x off n : media_key md (f_key x) -> pieces_ok (pub ++ [x]) ->
  f_offset x = off -> f_data_length x = n -> 0 <= off -> 0 <= n ->
  (blen (content md (f_key x)) <= off + n /\ off + n <= n) \/
  blen (content md (f_key x)) <= blen (offsets pub (f_key x)) + n ->
  fully_received md (pub ++ [x]) (f_key x).
Proof.
  intros Hk Hpub Eo En Hoff Hn Hwhy. split.
  { apply Exists_app. right. by constructor. }
  intros i Hi. apply elem_of_offsets. destruct (Hpub _ Hk) as [Hnd Hin].
  rewrite offsets_app, offsets_one, bool_decide_true in Hnd, Hin |- * by done. rewrite Eo, En in *.
  destruct Hwhy as [? | Hc].
  - apply elem_of_app. right. apply elem_of_seqZ. lia.
  - eapply offsets_full; [done | exact Hin | | done]. rewrite blen_app.
    unfold blen at 3. rewrite length_seqZ. lia.
Qed.

Lemma update_ok pub m f x next_offset copied :
  objects_ok pub m -> pc_current_fragment m = Some f -> media_id (cf_group_id f, cf_object_id f) ->
  cf_object_length f = blen (content md (cf_group_id f, cf_object_id f)) ->
  previous_ok (cf_group_id f, cf_object_id f) (cf_nb_objects_previous_group f) ->
  f_key x = (cf_group_id f, cf_object_id f) -> f_offset x = next_offset - copied ->
  f_data_length x = copied -> 0 <= copied <= next_offset -> pieces_ok (pub ++ [x]) ->
  ~ fully_received md pub (cf_group_id f, cf_object_id f) ->
  (pub = [] -> forall k', media_key md k' -> ~ key_lt k' (cf_group_id f, cf_object_id f)) ->
  malloc_ok sizeof_publisher_object = true ->
  exists t os, quicrq_fragment_datagram_publisher_object_update m false next_offset copied
      = Some (pc_set_objects m t os, 0) /\ objects_ok (pub ++ [x]) (pc_set_objects m t os).
Proof.
  intros Hm Ef Hk Hlen Hnb Hxk Hxo Hxl Hc Hpub Hnf Hmin Hal.
  unfold quicrq_fragment_datagram_publisher_object_update. rewrite Ef. cbn [mbind option_bind].
  set (k := (cf_group_id f, cf_object_id f)) in *.
  assert (exists m1 p t os,
    match quicrq_fragment_publisher_object_get m (cf_group_id f) (cf_object_id f) with
    | Some p => Some (m, p)
    | None => m ← quicrq_fragment_publisher_object_add m (cf_group_id f) (cf_object_id f) (cf_object_length f);
              p ← pc_objects m !! k; Some (m, p)
    end = Some (m1, p) /\ m1 = pc_set_objects m t os /\ pc_objects m1 !! k = Some p /\ objects_ok pub m1)
    as (m1 & p & t1 & os1 & -> & Em1 & Hp & Hm1).
  { rewrite (object_get pub) by done. fold k. destruct (pc_objects m !! k) as [p |] eqn:E.
    - exists m, p, (pc_tree m), (pc_objects m). split_and!; try done. by destruct m.
    - destruct (add_ok pub m k Hm Hk E Hnf Hmin Hal) as (m1 & p & t & os & Ea & Em & Hp & Hm1).
      cbn [fst snd k] in Ea. rewrite Hlen, Ea. cbn [mbind option_bind]. rewrite Hp. cbn [mbind option_bind].
      by exists m1, p, t, os. }
  destruct (oo_object _ _ Hm1 _ _ Hp) as [E1 E2 E3 E4 E5 E6 E7].
  pose proof (content_range md k) as Hcr.
  assert (media_key md (f_key x)) as Hmk by (rewrite Hxk; apply Hk).
  destruct (Hpub _ Hmk) as [Hnd Hin]. rewrite Hxk in Hnd, Hin.
  pose proof (offsets_bound _ _ Hnd (blen_nonneg _) Hin) as Hbound.
  rewrite offsets_app, offsets_one, bool_decide_true in Hbound by done.
  rewrite blen_app, Hxl in Hbound. unfold blen at 2 in Hbound. rewrite length_seqZ in Hbound.
  pose proof (blen_nonneg (offsets pub k)). rewrite E3, E4.
  rewrite (u64_small (_ + copied)) by u64_lia.
  set (nb := if 0 <? cf_nb_objects_previous_group f then cf_nb_objects_previous_group f else _).
  set (p1 := po_document p _ _ nb).
  assert (object_ok (pub ++ [x]) k p1) as Hp1.
  { split; cbn; try done.
    - rewrite offsets_app, offsets_one, bool_decide_true by done. rewrite blen_app, Hxl.
      unfold blen at 3. rewrite length_seqZ. lia.
    - intros Hs. by apply received_more, E6.
    - unfold nb. by destruct (0 <? _). }
  assert (po_object_length p1 = blen (content md k)) as El1 by done.
  assert (po_bytes_sent p1 = blen (offsets pub k) + copied) as Eb1 by done.
  assert (forall os, pc_set_objects m1 (pc_tree m1) os = pc_set_objects m (pc_tree m1) os) as Eset
    by (intros os; by rewrite Em1).
  rewrite El1, Eb1. destruct (_ || _) eqn:Edone.
  - assert (object_ok (pub ++ [x]) k (po_set_sent p1)) as Hp2.
    { destruct Hp1 as [P1 P2 P3 P4 P5 P6 P7]. split; try done. intros _. rewrite <- Hxk.
      apply (piece_completes pub x (next_offset - copied) copied); try done; [lia | lia |]. rewrite Hxk.
      apply orb_true_iff in Edone as [Ed | Ed]; b2p; [left | right]; lia. }
    rewrite Eset. destruct (prune_ok (pub ++ [x]) (pc_set_objects m (pc_tree m1) (<[k := po_set_sent p1]> (pc_objects m1))))
      as (t & os & -> & Hok).
    { rewrite <- Eset. by apply (put_ok pub m1 k p). }
    cbn [mbind option_bind]. by exists t, os.
  - rewrite Eset. eexists _, _. split; [done |]. rewrite <- Eset. by apply (put_ok pub m1 k p).
Qed.
End objects.
