(* ===== verification/DatagramProofs.v ===== *)
(** * The datagram publisher, step by step

    The position of the publisher in the list of the fragments of the cache,
    the next fragment, and the datagram that is sent. *)

From S2P Require Import Prelude Picosplay PicoFrames Media Proto.
From S2P Require Import Fragment FragmentProofs FragmentReads FragmentHistory.
From S2P Require Import PublisherContext Congestion Ack AckContents DatagramPublisher DatagramObjects.

(** ** The pieces of a cached fragment *)

(** What the datagram carries that has [n] bytes of the fragment, from the
    byte [a] of its data. *)
Definition cut_piece (f : quicrq_cached_fragment_t) (a n : Z) : fragment := {|
  f_time := 0; f_data := slice (cf_data f) a n; f_group := cf_group_id f; f_object := cf_object_id f;
  f_offset := cf_offset f + a; f_delay := cf_queue_delay f; f_flags := cf_flags f;
  f_nb_previous := if (cf_object_id f =? 0) && (cf_offset f + a =? 0)
                   then cf_nb_objects_previous_group f else 0;
  f_object_length := cf_object_length f; f_data_length := n |}.

(** Consecutive pieces, from the beginning of the data to the byte [b]. *)
Inductive cut_into (f : quicrq_cached_fragment_t) : list fragment -> Z -> Prop :=
  | cut_nil : cut_into f [] 0
  | cut_snoc ps a n : cut_into f ps a -> 0 < n -> a + n <= cf_data_length f ->
      cut_into f (ps ++ [cut_piece f a n]) (a + n).

Definition cut_whole (f : quicrq_cached_fragment_t) (ps : list fragment) : Prop :=
  cut_into f ps (cf_data_length f).

Lemma cut_into_range f ps b : cut_into f ps b -> 0 <= b.
Proof. induction 1; lia. Qed.

(** A piece is inside its fragment, before the byte [b]. *)
Lemma cut_into_elem f ps b p : cut_into f ps b -> p ∈ ps ->
  f_key p = frag_key f /\ cf_offset f <= f_offset p /\ 0 < f_data_length p /\
  f_offset p + f_data_length p <= cf_offset f + b.
Proof.
  induction 1 as [| ps a n H IH Hn Ha]; [by intros ?%not_elem_of_nil |].
  pose proof (cut_into_range _ _ _ H). intros [Hp | ->]%elem_of_snoc.
  - destruct (IH Hp) as (? & ? & ? & ?). split_and!; [done | lia..].
  - cbn. split_and!; [done | lia..].
Qed.

(** The pieces give back the bytes. *)
Lemma cut_into_data f ps b : cut_into f ps b -> concat (map f_data ps) = slice (cf_data f) 0 b.
Proof.
  induction 1 as [| ps a n H IH Hn Ha]; [done |]. pose proof (cut_into_range _ _ _ H).
  rewrite map_app, concat_app, IH. cbn. rewrite app_nil_r. rewrite <- (Z.add_0_l a) at 2.
  by rewrite slice_app by lia.
Qed.

Lemma cut_into_received f ps b i : cut_into f ps b -> 0 <= i < b ->
  byte_received ps (frag_key f) (cf_offset f + i).
Proof.
  unfold byte_received. induction 1 as [| ps a n H IH Hn Ha]; [lia |]. intros Hi. apply Exists_app.
  destruct (Z.lt_ge_cases i a); [left; apply IH; lia | right]. constructor. cbn. split; [done | lia].
Qed.

(** ** The position of the publisher *)

Section publisher.
Context `{SL : SplayLaws quicrq_cached_fragment_t quicrq_fragment_cache_node_compare}.
Context {So : Splay okey quicrq_fragment_publisher_object_node_compare}.
Implicit Types m : quicrq_fragment_publisher_context_t.
Implicit Types l : list quicrq_cached_fragment_t.
Implicit Types pub : list fragment.

(** What was sent of the list of fragments: all the pieces of the first ones,
    and the first pieces of the current one. *)
Inductive at_position l m pub : Prop :=
  | at_start : pc_current_fragment m = None -> pc_length_sent m = 0 -> pub = [] -> at_position l m pub
  | at_fragment before f after done ps :
      l = before ++ f :: after -> pc_current_fragment m = Some f ->
      Forall2 cut_whole before done -> cut_into f ps (pc_length_sent m) -> pub = concat done ++ ps ->
      pc_length_sent m <= cf_data_length f ->
      (pc_is_current_fragment_sent m = true <-> pc_length_sent m = cf_data_length f) ->
      at_position l m pub.

(** All the fragments were sent. *)
Definition all_sent l pub : Prop := exists done, Forall2 cut_whole l done /\ pub = concat done.

(** The list of fragments grows. *)
Lemma at_position_grows l l' m pub : at_position l m pub -> at_position (l ++ l') m pub.
Proof.
  intros [H1 H2 H3 | before f after done ps H1 H2 H3 H4 H5 H6 H7]; [by apply at_start |].
  eapply (at_fragment _ _ _ before f (after ++ l')); try done. by rewrite H1, <- (assoc_L (++)).
Qed.

Lemma Forall2_cut_elem before done p : Forall2 cut_whole before done -> p ∈ concat done ->
  exists x, x ∈ before /\ f_key p = frag_key x /\ cf_offset x <= f_offset p /\ 0 < f_data_length p /\
    f_offset p + f_data_length p <= cf_offset x + cf_data_length x.
Proof.
  induction 1 as [| x ps before done Hx _ IH]; cbn; [by intros ?%not_elem_of_nil |].
  intros [Hp | Hp]%elem_of_app.
  - exists x. split; [by left |]. by apply (cut_into_elem x ps).
  - destruct (IH Hp) as (y & Hy & ?). exists y. split; [by right | done].
Qed.

(** A piece that was sent is inside a fragment: before the current one, or the
    current one before the position. *)
Lemma at_position_elem l m pub p : at_position l m pub -> p ∈ pub ->
  exists x, x ∈ l /\ f_key p = frag_key x /\ cf_offset x <= f_offset p /\ 0 < f_data_length p /\
    f_offset p + f_data_length p <= cf_offset x + cf_data_length x.
Proof.
  intros [H1 H2 -> | before f after done ps -> H2 H3 H4 -> H6 H7]; [by intros ?%not_elem_of_nil |].
  intros [Hp | Hp]%elem_of_app.
  - destruct (Forall2_cut_elem _ _ _ H3 Hp) as (x & Hx & ?). exists x.
    split; [apply elem_of_app; by left | done].
  - destruct (cut_into_elem _ _ _ _ H4 Hp) as (? & ? & ? & ?). exists f.
    split; [apply elem_of_middle |]. split_and!; try done; lia.
Qed.

Lemma all_sent_received l pub f i : all_sent l pub -> f ∈ l -> cf_offset f <= i < cf_offset f + cf_data_length f ->
  byte_received pub (frag_key f) i.
Proof.
  intros (done & Hd & ->) Hf Hi. induction Hd as [| x ps l done Hx _ IH]; [by apply not_elem_of_nil in Hf |].
  cbn. apply Exists_app. apply elem_of_cons in Hf as [-> | Hf]; [left | right; by apply IH].
  replace i with (cf_offset x + (i - cf_offset x)) by lia. eapply cut_into_received; [exact Hx | lia].
Qed.

(** ** The current fragment *)

Lemma fragments_after_spec before f after : NoDup (map cf_addr (before ++ f :: after)) ->
  fragments_after (before ++ f :: after) f = Some after.
Proof.
  induction before as [| x before IH]; cbn; [by rewrite Z.eqb_refl |].
  intros [Hx Hnd]%NoDup_cons. destruct (Z.eqb_spec (cf_addr x) (cf_addr f)) as [E |]; [| by apply IH].
  destruct Hx. rewrite E. apply list_elem_of_fmap. exists f. split; [done | apply elem_of_middle].
Qed.

(** ** Pieces of a media *)

Context (md : media).
Implicit Types c : quicrq_fragment_cache_t.

(** Fragments do not share bytes. *)
Lemma tidy_shared c x y i : tidy md c -> x ∈ fc_fragments c -> y ∈ fc_fragments c ->
  frag_key x = frag_key y -> cf_offset x <= i < cf_offset x + cf_data_length x ->
  cf_offset y <= i < cf_offset y + cf_data_length y -> x = y.
Proof.
  intros Ht Hx Hy Hk Hix Hiy. apply (tidy_offset_unique md c); try done.
  destruct (Z.lt_trichotomy (cf_offset x) (cf_offset y)) as [Hlt | [E | Hlt]]; [| done |].
  - pose proof (td_disjoint _ _ Ht x y Hx Hy Hk Hlt). lia.
  - pose proof (td_disjoint _ _ Ht y x Hy Hx (eq_sym Hk) Hlt). lia.
Qed.

Lemma cut_into_offsets f ps b k : cut_into f ps b ->
  offsets ps k = if bool_decide (frag_key f = k) then seqZ (cf_offset f) b else [].
Proof.
  induction 1 as [| ps a n H IH Hn Ha]; [by destruct (bool_decide _) |].
  pose proof (cut_into_range _ _ _ H).
  rewrite offsets_app, offsets_one, IH. change (f_key (cut_piece f a n)) with (frag_key f).
  destruct (bool_decide _); [| done]. cbn [f_offset f_data_length cut_piece].
  by rewrite seqZ_app by lia.
Qed.

Lemma whole_offsets before done k i : Forall2 cut_whole before done -> i ∈ offsets (concat done) k ->
  exists x, x ∈ before /\ frag_key x = k /\ cf_offset x <= i < cf_offset x + cf_data_length x.
Proof.
  intros Hd Hi. apply elem_of_offsets, Exists_exists in Hi as (p & Hp & Hk & Hr).
  destruct (Forall2_cut_elem _ _ _ Hd Hp) as (x & Hx & E & ? & ? & ?).
  exists x. split; [done |]. split; [congruence | lia].
Qed.

Lemma whole_NoDup c before done k : tidy md c -> NoDup before -> (forall x, x ∈ before -> x ∈ fc_fragments c) ->
  Forall2 cut_whole before done -> NoDup (offsets (concat done) k).
Proof.
  intros Ht Hnd Hsub Hd. induction Hd as [| x ps before done Hx Hd IH]; [constructor |].
  apply NoDup_cons in Hnd as [Hxb Hnd]. cbn [concat]. rewrite offsets_app, (cut_into_offsets _ _ _ k Hx).
  apply NoDup_app. split_and!.
  - destruct (bool_decide _); [apply NoDup_seqZ | constructor].
  - intros i Hi Hi'. destruct (bool_decide_reflect (frag_key x = k)); [| by apply not_elem_of_nil in Hi].
    apply elem_of_seqZ in Hi. destruct (whole_offsets _ _ _ _ Hd Hi') as (y & Hy & Hk & Hr).
    assert (x = y) as ->; [| done].
    apply (tidy_shared c x y i); try done; [apply Hsub; by left | apply Hsub; by right | congruence].
  - apply IH; [done |]. intros y Hy. apply Hsub. by right.
Qed.

(** The fragments are distinct. *)
Lemma tidy_distinct c : tidy md c -> NoDup (map cf_addr (fc_fragments c)) /\ NoDup (fc_fragments c).
Proof.
  intros Ht. pose proof (so_addrs _ (co_store _ _ (td_cache _ _ Ht))) as H. split; [done |].
  by eapply NoDup_fmap_1.
Qed.

Lemma position_pieces c m pub : tidy md c -> at_position (fc_fragments c) m pub -> pieces_ok md pub.
Proof.
  intros Ht Hp k Hk. split.
  - destruct Hp as [_ _ -> | before f after done ps El H2 H3 H4 -> H6 H7]; [constructor |].
    destruct (tidy_distinct c Ht) as [_ Hnd]. rewrite El in Hnd.
    assert (forall x, x ∈ before ++ f :: after -> x ∈ fc_fragments c) as Hin by (by rewrite El).
    apply NoDup_app in Hnd as (Hnb & Hdis & _).
    rewrite offsets_app, (cut_into_offsets _ _ _ k H4). apply NoDup_app. split_and!.
    + eapply whole_NoDup; [exact Ht | done | | exact H3]. intros x Hx. apply Hin, elem_of_app. by left.
    + intros i Hi Hi'. destruct (bool_decide_reflect (frag_key f = k)); [| by apply not_elem_of_nil in Hi'].
      apply elem_of_seqZ in Hi'. destruct (whole_offsets _ _ _ _ H3 Hi) as (y & Hy & Hky & Hr).
      assert (f = y) as ->; [| apply (Hdis y Hy); by left].
      apply (tidy_shared c f y i); try done; [apply Hin, elem_of_middle | | congruence | lia].
      apply Hin, elem_of_app. by left.
    + destruct (bool_decide _); [apply NoDup_seqZ | constructor].
  - intros i Hi. apply elem_of_offsets, Exists_exists in Hi as (p & Hpp & Hkp & Hr).
    destruct (at_position_elem _ _ _ _ Hp Hpp) as (x & Hx & Hkx & ? & ? & ?).
    pose proof (pc_range _ _ (tidy_piece md c x Ht Hx)) as Hpr. fold (frag_key x) in Hpr.
    rewrite <- Hkx, Hkp in Hpr. lia.
Qed.

(** The next byte of the current fragment was not sent. *)
Lemma position_next c m pub before f after done ps :
  tidy md c -> fc_fragments c = before ++ f :: after -> Forall2 cut_whole before done ->
  cut_into f ps (pc_length_sent m) -> pub = concat done ++ ps -> pc_length_sent m < cf_data_length f ->
  ~ byte_received pub (frag_key f) (cf_offset f + pc_length_sent m).
Proof.
  intros Ht El H3 H4 -> Hlt. unfold byte_received. rewrite Exists_app.
  pose proof (cut_into_range _ _ _ H4). intros [Hb | Hb].
  - apply elem_of_offsets in Hb. destruct (whole_offsets _ _ _ _ H3 Hb) as (x & Hx & Hk & Hr).
    destruct (tidy_distinct c Ht) as [_ Hnd]. rewrite El in Hnd. apply NoDup_app in Hnd as (_ & Hdis & _).
    assert (x = f) as ->; [| apply (Hdis f Hx); by left].
    apply (tidy_shared c x f (cf_offset f + pc_length_sent m)); try done; [| | lia]; rewrite El;
      [apply elem_of_app; by left | apply elem_of_middle].
  - apply Exists_exists in Hb as (p & Hp & _ & Hr).
    destruct (cut_into_elem _ _ _ _ H4 Hp) as (_ & ? & ? & ?). lia.
Qed.

Lemma position_not_full c m pub before f after done ps :
  tidy md c -> fc_fragments c = before ++ f :: after -> Forall2 cut_whole before done ->
  cut_into f ps (pc_length_sent m) -> pub = concat done ++ ps -> pc_length_sent m < cf_data_length f ->
  ~ fully_received md pub (frag_key f).
Proof.
  intros Ht El H3 H4 Hpub Hlt [_ Hall].
  eapply (position_next c m pub before f after done ps); try done. apply Hall.
  assert (f ∈ fc_fragments c) as Hf by (rewrite El; apply elem_of_middle).
  pose proof (pc_range _ _ (tidy_piece md c f Ht Hf)) as Hr. fold (frag_key f) in Hr.
  pose proof (cut_into_range _ _ _ H4). lia.
Qed.
End publisher.

(** ** The calls of the publisher *)

Section calls.
Context `{SL : SplayLaws quicrq_cached_fragment_t quicrq_fragment_cache_node_compare}.
Context {So : Splay okey quicrq_fragment_publisher_object_node_compare} {SLo : SplayLaws So}.
Context {Sa : Splay akey quicrq_datagram_ack_node_compare}.
Context {Al : Allocator} {PF : PicoFrames} {FL : FramesLaws PF} {PD : PicoDatagram}.
Context (alloc_ok : forall n, malloc_ok n = true)
  (provided : forall n, picoquic_provide_datagram_buffer n = true).
Context (md : media).
Implicit Types c : quicrq_fragment_cache_t.
Implicit Types m : quicrq_fragment_publisher_context_t.
Implicit Types pub : list fragment.

(** The caches that can be sent: the first fragment that arrived is of the
    first object, and the fields fit in the header of a datagram. *)
Record datagram_cache c : Prop := {
  dc_tidy : tidy md c;
  dc_nonempty : forall k, 0 < blen (content md k);
  dc_length : forall k, blen (content md k) < 16384;
  dc_count : forall g, count md g < 16384;
  dc_media : forall f, f ∈ fc_fragments c -> cf_object_id f < count md (cf_group_id f);
  dc_small : forall f, f ∈ fc_fragments c -> cf_group_id f < 16384 /\ 0 <= cf_queue_delay f < 16384 /\
    0 <= cf_nb_objects_previous_group f < 16384;
  dc_previous : forall f, f ∈ fc_fragments c ->
    previous_ok md (frag_key f) (cf_nb_objects_previous_group f);
  dc_first : forall f l, fc_fragments c = f :: l -> frag_key f = (0, 0);
}.

Record publisher_ok c m pub : Prop := {
  pk_mode : pc_congestion_control_mode m = quicrq_congestion_control_none;
  pk_position : at_position (fc_fragments c) m pub;
  pk_objects : objects_ok md pub m;
}.

Lemma cached_media_id c f : datagram_cache c -> f ∈ fc_fragments c -> media_id md (frag_key f).
Proof.
  intros Hc Hf. pose proof (tidy_piece md c f (dc_tidy _ Hc) Hf) as [Hg Ho _ _ _].
  pose proof (dc_media _ Hc f Hf). unfold media_id, media_key, frag_key, is_id in *. cbn. lia.
Qed.

Lemma cached_positive c f : datagram_cache c -> f ∈ fc_fragments c -> 0 < cf_data_length f.
Proof.
  intros Hc Hf. destruct (td_nonempty _ _ (dc_tidy _ Hc) f Hf) as [? | E]; [done |].
  pose proof (dc_nonempty _ Hc (frag_key f)). lia.
Qed.

Lemma never_before_start c f : datagram_cache c -> f ∈ fc_fragments c -> before_start 0 0 f = false.
Proof.
  intros Hc Hf. destruct (cached_media_id c f Hc Hf) as [[H1 H2] _]. unfold frag_key in *. cbn in *.
  unfold before_start. apply pair_ltb_false. lia.
Qed.

Lemma datagram_congestion_none qr_mode c m cg now f : pc_current_fragment m = Some f ->
  pc_congestion_control_mode m = quicrq_congestion_control_none ->
  quicrq_evaluate_datagram_congestion qr_mode c m cg now = Some (m, cg, false).
Proof.
  intros Ef Em. unfold quicrq_evaluate_datagram_congestion. rewrite Ef, Em. cbn [mbind option_bind].
  by destruct (_ && _).
Qed.

(** A publisher that has sent a fragment goes on to the next one, which is not
    skipped. *)
Lemma next_fragment_spec qr_mode c m pub cg now before f f' after done ps : datagram_cache c ->
  pc_congestion_control_mode m = quicrq_congestion_control_none -> objects_ok md pub m ->
  fc_fragments c = before ++ f :: f' :: after ->
  Forall2 cut_whole (before ++ [f]) (done ++ [ps]) -> pub = concat (done ++ [ps]) ->
  exists m', next_fragment_loop qr_mode c 0 0 now (f' :: after) m cg = Some (m', cg, false) /\ publisher_ok c m' pub /\
    ((exists f, pc_current_fragment m' = Some f /\ pc_is_current_fragment_sent m' = false) \/
     (all_sent (fc_fragments c) pub /\
      match pc_current_fragment m' with Some _ => pc_is_current_fragment_sent m' = true | None => True end)).
Proof.
  intros Hc Hmode Hm El Hdone Epub. cbn [next_fragment_loop].
  set (m1 := pc_set_fragment (pc_set_sent m 0 false) (Some f')).
  assert (fc_fragments c = (before ++ [f]) ++ f' :: after) as El' by (by rewrite <- (assoc_L (++))).
  assert (f' ∈ fc_fragments c) as Hf' by (rewrite El'; apply elem_of_middle).
  pose proof (cached_positive c f' Hc Hf') as Hpos.
  pose proof (cached_media_id c f' Hc Hf') as Hmed.
  assert (publisher_ok c m1 pub) as Hm1.
  { split; [done | | by apply (objects_ok_same md pub m)].
    apply (at_fragment _ _ _ (before ++ [f]) f' after (done ++ [ps]) []); try done; cbn;
      [constructor | by rewrite app_nil_r | lia | split; [done | lia]]. }
  assert (~ fully_received md pub (frag_key f')) as Hnf.
  { apply (position_not_full md c m1 pub (before ++ [f]) f' after (done ++ [ps]) []); try done;
      [apply Hc | constructor | by rewrite app_nil_r]. }
  pose proof (pk_objects _ _ _ Hm1) as Ho1. unfold frag_key in Hmed.
  rewrite (object_get md pub m1) by done.
  assert (exists m', Some (m1, cg, false) = Some (m', cg, false) /\ publisher_ok c m' pub /\
    ((exists f, pc_current_fragment m' = Some f /\ pc_is_current_fragment_sent m' = false) \/
     (all_sent (fc_fragments c) pub /\ match pc_current_fragment m' with
        | Some _ => pc_is_current_fragment_sent m' = true | None => True end))) as Hdone1.
  { exists m1. split; [done |]. split; [done |]. left. by exists f'. }
  destruct (pc_objects m1 !! _) as [p |] eqn:Eo.
  * rewrite (ob_kept _ _ _ _ (oo_object _ _ _ Ho1 _ _ Eo)), (never_before_start c f') by done. exact Hdone1.
  * pose proof (before_objects_spec md pub m1 (frag_key f') Ho1 Hmed Hnf) as Hb. cbn in Hb. rewrite Hb.
    by rewrite (datagram_congestion_none qr_mode c m1 cg now f').
Qed.

(** The publisher has a fragment to send, or has sent them all. *)
Lemma check_fragment_spec qr_mode c m pub cg now : datagram_cache c -> publisher_ok c m pub ->
  exists m', quicrq_fragment_datagram_publisher_check_fragment qr_mode c 0 0 m cg now = Some (m', cg, false) /\
    publisher_ok c m' pub /\
    ((exists f, pc_current_fragment m' = Some f /\ pc_is_current_fragment_sent m' = false) \/
     (all_sent (fc_fragments c) pub /\
      match pc_current_fragment m' with Some _ => pc_is_current_fragment_sent m' = true | None => True end)).
Proof.
  intros Hc [Hmode Hp Hm]. unfold quicrq_fragment_datagram_publisher_check_fragment.
  destruct Hp as [H1 H2 H3 | before f after done ps El H2 H3 H4 H5 H6 H7].
  - rewrite H1. destruct (fc_fragments c) as [| f l] eqn:El; cbn [first_from_start].
    + cbn [pc_current_fragment pc_set_fragment pc_set_sent].
      eexists. split; [done |]. split; [split; try done; [by apply at_start | by apply (objects_ok_same md pub m)] |].
      right. split; [| done]. exists []. by split; [| rewrite H3].
    + rewrite (never_before_start c f) by (try done; rewrite El; by left).
      cbn [pc_current_fragment pc_set_fragment pc_set_sent pc_is_current_fragment_sent].
      eexists. split; [done |]. split; [split; [done | | by apply (objects_ok_same md pub m)] |];
        [| left; by exists f].
      assert (f ∈ fc_fragments c) as Hf by (rewrite El; by left).
      pose proof (cached_positive c f Hc Hf).
      apply (at_fragment _ _ _ [] f l [] []); cbn; rewrite ?H2; try done; [constructor | lia | split; [done | lia]].
  - rewrite H2. cbv zeta iota. rewrite H2. destruct (tidy_distinct md c (dc_tidy _ Hc)) as [Haddr _]. rewrite El in Haddr.
    destruct (pc_is_current_fragment_sent m) eqn:Es; cycle 1.
    { exists m. split; [done |]. split; [split; [done | | done] | left; by exists f].
      apply (at_fragment _ _ _ before f after done ps); try done. by rewrite Es. }
    assert (fragments_after (fc_fragments c) f = Some after) as -> by (rewrite El; by apply fragments_after_spec).
    cbn [mbind option_bind].
    assert (pc_length_sent m = cf_data_length f) as Elen by (by apply H7). rewrite Elen in H4.
    assert (Forall2 cut_whole (before ++ [f]) (done ++ [ps])) as Hdone by (apply Forall2_app; [done | by repeat constructor]).
    assert (pub = concat (done ++ [ps])) as Epub by (rewrite concat_app; cbn; by rewrite app_nil_r).
    destruct after as [| f' after].
    + exists m. split; [done |]. split; [split; [done | | done] |].
      * apply (at_fragment _ _ _ before f [] done ps); try done; by rewrite Elen.
      * right. rewrite H2, Es. split; [| done]. exists (done ++ [ps]). by rewrite El.
    + by apply (next_fragment_spec qr_mode c m pub cg now before f f' after done ps).
Qed.

(** The header of a datagram of the media fits. *)
Lemma small_datagram_header mid g o off delay fl nb olen :
  small mid -> small g -> small o -> small off -> small delay -> small nb -> small olen ->
  exists h, quicrq_datagram_header_encode mid g o off delay fl nb olen QUICRQ_DATAGRAM_HEADER_MAX = Some h /\
    blen h <= 15.
Proof.
  intros Hm Hg Ho Hoff Hdel Hnb Hl.
  assert (exists k, k <= 15 /\ sized (quicrq_datagram_header_encode mid g o off delay fl nb olen) k)
    as (k & Hk & Hs0 & Hs & _).
  { eexists. split; cycle 1.
    - unfold quicrq_datagram_header_encode.
      repeat match goal with H : small ?v |- _ => apply small_varint in H end. size_fields.
    - repeat match goal with H : small ?v |- _ => pose proof (varint_length_2 v H); clear H end.
      destruct (_ && _); lia. }
  destruct (Hs QUICRQ_DATAGRAM_HEADER_MAX) as (h & -> & <-); [unfold QUICRQ_DATAGRAM_HEADER_MAX; lia |].
  exists h. split; [done | lia].
Qed.

(** A fragment of the cache, with the properties of its datagrams. *)
Lemma cut_piece_carried mid f a n h : blen (slice (cf_data f) a n) = n ->
  quicrq_datagram_header_decode (h ++ slice (cf_data f) a n) =
    Some ((mid, cf_group_id f, cf_object_id f, cf_offset f + a, cf_queue_delay f, cf_flags f,
      if (cf_object_id f =? 0) && (cf_offset f + a =? 0) then cf_nb_objects_previous_group f else 0,
      cf_object_length f), slice (cf_data f) a n) ->
  datagram_fragment mid (h ++ slice (cf_data f) a n) = Some (cut_piece f a n).
Proof. intros Hb E. unfold datagram_fragment. by rewrite E, Z.eqb_refl, Hb. Qed.

(** The current fragment of a publisher that has not sent all of it. *)
Record current_fragment c m f : Prop := {
  cur_cached : f ∈ fc_fragments c;
  cur_bytes : blen (cf_data f) = cf_data_length f;
  cur_sent : 0 <= pc_length_sent m < cf_data_length f;
  cur_range : 0 <= cf_offset f /\ cf_offset f + cf_data_length f < 16384;
  cur_small : small (cf_group_id f) /\ small (cf_object_id f) /\ small (cf_queue_delay f) /\
    small (cf_nb_objects_previous_group f) /\ small (cf_object_length f);
}.

Lemma publisher_current c m pub f : datagram_cache c -> publisher_ok c m pub ->
  pc_current_fragment m = Some f -> pc_is_current_fragment_sent m = false -> current_fragment c m f.
Proof.
  intros Hc [_ Hp _] Ef Es. destruct Hp as [H1 _ _ | before f' after done ps El H2 H3 H4 H5 H6 H7]; [congruence |].
  rewrite Ef in H2. injection H2 as <-.
  assert (f ∈ fc_fragments c) as Hf by (rewrite El; apply elem_of_middle).
  pose proof (cut_into_range _ _ _ H4) as Hs0. pose proof (tidy_piece md c f (dc_tidy _ Hc) Hf) as Hpiece.
  pose proof (pc_range _ _ Hpiece) as Hr. pose proof (pc_length _ _ Hpiece) as Hlen.
  pose proof (dc_length _ Hc (cf_group_id f, cf_object_id f)). destruct (dc_small _ Hc f Hf) as (Hsg & Hsd & Hsn).
  pose proof (cached_media_id c f Hc Hf) as [[Hg Ho] [Hig Hio]]. cbn [fst snd frag_key] in *.
  pose proof (dc_count _ Hc (cf_group_id f)). split; [done | | | lia | unfold small; lia].
  - rewrite (pc_data _ _ Hpiece). apply blen_slice; lia.
  - destruct (Z.eq_dec (pc_length_sent m) (cf_data_length f)) as [E |]; [| lia]. apply H7 in E. congruence.
Qed.

(** Its header, for the bytes that follow those sent. *)
Lemma fragment_header c m f mid : current_fragment c m f -> small mid ->
  exists h, quicrq_datagram_header_encode mid (cf_group_id f) (cf_object_id f) (cf_offset f + pc_length_sent m)
      (cf_queue_delay f) (cf_flags f) (cf_nb_objects_previous_group f) (cf_object_length f)
      QUICRQ_DATAGRAM_HEADER_MAX = Some h /\ blen h <= 15 /\
    forall n, 0 <= n <= cf_data_length f - pc_length_sent m ->
      datagram_fragment mid (h ++ slice (cf_data f) (pc_length_sent m) n) = Some (cut_piece f (pc_length_sent m) n).
Proof.
  intros [_ Hbl Hs Hr (Hg & Ho & Hd & Hn & Hl)] Hmid.
  assert (small (cf_offset f + pc_length_sent m)) as Hoff by (unfold small in *; lia).
  destruct (small_datagram_header mid (cf_group_id f) (cf_object_id f) (cf_offset f + pc_length_sent m)
    (cf_queue_delay f) (cf_flags f) (cf_nb_objects_previous_group f) (cf_object_length f)) as (h & Eh & Hh); try done.
  exists h. split; [done |]. split; [done |]. intros n Hrange.
  apply cut_piece_carried; [apply blen_slice; lia |].
  apply (datagram_header_parses mid _ _ _ _ (cf_flags f) _ _ (small_varint _ Hmid) (small_varint _ Hg)
    (small_varint _ Ho) (small_varint _ Hoff) (small_varint _ Hd) (small_varint _ Hn) (small_varint _ Hl) _ _ _ Eh).
Qed.

(** The publisher once the next [n] bytes are sent. *)
Lemma fragment_updated c m pub f n : datagram_cache c -> publisher_ok c m pub ->
  pc_current_fragment m = Some f -> pc_is_current_fragment_sent m = false ->
  0 < n <= cf_data_length f - pc_length_sent m ->
  let sent := pc_length_sent m + n in
  pieces_ok md (pub ++ [cut_piece f (pc_length_sent m) n]) /\
  exists m', quicrq_fragment_datagram_publisher_object_update
      (pc_set_sent m sent (cf_data_length f <=? sent)) false (cf_offset f + sent) n = Some (m', 0) /\
    publisher_ok c m' (pub ++ [cut_piece f (pc_length_sent m) n]).
Proof.
  intros Hc Hok Ef Es Hn sent. pose proof (publisher_current c m pub f Hc Hok Ef Es) as [Hf _ Hs Hr Hsmall].
  destruct Hok as [Hmode Hp Hm].
  destruct Hp as [H1 _ _ | before f' after done ps El H2 H3 H4 H5 H6 H7]; [congruence |].
  rewrite Ef in H2. injection H2 as <-. set (x := cut_piece f (pc_length_sent m) n).
  set (m1 := pc_set_sent m sent _).
  assert (forall t os, at_position (fc_fragments c) (pc_set_objects m1 t os) (pub ++ [x])) as Hpos1.
  { intros t os. apply (at_fragment _ _ _ before f after done (ps ++ [x])); cbn; try done.
    - apply cut_snoc; [done | lia | lia].
    - by rewrite H5, <- (assoc_L (++)).
    - unfold sent. lia.
    - rewrite Z.leb_le. unfold sent. lia. }
  assert (pieces_ok md (pub ++ [x])) as Hpieces.
  { apply (position_pieces md c (pc_set_objects m1 (pc_tree m1) (pc_objects m1))); [apply Hc | apply Hpos1]. }
  split; [done |]. pose proof (cached_media_id c f Hc Hf) as Hmed.
  pose proof (pc_length _ _ (tidy_piece md c f (dc_tidy _ Hc) Hf)) as Hlen. pose proof (proj2 Hs) as Hlt.
  destruct (update_ok md pub m1 f x (cf_offset f + sent) n) as (t & os & -> & Hm'); try done.
  - by apply (objects_ok_same md pub m).
  - by apply (dc_previous _ Hc).
  - unfold x. cbn. lia.
  - lia.
  - by apply (position_not_full md c m pub before f after done ps); [apply Hc |..].
  - intros E k' Hk' Hlt'.
    assert (frag_key f = (0, 0)) as [= E1 E2];
      [| rewrite E1, E2 in Hlt'; unfold media_key, key_lt in *; cbn in *; lia].
    rewrite E in H5. symmetry in H5. apply app_nil in H5 as [E1 _].
    destruct before as [| y before]; [by apply (dc_first _ Hc f after) |]. exfalso.
    apply Forall2_cons_inv_l in H3 as (qs & done' & Hy & _ & ->).
    cbn in E1. apply app_nil in E1 as [-> _]. inversion Hy as [E0 |]; [| by destruct ps0].
    pose proof (cached_positive c y Hc ltac:(rewrite El; by left)). lia.
  - exists (pc_set_objects m1 t os). split; [done |]. split; [done | apply Hpos1 | done].
Qed.

(** What a call sends: the next bytes of the current fragment, as many as fit
    in the datagram; nothing if there is no room for a byte.  The result of
    the registration is a hypothesis. *)
Lemma datagram_fragment_spec qr c m pub f a mid space active qr_time :
  datagram_cache c -> publisher_ok c m pub -> small mid ->
  pc_current_fragment m = Some f -> pc_is_current_fragment_sent m = false ->
  let off := cf_offset f + pc_length_sent m in
  (space <= 15 /\ exists active',
    quicrq_fragment_datagram_publisher_send_fragment qr m a mid space active false qr_time =
      Some {| dr_media := m; dr_ack := a; dr_ret := 0; dr_datagram := None;
              dr_media_was_sent := false; dr_at_least_one_active := active' |}) \/
  exists n h, 0 < n /\ pc_length_sent m + n <= cf_data_length f /\ blen h + n <= space /\
    let data := slice (cf_data f) (pc_length_sent m) n in blen data = n /\
    datagram_fragment mid (h ++ data) = Some (cut_piece f (pc_length_sent m) n) /\
    pieces_ok md (pub ++ [cut_piece f (pc_length_sent m) n]) /\
    forall a' created,
      quicrq_datagram_ack_init qr a (cf_group_id f) (cf_object_id f) off (cf_flags f)
        (cf_nb_objects_previous_group f) data n (cf_queue_delay f) (cf_object_length f) qr_time
        = Some (a', 0, created) ->
      exists m', quicrq_fragment_datagram_publisher_send_fragment qr m a mid space active false qr_time =
        Some {| dr_media := m'; dr_ack := a'; dr_ret := 0; dr_datagram := Some (h ++ data);
                dr_media_was_sent := true; dr_at_least_one_active := true |} /\
        publisher_ok c m' (pub ++ [cut_piece f (pc_length_sent m) n]).
Proof.
  intros Hc Hok Hmid Ef Es off. pose proof (publisher_current c m pub f Hc Hok Ef Es) as Hcur.
  destruct (fragment_header c m f mid Hcur Hmid) as (h & Eh & Hh & Hparse).
  destruct Hcur as [_ Hbl Hs Hr _]. pose proof (blen_nonneg h).
  unfold quicrq_fragment_datagram_publisher_send_fragment. rewrite Ef. cbn [mbind option_bind negb andb orb].
  rewrite (u64_small (cf_offset f + pc_length_sent m)) by u64_lia. fold off. fold off in Eh. rewrite Eh.
  destruct (Z.ltb_spec space (blen h)); [left; split; [lia | by eexists] |].
  rewrite (proj2 (Z.ltb_lt 0 (cf_data_length f))) by lia. cbn [negb andb].
  rewrite (u64_small (cf_data_length f - pc_length_sent m)) by u64_lia.
  set (n := if cf_data_length f - pc_length_sent m <=? space - blen h then _ else _).
  assert (0 <= n <= cf_data_length f - pc_length_sent m /\ n <= space - blen h /\
    (n = 0 -> space = blen h)) as (Hn & Hnspace & Hn0).
  { unfold n. destruct (Z.leb_spec (cf_data_length f - pc_length_sent m) (space - blen h)); lia. }
  clearbody n. rewrite (proj2 (Z.eqb_neq (cf_data_length f) 0)), !orb_false_r by lia.
  destruct (Z.ltb_spec 0 n) as [Hpos |]; [| left; split; [lia | by eexists]].
  right. exists n, h. split; [done |]. split; [lia |]. split; [lia |]. cbv zeta.
  destruct (fragment_updated c m pub f n Hc Hok Ef Es ltac:(lia)) as (Hpieces & m' & Eu & Hm').
  split; [apply blen_slice; lia |]. split; [by apply Hparse |]. split; [done |].
  intros a' created Hinit. rewrite provided. cbn [negb].
  rewrite (proj2 (Z.ltb_ge _ _)) by lia. cbn [andb]. rewrite Hinit. cbn [mbind option_bind Z.eqb].
  rewrite (u64_small (pc_length_sent m + n)), (u64_small (off + n)) by u64_lia. rewrite Es. cbn [orb].
  replace (off + n) with (cf_offset f + (pc_length_sent m + n)) by lia. rewrite Eu. cbn [mbind option_bind].
  by exists m'.
Qed.
End calls.
