(* ===== verification/DatagramSender.v ===== *)
(** * Histories of a sender of datagrams

    Any interleaving of the arrival of fragments in the cache, of the calls of
    the transport for a datagram, and of its reports: datagrams acknowledged or
    lost, in any order and any number of times, and the timer of the extra
    repeats. *)

From S2P Require Import Prelude Picosplay PicoFrames Media Proto.
From S2P Require Import Fragment FragmentProofs FragmentReads FragmentHistory.
From S2P Require Import PublisherContext Congestion Publisher.
From S2P Require Import Ack AckProofs AckLoops AckRepeat AckHistory AckTheorems AckContents.
From S2P Require Import DatagramPublisher DatagramObjects DatagramProofs.

Inductive sending_event :=
  | DArrive (f : fragment)                      (* a fragment arrives in the cache *)
  | DFinalPoint (group_id object_id : Z)        (* the final point is learned *)
  | DPoll (space now qr_time : Z)               (* picoquic asks for a datagram *)
  | DAcked (i : nat)                            (* the datagram [i] is acknowledged *)
  | DLost (i : nat) (send_time now : Z)         (* the datagram [i] is lost *)
  | DTimer (now : Z).                           (* the timer of the extra repeats *)

Section sender.
Context `{Sp : Splay quicrq_cached_fragment_t quicrq_fragment_cache_node_compare}.
Context {So : Splay okey quicrq_fragment_publisher_object_node_compare}.
Context {Sa : Splay akey quicrq_datagram_ack_node_compare}.
Context {Al : Allocator} {PF : PicoFrames} {PD : PicoDatagram} {PQ : PicoQueue}.
Context (qr_mode : quicrq_congestion_control_enum) (qr : extra_settings) (mid : Z).

(** [dw_published] lists the datagrams given to picoquic by the publisher,
    [dw_sent] those given by the publisher and by the repeats, in order. *)
Record datagram_world := {
  dw_cache : quicrq_fragment_cache_t;
  dw_media : quicrq_fragment_publisher_context_t;
  dw_ack : quicrq_datagram_ack_ctx_t;
  dw_congestion : quicrq_cnx_congestion_state_t;
  dw_final : Z * Z;
  dw_published : list (list Z);
  dw_sent : list (list Z);
}.

Definition datagram_start (cg : quicrq_cnx_congestion_state_t) : datagram_world := {|
  dw_cache := quicrq_fragment_cache_create_ctx;
  dw_media := (quicrq_fragment_publisher_subscribe quicrq_fragment_cache_create_ctx
                 quicrq_congestion_control_none).1.1;
  dw_ack := quicrq_datagram_ack_ctx_init mid; dw_congestion := cg; dw_final := (0, 0);
  dw_published := []; dw_sent := [] |}.

Definition dw_set_cache (w : datagram_world) (c : quicrq_fragment_cache_t) : datagram_world := {|
  dw_cache := c; dw_media := dw_media w; dw_ack := dw_ack w; dw_congestion := dw_congestion w;
  dw_final := dw_final w; dw_published := dw_published w; dw_sent := dw_sent w |}.

(** The acknowledgement context after an operation, with the datagrams that it
    queued. *)
Definition dw_set_ack (w : datagram_world) (a : quicrq_datagram_ack_ctx_t) : datagram_world := {|
  dw_cache := dw_cache w; dw_media := dw_media w; dw_ack := a; dw_congestion := dw_congestion w;
  dw_final := dw_final w; dw_published := dw_published w;
  dw_sent := dw_sent w ++ drop (length (ak_queued (dw_ack w))) (ak_queued a) |}.

(** What the transport reports about a datagram. *)
Definition report (w : datagram_world) (event : datagram_event) (send_time now : Z)
    (bytes : list Z) : option datagram_world :=
  '(streams, ret) ← quicrq_handle_datagram_ack_nack qr true
                      [{| ds_is_sender := true; ds_transport_mode := quicrq_transport_mode_datagram;
                          ds_ack := dw_ack w |}] event send_time (Some bytes) now;
  match streams with
  | [s] => Some (dw_set_ack w (ds_ack s))
  | _ => None
  end.

Definition datagram_step (w : datagram_world) (e : sending_event) : option datagram_world :=
  match e with
  | DArrive f =>
      '(c, ret, _) ← propose_f (dw_cache w) f;
      if ret =? 0 then Some (dw_set_cache w c) else None
  | DFinalPoint g o => Some (dw_set_cache w (learn_end_point (dw_cache w) g o))
  | DPoll space now qr_time =>
      '(r, cg, final, _) ←
        quicrq_fragment_datagram_publisher_fn qr_mode qr (dw_cache w) 0 0 (dw_final w) (dw_media w)
          (dw_ack w) (dw_congestion w) mid space false now qr_time;
      if dr_ret r =? 0 then
        Some {| dw_cache := dw_cache w; dw_media := dr_media r; dw_ack := dr_ack r;
                dw_congestion := cg; dw_final := final;
                dw_published := dw_published w ++ option_list (dr_datagram r);
                dw_sent := dw_sent w ++ option_list (dr_datagram r) |}
      else None
  | DAcked i =>
      match dw_sent w !! i with
      | Some bytes => report w picoquic_callback_datagram_acked 0 0 bytes
      | None => Some w
      end
  | DLost i send_time now =>
      match dw_sent w !! i with
      | Some bytes => report w picoquic_callback_datagram_lost send_time now bytes
      | None => Some w
      end
  | DTimer now =>
      '(cnxs, _) ← quicrq_handle_extra_repeat qr [(true, [dw_ack w])] now;
      match cnxs with
      | [(_, [a])] => Some (dw_set_ack w a)
      | _ => None
      end
  end.

Fixpoint datagram_run (w : datagram_world) (es : list sending_event) : option datagram_world :=
  match es with
  | [] => Some w
  | e :: es' => w ← datagram_step w e; datagram_run w es'
  end.
End sender.

Definition datagram_arrivals (es : list sending_event) : list fragment :=
  flat_map (fun e => match e with DArrive f => [f] | _ => [] end) es.
Definition times_ok (e : sending_event) : Prop :=
  match e with
  | DPoll _ _ qr_time => is_id qr_time
  | DLost _ _ now | DTimer now => is_time now
  | _ => True
  end.

(** The fragments that may arrive: pieces of objects that are not empty, whose
    fields are encoded on two bytes, with the right number of objects of the
    previous group if there is one. *)
Record arrival_ok (md : media) (f : fragment) : Prop := {
  av_consistent : consistent md f;
  av_length : 0 < f_data_length f;
  av_small : f_group f < 16384 /\ small (f_delay f) /\ small (f_nb_previous f);
  av_previous : previous_ok md (f_key f) (f_nb_previous f);
}.
(** The media that may be sent. *)
Record datagram_media (md : media) : Prop := {
  dm_nonempty : forall k, 0 < blen (content md k);
  dm_length : forall k, blen (content md k) < 16384;
  dm_count : forall g, count md g < 16384;
}.
(** The first fragment that arrives is of the first object. *)
Definition first_object (fs : list fragment) : Prop :=
  match fs with f :: _ => f_key f = (0, 0) | [] => True end.

(** The events of a media: what arrives is repeated but does not overlap. *)
Record events_ok (md : media) (es : list sending_event) : Prop := {
  eo_times : Forall times_ok es;
  eo_arrivals : Forall (arrival_ok md) (datagram_arrivals es);
  eo_no_overlap : forall f f', f ∈ datagram_arrivals es -> f' ∈ datagram_arrivals es -> no_overlap f f';
  eo_first : first_object (datagram_arrivals es);
}.

(** ** Arrivals *)

Section arrivals.
Context `{SL : SplayLaws quicrq_cached_fragment_t quicrq_fragment_cache_node_compare}.
Context {Al : Allocator} (alloc_ok : forall n, malloc_ok n = true).
Context (md : media) (sendable : datagram_media md).
Implicit Types c : quicrq_fragment_cache_t.

Lemma exact_nonempty fs c : exact md fs c -> Forall (fun f => 0 < f_data_length f) fs ->
  fc_fragments c = [] -> fs = [].
Proof.
  intros Hex Hfs El. destruct fs as [| f fs]; [done |]. apply Forall_cons in Hfs as [Hf _].
  assert (byte_received (f :: fs) (f_key f) (f_offset f)) as Hb.
  { apply Exists_cons. left. split; [done | lia]. }
  apply (ex_cached _ _ _ Hex) in Hb. unfold cached in Hb. rewrite El in Hb. by apply Exists_nil in Hb.
Qed.

Lemma arrive_cache fs c f : exact md fs c -> datagram_cache md c -> Forall (arrival_ok md) fs ->
  arrival_ok md f -> Forall (no_overlap f) fs -> first_object (fs ++ [f]) ->
  exists c' wake, propose_f c f = Some (c', 0, wake) /\ exact md (fs ++ [f]) c' /\ datagram_cache md c' /\
    exists l, fc_fragments c' = fc_fragments c ++ l.
Proof.
  intros Hex Hc Hfs Hf Hno Hfirst.
  destruct (propose_appends alloc_ok md fs c f Hex (av_consistent _ _ Hf) (av_length _ _ Hf) Hno)
    as (c' & wake & E & Hex' & _ & Hl).
  exists c', wake. split; [done |]. split; [done |].
  pose proof (ex_tidy _ _ _ Hex') as Ht'. destruct Hc as [Ht H1 H2 H3 H4 H5 H6 H7].
  destruct Hl as [[El _] | (x & El & Ek & Ed & Enb & _)]; rewrite El.
  - split; [split; try done; by rewrite El | exists []; by rewrite app_nil_r].
  - split; [| by eexists]. pose proof Ek as [= Eg Eo]. destruct Hf as [Hcons Hlen (Hsg & Hsd & Hsn) Hprev].
    split; try done; rewrite El.
    + intros y [Hy | ->]%elem_of_snoc; [by apply H4 |]. rewrite Eg, Eo. apply (cf_object _ _ Hcons).
    + intros y [Hy | ->]%elem_of_snoc; [by apply H5 |]. by rewrite Eg, Ed, Enb.
    + intros y [Hy | ->]%elem_of_snoc; [by apply H6 |]. by rewrite Ek, Enb.
    + intros y l Ey. destruct (fc_fragments c) as [| z zs] eqn:Ez.
      * cbn in Ey. injection Ey as -> _. rewrite Ek.
        rewrite (exact_nonempty fs c Hex) in Hfirst; [done | | done].
        eapply Forall_impl; [exact Hfs |]. by intros g [].
      * injection Ey as -> _. by apply (H7 _ zs).
Qed.

Lemma datagram_cache_init : datagram_cache md quicrq_fragment_cache_create_ctx.
Proof.
  destruct sendable as [H1 H2 H3]. pose proof (ex_tidy _ _ _ (exact_init md)) as Ht.
  split; try done; cbn; intros; by match goal with H : _ ∈ [] |- _ => apply not_elem_of_nil in H end.
Qed.
End arrivals.

(** ** The invariant *)

Section history.
Context `{SL : SplayLaws quicrq_cached_fragment_t quicrq_fragment_cache_node_compare}.
Context {So : Splay okey quicrq_fragment_publisher_object_node_compare} {SLo : SplayLaws So}.
Context {Sa : Splay akey quicrq_datagram_ack_node_compare} {SLa : SplayLaws Sa}.
Context {Al : Allocator} {PF : PicoFrames} {FL : FramesLaws PF} {PD : PicoDatagram}.
Context {PQ : PicoQueue} {PL : PicoQueueLaws PQ}.
Context (alloc_ok : forall n, malloc_ok n = true)
  (provided : forall n, picoquic_provide_datagram_buffer n = true).
Context (md : media) (sendable : datagram_media md).
Context (qr_mode : quicrq_congestion_control_enum) (qr : extra_settings) (mid : Z) (mid_small : small mid).
Implicit Types (w : datagram_world) (pub fs : list fragment).

(** A datagram repeats bytes of a piece that was published. *)
Definition repeats_piece pub (dg : list Z) : Prop := exists p, p ∈ pub /\
  carries_within md mid (f_key p) (f_offset p) (f_offset p + f_data_length p) dg.

Definition published pub (dgs : list (list Z)) : Prop :=
  Forall2 (fun x dg => datagram_fragment mid dg = Some x) pub dgs.

Record sending_datagrams fs pub w : Prop := {
  sd_exact : exact md fs (dw_cache w);
  sd_arrivals : Forall (arrival_ok md) fs;
  sd_cache : datagram_cache md (dw_cache w);
  sd_publisher : publisher_ok md (dw_cache w) (dw_media w) pub;
  sd_published : published pub (dw_published w);
  sd_history : history_ok (dw_ack w) (omap datagram_range (dw_sent w));
  sd_records : records_ok md (dw_ack w);
  sd_media : ak_media_id (dw_ack w) = mid;
  sd_sent : Forall (repeats_piece pub) (dw_sent w);
  sd_subset : forall dg, dg ∈ dw_published w -> dg ∈ dw_sent w;
}.

Lemma sending_datagrams_start cg : sending_datagrams [] [] (datagram_start mid cg).
Proof.
  assert (is_id mid) as Hmid by (unfold small, is_id, two62 in *; lia).
  split; cbn; try done.
  - apply exact_init.
  - by apply datagram_cache_init.
  - split; [done | by apply at_start |].
    split; cbn; rewrite ?splay_nodes_empty; try done.
    + apply splay_wf_empty.
    + intros k. rewrite lookup_empty, elem_of_nil. split; [done | by intros [? ?]].
    + intros first k. by rewrite splay_first_eq, splay_nodes_empty.
    + intros f Hf. by apply not_elem_of_nil in Hf.
  - constructor.
  - by apply history_init.
Qed.

(** A piece that was published carries bytes of the media. *)
Lemma piece_consistent c m pub p : datagram_cache md c -> at_position (fc_fragments c) m pub ->
  p ∈ pub -> media_id md (f_key p) /\ 0 <= f_offset p /\ 0 < f_data_length p /\
  f_offset p + f_data_length p <= blen (content md (f_key p)).
Proof.
  intros Hc Hp Hin. destruct (at_position_elem _ _ _ _ Hp Hin) as (x & Hx & -> & ? & ? & ?).
  split; [by apply (cached_media_id md c) |].
  pose proof (pc_range _ _ (tidy_piece md c x (dc_tidy _ _ Hc) Hx)) as Hr. fold (frag_key x) in Hr. lia.
Qed.

Lemma repeats_piece_more pub x dg : repeats_piece pub dg -> repeats_piece (pub ++ [x]) dg.
Proof. intros (p & Hp & Hw). exists p. split; [apply elem_of_app; by left | done]. Qed.

(** The range of a datagram is inside a piece. *)
Lemma sent_range pub dgs g o a n : Forall (repeats_piece pub) dgs -> ((g, o, a), n) ∈ omap datagram_range dgs ->
  exists p dg, p ∈ pub /\ dg ∈ dgs /\ f_key p = (g, o) /\
    carries_within md mid (g, o) (f_offset p) (f_offset p + f_data_length p) dg /\
    f_offset p <= a /\ a + n <= f_offset p + f_data_length p /\ (0 < f_data_length p -> 0 < n).
Proof.
  intros Hd Hin. apply list_elem_of_omap in Hin as (dg & Hdg & Er). rewrite Forall_forall in Hd.
  destruct (Hd dg Hdg) as (p & Hp & Hw). pose proof Hw as (f & Hf & _ & Hk & Hlo & Hhi & Hpos).
  rewrite (datagram_fragment_range _ _ _ Hf) in Er. injection Er as <- <- <- <-.
  exists p, dg. unfold f_key in Hk at 1. rewrite <- Hk in Hw |- *. split_and!; try done. intros. apply Hpos. lia.
Qed.

(** What is next is disjoint from what was sent. *)
Lemma next_fresh pub dgs x : Forall (repeats_piece pub) dgs -> pieces_ok md (pub ++ [x]) ->
  media_key md (f_key x) -> 0 < f_data_length x -> (forall p, p ∈ pub -> 0 < f_data_length p) ->
  fresh_range (omap datagram_range dgs) (f_group x) (f_object x) (f_offset x) (f_data_length x).
Proof.
  intros Hd Hpieces Hk Hx Hpos a n Hin.
  destruct (sent_range pub dgs _ _ _ _ Hd Hin) as (p & dg & Hp & _ & Hkp & _ & Hlo & Hhi & Hn).
  specialize (Hpos p Hp). specialize (Hn Hpos). split; [done |]. split; [done |].
  destruct (Z.le_gt_cases (f_offset x + f_data_length x) a); [by left | right].
  destruct (Z.le_gt_cases (a + n) (f_offset x)); [done |]. exfalso.
  destruct (Hpieces _ Hk) as [Hnd _]. rewrite offsets_app, offsets_one, bool_decide_true in Hnd by done.
  apply NoDup_app in Hnd as (_ & Hdis & _). apply (Hdis (Z.max a (f_offset x))).
  - apply elem_of_offsets, Exists_exists. exists p. split; [done |]. split; [done | lia].
  - apply elem_of_seqZ. lia.
Qed.

(** Registration succeeds for what was never sent. *)
Lemma register_fresh a sent g o off fl nb data delay olen now : history_ok a sent -> records_ok md a ->
  is_id g -> is_id o -> 0 <= off -> 0 < blen data -> props_ok nb olen delay now ->
  media_key md (g, o) -> olen = blen (content md (g, o)) ->
  (0 < g -> o = 0 -> off = 0 -> nb = count md (g - 1)) ->
  off + blen data <= blen (content md (g, o)) -> data = slice (content md (g, o)) off (blen data) ->
  fresh_range sent g o off (blen data) ->
  exists a' created,
    quicrq_datagram_ack_init qr a g o off fl nb data (blen data) delay olen now = Some (a', 0, created) /\
    history_ok a' (sent ++ [((g, o, off), blen data)]) /\ records_ok md a' /\
    ak_media_id a' = ak_media_id a.
Proof.
  intros Hh Hrec Hg Ho Hoff Hpos Hprops Hk Holen Hnb Hend Hdata Hfresh.
  pose proof (content_range md (g, o)).
  destruct (ack_init_spec qr a g o off fl nb data (blen data) delay olen now (ho_ack _ _ Hh) Hg Ho Hoff
    ltac:(lia) ltac:(lia) Hprops) as [Htot Hspec].
  destruct Htot as [[[a' ret] created] E]; [done |]. pose proof (Hspec _ _ _ E) as Hres.
  assert (ret = 0 /\ ak_media_id a' = ak_media_id a) as [-> Hm].
  { destruct Hres as [Hb Ea | Hnb' [d Hd] Ea | Hnb' Hnone Hmem Ea | Hnb' Hnone Hmem Hok' Hsh Ht Hst].
    - by rewrite Ea.
    - exfalso. assert (lens a !! (g, o, off) = Some (da_length d)) as Hl by (apply lens_lookup; eauto).
      destruct (ho_inside _ _ Hh _ _ _ _ Hl) as (b & n & Hb & ? & ? & Hl0).
      destruct (Hfresh _ _ Hb) as (? & ? & ?). specialize (Hl0 ltac:(lia)). lia.
    - rewrite alloc_ok in Hmem. done.
    - split; [done | apply Hsh]. }
  exists a', created. split; [done |]. split; [| split; [| done]].
  - apply (ack_step_history qr true {| aw_ctx := a; aw_sent := sent |}
      {| aw_ctx := a'; aw_sent := sent ++ [((g, o, off), blen data)] |}); [done | | done].
    by eapply step_send; [done.. | lia | | | exact E].
  - eapply ack_init_records in E as [? _]; [done | done | lia | |].
    + split; cbn; try done.
    + split; [exact Hend | exact Hdata].
Qed.

(** ** The steps *)

Abbreviation step := (datagram_step qr_mode qr mid).

Lemma publisher_ok_same c c' m pub : fc_fragments c' = fc_fragments c ->
  publisher_ok md c m pub -> publisher_ok md c' m pub.
Proof. intros El [H1 H2 H3]. split; try done. by rewrite El. Qed.

Lemma arrive_step fs pub w f : sending_datagrams fs pub w -> arrival_ok md f -> Forall (no_overlap f) fs ->
  first_object (fs ++ [f]) ->
  exists w', step w (DArrive f) = Some w' /\ sending_datagrams (fs ++ [f]) pub w'.
Proof.
  intros [Hex Hfs Hc [Hm1 Hm2 Hm3] Hp Hh Hr Hm Hs Hsub] Hf Hno Hfirst. cbn [datagram_step].
  destruct (arrive_cache alloc_ok md fs (dw_cache w) f Hex Hc Hfs Hf Hno Hfirst)
    as (c' & wake & -> & Hex' & Hc' & l & El). cbn [mbind option_bind Z.eqb].
  eexists. split; [done |]. split; try done.
  - apply Forall_app. split; [done | by apply Forall_singleton].
  - split; try done. cbn. rewrite El. by apply at_position_grows.
Qed.

Lemma final_step fs pub w g o : sending_datagrams fs pub w ->
  exists w', step w (DFinalPoint g o) = Some w' /\ sending_datagrams fs pub w'.
Proof.
  intros [Hex Hfs Hc Hm0 Hp Hh Hr Hm Hs Hsub]. eexists. split; [done |].
  pose proof (exact_final md fs (dw_cache w) g o Hex) as Hex'.
  assert (datagram_cache md (learn_end_point (dw_cache w) g o)) as Hc'.
  { destruct Hc. split; try done. apply Hex'. }
  split; try done. by apply (publisher_ok_same (dw_cache w)).
Qed.

(** What a call for a datagram does. *)
Inductive poll_result w pub space w' : list fragment -> Prop :=
  | poll_sends x dg : dw_published w' = dw_published w ++ [dg] -> dw_final w' = dw_final w ->
      blen dg <= space -> poll_result w pub space w' (pub ++ [x])
  | poll_nothing : dw_published w' = dw_published w -> dw_sent w' = dw_sent w ->
      (space <= 15 /\ dw_final w' = dw_final w) \/ all_sent (fc_fragments (dw_cache w)) pub ->
      poll_result w pub space w' pub.

(** The final point is given to the control stream when all is sent. *)
Lemma publisher_fn_idle c cg cg' final m' pub space now qr_time m a :
  publisher_ok md c m' pub -> datagram_cache md c ->
  quicrq_fragment_datagram_publisher_check_fragment qr_mode c 0 0 m cg now = Some (m', cg', false) ->
  match pc_current_fragment m' with Some _ => pc_is_current_fragment_sent m' = true | None => True end ->
  exists final' at_end, quicrq_fragment_datagram_publisher_fn qr_mode qr c 0 0 final m a cg mid space
      false now qr_time =
    Some ({| dr_media := m'; dr_ack := a; dr_ret := 0; dr_datagram := None;
             dr_media_was_sent := false; dr_at_least_one_active := false |}, cg', final', at_end).
Proof.
  intros [_ Hp _] Hc Hcheck Hidle.
  unfold quicrq_fragment_datagram_publisher_fn, quicrq_fragment_datagram_publisher_prepare.
  rewrite Hcheck. cbn [mbind option_bind].
  destruct (pc_current_fragment m') as [f |] eqn:Ef; [rewrite Hidle |];
    cbn [mbind option_bind dr_media]; rewrite Ef; (destruct (_ && _ && _); [| by eexists _, _]).
  - rewrite Hidle. destruct Hp as [? _ _ | before f' after done ps El H2 _ _ _ _ _]; [congruence |].
    rewrite Ef in H2. injection H2 as <-.
    destruct (tidy_distinct md c (dc_tidy _ _ Hc)) as [Haddr _].
    assert (fragments_after (fc_fragments c) f = Some after) as ->.
    { rewrite El in Haddr |- *. by apply fragments_after_spec. }
    cbn [mbind option_bind]. destruct after; by eexists _, _.
  - by eexists _, _.
Qed.

(** The next piece of the current fragment: the transport may be given its
    datagram, and its range is registered. *)
Lemma next_piece fs pub w m f n h qr_time : sending_datagrams fs pub w -> is_id qr_time ->
  current_fragment (dw_cache w) m f -> 0 < n -> pc_length_sent m + n <= cf_data_length f ->
  let x := cut_piece f (pc_length_sent m) n in let data := slice (cf_data f) (pc_length_sent m) n in
  pieces_ok md (pub ++ [x]) -> datagram_fragment mid (h ++ data) = Some x ->
  carries_within md mid (f_key x) (f_offset x) (f_offset x + f_data_length x) (h ++ data) /\
  exists a' created,
    quicrq_datagram_ack_init qr (dw_ack w) (cf_group_id f) (cf_object_id f) (cf_offset f + pc_length_sent m)
      (cf_flags f) (cf_nb_objects_previous_group f) data n (cf_queue_delay f) (cf_object_length f) qr_time
      = Some (a', 0, created) /\
    history_ok a' (omap datagram_range (dw_sent w) ++
      [((cf_group_id f, cf_object_id f, cf_offset f + pc_length_sent m), n)]) /\
    records_ok md a' /\ ak_media_id a' = ak_media_id (dw_ack w).
Proof.
  intros [Hex Hfs Hc Hpub Hp Hh Hr Hm Hs Hsub] Ht [Hf Hbl Hsent Hoff (Hsg & Hso & Hsd & Hsn & Hsl)] Hn Hend x data Hpieces Hfrag.
  pose proof (tidy_piece md _ f (dc_tidy _ _ Hc) Hf) as Hpiece.
  pose proof (pc_range _ _ Hpiece) as Hrange. pose proof (pc_data _ _ Hpiece) as Hdata.
  pose proof (cached_media_id md _ f Hc Hf) as [Hmk [Hig Hio]]. cbn [fst snd frag_key] in Hig, Hio.
  assert (blen data = n) as Hdl by (apply blen_slice; lia).
  assert (data = slice (content md (cf_group_id f, cf_object_id f)) (cf_offset f + pc_length_sent m) n) as Hslice.
  { unfold data. rewrite Hdata. apply slice_slice; lia. }
  assert (0 < cf_group_id f -> cf_object_id f = 0 -> cf_offset f + pc_length_sent m = 0 ->
    cf_nb_objects_previous_group f = count md (cf_group_id f - 1)) as Hnb.
  { intros Hg0 Ho0 Hoff0. apply (td_nb _ _ (dc_tidy _ _ Hc) f Hf); lia. }
  split.
  { exists x. split; [done |]. split; [| split_and!; [done | cbn; lia..]].
    split; unfold f_key; cbn; [done | split; [done | apply Hmk] | apply Hpiece | lia | exact Hslice |].
    intros Hg0 Ho0 Hoff0. rewrite Ho0, Hoff0. cbn. by apply Hnb. }
  assert (forall p, p ∈ pub -> 0 < f_data_length p) as Hpos.
  { intros p Hin. by eapply piece_consistent; [exact Hc | apply Hpub |]. }
  pose proof (next_fresh pub (dw_sent w) x Hs Hpieces Hmk Hn Hpos) as Hfresh. cbn in Hfresh.
  rewrite <- Hdl in Hfresh, Hslice |- *.
  apply (register_fresh (dw_ack w) _ (cf_group_id f) (cf_object_id f) (cf_offset f + pc_length_sent m)
    (cf_flags f) (cf_nb_objects_previous_group f) data (cf_queue_delay f) (cf_object_length f) qr_time Hh Hr);
    try done; try lia.
  - unfold props_ok, is_id, two62, small in *. split_and!; try lia; apply Ht.
  - apply Hpiece.
Qed.

Lemma poll_step fs pub w space now qr_time : sending_datagrams fs pub w -> is_id qr_time ->
  exists w' pub', step w (DPoll space now qr_time) = Some w' /\ sending_datagrams fs pub' w' /\
    poll_result w pub space w' pub'.
Proof.
  intros Hw Ht. pose proof Hw as [Hex Hfs Hc Hpub Hp Hh Hr Hm Hs Hsub]. cbn [datagram_step].
  destruct (check_fragment_spec md qr_mode (dw_cache w) (dw_media w) pub
    (dw_congestion w) now Hc Hpub) as (m' & Hcheck & Hm' & Hcase).
  destruct Hcase as [(f & Ef & Es) | [Hall Hidle]]; cycle 1.
  { destruct (publisher_fn_idle (dw_cache w) (dw_congestion w) _ (dw_final w) m' pub space now qr_time
      (dw_media w) (dw_ack w) Hm' Hc Hcheck Hidle) as (final' & at_end & ->).
    cbn [mbind option_bind dr_ret Z.eqb dr_datagram option_list dr_media dr_ack].
    rewrite !app_nil_r. eexists _, pub. split; [done |]. split; [by split |]. apply poll_nothing; auto. }
  unfold quicrq_fragment_datagram_publisher_fn, quicrq_fragment_datagram_publisher_prepare.
  rewrite Hcheck. cbn [mbind option_bind]. rewrite Ef, Es.
  rewrite (tidy_deref md _ f (dc_tidy _ _ Hc) (cur_cached _ _ _ (publisher_current md _ _ _ f Hc Hm' Ef Es))).
  destruct (datagram_fragment_spec alloc_ok provided md qr (dw_cache w) m' pub f (dw_ack w) mid space false qr_time
    Hc Hm' mid_small Ef Es) as [[Hspace [active' ->]] | (n & h & Hn & Hend & Hsp & Hdl & Hfrag & Hpieces & Hsend)].
  { cbn [mbind option_bind andb dr_ret Z.eqb dr_datagram option_list dr_media dr_ack].
    rewrite !app_nil_r. eexists _, pub. split; [done |]. split; [by split |]. apply poll_nothing; auto. }
  destruct (next_piece fs pub w m' f n h qr_time Hw Ht (publisher_current md _ _ _ f Hc Hm' Ef Es) Hn Hend Hpieces Hfrag)
    as (Hcar & a' & created & Hinit & Hh' & Hr' & Hmedia).
  set (x := cut_piece f (pc_length_sent m') n) in *. set (data := slice (cf_data f) (pc_length_sent m') n) in *.
  destruct (Hsend a' created Hinit) as (m2 & -> & Hm2).
  cbn [mbind option_bind andb dr_ret Z.eqb dr_datagram option_list dr_media dr_ack].
  eexists _, (pub ++ [x]). split; [done |]. split; [split; cbn; try done |].
  - apply Forall2_app; [done |]. by repeat constructor.
  - rewrite omap_app. cbn. rewrite (datagram_fragment_range _ _ _ Hfrag). exact Hh'.
  - congruence.
  - apply Forall_app. split.
    + eapply Forall_impl; [exact Hs |]. intros dg. apply repeats_piece_more.
    + apply Forall_singleton. exists x. split; [apply elem_of_snoc; by right | done].
  - intros dg. rewrite !elem_of_app. intros [Hin | Hin]; [left; by apply Hsub | by right].
  - apply (poll_sends w pub space _ x (h ++ data)); try done. rewrite blen_app. lia.
Qed.

(** What a step does to a pair of a context and of the datagrams sent. *)
Lemma history_step a sent a' sent' : history_ok a sent ->
  ack_step qr true {| aw_ctx := a; aw_sent := sent |} {| aw_ctx := a'; aw_sent := sent' |} -> history_ok a' sent'.
Proof. intros Hh Hs. exact (ack_step_history qr true _ _ (alloc_ok _) Hs Hh). Qed.

(** The datagrams queued by an operation on the acknowledgements come from what
    was published. *)
Lemma set_ack_step fs pub w a news : sending_datagrams fs pub w ->
  history_ok a (omap datagram_range (dw_sent w ++ news)) -> records_ok md a ->
  ak_media_id a = mid -> ak_queued a = ak_queued (dw_ack w) ++ news -> Forall (repeats_piece pub) news ->
  sending_datagrams fs pub (dw_set_ack w a).
Proof.
  intros [Hex Hfs Hc Hpub Hp Hh Hr Hm Hs Hsub] Hh' Hr' Hm' Hq Hnews.
  assert (drop (length (ak_queued (dw_ack w))) (ak_queued a) = news) as Ed
    by (rewrite Hq; apply drop_app_length).
  split; try done; cbn [dw_set_ack dw_sent dw_ack dw_published]; rewrite ?Ed; try done.
  - apply Forall_app. by split.
  - intros dg Hdg. apply elem_of_app. left. by apply Hsub.
Qed.

Lemma sent_fragment fs pub w dg : sending_datagrams fs pub w -> dg ∈ dw_sent w ->
  exists p f, p ∈ pub /\ datagram_fragment mid dg = Some f /\ consistent md f /\ f_key f = f_key p /\
    f_offset p <= f_offset f /\ f_offset f + f_data_length f <= f_offset p + f_data_length p /\
    0 < f_data_length f /\
    ((f_group f, f_object f, f_offset f), f_data_length f) ∈ omap datagram_range (dw_sent w).
Proof.
  intros Hw Hdg. pose proof (sd_sent _ _ _ Hw) as Hs. rewrite Forall_forall in Hs.
  destruct (Hs dg Hdg) as (p & Hp & f & Hf & Hcf & Hk & Hlo & Hhi & Hpos). exists p, f.
  destruct (piece_consistent _ _ _ p (sd_cache _ _ _ Hw) (pk_position _ _ _ _ (sd_publisher _ _ _ Hw)) Hp)
    as (_ & _ & Hp0 & _).
  split_and!; try done; [apply Hpos; lia |].
  apply list_elem_of_omap. exists dg. split; [done |]. by eapply datagram_fragment_range.
Qed.

Lemma acked_step fs pub w i : sending_datagrams fs pub w ->
  exists w', step w (DAcked i) = Some w' /\ sending_datagrams fs pub w'.
Proof.
  intros Hw. cbn [datagram_step]. destruct (dw_sent w !! i) as [dg |] eqn:Ei; [| by exists w].
  apply list_elem_of_lookup_2 in Ei.
  destruct (sent_fragment fs pub w dg Hw Ei) as (p & f & _ & Hf & _ & _ & _ & _ & _ & Hin).
  destruct (datagram_fragment_decode _ _ _ Hf) as [Hdec Hlen].
  pose proof Hw as [Hex Hfs Hc Hpub Hp Hh Hr Hm Hs Hsub].
  unfold report, quicrq_handle_datagram_ack_nack. rewrite Hdec.
  cbn [quicrq_find_stream_ctx_for_datagram ds_is_sender ds_transport_mode ds_ack Bool.eqb].
  rewrite Hm, Z.eqb_refl, bool_decide_true by done. cbn [andb]. cbv zeta. cbn [ds_ack]. rewrite <- Hlen.
  destruct (history_ack_total _ _ _ _ _ _ Hh Hin) as [a' Ea]. rewrite Ea.
  cbn [mbind option_bind app ds_ack].
  eexists. split; [done |]. destruct (ho_sent _ _ Hh _ _ _ _ Hin) as (? & ? & ? & ? & ?).
  assert (ak_queued a' = ak_queued (dw_ack w) /\ ak_media_id a' = ak_media_id (dw_ack w)) as [Hq Hm'].
  { apply handle_ack_effect in Ea as (c1 & ks & gone & Hmk & Hfg & _); [| apply Hh | done..].
    pose proof (marked_horizon _ _ _ Hmk) as [E1 _ _ _ _ E2].
    by rewrite (forgets_queued _ _ _ Hfg), (forgets_media _ _ _ Hfg). }
  apply (set_ack_step fs pub w a' []); try done.
  - rewrite app_nil_r. apply (history_step _ _ _ _ Hh).
    by eapply step_acked.
  - by eapply handle_ack_records.
  - congruence.
  - by rewrite app_nil_r.
Qed.

Lemma lost_step fs pub w i send_time now w' : sending_datagrams fs pub w -> is_time now ->
  step w (DLost i send_time now) = Some w' -> sending_datagrams fs pub w'.
Proof.
  intros Hw Hnow. cbn [datagram_step]. destruct (dw_sent w !! i) as [dg |] eqn:Ei; [| by intros [= <-]].
  apply list_elem_of_lookup_2 in Ei.
  destruct (sent_fragment fs pub w dg Hw Ei) as (p & f & Hpp & Hf & Hcf & Hk & Hlo & Hhi & Hpos & Hin).
  destruct (datagram_fragment_decode _ _ _ Hf) as [Hdec Hlen].
  pose proof Hw as [Hex Hfs Hc Hpub Hp Hh Hr Hm Hs Hsub].
  unfold report, quicrq_handle_datagram_ack_nack. rewrite Hdec.
  cbn [quicrq_find_stream_ctx_for_datagram ds_is_sender ds_transport_mode ds_ack Bool.eqb].
  rewrite Hm, Z.eqb_refl, bool_decide_true by done. cbn [andb]. cbv zeta. cbn [ds_ack].
  destruct (quicrq_datagram_handle_lost _ _ _ _ _ _ _ _ _ _) as [[a' ret] |] eqn:El;
    cbn [mbind option_bind app ds_ack]; [| done].
  intros [= <-]. destruct Hcf as [Hg [Ho _] Hol Hrange Hdata _]. rewrite Hlen in *.
  pose proof El as El'.
  apply (handle_lost_contents md) in El' as (news & Hq & Hr' & Hm' & Hnews);
    try done; [| apply Hh | apply Hrange | apply Hrange].
  rewrite Hm in Hnews.
  apply (set_ack_step fs pub w a' news); try done.
  - rewrite omap_app. apply (history_step _ _ _ _ Hh).
    by eapply step_lost.
  - congruence.
  - eapply Forall_impl; [exact Hnews |]. intros x Hx. exists p. split; [done |]. rewrite <- Hk.
    unfold f_key. eapply within_weaken; [exact Hx | lia..].
Qed.

Lemma timer_step fs pub w now w' : sending_datagrams fs pub w -> is_time now ->
  step w (DTimer now) = Some w' -> sending_datagrams fs pub w'.
Proof.
  intros Hw Hnow. pose proof Hw as [Hex Hfs Hc Hpub Hp Hh Hr Hm Hs Hsub].
  cbn [datagram_step]. unfold quicrq_handle_extra_repeat. cbn [extra_connections extra_streams].
  destruct (extra_repeat_loop _ _ _ _ _ _) as [[a' t] |] eqn:El; cbn [mbind option_bind]; [| done].
  intros [= <-]. pose proof El as El'.
  apply (extra_loop_contents md) with (sent := omap datagram_range (dw_sent w)) in El'
    as (news & Hq & Hr' & Hm' & Hnews); try done. rewrite Hm in Hnews.
  apply (set_ack_step fs pub w a' news); try done.
  - rewrite omap_app. apply (history_step _ _ _ _ Hh).
    by eapply step_extra.
  - congruence.
  - eapply Forall_impl; [exact Hnews |]. intros x (g & o & a & n & Hin & Hx).
    destruct (sent_range pub (dw_sent w) g o a n Hs Hin) as (p & dg & Hp' & _ & Hk & _ & Hlo & Hhi & Hpos).
    exists p. split; [done |]. rewrite Hk.
    eapply within_weaken; [exact Hx | lia | lia |]. intros. specialize (Hpos ltac:(lia)). lia.
Qed.

Lemma run_sending_datagrams es : forall fs pub w w', sending_datagrams fs pub w ->
  Forall times_ok es -> Forall (arrival_ok md) (datagram_arrivals es) ->
  (forall f f', f ∈ fs ++ datagram_arrivals es -> f' ∈ fs ++ datagram_arrivals es -> no_overlap f f') ->
  first_object (fs ++ datagram_arrivals es) -> datagram_run qr_mode qr mid w es = Some w' ->
  exists pub', sending_datagrams (fs ++ datagram_arrivals es) pub' w'.
Proof.
  induction es as [| e es IH]; intros fs pub w w' Hw Ht Ha Hno Hfirst; cbn [datagram_run].
  { intros [= <-]. cbn. rewrite app_nil_r. by exists pub. }
  apply Forall_cons in Ht as [He Ht].
  destruct e as [f | g o | space now qr_time | i | i send_time now | now];
    cbn [datagram_arrivals flat_map app] in Ha, Hno, Hfirst |- *; fold (datagram_arrivals es) in *.
  - apply Forall_cons in Ha as [Hf Ha].
    replace (fs ++ f :: datagram_arrivals es) with ((fs ++ [f]) ++ datagram_arrivals es) in *
      by by rewrite <- (assoc_L (++)).
    destruct (arrive_step fs pub w f Hw Hf) as (w1 & -> & Hw1).
    + apply Forall_forall. intros f' Hf'. apply Hno; rewrite !elem_of_app; left; [right; by left | by left].
    + unfold first_object in Hfirst |- *. by destruct fs.
    + cbn [mbind option_bind]. by eapply IH.
  - destruct (final_step fs pub w g o Hw) as (w1 & -> & Hw1). by eapply IH.
  - destruct (poll_step fs pub w space now qr_time Hw He) as (w1 & pub1 & -> & Hw1 & _). by eapply IH.
  - destruct (acked_step fs pub w i Hw) as (w1 & -> & Hw1). by eapply IH.
  - destruct (step w _) as [w1 |] eqn:E; [| done]. eapply lost_step in E; [| done..]. by eapply IH.
  - destruct (step w _) as [w1 |] eqn:E; [| done]. eapply timer_step in E; [| done..]. by eapply IH.
Qed.

Lemma run_from_start cg es w : events_ok md es ->
  datagram_run qr_mode qr mid (datagram_start mid cg) es = Some w ->
  exists pub, sending_datagrams (datagram_arrivals es) pub w.
Proof.
  intros [Ht Ha Hno Hf] Hrun.
  by eapply (run_sending_datagrams es [] [] _ w (sending_datagrams_start cg)).
Qed.

(** What was published was received: all of it when all is sent. *)
Lemma published_received fs pub w k i : sending_datagrams fs pub w -> byte_received pub k i ->
  byte_received fs k i.
Proof.
  intros Hw Hb. apply (ex_cached _ _ _ (sd_exact _ _ _ Hw)).
  apply Exists_exists in Hb as (p & Hp & <- & Hi).
  destruct (at_position_elem _ _ _ p (pk_position _ _ _ _ (sd_publisher _ _ _ Hw)) Hp) as (x & Hx & Hk & ? & ? & ?).
  apply Exists_exists. exists x. split; [done |]. split; [done | lia].
Qed.

Lemma all_sent_published fs pub w k i : sending_datagrams fs pub w ->
  all_sent (fc_fragments (dw_cache w)) pub -> byte_received fs k i -> byte_received pub k i.
Proof.
  intros Hw Hall Hb. apply (ex_cached _ _ _ (sd_exact _ _ _ Hw)) in Hb.
  apply Exists_exists in Hb as (x & Hx & <- & Hi). by eapply all_sent_received.
Qed.

Lemma published_elem pub dgs p : published pub dgs -> p ∈ pub ->
  exists dg, dg ∈ dgs /\ datagram_fragment mid dg = Some p.
Proof.
  intros Hp Hin. apply list_elem_of_lookup in Hin as [i Hi].
  destruct (Forall2_lookup_l _ _ _ _ _ Hp Hi) as (dg & Hd & E). exists dg.
  split; [by eapply list_elem_of_lookup_2 | done].
Qed.
End history.
