(* ===== verification/PublisherProofs.v ===== *)
(** * The stream publisher, step by step

    What one call of the publisher gives, against the content of the media
    from its beginning to a position. *)

From S2P Require Import Prelude Picosplay Media Fragment FragmentProofs FragmentReads.
From S2P Require Import FragmentHistory PublisherContext Congestion Publisher.

(** ** The media from its beginning *)

(** A position: group, object, offset. *)
Abbreviation position := (Z * Z * Z)%type.

Definition keys_before (md : media) (g o : Z) : list (Z * Z) :=
  flat_map (fun g' => map (pair g') (seqZ 0 (count md g'))) (seqZ 0 g) ++ map (pair g) (seqZ 0 o).

(** The bytes of the media before a position, all objects in order. *)
Definition media_prefix (md : media) (p : position) : list Z :=
  let '(g, o, off) := p in
  flat_map (content md) (keys_before md g o) ++ ztake off (content md (g, o)).

Lemma seqZ_snoc n : 0 <= n -> seqZ 0 (n + 1) = seqZ 0 n ++ [n].
Proof. intros. rewrite seqZ_app by lia. rewrite Z.add_0_l. done. Qed.

Lemma media_prefix_start md : media_prefix md (0, 0, 0) = [].
Proof. done. Qed.

Lemma media_prefix_data md g o off n :
  0 <= off -> 0 <= n ->
  media_prefix md (g, o, off + n) = media_prefix md (g, o, off) ++ slice (content md (g, o)) off n.
Proof. intros. unfold media_prefix. rewrite <- app_assoc. f_equal. unfold slice. by apply ztake_add. Qed.

Lemma media_prefix_object md g o :
  0 <= o -> media_prefix md (g, o + 1, 0) = media_prefix md (g, o, blen (content md (g, o))).
Proof.
  intros. unfold media_prefix, keys_before. rewrite seqZ_snoc by done.
  rewrite map_app, app_assoc, flat_map_app. cbn [flat_map map].
  rewrite ztake_all. change (ztake 0 _) with (@nil Z). by rewrite !app_nil_r.
Qed.

Lemma media_prefix_group md g :
  0 <= g -> media_prefix md (g + 1, 0, 0) = media_prefix md (g, count md g, 0).
Proof.
  intros. unfold media_prefix, keys_before. rewrite seqZ_snoc by done.
  change (seqZ 0 0) with (@nil Z). cbn [map]. rewrite !app_nil_r.
  rewrite (flat_map_app _ (seqZ 0 g) [g]). cbn [flat_map]. by rewrite app_nil_r.
Qed.

(** Where the next byte of the media is: at the end of a group, it is the
    first byte of the next group. *)
Definition next_byte (md : media) (p : position) : position :=
  let '(g, o, off) := p in if o =? count md g then (g + 1, 0, 0) else p.

(** ** The consumer of the publisher: the position that follows a call, as
    [quicrq_prepare_to_send_media_to_stream] keeps it *)
Definition enter_group (p : position) (out : source_output) : position :=
  let '(g, o, off) := p in if so_is_new_group out then (g + 1, 0, 0) else p.
Definition consume (p : position) (out : source_output) : position :=
  let '(g, o, off) := enter_group p out in
  if so_is_still_active out then
    if so_object_length out <=? off + blen (so_data out) then (g, o + 1, 0)
    else (g, o, off + blen (so_data out))
  else (g, o, off).

Section reader.
Context `{SL : SplayLaws quicrq_cached_fragment_t quicrq_fragment_cache_node_compare}.
Context {So : Splay okey quicrq_fragment_publisher_object_node_compare}.
Context (md : media).
Implicit Types c : quicrq_fragment_cache_t.
Implicit Types p : quicrq_fragment_publisher_context_t.

Definition reader_position p : position :=
  (pc_current_group_id p, pc_current_object_id p, pc_current_offset p + pc_length_sent p).

(** The fragments of the cache are of objects of the media. *)
Definition in_media c : Prop :=
  forall f, f ∈ fc_fragments c -> cf_object_id f < count md (cf_group_id f).

(** Nothing was skipped; the current fragment is in the cache, at the current
    position. *)
Record reader_ok c p : Prop := {
  ro_mode : pc_congestion_control_mode p = quicrq_congestion_control_none;
  ro_skipped : pc_is_current_object_skipped p = false;
  ro_group : is_id (pc_current_group_id p);
  ro_object : 0 <= pc_current_object_id p <= count md (pc_current_group_id p);
  ro_offset : 0 <= pc_current_offset p;
  ro_fragment :
    match pc_current_fragment p with
    | Some f => f ∈ fc_fragments c /\
        frag_key f = (pc_current_group_id p, pc_current_object_id p) /\
        cf_offset f = pc_current_offset p /\ 0 <= pc_length_sent p /\
        (pc_length_sent p < cf_data_length f \/ (pc_length_sent p = 0 /\ cf_data_length f = 0))
    | None => pc_length_sent p = 0
    end;
  ro_boundary : pc_current_offset p = 0 \/
    exists f, f ∈ fc_fragments c /\
      frag_key f = (pc_current_group_id p, pc_current_object_id p) /\
      0 < cf_data_length f /\ cf_offset f + cf_data_length f = pc_current_offset p;
}.

(** The current fragment stays where it is when the cache grows. *)
Lemma reader_ok_grows c c' p :
  reader_ok c p -> (forall f, f ∈ fc_fragments c -> f ∈ fc_fragments c') -> reader_ok c' p.
Proof.
  intros [H1 H2 H3 H4 H5 H6 H7] Hsub. split; try done.
  - destruct (pc_current_fragment p); [| done]. destruct H6 as (? & ?). split; [by apply Hsub | done].
  - destruct H7 as [? | (f & ? & ?)]; [by left | right]. exists f. split; [by apply Hsub | done].
Qed.

(** The lookup: the position only changes for the next group, which is entered
    when all the objects of the group were read. *)
(** What a failed lookup says of the next byte. *)
Lemma lookup_missing c g o off f : tidy md c -> is_key g -> is_key o ->
  quicrq_fragment_cache_get_fragment c g o off = None -> f ∈ fc_fragments c ->
  (frag_key f, cf_offset f) <> ((g, o), off).
Proof.
  intros Ht Hg Ho Hn Hf [= Hk1 Hk2 He].
  rewrite (proj2 (get_fragment_key md c g o off f Ht Hg Ho)) in Hn; [done |].
  unfold frag_key. by rewrite Hk1, Hk2.
Qed.

Lemma find_current_spec c p :
  tidy md c -> in_media c -> reader_ok c p ->
  exists p' new, find_current_fragment c p = (p', new, false) /\ reader_ok c p' /\
    reader_position p' =
      (if new : bool then (pc_current_group_id p + 1, 0, 0) else reader_position p) /\
    media_prefix md (reader_position p') = media_prefix md (reader_position p) /\
    (pc_current_fragment p' = None -> forall f, f ∈ fc_fragments c ->
       (frag_key f, cf_offset f) <> next_byte md (reader_position p)) /\
    (new = true -> pc_current_object_id p = count md (pc_current_group_id p) /\
       pc_current_offset p + pc_length_sent p = 0 /\ is_Some (pc_current_fragment p')).
Proof.
  intros Ht Hin Hr. pose proof Hr as [Hm Hs Hg Ho Hoff Hf Hbd]. unfold find_current_fragment.
  pose proof (count_range md (pc_current_group_id p)) as Hcount.
  assert (is_key (pc_current_group_id p)) by (unfold is_key, is_id in *; u64_lia).
  assert (is_key (pc_current_object_id p)) by (unfold is_key; u64_lia).
  rewrite Hs. destruct (pc_current_fragment p) as [f |] eqn:Ef.
  { exists p, false. rewrite Ef. by split_and!. }
  destruct (quicrq_fragment_cache_get_fragment c _ _ (pc_current_offset p)) as [f |] eqn:E.
  - pose proof E as E1. apply (get_fragment_key md) in E1 as (Hfc & Hk & Hfo); [| done ..].
    exists (pc_set_fragment p (Some f)), false. split; [done |]. split.
    + split; try done. cbn. split; [done |]. split; [done |]. split; [done |].
      rewrite Hf. pose proof (pc_range _ _ (tidy_piece md c f Ht Hfc)). lia.
    + by split_and!.
  - assert (pc_current_object_id p <> count md (pc_current_group_id p) ->
       forall f, f ∈ fc_fragments c -> (frag_key f, cf_offset f) <> next_byte md (reader_position p)) as Hnone.
    { intros Hne f Hfc. unfold next_byte, reader_position. rewrite (proj2 (Z.eqb_neq _ _) Hne), Hf, Z.add_0_r.
      by apply (lookup_missing c). }
    assert (pc_current_group_id p +64 1 = pc_current_group_id p + 1) as Hg1.
    { unfold is_id in *. apply u64_small. u64_lia. }
    destruct (Z.eqb_spec (pc_current_offset p) 0) as [Eoff | Hoff0]; cycle 1.
    { exists p, false. split_and!; try done. intros _. apply Hnone.
      destruct Hbd as [? | (f & Hfc & [= <- <-] & _)]; [done |]. specialize (Hin f Hfc). lia. }
    rewrite Hg1. assert (is_key (pc_current_group_id p + 1)) by (unfold is_key, is_id in *; u64_lia).
    destruct (quicrq_fragment_cache_get_fragment c _ 0 0) as [f |] eqn:E2; cycle 1.
    { exists p, false. split_and!; try done. intros _ f Hfc.
      destruct (Z.eq_dec (pc_current_object_id p) (count md (pc_current_group_id p))) as [Ec |]; [| by apply Hnone].
      unfold next_byte, reader_position. rewrite Ec, Z.eqb_refl. by apply (lookup_missing c). }
    apply (get_fragment_key md) in E2 as (Hfc & Hk & Hfo);
      [| done | unfold is_key, is_id in *; u64_lia | done].
    injection Hk as Hk1 Hk2.
    pose proof (td_nb _ _ Ht f Hfc ltac:(unfold is_id in *; lia) Hk2 Hfo) as Hnb. rewrite Hk1, Z.add_simpl_r in Hnb.
    destruct (Z.leb_spec (cf_nb_objects_previous_group f) (pc_current_object_id p)) as [Hle |];
      [| exists p, false; split_and!; try done; intros _; apply Hnone; lia].
    pose proof (tidy_piece md c f Ht Hfc) as Hpiece.
    assert (pc_current_object_id p = count md (pc_current_group_id p)) as Eo by lia.
    assert (pc_current_offset p + pc_length_sent p = 0) as Esum by lia.
    eexists _, true. split; [done |]. split; [| split; [| split; [| done]]].
    + split; cbn; try done.
      * rewrite <- Hk1. apply Hpiece.
      * pose proof (count_range md (pc_current_group_id p + 1)). lia.
      * split; [done |]. split; [by rewrite <- Hk1, <- Hk2 |]. split; [done |].
        rewrite Hf. pose proof (pc_range _ _ Hpiece). lia.
      * by left.
    + unfold reader_position. cbn. by rewrite Hf.
    + unfold reader_position. cbn [pc_current_group_id pc_current_object_id pc_current_offset
        pc_length_sent pc_set_current pc_set_fragment].
      rewrite Hf, Eoff, Eo. unfold is_id in *. apply media_prefix_group. lia.
Qed.

(** The end of the current fragment. *)
Lemma end_fragment_spec c p f n b :
  tidy md c -> in_media c -> reader_ok c p -> pc_current_fragment p = Some f ->
  let p' := end_fragment (pc_set_sent p n b) f in
  let off := pc_current_offset p + cf_data_length f in
  reader_ok c p' /\
  media_prefix md (reader_position p')
    = media_prefix md (pc_current_group_id p, pc_current_object_id p, off) /\
  reader_position p' =
    if cf_object_length f <=? off then (pc_current_group_id p, pc_current_object_id p + 1, 0)
    else (pc_current_group_id p, pc_current_object_id p, off).
Proof.
  intros Ht Hin [Hm Hs Hg Ho Hoff Hf _] Ef. rewrite Ef in Hf. destruct Hf as (Hfc & Hk & Hfo & Hl).
  pose proof (tidy_piece md c f Ht Hfc) as Hp. pose proof (piece_end _ _ Hp) as [_ Hbig].
  pose proof (Hin f Hfc) as Hcount. pose proof Hk as [= Hk1 Hk2].
  pose proof (pc_length _ _ Hp) as Hlen. pose proof (pc_range _ _ Hp) as Hrange.
  rewrite Hk1, Hk2 in Hlen, Hrange. rewrite Hk1, Hk2 in Hcount.
  unfold end_fragment. cbn [pc_current_offset pc_set_sent]. rewrite <- Hfo, u64_small by u64_lia.
  pose proof (count_range md (pc_current_group_id p)).
  destruct (Z.leb_spec (cf_object_length f) (cf_offset f + cf_data_length f)).
  - unfold reader_position. cbn [pc_current_group_id pc_current_object_id pc_current_offset
      pc_length_sent pc_set_current pc_set_fragment pc_set_sent].
    rewrite (u64_small (pc_current_object_id p + 1)) by u64_lia. split; [| split; [| done]].
    + split; cbn; try (done || lia).
    + rewrite Z.add_0_l, media_prefix_object by lia. f_equal. f_equal. lia.
  - split; [| split].
    + split; cbn; try (done || lia). right. exists f. split; [done |]. split; [done |].
      pose proof (td_nonempty _ _ Ht f Hfc) as Hne. rewrite Hk in Hne. lia.
    + cbn. by rewrite Z.add_0_r.
    + unfold reader_position. cbn. by rewrite Z.add_0_r.
Qed.

(** The next byte is in the cache and there is no current fragment: there is a
    fragment that starts there. *)
Lemma cached_fragment c p :
  tidy md c -> reader_ok c p -> pc_current_fragment p = None ->
  let k := next_byte md (reader_position p) in cached c k.1 k.2 ->
  exists f, f ∈ fc_fragments c /\ (frag_key f, cf_offset f) = k.
Proof.
  intros Ht [_ _ _ _ Hoff Hf Hbd] Ef. rewrite Ef in Hf. unfold next_byte, reader_position. rewrite Hf, Z.add_0_r.
  destruct (_ =? count _ _); cbn [fst snd];
    intros (x & Hx & Hkx & Hix)%Exists_exists; exists x; (split; [done |]);
    pose proof (pc_range _ _ (tidy_piece md c x Ht Hx)) as Hrx; [rewrite Hkx; f_equal; lia |].
  rewrite Hkx. f_equal. destruct Hbd as [E | (f & Hfc & Hk & Hl & He)]; [lia |].
  destruct (Z.lt_trichotomy (cf_offset x) (cf_offset f)) as [Hlt | [E | Hlt]].
  - pose proof (td_disjoint _ _ Ht x f Hx Hfc ltac:(congruence) Hlt). lia.
  - assert (x = f) as -> by (apply (tidy_offset_unique md c); congruence). lia.
  - pose proof (td_disjoint _ _ Ht f x Hfc Hx ltac:(congruence) Hlt). lia.
Qed.

(** The next [n] bytes of the current fragment. *)
Lemma current_slice c p f n :
  tidy md c -> reader_ok c p -> pc_current_fragment p = Some f ->
  0 <= n <= cf_data_length f - pc_length_sent p ->
  slice (cf_data f) (pc_length_sent p) n
    = slice (content md (pc_current_group_id p, pc_current_object_id p))
        (pc_current_offset p + pc_length_sent p) n /\
  blen (slice (cf_data f) (pc_length_sent p) n) = n.
Proof.
  intros Ht [_ _ _ _ _ Hf _] Ef Hn. rewrite Ef in Hf. destruct Hf as (Hfc & Hk & Hfo & Hsent & _).
  pose proof (tidy_piece md c f Ht Hfc) as Hp.
  pose proof (pc_range _ _ Hp) as Hrange. pose proof (pc_data _ _ Hp) as Hdata.
  fold (frag_key f) in Hdata, Hrange. rewrite Hk in Hdata, Hrange. rewrite Hdata.
  rewrite slice_slice, Hfo by lia. split; [done |]. apply blen_slice; lia.
Qed.

(** The current fragment starts at the next byte, and has bytes to copy if that
    byte is in the cache. *)
Lemma found_position c p p1 (new : bool) f : in_media c -> reader_ok c p1 ->
  pc_current_fragment p1 = Some f ->
  reader_position p1 = (if new then (pc_current_group_id p + 1, 0, 0) else reader_position p) ->
  (new = true -> pc_current_object_id p = count md (pc_current_group_id p)) ->
  reader_position p1 = next_byte md (reader_position p).
Proof.
  intros Hin [_ _ _ _ _ Hf1 _] Ef Hpos Hnew. rewrite Ef in Hf1. destruct Hf1 as (Hfc & [= Hk1 Hk2] & _).
  specialize (Hin f Hfc). destruct new; rewrite Hpos; unfold next_byte, reader_position in *.
  - by rewrite Hnew, Z.eqb_refl.
  - injection Hpos as Eg Eo _. rewrite Hk1, Hk2, Eg, Eo in Hin. by rewrite (proj2 (Z.eqb_neq _ _)) by lia.
Qed.

Lemma bytes_to_copy c p f : tidy md c -> reader_ok c p -> pc_current_fragment p = Some f ->
  cached c (pc_current_group_id p, pc_current_object_id p) (pc_current_offset p + pc_length_sent p) ->
  pc_length_sent p < cf_data_length f.
Proof.
  intros Ht [_ _ _ _ Hoff Hf _] Ef (y & Hy & Hky & Hiy)%Exists_exists. rewrite Ef in Hf.
  destruct Hf as (Hfc & Hk & Hfo & Hsent & [Hend | [_ E0]]); [done | exfalso].
  destruct (td_nonempty _ _ Ht f Hfc) as [? | Hempty]; [lia |].
  pose proof (pc_range _ _ (tidy_piece md c y Ht Hy)) as Hry. unfold frag_key in *.
  rewrite Hky, <- Hk, Hempty in Hry. lia.
Qed.

(** One call with a buffer: the bytes that follow the position, which the
    consumer follows; they are not missing if the next byte is in the cache. *)
Lemma get_data_spec c p qr_mode cg next max flags now :
  tidy md c -> in_media c -> reader_ok c p -> 0 <= max ->
  past_final c (pc_current_group_id p) (pc_current_object_id p) = false ->
  exists p' out, publisher_get_data qr_mode c p cg next true max flags now = Some (p', cg, out) /\
    reader_ok c p' /\ reader_position p' = consume (reader_position p) out /\
    media_prefix md (reader_position p') = media_prefix md (reader_position p) ++ so_data out /\
    blen (so_data out) <= max /\
    (0 < max -> let k := next_byte md (reader_position p) in cached c k.1 k.2 -> 0 < blen (so_data out)).
Proof.
  intros Ht Hin Hr Hmax Hfinal. unfold publisher_get_data. rewrite Hfinal.
  destruct (find_current_spec c p Ht Hin Hr) as (p1 & new & -> & Hr1 & Hpos & Hpre & Hnone & Hnew).
  destruct (pc_current_fragment p1) as [f |] eqn:Ef.
  - pose proof Hr1 as [_ _ Hg1 Ho1 Hoff1 Hf1 _]. rewrite Ef in Hf1.
    destruct Hf1 as (Hfc & Hk & Hfo & Hsent & Hend).
    rewrite (tidy_deref md c f Ht Hfc). cbn [mbind option_bind].
    pose proof (tidy_piece md c f Ht Hfc) as Hp. pose proof (piece_end _ _ Hp) as [_ Hbig].
    pose proof (pc_range _ _ Hp) as Hrange. pose proof (pc_data _ _ Hp) as Hdata.
    pose proof Hk as [= Hk1 Hk2]. rewrite Hk1, Hk2 in Hdata, Hrange.
    rewrite (u64_small (cf_data_length f - pc_length_sent p1)) by u64_lia.
    set (copied := Z.min max (cf_data_length f - pc_length_sent p1)).
    assert ((if cf_data_length f - pc_length_sent p1 <=? max
             then (true, cf_data_length f - pc_length_sent p1) else (false, max))
            = (cf_data_length f - pc_length_sent p1 <=? max, copied)) as ->.
    { unfold copied. dmatch; b2p; f_equal; lia. }
    rewrite (proj2 (Z.ltb_ge _ _)) by lia. rewrite (u64_small (_ + copied)) by u64_lia.
    pose proof (current_slice c p1 f copied Ht Hr1 Ef ltac:(lia)) as [Esl Hlen].
    eexists _, _. split; [done |]. cbn [so_data]. rewrite <- Hpre, Hlen.
    pose proof (pc_length _ _ Hp) as Hlength. rewrite Hk1, Hk2 in Hlength.
    assert (forall out, so_is_new_group out = new -> enter_group (reader_position p) out
              = reader_position p1) as Hent.
    { intros out E. rewrite Hpos. unfold enter_group, reader_position. by rewrite E. }
    assert (0 < max -> let k := next_byte md (reader_position p) in cached c k.1 k.2 -> 0 < copied) as Hprog.
    { rewrite <- (found_position c p p1 new f Hin Hr1 Ef Hpos (fun E => proj1 (Hnew E))).
      intros Hpos0 k Hc. pose proof (bytes_to_copy c p1 f Ht Hr1 Ef Hc). lia. }
    unfold consume. rewrite Hent by done. unfold reader_position at 2.
    cbn [so_is_still_active so_object_length so_data]. rewrite Hlen.
    destruct (Z.leb_spec (cf_data_length f - pc_length_sent p1) max) as [Hle | Hlt].
    + assert (copied = cf_data_length f - pc_length_sent p1) as Ecop by lia.
      destruct (end_fragment_spec c p1 f (pc_length_sent p1 + copied)
                  (pc_is_current_fragment_sent p1) Ht Hin Hr1 Ef) as (H1 & H2 & H3).
      split; [done |]. split; [| split; [| split; [lia |]]].
      * rewrite H3. rewrite Ecop.
        by replace (pc_current_offset p1 + pc_length_sent p1 + (cf_data_length f - pc_length_sent p1))
          with (pc_current_offset p1 + cf_data_length f) by lia.
      * rewrite H2, Esl. unfold reader_position. rewrite <- media_prefix_data by lia.
        f_equal. f_equal. lia.
      * done.
    + split; [| split; [| split; [| split; [lia |]]]].
      * split; cbn; try apply Hr1. rewrite Ef. split_and!; done || lia.
      * unfold reader_position. cbn. rewrite (proj2 (Z.leb_gt _ _)) by lia. by rewrite Z.add_assoc.
      * rewrite Esl. unfold reader_position. cbn. rewrite Z.add_assoc. apply media_prefix_data; lia.
      * done.
  - eexists p1, _. split; [done |]. cbn [so_data so_is_new_group so_is_still_active].
    split; [done |]. rewrite Hpos. split; [by destruct new |]. rewrite Hpos in Hpre.
    rewrite app_nil_r. split; [done |]. split; [done |].
    intros _ Hc. destruct new; [by destruct Hnew as (_ & _ & []%is_Some_None) |].
    assert (reader_position p1 = reader_position p) as Ep by done. rewrite <- Ep in Hc.
    destruct (cached_fragment c p1 Ht Hr1 Ef Hc) as (x & Hx & Hkx).
    exfalso. apply (Hnone eq_refl x Hx). by rewrite <- Ep.
Qed.

(** A call without a buffer: the position does not change, except to enter a
    group. *)
Lemma poll_spec c p qr_mode cg next max flags now :
  tidy md c -> in_media c -> reader_ok c p ->
  exists p' out, publisher_get_data qr_mode c p cg next false max flags now = Some (p', cg, out) /\
    reader_ok c p' /\ reader_position p' = enter_group (reader_position p) out /\
    media_prefix md (reader_position p') = media_prefix md (reader_position p) /\
    so_should_skip out = false.
Proof.
  intros Ht Hin Hr. unfold publisher_get_data. destruct (past_final _ _ _).
  { exists p. eexists. by split_and!. }
  destruct (find_current_spec c p Ht Hin Hr) as (p1 & new & -> & Hr1 & Hpos & Hpre & _).
  assert (forall out, so_is_new_group out = new ->
    reader_position p1 = enter_group (reader_position p) out) as Hent.
  { intros out E. rewrite Hpos. unfold enter_group, reader_position. by rewrite E. }
  destruct (pc_current_fragment p1) as [f |] eqn:Ef.
  - pose proof (ro_fragment _ _ Hr1) as Hf1. rewrite Ef in Hf1.
    rewrite (tidy_deref md c f Ht (proj1 Hf1)). cbn [mbind option_bind].
    destruct (_ <=? max); (destruct (_ && _);
      [unfold quicrq_evaluate_stream_congestion; rewrite (ro_mode _ _ Hr1) |]);
      (eexists p1, _; split; [done |]; split_and!; [done | by apply Hent | done | done]).
  - eexists p1, _. split; [done |]. split_and!; [done | by apply Hent | done | done].
Qed.
End reader.
