(* ===== verification/PublisherTheorems.v ===== *)
(** * What the stream publisher guarantees

    Any interleaving of fragments added to the cache and of calls of the
    publisher gives the bytes of the media in order; and an input on which
    skipping an object loses bytes of the next one. *)

From S2P Require Import Prelude Picosplay Media Fragment FragmentProofs FragmentReads.
From S2P Require Import FragmentHistory FragmentTheorems PublisherContext Congestion.
From S2P Require Import Publisher PublisherProofs.

(** ** Histories of a cache with one stream publisher *)

Inductive publisher_event :=
  | Propose (f : fragment)            (* a fragment arrives *)
  | Final (group_id object_id : Z)    (* the final point is learned *)
  | Poll (max now : Z)                (* a call without a buffer *)
  | Read (max now : Z).               (* a call with a buffer of [max] bytes *)

Section history.
Context `{SL : SplayLaws quicrq_cached_fragment_t quicrq_fragment_cache_node_compare}.
Context {So : Splay okey quicrq_fragment_publisher_object_node_compare}.
Context {Al : Allocator}.
Context (qr_mode : quicrq_congestion_control_enum) (cg : quicrq_cnx_congestion_state_t).

(** The consumer keeps its position from what the publisher tells, and the
    bytes that it was given. *)
Record publisher_world := {
  pw_cache : quicrq_fragment_cache_t;
  pw_publisher : quicrq_fragment_publisher_context_t;
  pw_position : position;
  pw_bytes : list Z;
}.

Definition publisher_start : publisher_world := {|
  pw_cache := quicrq_fragment_cache_create_ctx;
  pw_publisher :=
    (quicrq_fragment_publisher_subscribe quicrq_fragment_cache_create_ctx
       quicrq_congestion_control_none).1.1;
  pw_position := (0, 0, 0); pw_bytes := [] |}.

Definition publisher_step (w : publisher_world) (e : publisher_event) : option publisher_world :=
  match e with
  | Propose f =>
      '(c, _, _) ← propose_f (pw_cache w) f;
      Some {| pw_cache := c; pw_publisher := pw_publisher w; pw_position := pw_position w;
              pw_bytes := pw_bytes w |}
  | Final g o =>
      Some {| pw_cache := learn_end_point (pw_cache w) g o; pw_publisher := pw_publisher w;
              pw_position := pw_position w; pw_bytes := pw_bytes w |}
  | Poll max now =>
      '(m, _, out) ← publisher_get_data qr_mode (pw_cache w) (pw_publisher w) cg
                       (pw_position w).1.2 false max 0 now;
      Some {| pw_cache := pw_cache w; pw_publisher := m;
              pw_position := enter_group (pw_position w) out; pw_bytes := pw_bytes w |}
  | Read max now =>
      '(m, _, out) ← publisher_get_data qr_mode (pw_cache w) (pw_publisher w) cg
                       (pw_position w).1.2 true max 0 now;
      Some {| pw_cache := pw_cache w; pw_publisher := m;
              pw_position := consume (pw_position w) out;
              pw_bytes := pw_bytes w ++ so_data out |}
  end.

Fixpoint publisher_run (w : publisher_world) (es : list publisher_event) : option publisher_world :=
  match es with
  | [] => Some w
  | e :: es' => w ← publisher_step w e; publisher_run w es'
  end.

Definition proposed_fragments (es : list publisher_event) : list fragment :=
  flat_map (fun e => match e with Propose f => [f] | _ => [] end) es.

Definition reads_ok (e : publisher_event) : Prop :=
  match e with Poll max _ | Read max _ => 0 <= max | _ => True end.

(** ** The invariant of the histories *)

Record world_ok (md : media) (fs : list fragment) (w : publisher_world) : Prop := {
  wo_exact : exact md fs (pw_cache w);
  wo_history : Forall (consistent md) fs;
  wo_reader : reader_ok md (pw_cache w) (pw_publisher w);
  wo_position : pw_position w = reader_position (pw_publisher w);
  wo_bytes : pw_bytes w = media_prefix md (pw_position w);
}.

Lemma world_in_media md fs w : world_ok md fs w -> in_media md (pw_cache w).
Proof.
  intros [Hex Hfs _ _ _] x Hx. destruct (ex_ranges _ _ _ Hex x Hx) as (f & Hf & Hk & _).
  rewrite Forall_forall in Hfs. destruct (Hfs f Hf) as [_ [_ Ho] _ _ _ _].
  unfold frag_key, f_key in Hk. injection Hk as -> ->. done.
Qed.

Lemma world_ok_start md : world_ok md [] publisher_start.
Proof.
  split; [apply exact_init | constructor | | done | done].
  pose proof (count_range md 0). split; cbn; try done; [lia | by left].
Qed.


(** ** Preservation *)

Lemma propose_world md fs w f (Hal : forall n, malloc_ok n = true) :
  world_ok md fs w -> consistent md f -> 0 < f_data_length f \/ blen (content md (f_key f)) = 0 ->
  Forall (no_overlap f) fs ->
  exists w', publisher_step w (Propose f) = Some w' /\ world_ok md (fs ++ [f]) w'.
Proof.
  intros [Hex Hfs Hr Hpos Hb] Hf Hne Hno. cbn [publisher_step].
  destruct (propose_exact Hal md fs (pw_cache w) f Hex Hf Hne Hno)
    as (c & wake & -> & Hex' & _ & _ & Hsub).
  cbn [mbind option_bind]. eexists. split; [done |]. split; cbn; try done.
  - apply Forall_app. split; [done |]. by constructor.
  - by apply (reader_ok_grows _ (pw_cache w)).
Qed.

Lemma run_world md (Hal : forall n, malloc_ok n = true) es : forall fs w,
  world_ok md fs w -> Forall reads_ok es ->
  Forall (consistent md) (proposed_fragments es) ->
  Forall (fun f => 0 < f_data_length f \/ blen (content md (f_key f)) = 0) (proposed_fragments es) ->
  (forall f f', f ∈ fs ++ proposed_fragments es -> f' ∈ fs ++ proposed_fragments es -> no_overlap f f') ->
  exists w', publisher_run w es = Some w' /\ world_ok md (fs ++ proposed_fragments es) w'.
Proof.
  induction es as [| e es IH]; intros fs w Hw Hok Hfs Hne Hno; cbn [publisher_run].
  { cbn. rewrite app_nil_r. by exists w. }
  apply Forall_cons in Hok as [He Hok].
  destruct e as [f | g o | max now | max now]; cbn [proposed_fragments flat_map app] in Hfs, Hne, Hno |- *.
  - apply Forall_cons in Hfs as [Hf Hfs]. apply Forall_cons in Hne as [Hn Hne].
    destruct (propose_world md fs w f Hal Hw Hf Hn) as (w1 & -> & Hw1).
    { apply Forall_forall. intros f' Hf'. apply Hno; [apply elem_of_middle |].
      apply elem_of_app. by left. }
    cbn [mbind option_bind]. destruct (IH (fs ++ [f]) w1 Hw1 Hok Hfs Hne) as (w2 & -> & Hw2).
    + intros x y. rewrite <- (assoc_L (++)). apply Hno.
    + exists w2. by rewrite <- (assoc_L (++)) in Hw2.
  - apply IH; try done. destruct Hw as [Hex ? Hr ? ?].
    split; try done; [by apply exact_final | by apply (reader_ok_grows _ (pw_cache w))].
  - pose proof (world_in_media _ _ _ Hw) as Hin. destruct Hw as [Hex Hh Hr Hpos Hb].
    cbn [publisher_step].
    destruct (poll_spec md (pw_cache w) (pw_publisher w) qr_mode cg (pw_position w).1.2 max 0 now
                (ex_tidy _ _ _ Hex) Hin Hr) as (p & out & -> & Hr1 & Hpos1 & Hpre & _).
    apply IH; try done. split; cbn; try done; rewrite ?Hpos; [done |].
    by rewrite Hb, Hpos, <- Hpos1.
  - pose proof (world_in_media _ _ _ Hw) as Hin. destruct Hw as [Hex Hh Hr Hpos Hb].
    cbn [publisher_step].
    destruct (past_final (pw_cache w) (pc_current_group_id (pw_publisher w))
                (pc_current_object_id (pw_publisher w))) eqn:Efinal.
    + unfold publisher_get_data. rewrite Efinal. cbn [mbind option_bind]. apply IH; try done.
      assert (forall q : position, consume q
        {| so_data := []; so_data_length := 0; so_flags := 0; so_is_new_group := false;
           so_object_length := 0; so_is_media_finished := true; so_is_still_active := false;
           so_should_skip := false |} = q) as Hq by by intros [[? ?] ?].
      split; cbn; try done; rewrite ?Hq; [done |]. by rewrite app_nil_r.
    + destruct (get_data_spec md (pw_cache w) (pw_publisher w) qr_mode cg (pw_position w).1.2 max 0 now
                  (ex_tidy _ _ _ Hex) Hin Hr He Efinal) as (p & out & -> & Hr1 & Hpos1 & Hpre & _).
      apply IH; try done. split; cbn; try done; rewrite ?Hpos; [done |].
      by rewrite Hb, Hpos, <- Hpos1.
Qed.
End history.

(** [C21] The stream publisher gives the media in order.  Fragments that do not
    overlap, except for repetitions, are added to the cache in any order; the
    final point may be learned at any time; in between, the publisher is
    polled and read, with any sizes of buffer.  No call faults; the bytes that
    were read are exactly those of the media from its beginning up to the
    position of the consumer, all objects of all groups in order; and as long
    as the final point is not reached, if the next byte is in the cache (at
    the end of a group, the first byte of the next group), the next read gives
    some. *)
Theorem stream_publisher_delivers
    `{SL : SplayLaws quicrq_cached_fragment_t quicrq_fragment_cache_node_compare}
    {So : Splay okey quicrq_fragment_publisher_object_node_compare} {Al : Allocator}
    (qr_mode : quicrq_congestion_control_enum) (cg : quicrq_cnx_congestion_state_t)
    (md : media) (es : list publisher_event) :
  (forall n, malloc_ok n = true) -> Forall reads_ok es ->
  let fs := proposed_fragments es in
  Forall (consistent md) fs ->
  Forall (fun f => 0 < f_data_length f \/ blen (content md (f_key f)) = 0) fs ->
  (forall f f', f ∈ fs -> f' ∈ fs -> no_overlap f f') ->
  exists w, publisher_run qr_mode cg publisher_start es = Some w /\
    pw_bytes w = media_prefix md (pw_position w) /\
    let '(g, o, off) := pw_position w in
    let k := next_byte md (g, o, off) in
    past_final (pw_cache w) g o = false -> cached (pw_cache w) k.1 k.2 ->
    forall max now, 0 < max ->
    exists m cg' out, publisher_get_data qr_mode (pw_cache w) (pw_publisher w) cg o true max 0 now
                      = Some (m, cg', out) /\ 0 < blen (so_data out) <= max.
Proof.
  intros Hal Hok fs Hfs Hne Hno.
  destruct (run_world qr_mode cg md Hal es [] publisher_start (world_ok_start md) Hok Hfs Hne Hno)
    as (w & -> & Hw).
  pose proof (world_in_media _ _ _ Hw) as Hin. destruct Hw as [Hex _ Hr Hpos Hb].
  exists w. split; [done |]. split; [done |]. rewrite Hpos. unfold reader_position.
  intros Hfinal Hc max now Hmax.
  destruct (get_data_spec md (pw_cache w) (pw_publisher w) qr_mode cg
              (pc_current_object_id (pw_publisher w)) max 0 now (ex_tidy _ _ _ Hex) Hin Hr
              ltac:(lia) Hfinal) as (m & out & E & _ & _ & _ & Hle & Hprog).
  exists m, cg, out. split; [done |]. split; [by apply Hprog | done].
Qed.

(** ** Witness, and an input on which bytes are lost *)
Module PublisherDemo.
Import CacheDemo.
(** The second object arrives first; it is read once the first one is; then
    the next group is entered. *)
Definition events : list publisher_event :=
  [Propose (part 0 1 0 8); Read 10 0; Propose (part 0 0 3 5); Poll 4 1; Propose (part 0 0 0 3);
   Poll 2 2; Read 2 2; Read 4 3; Propose (part 0 0 3 5); Read 4 4; Read 10 5; Read 6 6;
   Poll 3 7; Propose (part 1 0 0 8); Read 2 8; Read 3 9; Read 3 10].

Definition whole_cache : quicrq_fragment_cache_t :=
  match propose_all quicrq_fragment_cache_create_ctx [part 0 0 0 8; part 0 1 0 8; part 0 2 0 8] with
  | Some c => c
  | None => quicrq_fragment_cache_create_ctx
  end.
(** The publisher has sent the first object and half of the second. *)
Definition half_sent : quicrq_fragment_publisher_context_t := {|
  pc_current_group_id := 0; pc_current_object_id := 1; pc_current_offset := 0;
  pc_congestion_control_mode := quicrq_congestion_control_delay;
  pc_end_of_congestion_group_id := 0; pc_is_current_object_skipped := false;
  pc_has_backlog := false;
  pc_current_fragment := quicrq_fragment_cache_get_fragment whole_cache 0 1 0;
  pc_length_sent := 4; pc_is_current_fragment_sent := false;
  pc_tree := splay_empty; pc_objects := ∅ |}.
(** Another stream of the connection has reported a backlog. *)
Definition congested : quicrq_cnx_congestion_state_t :=
  (quicrq_congestion_check_per_cnx quicrq_congestion_control_delay congestion_zero 128 true 0).1.
End PublisherDemo.

Lemma stream_publisher_delivers_witness :
  (exists w, publisher_run (Al := CacheDemo.malloc_always) quicrq_congestion_control_none
               congestion_zero publisher_start PublisherDemo.events = Some w /\
    pw_bytes w = media_prefix CacheDemo.cache_media (pw_position w) /\
    let '(g, o, off) := pw_position w in
    let k := next_byte CacheDemo.cache_media (g, o, off) in
    past_final (pw_cache w) g o = false -> cached (pw_cache w) k.1 k.2 ->
    forall max now, 0 < max ->
    exists m cg' out, publisher_get_data quicrq_congestion_control_none (pw_cache w)
                        (pw_publisher w) congestion_zero o true max 0 now
                      = Some (m, cg', out) /\ 0 < blen (so_data out) <= max) /\
  option_map (fun w => (pw_bytes w, pw_position w))
    (publisher_run (Al := CacheDemo.malloc_always) quicrq_congestion_control_none
       congestion_zero publisher_start PublisherDemo.events)
  = Some ([0; 0; 7; 8; 9; 10; 11; 12; 0; 1; 7; 8; 9; 10; 11; 12; 1; 0; 7; 8; 9; 10], (1, 0, 6)).
Proof.
  split; [| reflexivity].
  apply (stream_publisher_delivers (Al := CacheDemo.malloc_always) quicrq_congestion_control_none
           congestion_zero CacheDemo.cache_media PublisherDemo.events).
  - intros n. exact eq_refl.
  - unfold PublisherDemo.events. repeat (apply Forall_cons; split; [cbn; first [exact I | lia] |]).
    by apply Forall_nil.
  - apply CacheDemo.two_groups_consistent.
  - apply CacheDemo.two_groups_nonempty.
  - apply CacheDemo.two_groups_no_overlap.
Defined.

(** A publisher on a single stream has no tree of objects: the purge of a real
    time cache does not see what it reads.  Here half of a fragment of group 0
    is sent when group 1 begins; the purge deletes the fragment, which the
    publisher still designates, and the next read follows it. *)
Example purge_under_reader :
  (w ← publisher_run (Al := CacheDemo.malloc_always) quicrq_congestion_control_none congestion_zero
         publisher_start [Propose (CacheDemo.part 0 0 0 8); Propose (CacheDemo.part 0 1 0 8);
                          Propose (CacheDemo.part 1 0 0 8); Read 4 0];
   let read c := (fun r => so_data r.2) <$>
     publisher_get_data quicrq_congestion_control_none c (pw_publisher w) congestion_zero 0 true 4 0 1 in
   Some (read (pw_cache w), read (purge_to_gob (pw_cache w) [None]))) =
  Some (Some [9; 10; 11; 12], None).
Proof. reflexivity. Qed.

(** When the congestion control skips an object that is partly sent, the
    number of bytes sent is kept: the next object is sent without its first
    bytes.  Here half of object 1 is sent when the poll asks to skip it; the
    next read gives object 2 without its first four bytes, and ends it. *)
Theorem skip_loses_bytes :
  option_map (fun '(m, cg, out) =>
      (so_should_skip out,
       option_map (fun '(m', _, out') =>
           (so_data out', so_object_length out', pc_current_object_id m'))
         (publisher_get_data quicrq_congestion_control_delay PublisherDemo.whole_cache
            (pc_set_skipped m true) cg 2 true 100 0 0)))
    (publisher_get_data quicrq_congestion_control_delay PublisherDemo.whole_cache
       PublisherDemo.half_sent PublisherDemo.congested 1 false 100 0 0)
  = Some (true, Some ([9; 10; 11; 12], 8, 3)).
Proof. reflexivity. Qed.
