(* ===== verification/StreamContext.v ===== *)
(** * lib/quicrq_internal.h: the contexts of the streams

    The control stream of a media ([quicrq_stream_ctx_t]), the unidirectional
    streams of the warp and rush modes ([quicrq_uni_stream_ctx_t]), the calls
    that they make to picoquic, and the consumer that receives the media. *)

From S2P Require Import Prelude Picosplay PicoFrames Proto Fragment PublisherContext MsgBuffer.

(** ** Enumerations *)

Inductive quicrq_stream_sending_state_enum :=
  | quicrq_sending_ready
  | quicrq_sending_single_stream
  | quicrq_sending_initial
  | quicrq_sending_repair
  | quicrq_sending_final_point
  | quicrq_sending_start_point
  | quicrq_sending_cache_policy
  | quicrq_sending_fin
  | quicrq_sending_subscribe
  | quicrq_waiting_notify
  | quicrq_sending_notify
  | quicrq_notify_ready
  | quicrq_sending_no_more.
#[export] Instance sending_state_eq_dec : EqDecision quicrq_stream_sending_state_enum.
Proof. solve_decision. Defined.

Inductive quicrq_stream_receive_state_enum :=
  | quicrq_receive_initial
  | quicrq_receive_stream
  | quicrq_receive_confirmation
  | quicrq_receive_fragment
  | quicrq_receive_notify
  | quicrq_receive_done.
#[export] Instance receive_state_eq_dec : EqDecision quicrq_stream_receive_state_enum.
Proof. solve_decision. Defined.

Inductive quicrq_uni_stream_sending_state_enum :=
  | quicrq_sending_open
  | quicrq_sending_warp_header_sent
  | quicrq_sending_object_header
  | quicrq_sending_object_data
  | quicrq_sending_warp_all_sent
  | quicrq_sending_warp_should_close.
#[export] Instance uni_sending_state_eq_dec : EqDecision quicrq_uni_stream_sending_state_enum.
Proof. solve_decision. Defined.

Inductive quicrq_uni_stream_receive_state_enum :=
  | quicrq_receive_open
  | quicrq_receive_warp_header
  | quicrq_receive_object_header
  | quicrq_receive_object_data.
#[export] Instance uni_receive_state_eq_dec : EqDecision quicrq_uni_stream_receive_state_enum.
Proof. solve_decision. Defined.

Inductive quicrq_media_close_reason_enum :=
  | quicrq_media_close_reason_unknown
  | quicrq_media_close_finished
  | quicrq_media_close_unsubscribe
  | quicrq_media_close_delete_context
  | quicrq_media_close_internal_error
  | quicrq_media_close_local_application
  | quicrq_media_close_remote_application
  | quicrq_media_close_quic_connection.
#[export] Instance close_reason_eq_dec : EqDecision quicrq_media_close_reason_enum.
Proof. solve_decision. Defined.

(** ** The calls to picoquic *)

(** What a function asks of the transport: a stream is marked active or not,
    its priority is set, it is reset or unlinked from its context; datagrams
    are marked ready; bytes are written in the buffer provided for a stream,
    with the fin and active marks. *)
Inductive pico_call :=
  | picoquic_mark_active_stream (stream_id : Z) (is_active : bool)
  | picoquic_set_stream_priority (stream_id priority : Z)
  | picoquic_reset_stream (stream_id : Z)
  | picoquic_unlink_app_stream_ctx (stream_id : Z)
  | picoquic_add_to_stream_fin (stream_id : Z)
  | picoquic_mark_datagram_ready (is_ready : bool)
  | stream_data (bytes : list Z) (is_fin is_active : bool).

(** The bytes and the fin mark written by a sequence of calls. *)
Definition sent_bytes (calls : list pico_call) : list Z :=
  flat_map (fun k => match k with stream_data bytes _ _ => bytes | _ => [] end) calls.
Definition sent_fin (calls : list pico_call) : bool :=
  existsb (fun k => match k with stream_data _ is_fin _ => is_fin | _ => false end) calls.

Lemma sent_fin_app l1 l2 : sent_fin (l1 ++ l2) = sent_fin l1 || sent_fin l2.
Proof. apply existsb_app. Qed.
Lemma sent_bytes_app l1 l2 : sent_bytes (l1 ++ l2) = sent_bytes l1 ++ sent_bytes l2.
Proof. apply flat_map_app. Qed.

(** ** The consumer of a media *)

(** The actions of [quicrq_media_consumer_fn], with the arguments that they
    use.  [consumer_fn] is the application's function on its own state. *)
Inductive consumer_call :=
  | quicrq_media_datagram_ready (data : list Z)
      (group_id object_id offset queue_delay flags nb_objects_previous_group object_length
       data_length : Z)
  | quicrq_media_final_object_id (group_id object_id : Z)
  | quicrq_media_start_point (group_id object_id flags : Z)
  | quicrq_media_real_time_cache
  | quicrq_media_close (close_reason : quicrq_media_close_reason_enum) (close_error_code : Z).

Definition quicrq_consumer_finished : Z := 1.

Class Consumer (CS : Type) := consumer_fn : CS -> consumer_call -> CS * Z.

(** ** The control stream *)

(** The contexts of the media, of the acknowledgements and of the connection,
    and the unidirectional streams, are separate arguments of the
    functions. *)
Record quicrq_stream_ctx_t := {
  st_stream_id : Z;
  st_media_id : Z;
  st_next_group_id : Z;
  st_next_object_id : Z;
  st_next_object_offset : Z;
  st_start_group_id : Z;
  st_start_object_id : Z;
  st_final_group_id : Z;
  st_final_object_id : Z;
  st_next_warp_group_id : Z;
  st_next_rush_object_id : Z;
  st_subscribe_prefix : option (list Z);
  st_notify_urls : list (list Z);
  st_transport_mode : quicrq_transport_mode_enum;
  st_send_state : quicrq_stream_sending_state_enum;
  st_receive_state : quicrq_stream_receive_state_enum;
  st_close_reason : quicrq_media_close_reason_enum;
  st_lowest_flags : Z;
  st_is_sender : bool;
  st_is_cache_real_time : bool;
  st_is_peer_finished : bool;
  st_is_local_finished : bool;
  st_is_receive_complete : bool;
  st_is_active_datagram : bool;
  st_is_start_object_id_sent : bool;
  st_is_final_object_id_sent : bool;
  st_is_cache_policy_sent : bool;
  st_message_sent : quicrq_message_buffer_t;
  st_message_receive : quicrq_message_buffer_t;
}.

(** A zeroed context, as [quicrq_create_stream_context] makes it. *)
Definition stream_zero (stream_id : Z) : quicrq_stream_ctx_t := {|
  st_stream_id := stream_id; st_media_id := 0; st_next_group_id := 0; st_next_object_id := 0;
  st_next_object_offset := 0; st_start_group_id := 0; st_start_object_id := 0;
  st_final_group_id := 0; st_final_object_id := 0; st_next_warp_group_id := 0;
  st_next_rush_object_id := 0; st_subscribe_prefix := None; st_notify_urls := [];
  st_transport_mode := quicrq_transport_mode_unspecified; st_send_state := quicrq_sending_ready;
  st_receive_state := quicrq_receive_initial;
  st_close_reason := quicrq_media_close_reason_unknown; st_lowest_flags := 0;
  st_is_sender := false; st_is_cache_real_time := false; st_is_peer_finished := false;
  st_is_local_finished := false; st_is_receive_complete := false; st_is_active_datagram := false;
  st_is_start_object_id_sent := false; st_is_final_object_id_sent := false;
  st_is_cache_policy_sent := false; st_message_sent := msg_buffer_zero;
  st_message_receive := msg_buffer_zero |}.

(** Field updates. *)
Definition st_set_media s id := {| st_stream_id := st_stream_id s; st_media_id := id;
  st_next_group_id := st_next_group_id s; st_next_object_id := st_next_object_id s;
  st_next_object_offset := st_next_object_offset s; st_start_group_id := st_start_group_id s;
  st_start_object_id := st_start_object_id s; st_final_group_id := st_final_group_id s;
  st_final_object_id := st_final_object_id s; st_next_warp_group_id := st_next_warp_group_id s;
  st_next_rush_object_id := st_next_rush_object_id s;
  st_subscribe_prefix := st_subscribe_prefix s; st_notify_urls := st_notify_urls s;
  st_transport_mode := st_transport_mode s; st_send_state := st_send_state s;
  st_receive_state := st_receive_state s; st_close_reason := st_close_reason s;
  st_lowest_flags := st_lowest_flags s; st_is_sender := st_is_sender s;
  st_is_cache_real_time := st_is_cache_real_time s; st_is_peer_finished := st_is_peer_finished s;
  st_is_local_finished := st_is_local_finished s;
  st_is_receive_complete := st_is_receive_complete s;
  st_is_active_datagram := st_is_active_datagram s;
  st_is_start_object_id_sent := st_is_start_object_id_sent s;
  st_is_final_object_id_sent := st_is_final_object_id_sent s;
  st_is_cache_policy_sent := st_is_cache_policy_sent s; st_message_sent := st_message_sent s;
  st_message_receive := st_message_receive s |}.
Definition st_set_mode s mode := {| st_stream_id := st_stream_id s; st_media_id := st_media_id s;
  st_next_group_id := st_next_group_id s; st_next_object_id := st_next_object_id s;
  st_next_object_offset := st_next_object_offset s; st_start_group_id := st_start_group_id s;
  st_start_object_id := st_start_object_id s; st_final_group_id := st_final_group_id s;
  st_final_object_id := st_final_object_id s; st_next_warp_group_id := st_next_warp_group_id s;
  st_next_rush_object_id := st_next_rush_object_id s;
  st_subscribe_prefix := st_subscribe_prefix s; st_notify_urls := st_notify_urls s;
  st_transport_mode := mode; st_send_state := st_send_state s;
  st_receive_state := st_receive_state s; st_close_reason := st_close_reason s;
  st_lowest_flags := st_lowest_flags s; st_is_sender := st_is_sender s;
  st_is_cache_real_time := st_is_cache_real_time s; st_is_peer_finished := st_is_peer_finished s;
  st_is_local_finished := st_is_local_finished s;
  st_is_receive_complete := st_is_receive_complete s;
  st_is_active_datagram := st_is_active_datagram s;
  st_is_start_object_id_sent := st_is_start_object_id_sent s;
  st_is_final_object_id_sent := st_is_final_object_id_sent s;
  st_is_cache_policy_sent := st_is_cache_policy_sent s; st_message_sent := st_message_sent s;
  st_message_receive := st_message_receive s |}.
Definition st_set_next s g o off := {| st_stream_id := st_stream_id s;
  st_media_id := st_media_id s; st_next_group_id := g; st_next_object_id := o;
  st_next_object_offset := off; st_start_group_id := st_start_group_id s;
  st_start_object_id := st_start_object_id s; st_final_group_id := st_final_group_id s;
  st_final_object_id := st_final_object_id s; st_next_warp_group_id := st_next_warp_group_id s;
  st_next_rush_object_id := st_next_rush_object_id s;
  st_subscribe_prefix := st_subscribe_prefix s; st_notify_urls := st_notify_urls s;
  st_transport_mode := st_transport_mode s; st_send_state := st_send_state s;
  st_receive_state := st_receive_state s; st_close_reason := st_close_reason s;
  st_lowest_flags := st_lowest_flags s; st_is_sender := st_is_sender s;
  st_is_cache_real_time := st_is_cache_real_time s; st_is_peer_finished := st_is_peer_finished s;
  st_is_local_finished := st_is_local_finished s;
  st_is_receive_complete := st_is_receive_complete s;
  st_is_active_datagram := st_is_active_datagram s;
  st_is_start_object_id_sent := st_is_start_object_id_sent s;
  st_is_final_object_id_sent := st_is_final_object_id_sent s;
  st_is_cache_policy_sent := st_is_cache_policy_sent s; st_message_sent := st_message_sent s;
  st_message_receive := st_message_receive s |}.
Definition st_set_start s g o := {| st_stream_id := st_stream_id s; st_media_id := st_media_id s;
  st_next_group_id := st_next_group_id s; st_next_object_id := st_next_object_id s;
  st_next_object_offset := st_next_object_offset s; st_start_group_id := g;
  st_start_object_id := o; st_final_group_id := st_final_group_id s;
  st_final_object_id := st_final_object_id s; st_next_warp_group_id := st_next_warp_group_id s;
  st_next_rush_object_id := st_next_rush_object_id s;
  st_subscribe_prefix := st_subscribe_prefix s; st_notify_urls := st_notify_urls s;
  st_transport_mode := st_transport_mode s; st_send_state := st_send_state s;
  st_receive_state := st_receive_state s; st_close_reason := st_close_reason s;
  st_lowest_flags := st_lowest_flags s; st_is_sender := st_is_sender s;
  st_is_cache_real_time := st_is_cache_real_time s; st_is_peer_finished := st_is_peer_finished s;
  st_is_local_finished := st_is_local_finished s;
  st_is_receive_complete := st_is_receive_complete s;
  st_is_active_datagram := st_is_active_datagram s;
  st_is_start_object_id_sent := st_is_start_object_id_sent s;
  st_is_final_object_id_sent := st_is_final_object_id_sent s;
  st_is_cache_policy_sent := st_is_cache_policy_sent s; st_message_sent := st_message_sent s;
  st_message_receive := st_message_receive s |}.
Definition st_set_final s g o := {| st_stream_id := st_stream_id s; st_media_id := st_media_id s;
  st_next_group_id := st_next_group_id s; st_next_object_id := st_next_object_id s;
  st_next_object_offset := st_next_object_offset s; st_start_group_id := st_start_group_id s;
  st_start_object_id := st_start_object_id s; st_final_group_id := g; st_final_object_id := o;
  st_next_warp_group_id := st_next_warp_group_id s;
  st_next_rush_object_id := st_next_rush_object_id s;
  st_subscribe_prefix := st_subscribe_prefix s; st_notify_urls := st_notify_urls s;
  st_transport_mode := st_transport_mode s; st_send_state := st_send_state s;
  st_receive_state := st_receive_state s; st_close_reason := st_close_reason s;
  st_lowest_flags := st_lowest_flags s; st_is_sender := st_is_sender s;
  st_is_cache_real_time := st_is_cache_real_time s; st_is_peer_finished := st_is_peer_finished s;
  st_is_local_finished := st_is_local_finished s;
  st_is_receive_complete := st_is_receive_complete s;
  st_is_active_datagram := st_is_active_datagram s;
  st_is_start_object_id_sent := st_is_start_object_id_sent s;
  st_is_final_object_id_sent := st_is_final_object_id_sent s;
  st_is_cache_policy_sent := st_is_cache_policy_sent s; st_message_sent := st_message_sent s;
  st_message_receive := st_message_receive s |}.
Definition st_set_next_warp s g o := {| st_stream_id := st_stream_id s;
  st_media_id := st_media_id s; st_next_group_id := st_next_group_id s;
  st_next_object_id := st_next_object_id s; st_next_object_offset := st_next_object_offset s;
  st_start_group_id := st_start_group_id s; st_start_object_id := st_start_object_id s;
  st_final_group_id := st_final_group_id s; st_final_object_id := st_final_object_id s;
  st_next_warp_group_id := g; st_next_rush_object_id := o;
  st_subscribe_prefix := st_subscribe_prefix s; st_notify_urls := st_notify_urls s;
  st_transport_mode := st_transport_mode s; st_send_state := st_send_state s;
  st_receive_state := st_receive_state s; st_close_reason := st_close_reason s;
  st_lowest_flags := st_lowest_flags s; st_is_sender := st_is_sender s;
  st_is_cache_real_time := st_is_cache_real_time s; st_is_peer_finished := st_is_peer_finished s;
  st_is_local_finished := st_is_local_finished s;
  st_is_receive_complete := st_is_receive_complete s;
  st_is_active_datagram := st_is_active_datagram s;
  st_is_start_object_id_sent := st_is_start_object_id_sent s;
  st_is_final_object_id_sent := st_is_final_object_id_sent s;
  st_is_cache_policy_sent := st_is_cache_policy_sent s; st_message_sent := st_message_sent s;
  st_message_receive := st_message_receive s |}.
Definition st_set_subscribe s p := {| st_stream_id := st_stream_id s;
  st_media_id := st_media_id s; st_next_group_id := st_next_group_id s;
  st_next_object_id := st_next_object_id s; st_next_object_offset := st_next_object_offset s;
  st_start_group_id := st_start_group_id s; st_start_object_id := st_start_object_id s;
  st_final_group_id := st_final_group_id s; st_final_object_id := st_final_object_id s;
  st_next_warp_group_id := st_next_warp_group_id s;
  st_next_rush_object_id := st_next_rush_object_id s; st_subscribe_prefix := p;
  st_notify_urls := st_notify_urls s; st_transport_mode := st_transport_mode s;
  st_send_state := st_send_state s; st_receive_state := st_receive_state s;
  st_close_reason := st_close_reason s; st_lowest_flags := st_lowest_flags s;
  st_is_sender := st_is_sender s; st_is_cache_real_time := st_is_cache_real_time s;
  st_is_peer_finished := st_is_peer_finished s; st_is_local_finished := st_is_local_finished s;
  st_is_receive_complete := st_is_receive_complete s;
  st_is_active_datagram := st_is_active_datagram s;
  st_is_start_object_id_sent := st_is_start_object_id_sent s;
  st_is_final_object_id_sent := st_is_final_object_id_sent s;
  st_is_cache_policy_sent := st_is_cache_policy_sent s; st_message_sent := st_message_sent s;
  st_message_receive := st_message_receive s |}.
Definition st_set_notify s l := {| st_stream_id := st_stream_id s; st_media_id := st_media_id s;
  st_next_group_id := st_next_group_id s; st_next_object_id := st_next_object_id s;
  st_next_object_offset := st_next_object_offset s; st_start_group_id := st_start_group_id s;
  st_start_object_id := st_start_object_id s; st_final_group_id := st_final_group_id s;
  st_final_object_id := st_final_object_id s; st_next_warp_group_id := st_next_warp_group_id s;
  st_next_rush_object_id := st_next_rush_object_id s;
  st_subscribe_prefix := st_subscribe_prefix s; st_notify_urls := l;
  st_transport_mode := st_transport_mode s; st_send_state := st_send_state s;
  st_receive_state := st_receive_state s; st_close_reason := st_close_reason s;
  st_lowest_flags := st_lowest_flags s; st_is_sender := st_is_sender s;
  st_is_cache_real_time := st_is_cache_real_time s; st_is_peer_finished := st_is_peer_finished s;
  st_is_local_finished := st_is_local_finished s;
  st_is_receive_complete := st_is_receive_complete s;
  st_is_active_datagram := st_is_active_datagram s;
  st_is_start_object_id_sent := st_is_start_object_id_sent s;
  st_is_final_object_id_sent := st_is_final_object_id_sent s;
  st_is_cache_policy_sent := st_is_cache_policy_sent s; st_message_sent := st_message_sent s;
  st_message_receive := st_message_receive s |}.
Definition st_set_send s x := {| st_stream_id := st_stream_id s; st_media_id := st_media_id s;
  st_next_group_id := st_next_group_id s; st_next_object_id := st_next_object_id s;
  st_next_object_offset := st_next_object_offset s; st_start_group_id := st_start_group_id s;
  st_start_object_id := st_start_object_id s; st_final_group_id := st_final_group_id s;
  st_final_object_id := st_final_object_id s; st_next_warp_group_id := st_next_warp_group_id s;
  st_next_rush_object_id := st_next_rush_object_id s;
  st_subscribe_prefix := st_subscribe_prefix s; st_notify_urls := st_notify_urls s;
  st_transport_mode := st_transport_mode s; st_send_state := x;
  st_receive_state := st_receive_state s; st_close_reason := st_close_reason s;
  st_lowest_flags := st_lowest_flags s; st_is_sender := st_is_sender s;
  st_is_cache_real_time := st_is_cache_real_time s; st_is_peer_finished := st_is_peer_finished s;
  st_is_local_finished := st_is_local_finished s;
  st_is_receive_complete := st_is_receive_complete s;
  st_is_active_datagram := st_is_active_datagram s;
  st_is_start_object_id_sent := st_is_start_object_id_sent s;
  st_is_final_object_id_sent := st_is_final_object_id_sent s;
  st_is_cache_policy_sent := st_is_cache_policy_sent s; st_message_sent := st_message_sent s;
  st_message_receive := st_message_receive s |}.
Definition st_set_receive s x := {| st_stream_id := st_stream_id s; st_media_id := st_media_id s;
  st_next_group_id := st_next_group_id s; st_next_object_id := st_next_object_id s;
  st_next_object_offset := st_next_object_offset s; st_start_group_id := st_start_group_id s;
  st_start_object_id := st_start_object_id s; st_final_group_id := st_final_group_id s;
  st_final_object_id := st_final_object_id s; st_next_warp_group_id := st_next_warp_group_id s;
  st_next_rush_object_id := st_next_rush_object_id s;
  st_subscribe_prefix := st_subscribe_prefix s; st_notify_urls := st_notify_urls s;
  st_transport_mode := st_transport_mode s; st_send_state := st_send_state s;
  st_receive_state := x; st_close_reason := st_close_reason s;
  st_lowest_flags := st_lowest_flags s; st_is_sender := st_is_sender s;
  st_is_cache_real_time := st_is_cache_real_time s; st_is_peer_finished := st_is_peer_finished s;
  st_is_local_finished := st_is_local_finished s;
  st_is_receive_complete := st_is_receive_complete s;
  st_is_active_datagram := st_is_active_datagram s;
  st_is_start_object_id_sent := st_is_start_object_id_sent s;
  st_is_final_object_id_sent := st_is_final_object_id_sent s;
  st_is_cache_policy_sent := st_is_cache_policy_sent s; st_message_sent := st_message_sent s;
  st_message_receive := st_message_receive s |}.
Definition st_set_close_reason s x := {| st_stream_id := st_stream_id s;
  st_media_id := st_media_id s; st_next_group_id := st_next_group_id s;
  st_next_object_id := st_next_object_id s; st_next_object_offset := st_next_object_offset s;
  st_start_group_id := st_start_group_id s; st_start_object_id := st_start_object_id s;
  st_final_group_id := st_final_group_id s; st_final_object_id := st_final_object_id s;
  st_next_warp_group_id := st_next_warp_group_id s;
  st_next_rush_object_id := st_next_rush_object_id s;
  st_subscribe_prefix := st_subscribe_prefix s; st_notify_urls := st_notify_urls s;
  st_transport_mode := st_transport_mode s; st_send_state := st_send_state s;
  st_receive_state := st_receive_state s; st_close_reason := x;
  st_lowest_flags := st_lowest_flags s; st_is_sender := st_is_sender s;
  st_is_cache_real_time := st_is_cache_real_time s; st_is_peer_finished := st_is_peer_finished s;
  st_is_local_finished := st_is_local_finished s;
  st_is_receive_complete := st_is_receive_complete s;
  st_is_active_datagram := st_is_active_datagram s;
  st_is_start_object_id_sent := st_is_start_object_id_sent s;
  st_is_final_object_id_sent := st_is_final_object_id_sent s;
  st_is_cache_policy_sent := st_is_cache_policy_sent s; st_message_sent := st_message_sent s;
  st_message_receive := st_message_receive s |}.
Definition st_set_lowest_flags s x := {| st_stream_id := st_stream_id s;
  st_media_id := st_media_id s; st_next_group_id := st_next_group_id s;
  st_next_object_id := st_next_object_id s; st_next_object_offset := st_next_object_offset s;
  st_start_group_id := st_start_group_id s; st_start_object_id := st_start_object_id s;
  st_final_group_id := st_final_group_id s; st_final_object_id := st_final_object_id s;
  st_next_warp_group_id := st_next_warp_group_id s;
  st_next_rush_object_id := st_next_rush_object_id s;
  st_subscribe_prefix := st_subscribe_prefix s; st_notify_urls := st_notify_urls s;
  st_transport_mode := st_transport_mode s; st_send_state := st_send_state s;
  st_receive_state := st_receive_state s; st_close_reason := st_close_reason s;
  st_lowest_flags := x; st_is_sender := st_is_sender s;
  st_is_cache_real_time := st_is_cache_real_time s; st_is_peer_finished := st_is_peer_finished s;
  st_is_local_finished := st_is_local_finished s;
  st_is_receive_complete := st_is_receive_complete s;
  st_is_active_datagram := st_is_active_datagram s;
  st_is_start_object_id_sent := st_is_start_object_id_sent s;
  st_is_final_object_id_sent := st_is_final_object_id_sent s;
  st_is_cache_policy_sent := st_is_cache_policy_sent s; st_message_sent := st_message_sent s;
  st_message_receive := st_message_receive s |}.
Definition st_set_sender s b := {| st_stream_id := st_stream_id s; st_media_id := st_media_id s;
  st_next_group_id := st_next_group_id s; st_next_object_id := st_next_object_id s;
  st_next_object_offset := st_next_object_offset s; st_start_group_id := st_start_group_id s;
  st_start_object_id := st_start_object_id s; st_final_group_id := st_final_group_id s;
  st_final_object_id := st_final_object_id s; st_next_warp_group_id := st_next_warp_group_id s;
  st_next_rush_object_id := st_next_rush_object_id s;
  st_subscribe_prefix := st_subscribe_prefix s; st_notify_urls := st_notify_urls s;
  st_transport_mode := st_transport_mode s; st_send_state := st_send_state s;
  st_receive_state := st_receive_state s; st_close_reason := st_close_reason s;
  st_lowest_flags := st_lowest_flags s; st_is_sender := b;
  st_is_cache_real_time := st_is_cache_real_time s; st_is_peer_finished := st_is_peer_finished s;
  st_is_local_finished := st_is_local_finished s;
  st_is_receive_complete := st_is_receive_complete s;
  st_is_active_datagram := st_is_active_datagram s;
  st_is_start_object_id_sent := st_is_start_object_id_sent s;
  st_is_final_object_id_sent := st_is_final_object_id_sent s;
  st_is_cache_policy_sent := st_is_cache_policy_sent s; st_message_sent := st_message_sent s;
  st_message_receive := st_message_receive s |}.
Definition st_set_cache_real_time s b := {| st_stream_id := st_stream_id s;
  st_media_id := st_media_id s; st_next_group_id := st_next_group_id s;
  st_next_object_id := st_next_object_id s; st_next_object_offset := st_next_object_offset s;
  st_start_group_id := st_start_group_id s; st_start_object_id := st_start_object_id s;
  st_final_group_id := st_final_group_id s; st_final_object_id := st_final_object_id s;
  st_next_warp_group_id := st_next_warp_group_id s;
  st_next_rush_object_id := st_next_rush_object_id s;
  st_subscribe_prefix := st_subscribe_prefix s; st_notify_urls := st_notify_urls s;
  st_transport_mode := st_transport_mode s; st_send_state := st_send_state s;
  st_receive_state := st_receive_state s; st_close_reason := st_close_reason s;
  st_lowest_flags := st_lowest_flags s; st_is_sender := st_is_sender s;
  st_is_cache_real_time := b; st_is_peer_finished := st_is_peer_finished s;
  st_is_local_finished := st_is_local_finished s;
  st_is_receive_complete := st_is_receive_complete s;
  st_is_active_datagram := st_is_active_datagram s;
  st_is_start_object_id_sent := st_is_start_object_id_sent s;
  st_is_final_object_id_sent := st_is_final_object_id_sent s;
  st_is_cache_policy_sent := st_is_cache_policy_sent s; st_message_sent := st_message_sent s;
  st_message_receive := st_message_receive s |}.
Definition st_set_finished s peer loc := {| st_stream_id := st_stream_id s;
  st_media_id := st_media_id s; st_next_group_id := st_next_group_id s;
  st_next_object_id := st_next_object_id s; st_next_object_offset := st_next_object_offset s;
  st_start_group_id := st_start_group_id s; st_start_object_id := st_start_object_id s;
  st_final_group_id := st_final_group_id s; st_final_object_id := st_final_object_id s;
  st_next_warp_group_id := st_next_warp_group_id s;
  st_next_rush_object_id := st_next_rush_object_id s;
  st_subscribe_prefix := st_subscribe_prefix s; st_notify_urls := st_notify_urls s;
  st_transport_mode := st_transport_mode s; st_send_state := st_send_state s;
  st_receive_state := st_receive_state s; st_close_reason := st_close_reason s;
  st_lowest_flags := st_lowest_flags s; st_is_sender := st_is_sender s;
  st_is_cache_real_time := st_is_cache_real_time s; st_is_peer_finished := peer;
  st_is_local_finished := loc; st_is_receive_complete := st_is_receive_complete s;
  st_is_active_datagram := st_is_active_datagram s;
  st_is_start_object_id_sent := st_is_start_object_id_sent s;
  st_is_final_object_id_sent := st_is_final_object_id_sent s;
  st_is_cache_policy_sent := st_is_cache_policy_sent s; st_message_sent := st_message_sent s;
  st_message_receive := st_message_receive s |}.
Definition st_set_receive_complete s b := {| st_stream_id := st_stream_id s;
  st_media_id := st_media_id s; st_next_group_id := st_next_group_id s;
  st_next_object_id := st_next_object_id s; st_next_object_offset := st_next_object_offset s;
  st_start_group_id := st_start_group_id s; st_start_object_id := st_start_object_id s;
  st_final_group_id := st_final_group_id s; st_final_object_id := st_final_object_id s;
  st_next_warp_group_id := st_next_warp_group_id s;
  st_next_rush_object_id := st_next_rush_object_id s;
  st_subscribe_prefix := st_subscribe_prefix s; st_notify_urls := st_notify_urls s;
  st_transport_mode := st_transport_mode s; st_send_state := st_send_state s;
  st_receive_state := st_receive_state s; st_close_reason := st_close_reason s;
  st_lowest_flags := st_lowest_flags s; st_is_sender := st_is_sender s;
  st_is_cache_real_time := st_is_cache_real_time s; st_is_peer_finished := st_is_peer_finished s;
  st_is_local_finished := st_is_local_finished s; st_is_receive_complete := b;
  st_is_active_datagram := st_is_active_datagram s;
  st_is_start_object_id_sent := st_is_start_object_id_sent s;
  st_is_final_object_id_sent := st_is_final_object_id_sent s;
  st_is_cache_policy_sent := st_is_cache_policy_sent s; st_message_sent := st_message_sent s;
  st_message_receive := st_message_receive s |}.
Definition st_set_active_datagram s b := {| st_stream_id := st_stream_id s;
  st_media_id := st_media_id s; st_next_group_id := st_next_group_id s;
  st_next_object_id := st_next_object_id s; st_next_object_offset := st_next_object_offset s;
  st_start_group_id := st_start_group_id s; st_start_object_id := st_start_object_id s;
  st_final_group_id := st_final_group_id s; st_final_object_id := st_final_object_id s;
  st_next_warp_group_id := st_next_warp_group_id s;
  st_next_rush_object_id := st_next_rush_object_id s;
  st_subscribe_prefix := st_subscribe_prefix s; st_notify_urls := st_notify_urls s;
  st_transport_mode := st_transport_mode s; st_send_state := st_send_state s;
  st_receive_state := st_receive_state s; st_close_reason := st_close_reason s;
  st_lowest_flags := st_lowest_flags s; st_is_sender := st_is_sender s;
  st_is_cache_real_time := st_is_cache_real_time s; st_is_peer_finished := st_is_peer_finished s;
  st_is_local_finished := st_is_local_finished s;
  st_is_receive_complete := st_is_receive_complete s; st_is_active_datagram := b;
  st_is_start_object_id_sent := st_is_start_object_id_sent s;
  st_is_final_object_id_sent := st_is_final_object_id_sent s;
  st_is_cache_policy_sent := st_is_cache_policy_sent s; st_message_sent := st_message_sent s;
  st_message_receive := st_message_receive s |}.
Definition st_set_sent s start final policy := {| st_stream_id := st_stream_id s;
  st_media_id := st_media_id s; st_next_group_id := st_next_group_id s;
  st_next_object_id := st_next_object_id s; st_next_object_offset := st_next_object_offset s;
  st_start_group_id := st_start_group_id s; st_start_object_id := st_start_object_id s;
  st_final_group_id := st_final_group_id s; st_final_object_id := st_final_object_id s;
  st_next_warp_group_id := st_next_warp_group_id s;
  st_next_rush_object_id := st_next_rush_object_id s;
  st_subscribe_prefix := st_subscribe_prefix s; st_notify_urls := st_notify_urls s;
  st_transport_mode := st_transport_mode s; st_send_state := st_send_state s;
  st_receive_state := st_receive_state s; st_close_reason := st_close_reason s;
  st_lowest_flags := st_lowest_flags s; st_is_sender := st_is_sender s;
  st_is_cache_real_time := st_is_cache_real_time s; st_is_peer_finished := st_is_peer_finished s;
  st_is_local_finished := st_is_local_finished s;
  st_is_receive_complete := st_is_receive_complete s;
  st_is_active_datagram := st_is_active_datagram s; st_is_start_object_id_sent := start;
  st_is_final_object_id_sent := final; st_is_cache_policy_sent := policy;
  st_message_sent := st_message_sent s; st_message_receive := st_message_receive s |}.
Definition st_set_message_sent s mb := {| st_stream_id := st_stream_id s;
  st_media_id := st_media_id s; st_next_group_id := st_next_group_id s;
  st_next_object_id := st_next_object_id s; st_next_object_offset := st_next_object_offset s;
  st_start_group_id := st_start_group_id s; st_start_object_id := st_start_object_id s;
  st_final_group_id := st_final_group_id s; st_final_object_id := st_final_object_id s;
  st_next_warp_group_id := st_next_warp_group_id s;
  st_next_rush_object_id := st_next_rush_object_id s;
  st_subscribe_prefix := st_subscribe_prefix s; st_notify_urls := st_notify_urls s;
  st_transport_mode := st_transport_mode s; st_send_state := st_send_state s;
  st_receive_state := st_receive_state s; st_close_reason := st_close_reason s;
  st_lowest_flags := st_lowest_flags s; st_is_sender := st_is_sender s;
  st_is_cache_real_time := st_is_cache_real_time s; st_is_peer_finished := st_is_peer_finished s;
  st_is_local_finished := st_is_local_finished s;
  st_is_receive_complete := st_is_receive_complete s;
  st_is_active_datagram := st_is_active_datagram s;
  st_is_start_object_id_sent := st_is_start_object_id_sent s;
  st_is_final_object_id_sent := st_is_final_object_id_sent s;
  st_is_cache_policy_sent := st_is_cache_policy_sent s; st_message_sent := mb;
  st_message_receive := st_message_receive s |}.
Definition st_set_message_receive s mb := {| st_stream_id := st_stream_id s;
  st_media_id := st_media_id s; st_next_group_id := st_next_group_id s;
  st_next_object_id := st_next_object_id s; st_next_object_offset := st_next_object_offset s;
  st_start_group_id := st_start_group_id s; st_start_object_id := st_start_object_id s;
  st_final_group_id := st_final_group_id s; st_final_object_id := st_final_object_id s;
  st_next_warp_group_id := st_next_warp_group_id s;
  st_next_rush_object_id := st_next_rush_object_id s;
  st_subscribe_prefix := st_subscribe_prefix s; st_notify_urls := st_notify_urls s;
  st_transport_mode := st_transport_mode s; st_send_state := st_send_state s;
  st_receive_state := st_receive_state s; st_close_reason := st_close_reason s;
  st_lowest_flags := st_lowest_flags s; st_is_sender := st_is_sender s;
  st_is_cache_real_time := st_is_cache_real_time s; st_is_peer_finished := st_is_peer_finished s;
  st_is_local_finished := st_is_local_finished s;
  st_is_receive_complete := st_is_receive_complete s;
  st_is_active_datagram := st_is_active_datagram s;
  st_is_start_object_id_sent := st_is_start_object_id_sent s;
  st_is_final_object_id_sent := st_is_final_object_id_sent s;
  st_is_cache_policy_sent := st_is_cache_policy_sent s; st_message_sent := st_message_sent s;
  st_message_receive := mb |}.

(** ** Unidirectional streams *)

(** [us_control] is the identifier of the control stream, if it is chained to
    one. *)
Record quicrq_uni_stream_ctx_t := {
  us_stream_id : Z;
  us_current_group_id : Z;
  us_current_object_id : Z;
  us_current_object_length : Z;
  us_current_object_offset : Z;
  us_current_object_flags : Z;
  us_last_object_id : Z;
  us_nb_objects_previous_group : Z;
  us_stream_priority : Z;
  us_send_state : quicrq_uni_stream_sending_state_enum;
  us_receive_state : quicrq_uni_stream_receive_state_enum;
  us_message_buffer : quicrq_message_buffer_t;
  us_control : option Z;
}.

(** A zeroed context, as [quicrq_create_uni_stream_context] makes it. *)
Definition uni_stream_zero (stream_id : Z) (control : option Z) : quicrq_uni_stream_ctx_t := {|
  us_stream_id := stream_id; us_current_group_id := 0; us_current_object_id := 0;
  us_current_object_length := 0; us_current_object_offset := 0; us_current_object_flags := 0;
  us_last_object_id := 0; us_nb_objects_previous_group := 0; us_stream_priority := 0;
  us_send_state := quicrq_sending_open; us_receive_state := quicrq_receive_open;
  us_message_buffer := msg_buffer_zero; us_control := control |}.

(** Field updates. *)
Definition us_set_group u g := {| us_stream_id := us_stream_id u; us_current_group_id := g;
  us_current_object_id := us_current_object_id u;
  us_current_object_length := us_current_object_length u;
  us_current_object_offset := us_current_object_offset u;
  us_current_object_flags := us_current_object_flags u; us_last_object_id := us_last_object_id u;
  us_nb_objects_previous_group := us_nb_objects_previous_group u;
  us_stream_priority := us_stream_priority u; us_send_state := us_send_state u;
  us_receive_state := us_receive_state u; us_message_buffer := us_message_buffer u;
  us_control := us_control u |}.
Definition us_set_object u o off := {| us_stream_id := us_stream_id u;
  us_current_group_id := us_current_group_id u; us_current_object_id := o;
  us_current_object_length := us_current_object_length u; us_current_object_offset := off;
  us_current_object_flags := us_current_object_flags u; us_last_object_id := us_last_object_id u;
  us_nb_objects_previous_group := us_nb_objects_previous_group u;
  us_stream_priority := us_stream_priority u; us_send_state := us_send_state u;
  us_receive_state := us_receive_state u; us_message_buffer := us_message_buffer u;
  us_control := us_control u |}.
Definition us_set_properties u len nb fl := {| us_stream_id := us_stream_id u;
  us_current_group_id := us_current_group_id u; us_current_object_id := us_current_object_id u;
  us_current_object_length := len; us_current_object_offset := us_current_object_offset u;
  us_current_object_flags := fl; us_last_object_id := us_last_object_id u;
  us_nb_objects_previous_group := nb; us_stream_priority := us_stream_priority u;
  us_send_state := us_send_state u; us_receive_state := us_receive_state u;
  us_message_buffer := us_message_buffer u; us_control := us_control u |}.
Definition us_set_last u o := {| us_stream_id := us_stream_id u;
  us_current_group_id := us_current_group_id u; us_current_object_id := us_current_object_id u;
  us_current_object_length := us_current_object_length u;
  us_current_object_offset := us_current_object_offset u;
  us_current_object_flags := us_current_object_flags u; us_last_object_id := o;
  us_nb_objects_previous_group := us_nb_objects_previous_group u;
  us_stream_priority := us_stream_priority u; us_send_state := us_send_state u;
  us_receive_state := us_receive_state u; us_message_buffer := us_message_buffer u;
  us_control := us_control u |}.
Definition us_set_send u st := {| us_stream_id := us_stream_id u;
  us_current_group_id := us_current_group_id u; us_current_object_id := us_current_object_id u;
  us_current_object_length := us_current_object_length u;
  us_current_object_offset := us_current_object_offset u;
  us_current_object_flags := us_current_object_flags u; us_last_object_id := us_last_object_id u;
  us_nb_objects_previous_group := us_nb_objects_previous_group u;
  us_stream_priority := us_stream_priority u; us_send_state := st;
  us_receive_state := us_receive_state u; us_message_buffer := us_message_buffer u;
  us_control := us_control u |}.
Definition us_set_receive u st := {| us_stream_id := us_stream_id u;
  us_current_group_id := us_current_group_id u; us_current_object_id := us_current_object_id u;
  us_current_object_length := us_current_object_length u;
  us_current_object_offset := us_current_object_offset u;
  us_current_object_flags := us_current_object_flags u; us_last_object_id := us_last_object_id u;
  us_nb_objects_previous_group := us_nb_objects_previous_group u;
  us_stream_priority := us_stream_priority u; us_send_state := us_send_state u;
  us_receive_state := st; us_message_buffer := us_message_buffer u; us_control := us_control u |}.
Definition us_set_message u mb := {| us_stream_id := us_stream_id u;
  us_current_group_id := us_current_group_id u; us_current_object_id := us_current_object_id u;
  us_current_object_length := us_current_object_length u;
  us_current_object_offset := us_current_object_offset u;
  us_current_object_flags := us_current_object_flags u; us_last_object_id := us_last_object_id u;
  us_nb_objects_previous_group := us_nb_objects_previous_group u;
  us_stream_priority := us_stream_priority u; us_send_state := us_send_state u;
  us_receive_state := us_receive_state u; us_message_buffer := mb; us_control := us_control u |}.
Definition us_set_control u k := {| us_stream_id := us_stream_id u;
  us_current_group_id := us_current_group_id u; us_current_object_id := us_current_object_id u;
  us_current_object_length := us_current_object_length u;
  us_current_object_offset := us_current_object_offset u;
  us_current_object_flags := us_current_object_flags u; us_last_object_id := us_last_object_id u;
  us_nb_objects_previous_group := us_nb_objects_previous_group u;
  us_stream_priority := us_stream_priority u; us_send_state := us_send_state u;
  us_receive_state := us_receive_state u; us_message_buffer := us_message_buffer u;
  us_control := k |}.
Definition us_set_priority u p := {| us_stream_id := us_stream_id u;
  us_current_group_id := us_current_group_id u; us_current_object_id := us_current_object_id u;
  us_current_object_length := us_current_object_length u;
  us_current_object_offset := us_current_object_offset u;
  us_current_object_flags := us_current_object_flags u; us_last_object_id := us_last_object_id u;
  us_nb_objects_previous_group := us_nb_objects_previous_group u; us_stream_priority := p;
  us_send_state := us_send_state u; us_receive_state := us_receive_state u;
  us_message_buffer := us_message_buffer u; us_control := us_control u |}.

(** ** Encoding in a message buffer *)

(** The encoders write at the beginning of [message->buffer], of
    [buffer_alloc] bytes, and [message_size] is set to what they wrote; [None]
    if there is no room. *)
Definition mb_encode (mb : quicrq_message_buffer_t) (e : enc) : option quicrq_message_buffer_t :=
  bytes ← e (mb_buffer_alloc mb);
  mb ← mb_write mb 0 bytes;
  Some (mb_set_size mb (mb_nb_bytes_read mb) (blen bytes)).

(** ** lib/proto.c: actions on the control stream *)

Definition set_finished_reason (s : quicrq_stream_ctx_t) : quicrq_stream_ctx_t :=
  if bool_decide (st_close_reason s = quicrq_media_close_reason_unknown)
  then st_set_close_reason s quicrq_media_close_finished else s.

(** The stream, [ret] and the calls; the other arguments are only logged. *)
Definition quicrq_cnx_handle_consumer_finished (s : quicrq_stream_ctx_t) (ret : Z)
  : quicrq_stream_ctx_t * Z * list pico_call :=
  if ret =? quicrq_consumer_finished then
    (set_finished_reason (st_set_send (st_set_receive_complete s true) quicrq_sending_fin), 0,
     [picoquic_mark_active_stream (st_stream_id s) true])
  else (s, ret, []).

(** The stream, the new [next_abandon_datagram_id] of the connection, and the
    calls. *)
Definition quicrq_cnx_abandon_stream (s : quicrq_stream_ctx_t) (next_abandon_datagram_id : Z)
  : quicrq_stream_ctx_t * Z * list pico_call :=
  (st_set_send s quicrq_sending_fin,
   (if bool_decide (st_transport_mode s = quicrq_transport_mode_datagram) &&
       negb (st_is_sender s) && (next_abandon_datagram_id <=? st_media_id s)
    then st_media_id s +64 1 else next_abandon_datagram_id),
   [picoquic_mark_active_stream (st_stream_id s) true]).

Definition quicrq_flags_to_picoquic_stream_priority (flags use_fifo : Z) : Z :=
  u8 (u8 (Z.shiftl (Z.land flags 127) 1) + use_fifo).
