(* ===== verification/MediaStream.v ===== *)
(** * lib/quicrq.c: sending a media on its control stream

    In the single stream mode, the objects are sent in order on the control
    stream, as fragment messages that are encoded directly in the buffers that
    picoquic provides. *)

From S2P Require Import Prelude Picosplay PicoFrames Proto Fragment PublisherContext Congestion.
From S2P Require Import Publisher MsgBuffer StreamContext.

Definition QUICRQ_STREAM_HEADER_MAX : Z := 2 + 1 + 8 + 4 + 2.

(** The length of a message, on two bytes. *)
Definition length_bytes (message_length : Z) : list Z :=
  [u8 (Z.shiftr message_length 8); Z.land message_length 255].

Section media.
Context `{Sp : Splay quicrq_cached_fragment_t quicrq_fragment_cache_node_compare}.
Context {So : Splay okey quicrq_fragment_publisher_object_node_compare}.
Context {PF : PicoFrames} {PS : PicoStream}.
Implicit Types c : quicrq_fragment_cache_t.
Implicit Types s : quicrq_stream_ctx_t.
Implicit Types m : quicrq_fragment_publisher_context_t.
Implicit Types cg : quicrq_cnx_congestion_state_t.

(** The contexts, [ret] and the calls to picoquic. *)
Abbreviation media_result :=
  (quicrq_stream_ctx_t * quicrq_fragment_publisher_context_t * quicrq_cnx_congestion_state_t * Z *
   list pico_call)%type.

(** The encoding of a fragment header after the two bytes of the length. *)
Definition stream_header s (nb_objects_previous_group offset object_length flags length : Z)
  : option (list Z) :=
  quicrq_fragment_msg_encode QUICRQ_ACTION_FRAGMENT (st_next_group_id s) (st_next_object_id s)
    nb_objects_previous_group offset object_length flags length None (QUICRQ_STREAM_HEADER_MAX - 2).

(** What a sequence of encoders writes, whether or not it succeeds: the fields
    up to the first one that does not fit, which writes nothing. *)
Fixpoint written (fields : list enc) (room : Z) : list Z :=
  match fields with
  | [] => []
  | e :: fields' =>
      match e room with
      | Some bs => bs ++ written fields' (room - blen bs)
      | None => []
      end
  end.

(** The bytes that the encoding of the header of a placeholder writes: offset
    and lengths of 0, flags 0xFF. *)
Definition placeholder_header s (nb_objects_previous_group : Z) : list Z :=
  written
    [picoquic_frames_varint_encode QUICRQ_ACTION_FRAGMENT;
     picoquic_frames_varint_encode (st_next_group_id s);
     picoquic_frames_varint_encode (st_next_object_id s);
     picoquic_frames_varint_encode 0; picoquic_frames_varint_encode 0;
     picoquic_frames_uint8_encode 255;
     if st_next_object_id s =? 0 then picoquic_frames_varint_encode nb_objects_previous_group
     else enc_ret;
     picoquic_frames_varint_encode 0] (QUICRQ_STREAM_HEADER_MAX - 2).

(** A placeholder for a skipped object: the header is written over [mock], the
    header of the prediction, whose length is kept.  The code does not test
    that the encoding succeeded. *)
Definition send_placeholder c s m cg (mock : list Z) (nb_objects_previous_group : Z)
    (is_media_finished : bool) : option media_result :=
  let h_size := 2 + blen mock in
  let header := placeholder_header s nb_objects_previous_group in
  let m := pc_set_skipped m true in
  if negb (picoquic_provide_stream_data_buffer h_size false true) then Some (s, m, cg, -1, [])
  else
    let bytes := ztake (blen mock) (header ++ zdrop (blen header) mock) in
    let s := st_set_next s (st_next_group_id s) (st_next_object_id s +64 1) 0 in
    let s := if is_media_finished
             then st_set_send (st_set_final s (st_next_group_id s) (st_next_object_id s))
                    quicrq_sending_ready
             else s in
    Some (s, m, cg, 0, [stream_data (length_bytes (h_size - 2) ++ bytes) false true]).

(** The message that ends the media. *)
Definition send_fin s m cg (space : Z) : media_result :=
  let s := st_set_final s (st_next_group_id s) (st_next_object_id s) in
  match quicrq_fin_msg_encode QUICRQ_ACTION_FIN_DATAGRAM (st_final_group_id s)
          (st_final_object_id s) (QUICRQ_STREAM_HEADER_MAX - 2) with
  | None => (s, m, cg, -1, [])
  | Some header =>
      let h_size := 2 + blen header in
      if space <? h_size then (s, m, cg, -1, [])
      else
        let provided := picoquic_provide_stream_data_buffer h_size true false in
        let s := st_set_finished s (st_is_peer_finished s) true in
        if negb provided then (s, m, cg, -1, [])
        else
          let s := st_set_sent s (st_is_start_object_id_sent s) true (st_is_cache_policy_sent s) in
          let s := if bool_decide (st_close_reason s = quicrq_media_close_reason_unknown)
                   then st_set_close_reason s quicrq_media_close_finished else s in
          (s, m, cg, 0, [stream_data (length_bytes (h_size - 2) ++ header) true false])
  end.

(** The header and the length of the data, once what is available is known;
    the inner [None] is [ret = -1]. *)
Definition final_header s (nb_objects_previous_group object_length flags available h_size space : Z)
  : option (option (list Z * Z)) :=
  let encode := stream_header s nb_objects_previous_group (st_next_object_offset s) object_length
                  flags in
  match encode available with
  | None => Some None
  | Some header =>
      if 2 + blen header =? h_size then Some (Some (header, available))
      else
        let h_size := 2 + blen header in
        if space <? h_size +64 available then
          (* The encoding changed, the computation of available space was wrong. *)
          let available := space -64 h_size in
          header ← encode available;
          Some (Some (header, available))
        else Some (Some (header, available))
  end.

Definition send_fragment (qr_mode : quicrq_congestion_control_enum) c s m cg
    (nb_objects_previous_group object_length flags available h_size space now : Z)
  : option media_result :=
  header ← final_header s nb_objects_previous_group object_length flags available h_size space;
  match header with
  | None => Some (s, m, cg, -1, [])
  | Some (header, available) =>
      let h_size := 2 + blen header in
      if negb (picoquic_provide_stream_data_buffer (h_size +64 available) false true)
      then Some (s, m, cg, -1, [])
      else
        '(m, cg, out) ← publisher_get_data qr_mode c m cg (st_next_object_id s) true available
                          flags now;
        if negb (available =? so_data_length out) then Some (s, m, cg, -1, [])
        else
          let offset := st_next_object_offset s +64 available in
          let s :=
            if so_object_length out <=? offset
            then st_set_next s (st_next_group_id s) (st_next_object_id s +64 1) 0
            else st_set_next s (st_next_group_id s) (st_next_object_id s) offset in
          let s := if so_is_media_finished out
                   then st_set_send (st_set_final s (st_next_group_id s) (st_next_object_id s))
                          quicrq_sending_ready
                   else s in
          Some (s, m, cg, 0,
                [stream_data (length_bytes (h_size - 2 +64 available) ++ header ++ so_data out)
                   false true])
  end.

Definition quicrq_prepare_to_send_media_to_stream (qr_mode : quicrq_congestion_control_enum) c s m cg
    (space now : Z) : option media_result :=
  (* a mock header, for the available space *)
  match stream_header s 0 (st_next_object_offset s) (st_next_object_offset s) 0 space with
  | None => Some (s, m, cg, -1, [])
  | Some mock =>
      let h_size := 2 + blen mock in
      if space <? h_size then Some (s, m, cg, -1, [])
      else
        '(m, cg, out) ← publisher_get_data qr_mode c m cg (st_next_object_id s) false
                          (space - h_size) 0 now;
        let '(s, nb) :=
          if so_is_new_group out
          then (st_set_next s (st_next_group_id s +64 1) 0 0, st_next_object_id s)
          else (s, 0) in
        let available := so_data_length out in
        if so_should_skip out then send_placeholder c s m cg mock nb (so_is_media_finished out)
        else if (available =? 0) && negb (so_flags out =? 255) then
          if so_is_media_finished out then Some (send_fin s m cg space)
          else Some (s, m, cg, 0, [picoquic_mark_active_stream (st_stream_id s) false])
        else
          send_fragment qr_mode c s m cg nb (so_object_length out) (so_flags out) available h_size
            space now
  end.

(** When the header of the placeholder fits, it is the one that the encoder
    gives. *)
Lemma placeholder_header_fits s nb header :
  stream_header s nb 0 0 255 0 = Some header -> placeholder_header s nb = header.
Proof.
  unfold stream_header, quicrq_fragment_msg_encode, placeholder_header, enc_seq. rewrite andb_true_r.
  generalize (QUICRQ_STREAM_HEADER_MAX - 2). intros room H.
  repeat match goal with
  | H : match ?e with Some _ => _ | None => None end = Some _ |- _ => destruct e eqn:?; [| done]
  end.
  cbn [written]. repeat case_match; simplify_eq; rewrite ?app_nil_r; try done.
Qed.

End media.
