(* ===== verification/Warp.v ===== *)
(** * lib/quicrq.c, lib/proto.c: unidirectional streams

    In the warp mode each group is sent on a unidirectional stream: a warp
    header, then each object as a header and its data.  In the rush mode each
    object has its stream.  The streams are created when the source wakes its
    control streams up.

    [None] stands for undefined behaviour: a null pointer is followed. *)

From S2P Require Import Prelude Picosplay PicoFrames Proto Fragment PublisherContext Congestion.
From S2P Require Import Publisher MsgBuffer StreamContext.

(** A control stream of the connection, and the state of the consumer that is
    set for it, if any. *)
Record control_stream {CS : Type} := {
  ct_stream : quicrq_stream_ctx_t;
  ct_consumer : option CS;
}.
Arguments control_stream CS : clear implicits.

Definition sizeof_uni_stream : Z := 168.

(** The identifier that picoquic gives to the next stream, from the streams
    marked active so far. *)
Class PicoStreamIds := picoquic_get_next_local_stream_id : list Z -> Z.

Section warp.
Context `{Sp : Splay quicrq_cached_fragment_t quicrq_fragment_cache_node_compare}.
Context {So : Splay okey quicrq_fragment_publisher_object_node_compare}.
Context {Al : Allocator} {PF : PicoFrames} {PS : PicoStream} {PI : PicoStreamIds}.
Implicit Types c : quicrq_fragment_cache_t.
Implicit Types s : quicrq_stream_ctx_t.
Implicit Types m : quicrq_fragment_publisher_context_t.
Implicit Types cg : quicrq_cnx_congestion_state_t.
Implicit Types u : quicrq_uni_stream_ctx_t.

(** ** Creation and deletion *)

(** The calls that unlink the stream, if the connection still has its picoquic
    connection ([connected]): the close event resets the pointer first. *)
Definition quicrq_delete_uni_stream_ctx (connected : bool) (control : option quicrq_stream_ctx_t) u
  : list pico_call :=
  if negb connected then []
  else if match control with Some s => st_is_sender s | None => false end then
    picoquic_mark_active_stream (us_stream_id u) false ::
    (if bool_decide (us_send_state u = quicrq_sending_warp_should_close) then []
     else [picoquic_reset_stream (us_stream_id u)])
  else [picoquic_unlink_app_stream_ctx (us_stream_id u)].

(** [us] are the unidirectional streams of the connection, in order. *)
Definition quicrq_create_uni_stream_context (us : list quicrq_uni_stream_ctx_t)
    (control : option Z) (stream_id : Z) : option (list quicrq_uni_stream_ctx_t) :=
  if malloc_ok sizeof_uni_stream then Some (us ++ [uni_stream_zero stream_id control]) else None.

Definition has_id (stream_id : Z) u : bool := us_stream_id u =? stream_id.

Definition quicrq_find_or_create_uni_stream (stream_id : Z) (us : list quicrq_uni_stream_ctx_t)
    (control : option Z) (should_create : bool) : option (list quicrq_uni_stream_ctx_t) :=
  if existsb (has_id stream_id) us then Some us
  else if should_create then quicrq_create_uni_stream_context us control stream_id
  else None.

Definition update_uni (stream_id : Z) (f : quicrq_uni_stream_ctx_t -> quicrq_uni_stream_ctx_t)
    (us : list quicrq_uni_stream_ctx_t) : list quicrq_uni_stream_ctx_t :=
  map (fun u => if has_id stream_id u then f u else u) us.

(** ** Sending *)

Definition quicrq_prepare_warp_header s u : option (quicrq_uni_stream_ctx_t * Z) :=
  let '(message, ret) :=
    quicrq_msg_buffer_alloc (us_message_buffer u)
      (quicrq_warp_header_msg_reserve (st_media_id s) (us_current_group_id u)) 0 in
  if negb (ret =? 0) then Some (us_set_message u message, -1)
  else
    (* message_size is computed even if the encoding fails *)
    message ← mb_encode message
                (quicrq_warp_header_msg_encode QUICRQ_ACTION_WARP_HEADER (st_media_id s)
                   (us_current_group_id u));
    Some (us_set_send (us_set_message u message) quicrq_sending_warp_header_sent, 0).

(** The end of the group, once it is known. *)
Definition learn_last_object c s u : quicrq_uni_stream_ctx_t :=
  if us_last_object_id u =? 0 then
    if ((0 <? st_final_group_id s) || (0 <? st_final_object_id s)) &&
       (st_final_group_id s =? us_current_group_id u)
    then us_set_last u (st_final_object_id s)
    else us_set_last u (quicrq_fragment_get_object_count c (us_current_group_id u))
  else u.

(** The state of the stream, of its control stream and of the publisher after
    a step of the sender, [ret], and the calls to picoquic. *)
Abbreviation warp_result :=
  (quicrq_uni_stream_ctx_t * quicrq_stream_ctx_t * quicrq_fragment_publisher_context_t *
   quicrq_cnx_congestion_state_t * Z * list pico_call)%type.

Definition encode_object_header u : quicrq_uni_stream_ctx_t * Z :=
  (* the number of objects of the previous group is not counted *)
  let '(message, ret) :=
    quicrq_msg_buffer_alloc (us_message_buffer u)
      (quicrq_object_header_msg_reserve (us_current_object_id u) 0 (us_current_object_length u)) 0 in
  let u := us_set_message u message in
  if negb (ret =? 0) then (u, -1)
  else
    let '(u, ret) :=
      match mb_encode message
              (quicrq_object_header_msg_encode QUICRQ_ACTION_OBJECT_HEADER (us_current_object_id u)
                 (us_nb_objects_previous_group u) (us_current_object_flags u)
                 (us_current_object_length u)) with
      | None => (u, -1)
      | Some message => (us_set_message u message, 0)
      end in
    (if us_current_object_length u =? 0
     then us_set_send (us_set_object u (us_current_object_id u +64 1) (us_current_object_offset u))
            quicrq_sending_warp_header_sent
     else us_set_send u quicrq_sending_object_data, ret).

Definition quicrq_prepare_warp_object_header (qr_mode : quicrq_congestion_control_enum) c s m cg u
    (current_time : Z) : option warp_result :=
  let u := learn_last_object c s u in
  if (0 <? us_last_object_id u) && (us_last_object_id u <=? us_current_object_id u)
  then Some (us_set_send u quicrq_sending_warp_all_sent, s, m, cg, 0, [])
  else
    match quicrq_fragment_get_object_properties c (us_current_group_id u) (us_current_object_id u) with
    | Some (object_length, nb_objects_previous_group, object_flags) =>
        let u := us_set_properties u object_length nb_objects_previous_group object_flags in
        (* the flags of the object are not given to the congestion control *)
        let flags := 0 in
        '(m, cg, should_skip) ← quicrq_evaluate_warp_congestion qr_mode c m cg
                                  (us_current_group_id u) (us_current_object_id u)
                                  (us_current_object_length u) flags current_time;
        let u := if should_skip : bool
                 then us_set_properties u 0 (us_nb_objects_previous_group u) 255 else u in
        let '(u, ret) := encode_object_header u in
        Some (u, s, m, cg, ret, [])
    | None =>
        let '(g, o, active) := quicrq_fragment_notify_final_to_control c (st_final_group_id s)
                                 (st_final_object_id s) in
        Some (u, st_set_final s g o, m, cg, 0,
              if active : bool then [picoquic_mark_active_stream (st_stream_id s) true] else [])
    end.

(** The data of the current object. *)
Definition send_object_data c u (space : Z) : option (quicrq_uni_stream_ctx_t * Z * list pico_call) :=
  let copy available :=
    quicrq_fragment_object_copy_available_data c (us_current_group_id u) (us_current_object_id u)
      (us_current_object_offset u) available in
  available ← copy space;
  let fragment_length := blen available in
  if 0 <? fragment_length then
    if negb (picoquic_provide_stream_data_buffer fragment_length false true) then Some (u, -1, [])
    else
      data ← copy fragment_length;
      if negb (blen data =? fragment_length) then Some (u, -1, [stream_data data false true])
      else
        let offset := us_current_object_offset u +64 fragment_length in
        let calls := [stream_data data false true] in
        if offset =? us_current_object_length u then
          Some (us_set_send (us_set_object u (us_current_object_id u +64 1) 0)
                  quicrq_sending_warp_header_sent, 0, calls)
        else
          Some (us_set_object u (us_current_object_id u) offset,
                (if us_current_object_length u <? offset then -1 else 0), calls)
  else Some (u, 0, [picoquic_mark_active_stream (us_stream_id u) false]).

(** The message being sent, or the end of the stream; the last component tells
    that the stream was deleted.  The result of the calls that mark a stream
    active, always 0 for a stream that exists, replaces [ret]. *)
Definition send_message_or_fin s u (space : Z)
  : option (quicrq_uni_stream_ctx_t * Z * list pico_call * bool) :=
  if 0 <? mb_message_size (us_message_buffer u) then
    let more_to_send := negb (bool_decide (us_send_state u = quicrq_sending_warp_should_close)) in
    '(message, ret, out) ← quicrq_msg_buffer_prepare_to_send_message (us_message_buffer u) space
                             more_to_send;
    Some (us_set_message u message, ret,
          match out with Some (bytes, active) => [stream_data bytes false active] | None => [] end,
          false)
  else if bool_decide (us_send_state u = quicrq_sending_warp_all_sent) then
    let u := us_set_send u quicrq_sending_warp_should_close in
    Some (u, 0, stream_data [] true false :: quicrq_delete_uni_stream_ctx true (Some s) u, true)
  else Some (u, 0, [picoquic_mark_active_stream (us_stream_id u) false], false).

Definition quicrq_prepare_to_send_on_unistream (qr_mode : quicrq_congestion_control_enum) c s m cg u
    (space current_time : Z) : option (warp_result * bool) :=
  if bool_decide (us_send_state u = quicrq_sending_object_data) then
    '(u, ret, calls) ← send_object_data c u space;
    Some ((u, s, m, cg, ret, calls), false)
  else
    '(u, s, m, cg, _, calls) ←
      (if mb_message_size (us_message_buffer u) =? 0 then
         if bool_decide (us_send_state u = quicrq_sending_open) then
           '(u, ret) ← quicrq_prepare_warp_header s u;
           Some (u, s, m, cg, ret, [])
         else if bool_decide (us_send_state u = quicrq_sending_warp_header_sent) then
           quicrq_prepare_warp_object_header qr_mode c s m cg u current_time
         else Some (u, s, m, cg, 0, [])
       else Some (u, s, m, cg, 0, []));
    (* the result of the preparation is overwritten *)
    '(u, ret, calls', deleted) ← send_message_or_fin s u space;
    Some ((u, s, m, cg, ret, calls ++ calls'), deleted).

(** ** Wake up *)

(** [quicrq_set_control_stream_priority] and the priorities are calls to
    picoquic with values kept in the contexts. *)
Definition quicrq_set_control_stream_priority c s : quicrq_stream_ctx_t * list pico_call :=
  if (0 <? fc_lowest_flags c) &&
     ((st_lowest_flags s =? 0) || (fc_lowest_flags c <? st_lowest_flags s))
  then (st_set_lowest_flags s (fc_lowest_flags c),
        [picoquic_set_stream_priority (st_stream_id s)
           (quicrq_flags_to_picoquic_stream_priority (fc_lowest_flags c) 0)])
  else (s, []).

Definition quicrq_set_rush_stream_priority c u : quicrq_uni_stream_ctx_t * list pico_call :=
  if us_stream_priority u =? 0 then
    let flags := quicrq_fragment_get_flags c (us_current_group_id u) (us_current_object_id u) in
    if negb (flags =? 0) then
      let priority := quicrq_flags_to_picoquic_stream_priority flags 1 in
      (us_set_priority u priority, [picoquic_set_stream_priority (us_stream_id u) priority])
    else (u, [])
  else (u, []).

(** A stream of the control stream, that is not closing. *)
Definition of_control s u : bool :=
  bool_decide (us_control u = Some (st_stream_id s)) &&
  negb (bool_decide (us_send_state u = quicrq_sending_warp_should_close)).

(** The groups from [next_warp_group_id] to the highest one: [n] of them. *)
Fixpoint create_group_streams (n : nat) s (us : list quicrq_uni_stream_ctx_t)
    (active : list Z) (group_id : Z) (calls : list pico_call) (created : bool)
  : quicrq_stream_ctx_t * list quicrq_uni_stream_ctx_t * list pico_call * bool :=
  match n with
  | O => (s, us, calls, created)
  | S n' =>
      let stream_id := picoquic_get_next_local_stream_id active in
      match quicrq_find_or_create_uni_stream stream_id us (Some (st_stream_id s)) true with
      | Some us =>
          create_group_streams n' (st_set_next_warp s (group_id +64 1) (st_next_rush_object_id s))
            (update_uni stream_id (fun u => us_set_group u group_id) us) (active ++ [stream_id])
            (group_id +64 1) (calls ++ [picoquic_mark_active_stream stream_id true]) true
      | None => (s, us, calls, created)
      end
  end.

(** The priority of a stream of the control stream, the latest group first. *)
Definition set_group_priority c s m u : quicrq_uni_stream_ctx_t * list pico_call :=
  if of_control s u then
    let priority := quicrq_flags_to_picoquic_stream_priority (st_lowest_flags s) 0 in
    if us_current_group_id u =? fc_highest_group_id c then
      (us_set_priority u priority, [picoquic_set_stream_priority (us_stream_id u) priority])
    else
      let lower :=
        if bool_decide (pc_congestion_control_mode m = quicrq_congestion_control_group_p) &&
           negb (st_lowest_flags s =? 128) && (priority <? 254)
        then priority + 2 else priority in
      if negb (us_stream_priority u =? lower)
      then (us_set_priority u lower, [picoquic_set_stream_priority (us_stream_id u) lower])
      else (u, [])
  else (u, []).

(** [active] lists the streams marked active so far. *)
Definition quicrq_wakeup_media_uni_stream c s m (us : list quicrq_uni_stream_ctx_t)
    (active : list Z) : quicrq_stream_ctx_t * list quicrq_uni_stream_ctx_t * list pico_call :=
  let woken := map (fun u => picoquic_mark_active_stream (us_stream_id u) true)
                 (List.filter (of_control s) us) in
  let n := Z.to_nat (fc_highest_group_id c + 1 - st_next_warp_group_id s) in
  let '(s, us, calls, created) :=
    create_group_streams n s us active (st_next_warp_group_id s) [] false in
  let '(s, priority) :=
    if created && (st_lowest_flags s =? 0) then quicrq_set_control_stream_priority c s else (s, []) in
  let r := if created && negb (st_lowest_flags s =? 0) then map (set_group_priority c s m) us
           else map (fun u => (u, [])) us in
  (s, map fst r, woken ++ calls ++ priority ++ concat (map snd r)).

(** The objects of a group from [object_id] on: [n] of them; the last component
    tells to stop. *)
Fixpoint create_object_streams (n : nat) c s (us : list quicrq_uni_stream_ctx_t)
    (active : list Z) (group_id object_id : Z) (calls : list pico_call)
  : quicrq_stream_ctx_t * list quicrq_uni_stream_ctx_t * list Z * list pico_call * bool :=
  match n with
  | O => (s, us, active, calls, false)
  | S n' =>
      let stream_id := picoquic_get_next_local_stream_id active in
      match quicrq_find_or_create_uni_stream stream_id us (Some (st_stream_id s)) true with
      | Some us =>
          let s := st_set_next_warp s (st_next_warp_group_id s) (object_id +64 1) in
          let us :=
            update_uni stream_id
              (fun u => us_set_last (us_set_object (us_set_group u group_id) object_id
                                       (us_current_object_offset u)) (object_id +64 1)) us in
          let '(s, priority) :=
            if st_lowest_flags s =? 0 then quicrq_set_control_stream_priority c s else (s, []) in
          let set u := if negb (st_lowest_flags s =? 0) && has_id stream_id u
                       then quicrq_set_rush_stream_priority c u else (u, []) in
          create_object_streams n' c s (map (fun u => (set u).1) us) (active ++ [stream_id]) group_id
            (object_id +64 1)
            (calls ++ priority ++ concat (map (fun u => (set u).2) us) ++
             [picoquic_mark_active_stream stream_id true])
      | None => (s, us, active, calls, true)
      end
  end.

(** The groups from [group_id] to the highest one: [n] of them. *)
Fixpoint create_rush_streams (n : nat) c s (us : list quicrq_uni_stream_ctx_t)
    (active : list Z) (old_highest_group_id group_id : Z) (calls : list pico_call)
  : quicrq_stream_ctx_t * list quicrq_uni_stream_ctx_t * list pico_call :=
  match n with
  | O => (s, us, calls)
  | S n' =>
      let next_object := if old_highest_group_id <? group_id then 0 else st_next_rush_object_id s in
      let s := if st_next_warp_group_id s <? group_id
               then st_set_next_warp s group_id (st_next_rush_object_id s) else s in
      let '(last_object, stop) :=
        if group_id <? fc_highest_group_id c then
          let count := quicrq_fragment_get_object_count c group_id in (count, count =? 0)
        else (fc_highest_object_id c +64 1, false) in
      let '(s, us, active, calls, stop') :=
        create_object_streams (Z.to_nat (last_object - next_object)) c s us active group_id
          next_object calls in
      if stop || stop' then (s, us, calls)
      else create_rush_streams n' c s us active old_highest_group_id (group_id +64 1) calls
  end.

Definition quicrq_wakeup_media_rush_stream c s (us : list quicrq_uni_stream_ctx_t)
    (active : list Z) : quicrq_stream_ctx_t * list quicrq_uni_stream_ctx_t * list pico_call :=
  let wake u :=
    if of_control s u then
      let '(u, calls) := quicrq_set_rush_stream_priority c u in
      (u, calls ++ [picoquic_mark_active_stream (us_stream_id u) true])
    else (u, []) in
  let r := map wake us in
  create_rush_streams (Z.to_nat (fc_highest_group_id c + 1 - st_next_warp_group_id s)) c s
    (map fst r) active (st_next_warp_group_id s) (st_next_warp_group_id s) (concat (map snd r)).

(** ** Receiving *)

Section receive.
Context {CS : Type} `{Co : Consumer CS}.

(** The control streams of the connection, the stream, the calls so far, and
    whether the stream was deleted. *)
Record warp_world := {
  ww_controls : list (control_stream CS);
  ww_uni : quicrq_uni_stream_ctx_t;
  ww_calls : list pico_call;
  ww_deleted : bool;
}.
Definition ww_set_uni (w : warp_world) u : warp_world := {|
  ww_controls := ww_controls w; ww_uni := u; ww_calls := ww_calls w; ww_deleted := ww_deleted w |}.

Definition quicrq_get_control_stream_for_media_id (controls : list (control_stream CS))
    (media_id : Z) : option (control_stream CS) :=
  List.find (fun k => st_media_id (ct_stream k) =? media_id) controls.

Definition control_of u (controls : list (control_stream CS)) : option (control_stream CS) :=
  id ← us_control u; List.find (fun k => st_stream_id (ct_stream k) =? id) controls.

Definition update_control (k : control_stream CS) (controls : list (control_stream CS))
  : list (control_stream CS) :=
  map (fun x => if st_stream_id (ct_stream x) =? st_stream_id (ct_stream k) then k else x) controls.

(** [consumer_fn], and what its result does to the control stream; [NULL] if
    no consumer was set. *)
Definition call_consumer (w : warp_world) (call : consumer_call) : option (warp_world * Z) :=
  k ← control_of (ww_uni w) (ww_controls w);
  cs ← ct_consumer k;
  let '(cs, ret) := consumer_fn cs call in
  Some ({| ww_controls := update_control {| ct_stream := ct_stream k; ct_consumer := Some cs |}
                            (ww_controls w);
           ww_uni := ww_uni w; ww_calls := ww_calls w; ww_deleted := ww_deleted w |}, ret).

Definition handle_finished (w : warp_world) (ret : Z) : option (warp_world * Z) :=
  k ← control_of (ww_uni w) (ww_controls w);
  let '(s, ret, calls) := quicrq_cnx_handle_consumer_finished (ct_stream k) ret in
  Some ({| ww_controls := update_control {| ct_stream := s; ct_consumer := ct_consumer k |}
                            (ww_controls w);
           ww_uni := ww_uni w; ww_calls := ww_calls w ++ calls; ww_deleted := ww_deleted w |}, ret).

(** The object data at the beginning of [bytes]: the state, [ret] and the
    number of bytes taken. *)
Definition receive_object_data (w : warp_world) (bytes : list Z) : option (warp_world * Z * Z) :=
  let u := ww_uni w in
  let copied :=
    if us_current_object_length u <? us_current_object_offset u +64 blen bytes
    then us_current_object_length u -64 us_current_object_offset u else blen bytes in
  '(w, ret) ← call_consumer w
    (quicrq_media_datagram_ready (ztake copied bytes) (us_current_group_id u) (us_current_object_id u)
       (us_current_object_offset u) 0 (us_current_object_flags u) (us_nb_objects_previous_group u)
       (us_current_object_length u) copied);
  let offset := us_current_object_offset u +64 copied in
  let u := if us_current_object_length u <=? offset
           then us_set_receive (us_set_object u (us_current_object_id u +64 1) 0)
                  quicrq_receive_object_header
           else us_set_object u (us_current_object_id u) offset in
  '(w, ret) ← handle_finished (ww_set_uni w u) ret;
  Some (w, ret, copied).

Definition receive_warp_header (w : warp_world) (incoming : quicrq_message_t)
  : option (warp_world * Z) :=
  let u := ww_uni w in
  if negb (bool_decide (us_receive_state u = quicrq_receive_open)) then Some (w, -1)
  else
    let u := us_set_receive (us_set_group u (group_id incoming)) quicrq_receive_warp_header in
    match quicrq_get_control_stream_for_media_id (ww_controls w) (media_id incoming) with
    | None => Some (ww_set_uni w u, -1)
    | Some k =>
        let u := match us_control u with
                 | None => us_set_control u (Some (st_stream_id (ct_stream k)))
                 | Some _ => u
                 end in
        Some (ww_set_uni w u, 0)
    end.

Definition receive_object_header (w : warp_world) (incoming : quicrq_message_t)
  : option (warp_world * Z) :=
  let u := ww_uni w in
  if negb (bool_decide (us_receive_state u = quicrq_receive_warp_header)) &&
     negb (bool_decide (us_receive_state u = quicrq_receive_object_header))
  then Some (w, -1)
  else
    match us_control u with
    | None => Some (w, -1)
    | Some _ =>
        k ← control_of u (ww_controls w);
        let mode := st_transport_mode (ct_stream k) in
        if (bool_decide (mode = quicrq_transport_mode_rush) && negb (us_current_object_id u =? 0)) ||
           (bool_decide (mode = quicrq_transport_mode_warp) &&
            negb (us_current_object_id u =? object_id incoming))
        then Some (w, -1)
        else if 0 <? object_length incoming then
          let u := us_set_receive (us_set_object u (object_id incoming) 0) quicrq_receive_object_data in
          Some (ww_set_uni w (us_set_properties u (object_length incoming)
                                (nb_objects_previous_group incoming) (flags incoming)), 0)
        else
          let w := ww_set_uni w (us_set_receive u quicrq_receive_object_header) in
          '(w, ret) ← call_consumer w
            (quicrq_media_datagram_ready (default [] (data incoming)) (us_current_group_id u)
               (object_id incoming) 0 0 (flags incoming) (nb_objects_previous_group incoming) 0 0);
          let u := ww_uni w in
          handle_finished
            (ww_set_uni w (us_set_object u (us_current_object_id u +64 1) (us_current_object_offset u)))
            ret
    end.

Definition receive_uni_message (w : warp_world) : option (warp_world * Z) :=
  let message := us_message_buffer (ww_uni w) in
  '(w, ret) ←
    match quicrq_msg_decode (ztake (mb_message_size message) (mb_buffer message)) with
    | None => Some (w, -1)
    | Some (incoming, _) =>
        if message_type incoming =? QUICRQ_ACTION_WARP_HEADER then receive_warp_header w incoming
        else if message_type incoming =? QUICRQ_ACTION_OBJECT_HEADER
        then receive_object_header w incoming
        else Some (w, -1)
    end;
  let u := ww_uni w in
  Some (ww_set_uni w (us_set_message u (quicrq_msg_buffer_reset (us_message_buffer u))), ret).

(** After the data of an object, [length] is decreased but [bytes] is not
    moved: the same bytes are read again. *)
Fixpoint receive_uni_loop (fuel : nat) (w : warp_world) (bytes : list Z)
  : option (warp_world * Z) :=
  match fuel with
  | O => None
  | S fuel' =>
      match bytes with
      | [] => Some (w, 0)
      | _ =>
          if bool_decide (us_receive_state (ww_uni w) = quicrq_receive_object_data) then
            '(w, ret, copied) ← receive_object_data w bytes;
            if ret =? 0 then receive_uni_loop fuel' w (ztake (blen bytes - copied) bytes)
            else Some (w, ret)
          else
            let u := ww_uni w in
            '(message, next_bytes, is_finished) ← quicrq_msg_buffer_store bytes (us_message_buffer u);
            let w := ww_set_uni w (us_set_message u message) in
            match next_bytes with
            | None => Some (w, -1)
            | Some bytes =>
                if is_finished : bool then
                  '(w, ret) ← receive_uni_message w;
                  if ret =? 0 then receive_uni_loop fuel' w bytes else Some (w, ret)
                else receive_uni_loop fuel' w bytes
            end
      end
  end.

(** Each turn takes a byte at least. *)
Definition quicrq_receive_warp_or_rush_stream_data (w : warp_world) (bytes : list Z) (is_fin : bool)
  : option (warp_world * Z) :=
  '(w, ret) ← receive_uni_loop (S (length bytes)) w bytes;
  if is_fin then
    k ← control_of (ww_uni w) (ww_controls w);   (* control_stream_ctx is not tested *)
    Some ({| ww_controls := ww_controls w; ww_uni := ww_uni w;
             ww_calls := ww_calls w ++
                           quicrq_delete_uni_stream_ctx true (Some (ct_stream k)) (ww_uni w);
             ww_deleted := true |}, ret)
  else Some (w, ret).

End receive.
End warp.
