(* ===== verification/ControlStream.v ===== *)
(** * lib/quicrq.c, lib/proto.c: the control stream

    A media is requested or posted, accepted, and ended by messages on its
    control stream.  This file has the sources that streams subscribe to, the
    wake up of a stream, and the two state machines of the stream: what it
    sends ([quicrq_prepare_to_send_on_stream]) and what it does with what it
    receives ([quicrq_receive_stream_data]).

    [None] stands for undefined behaviour: a null or dangling pointer is
    followed, or [media_ctx] is read as a publisher when it is a consumer. *)

From S2P Require Import Prelude Picosplay PicoFrames Proto Fragment PublisherContext Congestion.
From S2P Require Import Publisher MsgBuffer StreamContext MediaStream Warp.

Definition sizeof_media_source : Z := 64.
Definition sizeof_publisher_context : Z := 152.
Definition sizeof_notify_url : Z := 24.

Section control.
Context `{Sp : Splay quicrq_cached_fragment_t quicrq_fragment_cache_node_compare}.
Context {So : Splay okey quicrq_fragment_publisher_object_node_compare}.
Context {Al : Allocator} {PF : PicoFrames} {PS : PicoStream} {PI : PicoStreamIds}.
Context {CS : Type} `{Co : Consumer CS}.

(** ** State *)

(** A source: [ms_id] stands for its address, [ms_streams] for the chain of
    the streams that subscribe to it, by connection and stream identifier. *)
Record quicrq_media_source_ctx_t := {
  ms_id : Z;
  ms_media_url : list Z;
  ms_cache : quicrq_fragment_cache_t;
  ms_is_local_object_source : bool;
  ms_is_cache_real_time : bool;
  ms_streams : list (Z * Z);
}.
Definition ms_set_streams (src : quicrq_media_source_ctx_t) l : quicrq_media_source_ctx_t := {|
  ms_id := ms_id src; ms_media_url := ms_media_url src; ms_cache := ms_cache src;
  ms_is_local_object_source := ms_is_local_object_source src;
  ms_is_cache_real_time := ms_is_cache_real_time src; ms_streams := l |}.

(** The fields of [quicrq_ctx_t] other than the connections, the relay and the
    queue of datagrams.  [qr_next_source] is the address of the next source. *)
Record quicrq_ctx_t := {
  qr_sources : list quicrq_media_source_ctx_t;
  qr_next_source : Z;
  qr_cache_duration_max : Z;
  qr_cache_check_next_time : Z;
  qr_is_cache_closing_needed : bool;
  qr_useless_fragments : Z;
  qr_congestion_control_mode : quicrq_congestion_control_enum;
}.
Definition qr_set_sources (qr : quicrq_ctx_t) l next : quicrq_ctx_t := {|
  qr_sources := l; qr_next_source := next;
  qr_cache_duration_max := qr_cache_duration_max qr; qr_cache_check_next_time := qr_cache_check_next_time qr;
  qr_is_cache_closing_needed := qr_is_cache_closing_needed qr;
  qr_useless_fragments := qr_useless_fragments qr;
  qr_congestion_control_mode := qr_congestion_control_mode qr |}.
Definition qr_set_closing (qr : quicrq_ctx_t) b : quicrq_ctx_t := {|
  qr_sources := qr_sources qr; qr_next_source := qr_next_source qr;
  qr_cache_duration_max := qr_cache_duration_max qr; qr_cache_check_next_time := qr_cache_check_next_time qr;
  qr_is_cache_closing_needed := b; qr_useless_fragments := qr_useless_fragments qr;
  qr_congestion_control_mode := qr_congestion_control_mode qr |}.
Definition qr_count_useless (qr : quicrq_ctx_t) : quicrq_ctx_t := {|
  qr_sources := qr_sources qr; qr_next_source := qr_next_source qr;
  qr_cache_duration_max := qr_cache_duration_max qr; qr_cache_check_next_time := qr_cache_check_next_time qr;
  qr_is_cache_closing_needed := qr_is_cache_closing_needed qr;
  qr_useless_fragments := qr_useless_fragments qr +64 1;
  qr_congestion_control_mode := qr_congestion_control_mode qr |}.

(** The connection, without its control streams; [cx_id] stands for its address, [cx_calls] are the calls made
    to picoquic, in order. *)
Record quicrq_cnx_ctx_t := {
  cx_id : Z;
  cx_is_server : bool;
  cx_congestion : quicrq_cnx_congestion_state_t;
  cx_next_media_id : Z;
  cx_next_abandon_datagram_id : Z;
  cx_uni_streams : list quicrq_uni_stream_ctx_t;
  cx_calls : list pico_call;
}.
Definition cx_set_congestion (x : quicrq_cnx_ctx_t) cg : quicrq_cnx_ctx_t := {|
  cx_id := cx_id x; cx_is_server := cx_is_server x; cx_congestion := cg; cx_next_media_id := cx_next_media_id x;
  cx_next_abandon_datagram_id := cx_next_abandon_datagram_id x;
  cx_uni_streams := cx_uni_streams x; cx_calls := cx_calls x |}.
Definition cx_set_ids (x : quicrq_cnx_ctx_t) next abandon : quicrq_cnx_ctx_t := {|
  cx_id := cx_id x; cx_is_server := cx_is_server x; cx_congestion := cx_congestion x; cx_next_media_id := next;
  cx_next_abandon_datagram_id := abandon; cx_uni_streams := cx_uni_streams x;
  cx_calls := cx_calls x |}.
Definition cx_set_uni (x : quicrq_cnx_ctx_t) us : quicrq_cnx_ctx_t := {|
  cx_id := cx_id x; cx_is_server := cx_is_server x; cx_congestion := cx_congestion x; cx_next_media_id := cx_next_media_id x;
  cx_next_abandon_datagram_id := cx_next_abandon_datagram_id x; cx_uni_streams := us;
  cx_calls := cx_calls x |}.
Definition cx_call (x : quicrq_cnx_ctx_t) calls : quicrq_cnx_ctx_t := {|
  cx_id := cx_id x; cx_is_server := cx_is_server x; cx_congestion := cx_congestion x; cx_next_media_id := cx_next_media_id x;
  cx_next_abandon_datagram_id := cx_next_abandon_datagram_id x;
  cx_uni_streams := cx_uni_streams x; cx_calls := cx_calls x ++ calls |}.

(** The streams marked active so far. *)
Definition active_streams (calls : list pico_call) : list Z :=
  flat_map (fun k => match k with picoquic_mark_active_stream id true => [id] | _ => [] end) calls.

(** [consumer_fn] and [media_ctx]: a publisher for a source, designated by its
    address, or the consumer that the application set. *)
Inductive media_context :=
  | no_media
  | publishing (source : Z) (m : quicrq_fragment_publisher_context_t)
  | consuming (cs : CS).

(** A control stream, as its handlers see it: the contexts of quicrq and of the
    connection, the stream, its media, its source, and the urls given to
    [media_notify_fn] ([None] if that is [NULL]). *)
Record stream_world := {
  w_qr : quicrq_ctx_t;
  w_cnx : quicrq_cnx_ctx_t;
  w_stream : quicrq_stream_ctx_t;
  w_media : media_context;
  w_source : option Z;
  w_notified : option (list (list Z));
}.
Implicit Types w : stream_world.
Definition w_set_qr w qr := {| w_qr := qr; w_cnx := w_cnx w; w_stream := w_stream w;
  w_media := w_media w; w_source := w_source w; w_notified := w_notified w |}.
Definition w_set_cnx w x := {| w_qr := w_qr w; w_cnx := x; w_stream := w_stream w;
  w_media := w_media w; w_source := w_source w; w_notified := w_notified w |}.
Definition w_set_stream w s := {| w_qr := w_qr w; w_cnx := w_cnx w; w_stream := s;
  w_media := w_media w; w_source := w_source w; w_notified := w_notified w |}.
Definition w_set_media w k := {| w_qr := w_qr w; w_cnx := w_cnx w; w_stream := w_stream w;
  w_media := k; w_source := w_source w; w_notified := w_notified w |}.
Definition w_set_source w i := {| w_qr := w_qr w; w_cnx := w_cnx w; w_stream := w_stream w;
  w_media := w_media w; w_source := i; w_notified := w_notified w |}.
Definition w_set_notified w n := {| w_qr := w_qr w; w_cnx := w_cnx w; w_stream := w_stream w;
  w_media := w_media w; w_source := w_source w; w_notified := n |}.
Definition w_call w calls := w_set_cnx w (cx_call (w_cnx w) calls).
Definition w_mark_active w (b : bool) :=
  w_call w [picoquic_mark_active_stream (st_stream_id (w_stream w)) b].

(** The stream, in the chain of its source. *)
Definition stream_ref w : Z * Z := (cx_id (w_cnx w), st_stream_id (w_stream w)).

(** ** Sources *)

Definition find_source (qr : quicrq_ctx_t) (id : Z) : option quicrq_media_source_ctx_t :=
  List.find (fun src => ms_id src =? id) (qr_sources qr).
Definition update_source (qr : quicrq_ctx_t) (src : quicrq_media_source_ctx_t) : quicrq_ctx_t :=
  qr_set_sources qr (map (fun x => if ms_id x =? ms_id src then src else x) (qr_sources qr))
    (qr_next_source qr).

(** [media_ctx->cache_ctx], [None] in the option if [media_ctx] is [NULL]. *)
Definition cache_of w : option (option quicrq_fragment_cache_t) :=
  match w_media w with
  | no_media => Some None
  | publishing id _ => src ← find_source (w_qr w) id; Some (Some (ms_cache src))
  | consuming _ => None
  end.
(** [media_ctx], followed as a publisher. *)
Definition publisher_of w
  : option (Z * quicrq_fragment_publisher_context_t * quicrq_fragment_cache_t) :=
  match w_media w with
  | publishing id m => src ← find_source (w_qr w) id; Some (id, m, ms_cache src)
  | _ => None
  end.

Definition quicrq_find_local_media_source (qr : quicrq_ctx_t) (url : list Z)
  : option quicrq_media_source_ctx_t :=
  List.find (fun src => bool_decide (url = ms_media_url src)) (qr_sources qr).

(** [default_source_fn], if it is set, publishes a source for the url. *)
Context (default_source_fn : option (quicrq_ctx_t -> list Z -> quicrq_ctx_t * Z)).

Definition quicrq_create_default_source (f : quicrq_ctx_t -> list Z -> quicrq_ctx_t * Z)
    (qr : quicrq_ctx_t) (url : list Z) : quicrq_ctx_t * option quicrq_media_source_ctx_t :=
  let '(qr, ret) := f qr url in
  (qr, if negb (ret =? 0) then None else last (qr_sources qr)).

Definition quicrq_subscribe_local_media w (url : list Z) : stream_world * Z :=
  let '(qr, found) :=
    match quicrq_find_local_media_source (w_qr w) url, default_source_fn with
    | None, Some f => quicrq_create_default_source f (w_qr w) url
    | found, _ => (w_qr w, found)
    end in
  let w := w_set_qr w qr in
  match found with
  | None => (w, -1)
  | Some src =>
      let s := w_stream w in
      let w := w_set_source w (Some (ms_id src)) in
      let w := w_set_qr w (update_source qr (ms_set_streams src (ms_streams src ++ [stream_ref w]))) in
      let s := st_set_cache_real_time s (ms_is_cache_real_time src) in
      if malloc_ok sizeof_publisher_context then
        let '(m, g, o) := quicrq_fragment_publisher_subscribe (ms_cache src)
                            (qr_congestion_control_mode qr) in
        (w_set_media (w_set_stream w (st_set_start s g o)) (publishing (ms_id src) m), 0)
      else (w_set_media (w_set_stream w s) no_media, -1)
  end.

Definition quicrq_unsubscribe_local_media w : option stream_world :=
  match w_source w with
  | Some id =>
      src ← find_source (w_qr w) id;
      let streams := List.filter (fun i => negb (bool_decide (i = stream_ref w))) (ms_streams src) in
      Some (w_set_qr (w_set_source w None) (update_source (w_qr w) (ms_set_streams src streams)))
  | None => Some w
  end.

(** ** Wake up *)

(** The final point known by the cache is copied in the stream. *)
Definition learn_final w : option stream_world :=
  let s := w_stream w in
  if st_is_final_object_id_sent s then Some w
  else
    cache ← cache_of w;
    match cache with
    | Some c =>
        if negb (fc_final_group_id c =? 0) || negb (fc_final_object_id c =? 0)
        then Some (w_set_stream w (st_set_final s (fc_final_group_id c) (fc_final_object_id c)))
        else Some w
    | None => Some w
    end.

(** There is a start point, a cache policy or a final point to send. *)
Definition has_control_message s : bool :=
  ((negb (st_start_group_id s =? 0) || negb (st_start_object_id s =? 0)) &&
   negb (st_is_start_object_id_sent s)) ||
  (st_is_cache_real_time s && negb (st_is_cache_policy_sent s)) ||
  (negb (st_is_final_object_id_sent s) &&
   (negb (st_final_group_id s =? 0) || negb (st_final_object_id s =? 0))).

Definition set_control_priority w : option stream_world :=
  cache ← cache_of w;
  match cache with
  | Some c =>
      let '(s, calls) := quicrq_set_control_stream_priority c (w_stream w) in
      Some (w_call (w_set_stream w s) calls)
  | None => Some w
  end.

(** The unidirectional streams of the warp and rush modes. *)
Definition wakeup_uni_streams w : option stream_world :=
  '(_, m, c) ← publisher_of w;
  let x := w_cnx w in
  let active := active_streams (cx_calls x) in
  let '(s, us, calls) :=
    if bool_decide (st_transport_mode (w_stream w) = quicrq_transport_mode_warp)
    then quicrq_wakeup_media_uni_stream c (w_stream w) m (cx_uni_streams x) active
    else quicrq_wakeup_media_rush_stream c (w_stream w) (cx_uni_streams x) active in
  Some (w_call (w_set_cnx (w_set_stream w s) (cx_set_uni x us)) calls).

Definition quicrq_wakeup_media_stream w : option stream_world :=
  if bool_decide (st_transport_mode (w_stream w) = quicrq_transport_mode_single_stream)
  then Some (w_mark_active w true)
  else
    w ← learn_final w;
    w ← (if has_control_message (w_stream w)
         then set_control_priority (w_mark_active w true) else Some w);
    match st_transport_mode (w_stream w) with
    | quicrq_transport_mode_datagram =>
        Some (w_call (w_set_stream w (st_set_active_datagram (w_stream w) true))
                [picoquic_mark_datagram_ready true])
    | quicrq_transport_mode_warp | quicrq_transport_mode_rush =>
        if st_is_sender (w_stream w) && negb (st_media_id (w_stream w) =? UINT64_MAX)
        then wakeup_uni_streams w else Some w
    | _ => Some w
    end.

(** ** Deletion *)

(** The stream controls a unidirectional stream. *)
Definition controls s (u : quicrq_uni_stream_ctx_t) : bool :=
  bool_decide (us_control u = Some (st_stream_id s)).

(** The publisher or the consumer is told that the stream is closed. *)
Definition close_media w : option stream_world :=
  match w_media w with
  | no_media => Some w
  | media =>
      if st_is_sender (w_stream w) then
        '(_, _, c) ← publisher_of w;
        Some (w_set_media (w_set_qr w (qr_set_closing (w_qr w)
                (quicrq_fragment_publisher_close c || qr_is_cache_closing_needed (w_qr w))))
                no_media)
      else
        match media with
        | consuming cs =>
            let '(cs, _) := consumer_fn cs (quicrq_media_close (st_close_reason (w_stream w)) 0) in
            Some (w_set_media w (consuming cs))
        | _ => Some w
        end
  end.

(** The world that remains, with the last state of the stream.  The records of
    the datagrams to acknowledge, the urls and the buffers are freed.
    [connected]: the connection has its picoquic connection. *)
Definition quicrq_delete_stream_ctx (connected : bool) w : option stream_world :=
  let s := w_stream w in
  let us := cx_uni_streams (w_cnx w) in
  let calls := concat (map (quicrq_delete_uni_stream_ctx connected (Some s)) (List.filter (controls s) us)) in
  let x := cx_set_uni (w_cnx w) (List.filter (fun u => negb (controls s u)) us) in
  w ← quicrq_unsubscribe_local_media (w_call (w_set_cnx w x) calls);
  close_media (w_call w (if connected
                         then [picoquic_mark_active_stream (st_stream_id s) false;
                               picoquic_add_to_stream_fin (st_stream_id s)]
                         else [])).

(** ** Sending *)

(** A message is encoded in a buffer reserved for it. *)
Definition queue_message (message : quicrq_message_buffer_t) (reserve : Z) (e : enc)
  : quicrq_message_buffer_t * Z :=
  let '(message, ret) := quicrq_msg_buffer_alloc message reserve 0 in
  if negb (ret =? 0) then (message, -1)
  else match mb_encode message e with Some message => (message, 0) | None => (message, -1) end.

(** The same, for a stream that goes to a sending state. *)
Definition queue_on_stream s (reserve : Z) (e : enc) (state : quicrq_stream_sending_state_enum)
  : quicrq_stream_ctx_t * Z :=
  let '(message, ret) := queue_message (st_message_sent s) reserve e in
  let s := st_set_message_sent s message in
  if negb (ret =? 0) then (s, -1) else (st_set_send s state, 0).

Definition quicrq_prepare_start_point s : quicrq_stream_ctx_t * Z :=
  queue_on_stream s (quicrq_start_point_msg_reserve (st_start_group_id s) (st_start_object_id s))
    (quicrq_start_point_msg_encode QUICRQ_ACTION_START_POINT (st_start_group_id s)
       (st_start_object_id s))
    quicrq_sending_start_point.

Definition start_point_to_send s : bool :=
  ((0 <? st_start_group_id s) || (0 <? st_start_object_id s)) && negb (st_is_start_object_id_sent s).
Definition final_point_to_send s : bool :=
  ((0 <? st_final_group_id s) || (0 <? st_final_object_id s)) && negb (st_is_final_object_id_sent s).
Definition cache_policy_to_send s : bool :=
  st_is_cache_real_time s && negb (st_is_cache_policy_sent s).

(** Whether there is data for a single stream: [quicrq_fragment_is_ready_to_send]. *)
Definition media_ready w (space current_time : Z) : option (stream_world * bool) :=
  '(id, m, c) ← publisher_of w;
  '(m, cg, ready) ← quicrq_fragment_is_ready_to_send (qr_congestion_control_mode (w_qr w)) c m
                      (cx_congestion (w_cnx w)) (st_next_object_id (w_stream w)) space current_time;
  Some (w_set_cnx (w_set_media w (publishing id m)) (cx_set_congestion (w_cnx w) cg), ready).

(** The next message in the [quicrq_sending_ready] state. *)
Definition prepare_ready w (space current_time : Z) : option (stream_world * Z) :=
  let s := w_stream w in
  let queued r := Some (w_set_stream w r.1, r.2) in
  if negb (st_is_sender s) then Some (w, 0)
  else if start_point_to_send s then queued (quicrq_prepare_start_point s)
  else if final_point_to_send s then
    queued (queue_on_stream s (quicrq_fin_msg_reserve (st_final_group_id s) (st_final_object_id s))
              (quicrq_fin_msg_encode QUICRQ_ACTION_FIN_DATAGRAM (st_final_group_id s)
                 (st_final_object_id s))
              quicrq_sending_final_point)
  else if cache_policy_to_send s then
    queued (queue_on_stream s quicrq_cache_policy_msg_reserve
              (quicrq_cache_policy_msg_encode QUICRQ_ACTION_CACHE_POLICY 1)
              quicrq_sending_cache_policy)
  else
    '(w, ready) ←
      (if bool_decide (st_transport_mode s = quicrq_transport_mode_single_stream)
       then media_ready w space current_time else Some (w, false));
    if ready : bool then Some (w_set_stream w (st_set_send (w_stream w) quicrq_sending_single_stream), 0)
    else Some (w_mark_active w false, 0).

(** The next url in the [quicrq_notify_ready] state. *)
Definition prepare_notify s : quicrq_stream_ctx_t * Z :=
  match st_notify_urls s with
  | [] => (s, 0)
  | url :: urls =>
      let '(s', ret) :=
        queue_on_stream s (quicrq_notify_msg_reserve (blen url))
          (quicrq_notify_msg_encode QUICRQ_ACTION_NOTIFY (blen url) url) quicrq_sending_notify in
      (if ret =? 0 then st_set_notify s' urls else s', ret)
  end.

(** [quicrq_msg_buffer_prepare_to_send]. *)
Definition quicrq_msg_buffer_prepare_to_send w (space : Z) (more_to_send : bool)
  : option (stream_world * Z) :=
  '(message, ret, out) ← quicrq_msg_buffer_prepare_to_send_message (st_message_sent (w_stream w))
                           space more_to_send;
  let s := st_set_message_sent (w_stream w) message in
  let s := if mb_message_size message =? 0 then st_set_send s quicrq_sending_ready else s in
  Some (w_call (w_set_stream w s)
          match out with Some (bytes, active) => [stream_data bytes false active] | None => [] end,
        ret).

Definition mark_final_sent s : quicrq_stream_ctx_t :=
  set_finished_reason
    (st_set_sent s (st_is_start_object_id_sent s) true (st_is_cache_policy_sent s)).

(** The state is [quicrq_sending_ready] once the message is sent; it is then
    replaced by another one. *)
Definition when_sent (f : quicrq_stream_ctx_t -> quicrq_stream_ctx_t) w : stream_world :=
  if bool_decide (st_send_state (w_stream w) = quicrq_sending_ready)
  then w_set_stream w (f (w_stream w)) else w.

(** The end of the stream: the last component tells that it was deleted. *)
Definition send_end w : option (stream_world * Z * bool) :=
  let w := w_call w [stream_data [] true false] in
  let s := w_stream w in
  let s := st_set_finished (st_set_send s quicrq_sending_no_more) (st_is_peer_finished s) true in
  if st_is_peer_finished s then
    let s := if bool_decide (st_close_reason s = quicrq_media_close_reason_unknown)
             then st_set_close_reason s quicrq_media_close_remote_application else s in
    w ← quicrq_delete_stream_ctx true (w_set_stream w s);
    Some (w, 0, true)
  else Some (w_set_stream w s, 0, false).

(** What is sent in each state. *)
Definition send_in_state w (space current_time : Z) : option (stream_world * Z * bool) :=
  let s := w_stream w in
  let not_deleted (r : option (stream_world * Z)) := '(w, ret) ← r; Some (w, ret, false) in
  match st_send_state s with
  | quicrq_sending_ready => Some (w_mark_active w false, 0, false)
  | quicrq_sending_single_stream =>
      '(id, m, c) ← publisher_of w;
      '(s, m, cg, ret, calls) ← quicrq_prepare_to_send_media_to_stream
                                  (qr_congestion_control_mode (w_qr w)) c s m
                                  (cx_congestion (w_cnx w)) space current_time;
      let w := w_set_media (w_set_stream w s) (publishing id m) in
      Some (w_call (w_set_cnx w (cx_set_congestion (w_cnx w) cg)) calls, ret, false)
  | quicrq_sending_initial | quicrq_sending_repair =>
      not_deleted (quicrq_msg_buffer_prepare_to_send w space (final_point_to_send s))
  | quicrq_sending_final_point =>
      '(w, ret) ← quicrq_msg_buffer_prepare_to_send w space false;
      Some (when_sent mark_final_sent w, ret, false)
  | quicrq_sending_start_point =>
      '(w, ret) ← quicrq_msg_buffer_prepare_to_send w space (cache_policy_to_send s);
      (* whether the whole message was sent or not *)
      let s := st_set_sent (w_stream w) true (st_is_final_object_id_sent (w_stream w))
                 (st_is_cache_policy_sent (w_stream w)) in
      Some (w_set_stream w (st_set_send s quicrq_sending_ready), ret, false)
  | quicrq_sending_cache_policy =>
      '(w, ret) ← quicrq_msg_buffer_prepare_to_send w space (start_point_to_send s);
      let s := st_set_sent (w_stream w) (st_is_start_object_id_sent (w_stream w))
                 (st_is_final_object_id_sent (w_stream w)) true in
      Some (w_set_stream w (st_set_send s quicrq_sending_ready), ret, false)
  | quicrq_sending_subscribe =>
      '(w, ret) ← quicrq_msg_buffer_prepare_to_send w space false;
      Some (when_sent (fun s => st_set_send s quicrq_waiting_notify) w, ret, false)
  | quicrq_sending_notify =>
      '(w, ret) ← quicrq_msg_buffer_prepare_to_send w space (negb (bool_decide (st_notify_urls s = [])));
      Some (when_sent (fun s => st_set_send s quicrq_notify_ready) w, ret, false)
  | quicrq_waiting_notify | quicrq_notify_ready =>
      Some (w_call w [stream_data [] false false], 0, false)
  | quicrq_sending_fin => send_end w
  | quicrq_sending_no_more => Some (w, -1, false)
  end.

(** The world, [ret], and whether the stream was deleted. *)
Definition quicrq_prepare_to_send_on_stream w (space current_time : Z)
  : option (stream_world * Z * bool) :=
  '(w, ret) ←
    match st_send_state (w_stream w) with
    | quicrq_sending_ready => prepare_ready w space current_time
    | quicrq_notify_ready =>
        let '(s, ret) := prepare_notify (w_stream w) in Some (w_set_stream w s, ret)
    | _ => Some (w, 0)
    end;
  if ret =? 0 then send_in_state w space current_time else Some (w, ret, false).

(** ** Receiving *)

(** [consumer_fn], which is followed even if it is [NULL]. *)
Definition call_stream_consumer w (call : consumer_call) : option (stream_world * Z) :=
  match w_media w with
  | consuming cs =>
      let '(cs, ret) := consumer_fn cs call in Some (w_set_media w (consuming cs), ret)
  | _ => None
  end.

Definition consumer_result (r : option (stream_world * Z)) : option (stream_world * Z) :=
  '(w, ret) ← r;
  let '(s, ret, calls) := quicrq_cnx_handle_consumer_finished (w_stream w) ret in
  Some (w_call (w_set_stream w s) calls, ret).

(** Subscriptions to url patterns. *)
Definition quicrq_notify_url_to_stream w (url : list Z) : option (stream_world * Z) :=
  let s := w_stream w in
  let prefix := default [] (st_subscribe_prefix s) in
  if bool_decide (ztake (blen prefix) url = prefix) then
    if malloc_ok (sizeof_notify_url + blen url) then
      w ← quicrq_wakeup_media_stream (w_set_stream w (st_set_notify s (url :: st_notify_urls s)));
      Some (w, 1)
    else Some (w, -1)
  else Some (w, 0).

Fixpoint notify_sources w (srcs : list quicrq_media_source_ctx_t) : option (stream_world * Z) :=
  match srcs with
  | [] => Some (w, 0)
  | src :: srcs =>
      '(w, ret) ← quicrq_notify_url_to_stream w (ms_media_url src);
      if ret <? 0 then Some (w, -1) else notify_sources w srcs
  end.

Definition quicrq_process_incoming_subscribe w (url : list Z) : option (stream_world * Z) :=
  if malloc_ok (blen url + 1) then
    let s := st_set_receive (st_set_subscribe (w_stream w) (Some url)) quicrq_receive_done in
    notify_sources (w_set_stream w (st_set_send s quicrq_notify_ready)) (qr_sources (w_qr w))
  else Some (w, -1).

(** The start point asked by a subscriber. *)
Definition intent_point w (incoming : quicrq_message_t) : option (Z * Z) :=
  match subscribe_intent incoming with
  | quicrq_subscribe_intent_current_group =>
      '(_, _, c) ← publisher_of w; Some (fc_next_group_id c, 0)
  | quicrq_subscribe_intent_next_group =>
      '(_, _, c) ← publisher_of w; Some (fc_next_group_id c +64 1, 0)
  | quicrq_subscribe_intent_start_point => Some (group_id incoming, object_id incoming)
  end.

Definition override_intent s (g o : Z) : Z * Z :=
  if ((0 <? st_start_group_id s) || (0 <? st_start_object_id s)) &&
     ((g <? st_next_group_id s) || ((g =? st_next_group_id s) && (o <? st_next_object_id s)))
  then (st_start_group_id s, st_start_object_id s) else (g, o).

(** The stream and its publisher start at the given point. *)
Definition apply_intent w (g o : Z) : option (stream_world * Z) :=
  let s := st_set_start (w_stream w) g o in
  let s := st_set_next s g o (st_next_object_offset s) in
  '(id, m, _) ← publisher_of w;
  let w := w_set_media w (publishing id (pc_set_current m g o 0)) in
  let '(s, ret) := quicrq_prepare_start_point s in
  Some (w_mark_active (w_set_stream w (st_set_receive s quicrq_receive_done)) true, ret).

Definition set_states w send receive : stream_world :=
  w_set_stream w (st_set_receive (st_set_send (w_stream w) send) receive).

Definition receive_request w (incoming : quicrq_message_t) : option (stream_world * Z) :=
  if negb (bool_decide (st_receive_state (w_stream w) = quicrq_receive_initial)) then Some (w, -1)
  else
    let s := st_set_mode (st_set_media (w_stream w) (media_id incoming)) (transport_mode incoming) in
    let '(w, ret) := quicrq_subscribe_local_media (w_set_stream w s) (url incoming) in
    w ← (if ret =? 0 then quicrq_wakeup_media_stream w else Some w);
    '(w, g, o) ←
      (if ret =? 0 then
         let w := w_set_stream w (st_set_sender (w_stream w) true) in
         '(g, o) ← intent_point w incoming;
         let '(g, o) := override_intent (w_stream w) g o in Some (w, g, o)
       else Some (w, 0, 0));
    if (0 <? g) || (0 <? o) then apply_intent w g o
    else
      match transport_mode incoming with
      | quicrq_transport_mode_single_stream =>
          Some (w_mark_active (set_states w quicrq_sending_single_stream quicrq_receive_done) true, ret)
      | quicrq_transport_mode_datagram | quicrq_transport_mode_warp | quicrq_transport_mode_rush =>
          Some (set_states w quicrq_sending_ready quicrq_receive_done, ret)
      | _ => Some (w, -1)
      end.

(** A local source is sent on the stream; nothing calls it. *)
Definition quicrq_cnx_connect_media_source w (url : list Z) : option (stream_world * Z) :=
  let '(w, ret) := quicrq_subscribe_local_media w url in
  w ← (if ret =? 0 then quicrq_wakeup_media_stream w else Some w);
  let w := w_set_stream w (st_set_sender (w_stream w) true) in
  if bool_decide (st_transport_mode (w_stream w) = quicrq_transport_mode_single_stream)
  then Some (w_mark_active (set_states w quicrq_sending_single_stream quicrq_receive_done) true, ret)
  else Some (set_states w quicrq_sending_ready quicrq_receive_done, ret).

(** [consumer_media_init_fn], if it is set, sets a consumer for a url. *)
Context (consumer_media_init_fn : option (list Z -> option CS * Z)).

(** The media is connected to the local listener. *)
Definition init_consumer w (url : list Z) : option (stream_world * Z) :=
  init ← consumer_media_init_fn;
  let '(cs, ret) := init url in
  Some (match cs with Some cs => w_set_media w (consuming cs) | None => w end, ret).

Definition quicrq_cnx_accept_media w (url : list Z) (transport_mode : quicrq_transport_mode_enum)
    (cache_policy start_group_id start_object_id : Z) : option (stream_world * Z) :=
  let is_single := bool_decide (transport_mode = quicrq_transport_mode_single_stream) in
  let x := w_cnx w in
  let media_id := if is_single then 0 else cx_next_media_id x in
  let '(message, ret) :=
    queue_message (st_message_sent (w_stream w)) (quicrq_accept_msg_reserve transport_mode media_id)
      (quicrq_accept_msg_encode QUICRQ_ACTION_ACCEPT transport_mode media_id) in
  let w := w_set_stream w (st_set_message_sent (w_stream w) message) in
  if negb (ret =? 0) then Some (w, -1)
  else
    let w := w_set_stream w (st_set_mode (w_stream w) transport_mode) in
    let w := set_states w quicrq_sending_initial quicrq_receive_fragment in
    let w :=
      if is_single then w
      else w_set_cnx (w_set_stream w (st_set_media (w_stream w) media_id))
             (cx_set_ids x (cx_next_media_id x +64 1) (cx_next_abandon_datagram_id x)) in
    '(w, ret) ← init_consumer w url;
    let w := w_mark_active w true in
    '(w, ret) ← (if (ret =? 0) && negb (cache_policy =? 0)
                 then call_stream_consumer w quicrq_media_real_time_cache else Some (w, ret));
    if negb (start_group_id =? 0) || negb (start_object_id =? 0) then
      let w := w_set_stream w (st_set_start (w_stream w) start_group_id start_object_id) in
      call_stream_consumer w (quicrq_media_start_point start_group_id start_object_id 0)
    else Some (w, ret).

Definition receive_post w (incoming : quicrq_message_t) : option (stream_world * Z) :=
  if negb (bool_decide (st_receive_state (w_stream w) = quicrq_receive_initial)) then Some (w, -1)
  else quicrq_cnx_accept_media w (url incoming) (transport_mode incoming) (cache_policy incoming)
         (group_id incoming) (object_id incoming).

(** The state of the stream is not tested. *)
Definition quicrq_cnx_post_accepted w (transport_mode : quicrq_transport_mode_enum) (media_id : Z)
  : option (stream_world * Z) :=
  let s := st_set_receive (w_stream w) quicrq_receive_fragment in
  let s := st_set_mode (st_set_sender s true) transport_mode in
  let w := w_set_stream w s in
  let with_media w := w_set_stream w (st_set_media (w_stream w) media_id) in
  let '(w, ret) :=
    match transport_mode with
    | quicrq_transport_mode_datagram =>
        (w_mark_active (set_states (with_media w) quicrq_sending_ready quicrq_receive_done)
           (start_point_to_send s || cache_policy_to_send s), 0)
    | quicrq_transport_mode_single_stream =>
        (w_mark_active (set_states w quicrq_sending_single_stream quicrq_receive_done) true, 0)
    | quicrq_transport_mode_warp | quicrq_transport_mode_rush =>
        (w_mark_active (set_states (with_media w) quicrq_sending_ready quicrq_receive_done) true, 0)
    | _ => (w, -1)
    end in
  w ← quicrq_wakeup_media_stream w;
  Some (w, ret).

Definition receiving_fragments s : bool :=
  bool_decide (st_receive_state s = quicrq_receive_fragment).

Definition receive_start_point w (incoming : quicrq_message_t) : option (stream_world * Z) :=
  let s := w_stream w in
  if negb (receiving_fragments s) || negb (st_start_group_id s =? 0) ||
     negb (st_start_object_id s =? 0)
  then Some (w, -1)
  else
    let w := w_set_stream w (st_set_start s (group_id incoming) (object_id incoming)) in
    consumer_result (call_stream_consumer w
      (quicrq_media_start_point (group_id incoming) (object_id incoming) (flags incoming))).

(** [final_object_id] is tested twice, and is not set. *)
Definition receive_final w (incoming : quicrq_message_t) : option (stream_world * Z) :=
  let s := w_stream w in
  if negb (receiving_fragments s) ||
     (negb (st_final_object_id s =? 0) || negb (st_final_object_id s =? 0))
  then Some (w, -1)
  else
    consumer_result (call_stream_consumer w
      (quicrq_media_final_object_id (group_id incoming) (object_id incoming))).

Definition is_before_start s (g o : Z) : bool := pair_ltb g o (st_start_group_id s) (st_start_object_id s).

Definition receive_fragment w (incoming : quicrq_message_t) : option (stream_world * Z) :=
  let s := w_stream w in
  if negb (receiving_fragments s) then Some (w, -1)
  else
    let w := if is_before_start s (group_id incoming) (object_id incoming)
             then w_set_qr w (qr_count_useless (w_qr w)) else w in
    consumer_result (call_stream_consumer w
      (quicrq_media_datagram_ready (default [] (data incoming)) (group_id incoming)
         (object_id incoming) (fragment_offset incoming) 0 (flags incoming)
         (nb_objects_previous_group incoming) (object_length incoming) (fragment_length incoming))).

(** [manage_relay_subscribe_fn], if it is set, forwards the subscription. *)
Context (manage_relay_subscribe_fn : option (quicrq_ctx_t -> list Z -> quicrq_ctx_t)).

Definition receive_subscribe w (incoming : quicrq_message_t) : option (stream_world * Z) :=
  if negb (bool_decide (st_receive_state (w_stream w) = quicrq_receive_initial)) then Some (w, -1)
  else
    '(w, ret) ← quicrq_process_incoming_subscribe w (url incoming);
    Some (match manage_relay_subscribe_fn with
          | Some f => w_set_qr w (f (w_qr w) (url incoming))
          | None => w
          end, ret).

(** The url is passed on even if it was not expected. *)
Definition receive_notify w (incoming : quicrq_message_t) : option (stream_world * Z) :=
  Some (match w_notified w with
        | Some l => w_set_notified w (Some (l ++ [url incoming]))
        | None => w
        end,
        if bool_decide (st_receive_state (w_stream w) = quicrq_receive_notify) then 0 else -1).

Definition receive_cache_policy w (incoming : quicrq_message_t) : option (stream_world * Z) :=
  let s := w_stream w in
  if negb (receiving_fragments s) || st_is_cache_real_time s then Some (w, -1)
  else
    let w := w_set_stream w (st_set_cache_real_time s (negb (cache_policy incoming =? 0))) in
    consumer_result (call_stream_consumer w quicrq_media_real_time_cache).

(** The dispatch on the type of the message. *)
Definition receive_message w (incoming : quicrq_message_t) : option (stream_world * Z) :=
  let ty := message_type incoming in
  if ty =? QUICRQ_ACTION_REQUEST then receive_request w incoming
  else if ty =? QUICRQ_ACTION_POST then receive_post w incoming
  else if ty =? QUICRQ_ACTION_ACCEPT then
    quicrq_cnx_post_accepted w (transport_mode incoming) (media_id incoming)
  else if ty =? QUICRQ_ACTION_START_POINT then receive_start_point w incoming
  else if ty =? QUICRQ_ACTION_FIN_DATAGRAM then receive_final w incoming
  else if ty =? QUICRQ_ACTION_FRAGMENT then receive_fragment w incoming
  else if ty =? QUICRQ_ACTION_SUBSCRIBE then receive_subscribe w incoming
  else if ty =? QUICRQ_ACTION_NOTIFY then receive_notify w incoming
  else if ty =? QUICRQ_ACTION_CACHE_POLICY then receive_cache_policy w incoming
  else Some (w, -1).

(** The message in the buffer is decoded and handled, and the buffer reset. *)
Definition receive_control_message w : option (stream_world * Z) :=
  let message := st_message_receive (w_stream w) in
  '(w, ret) ←
    match quicrq_msg_decode (ztake (mb_message_size message) (mb_buffer message)) with
    | None => Some (w, -1)
    | Some (incoming, _) => receive_message w incoming
    end;
  let s := w_stream w in
  Some (w_set_stream w (st_set_message_receive s (quicrq_msg_buffer_reset (st_message_receive s))), ret).

Fixpoint receive_control_loop (fuel : nat) w (bytes : list Z) : option (stream_world * Z) :=
  match fuel with
  | O => None
  | S fuel' =>
      match bytes with
      | [] => Some (w, 0)
      | _ =>
          let s := w_stream w in
          if bool_decide (st_receive_state s = quicrq_receive_done) then Some (w, -1)
          else
            '(message, next_bytes, is_finished) ← quicrq_msg_buffer_store bytes (st_message_receive s);
            let w := w_set_stream w (st_set_message_receive s message) in
            match next_bytes with
            | None => Some (w, -1)
            | Some bytes =>
                if is_finished : bool then
                  '(w, ret) ← receive_control_message w;
                  if ret =? 0 then receive_control_loop fuel' w bytes else Some (w, ret)
                else receive_control_loop fuel' w bytes
            end
      end
  end.

(** The peer has closed the stream: the last component tells that the stream
    was deleted. *)
Definition receive_fin w : option (stream_world * bool) :=
  let s := w_stream w in
  let s := st_set_finished s true (st_is_local_finished s) in
  if st_is_local_finished s then
    let s := if bool_decide (st_close_reason s = quicrq_media_close_reason_unknown)
             then st_set_close_reason s quicrq_media_close_remote_application else s in
    w ← quicrq_delete_stream_ctx true (w_set_stream w s);
    Some (w, true)
  else Some (w_mark_active (w_set_stream w (st_set_send s quicrq_sending_fin)) true, false).

(** Each turn reads a byte at least. *)
Definition quicrq_receive_stream_data w (bytes : list Z) (is_fin : bool)
  : option (stream_world * Z * bool) :=
  '(w, ret) ← receive_control_loop (S (length bytes)) w bytes;
  if is_fin then '(w, deleted) ← receive_fin w; Some (w, ret, deleted)
  else Some (w, ret, false).

End control.
