(* ===== verification/Connection.v ===== *)
(** * lib/quicrq.c, lib/proto.c: connections

    The control streams of a connection and what the application and picoquic
    call: the requests of media, the datagrams, and the dispatch of the events
    of picoquic ([quicrq_callback]).

    A stream is handled by the functions of ControlStream.v and Warp.v on a
    view of the connection from that stream ([view], [put_view]).  [None]
    stands for undefined behaviour. *)

From S2P Require Import Prelude Picosplay PicoFrames Proto Fragment PublisherContext Congestion Ack.
From S2P Require Import Publisher DatagramPublisher MsgBuffer StreamContext MediaStream Warp.
From S2P Require Import ControlStream.

Definition sizeof_stream_ctx : Z := 416.

Section connection.
Context `{Sp : Splay quicrq_cached_fragment_t quicrq_fragment_cache_node_compare}.
Context {So : Splay okey quicrq_fragment_publisher_object_node_compare}.
Context {Sa : Splay akey quicrq_datagram_ack_node_compare}.
Context {Al : Allocator} {PF : PicoFrames} {PS : PicoStream} {PI : PicoStreamIds}.
Context {PD : PicoDatagram} {PQ : PicoQueue}.
Context {CS : Type} `{Co : Consumer CS}.
Context (default_source_fn : option (quicrq_ctx_t -> list Z -> quicrq_ctx_t * Z)).
Context (consumer_media_init_fn : option (list Z -> option CS * Z)).
Context (manage_relay_subscribe_fn : option (quicrq_ctx_t -> list Z -> quicrq_ctx_t)).

(** ** State *)

(** A control stream, with its media, its source, what its notification
    function received, and its datagrams to acknowledge. *)
Record control := {
  k_stream : quicrq_stream_ctx_t;
  k_media : media_context (CS := CS);
  k_source : option Z;
  k_notified : option (list (list Z));
  k_ack : quicrq_datagram_ack_ctx_t;
}.
Record connection := {
  n_cnx : quicrq_cnx_ctx_t;
  n_streams : list control;
}.
Implicit Types n : connection.
Implicit Types qr : quicrq_ctx_t.

Definition k_id (k : control) : Z := st_stream_id (k_stream k).
Definition k_set_stream (k : control) s : control := {| k_stream := s; k_media := k_media k;
  k_source := k_source k; k_notified := k_notified k; k_ack := k_ack k |}.
Definition k_set_media (k : control) m : control := {| k_stream := k_stream k; k_media := m;
  k_source := k_source k; k_notified := k_notified k; k_ack := k_ack k |}.
Definition k_set_ack (k : control) a : control := {| k_stream := k_stream k; k_media := k_media k;
  k_source := k_source k; k_notified := k_notified k; k_ack := a |}.
Definition n_set_cnx n x : connection := {| n_cnx := x; n_streams := n_streams n |}.
Definition n_set_streams n ks : connection := {| n_cnx := n_cnx n; n_streams := ks |}.
Definition n_call n calls : connection := n_set_cnx n (cx_call (n_cnx n) calls).

(** The stream, as its handlers see it, and back. *)
Definition view qr n (k : control) : stream_world := {| w_qr := qr; w_cnx := n_cnx n;
  w_stream := k_stream k; w_media := k_media k; w_source := k_source k;
  w_notified := k_notified k |}.
Definition control_of_view (a : quicrq_datagram_ack_ctx_t) (w : stream_world) : control := {|
  k_stream := w_stream w; k_media := w_media w; k_source := w_source w;
  k_notified := w_notified w; k_ack := a |}.
Definition update_stream (k : control) (ks : list control) : list control :=
  map (fun x => if k_id x =? k_id k then k else x) ks.
Definition remove_stream (id : Z) (ks : list control) : list control :=
  List.filter (fun x => negb (k_id x =? id)) ks.
Definition find_stream n (stream_id : Z) : option control :=
  List.find (fun k => k_id k =? stream_id) (n_streams n).

Definition put_view n (k : control) (w : stream_world) (deleted : bool) : connection := {|
  n_cnx := w_cnx w;
  n_streams := if deleted then remove_stream (k_id k) (n_streams n)
               else update_stream (control_of_view (k_ack k) w) (n_streams n) |}.

(** ** Creation of streams *)

Definition control_zero (stream_id : Z) : control := {| k_stream := stream_zero stream_id;
  k_media := no_media; k_source := None; k_notified := None;
  k_ack := quicrq_datagram_ack_ctx_init 0 |}.

Definition quicrq_create_stream_context n (stream_id : Z) : connection * option control :=
  if malloc_ok sizeof_stream_ctx
  then (n_set_streams n (n_streams n ++ [control_zero stream_id]), Some (control_zero stream_id))
  else (n, None).

Definition quicrq_find_or_create_stream n (stream_id : Z) (should_create : bool)
  : connection * option control :=
  match find_stream n stream_id with
  | Some k => (n, Some k)
  | None => if should_create then quicrq_create_stream_context n stream_id else (n, None)
  end.

Definition quicrq_cnx_has_stream n : bool := negb (bool_decide (length (n_streams n) = 0%nat)).

(** ** Requests of the application

    [stream_id] is [picoquic_get_next_local_stream_id(cnx, 0)]. *)

Record quicrq_subscribe_intent_t := {
  intent_mode : quicrq_subscribe_intent_enum;
  intent_start_group_id : Z;
  intent_start_object_id : Z;
}.
Definition default_intent : quicrq_subscribe_intent_t := {|
  intent_mode := quicrq_subscribe_intent_start_point; intent_start_group_id := 0;
  intent_start_object_id := 0 |}.

Definition quicrq_cnx_subscribe_media_ex n (stream_id : Z) (url : list Z)
    (transport_mode : quicrq_transport_mode_enum) (intent : option quicrq_subscribe_intent_t)
    (cs : CS) : connection * Z :=
  let intent := default default_intent intent in
  let '(n, created) := quicrq_create_stream_context n stream_id in
  match created with
  | None => (n, -1)
  | Some k =>
      let x := n_cnx n in
      let media_id := cx_next_media_id x in
      let '(message, ret) :=
        queue_message (st_message_sent (k_stream k))
          (quicrq_rq_msg_reserve (blen url) (intent_mode intent))
          (quicrq_rq_msg_encode QUICRQ_ACTION_REQUEST (blen url) url media_id transport_mode
             (intent_mode intent) (intent_start_group_id intent) (intent_start_object_id intent)) in
      let s := st_set_message_sent (k_stream k) message in
      let put s m n := n_set_streams n (update_stream (k_set_media (k_set_stream k s) m) (n_streams n)) in
      if negb (ret =? 0) then (put s no_media n, -1)
      else
        let s := st_set_media (st_set_mode s transport_mode) media_id in
        let s := st_set_receive (st_set_send s quicrq_sending_initial) quicrq_receive_fragment in
        let x := cx_set_ids x (media_id +64 1) (cx_next_abandon_datagram_id x) in
        (n_call (put s (consuming cs) (n_set_cnx n x)) [picoquic_mark_active_stream stream_id true], 0)
  end.

Definition quicrq_cnx_subscribe_media n stream_id url transport_mode cs :=
  quicrq_cnx_subscribe_media_ex n stream_id url transport_mode None cs.

Definition quicrq_cnx_post_media qr n (stream_id : Z) (url : list Z)
    (transport_mode : quicrq_transport_mode_enum) : quicrq_ctx_t * connection * Z :=
  let '(n, created) := quicrq_create_stream_context n stream_id in
  match created with
  | None => (qr, n, -1)
  | Some k =>
      let '(message, ret) := quicrq_msg_buffer_alloc (st_message_sent (k_stream k))
                               (quicrq_post_msg_reserve (blen url)) 0 in
      let w := view qr n (k_set_stream k (st_set_message_sent (k_stream k) message)) in
      let finish (w : stream_world) ret := (w_qr w, put_view n k w false, ret) in
      if negb (ret =? 0) then finish w (-1)
      else
        let '(w, ret) := quicrq_subscribe_local_media default_source_fn w url in
        let s := w_stream w in
        if negb (ret =? 0) then finish w ret
        else
          match mb_encode message
                  (quicrq_post_msg_encode QUICRQ_ACTION_POST (blen url) url transport_mode
                     (z_of_bool (st_is_cache_real_time s)) (st_start_group_id s)
                     (st_start_object_id s)) with
          | None => finish w (-1)
          | Some message =>
              let s := st_set_sent (st_set_sender s true)
                         ((0 <? st_start_group_id s) || (0 <? st_start_object_id s))
                         (st_is_final_object_id_sent s) (st_is_cache_real_time s) in
              let s := st_set_send (st_set_message_sent s message) quicrq_sending_initial in
              let s := st_set_media (st_set_receive s quicrq_receive_confirmation) UINT64_MAX in
              let s := st_set_next (st_set_mode s transport_mode) (st_start_group_id s)
                         (st_start_object_id s) (st_next_object_offset s) in
              finish (w_mark_active (w_set_stream w s) true) 0
          end
  end.

(** The stream whose close reason is set when the message cannot be encoded is
    the first one of the connection. *)
Definition quicrq_cnx_subscribe_pattern qr n (stream_id : Z) (url : list Z) (has_notify_fn : bool)
  : option (quicrq_ctx_t * connection * option Z) :=
  let '(n, created) := quicrq_create_stream_context n stream_id in
  match created with
  | None => Some (qr, n, None)
  | Some k =>
      let '(message, ret) := quicrq_msg_buffer_alloc (st_message_sent (k_stream k))
                               (quicrq_subscribe_msg_reserve (blen url)) 0 in
      let k := k_set_stream k (st_set_message_sent (k_stream k) message) in
      if negb (ret =? 0)
      then Some (qr, n_set_streams n (update_stream k (n_streams n)), Some stream_id)
      else
        match mb_encode message (quicrq_subscribe_msg_encode QUICRQ_ACTION_SUBSCRIBE (blen url) url) with
        | None =>
            let ks := match n_streams n with
                      | k0 :: ks => k_set_stream k0 (st_set_close_reason (k_stream k0)
                                                       quicrq_media_close_internal_error) :: ks
                      | [] => []
                      end in
            let n := n_set_streams n ks in
            k ← find_stream n stream_id;
            w ← quicrq_delete_stream_ctx true (view qr n k);
            Some (w_qr w, put_view n k w true, None)
        | Some message =>
            let s := st_set_send (st_set_message_sent (k_stream k) message) quicrq_sending_subscribe in
            let k := {| k_stream := st_set_receive s quicrq_receive_notify; k_media := k_media k;
                        k_source := k_source k;
                        k_notified := if has_notify_fn then Some [] else None; k_ack := k_ack k |} in
            Some (qr, n_call (n_set_streams n (update_stream k (n_streams n)))
                        [picoquic_mark_active_stream stream_id true], Some stream_id)
        end
  end.

Definition quicrq_cnx_subscribe_pattern_close n (k : control) : connection * Z :=
  let s := k_stream k in
  if bool_decide (st_send_state s = quicrq_waiting_notify) then
    (n_call (n_set_streams n (update_stream (k_set_stream k (st_set_send s quicrq_sending_fin))
                                (n_streams n)))
       [picoquic_mark_active_stream (k_id k) true], 0)
  else (n, if bool_decide (st_send_state s = quicrq_sending_fin) then 0 else 1).

Definition quicrq_cnx_abandon_stream_id n (stream_id : Z) : connection :=
  match find_stream n stream_id with
  | Some k =>
      let x := n_cnx n in
      let '(s, abandon, calls) :=
        quicrq_cnx_abandon_stream (k_stream k) (cx_next_abandon_datagram_id x) in
      n_call (n_set_streams (n_set_cnx n (cx_set_ids x (cx_next_media_id x) abandon))
                (update_stream (k_set_stream k s) (n_streams n))) calls
  | None => n
  end.

(** ** Datagrams *)

(** A receiver of datagrams for the media. *)
Definition receives_datagrams (media_id : Z) (k : control) : bool :=
  negb (st_is_sender (k_stream k)) &&
  bool_decide (st_transport_mode (k_stream k) = quicrq_transport_mode_datagram) &&
  (st_media_id (k_stream k) =? media_id).

Definition quicrq_receive_datagram qr n (bytes : list Z)
  : option (quicrq_ctx_t * connection * Z) :=
  match quicrq_datagram_header_decode bytes with
  | None => Some (qr, n, -1)
  | Some ((media_id, group_id, object_id, object_offset, queue_delay, flags,
           nb_objects_previous_group, object_length), next_bytes) =>
      match List.find (receives_datagrams media_id) (n_streams n) with
      | None => Some (qr, n, if cx_next_media_id (n_cnx n) <=? media_id then -1 else 0)
      | Some k =>
          let w := view qr n k in
          let w := if is_before_start (k_stream k) group_id object_id
                   then w_set_qr w (qr_count_useless (w_qr w)) else w in
          '(w, ret) ← call_stream_consumer w
            (quicrq_media_datagram_ready next_bytes group_id object_id object_offset queue_delay flags
               nb_objects_previous_group object_length (blen next_bytes));
          let '(s, ret, calls) := quicrq_cnx_handle_consumer_finished (w_stream w) ret in
          let w := w_call (w_set_stream w s) calls in
          Some (w_qr w, put_view n k w false, ret)
      end
  end.

Definition ack_of (k : control) : quicrq_datagram_ack_ctx_t :=
  let a := k_ack k in {|
  ak_media_id := st_media_id (k_stream k); ak_extra := ak_extra a;
  ak_horizon_group_id := ak_horizon_group_id a; ak_horizon_object_id := ak_horizon_object_id a;
  ak_horizon_offset := ak_horizon_offset a;
  ak_horizon_is_last_fragment := ak_horizon_is_last_fragment a;
  ak_nb_horizon_events := ak_nb_horizon_events a; ak_nb_horizon_acks := ak_nb_horizon_acks a;
  ak_nb_extra_sent := ak_nb_extra_sent a; ak_nb_fragment_lost := ak_nb_fragment_lost a;
  ak_tree := ak_tree a; ak_states := ak_states a; ak_queued := ak_queued a |}.

(** A sender of datagrams that is active. *)
Definition sends_datagrams s : bool :=
  bool_decide (st_transport_mode s = quicrq_transport_mode_datagram) && st_is_sender s &&
  st_is_active_datagram s && (st_media_id s <? UINT64_MAX).

(** What the publisher of a stream does: the new stream and connection, [ret],
    the datagram, [media_was_sent] and [at_least_one_active]. *)
Definition publish_datagram (extra : extra_settings) qr n (k : control) (space : Z) (active : bool)
    (current_time : Z) : option (control * connection * Z * option (list Z) * bool * bool) :=
  '(id, m, c) ← publisher_of (view qr n k);
  let s := k_stream k in
  '(r, cg, fin, at_end) ←
    quicrq_fragment_datagram_publisher_fn (qr_congestion_control_mode qr) extra c (st_start_group_id s)
      (st_start_object_id s) (st_final_group_id s, st_final_object_id s) m (ack_of k)
      (cx_congestion (n_cnx n)) (st_media_id s) space active current_time current_time;
  let s := st_set_final s fin.1 fin.2 in
  let s := if at_end : bool then st_set_active_datagram s false else s in
  let n := n_set_cnx n (cx_set_congestion (n_cnx n) cg) in
  let n := if at_end then n_call n [picoquic_mark_active_stream (st_stream_id s) true] else n in
  let k := k_set_ack (k_set_media (k_set_stream k s) (publishing id (dr_media r))) (dr_ack r) in
  Some (k, n, dr_ret r, dr_datagram r, dr_media_was_sent r, dr_at_least_one_active r).

Fixpoint prepare_datagram_loop (extra : extra_settings) qr n (ks : list control) (space : Z)
    (active : bool) (current_time : Z)
  : option (connection * list control * Z * option (list Z) * bool) :=
  match ks with
  | [] => Some (n, [], 0, None, active)
  | k :: ks =>
      if sends_datagrams (k_stream k) then
        '(k, n, ret, datagram, sent, active) ← publish_datagram extra qr n k space active current_time;
        if sent || negb (ret =? 0) then Some (n, k :: ks, ret, datagram, active)
        else
          let k := k_set_stream k (st_set_active_datagram (k_stream k) false) in
          '(n, ks, ret, datagram, active) ← prepare_datagram_loop extra qr n ks space active current_time;
          Some (n, k :: ks, ret, datagram, active)
      else
        '(n, ks, ret, datagram, active) ← prepare_datagram_loop extra qr n ks space active current_time;
        Some (n, k :: ks, ret, datagram, active)
  end.

Definition quicrq_prepare_to_send_datagram (extra : extra_settings) qr n (space current_time : Z)
  : option (connection * Z * option (list Z)) :=
  '(n, ks, ret, datagram, active) ←
    prepare_datagram_loop extra qr n (n_streams n) space false current_time;
  let n := n_set_streams n ks in
  Some (if ret =? 0 then n_call n [picoquic_mark_datagram_ready active] else n, ret, datagram).

(** ** Notifications *)

(** The streams of the connection, up to the first one that takes the url. *)
Fixpoint notify_loop qr n (ids : list Z) (url : list Z) (ret : Z)
  : option (quicrq_ctx_t * connection * Z) :=
  match ids with
  | [] => Some (qr, n, ret)
  | id :: ids =>
      k ← find_stream n id;
      if bool_decide (st_send_state (k_stream k) = quicrq_notify_ready) then
        '(w, ret) ← quicrq_notify_url_to_stream (view qr n k) url;
        let n := put_view n k w false in
        if 0 <? ret then Some (w_qr w, n, 0) else notify_loop (w_qr w) n ids url ret
      else notify_loop qr n ids url ret
  end.

(** ** The end of a connection *)

(** The streams are deleted in order; [fuel] is their number. *)
Fixpoint delete_streams (fuel : nat) (connected : bool) qr n (close_reason : quicrq_media_close_reason_enum)
  : option (quicrq_ctx_t * connection * list control) :=
  match fuel, n_streams n with
  | _, [] => Some (qr, n, [])
  | O, _ => None
  | S fuel', k :: _ =>
      let s := k_stream k in
      let s := if bool_decide (st_close_reason s = quicrq_media_close_reason_unknown)
               then st_set_close_reason s close_reason else s in
      w ← quicrq_delete_stream_ctx connected (view qr n (k_set_stream k s));
      '(qr, n, deleted) ← delete_streams fuel' connected (w_qr w) (put_view n k w true) close_reason;
      Some (qr, n, control_of_view (k_ack k) w :: deleted)
  end.

(** The context of quicrq, the calls on the streams and the last state of the
    streams; the connection is freed.  [connected] is false in the close
    event, which resets [cnx_ctx->cnx] before; when it is true the picoquic
    connection is deleted too. *)
Definition quicrq_delete_cnx_context (connected : bool) qr n (close_reason : quicrq_media_close_reason_enum)
  : option (quicrq_ctx_t * list pico_call * list control) :=
  '(qr, n, deleted) ← delete_streams (length (n_streams n)) connected qr n close_reason;
  let x := n_cnx n in
  Some (qr, cx_calls x ++ concat (map (quicrq_delete_uni_stream_ctx connected None) (cx_uni_streams x)),
        deleted).

(** ** The events of picoquic *)

(** The unidirectional stream is given back to the connection. *)
Definition put_uni n (stream_id : Z) (u : quicrq_uni_stream_ctx_t) (deleted : bool) : connection :=
  let us := cx_uni_streams (n_cnx n) in
  n_set_cnx n (cx_set_uni (n_cnx n)
    (if deleted then List.filter (fun x => negb (has_id stream_id x)) us
     else update_uni stream_id (fun _ => u) us)).

(** The control streams, as the receiver of a unidirectional stream sees them,
    and back. *)
Definition consumer_view (k : control) : control_stream CS := {|
  ct_stream := k_stream k;
  ct_consumer := match k_media k with consuming cs => Some cs | _ => None end |}.
Definition put_consumer (k : control) (v : control_stream CS) : control :=
  k_set_stream (match ct_consumer v with Some cs => k_set_media k (consuming cs) | None => k end)
    (ct_stream v).

Definition receive_on_unistream n (u : quicrq_uni_stream_ctx_t) (bytes : list Z) (is_fin : bool)
  : option (connection * Z) :=
  '(w, ret) ← quicrq_receive_warp_or_rush_stream_data
    {| ww_controls := map consumer_view (n_streams n); ww_uni := u; ww_calls := [];
       ww_deleted := false |} bytes is_fin;
  let n := n_set_streams n (zip_with put_consumer (n_streams n) (ww_controls w)) in
  Some (n_call (put_uni n (us_stream_id u) (ww_uni w) (ww_deleted w)) (ww_calls w), ret).

(** The control stream of the stream and its publisher are followed. *)
Definition prepare_on_unistream qr n (u : quicrq_uni_stream_ctx_t) (space current_time : Z)
  : option (connection * Z) :=
  id ← us_control u;
  k ← find_stream n id;
  '(source, m, c) ← publisher_of (view qr n k);
  '(u, s, m, cg, ret, calls, deleted) ←
    quicrq_prepare_to_send_on_unistream (qr_congestion_control_mode qr) c (k_stream k) m
      (cx_congestion (n_cnx n)) u space current_time;
  let k := k_set_media (k_set_stream k s) (publishing source m) in
  let n := n_set_streams n (update_stream k (n_streams n)) in
  let n := n_set_cnx n (cx_set_congestion (n_cnx n) cg) in
  Some (n_call (put_uni n (us_stream_id u) u deleted) calls, ret).

Inductive pico_event :=
  | picoquic_callback_stream_data (bytes : list Z)
  | picoquic_callback_stream_fin (bytes : list Z)
  | picoquic_callback_prepare_to_send (space : Z)
  | picoquic_callback_datagram (bytes : list Z)
  | picoquic_callback_prepare_datagram (space : Z)
  | picoquic_callback_ack_nack (event : datagram_event) (bytes : option (list Z))
  | picoquic_callback_ignored.

Definition uni_of n (stream_id : Z) : option quicrq_uni_stream_ctx_t :=
  List.find (has_id stream_id) (cx_uni_streams (n_cnx n)).

Definition receive_stream_event qr n (stream_id : Z) (bytes : list Z) (is_fin : bool)
  : option (quicrq_ctx_t * connection * Z) :=
  if Z.land stream_id 2 =? 0 then
    match quicrq_find_or_create_stream n stream_id true with
    | (n, Some k) =>
        '(w, ret, deleted) ←
          quicrq_receive_stream_data default_source_fn consumer_media_init_fn
            manage_relay_subscribe_fn (view qr n k) bytes is_fin;
        Some (w_qr w, put_view n k w deleted, ret)
    | (n, None) => Some (qr, n_call n [picoquic_reset_stream stream_id], -1)
    end
  else
    match quicrq_find_or_create_uni_stream stream_id (cx_uni_streams (n_cnx n)) None true with
    | Some us =>
        let n := n_set_cnx n (cx_set_uni (n_cnx n) us) in
        u ← uni_of n stream_id;
        '(n, ret) ← receive_on_unistream n u bytes is_fin;
        Some (qr, n, ret)
    | None => Some (qr, n_call n [picoquic_reset_stream stream_id], -1)
    end.

Definition prepare_stream_event qr n (stream_id space current_time : Z)
  : option (quicrq_ctx_t * connection * Z) :=
  if Z.land stream_id 2 =? 0 then
    match find_stream n stream_id with
    | Some k =>
        '(w, ret, deleted) ← quicrq_prepare_to_send_on_stream (view qr n k) space current_time;
        Some (w_qr w, put_view n k w deleted, ret)
    | None => Some (qr, n, -1)
    end
  else
    match uni_of n stream_id with
    | Some u => '(n, ret) ← prepare_on_unistream qr n u space current_time; Some (qr, n, ret)
    | None => Some (qr, n, -1)
    end.

Definition ack_event (extra : extra_settings) qr n (stream_id : Z) (event : datagram_event)
    (bytes : option (list Z)) (current_time : Z) : option (quicrq_ctx_t * connection * Z) :=
  let stream k := {| ds_is_sender := st_is_sender (k_stream k);
                     ds_transport_mode := st_transport_mode (k_stream k); ds_ack := ack_of k |} in
  '(ds, ret) ← quicrq_handle_datagram_ack_nack extra true (map stream (n_streams n)) event stream_id
                 bytes current_time;
  Some (qr, n_set_streams n (zip_with (fun k d => k_set_ack k (ds_ack d)) (n_streams n) ds), ret).

(** The stream context that picoquic has for a stream is the one with its
    identifier, if there is one.  The close events end with
    [quicrq_delete_cnx_context false]. *)
Definition quicrq_callback (extra : extra_settings) qr n (stream_id : Z) (fin_or_event : pico_event)
    (current_time : Z) : option (quicrq_ctx_t * connection * Z * option (list Z)) :=
  let no_datagram (r : option (quicrq_ctx_t * connection * Z)) :=
    '(qr, n, ret) ← r; Some (qr, n, ret, None) in
  match fin_or_event with
  | picoquic_callback_stream_data bytes =>
      no_datagram (receive_stream_event qr n stream_id bytes false)
  | picoquic_callback_stream_fin bytes =>
      no_datagram (receive_stream_event qr n stream_id bytes true)
  | picoquic_callback_prepare_to_send space =>
      no_datagram (prepare_stream_event qr n stream_id space current_time)
  | picoquic_callback_datagram bytes => no_datagram (quicrq_receive_datagram qr n bytes)
  | picoquic_callback_prepare_datagram space =>
      '(n, ret, datagram) ← quicrq_prepare_to_send_datagram extra qr n space current_time;
      Some (qr, n, ret, datagram)
  | picoquic_callback_ack_nack event bytes =>
      no_datagram (ack_event extra qr n stream_id event bytes current_time)
  | picoquic_callback_ignored => Some (qr, n, 0, None)
  end.

End connection.
