(* ===== verification/ObjectConsumer.v ===== *)
(** * lib/object_consumer.c: the consumer of objects

    The bridge between the fragments that a control stream receives and the
    application, that receives objects: fragments go through the reassembly
    (Reassembly.v), and the objects are given to the application in the order
    that it asked for. *)

From S2P Require Import Prelude Picosplay Reassembly StreamContext.

Inductive quicrq_subscribe_order_enum :=
  | quicrq_subscribe_out_of_order
  | quicrq_subscribe_in_order
  | quicrq_subscribe_in_order_skip_to_group_ahead.

(** A call of [object_stream_consumer_fn]: an object, or the end. *)
Inductive object_call :=
  | object_ready (group_id object_id : Z) (data : list Z) (flags : Z)
  | object_close.

Section bridge.
Context `{Sr : Splay (Z * Z) quicrq_object_node_compare} {Al : Allocator}.
Context {App : Type} (object_stream_consumer_fn : App -> object_call -> App * Z).
Context (order_required : quicrq_subscribe_order_enum).

(** The expectation point, the start point of the control stream, and the
    application.  The reassembly context is separate, since the reassembly
    calls the bridge. *)
Record bridge_state := {
  br_next_group_id : Z;
  br_next_object_id : Z;
  br_start_group_id : Z;
  br_start_object_id : Z;
  br_app : App;
}.
Definition br_set_next (b : bridge_state) g o : bridge_state := {|
  br_next_group_id := g; br_next_object_id := o; br_start_group_id := br_start_group_id b;
  br_start_object_id := br_start_object_id b; br_app := br_app b |}.
Definition br_set_start (b : bridge_state) g o : bridge_state := {|
  br_next_group_id := br_next_group_id b; br_next_object_id := br_next_object_id b;
  br_start_group_id := g; br_start_object_id := o; br_app := br_app b |}.
Definition br_set_app (b : bridge_state) a : bridge_state := {|
  br_next_group_id := br_next_group_id b; br_next_object_id := br_next_object_id b;
  br_start_group_id := br_start_group_id b; br_start_object_id := br_start_object_id b;
  br_app := a |}.

(** ** Jumping to a group *)

(** Placeholders, with the flags 255, for the next [n] objects of the group. *)
Fixpoint skip_objects (n : nat) (b : bridge_state) : bridge_state :=
  match n with
  | O => b
  | S n' =>
      let '(a, _) := object_stream_consumer_fn (br_app b)
                       (object_ready (br_next_group_id b) (br_next_object_id b) [] 255) in
      skip_objects n' (br_set_next (br_set_app b a) (br_next_group_id b) (br_next_object_id b +64 1))
  end.

(** The limit of the group: its number of objects or, if it is not known, the
    next object, and one object at least. *)
Definition object_id_limit ctx (b : bridge_state) : Z :=
  let count := quicrq_reassembly_get_object_count ctx (br_next_group_id b) in
  if count =? 0 then if br_next_object_id b =? 0 then 1 else br_next_object_id b
  else count.

(** The next [n] groups are skipped. *)
Fixpoint skip_groups (n : nat) ctx (b : bridge_state) : bridge_state :=
  match n with
  | O => b
  | S n' =>
      let b := skip_objects (Z.to_nat (object_id_limit ctx b - br_next_object_id b)) b in
      skip_groups n' ctx (br_set_next b (br_next_group_id b +64 1) 0)
  end.

Definition jump_to_group ctx (b : bridge_state) (group_id : Z) : bridge_state :=
  let b := if (br_next_group_id b =? 0) && (br_next_object_id b =? 0)
           then br_set_next b (br_start_group_id b) (br_start_object_id b) else b in
  skip_groups (Z.to_nat (group_id - br_next_group_id b)) ctx b.

(** ** The objects that the reassembly gives *)

(** The bridge after the jump, if any, and whether the object is ignored. *)
Definition accept_object ctx (b : bridge_state) (e : ready_event) : bridge_state * bool :=
  let is_peek := bool_decide (re_mode e = quicrq_reassembly_object_peek) in
  match order_required with
  | quicrq_subscribe_out_of_order =>
      (b, bool_decide (re_mode e = quicrq_reassembly_object_repair))
  | quicrq_subscribe_in_order => (b, is_peek)
  | quicrq_subscribe_in_order_skip_to_group_ahead =>
      if pair_ltb (re_group_id e) (re_object_id e) (br_next_group_id b) (br_next_object_id b)
      then (b, true)   (* Late arrival, already delivered. *)
      else if is_peek then
        if (br_next_group_id b <? re_group_id e) && (re_object_id e =? 0)
        then (jump_to_group ctx b (re_group_id e), false)
        else (b, negb ((re_group_id e =? br_next_group_id b) &&
                       (re_object_id e =? br_next_object_id b)))
      else (b, false)
  end.

Definition quicrq_media_object_bridge_ready ctx (b : bridge_state) (e : ready_event)
  : bridge_state * Z :=
  let '(b, ignore) := accept_object ctx b e in
  if ignore then (b, 0)
  else
    let b := br_set_next b (re_group_id e) (re_object_id e +64 1) in
    let '(a, ret) := object_stream_consumer_fn (br_app b)
                       (object_ready (re_group_id e) (re_object_id e)
                          (ztake (re_data_length e) (re_data e)) (re_flags e)) in
    (br_set_app b a, ret).

(** ** The calls of the control stream *)

Record quicrq_object_stream_consumer_ctx := {
  bc_reassembly : quicrq_reassembly_context_t;
  bc_bridge : bridge_state;
}.

Definition finished_or (ctx : quicrq_reassembly_context_t) (ret : Z) : Z :=
  if (ret =? 0) && rc_is_finished ctx then quicrq_consumer_finished else ret.

(** [None] is undefined behaviour in the reassembly.  The stream sets its start
    point just before it gives it to the consumer. *)
Definition quicrq_media_object_bridge_fn (current_time : Z) (x : quicrq_object_stream_consumer_ctx)
    (action : consumer_call) : option (quicrq_object_stream_consumer_ctx * Z) :=
  let ctx := bc_reassembly x in
  let b := bc_bridge x in
  match action with
  | quicrq_media_datagram_ready data group_id object_id offset queue_delay flags
      nb_objects_previous_group object_length data_length =>
      '(ctx, b, ret) ←
        quicrq_reassembly_input quicrq_media_object_bridge_ready ctx current_time data group_id
          object_id offset queue_delay flags nb_objects_previous_group object_length data_length b;
      Some ({| bc_reassembly := ctx; bc_bridge := b |}, finished_or ctx ret)
  | quicrq_media_final_object_id group_id object_id =>
      let '(ctx, ret) := quicrq_reassembly_learn_final_object_id ctx group_id object_id in
      Some ({| bc_reassembly := ctx; bc_bridge := b |}, finished_or ctx ret)
  | quicrq_media_real_time_cache => Some (x, 0)
  | quicrq_media_start_point group_id object_id _ =>
      '(ctx, b, ret) ←
        quicrq_reassembly_learn_start_point quicrq_media_object_bridge_ready ctx group_id object_id
          current_time (br_set_start b group_id object_id);
      Some ({| bc_reassembly := ctx; bc_bridge := b |}, finished_or ctx ret)
  | quicrq_media_close _ _ =>
      let '(a, ret) := object_stream_consumer_fn (br_app b) object_close in
      Some ({| bc_reassembly := quicrq_reassembly_release ctx; bc_bridge := br_set_app b a |}, ret)
  end.

(** [quicrq_subscribe_object_stream] sets it as the consumer of a new stream. *)
Definition bridge_start (a : App) : quicrq_object_stream_consumer_ctx := {|
  bc_reassembly := quicrq_reassembly_init;
  bc_bridge := {| br_next_group_id := 0; br_next_object_id := 0; br_start_group_id := 0;
                  br_start_object_id := 0; br_app := a |} |}.

End bridge.
