(* ===== verification/Subscription.v ===== *)
(** * lib/object_consumer.c: the subscriptions of objects

    How an application opens and closes the stream of a media: the bridge of
    ObjectConsumer.v is set as the consumer of a new control stream of the
    connection (Connection.v); [order_required] is its parameter.  [None] stands
    for undefined behaviour. *)

From S2P Require Import Prelude Picosplay PicoFrames Proto Fragment PublisherContext Congestion Ack.
From S2P Require Import Reassembly MsgBuffer StreamContext Warp ControlStream Connection ObjectConsumer.

Definition sizeof_object_stream_consumer_ctx : Z := 224.

Section subscription.
Context `{Sp : Splay quicrq_cached_fragment_t quicrq_fragment_cache_node_compare}.
Context {So : Splay okey quicrq_fragment_publisher_object_node_compare}.
Context {Sa : Splay akey quicrq_datagram_ack_node_compare}.
Context {Sr : Splay (Z * Z) quicrq_object_node_compare}.
Context {Al : Allocator} {PF : PicoFrames} {App : Type}.
Abbreviation bridge := (quicrq_object_stream_consumer_ctx (App := App)).
Abbreviation client := (connection (So := So) (CS := option bridge)).
Implicit Types n : client.

(** The stream of the subscription, [None] if there is none.  [stream_id] is
    [picoquic_get_next_local_stream_id(cnx, 0)], and [a] the application. *)
Definition quicrq_subscribe_object_stream n (stream_id : Z) (url : list Z)
    (transport_mode : quicrq_transport_mode_enum) (intent : option quicrq_subscribe_intent_t) (a : App)
  : client * option Z :=
  if malloc_ok sizeof_object_stream_consumer_ctx then
    let '(n, ret) := quicrq_cnx_subscribe_media_ex n stream_id url transport_mode intent
                       (Some (bridge_start a)) in
    (n, if ret =? 0 then Some stream_id else None)
  else (n, None).

(** The end of the stream calls the consumer, which frees the bridge; its
    fields are then reset. *)
Definition quicrq_unsubscribe_object_stream `{Co : Consumer (option bridge)} qr n (k : control (So := So))
  : option (quicrq_ctx_t * client) :=
  let s := k_stream k in
  let s := if bool_decide (st_close_reason s = quicrq_media_close_reason_unknown)
           then st_set_close_reason s quicrq_media_close_local_application else s in
  w ← quicrq_delete_stream_ctx true (view qr n (k_set_stream k s));
  match k_media k with
  | consuming (Some _) => None
  | _ => Some (w_qr w, put_view n k w true)
  end.
End subscription.
