(* ===== verification/ObjectSource.v ===== *)
(** * lib/object_source.c: the source of objects

    The application publishes a media object by object; each one is put whole
    in the cache of a source.  The registration of the source in the quicrq
    context is [quicrq_publish_datagram_source] (Node.v). *)

From S2P Require Import Prelude Picosplay Fragment.

Section source.
Context `{Sp : Splay quicrq_cached_fragment_t quicrq_fragment_cache_node_compare} {Al : Allocator}.

Record quicrq_media_object_source_properties_t := {
  use_real_time_caching : bool;
  start_group_id : Z;
  start_object_id : Z;
}.

Record quicrq_media_object_source_ctx_t := {
  os_cache : quicrq_fragment_cache_t;
  os_next_group_id : Z;
  os_next_object_id : Z;
}.

(** The source context once the source was published, with the start point of
    its properties. *)
Definition quicrq_publish_object_source (properties : option quicrq_media_object_source_properties_t)
  : quicrq_media_object_source_ctx_t :=
  let start := match properties with
               | Some p => (start_group_id p, start_object_id p)
               | None => (0, 0)
               end in
  let c := quicrq_fragment_cache_create_ctx in
  if negb (start.1 =? 0) || negb (start.2 =? 0) then
    let c := learn_start_point c start.1 start.2 in
    if pair_ltb 0 0 start.1 start.2
    then {| os_cache := c; os_next_group_id := start.1; os_next_object_id := start.2 |}
    else {| os_cache := c; os_next_group_id := 0; os_next_object_id := 0 |}
  else {| os_cache := c; os_next_group_id := 0; os_next_object_id := 0 |}.

(** The progression of the identifiers: the next group and object, and the
    number of objects of the previous group, if the object is the next one. *)
Definition next_published (src : quicrq_media_object_source_ctx_t) (group_id object_id : Z)
  : option (Z * Z * Z) :=
  let g := os_next_group_id src in
  let o := os_next_object_id src in
  if negb (group_id =? g) then
    if negb (group_id =? g +64 1) || negb (object_id =? 0) || (o =? 0) then None
    else Some (g +64 1, 0, o)
  else if negb (object_id =? o) then None
  else Some (g, o, 0).

(** The source, [ret], and whether the streams of the source are woken up;
    [None] is undefined behaviour in the cache. *)
Definition quicrq_publish_object (src : quicrq_media_object_source_ctx_t) (object_data : list Z)
    (flags group_id object_id current_time : Z)
  : option (quicrq_media_object_source_ctx_t * Z * bool) :=
  match next_published src group_id object_id with
  | None => Some (src, -1, false)
  | Some (g, o, nb_objects_previous_group) =>
      '(c, ret, wake) ←
        quicrq_fragment_propose_to_cache (os_cache src) object_data g o 0 0 flags
          nb_objects_previous_group (blen object_data) (blen object_data) current_time;
      Some ({| os_cache := c; os_next_group_id := g;
               os_next_object_id := if ret =? 0 then o +64 1 else o |}, ret, wake)
  end.

(** The final point is the next object. *)
Definition quicrq_publish_object_fin (src : quicrq_media_object_source_ctx_t)
  : quicrq_media_object_source_ctx_t := {|
  os_cache := learn_end_point (os_cache src) (os_next_group_id src) (os_next_object_id src);
  os_next_group_id := os_next_group_id src; os_next_object_id := os_next_object_id src |}.

End source.
