(* ===== verification/Node.v ===== *)
(** * lib/quicrq.c, lib/proto.c, lib/fragment.c, lib/object_source.c: a node

    A quicrq context with its connections: what concerns a source and all the
    streams that subscribe to it, from any connection (wake up, start point,
    cache policy, notifications, publication, purge), the sources of objects
    that the application publishes, the creation and the end of the
    connections, and the periodic check.

    A source or a connection is designated by its address; [None] stands for
    undefined behaviour: a null or dangling pointer is followed. *)

From S2P Require Import Prelude Picosplay PicoFrames Proto Fragment PublisherContext Congestion Ack.
From S2P Require Import MsgBuffer StreamContext Warp ControlStream Connection ObjectSource.

Definition sizeof_fragment_cache : Z := 184.
Definition sizeof_cnx_ctx : Z := 264.
Definition sizeof_object_source : Z := 80.

Section node.
Context `{Sp : Splay quicrq_cached_fragment_t quicrq_fragment_cache_node_compare}.
Context {So : Splay okey quicrq_fragment_publisher_object_node_compare}.
Context {Sa : Splay akey quicrq_datagram_ack_node_compare}.
Context {Al : Allocator} {PF : PicoFrames} {PS : PicoStream} {PI : PicoStreamIds} {PQ : PicoQueue}.
Context {CS : Type} `{Co : Consumer CS}.

(** ** State *)

(** A source of objects of the application: its address, the address of its
    source, and the identifiers of its next object. *)
Record object_source := {
  oj_id : Z;
  oj_source : Z;
  oj_next_group_id : Z;
  oj_next_object_id : Z;
}.

(** [nd_next] is the address of the next connection or source of objects. *)
Record node := {
  nd_qr : quicrq_ctx_t;
  nd_cnxs : list (connection (CS := CS));
  nd_object_sources : list object_source;
  nd_next : Z;
}.
Implicit Types nd : node.
Definition nd_set_qr nd qr : node := {| nd_qr := qr; nd_cnxs := nd_cnxs nd;
  nd_object_sources := nd_object_sources nd; nd_next := nd_next nd |}.
Definition nd_set_cnxs nd ns next : node := {| nd_qr := nd_qr nd; nd_cnxs := ns;
  nd_object_sources := nd_object_sources nd; nd_next := next |}.
Definition nd_set_object_sources nd js next : node := {| nd_qr := nd_qr nd; nd_cnxs := nd_cnxs nd;
  nd_object_sources := js; nd_next := next |}.

Definition cnx_id (n : connection (CS := CS)) : Z := cx_id (n_cnx n).
Definition find_cnx nd (id : Z) : option (connection (CS := CS)) :=
  List.find (fun n => cnx_id n =? id) (nd_cnxs nd).
Definition update_cnx nd (n : connection) : node :=
  nd_set_cnxs nd (map (fun x => if cnx_id x =? cnx_id n then n else x) (nd_cnxs nd)) (nd_next nd).
Definition set_cache nd (src : quicrq_media_source_ctx_t) c : node :=
  nd_set_qr nd (update_source (nd_qr nd) {| ms_id := ms_id src; ms_media_url := ms_media_url src;
    ms_cache := c; ms_is_local_object_source := ms_is_local_object_source src;
    ms_is_cache_real_time := ms_is_cache_real_time src; ms_streams := ms_streams src |}).

(** ** The streams of a source *)

(** A function is applied to a stream, designated as in the chain of its
    source. *)
Definition with_stream (f : stream_world (CS := CS) -> option stream_world) nd (ref : Z * Z)
  : option node :=
  n ← find_cnx nd ref.1;
  k ← find_stream n ref.2;
  w ← f (view (nd_qr nd) n k);
  Some (update_cnx (nd_set_qr nd (w_qr w)) (put_view n k w false)).

Fixpoint for_streams (f : stream_world (CS := CS) -> option stream_world) nd (refs : list (Z * Z))
  : option node :=
  match refs with
  | [] => Some nd
  | ref :: refs => nd ← with_stream f nd ref; for_streams f nd refs
  end.

Definition quicrq_source_wakeup nd (id : Z) : option node :=
  src ← find_source (nd_qr nd) id;
  for_streams quicrq_wakeup_media_stream nd (ms_streams src).

(** What a change of the cache leaves: the streams are woken up, or not. *)
Definition store_cache nd (src : quicrq_media_source_ctx_t) c (wake : bool) : option node :=
  let nd := set_cache nd src c in
  if wake then quicrq_source_wakeup nd (ms_id src) else Some nd.

(** [quicrq_fragment_propose_to_cache] on the cache of a source. *)
Definition propose_to_source nd (id : Z) (data : list Z) (group_id object_id offset queue_delay flags
    nb_objects_previous_group object_length data_length current_time : Z) : option (node * Z) :=
  src ← find_source (nd_qr nd) id;
  '(c, ret, wake) ←
    quicrq_fragment_propose_to_cache (ms_cache src) data group_id object_id offset queue_delay flags
      nb_objects_previous_group object_length data_length current_time;
  nd ← store_cache nd src c wake;
  Some (nd, ret).

(** The streams are those of connections of the node, which have their picoquic
    connection: it is only reset when the connection is deleted. *)
Definition quicrq_fragment_cache_learn_start_point nd (id start_group_id start_object_id : Z)
  : option (node * Z) :=
  src ← find_source (nd_qr nd) id;
  let nd := set_cache nd src (learn_start_point (ms_cache src) start_group_id start_object_id) in
  nd ← for_streams (fun w => Some (w_mark_active
         (w_set_stream w (st_set_start (w_stream w) start_group_id start_object_id)) true))
         nd (ms_streams src);
  Some (nd, 0).

Definition quicrq_fragment_cache_learn_end_point nd (id final_group_id final_object_id : Z)
  : option (node * Z) :=
  src ← find_source (nd_qr nd) id;
  nd ← store_cache nd src (learn_end_point (ms_cache src) final_group_id final_object_id) true;
  Some (nd, 0).

(** The streams take the policy until [picoquic_mark_active_stream] fails. *)
Context (picoquic_mark_active_ret : Z * Z -> Z).

Fixpoint policy_loop nd (refs : list (Z * Z)) : option (node * Z) :=
  match refs with
  | [] => Some (nd, 0)
  | ref :: refs =>
      nd ← with_stream (fun w =>
             Some (w_mark_active (w_set_stream w (st_set_cache_real_time (w_stream w) true)) true))
             nd ref;
      let ret := picoquic_mark_active_ret ref in
      if ret =? 0 then policy_loop nd refs else Some (nd, ret)
  end.

Definition quicrq_fragment_cache_set_real_time_cache nd (id : Z) : option (node * Z) :=
  src ← find_source (nd_qr nd) id;
  let src' := {| ms_id := ms_id src; ms_media_url := ms_media_url src; ms_cache := ms_cache src;
                 ms_is_local_object_source := ms_is_local_object_source src;
                 ms_is_cache_real_time := true; ms_streams := ms_streams src |} in
  policy_loop (nd_set_qr nd (update_source (nd_qr nd) src')) (ms_streams src).

(** The readers of a source: the group of the first object that each of its
    streams is sending as datagrams. *)
Fixpoint readers_of nd (refs : list (Z * Z)) : option (list (option Z)) :=
  match refs with
  | [] => Some []
  | ref :: refs =>
      n ← find_cnx nd ref.1;
      k ← find_stream n ref.2;
      '(_, m, _) ← publisher_of (view (nd_qr nd) n k);
      readers ← readers_of nd refs;
      Some (option_map fst (splay_first (pc_tree m)) :: readers)
  end.

Definition quicrq_fragment_cache_media_purge_to_gob nd (src : quicrq_media_source_ctx_t)
  : option node :=
  readers ← readers_of nd (ms_streams src);
  Some (set_cache nd src (purge_to_gob (ms_cache src) readers)).

(** ** Publication *)

(** The connections, while no notification fails. *)
Fixpoint notify_connections nd (ids : list Z) (url : list Z) : option (node * Z) :=
  match ids with
  | [] => Some (nd, 0)
  | id :: ids =>
      n ← find_cnx nd id;
      '(qr, n, ret) ← notify_loop (nd_qr nd) n (map k_id (n_streams n)) url 0;
      let nd := update_cnx (nd_set_qr nd qr) n in
      if ret =? 0 then notify_connections nd ids url else Some (nd, ret)
  end.

Definition quicrq_notify_url_to_all nd (url : list Z) : option (node * Z) :=
  notify_connections nd (map cnx_id (nd_cnxs nd)) url.

(** The streams that subscribe to the source keep their pointers to it. *)
Definition quicrq_delete_source (qr : quicrq_ctx_t) (id : Z) : quicrq_ctx_t :=
  qr_set_sources qr (List.filter (fun src => negb (ms_id src =? id)) (qr_sources qr))
    (qr_next_source qr).

(** The address of the source that was published, if any. *)
Definition quicrq_publish_datagram_source nd (url : list Z) (cache : quicrq_fragment_cache_t)
    (is_local_object_source is_cache_real_time : bool) : option (node * option Z) :=
  let source_ctx_size := sizeof_media_source +64 blen url in
  if (sizeof_media_source <=? source_ctx_size) && malloc_ok source_ctx_size then
    let qr := nd_qr nd in
    let id := qr_next_source qr in
    let src := {| ms_id := id; ms_media_url := url; ms_cache := cache;
                  ms_is_local_object_source := is_local_object_source;
                  ms_is_cache_real_time := is_cache_real_time; ms_streams := [] |} in
    '(nd, ret) ←
      quicrq_notify_url_to_all (nd_set_qr nd (qr_set_sources qr (qr_sources qr ++ [src]) (id + 1))) url;
    Some (if ret <? 0 then (nd_set_qr nd (quicrq_delete_source (nd_qr nd) id), None) else (nd, Some id))
  else Some (nd, None).

(** [ret], and the source of the cache ([srce_ctx]). *)
Definition quicrq_publish_fragment_cached_media nd (cache : quicrq_fragment_cache_t) (url : list Z)
    (is_local_object_source is_cache_real_time : bool) : option (node * Z * option Z) :=
  '(nd, id) ← quicrq_publish_datagram_source nd url cache is_local_object_source is_cache_real_time;
  Some (nd, match id with Some _ => 0 | None => -1 end, id).

(** ** Sources of objects *)

Definition find_object_source nd (id : Z) : option object_source :=
  List.find (fun j => oj_id j =? id) (nd_object_sources nd).

(** [quicrq_publish_object_source]: the source of objects that was created, if
    any, with the start point of its properties. *)
Definition publish_object_source nd (url : list Z)
    (properties : option quicrq_media_object_source_properties_t) : option (node * option Z) :=
  if malloc_ok sizeof_object_source && malloc_ok sizeof_fragment_cache then
    let local := quicrq_publish_object_source properties in
    let real_time := match properties with Some p => use_real_time_caching p | None => false end in
    '(nd, ret, id) ←
      quicrq_publish_fragment_cached_media nd quicrq_fragment_cache_create_ctx url true real_time;
    match id with
    | None => Some (nd, None)
    | Some id =>
        '(nd, _) ← (match properties with
                    | Some p =>
                        if negb (start_group_id p =? 0) || negb (start_object_id p =? 0)
                        then quicrq_fragment_cache_learn_start_point nd id (start_group_id p)
                               (start_object_id p)
                        else Some (nd, 0)
                    | None => Some (nd, 0)
                    end);
        let j := {| oj_id := nd_next nd; oj_source := id; oj_next_group_id := os_next_group_id local;
                    oj_next_object_id := os_next_object_id local |} in
        Some (nd_set_object_sources nd (nd_object_sources nd ++ [j]) (nd_next nd + 1), Some (oj_id j))
    end
  else Some (nd, None).

(** The context of a source of objects, with its cache, and back. *)
Definition object_source_view nd (j : object_source) : option quicrq_media_object_source_ctx_t :=
  src ← find_source (nd_qr nd) (oj_source j);
  Some {| os_cache := ms_cache src; os_next_group_id := oj_next_group_id j;
          os_next_object_id := oj_next_object_id j |}.
Definition put_object_source nd (j : object_source) (s : quicrq_media_object_source_ctx_t)
    (wake : bool) : option node :=
  src ← find_source (nd_qr nd) (oj_source j);
  let j' := {| oj_id := oj_id j; oj_source := oj_source j; oj_next_group_id := os_next_group_id s;
               oj_next_object_id := os_next_object_id s |} in
  let js := map (fun x => if oj_id x =? oj_id j then j' else x) (nd_object_sources nd) in
  store_cache (nd_set_object_sources nd js (nd_next nd)) src (os_cache s) wake.

(** [quicrq_publish_object] and [quicrq_publish_object_fin]. *)
Definition publish_object nd (id : Z) (object_data : list Z) (flags group_id object_id now : Z)
  : option (node * Z) :=
  j ← find_object_source nd id;
  s ← object_source_view nd j;
  '(s, ret, wake) ← quicrq_publish_object s object_data flags group_id object_id now;
  nd ← put_object_source nd j s wake;
  Some (nd, ret).

Definition publish_object_fin nd (id : Z) : option node :=
  j ← find_object_source nd id;
  s ← object_source_view nd j;
  put_object_source nd j (quicrq_publish_object_fin s) true.

Definition quicrq_delete_object_source nd (j : object_source) : node :=
  let nd := nd_set_qr nd (quicrq_delete_source (nd_qr nd) (oj_source j)) in
  nd_set_object_sources nd (List.filter (fun x => negb (oj_id x =? oj_id j)) (nd_object_sources nd))
    (nd_next nd).

(** ** Connections *)

Definition cnx_zero (id : Z) (is_server : bool) : quicrq_cnx_ctx_t := {|
  cx_id := id; cx_is_server := is_server; cx_congestion := congestion_zero; cx_next_media_id := 0;
  cx_next_abandon_datagram_id := 0; cx_uni_streams := []; cx_calls := [] |}.

(** A connection made by [quicrq_callback] is marked as a server connection. *)
Definition quicrq_create_cnx_context nd (is_server : bool) : node * option Z :=
  if malloc_ok sizeof_cnx_ctx then
    let id := nd_next nd in
    (nd_set_cnxs nd (nd_cnxs nd ++ [{| n_cnx := cnx_zero id is_server; n_streams := [] |}]) (id + 1),
     Some id)
  else (nd, None).

(** [picoquic_ok]: picoquic creates and starts the connection.  The context is
    written to before it is tested. *)
Definition quicrq_create_client_cnx nd (picoquic_ok : bool) : option (node * option Z) :=
  if picoquic_ok then
    match quicrq_create_cnx_context nd false with
    | (nd, Some id) => Some (nd, Some id)
    | (_, None) => None
    end
  else Some (nd, None).

Definition quicrq_first_connection nd : option Z := option_map cnx_id (head (nd_cnxs nd)).

(** The calls to picoquic of the connection are the result. *)
Definition delete_cnx (connected : bool) nd (id : Z) (close_reason : quicrq_media_close_reason_enum)
  : option (node * list pico_call) :=
  n ← find_cnx nd id;
  '(qr, calls, _) ← quicrq_delete_cnx_context connected (nd_qr nd) n close_reason;
  let ns := List.filter (fun x => negb (cnx_id x =? id)) (nd_cnxs nd) in
  Some (nd_set_cnxs (nd_set_qr nd qr) ns (nd_next nd), calls).

Fixpoint delete_cnxs nd (ids : list Z) : option (node * list (list pico_call)) :=
  match ids with
  | [] => Some (nd, [])
  | id :: ids =>
      '(nd, calls) ← delete_cnx true nd id quicrq_media_close_delete_context;
      '(nd, rest) ← delete_cnxs nd ids;
      Some (nd, calls :: rest)
  end.

(** The connections, the sources of objects, then the other sources; the
    context is then freed. *)
Definition quicrq_delete nd : option (node * list (list pico_call)) :=
  '(nd, calls) ← delete_cnxs nd (map cnx_id (nd_cnxs nd));
  let nd := fold_left quicrq_delete_object_source (nd_object_sources nd) nd in
  let qr := fold_left (fun qr src => quicrq_delete_source qr (ms_id src)) (qr_sources (nd_qr nd))
              (nd_qr nd) in
  Some (nd_set_qr nd qr, calls).

(** ** The periodic check *)

Definition quicrq_set_cache_duration nd (cache_duration_max : Z) : node :=
  let qr := nd_qr nd in
  nd_set_qr nd {| qr_sources := qr_sources qr; qr_next_source := qr_next_source qr;
    qr_cache_duration_max := cache_duration_max;
    qr_cache_check_next_time := qr_cache_check_next_time qr;
    qr_is_cache_closing_needed := qr_is_cache_closing_needed qr;
    qr_useless_fragments := qr_useless_fragments qr;
    qr_congestion_control_mode := qr_congestion_control_mode qr |}.

(** The mode is kept if it is one of the enumeration. *)
Definition quicrq_enable_congestion_control nd (mode : option quicrq_congestion_control_enum) : node :=
  let qr := nd_qr nd in
  nd_set_qr nd {| qr_sources := qr_sources qr; qr_next_source := qr_next_source qr;
    qr_cache_duration_max := qr_cache_duration_max qr;
    qr_cache_check_next_time := qr_cache_check_next_time qr;
    qr_is_cache_closing_needed := qr_is_cache_closing_needed qr;
    qr_useless_fragments := qr_useless_fragments qr;
    qr_congestion_control_mode := default quicrq_congestion_control_delay mode |}.

(** The repeats of the datagrams, on all the streams. *)
Definition extra_repeat nd (extra : extra_settings) (current_time : Z) : option (node * Z) :=
  '(cnxs, next_time) ←
    quicrq_handle_extra_repeat extra (map (fun n => (true, map ack_of (n_streams n))) (nd_cnxs nd))
      current_time;
  let put (n : connection) (x : bool * list quicrq_datagram_ack_ctx_t) : connection :=
    n_set_streams n (zip_with k_set_ack (n_streams n) x.2) in
  Some (nd_set_cnxs nd (zip_with put (nd_cnxs nd) cnxs) (nd_next nd), next_time).

(** [cache_check_next_time] when it is due. *)
Definition set_check_time (qr : quicrq_ctx_t) (time : Z) : quicrq_ctx_t := {|
  qr_sources := qr_sources qr; qr_next_source := qr_next_source qr;
  qr_cache_duration_max := qr_cache_duration_max qr; qr_cache_check_next_time := time;
  qr_is_cache_closing_needed := qr_is_cache_closing_needed qr;
  qr_useless_fragments := qr_useless_fragments qr;
  qr_congestion_control_mode := qr_congestion_control_mode qr |}.

(** The time of the next check of the cache, and whether it is due now. *)
Definition cache_check (qr : quicrq_ctx_t) (next_time current_time : Z) : quicrq_ctx_t * Z * bool :=
  if 0 <? qr_cache_duration_max qr then
    let due := qr_cache_check_next_time qr <=? current_time in
    let qr := if due then set_check_time qr (current_time +64 qr_cache_duration_max qr / 2) else qr in
    (qr, Z.min (qr_cache_check_next_time qr) next_time, due || qr_is_cache_closing_needed qr)
  else (qr, next_time, qr_is_cache_closing_needed qr).

(** [picoquic_next_wake_time] is [picoquic_get_next_wake_time] of the context,
    [manage_relay_cache_fn] is set for a relay. *)
Definition quicrq_time_check nd (extra : extra_settings) (picoquic_next_wake_time : Z)
    (manage_relay_cache_fn : option (node -> Z -> option (node * Z))) (current_time : Z)
  : option (node * Z) :=
  '(nd, extra_repeat_time) ← extra_repeat nd extra current_time;
  let quic_time := Z.min extra_repeat_time picoquic_next_wake_time in
  let next_time := Z.min quic_time UINT64_MAX in
  match manage_relay_cache_fn with
  | Some manage =>
      let '(qr, next_time, should_manage) := cache_check (nd_qr nd) next_time current_time in
      let nd := nd_set_qr nd qr in
      if should_manage then
        '(nd, manage_time) ← manage nd current_time;
        Some (nd, Z.min manage_time next_time)
      else Some (nd, next_time)
  | None => Some (nd, next_time)
  end.

End node.
