(* ===== verification/Relay.v ===== *)
(** * lib/relay.c: relays and origins

    A relay is a node that is at the same time a client of an origin server
    and a server.  What it receives of a media is put in the cache of a source
    ([quicrq_relay_consumer_cb]), from which the streams of its clients are
    fed; a media, or a pattern of urls, that is asked for and that it does not
    have is asked to the server; a media that is posted to it is posted to the
    server.  An origin does the same without a server.

    Contexts are designated by their addresses; [None] stands for undefined
    behaviour: a null or dangling pointer is followed. *)

From S2P Require Import Prelude Picosplay PicoFrames Proto Fragment PublisherContext Congestion Ack.
From S2P Require Import MsgBuffer StreamContext Warp ControlStream Connection ObjectSource Node.

Definition QUICRQ_CACHE_INITIAL_DURATION : Z := 30000000.
Definition sizeof_relay_consumer : Z := 16.
Definition sizeof_relay_ctx : Z := 168.

(** ** What a relay does of a media *)

Section cache.
Context `{Sp : Splay quicrq_cached_fragment_t quicrq_fragment_cache_node_compare} {Al : Allocator}.
Implicit Types c : quicrq_fragment_cache_t.

Definition fc_set_delete_time c time := {| fc_final_group_id := fc_final_group_id c;
  fc_final_object_id := fc_final_object_id c; fc_nb_object_received := fc_nb_object_received c;
  fc_subscribe_stream_id := fc_subscribe_stream_id c; fc_first_group_id := fc_first_group_id c;
  fc_first_object_id := fc_first_object_id c; fc_next_group_id := fc_next_group_id c;
  fc_next_object_id := fc_next_object_id c; fc_next_offset := fc_next_offset c;
  fc_highest_group_id := fc_highest_group_id c; fc_highest_object_id := fc_highest_object_id c;
  fc_fragments := fc_fragments c; fc_fragment_tree := fc_fragment_tree c;
  fc_lowest_flags := fc_lowest_flags c; fc_is_feed_closed := fc_is_feed_closed c;
  fc_cache_delete_time := time; fc_heap := fc_heap c |}.
Definition fc_set_subscribe_stream c id := {| fc_final_group_id := fc_final_group_id c;
  fc_final_object_id := fc_final_object_id c; fc_nb_object_received := fc_nb_object_received c;
  fc_subscribe_stream_id := id; fc_first_group_id := fc_first_group_id c;
  fc_first_object_id := fc_first_object_id c; fc_next_group_id := fc_next_group_id c;
  fc_next_object_id := fc_next_object_id c; fc_next_offset := fc_next_offset c;
  fc_highest_group_id := fc_highest_group_id c; fc_highest_object_id := fc_highest_object_id c;
  fc_fragments := fc_fragments c; fc_fragment_tree := fc_fragment_tree c;
  fc_lowest_flags := fc_lowest_flags c; fc_is_feed_closed := fc_is_feed_closed c;
  fc_cache_delete_time := fc_cache_delete_time c; fc_heap := fc_heap c |}.

(** The next object expected is the final one. *)
Definition feed_complete c : bool :=
  (fc_next_group_id c =? fc_final_group_id c) && (fc_next_object_id c =? fc_final_object_id c).
Definition finished_if (b : bool) (ret : Z) : Z :=
  if (ret =? 0) && b then quicrq_consumer_finished else ret.

(** The final point set when the feed is closed before it is known. *)
Definition close_point c : Z * Z :=
  if fc_next_offset c =? 0 then (fc_next_group_id c, fc_next_object_id c)
  else if 1 <? fc_next_object_id c then (fc_next_group_id c, fc_next_object_id c -64 1)
  else
    match splay_find_previous (fc_fragment_tree c) (fragment_key (fc_next_group_id c) 0 0) with
    | Some f => (cf_group_id f, cf_object_id f)
    | None => (fc_first_group_id c, fc_first_object_id c)
    end.

Definition close_feed c (cache_duration_max current_time : Z) : quicrq_fragment_cache_t :=
  let c :=
    if (fc_final_group_id c =? 0) && (fc_final_object_id c =? 0) then
      let p := close_point c in
      fc_set_final (fc_set_delete_time c
        (current_time +64 (if QUICRQ_CACHE_INITIAL_DURATION <? cache_duration_max
                           then cache_duration_max else QUICRQ_CACHE_INITIAL_DURATION))) p.1 p.2
    else c in
  fc_set_feed_closed c true.

(** The cache part of [quicrq_relay_consumer_cb]: the cache, [ret], and
    whether the streams of the source are woken up.  The start point and the
    cache policy are then set in these streams. *)
Definition relay_cache_action (cache_duration_max current_time : Z) c (action : consumer_call)
  : option (quicrq_fragment_cache_t * Z * bool) :=
  match action with
  | quicrq_media_datagram_ready data g o offset queue_delay flags nb object_length data_length =>
      '(c, ret, wake) ←
        quicrq_fragment_propose_to_cache c data g o offset queue_delay flags nb object_length
          data_length current_time;
      let known := (0 <? fc_final_group_id c) || (0 <? fc_final_object_id c) in
      Some (c, finished_if (known && feed_complete c) ret, wake)
  | quicrq_media_final_object_id g o =>
      let c := learn_end_point c g o in
      Some (c, finished_if (feed_complete c) 0, true)
  | quicrq_media_real_time_cache => Some (c, 0, false)
  | quicrq_media_start_point g o _ => Some (learn_start_point c g o, 0, false)
  | quicrq_media_close _ _ => Some (close_feed c cache_duration_max current_time, 0, true)
  end.
End cache.

(** ** The node of a relay *)

(** The address of the source of the cache, which is [NULL] if the cache could
    not be allocated. *)
Record quicrq_relay_consumer_context_t := { rc_cache_source : option Z }.

(** The name and the address of the server, which are only given to picoquic,
    are left out. *)
Record quicrq_relay_context_t := {
  ry_cnx : option Z;
  ry_transport_mode : quicrq_transport_mode_enum;
  ry_is_origin_only : bool;
}.

Inductive quicrq_subscribe_action_enum :=
  | quicrq_subscribe_action_subscribe
  | quicrq_subscribe_action_unsubscribe.

(** [quicrq_relay_consumer_init_callback] or
    [quicrq_origin_consumer_init_callback]. *)
Inductive consumer_init := relay_init | origin_init.

Section relay.
Context `{Sp : Splay quicrq_cached_fragment_t quicrq_fragment_cache_node_compare}.
Context {So : Splay okey quicrq_fragment_publisher_object_node_compare}.
Context {Sa : Splay akey quicrq_datagram_ack_node_compare}.
Context {Al : Allocator} {PF : PicoFrames} {PS : PicoStream} {PI : PicoStreamIds} {PQ : PicoQueue}.
Context {CS : Type} `{Co : Consumer CS}.
Context (picoquic_mark_active_ret : Z * Z -> Z).
(** A relay consumer, as the consumer of a stream. *)
Context (relay_consumer : quicrq_relay_consumer_context_t -> CS).
(** [picoquic_get_next_local_stream_id] of a connection, and whether picoquic
    creates and starts a connection to the server. *)
Context (next_stream_id : connection (CS := CS) -> Z) (picoquic_ok : bool).
Context (default_source_fn : option (quicrq_ctx_t -> list Z -> quicrq_ctx_t * Z)).
Implicit Types nd : node (CS := CS).

(** The callback of the stream that feeds a cache. *)
Definition quicrq_relay_consumer_cb nd (cons_ctx : quicrq_relay_consumer_context_t)
    (action : consumer_call) (current_time : Z) : option (node (CS := CS) * Z) :=
  id ← rc_cache_source cons_ctx;
  src ← find_source (nd_qr nd) id;
  match action with
  | quicrq_media_start_point g o _ => quicrq_fragment_cache_learn_start_point nd id g o
  | quicrq_media_real_time_cache =>
      quicrq_fragment_cache_set_real_time_cache picoquic_mark_active_ret nd id
  | _ =>
      '(c, ret, wake) ← relay_cache_action (qr_cache_duration_max (nd_qr nd)) current_time
                          (ms_cache src) action;
      nd ← store_cache nd src c wake;
      Some (nd, ret)
  end.

(** The relay context, and the functions set in the quicrq context: the context
    given to [quicrq_relay_default_source_fn] if it is the default source, the
    initialisation of consumers, and the management of the cache and of the
    subscriptions. *)
Record relay_node := {
  rn_node : node (CS := CS);
  rn_relay_ctx : option (Z * quicrq_relay_context_t);
  rn_default_source_ctx : option Z;
  rn_consumer_media_init : option consumer_init;
  rn_manage_relay_cache : bool;
  rn_manage_relay_subscribe : bool;
}.
Implicit Types rn : relay_node.
Definition rn_set_node rn nd : relay_node := {| rn_node := nd; rn_relay_ctx := rn_relay_ctx rn;
  rn_default_source_ctx := rn_default_source_ctx rn;
  rn_consumer_media_init := rn_consumer_media_init rn;
  rn_manage_relay_cache := rn_manage_relay_cache rn;
  rn_manage_relay_subscribe := rn_manage_relay_subscribe rn |}.
Definition rn_set_relay rn addr ry : relay_node := {| rn_node := rn_node rn;
  rn_relay_ctx := Some (addr, ry); rn_default_source_ctx := rn_default_source_ctx rn;
  rn_consumer_media_init := rn_consumer_media_init rn;
  rn_manage_relay_cache := rn_manage_relay_cache rn;
  rn_manage_relay_subscribe := rn_manage_relay_subscribe rn |}.

(** A pointer to a relay context is followed. *)
Definition relay_at rn (addr : option Z) : option (Z * quicrq_relay_context_t) :=
  match addr, rn_relay_ctx rn with
  | Some a, Some (addr, ry) => if a =? addr then Some (addr, ry) else None
  | _, _ => None
  end.

(** The connection to the server is created if there is none. *)
Definition quicrq_relay_check_server_cnx rn (relay_ctx : option Z) : option (relay_node * Z) :=
  '(addr, ry) ← relay_at rn relay_ctx;
  match ry_cnx ry with
  | Some _ => Some (rn, 0)
  | None =>
      '(nd, id) ← quicrq_create_client_cnx (rn_node rn) picoquic_ok;
      let rn := rn_set_relay (rn_set_node rn nd) addr {| ry_cnx := id;
                  ry_transport_mode := ry_transport_mode ry;
                  ry_is_origin_only := ry_is_origin_only ry |} in
      Some (rn, match id with Some _ => 0 | None => -1 end)
  end.

(** The server connection of a relay: the relay context and the connection. *)
Definition server_cnx rn (relay_ctx : option Z)
  : option (quicrq_relay_context_t * connection (CS := CS)) :=
  '(_, ry) ← relay_at rn relay_ctx;
  id ← ry_cnx ry;
  n ← find_cnx (rn_node rn) id;
  Some (ry, n).
Definition put_cnx rn (qr : quicrq_ctx_t) (n : connection) : relay_node :=
  rn_set_node rn (update_cnx (nd_set_qr (rn_node rn) qr) n).

(** The media is asked to the server, for a cache that will be the one of the
    next source: [ret] and the stream. *)
Definition subscribe_to_server rn (relay_ctx : option Z) (url : list Z)
  : option (relay_node * Z * Z) :=
  '(rn, ret) ← quicrq_relay_check_server_cnx rn relay_ctx;
  if negb (ret =? 0) then Some (rn, ret, UINT64_MAX)
  else if malloc_ok sizeof_relay_consumer then
    '(ry, n) ← server_cnx rn relay_ctx;
    let qr := nd_qr (rn_node rn) in
    let cons_ctx := {| rc_cache_source := Some (qr_next_source qr) |} in
    let stream_id := next_stream_id n in
    let '(n, ret) := quicrq_cnx_subscribe_media n stream_id url (ry_transport_mode ry)
                       (relay_consumer cons_ctx) in
    Some (put_cnx rn qr n, ret,
          if ret =? 0 then default UINT64_MAX (option_map k_id (last (n_streams n))) else UINT64_MAX)
  else Some (rn, -1, UINT64_MAX).

(** The memory of the cache is given back: no other source has its address. *)
Definition free_cache rn : relay_node :=
  let qr := nd_qr (rn_node rn) in
  rn_set_node rn (nd_set_qr (rn_node rn) (qr_set_sources qr (qr_sources qr) (qr_next_source qr + 1))).

(** Without a url, the default source is removed. *)
Definition quicrq_relay_default_source_fn rn (default_source_ctx : option Z) (url : option (list Z))
  : option (relay_node * Z) :=
  match url with
  | None =>
      Some ({| rn_node := rn_node rn; rn_relay_ctx := rn_relay_ctx rn; rn_default_source_ctx := None;
               rn_consumer_media_init := rn_consumer_media_init rn;
               rn_manage_relay_cache := rn_manage_relay_cache rn;
               rn_manage_relay_subscribe := rn_manage_relay_subscribe rn |}, 0)
  | Some url =>
      if malloc_ok sizeof_fragment_cache then
        '(_, ry) ← relay_at rn default_source_ctx;
        '(rn, ret, stream_id) ←
          (if ry_is_origin_only ry then Some (rn, 0, UINT64_MAX)
           else subscribe_to_server rn default_source_ctx url);
        let cache := fc_set_subscribe_stream quicrq_fragment_cache_create_ctx stream_id in
        if ret =? 0 then
          '(nd, ret, _) ← quicrq_publish_fragment_cached_media (rn_node rn) cache url false false;
          let rn := rn_set_node rn nd in
          Some (if ret =? 0 then (rn, 0) else (free_cache rn, ret))
        else Some (free_cache rn, ret)
      else Some (rn, -1)
  end.

(** The cache of a url that is posted, and whether it could be published.
    [None] in the result is a [NULL] cache. *)
Definition create_cache nd (url : list Z) : option (node * option Z * Z) :=
  if malloc_ok sizeof_fragment_cache then
    '(nd, ret, id) ←
      quicrq_publish_fragment_cached_media nd quicrq_fragment_cache_create_ctx url false false;
    Some (nd, id, ret)
  else Some (nd, None, 0).

(** [quicrq_set_media_stream_ctx] *)
Definition set_media_stream_ctx nd (ref : Z * Z) (cons_ctx : quicrq_relay_consumer_context_t)
  : option node :=
  n ← find_cnx nd ref.1;
  k ← find_stream n ref.2;
  Some (update_cnx nd (n_set_streams n
    (update_stream (k_set_media k (consuming (relay_consumer cons_ctx))) (n_streams n)))).

(** The cache for a url that is posted to a relay; the stream that is receiving
    the media from the server, if any, is abandoned. *)
Definition posted_cache rn (relay_ctx : option Z) (url : list Z) : option (relay_node * option Z * Z) :=
  match quicrq_find_local_media_source (nd_qr (rn_node rn)) url with
  | Some src =>
      '(_, n) ← server_cnx rn relay_ctx;
      let n := quicrq_cnx_abandon_stream_id n (fc_subscribe_stream_id (ms_cache src)) in
      Some (put_cnx rn (nd_qr (rn_node rn)) n, Some (ms_id src), 0)
  | None =>
      '(nd, id, ret) ← create_cache (rn_node rn) url;
      Some (rn_set_node rn nd, id, ret)
  end.

(** A media is posted on a stream: it is received in a cache, and posted to the
    server. *)
Definition quicrq_relay_consumer_init_callback rn (stream_ctx : Z * Z) (url : list Z)
  : option (relay_node * Z) :=
  let relay_ctx := rn_default_source_ctx rn in
  '(rn, ret) ← quicrq_relay_check_server_cnx rn relay_ctx;
  if negb (ret =? 0) then Some (rn, ret)
  else
    '(rn, cache, ret) ← posted_cache rn relay_ctx url;
    if negb (ret =? 0) then Some (rn, ret)
    else if malloc_ok sizeof_relay_consumer then
      '(ry, n) ← server_cnx rn relay_ctx;
      let '(qr, n, ret) := quicrq_cnx_post_media default_source_fn (nd_qr (rn_node rn)) n
                             (next_stream_id n) url (ry_transport_mode ry) in
      let rn := put_cnx rn qr n in
      if ret =? 0 then
        nd ← set_media_stream_ctx (rn_node rn) stream_ctx {| rc_cache_source := cache |};
        Some (rn_set_node rn nd, 0)
      else Some (rn, ret)
    else Some (rn, -1).

Definition quicrq_origin_consumer_init_callback rn (stream_ctx : Z * Z) (url : list Z)
  : option (relay_node * Z) :=
  let nd := rn_node rn in
  if malloc_ok sizeof_relay_consumer then
    '(nd, cache, ret) ←
      (match quicrq_find_local_media_source (nd_qr nd) url with
       | Some src => Some (nd, Some (ms_id src), 0)
       | None => create_cache nd url
       end);
    if ret =? 0 then
      nd ← set_media_stream_ctx nd stream_ctx {| rc_cache_source := cache |};
      Some (rn_set_node rn nd, 0)
    else Some (rn_set_node rn nd, ret)
  else Some (rn, -1).

(** ** Subscriptions to patterns *)

(** The url notified by the server is asked for if it has no source. *)
Definition quicrq_relay_subscribe_notify rn (url : list Z) : option (relay_node * Z) :=
  match quicrq_find_local_media_source (nd_qr (rn_node rn)) url with
  | Some _ => Some (rn, 0)
  | None => quicrq_relay_default_source_fn rn (option_map fst (rn_relay_ctx rn)) (Some url)
  end.

(** The first stream of the server connection with that prefix. *)
Definition quicrq_relay_find_subscription rn (url : list Z) : option (option (control (CS := CS))) :=
  '(_, ry) ← rn_relay_ctx rn;
  match ry_cnx ry with
  | Some id =>
      n ← find_cnx (rn_node rn) id;
      Some (List.find (fun k => bool_decide (st_subscribe_prefix (k_stream k) = Some url)) (n_streams n))
  | None => Some None
  end.

Definition subscribed_to (url : list Z) (k : control (CS := CS)) : bool :=
  bool_decide (st_send_state (k_stream k) = quicrq_notify_ready) &&
  bool_decide (default [] (st_subscribe_prefix (k_stream k)) = url).

(** The loop on the connections, [fuel] turns of it at most: whether one is
    subscribed, or [None] if the loop is not over. *)
Fixpoint subscribed_loop (fuel : nat) (cnx_ctx : option (connection (CS := CS))) (url : list Z)
    (is_subscribed : bool) : option bool :=
  match cnx_ctx with
  | Some n =>
      if is_subscribed then Some true
      else
        match fuel with
        | O => None
        | S fuel' =>
            subscribed_loop fuel' cnx_ctx url
              (cx_is_server (n_cnx n) && existsb (subscribed_to url) (n_streams n))
        end
  | None => Some is_subscribed
  end.

Definition relay_unsubscribe (fuel : nat) rn (url : list Z) : option relay_node :=
  '(_, ry) ← rn_relay_ctx rn;
  match ry_cnx ry with
  | None => Some rn
  | Some id =>
      is_subscribed ← subscribed_loop fuel (head (nd_cnxs (rn_node rn))) url false;
      if is_subscribed : bool then
        found ← quicrq_relay_find_subscription rn url;
        match found with
        | Some k =>
            n ← find_cnx (rn_node rn) id;
            let '(n, _) := quicrq_cnx_subscribe_pattern_close n k in
            Some (put_cnx rn (nd_qr (rn_node rn)) n)
        | None => Some rn
        end
      else Some rn
  end.

Definition relay_subscribe rn (url : list Z) : option relay_node :=
  let relay_ctx := option_map fst (rn_relay_ctx rn) in
  '(rn, ret) ← quicrq_relay_check_server_cnx rn relay_ctx;
  if negb (ret =? 0) then Some rn
  else
    found ← quicrq_relay_find_subscription rn url;
    match found with
    | Some _ => Some rn
    | None =>
        '(_, n) ← server_cnx rn relay_ctx;
        '(qr, n, _) ← quicrq_cnx_subscribe_pattern (nd_qr (rn_node rn)) n (next_stream_id n) url true;
        Some (put_cnx rn qr n)
    end.

(** [fuel] is for the loop of the unsubscription. *)
Definition quicrq_relay_subscribe_pattern (fuel : nat) rn (action : quicrq_subscribe_action_enum)
    (url : list Z) : option relay_node :=
  match action with
  | quicrq_subscribe_action_unsubscribe => relay_unsubscribe fuel rn url
  | quicrq_subscribe_action_subscribe => relay_subscribe rn url
  end.

(** ** Management of the cache *)

(** The visit of a source: the node, and the source if it is deleted, with the
    new [next_time] and whether a deletion is still needed. *)
Definition manage_source nd (src : quicrq_media_source_ctx_t) (next_time : Z) (needed : bool)
    (current_time : Z) : option (node * Z * bool) :=
  if ms_is_local_object_source src then Some (nd, next_time, needed)
  else
    nd ← (if ms_is_cache_real_time src then quicrq_fragment_cache_media_purge_to_gob nd src else Some nd);
    let c := ms_cache src in
    if (0 <? qr_cache_duration_max (nd_qr nd)) && fc_is_feed_closed c &&
       bool_decide (ms_streams src = [])
    then
      if fc_cache_delete_time c <=? current_time
      then Some (nd_set_qr nd (quicrq_delete_source (nd_qr nd) (ms_id src)), next_time, needed)
      else if fc_cache_delete_time c <? next_time
      then Some (nd, fc_cache_delete_time c, true)
      else Some (nd, next_time, needed)
    else Some (nd, next_time, needed).

Fixpoint manage_sources nd (srcs : list quicrq_media_source_ctx_t) (next_time : Z) (needed : bool)
    (current_time : Z) : option (node * Z * bool) :=
  match srcs with
  | [] => Some (nd, next_time, needed)
  | src :: srcs =>
      '(nd, next_time, needed) ← manage_source nd src next_time needed current_time;
      manage_sources nd srcs next_time needed current_time
  end.

Definition quicrq_manage_relay_cache rn (current_time : Z) : option (relay_node * Z) :=
  let qr := nd_qr (rn_node rn) in
  match rn_relay_ctx rn with
  | Some _ =>
      if (0 <? qr_cache_duration_max qr) || qr_is_cache_closing_needed qr then
        '(nd, next_time, needed) ←
          manage_sources (rn_node rn) (qr_sources qr) UINT64_MAX false current_time;
        Some (rn_set_node rn (nd_set_qr nd (qr_set_closing (nd_qr nd) needed)), next_time)
      else Some (rn, UINT64_MAX)
  | None => Some (rn, UINT64_MAX)
  end.

(** ** Set up *)

(** Another relay cannot be enabled before the first one is disabled. *)
Definition quicrq_enable_relay rn (transport_mode : quicrq_transport_mode_enum) (sni_len : Z)
  : relay_node * Z :=
  match rn_relay_ctx rn with
  | Some _ => (rn, -1)
  | None =>
      if malloc_ok (sizeof_relay_ctx +64 sni_len +64 1) then
        let nd := rn_node rn in
        let addr := nd_next nd in
        ({| rn_node := nd_set_cnxs nd (nd_cnxs nd) (addr + 1);
            rn_relay_ctx := Some (addr, {| ry_cnx := None; ry_transport_mode := transport_mode;
                                           ry_is_origin_only := false |});
            rn_default_source_ctx := Some addr; rn_consumer_media_init := Some relay_init;
            rn_manage_relay_cache := true; rn_manage_relay_subscribe := true |}, 0)
      else (rn, -1)
  end.

(** The default source and the management of subscriptions stay set. *)
Definition quicrq_disable_relay rn : relay_node :=
  match rn_relay_ctx rn with
  | Some _ =>
      {| rn_node := rn_node rn; rn_relay_ctx := None;
         rn_default_source_ctx := rn_default_source_ctx rn;
         rn_consumer_media_init := rn_consumer_media_init rn; rn_manage_relay_cache := false;
         rn_manage_relay_subscribe := rn_manage_relay_subscribe rn |}
  | None => rn
  end.

Definition quicrq_enable_origin rn (transport_mode : quicrq_transport_mode_enum) : relay_node * Z :=
  if malloc_ok sizeof_relay_ctx then
    let nd := rn_node rn in
    let addr := nd_next nd in
    ({| rn_node := nd_set_cnxs nd (nd_cnxs nd) (addr + 1);
        rn_relay_ctx := Some (addr, {| ry_cnx := None; ry_transport_mode := transport_mode;
                                       ry_is_origin_only := true |});
        rn_default_source_ctx := Some addr; rn_consumer_media_init := Some origin_init;
        rn_manage_relay_cache := true; rn_manage_relay_subscribe := rn_manage_relay_subscribe rn |}, 0)
  else (rn, -1).

End relay.
