(* ===== verification/ObjectConsumerTheorems.v ===== *)
(** * What the consumer of objects gives to the application

    In the mode that skips to the next group, objects and placeholders are
    given in increasing order whatever the peer sends.  In the mode in order,
    for the fragments of a media, exactly the objects that are received
    without a gap are given, with their bytes. *)

From S2P Require Import Prelude Picosplay Media Reassembly ReassemblyProofs ReassemblyDelivery.
From S2P Require Import ReassemblySafety ReassemblyTheorems StreamContext ObjectConsumer.

(** The objects given to the application. *)
Definition object_keys (calls : list object_call) : list (Z * Z) :=
  flat_map (fun c => match c with object_ready g o _ _ => [(g, o)] | object_close => [] end) calls.

Lemma object_keys_app l1 l2 : object_keys (l1 ++ l2) = object_keys l1 ++ object_keys l2.
Proof. apply flat_map_app. Qed.

Section recording.
Context `{SL : SplayLaws (Z * Z) quicrq_object_node_compare}.
Context {A : Type} (fn : A -> object_call -> A * Z).

(** The application with a record of its calls. *)
Definition recording (app : A * list object_call) (call : object_call)
  : (A * list object_call) * Z :=
  let '(a, ret) := fn app.1 call in ((a, app.2 ++ [call]), ret).

Lemma recording_call a call :
  exists a', recording a call = ((a', a.2 ++ [call]), (fn a.1 call).2).
Proof. unfold recording. destruct (fn a.1 call) as [a' ret]. by exists a'. Qed.

(** ** Increasing order *)

(** The objects given so far are in order, before the expectation point. *)
Record bridge_ordered (b : bridge_state (App := A * list object_call)) : Prop := {
  bo_sorted : StronglySorted key_lt (object_keys (br_app b).2);
  bo_before : Forall (fun k => key_lt k (br_next_group_id b, br_next_object_id b))
                (object_keys (br_app b).2);
  bo_range : Forall (fun k => 0 <= k.1 /\ 0 <= k.2) (object_keys (br_app b).2);
  bo_next : 0 <= br_next_group_id b <= two62 /\ 0 <= br_next_object_id b <= two62;
  bo_start : is_id (br_start_group_id b) /\ is_id (br_start_object_id b);
}.

(** An object after those given; the expectation point moves after it. *)
Lemma ordered_give b g o data fl a' :
  bridge_ordered b -> is_id g -> is_id o ->
  Forall (fun k => key_lt k (g, o)) (object_keys (br_app b).2) ->
  a'.2 = (br_app b).2 ++ [object_ready g o data fl] ->
  bridge_ordered (br_set_next (br_set_app b a') g (o + 1)).
Proof.
  intros [Hs Hb Hr Hn Hst] Hg Ho Hlt Ea. unfold is_id in *.
  split; cbn; rewrite ?Ea, ?object_keys_app; cbn.
  - apply StronglySorted_app. split_and!; [| done | by repeat constructor].
    intros x y Hx ->%list_elem_of_singleton.
    rewrite Forall_forall in Hlt. by apply Hlt.
  - apply Forall_app. split.
    + eapply Forall_impl; [exact Hlt |]. intros k Hk. unfold key_lt in *. cbn in *. lia.
    + apply Forall_singleton. unfold key_lt. cbn. lia.
  - apply Forall_app. split; [done |]. apply Forall_singleton. cbn. lia.
  - lia.
  - done.
Qed.

Lemma ordered_before b g o : bridge_ordered b ->
  ~ key_lt (g, o) (br_next_group_id b, br_next_object_id b) ->
  Forall (fun k => key_lt k (g, o)) (object_keys (br_app b).2).
Proof.
  intros [_ Hb _ _ _] Hle. eapply Forall_impl; [exact Hb |].
  intros k Hk. unfold key_lt in *. cbn in *. lia.
Qed.

(** The expectation point moves forward. *)
Lemma ordered_forward b g o :
  bridge_ordered b -> 0 <= g <= two62 -> 0 <= o <= two62 ->
  ~ key_lt (g, o) (br_next_group_id b, br_next_object_id b) -> bridge_ordered (br_set_next b g o).
Proof.
  intros [Hs Hb Hr Hn Hst] Hg Ho Hle. split; try done. cbn.
  eapply Forall_impl; [exact Hb |]. intros k Hk. unfold key_lt in *. cbn in *. lia.
Qed.

Lemma ordered_skip_objects n : forall b,
  bridge_ordered b -> br_next_group_id b < two62 -> br_next_object_id b + Z.of_nat n <= two62 ->
  let b' := skip_objects recording n b in
  bridge_ordered b' /\ br_next_group_id b' = br_next_group_id b /\
  br_start_group_id b' = br_start_group_id b /\ br_start_object_id b' = br_start_object_id b.
Proof.
  induction n as [| n IH]; intros b Hb Hg Hn; cbn [skip_objects]; [done |].
  destruct (recording_call (br_app b) (object_ready (br_next_group_id b) (br_next_object_id b) [] 255))
    as (a' & ->).
  pose proof (bo_next _ Hb) as [? ?]. rewrite u64_small by u64_lia.
  match goal with |- context [skip_objects recording n ?b1] =>
    destruct (IH b1) as (H1 & H2 & H3 & H4); cbn; [| done | lia | done] end.
  apply (ordered_give b _ _ [] 255); [done | unfold is_id; lia .. | | done].
  by apply bo_before.
Qed.

Lemma object_id_limit_range ctx b : synced is_id ctx -> br_next_group_id b < two62 ->
  bridge_ordered b -> br_next_object_id b <= two62 -> object_id_limit ctx b <= two62.
Proof.
  intros Hs Hg Hb Ho. unfold object_id_limit, quicrq_reassembly_get_object_count.
  pose proof (bo_next _ Hb) as [? ?].
  rewrite u64_small, (synced_find is_id) by (try done; unfold is_key; u64_lia).
  destruct (rc_objects ctx !! _) as [ob |] eqn:E.
  - pose proof (sy_counts _ _ Hs _ _ E) as [? ?]. repeat dmatch; unfold two62 in *; lia.
  - repeat dmatch; unfold two62 in *; lia.
Qed.

Lemma ordered_skip_groups ctx n : forall b, synced is_id ctx ->
  bridge_ordered b -> br_next_group_id b + Z.of_nat n <= two62 ->
  let b' := skip_groups recording n ctx b in
  bridge_ordered b' /\ br_next_group_id b' = br_next_group_id b + Z.of_nat n /\
  ((0 < n)%nat -> br_next_object_id b' = 0).
Proof.
  induction n as [| n IH]; intros b Hs Hb Hn; cbn [skip_groups].
  { split_and!; [done | lia | lia]. }
  pose proof (bo_next _ Hb) as [? ?].
  pose proof (object_id_limit_range ctx b Hs ltac:(lia) Hb ltac:(lia)).
  destruct (ordered_skip_objects (Z.to_nat (object_id_limit ctx b - br_next_object_id b)) b Hb)
    as (Hb1 & Eg & _); [lia | lia |].
  set (b1 := skip_objects _ _ _) in *. rewrite u64_small by u64_lia.
  destruct (IH (br_set_next b1 (br_next_group_id b1 + 1) 0) Hs) as (Hb2 & Eg2 & Eo2).
  - apply ordered_forward; [done | lia | unfold two62; lia |]. unfold key_lt. cbn. lia.
  - cbn. lia.
  - split; [done |]. cbn in Eg2. split; [rewrite Eg2; lia |]. intros _.
    destruct n; [done |]. apply Eo2. lia.
Qed.

Lemma ordered_jump ctx b g : synced is_id ctx -> bridge_ordered b -> is_id g ->
  br_next_group_id b < g ->
  let b' := jump_to_group recording ctx b g in
  bridge_ordered b' /\ Forall (fun k => key_lt k (g, 0)) (object_keys (br_app b').2).
Proof.
  intros Hs Hb Hg Hlt. unfold jump_to_group.
  pose proof (bo_next _ Hb) as [? ?]. pose proof (bo_start _ Hb) as [? ?]. unfold is_id in *.
  assert (exists b1, (if (br_next_group_id b =? 0) && (br_next_object_id b =? 0)
      then br_set_next b (br_start_group_id b) (br_start_object_id b) else b) = b1 /\
    bridge_ordered b1 /\ (object_keys (br_app b1).2 = [] \/ b1 = b)) as (b1 & -> & Hb1 & Hcase).
  { destruct (_ && _) eqn:E; eexists; (split; [done |]); [| by auto]. b2p.
    split; [apply ordered_forward; [done | lia | lia |]; unfold key_lt; cbn; lia |].
    left. pose proof (bo_before _ Hb) as Hbef. pose proof (bo_range _ Hb) as Hr. cbn.
    destruct (object_keys _) as [| k ?]; [done |]. exfalso.
    apply Forall_cons in Hbef as [Hk _]. apply Forall_cons in Hr as [? _].
    unfold key_lt in Hk. cbn in Hk. lia. }
  pose proof (bo_next _ Hb1) as [? ?].
  destruct (Z.lt_ge_cases (br_next_group_id b1) g).
  - destruct (ordered_skip_groups ctx (Z.to_nat (g - br_next_group_id b1)) b1 Hs Hb1)
      as (Hb2 & Eg & Eo); [lia |].
    split; [done |]. apply ordered_before; [done |]. rewrite Eg, Eo by lia. unfold key_lt. cbn. lia.
  - replace (Z.to_nat (g - br_next_group_id b1)) with O by lia. cbn [skip_groups].
    split; [done |]. destruct Hcase as [-> | ->]; [constructor | lia].
Qed.

Lemma ordered_ready ctx b e : synced is_id ctx -> ready_event_ok e -> bridge_ordered b ->
  bridge_ordered (quicrq_media_object_bridge_ready recording
    quicrq_subscribe_in_order_skip_to_group_ahead ctx b e).1.
Proof.
  intros Hs [Hg Ho] Hb. unfold quicrq_media_object_bridge_ready, accept_object.
  destruct (pair_ltb _ _ _ _) eqn:Elt; [done |]. apply pair_ltb_false in Elt.
  assert (forall b1, bridge_ordered b1 ->
    Forall (fun k => key_lt k (re_group_id e, re_object_id e)) (object_keys (br_app b1).2) ->
    bridge_ordered (let b := br_set_next b1 (re_group_id e) (re_object_id e +64 1) in
      let '(a, ret) := recording (br_app b)
                         (object_ready (re_group_id e) (re_object_id e)
                            (ztake (re_data_length e) (re_data e)) (re_flags e)) in
      (br_set_app b a, ret)).1) as Hgive.
  { intros b1 Hb1 Hlt. cbn zeta.
    change (br_app (br_set_next b1 _ _)) with (br_app b1).
    destruct (recording_call (br_app b1) (object_ready (re_group_id e) (re_object_id e)
      (ztake (re_data_length e) (re_data e)) (re_flags e))) as (a' & ->). cbn [fst].
    rewrite u64_small by (unfold is_id in *; u64_lia).
    by apply (ordered_give b1 (re_group_id e) (re_object_id e)
                (ztake (re_data_length e) (re_data e)) (re_flags e)). }
  assert (Forall (fun k => key_lt k (re_group_id e, re_object_id e)) (object_keys (br_app b).2)) as Hlt.
  { apply ordered_before; [done |]. unfold key_lt. cbn. lia. }
  destruct (bool_decide _); [| by apply Hgive].
  destruct (_ && _) eqn:Ejump.
  - b2p. destruct (ordered_jump ctx b (re_group_id e) Hs Hb Hg) as [Hb1 Hlt1]; [lia |].
    apply Hgive; [done |]. by replace (re_object_id e) with 0 by lia.
  - destruct (negb _); [done | by apply Hgive].
Qed.
End recording.

(** ** Sequences of calls of the control stream *)

Section calls.
Context `{SL : SplayLaws (Z * Z) quicrq_object_node_compare} {Al : Allocator}.
Context {App : Type} (fn : App -> object_call -> App * Z) (order : quicrq_subscribe_order_enum).

(** Whatever they return. *)
Fixpoint bridge_run (x : quicrq_object_stream_consumer_ctx (App := App))
    (calls : list (Z * consumer_call)) : option quicrq_object_stream_consumer_ctx :=
  match calls with
  | [] => Some x
  | (now, call) :: calls' =>
      '(x, _) ← quicrq_media_object_bridge_fn fn order now x call; bridge_run x calls'
  end.

(** Identifiers and counts are varints; the close of the media, after which the
    consumer is freed, is not among the calls. *)
Definition call_ok (call : consumer_call) : Prop :=
  match call with
  | quicrq_media_datagram_ready _ g o _ _ _ nb _ _ => is_id g /\ is_id o /\ is_id nb
  | quicrq_media_final_object_id g o => True
  | quicrq_media_real_time_cache => True
  | quicrq_media_start_point g o _ => is_id g /\ is_id o
  | quicrq_media_close _ _ => False
  end.

(** A property of the bridge that the deliveries and the start point keep. *)
Lemma bridge_run_keeps (P : bridge_state (App := App) -> Prop) calls : forall x,
  malloc_ok sizeof_reassembly_object = true ->
  (forall ctx b e, synced is_id ctx -> ready_event_ok e -> P b ->
     P (quicrq_media_object_bridge_ready fn order ctx b e).1) ->
  (forall b g o, is_id g -> is_id o -> P b -> P (br_set_start b g o)) ->
  synced is_id (bc_reassembly x) -> P (bc_bridge x) -> Forall (fun c => call_ok c.2) calls ->
  exists x', bridge_run x calls = Some x' /\ synced is_id (bc_reassembly x') /\ P (bc_bridge x').
Proof.
  induction calls as [| [now call] calls IH]; intros x Hal Hp Hstart Hs Hx Hok; cbn [bridge_run];
    [by exists x |].
  apply Forall_cons in Hok as [Hc Hok]. cbn [snd] in Hc.
  destruct call as [data g o off delay fl nb len n | g o | g o fl | | r i]; cbn [call_ok] in Hc;
    cbn [quicrq_media_object_bridge_fn].
  - destruct Hc as (Hg & Ho & Hnb).
    destruct (synced_input (quicrq_media_object_bridge_ready fn order) is_id
      ltac:(unfold is_id, two62; lia) P Hp (bc_reassembly x) now data g o off delay fl nb len n
      (bc_bridge x) Hal Hs Hg Ho Hnb) as (ctx & b & ret & -> & Hs' & Hb).
    cbn [mbind option_bind]. apply IH; auto.
  - pose proof (synced_learn_final is_id (bc_reassembly x) g o Hs) as Hs'.
    destruct (quicrq_reassembly_learn_final_object_id _ g o) as [ctx ret].
    cbn [mbind option_bind]. apply IH; auto.
  - destruct Hc as (Hg & Ho).
    destruct (synced_learn_start (quicrq_media_object_bridge_ready fn order) is_id
      P Hp (bc_reassembly x) g o now (br_set_start (bc_bridge x) g o) Hs Hg Ho)
      as (ctx & b & ret & -> & Hs' & Hb).
    cbn [mbind option_bind]. apply IH; auto.
  - apply IH; auto.
  - done.
Qed.
End calls.

(** ** In order *)

(** What an event of the reassembly gives to the application. *)
Definition event_call (e : ready_event) : object_call :=
  object_ready (re_group_id e) (re_object_id e) (ztake (re_data_length e) (re_data e)) (re_flags e).
Definition not_peek (e : ready_event) : bool :=
  negb (bool_decide (re_mode e = quicrq_reassembly_object_peek)).

(** The fragment of a call. *)
Definition call_fragment (call : Z * consumer_call) : option fragment :=
  match call.2 with
  | quicrq_media_datagram_ready data g o off delay fl nb len n =>
      Some {| f_time := call.1; f_data := data; f_group := g; f_object := o; f_offset := off;
              f_delay := delay; f_flags := fl; f_nb_previous := nb; f_object_length := len;
              f_data_length := n |}
  | _ => None
  end.
Definition call_fragments (calls : list (Z * consumer_call)) : list fragment := omap call_fragment calls.

(** Calls that carry a media, from its beginning. *)
Definition media_call (md : media) (call : Z * consumer_call) : Prop :=
  match call_fragment call with
  | Some f => consistent md f
  | None =>
      match call.2 with quicrq_media_final_object_id _ _ | quicrq_media_real_time_cache => True
      | _ => False end
  end.

(** What the application is given: objects and their bytes. *)
Definition given (c : object_call) : option (Z * Z * list Z) :=
  match c with object_ready g o data _ => Some (g, o, data) | object_close => None end.

Section in_order.
Context `{SL : SplayLaws (Z * Z) quicrq_object_node_compare} {Al : Allocator}.
Context (alloc_ok : forall n, malloc_ok n = true).
Context {A : Type} (fn : A -> object_call -> A * Z) (fn_ok : forall a c, (fn a c).2 = 0).
Context (md : media).

Abbreviation ready := (quicrq_media_object_bridge_ready (recording fn) quicrq_subscribe_in_order).

Lemma ready_ok ctx b e : (ready ctx b e).2 = 0.
Proof.
  unfold quicrq_media_object_bridge_ready, accept_object. destruct (bool_decide _); [done |].
  destruct (recording_call fn (br_app (br_set_next b (re_group_id e) (re_object_id e +64 1)))
    (event_call e)) as (a' & E). unfold event_call in E. rewrite E. cbn [snd]. apply fn_ok.
Qed.

(** The application is given the events that are not peeks. *)
Definition given_log (app : bridge_state (App := A * list object_call) * list ready_event) : Prop :=
  (br_app app.1).2 = map event_call (List.filter not_peek app.2).

Lemma given_log_ready ctx app e : given_log app -> given_log (logging ready ctx app e).1.
Proof.
  unfold given_log, logging, quicrq_media_object_bridge_ready, accept_object. intros H.
  assert (not_peek e = negb (bool_decide (re_mode e = quicrq_reassembly_object_peek))) as Ep by done.
  destruct (bool_decide (re_mode e = quicrq_reassembly_object_peek)); cbn [fst snd].
  - rewrite List.filter_app, map_app, H. cbn [List.filter]. rewrite Ep. cbn. by rewrite app_nil_r.
  - destruct (recording_call fn (br_app (br_set_next app.1 (re_group_id e) (re_object_id e +64 1)))
      (event_call e)) as (a' & E). unfold event_call in E. rewrite E.
    cbn [fst snd br_app br_set_app br_set_next].
    rewrite List.filter_app, map_app, H. cbn [List.filter]. by rewrite Ep.
Qed.

Lemma settled_final fs ctx log g o fin :
  settled md [] (0, 0) fs ctx log -> settled md [] (0, 0) fs (rc_set_final ctx g o fin) log.
Proof. intros [[[] [] []] ? []]. by do 3 (split; try done). Qed.

Lemma settled_learn_final fs ctx log g o :
  settled md [] (0, 0) fs ctx log ->
  settled md [] (0, 0) fs (quicrq_reassembly_learn_final_object_id ctx g o).1 log.
Proof.
  intros Hs. unfold quicrq_reassembly_learn_final_object_id.
  repeat (dmatch; cbn [fst]); repeat apply settled_final; done.
Qed.

(** The state between calls. *)
Record consuming_ok fs (x : quicrq_object_stream_consumer_ctx (App := A * list object_call)) log : Prop := {
  co_settled : settled md [] (0, 0) fs (bc_reassembly x) log;
  co_synced : synced (fun _ => True) (bc_reassembly x);
  co_given : given_log (bc_bridge x, log);
}.

Lemma consuming_step fs x log now call :
  consuming_ok fs x log -> media_call md (now, call) ->
  exists x' log' ret, quicrq_media_object_bridge_fn (recording fn) quicrq_subscribe_in_order now x call
                      = Some (x', ret) /\
    consuming_ok (fs ++ call_fragments [(now, call)]) x' log' /\
    (is_Some (call_fragment (now, call)) ->
     ret = finished_or (bc_reassembly x') 0 /\
     final_of (bc_reassembly x') = final_of (bc_reassembly x)).
Proof.
  intros [Hst Hsy Hg] Hc. unfold media_call, call_fragments in *.
  destruct call as [data g o off delay fl nb len n | g o | g o fl | | r i];
    cbn [call_fragment snd fst omap list_omap] in *; cbn [quicrq_media_object_bridge_fn].
  - set (f := {| f_time := now |}) in *.
    destruct (input_f_spec md [] (0, 0) alloc_ok ready ready_ok fs (bc_reassembly x) (bc_bridge x) log f
      Hst Hc) as (ctx & b & log' & E & Hst').
    destruct (synced_input (logging ready) (fun _ => True) I given_log
      (fun ctx a e _ _ H => given_log_ready ctx a e H) (bc_reassembly x) now data g o off delay fl nb
      len n (bc_bridge x, log) (alloc_ok _) Hsy) as (ctx' & app' & ret & E' & Hsy' & Hg');
      [apply Hc | apply Hc | done |].
    unfold input_f in E. cbn in E. rewrite E in E'. injection E' as <- <- <-.
    pose proof (forget_input ready (bc_reassembly x) now data g o off delay fl nb len n
      (bc_bridge x, log)) as Ef. cbn [fst] in Ef. rewrite E in Ef. cbn in Ef. rewrite Ef.
    cbn [mbind option_bind].
    eexists _, log', _. split; [done |]. split; [split; [done | done | by apply Hg'] |].
    intros _. split; [done |]. by apply final_input in E.
  - rewrite app_nil_r. pose proof (settled_learn_final fs _ log g o Hst) as Hst'.
    pose proof (synced_learn_final (fun _ => True) (bc_reassembly x) g o Hsy) as Hsy'.
    destruct (quicrq_reassembly_learn_final_object_id _ g o) as [ctx ret].
    cbn [fst] in *. eexists _, log, _. split; [done |]. split; [by split | by intros [? ?]].
  - done.
  - rewrite app_nil_r. exists x, log, 0. split; [done |]. split; [by split | by intros [? ?]].
  - done.
Qed.

Lemma consuming_run calls : forall fs x log,
  consuming_ok fs x log -> Forall (media_call md) calls ->
  exists x' log', bridge_run (recording fn) quicrq_subscribe_in_order x calls = Some x' /\
    consuming_ok (fs ++ call_fragments calls) x' log'.
Proof.
  induction calls as [| [now call] calls IH]; intros fs x log Hx Hc; cbn [bridge_run].
  { exists x, log. unfold call_fragments. cbn. by rewrite app_nil_r. }
  apply Forall_cons in Hc as [Hc Hcs].
  destruct (consuming_step fs x log now call Hx Hc) as (x1 & log1 & ret & -> & Hx1 & _).
  cbn [mbind option_bind].
  destruct (IH _ x1 log1 Hx1 Hcs) as (x3 & log3 & -> & Hx3). exists x3, log3. split; [done |].
  rewrite <- (assoc_L (++)) in Hx3. unfold call_fragments in *. by rewrite <- omap_app in Hx3.
Qed.

Lemma consuming_start a : consuming_ok [] (bridge_start (a, [])) [].
Proof. split; [apply init_settled_0 | apply synced_init | done]. Qed.

(** What was given: the first objects of the media. *)
Lemma consuming_given fs x log : consuming_ok fs x log ->
  exists n,
    map given (br_app (bc_bridge x)).2 =
      map (fun i => let k := media_from md (0, 0) i in Some (k.1, k.2, content md k)) (seq 0 n) /\
    (forall i, (i < n)%nat -> fully_received md fs (media_from md (0, 0) i)) /\
    ~ fully_received md fs (media_from md (0, 0) n).
Proof.
  intros [Hst _ Hg]. destruct (settled_in_order md [] (0, 0) fs _ log Hst) as (n & Ho & Hn).
  exists n. split; [| done]. unfold given_log in Hg. cbn [fst snd] in Hg. rewrite Hg, map_map.
  cbn [app] in Ho.
  transitivity (map (fun k : Z * Z => Some (k.1, k.2, content md k)) (in_order log)).
  - unfold in_order. rewrite map_map. apply map_ext_in. intros e [He _]%filter_In.
    apply list_elem_of_In in He.
    pose proof (li_events _ _ _ _ _ _ (inv_log _ _ _ _ _ _ (st_inv _ _ _ _ _ _ Hst))) as Hev.
    eapply Forall_forall in He; [| exact Hev]. destruct He as [Ed El].
    unfold event_call, given. cbn [fst snd]. rewrite El, Ed.
    by rewrite ztake_all.
  - by rewrite Ho, map_map.
Qed.
End in_order.

(** [C22] The consumer in order gives the media to the application.  The control
    stream passes fragments of a media in any order, with repetitions and
    overlaps, and maybe the final point and the cache policy; the application
    accepts every object.  Then no call faults, and the application is given
    exactly the objects of the media, from the first one, each once, in order
    and with its bytes, up to and excluding the first that is not fully
    received. *)
Theorem in_order_consumer_delivers `{SL : SplayLaws (Z * Z) quicrq_object_node_compare}
    {Al : Allocator} {A : Type} (fn : A -> object_call -> A * Z) (md : media) (a : A)
    (calls : list (Z * consumer_call)) :
  (forall n, malloc_ok n = true) -> (forall a c, (fn a c).2 = 0) -> Forall (media_call md) calls ->
  exists x n, bridge_run (recording fn) quicrq_subscribe_in_order (bridge_start (a, [])) calls = Some x /\
    map given (br_app (bc_bridge x)).2 =
      map (fun i => let k := media_from md (0, 0) i in Some (k.1, k.2, content md k)) (seq 0 n) /\
    (forall i, (i < n)%nat -> fully_received md (call_fragments calls) (media_from md (0, 0) i)) /\
    ~ fully_received md (call_fragments calls) (media_from md (0, 0) n).
Proof.
  intros Hal Hfn Hc.
  destruct (consuming_run Hal fn Hfn md calls [] _ [] (consuming_start md a) Hc) as (x & log & E & Hx).
  destruct (consuming_given md _ x log Hx) as (n & Hn). by exists x, n.
Qed.

(** [C23] The mode that skips to the next group keeps the order.  Whatever the
    calls of the control stream are (fragments that contradict each other,
    several start and final points) and whatever the application answers, no
    call faults, and the objects and placeholders given to the application
    have strictly increasing (group, object) identifiers: none is given twice
    or after a later one. *)
Theorem skip_mode_increasing `{SL : SplayLaws (Z * Z) quicrq_object_node_compare}
    {Al : Allocator} {A : Type} (fn : A -> object_call -> A * Z) (a : A)
    (calls : list (Z * consumer_call)) :
  malloc_ok sizeof_reassembly_object = true -> Forall (fun c => call_ok c.2) calls ->
  exists x, bridge_run (recording fn) quicrq_subscribe_in_order_skip_to_group_ahead
              (bridge_start (a, [])) calls = Some x /\
    StronglySorted key_lt (object_keys (br_app (bc_bridge x)).2).
Proof.
  intros Hal Hok.
  destruct (bridge_run_keeps (recording fn) quicrq_subscribe_in_order_skip_to_group_ahead
    (bridge_ordered (A := A)) calls (bridge_start (a, [])) Hal) as (x & E & _ & Hx); try done.
  - intros ctx b e. apply ordered_ready.
  - intros b g o Hg Ho []. by split.
  - apply synced_init.
  - split; cbn; try constructor; unfold is_id, two62; lia.
  - exists x. split; [done | apply Hx].
Qed.

(** ** Witnesses *)
Module ConsumerDemo.
Import Demo.
Definition app (n : Z) (c : object_call) : Z * Z := (n + 1, 0).
Definition call_of (f : fragment) : Z * consumer_call :=
  (f_time f, quicrq_media_datagram_ready (f_data f) (f_group f) (f_object f) (f_offset f) (f_delay f)
               (f_flags f) (f_nb_previous f) (f_object_length f) (f_data_length f)).
Lemma demo_call g o offset len :
  0 <= g < 100 -> 0 <= o < 2 -> 0 <= offset -> 0 <= len -> offset + len <= 3 ->
  media_call demo_media (call_of (demo_fragment g o offset len)).
Proof. exact (demo_consistent g o offset len). Qed.
(** The second object first, the first one in two pieces, and the first of the
    next group; then the end. *)
Definition calls : list (Z * consumer_call) :=
  map call_of [demo_fragment 0 1 0 3; demo_fragment 0 0 1 2; demo_fragment 0 0 0 1;
               demo_fragment 1 0 0 3] ++ [(7, quicrq_media_final_object_id 1 2)].
(** The second object of group 1 is lost: group 2 makes the consumer skip. *)
Definition lossy_calls : list (Z * consumer_call) :=
  map call_of [demo_fragment 0 0 0 3; demo_fragment 0 1 0 3; demo_fragment 1 0 0 3;
               demo_fragment 2 1 0 3; demo_fragment 2 0 0 3; demo_fragment 1 1 0 3].
End ConsumerDemo.

Lemma in_order_consumer_delivers_witness :
  (exists x n, bridge_run (Al := Demo.malloc_always) (recording ConsumerDemo.app) quicrq_subscribe_in_order
                 (bridge_start (0, [])) ConsumerDemo.calls = Some x /\
    map given (br_app (bc_bridge x)).2 =
      map (fun i => let k := media_from Demo.demo_media (0, 0) i in
                    Some (k.1, k.2, content Demo.demo_media k)) (seq 0 n) /\
    (forall i, (i < n)%nat -> fully_received Demo.demo_media (call_fragments ConsumerDemo.calls)
                                (media_from Demo.demo_media (0, 0) i)) /\
    ~ fully_received Demo.demo_media (call_fragments ConsumerDemo.calls)
        (media_from Demo.demo_media (0, 0) n)) /\
  option_map (fun x => map given (br_app (bc_bridge x)).2)
    (bridge_run (Al := Demo.malloc_always) (recording ConsumerDemo.app) quicrq_subscribe_in_order
       (bridge_start (0, [])) ConsumerDemo.calls)
  = Some [Some (0, 0, [0; 0; 7]); Some (0, 1, [0; 1; 7]); Some (1, 0, [1; 0; 7])].
Proof.
  split; [| reflexivity].
  apply (in_order_consumer_delivers (Al := Demo.malloc_always) ConsumerDemo.app Demo.demo_media 0
           ConsumerDemo.calls).
  - intros n. exact eq_refl.
  - intros ? ?. exact eq_refl.
  - unfold ConsumerDemo.calls. cbn [map app].
    repeat (apply Forall_cons; split; [first [exact I | apply ConsumerDemo.demo_call; lia] |]).
    by apply Forall_nil.
Defined.

Lemma skip_mode_increasing_witness :
  (exists x, bridge_run (Al := Demo.malloc_always) (recording ConsumerDemo.app)
               quicrq_subscribe_in_order_skip_to_group_ahead (bridge_start (0, []))
               ConsumerDemo.lossy_calls = Some x /\
    StronglySorted key_lt (object_keys (br_app (bc_bridge x)).2)) /\
  option_map (fun x => map given (br_app (bc_bridge x)).2)
    (bridge_run (Al := Demo.malloc_always) (recording ConsumerDemo.app)
       quicrq_subscribe_in_order_skip_to_group_ahead (bridge_start (0, [])) ConsumerDemo.lossy_calls)
  = Some [Some (0, 0, [0; 0; 7]); Some (0, 1, [0; 1; 7]); Some (1, 0, [1; 0; 7]); Some (1, 1, []);
          Some (2, 0, [2; 0; 7]); Some (2, 1, [2; 1; 7])].
Proof.
  split; [| reflexivity].
  apply (skip_mode_increasing (Al := Demo.malloc_always) ConsumerDemo.app 0 ConsumerDemo.lossy_calls);
    [exact eq_refl |].
  unfold ConsumerDemo.lossy_calls. cbn [map].
  repeat (apply Forall_cons; split; [cbn; unfold is_id, two62; lia |]). by apply Forall_nil.
Defined.
