(* ===== verification/MediaStreamProofs.v ===== *)
(** * Sending a media on a control stream, step by step

    What one call of [quicrq_prepare_to_send_media_to_stream] writes: a frame
    with a fragment of the media that follows what was sent before. *)

From S2P Require Import Prelude Picosplay PicoFrames Media Proto Fragment FragmentProofs FragmentReads.
From S2P Require Import FragmentHistory PublisherContext Congestion Publisher PublisherProofs.
From S2P Require Import MsgBuffer MsgBufferTheorems StreamContext MediaStream.

(** ** Headers and data, written separately *)

(** What is written without a test of the room. *)
Definition emit (data : list Z) : enc := fun _ => Some data.

Lemma parses_assoc {A} e1 e2 e3 (d : dec A) a :
  parses (enc_seq e1 (enc_seq e2 e3)) d a -> parses (enc_seq (enc_seq e1 e2) e3) d a.
Proof.
  intros H room bs rest Hb. apply (H room). rewrite <- Hb. unfold enc_seq.
  destruct (e1 room) as [b1 |]; [| done]. destruct (e2 _) as [b2 |]; [| done].
  rewrite blen_app, Z.sub_add_distr. destruct (e3 _); [| done]. by rewrite (assoc_L (++)).
Qed.

Lemma enc_seq_some e1 e2 room h : enc_seq e1 e2 room = Some h ->
  exists b1 b2, e1 room = Some b1 /\ e2 (room - blen b1) = Some b2 /\ h = b1 ++ b2.
Proof.
  unfold enc_seq. destruct (e1 room) as [b1 |]; [| done].
  destruct (e2 _) as [b2 |] eqn:E; [| done]. intros [= <-]. by exists b1, b2.
Qed.

Section codec.
Context `{FL : FramesLaws}.

Lemma parses_emit {B} n data (k : Z -> list Z -> B) :
  is_varint n -> blen data = n ->
  parses (enc_seq (picoquic_frames_varint_encode n) (emit data))
    (let! length := picoquic_frames_varlen_decode in
     let! data := dhere in
     let! _ := dmove (picoquic_frames_fixed_skip length) in
     dret (k length (ztake length data))) (k n data).
Proof.
  intros Hn Hd room bs rest. unfold enc_seq, emit.
  destruct (picoquic_frames_varint_encode n room) as [b1 |] eqn:E; [| done]. intros [= <-].
  unfold dbind, dhere, dmove, dret. rewrite <- (assoc_L (++)).
  rewrite (parses_varlen n Hn _ _ _ E). destruct Hn.
  rewrite fixed_skip_eq by lia. rewrite blen_app, Hd. pose proof (blen_nonneg rest).
  rewrite (proj2 (Z.leb_le _ _)) by lia. by rewrite ztake_app', zdrop_app' by done.
Qed.

(** A fragment header followed by the data is a whole message. *)
Lemma fragment_header_decodes g o nb off olen fl n data room h :
  is_varint g -> is_varint o -> is_varint nb -> is_varint off -> is_varint olen -> is_varint n ->
  blen data = n ->
  quicrq_fragment_msg_encode QUICRQ_ACTION_FRAGMENT g o nb off olen fl n None room = Some h ->
  quicrq_msg_decode (h ++ data) =
    Some (msg_set QUICRQ_ACTION_FRAGMENT 0 [] 0 g o (if (o =? 0) && (off =? 0) then nb else 0) off
            fl olen n (Some data) tm0 0 si0, []).
Proof.
  intros Hg Ho Hnb Hoff Holen Hn Hd Hh.
  assert (parses (enc_seq (quicrq_fragment_msg_encode QUICRQ_ACTION_FRAGMENT g o nb off olen fl n None)
                    (emit data)) quicrq_fragment_msg_decode
            (QUICRQ_ACTION_FRAGMENT, g, o, if (o =? 0) && (off =? 0) then nb else 0, off, olen, fl, n,
             data)) as Hp.
  { unfold quicrq_fragment_msg_encode, quicrq_fragment_msg_decode.
    assert (is_varint QUICRQ_ACTION_FRAGMENT) by done.
    do 6 (apply parses_assoc; eapply parses_seq; [eauto with codec |]).
    apply parses_assoc. eapply parses_seq; [apply parses_opt; eauto with codec |].
    by apply (parses_emit n data
      (fun length data => (QUICRQ_ACTION_FRAGMENT, g, o,
         if (o =? 0) && (off =? 0) then nb else 0, off, olen, fl, length, data))). }
  assert (exists r, picoquic_frames_varint_decode (h ++ data) = Some (QUICRQ_ACTION_FRAGMENT, r))
    as [r Ht].
  { apply enc_seq_some in Hh as (b1 & b2 & E & _ & ->). rewrite <- (assoc_L (++)).
    eexists. by apply (varint_decode_encode _ room). }
  unfold quicrq_msg_decode. rewrite Ht.
  unfold QUICRQ_ACTION_REQUEST, QUICRQ_ACTION_FIN_DATAGRAM, QUICRQ_ACTION_FRAGMENT at 1 2 3 4.
  cbn [Z.eqb Pos.eqb]. unfold dbind at 1.
  specialize (Hp room (h ++ data) []). rewrite app_nil_r in Hp. rewrite Hp; [done |].
  unfold enc_seq at 1, emit. by rewrite Hh.
Qed.

Lemma small_header g o nb off olen fl n :
  small g -> small o -> small nb -> small off -> small olen -> small n ->
  exists h, quicrq_fragment_msg_encode QUICRQ_ACTION_FRAGMENT g o nb off olen fl n None
              (QUICRQ_STREAM_HEADER_MAX - 2) = Some h /\ 0 <= blen h <= 14.
Proof.
  intros Hg Ho Hnb Hoff Holen Hn.
  assert (exists k, k <= 14 /\
    sized (quicrq_fragment_msg_encode QUICRQ_ACTION_FRAGMENT g o nb off olen fl n None) k)
    as (k & Hk & Hs0 & Hs & _).
  { eexists. split; cycle 1.
    - unfold quicrq_fragment_msg_encode. pose proof (small_varint _ Hg). pose proof (small_varint _ Ho).
      pose proof (small_varint _ Hnb). pose proof (small_varint _ Hoff).
      pose proof (small_varint _ Holen). pose proof (small_varint _ Hn).
      assert (is_varint QUICRQ_ACTION_FRAGMENT) by done. size_fields.
    - rewrite (varint_length_1 QUICRQ_ACTION_FRAGMENT) by done.
      pose proof (varint_length_2 _ Hg). pose proof (varint_length_2 _ Ho).
      pose proof (varint_length_2 _ Hnb). pose proof (varint_length_2 _ Hoff).
      pose proof (varint_length_2 _ Holen). pose proof (varint_length_2 _ Hn).
      destruct (_ && _); lia. }
  destruct (Hs (QUICRQ_STREAM_HEADER_MAX - 2)) as (h & -> & <-); [unfold QUICRQ_STREAM_HEADER_MAX; lia |].
  exists h. done.
Qed.
End codec.

(** ** The sender *)

(** The message of a fragment, as its receiver decodes it. *)
Definition fragment_message (f : fragment) : quicrq_message_t :=
  msg_set QUICRQ_ACTION_FRAGMENT 0 [] 0 (f_group f) (f_object f) (f_nb_previous f) (f_offset f)
    (f_flags f) (f_object_length f) (f_data_length f) (Some (f_data f)) tm0 0 si0.
Definition final_message (g o : Z) : quicrq_message_t :=
  msg_set QUICRQ_ACTION_FIN_DATAGRAM 0 [] 0 g o 0 0 0 0 0 None tm0 0 si0.

(** The media whose headers fit: no object is empty, and objects and groups
    have less than 2^14 bytes and objects. *)
Record sendable (md : media) : Prop := {
  sd_nonempty : forall k, 0 < blen (content md k);
  sd_length : forall k, blen (content md k) < 16384;
  sd_count : forall g, count md g < 16384;
}.

Section sender.
Context `{SL : SplayLaws quicrq_cached_fragment_t quicrq_fragment_cache_node_compare}.
Context {So : Splay okey quicrq_fragment_publisher_object_node_compare}.
Context `{FL : FramesLaws} {PS : PicoStream}.
Context (md : media).
Implicit Types c : quicrq_fragment_cache_t.
Implicit Types s : quicrq_stream_ctx_t.
Implicit Types m : quicrq_fragment_publisher_context_t.

Definition stream_position s : position :=
  (st_next_group_id s, st_next_object_id s, st_next_object_offset s).

(** The cache holds fragments of the media, before the final point. *)
Record cache_sendable c : Prop := {
  cs_tidy : tidy md c;
  cs_media : in_media md c;
  cs_final : forall f, f ∈ fc_fragments c ->
    past_final c (cf_group_id f) (cf_object_id f) = false;
  cs_groups : forall f, f ∈ fc_fragments c -> cf_group_id f < 16384;
}.

(** The stream and its publisher are at the same position; a group is entered
    when some of its data is sent. *)
Record sender_ok c s m : Prop := {
  se_reader : reader_ok md c m;
  se_position : stream_position s = reader_position m;
  se_group : st_next_group_id s < 16384;
  se_entered : st_next_object_id s = 0 -> st_next_object_offset s = 0 -> st_next_group_id s = 0;
}.

(** What the poll finds: nothing, or a fragment with data to send, maybe in
    the next group. *)
Lemma poll_cases c p qr_mode cg next max now :
  sendable md -> cache_sendable c -> reader_ok md c p ->
  past_final c (pc_current_group_id p) (pc_current_object_id p) = false ->
  exists p' out, publisher_get_data qr_mode c p cg next false max 0 now = Some (p', cg, out) /\
    reader_ok md c p' /\ so_should_skip out = false /\ so_is_media_finished out = false /\
    reader_position p' = enter_group (reader_position p) out /\
    match pc_current_fragment p' with
    | None => so_is_new_group out = false /\ so_data_length out = 0 /\ so_flags out = 0 /\
        (let k := next_byte md (reader_position p) in ~ cached c k.1 k.2)
    | Some f =>
        so_data_length out = Z.min max (cf_data_length f - pc_length_sent p') /\
        so_flags out = cf_flags f /\ so_object_length out = cf_object_length f /\
        0 < cf_data_length f - pc_length_sent p' /\
        past_final c (pc_current_group_id p') (pc_current_object_id p') = false /\
        pc_current_group_id p' < 16384 /\
        (so_is_new_group out = true ->
         pc_current_object_id p = count md (pc_current_group_id p) /\
         pc_current_offset p + pc_length_sent p = 0)
    end.
Proof.
  intros Hsd [Ht Hin Hfin Hgr] Hr Hf. unfold publisher_get_data. rewrite Hf.
  destruct (find_current_spec md c p Ht Hin Hr) as (p1 & new & -> & Hr1 & Hpos & _ & Hnone & Hnew).
  assert (forall out, so_is_new_group out = new ->
    reader_position p1 = enter_group (reader_position p) out) as Hent.
  { intros out E. rewrite Hpos. unfold enter_group, reader_position. by rewrite E. }
  destruct (pc_current_fragment p1) as [f |] eqn:Ef.
  - pose proof (ro_fragment _ _ _ Hr1) as Hc. rewrite Ef in Hc.
    destruct Hc as (Hfc & Hk & Hfo & Hsent & Hend). injection Hk as Hk1 Hk2.
    rewrite (tidy_deref md c f Ht Hfc). cbn [mbind option_bind].
    assert (0 < cf_data_length f) as Hpos0.
    { destruct (td_nonempty _ _ Ht f Hfc) as [? | E]; [done |].
      pose proof (sd_nonempty _ Hsd (frag_key f)). lia. }
    pose proof (piece_end _ _ (tidy_piece md c f Ht Hfc)) as [_ Hbig].
    pose proof (pc_range _ _ (tidy_piece md c f Ht Hfc)) as Hrange.
    rewrite (u64_small (cf_data_length f - pc_length_sent p1)) by u64_lia.
    assert ((if cf_data_length f - pc_length_sent p1 <=? max
             then (true, cf_data_length f - pc_length_sent p1) else (false, max))
            = (cf_data_length f - pc_length_sent p1 <=? max,
               Z.min max (cf_data_length f - pc_length_sent p1))) as ->.
    { dmatch; b2p; f_equal; lia. }
    destruct (_ && _);
      [unfold quicrq_evaluate_stream_congestion; rewrite (ro_mode _ _ _ Hr1) |];
      (eexists p1, _; split; [done |]; rewrite Ef; split_and!; try done; try (by apply Hent);
        [lia | rewrite <- Hk1, <- Hk2; by apply Hfin | rewrite <- Hk1; by apply Hgr
        | intros E; destruct (Hnew E) as (? & ? & _); done]).
  - assert (new = false) as ->.
    { destruct new; [| done]. destruct Hnew as (_ & _ & [x Hx]); done. }
    eexists p1, _. split; [done |]. rewrite Ef. split_and!; try done.
    assert (reader_position p1 = reader_position p) as Ep by done. rewrite <- Ep. intros Hc.
    destruct (cached_fragment md c p1 Ht Hr1 Ef Hc) as (x & Hx & Hkx).
    apply (Hnone eq_refl x Hx). by rewrite <- Ep.
Qed.

(** A read of the current fragment. *)
Lemma read_current c p f qr_mode cg next n flags now :
  cache_sendable c -> reader_ok md c p -> pc_current_fragment p = Some f ->
  past_final c (pc_current_group_id p) (pc_current_object_id p) = false ->
  0 <= n <= cf_data_length f - pc_length_sent p ->
  let '(g, o, off) := reader_position p in
  exists p' out, publisher_get_data qr_mode c p cg next true n flags now = Some (p', cg, out) /\
    reader_ok md c p' /\ so_data out = slice (content md (g, o)) off n /\ so_data_length out = n /\
    so_object_length out = blen (content md (g, o)) /\ so_is_media_finished out = false /\
    0 <= off /\ off + n <= blen (content md (g, o)) /\
    reader_position p' = if blen (content md (g, o)) <=? off + n then (g, o + 1, 0) else (g, o, off + n).
Proof.
  intros [Ht Hin _ _] Hr Ef Hf Hn. unfold reader_position at 1, publisher_get_data. rewrite Hf.
  pose proof Hr as [_ Hskip _ _ Hoff Hc _]. rewrite Ef in Hc. destruct Hc as (Hfc & Hk & Hfo & Hsent & _).
  pose proof (tidy_piece md c f Ht Hfc) as Hp. pose proof (piece_end _ _ Hp) as [_ Hbig].
  pose proof (pc_range _ _ Hp) as Hrange. pose proof (pc_length _ _ Hp) as Hlen.
  pose proof Hk as [= Hk1 Hk2]. rewrite Hk1, Hk2 in Hrange, Hlen.
  unfold find_current_fragment. rewrite Hskip, Ef, Ef, (tidy_deref md c f Ht Hfc). cbn [mbind option_bind].
  rewrite (u64_small (cf_data_length f - _)) by u64_lia.
  destruct (current_slice md c p f n Ht Hr Ef ltac:(lia)) as [Esl _].
  assert ((if cf_data_length f - pc_length_sent p <=? n
           then (true, cf_data_length f - pc_length_sent p) else (false, n))
          = (cf_data_length f - pc_length_sent p <=? n, n)) as -> by (dmatch; b2p; f_equal; lia).
  rewrite (proj2 (Z.ltb_ge _ _)) by lia. rewrite (u64_small (_ + n)), Esl, Hlen by u64_lia.
  destruct (Z.leb_spec (cf_data_length f - pc_length_sent p) n) as [Hle | Hlt].
  - destruct (end_fragment_spec md c p f (pc_length_sent p + n) (pc_is_current_fragment_sent p)
                Ht Hin Hr Ef) as (H1 & _ & H3).
    eexists _, _. split; [done |]. cbn [so_data so_data_length so_object_length so_is_media_finished].
    split_and!; try done || lia. rewrite H3, Hlen.
    by replace (pc_current_offset p + pc_length_sent p + n) with (pc_current_offset p + cf_data_length f)
      by lia.
  - eexists _, _. split; [done |]. cbn [so_data so_data_length so_object_length so_is_media_finished].
    split_and!; try done || lia.
    + split; cbn; try apply Hr. rewrite Ef. split_and!; done || lia.
    + unfold reader_position. cbn. rewrite (proj2 (Z.leb_gt _ _)) by lia. by rewrite Z.add_assoc.
Qed.

Lemma frame_length_bytes l : blen l < 65536 -> length_bytes (blen l) ++ l = frame l.
Proof.
  intros. pose proof (blen_nonneg l). unfold length_bytes, frame. f_equal. f_equal.
  unfold u8. apply Z.mod_small. rewrite Z.shiftr_div_pow2 by lia. change (2 ^ 8) with 256.
  split; [apply Z.div_pos; lia | apply Z.div_lt_upper_bound; lia].
Qed.

(** The header, and the length of the data that it announces. *)
Lemma final_header_spec s nb olen flags n h_size space :
  small (st_next_group_id s) -> small (st_next_object_id s) -> small nb ->
  small (st_next_object_offset s) -> small olen -> 17 <= space < 16384 ->
  0 < n <= space - h_size -> 2 <= h_size ->
  exists header n', final_header s nb olen flags n h_size space = Some (Some (header, n')) /\
    stream_header s nb (st_next_object_offset s) olen flags n' = Some header /\
    0 < n' <= n /\ 0 <= blen header <= 14.
Proof.
  intros Hg Ho Hnb Hoff Holen Hspace Hn Hh. unfold final_header.
  assert (forall k, 0 <= k <= n -> exists header,
    stream_header s nb (st_next_object_offset s) olen flags k = Some header /\
    0 <= blen header <= 14) as Henc.
  { intros k Hk. apply small_header; try done. unfold small. lia. }
  destruct (Henc n ltac:(lia)) as (h1 & E1 & H1). rewrite E1.
  destruct (_ =? h_size); [exists h1, n; split_and!; try done; lia |].
  rewrite u64_small by u64_lia. destruct (Z.ltb_spec space (2 + blen h1 + n)).
  - rewrite u64_small by u64_lia.
    destruct (Henc (space - (2 + blen h1)) ltac:(lia)) as (h2 & E2 & H2). rewrite E2.
    cbn [mbind option_bind]. eexists h2, _. split; [done |]. split; [done |]. split; [lia | done].
  - exists h1, n. split_and!; try done; lia.
Qed.

Context (provided : forall n is_fin active, picoquic_provide_stream_data_buffer n is_fin active = true).

(** What a call writes when there is data: the frame of a fragment of the media
    that starts at the position of the stream. *)
Definition writes_fragment (p : position) (f : fragment) (calls : list pico_call) : Prop :=
  consistent md f /\ (f_group f, f_object f, f_offset f) = p /\ 0 < f_data_length f /\
  exists bytes, calls = [stream_data (frame bytes) false true] /\ blen bytes < 65536 /\
    quicrq_msg_decode bytes = Some (fragment_message f, []).

(** The data of the current fragment, in the space left by the header. *)
Lemma send_fragment_spec qr_mode c s m cg f nb n h_size space now :
  sendable md -> cache_sendable c -> reader_ok md c m -> pc_current_fragment m = Some f ->
  stream_position s = reader_position m -> pc_current_group_id m < 16384 ->
  past_final c (pc_current_group_id m) (pc_current_object_id m) = false ->
  small nb -> (0 < pc_current_group_id m -> pc_current_object_id m = 0 ->
     pc_current_offset m + pc_length_sent m = 0 -> nb = count md (pc_current_group_id m - 1)) ->
  17 <= space < 16384 -> 2 <= h_size -> 0 < n <= space - h_size ->
  n <= cf_data_length f - pc_length_sent m ->
  exists s' m' g calls,
    send_fragment qr_mode c s m cg nb (cf_object_length f) (cf_flags f) n h_size space now
      = Some (s', m', cg, 0, calls) /\
    writes_fragment (reader_position m) g calls /\
    reader_ok md c m' /\ stream_position s' = reader_position m' /\
    media_prefix md (reader_position m') = media_prefix md (reader_position m) ++ f_data g /\
    reader_position m' = (if f_object_length g <=? f_offset g + f_data_length g
                          then (f_group g, f_object g + 1, 0)
                          else (f_group g, f_object g, f_offset g + f_data_length g)) /\
    s' = st_set_next s (st_next_group_id s') (st_next_object_id s') (st_next_object_offset s').
Proof.
  intros Hsd Hcs Hr Ef Hpos Hgs Hf Hnb Hcount Hspace Hh Hn Havail.
  pose proof Hr as [_ _ Hg Ho Hoff Hc _]. rewrite Ef in Hc. destruct Hc as (Hfc & Hk & Hfo & Hsent & _).
  pose proof (tidy_piece md c f (cs_tidy _ Hcs) Hfc) as Hp. pose proof (pc_length _ _ Hp) as Hlen.
  pose proof Hk as [= Hk1 Hk2]. rewrite Hk1, Hk2 in Hlen.
  pose proof (cs_media _ Hcs f Hfc) as Hlt. rewrite Hk1, Hk2 in Hlt.
  pose proof (read_current c m f qr_mode cg (st_next_object_id s)) as Hread.
  unfold reader_position in *. set (g := pc_current_group_id m) in *.
  set (o := pc_current_object_id m) in *. set (off := pc_current_offset m + pc_length_sent m) in *.
  injection Hpos as Eg Eo Eoff. pose proof (sd_length _ Hsd (g, o)). pose proof (sd_count _ Hsd g).
  destruct (Hread 0 (cf_flags f) now Hcs Hr Ef Hf ltac:(lia)) as (_ & _ & _ & _ & _ & _ & _ & _ & _ & Hin0 & _).
  destruct (final_header_spec s nb (cf_object_length f) (cf_flags f) n h_size space)
    as (h & n' & E & Eh & Hn' & Hbl);
    [rewrite ?Eg, ?Eo, ?Eoff; unfold small, is_id in *; lia .. |].
  unfold send_fragment. rewrite E. cbn [mbind option_bind]. rewrite provided. cbn [negb].
  destruct (Hread n' (cf_flags f) now Hcs Hr Ef Hf ltac:(lia))
    as (m' & out & -> & Hr' & Ed & El & Eol & Efin & Hoff0 & Hend & Hpos').
  cbn [mbind option_bind]. rewrite El, Z.eqb_refl, Efin, Eol, Eg, Eo, Eoff. cbn [negb].
  rewrite (u64_small (off + n')) by u64_lia. rewrite (u64_small (o + 1)) by u64_lia.
  rewrite Ed. set (data := slice (content md (g, o)) off n').
  assert (blen data = n') as Hd by (apply blen_slice; lia).
  rewrite (u64_small (2 + blen h - 2 + n')) by u64_lia.
  replace (2 + blen h - 2 + n') with (blen (h ++ data)) by (rewrite blen_app; lia).
  rewrite frame_length_bytes by (rewrite blen_app; lia).
  set (nb' := if (o =? 0) && (off =? 0) then nb else 0).
  eexists _, m', {| f_time := 0; f_data := data; f_group := g; f_object := o; f_offset := off;
    f_delay := 0; f_flags := cf_flags f; f_nb_previous := nb';
    f_object_length := blen (content md (g, o)); f_data_length := n' |}, _.
  split; [done |]. cbn [f_data f_group f_object f_offset f_object_length f_data_length].
  split; [| split; [done |]; split; [| split; [| split; [done |]]]].
  - split; [| split; [done |]; split; [cbn; lia |]].
    + assert (is_id o) as Hio by (unfold is_id, two62; lia).
      split; unfold f_key; cbn; [done | done | done | lia | done |].
      intros Hg0 E0 E1. unfold nb'. rewrite E0, E1. cbn [Z.eqb andb]. by apply Hcount.
    + exists (h ++ data). split; [done |]. split; [rewrite blen_app; lia |].
      unfold stream_header in Eh. rewrite Eg, Eo, Eoff, Hlen in Eh.
      unfold fragment_message; cbn. eapply fragment_header_decodes; try exact Eh; try done;
        apply small_varint; unfold small, is_id in *; lia.
  - rewrite Hpos'. by destruct (_ <=? off + n').
  - rewrite Hpos'. destruct (Z.leb_spec (blen (content md (g, o))) (off + n')).
    + rewrite media_prefix_object by lia. unfold data. rewrite <- media_prefix_data by lia.
      f_equal. f_equal. lia.
    + apply media_prefix_data; lia.
  - destruct (_ <=? off + n'); done.
Qed.

Lemma reader_offset c m : cache_sendable c -> reader_ok md c m ->
  pc_current_offset m + pc_length_sent m
    <= blen (content md (pc_current_group_id m, pc_current_object_id m)).
Proof.
  intros Hcs [_ _ _ _ Hoff Hf Hb]. pose proof (cs_tidy _ Hcs) as Ht.
  assert (forall f, f ∈ fc_fragments c ->
    frag_key f = (pc_current_group_id m, pc_current_object_id m) ->
    cf_offset f + cf_data_length f <= blen (content md (pc_current_group_id m, pc_current_object_id m)))
    as Hend.
  { intros f Hf0 Hk. pose proof (pc_range _ _ (tidy_piece md c f Ht Hf0)) as Hr.
    unfold frag_key in Hk. rewrite Hk in Hr. lia. }
  destruct (pc_current_fragment m) as [f |].
  - destruct Hf as (Hf0 & Hk & Ho & Hs). specialize (Hend f Hf0 Hk). lia.
  - rewrite Hf. destruct Hb as [-> | (f & Hf0 & Hk & _ & He)].
    + pose proof (blen_nonneg (content md (pc_current_group_id m, pc_current_object_id m))). lia.
    + specialize (Hend f Hf0 Hk). lia.
Qed.

(** The position after a fragment, and the fragments that may follow a
    position. *)
Definition after_fragment (f : fragment) : position :=
  if f_object_length f <=? f_offset f + f_data_length f then (f_group f, f_object f + 1, 0)
  else (f_group f, f_object f, f_offset f + f_data_length f).
Definition follows (p : position) (f : fragment) : Prop :=
  p = (f_group f, f_object f, f_offset f) \/
  exists g, 0 <= g /\ p = (g, count md g, 0) /\ (f_group f, f_object f, f_offset f) = (g + 1, 0, 0).

(** The position of the stream follows that of the publisher, and the number of
    objects of a group that was left is right. *)
Lemma stream_enters c s m m1 out : sendable md -> sender_ok c s m ->
  reader_position m1 = enter_group (reader_position m) out ->
  (so_is_new_group out = true ->
    pc_current_object_id m = count md (pc_current_group_id m) /\ pc_current_offset m + pc_length_sent m = 0) ->
  exists s1 nb,
    (if so_is_new_group out
     then (st_set_next s (st_next_group_id s +64 1) 0 0, st_next_object_id s) else (s, 0)) = (s1, nb) /\
    s1 = st_set_next s (st_next_group_id s1) (st_next_object_id s1) (st_next_object_offset s1) /\
    stream_position s1 = reader_position m1 /\ small nb /\
    (0 < pc_current_group_id m1 -> pc_current_object_id m1 = 0 -> pc_current_offset m1 + pc_length_sent m1 = 0 ->
     nb = count md (pc_current_group_id m1 - 1)) /\
    (stream_position s = stream_position s1 \/
     exists g, 0 <= g /\ stream_position s = (g, count md g, 0) /\ stream_position s1 = (g + 1, 0, 0)).
Proof.
  intros Hsd [Hr Hpos Hgr Hent] Hpos1 Hnew. unfold stream_position, reader_position in Hpos. injection Hpos as Eg Eo Eoff.
  pose proof Hr as [_ _ Hg Ho Hoff Hc _]. pose proof (sd_count _ Hsd (pc_current_group_id m)).
  destruct (so_is_new_group out) eqn:En; eexists _, _; (split; [reflexivity |]).
  - destruct (Hnew eq_refl) as [Ecount E0]. cbn [st_set_next st_next_group_id st_next_object_id st_next_object_offset].
    rewrite Eg, Eo, u64_small by (unfold is_id in *; u64_lia).
    assert (reader_position m1 = (pc_current_group_id m + 1, 0, 0)) as Ep.
    { rewrite Hpos1. unfold enter_group, reader_position. by rewrite En. }
    injection Ep as E1 E2 E3.
    split; [done |]. split; [unfold stream_position, reader_position; cbn; congruence |].
    split; [unfold small; lia |]. split; [intros; rewrite Ecount; f_equal; lia |].
    right. exists (pc_current_group_id m). unfold stream_position. cbn.
    split; [apply Hg |]. split; [congruence | done].
  - split; [by destruct s |].
    assert (reader_position m1 = reader_position m) as Ep.
    { rewrite Hpos1. unfold enter_group, reader_position. by rewrite En. }
    injection Ep as E1 E2 E3.
    split; [unfold stream_position, reader_position; congruence |].
    split; [unfold small; lia |]. split; [| by left].
    intros Hg0 Ho0 Hoff0. specialize (Hent ltac:(lia) ltac:(lia)). lia.
Qed.

(** One call: a fragment, or nothing if the next byte is not in the cache; the
    final message when the final point is reached. *)
Lemma prepare_media_spec qr_mode c s m cg space now :
  sendable md -> cache_sendable c -> sender_ok c s m -> 17 <= space < 16384 ->
  past_final c (st_next_group_id s) (st_next_object_id s) = false ->
  exists s' m' calls,
    quicrq_prepare_to_send_media_to_stream qr_mode c s m cg space now = Some (s', m', cg, 0, calls) /\
    s' = st_set_next s (st_next_group_id s') (st_next_object_id s') (st_next_object_offset s') /\
    sender_ok c s' m' /\
    ((exists f, follows (stream_position s) f /\
        writes_fragment (f_group f, f_object f, f_offset f) f calls /\
        stream_position s' = after_fragment f) \/
     (calls = [picoquic_mark_active_stream (st_stream_id s) false] /\
      stream_position s' = stream_position s /\
      let k := next_byte md (stream_position s) in ~ cached c k.1 k.2)).
Proof.
  intros Hsd Hcs Hsok Hspace Hf. pose proof Hsok as [Hr Hpos Hgr Hent].
  unfold stream_position, reader_position in Hpos. injection Hpos as Eg Eo Eoff.
  pose proof Hr as [_ _ Hg Ho Hoff Hc _]. pose proof (sd_count _ Hsd (pc_current_group_id m)).
  pose proof (reader_offset c m Hcs Hr) as Hoffend.
  pose proof (sd_length _ Hsd (pc_current_group_id m, pc_current_object_id m)).
  assert (0 <= pc_length_sent m) as Hsent0.
  { destruct (pc_current_fragment m); [apply Hc | lia]. }
  unfold quicrq_prepare_to_send_media_to_stream.
  destruct (small_header (st_next_group_id s) (st_next_object_id s) 0 (st_next_object_offset s)
              (st_next_object_offset s) 0 space) as (mock & Em & Hm);
    [rewrite ?Eg, ?Eo, ?Eoff in *; unfold small, is_id in *; lia .. |].
  unfold stream_header at 1. rewrite Em, (proj2 (Z.ltb_ge _ _)) by lia.
  rewrite Eg, Eo in Hf.
  destruct (poll_cases c m qr_mode cg (st_next_object_id s) (space - (2 + blen mock)) now Hsd Hcs Hr Hf)
    as (m1 & out & -> & Hr1 & Hskip & Hfin & Hpos1 & Hcase).
  cbn [mbind option_bind]. rewrite Hskip, Hfin.
  destruct (pc_current_fragment m1) as [f |] eqn:Ef.
  - destruct Hcase as (Hlen & Hfl & Holen & Hrem & Hf1 & Hg1 & Hnew).
    set (h_size := 2 + blen mock) in *. set (n := so_data_length out) in *.
    destruct (stream_enters c s m m1 out Hsd Hsok Hpos1 Hnew) as (s1 & nb & -> & Es1 & Hp1 & Hnb & Hcount & Hfollow).
    rewrite (proj2 (Z.eqb_neq n 0)) by lia. cbn [andb].
    destruct (send_fragment_spec qr_mode c s1 m1 cg f nb n h_size space now)
      as (s' & m' & fr & calls & E & Hw & Hr' & Hp' & _ & Haft & Es'); try done; try lia.
    rewrite Hfl, Holen, E. exists s', m', calls. split; [done |].
    assert (reader_position m1 = (f_group fr, f_object fr, f_offset fr)) as Efr by (symmetry; apply Hw).
    split; [rewrite Es', Es1; by destruct s |]. split.
    + destruct Hw as ([_ [Ho0 _] _ [Hoff0 _] _ _] & _ & Hlen0 & _). unfold is_id in Ho0.
      rewrite Haft in Hp'. injection Efr as E1 E2 E3. unfold stream_position in Hp'.
      split; [done | unfold stream_position; congruence | |];
        destruct (_ <=? _); injection Hp' as P1 P2 P3; lia.
    + left. exists fr. split; [| split; [by rewrite <- Efr | by rewrite Hp', Haft]].
      unfold follows. rewrite <- Efr, <- Hp1. destruct Hfollow as [-> | (g & Hg0 & E1 & E2)]; [by left | right].
      exists g. by rewrite E1, E2.
  - destruct Hcase as (Hnew & Hlen & Hfl & Hno). rewrite Hnew, Hlen, Hfl. cbn [Z.eqb negb andb].
    assert (reader_position m1 = reader_position m) as Ep.
    { rewrite Hpos1. unfold enter_group, reader_position. by rewrite Hnew. }
    eexists s, m1, _. split; [done |]. split; [by destruct s |]. split.
    + split; try done. unfold stream_position. rewrite Ep. unfold reader_position. congruence.
    + right. split; [done |]. split; [done |]. by rewrite (se_position _ _ _ Hsok).
Qed.

(** The end of the media: the final message, with the position reached. *)
Lemma prepare_final_spec qr_mode c s m cg space now :
  sendable md -> cache_sendable c -> sender_ok c s m -> 17 <= space < 16384 ->
  past_final c (st_next_group_id s) (st_next_object_id s) = true ->
  exists s' m' bytes,
    quicrq_prepare_to_send_media_to_stream qr_mode c s m cg space now
      = Some (s', m', cg, 0, [stream_data (frame bytes) true false]) /\
    stream_position s' = stream_position s /\ st_is_final_object_id_sent s' = true /\
    blen bytes < 65536 /\
    quicrq_msg_decode bytes = Some (final_message (st_next_group_id s) (st_next_object_id s), []).
Proof.
  intros Hsd Hcs [Hr Hpos Hgr Hent] Hspace Hf.
  unfold stream_position, reader_position in Hpos. injection Hpos as Eg Eo Eoff.
  pose proof Hr as [_ _ Hg Ho Hoff Hc _]. pose proof (sd_count _ Hsd (pc_current_group_id m)).
  pose proof (reader_offset c m Hcs Hr) as Hoffend.
  pose proof (sd_length _ Hsd (pc_current_group_id m, pc_current_object_id m)).
  assert (0 <= pc_length_sent m) as Hsent0.
  { destruct (pc_current_fragment m); [apply Hc | lia]. }
  assert (small (st_next_group_id s) /\ small (st_next_object_id s)) as [Hg1 Ho1]
    by (rewrite Eg, Eo; unfold small, is_id in *; lia).
  unfold quicrq_prepare_to_send_media_to_stream.
  destruct (small_header (st_next_group_id s) (st_next_object_id s) 0 (st_next_object_offset s)
              (st_next_object_offset s) 0 space) as (mock & Em & Hm); try done;
    [rewrite ?Eoff; unfold small, is_id in *; lia .. |].
  unfold stream_header. rewrite Em, (proj2 (Z.ltb_ge _ _)) by lia.
  unfold publisher_get_data. rewrite <- Eg, <- Eo, Hf.
  cbn [mbind option_bind so_is_new_group so_data_length so_should_skip so_flags so_is_media_finished
    Z.eqb negb andb].
  set (g := st_next_group_id s) in *. set (o := st_next_object_id s) in *.
  destruct (msg_fits (final_message g o)) as (k & Hk & Hs0 & Hs & _);
    [| done | done |].
  { unfold final_message, msg_in_range. cbn. pose proof (small_varint _ Hg1).
    pose proof (small_varint _ Ho1). split_and!; done. }
  unfold msg_reserve in Hk. cbn -[quicrq_fin_msg_reserve] in Hk. unfold quicrq_fin_msg_reserve in Hk.
  pose proof (varint_length_2 g Hg1). pose proof (varint_length_2 o Ho1).
  destruct (Hs (QUICRQ_STREAM_HEADER_MAX - 2)) as (bytes & Eb & Hlen).
  { unfold QUICRQ_STREAM_HEADER_MAX. lia. }
  change (quicrq_fin_msg_encode QUICRQ_ACTION_FIN_DATAGRAM g o (QUICRQ_STREAM_HEADER_MAX - 2) = Some bytes)
    in Eb.
  unfold send_fin. cbn [st_set_final st_final_group_id st_final_object_id].
  fold g o. rewrite Eb, (proj2 (Z.ltb_ge _ _)) by lia. rewrite provided. cbn [negb].
  replace (2 + blen bytes - 2) with (blen bytes) by lia. rewrite frame_length_bytes by lia.
  eexists _, m, bytes. split; [done |]. split; [| split; [| split; [lia |]]].
  - destruct (bool_decide _); unfold stream_position; cbn; done.
  - by destruct (bool_decide _).
  - rewrite <- (app_nil_r bytes). apply (msg_parses (final_message g o) (QUICRQ_STREAM_HEADER_MAX - 2));
      [| done | done].
    unfold final_message, msg_in_range. cbn. pose proof (small_varint _ Hg1).
    pose proof (small_varint _ Ho1). split_and!; done.
Qed.
End sender.
