(* ===== verification/MediaStreamTheorems.v ===== *)
(** * What a single stream sender guarantees

    Any interleaving of the arrival of fragments in the cache and of calls of
    the transport: the bytes written on the stream are frames of messages that
    decode to fragments of the media, from its beginning, in order and without
    a gap, and, once the final point is reached, the final message. *)

From S2P Require Import Prelude Picosplay PicoFrames Media Proto Fragment FragmentProofs FragmentReads.
From S2P Require Import FragmentHistory FragmentTheorems PublisherContext Congestion Publisher.
From S2P Require Import PublisherProofs MsgBuffer MsgBufferTheorems StreamContext MediaStream.
From S2P Require Import MediaStreamProofs.

(** ** Paths of fragments *)

Section path.
Context (md : media).

(** The fragments that lead from a position to another one. *)
Inductive path (p : position) : list fragment -> position -> Prop :=
  | path_nil : path p [] p
  | path_snoc fs q f :
      path p fs q -> follows md q f -> consistent md f -> 0 < f_data_length f ->
      path p (fs ++ [f]) (after_fragment f).

Lemma path_end_unique p fs q q' : path p fs q -> path p fs q' -> q = q'.
Proof.
  intros H H'. destruct H as [| fs q f]; inversion H' as [E | fs' q'' f' _ _ _ _ E]; subst; try done.
  - by destruct fs'.
  - by destruct fs.
  - by apply app_inj_tail in E as [_ ->].
Qed.

Definition f_position (f : fragment) : position := (f_group f, f_object f, f_offset f).

Lemma follows_prefix q f : follows md q f -> media_prefix md (f_position f) = media_prefix md q.
Proof.
  intros [-> | (g & Hg & -> & E)]; [done |]. unfold f_position. rewrite E. by apply media_prefix_group.
Qed.

Lemma path_prefix p fs q : path p fs q ->
  media_prefix md q = media_prefix md p ++ concat (map f_data fs).
Proof.
  induction 1 as [| fs q f _ IH Hf [_ [Ho _] Hlen Hr Hd _] _]; [by rewrite app_nil_r |].
  rewrite map_app, concat_app, (assoc_L (++)), <- IH, <- (follows_prefix q f Hf).
  cbn [map concat].
  unfold f_position, f_key in *. rewrite app_nil_r, Hd. rewrite <- media_prefix_data by lia.
  unfold after_fragment, is_id in *. rewrite Hlen. destruct (Z.leb_spec
    (blen (content md (f_group f, f_object f))) (f_offset f + f_data_length f)); [| done].
  rewrite media_prefix_object by lia. f_equal. f_equal. lia.
Qed.

(** The byte [i] of an object is before a position. *)
Definition before (p : position) (k : Z * Z) (i : Z) : Prop :=
  let '(g, o, off) := p in k.1 < g \/ (k.1 = g /\ (k.2 < o \/ (k.2 = o /\ i < off))).

(** The fragments of a path from the beginning of the media have exactly the
    bytes that are before its end. *)
Lemma path_received fs q : path (0, 0, 0) fs q ->
  forall k i, 0 <= k.1 -> 0 <= k.2 < count md k.1 -> 0 <= i < blen (content md k) ->
  byte_received fs k i <-> before q k i.
Proof.
  intros Hp k i Hk1 Hk2 Hi. induction Hp as [| fs q f _ IH Hf [_ [_ Ho] Hlen Hr _ _] Hpos].
  { unfold byte_received. rewrite Exists_nil. cbn. lia. }
  unfold byte_received in *. rewrite Exists_app, IH, Exists_cons, Exists_nil.
  unfold f_key in *. destruct k as [kg ko]. cbn [fst snd] in *.
  rewrite pair_equal_spec.
  assert (blen (content md (f_group f, f_object f)) = f_object_length f) as Hb by done.
  unfold after_fragment. destruct Hf as [-> | (g & Hg & -> & [= E1 E2 E3])]; cbn [before fst snd];
    destruct (Z.leb_spec (f_object_length f) (f_offset f + f_data_length f)); cbn [before fst snd].
  - destruct (Z.eq_dec kg (f_group f)) as [-> |]; [| lia].
    destruct (Z.eq_dec ko (f_object f)) as [-> |]; lia.
  - lia.
  - rewrite E1, E2, E3 in *. destruct (Z.eq_dec kg (g + 1)) as [-> |].
    + destruct (Z.eq_dec ko 0) as [-> |]; lia.
    + destruct (Z.eq_dec kg g) as [-> |]; lia.
  - rewrite E1, E2, E3 in *. destruct (Z.eq_dec kg g) as [-> |]; lia.
Qed.
End path.

(** ** Histories of a sender *)

(** Frames whose bodies decode to the messages. *)
Definition framed {PF : PicoFrames} (bytes : list Z) (messages : list quicrq_message_t) : Prop :=
  exists bodies, bytes = concat (map frame bodies) /\
    Forall2 (fun b m => blen b < 65536 /\ quicrq_msg_decode b = Some (m, [])) bodies messages.

Lemma framed_nil {PF : PicoFrames} : framed [] [].
Proof. exists []. by split. Qed.

Lemma framed_snoc {PF : PicoFrames} bytes messages b m : framed bytes messages -> blen b < 65536 ->
  quicrq_msg_decode b = Some (m, []) -> framed (bytes ++ frame b) (messages ++ [m]).
Proof.
  intros (bodies & -> & H) Hl Hd. exists (bodies ++ [b]). split.
  - rewrite map_app, concat_app. cbn. by rewrite app_nil_r.
  - apply Forall2_app; [done |]. by repeat constructor.
Qed.

Inductive sender_event :=
  | Arrive (f : fragment)                   (* a fragment arrives in the cache *)
  | FinalPoint (group_id object_id : Z)     (* the final point is learned *)
  | Prepare (space now : Z).                (* picoquic asks for at most [space] bytes *)

Section history.
Context `{SL : SplayLaws quicrq_cached_fragment_t quicrq_fragment_cache_node_compare}.
Context {So : Splay okey quicrq_fragment_publisher_object_node_compare}.
Context {Al : Allocator} `{FL : FramesLaws} {PS : PicoStream}.
Context (qr_mode : quicrq_congestion_control_enum).

Record sender_world := {
  sw_cache : quicrq_fragment_cache_t;
  sw_stream : quicrq_stream_ctx_t;
  sw_publisher : quicrq_fragment_publisher_context_t;
  sw_congestion : quicrq_cnx_congestion_state_t;
  sw_calls : list pico_call;
}.

Definition sender_start (stream_id : Z) (cg : quicrq_cnx_congestion_state_t) : sender_world := {|
  sw_cache := quicrq_fragment_cache_create_ctx;
  sw_stream := stream_zero stream_id;
  sw_publisher :=
    (quicrq_fragment_publisher_subscribe quicrq_fragment_cache_create_ctx
       quicrq_congestion_control_none).1.1;
  sw_congestion := cg; sw_calls := [] |}.

(** picoquic does not poll a stream after its end mark. *)
Definition sender_step (w : sender_world) (e : sender_event) : option sender_world :=
  match e with
  | Arrive f =>
      '(c, ret, _) ← propose_f (sw_cache w) f;
      if ret =? 0 then
        Some {| sw_cache := c; sw_stream := sw_stream w; sw_publisher := sw_publisher w;
                sw_congestion := sw_congestion w; sw_calls := sw_calls w |}
      else None
  | FinalPoint g o =>
      Some {| sw_cache := learn_end_point (sw_cache w) g o; sw_stream := sw_stream w;
              sw_publisher := sw_publisher w; sw_congestion := sw_congestion w;
              sw_calls := sw_calls w |}
  | Prepare space now =>
      if sent_fin (sw_calls w) then Some w
      else
        '(s, m, cg, ret, calls) ← quicrq_prepare_to_send_media_to_stream qr_mode (sw_cache w)
                                    (sw_stream w) (sw_publisher w) (sw_congestion w) space now;
        if ret =? 0 then
          Some {| sw_cache := sw_cache w; sw_stream := s; sw_publisher := m; sw_congestion := cg;
                  sw_calls := sw_calls w ++ calls |}
        else None
  end.

Fixpoint sender_run (w : sender_world) (es : list sender_event) : option sender_world :=
  match es with
  | [] => Some w
  | e :: es' => w ← sender_step w e; sender_run w es'
  end.

Definition arrived (es : list sender_event) : list fragment :=
  flat_map (fun e => match e with Arrive f => [f] | _ => [] end) es.
Definition final_points (es : list sender_event) : list (Z * Z) :=
  flat_map (fun e => match e with FinalPoint g o => [(g, o)] | _ => [] end) es.
Definition spaces_ok (e : sender_event) : Prop :=
  match e with Prepare space _ => 17 <= space < 16384 | _ => True end.

(** The messages that a sender has written. *)
Definition sender_messages (sent : list fragment) (w : sender_world) : list quicrq_message_t :=
  map fragment_message sent ++
  (if sent_fin (sw_calls w)
   then [final_message (st_next_group_id (sw_stream w)) (st_next_object_id (sw_stream w))] else []).

(** ** Invariant of the histories *)

Record sending (md : media) (fs sent : list fragment) (final : Z * Z) (w : sender_world) : Prop := {
  sg_exact : exact md fs (sw_cache w);
  sg_history : Forall (consistent md) fs;
  sg_groups : Forall (fun f => f_group f < 16384) fs;
  sg_final : final = (fc_final_group_id (sw_cache w), fc_final_object_id (sw_cache w));
  sg_sender : sent_fin (sw_calls w) = false -> sender_ok md (sw_cache w) (sw_stream w) (sw_publisher w);
  sg_path : path md (0, 0, 0) sent (stream_position (sw_stream w));
  sg_framed : framed (sent_bytes (sw_calls w)) (sender_messages sent w);
  sg_end : sent_fin (sw_calls w) = true -> st_next_object_offset (sw_stream w) = 0;
  sg_small : Forall (fun f => f_group f < 16384) sent;
}.

(** Every fragment is before the final point. *)
Definition before_final (final : Z * Z) (f : fragment) : Prop :=
  final = (0, 0) \/ pair_ltb (f_group f) (f_object f) final.1 final.2 = true.

Lemma sending_cache md fs sent final w :
  sending md fs sent final w -> Forall (before_final final) fs -> cache_sendable md (sw_cache w).
Proof.
  intros [Hex Hfs Hg Hfinal _ _ _ _ _] Hb. pose proof Hex as [Ht Hr _ _]. split; [done | | |];
    intros x Hx; destruct (Hr x Hx) as (f & Hf & Hk & _); unfold frag_key, f_key in Hk;
    injection Hk as Eg Eo; rewrite ?Eg, ?Eo; rewrite Forall_forall in Hfs, Hg, Hb.
  - apply (Hfs f Hf).
  - unfold past_final. destruct (Hb f Hf) as [H | H]; rewrite Hfinal in H.
    { by injection H as -> ->. }
    cbn [fst snd] in H. apply pair_ltb_spec in H. apply andb_false_iff. right.
    apply not_true_iff_false. rewrite pair_leb_spec. lia.
  - by apply Hg.
Qed.

Lemma sending_start md stream_id cg : sending md [] [] (0, 0) (sender_start stream_id cg).
Proof.
  split; [apply exact_init | constructor | constructor | done | | exact (path_nil md (0, 0, 0))
         | apply framed_nil | done | constructor].
  intros _. split; try done. pose proof (count_range md 0). split; cbn; try done; [lia | by left].
Qed.

(** ** Preservation *)

Lemma sending_arrive md fs sent final w f (Hal : forall n, malloc_ok n = true) :
  sending md fs sent final w -> consistent md f -> 0 < f_data_length f -> f_group f < 16384 ->
  Forall (no_overlap f) fs ->
  exists w', sender_step w (Arrive f) = Some w' /\ sending md (fs ++ [f]) sent final w'.
Proof.
  intros [Hex Hfs Hg Hfin Hs Hp Hb Hend Hsm] Hf Hne Hgf Hno. cbn [sender_step].
  destruct (propose_exact Hal md fs (sw_cache w) f Hex Hf (or_introl Hne) Hno)
    as (c & wake & -> & Hex' & _ & [= _ _ Eg Eo] & Hsub).
  cbn [mbind option_bind Z.eqb]. eexists. split; [done |]. split; try done.
  - apply Forall_app. split; [done |]. by constructor.
  - apply Forall_app. split; [done |]. by constructor.
  - cbn. congruence.
  - cbn. intros E. destruct (Hs E). split; try done. by apply (reader_ok_grows _ (sw_cache w)).
Qed.

Lemma sending_final_point md fs sent final w g o :
  sending md fs sent final w ->
  exists w', sender_step w (FinalPoint g o) = Some w' /\ sending md fs sent (g, o) w'.
Proof.
  intros [Hex Hfs Hg Hfin Hs Hp Hb Hend Hsm]. eexists. split; [done |]. split; try done.
  - by apply exact_final.
  - cbn. intros E. destruct (Hs E). split; try done. by apply (reader_ok_grows _ (sw_cache w)).
Qed.

Context (provided : forall n is_fin active, picoquic_provide_stream_data_buffer n is_fin active = true).

(** What a call of picoquic does: the final message if the position is past
    the final point, else a fragment if the next byte is there, which at the
    end of a group is the first one of the next group. *)
Definition call_result md sent w sent' w' : Prop :=
  let '(g, o, off) := stream_position (sw_stream w) in
  if past_final (sw_cache w) g o then sent' = sent /\ sent_fin (sw_calls w') = true
  else sent_fin (sw_calls w') = false /\
    (let k := next_byte md (g, o, off) in cached (sw_cache w) k.1 k.2 ->
     exists f, sent' = sent ++ [f] /\ path md (0, 0, 0) sent' (stream_position (sw_stream w'))).

(** At the final point, the sender is between objects. *)
Lemma final_offset md c s m : cache_sendable md c -> sender_ok md c s m ->
  past_final c (st_next_group_id s) (st_next_object_id s) = true -> st_next_object_offset s = 0.
Proof.
  intros Hcs [[_ _ _ _ Hoff Hf Hb] Hpos _ _] Hpast.
  injection Hpos as Eg Eo ->. rewrite Eg, Eo in Hpast.
  assert (forall f, f ∈ fc_fragments c ->
    frag_key f <> (pc_current_group_id m, pc_current_object_id m)) as Hno.
  { intros f Hin [= Ek1 Ek2]. pose proof (cs_final _ _ Hcs f Hin). congruence. }
  destruct (pc_current_fragment m) as [f |].
  - destruct Hf as (Hin & Hk & _). by destruct (Hno f Hin).
  - destruct Hb as [-> | (f & Hin & Hk & _)]; [lia | by destruct (Hno f Hin)].
Qed.

Lemma sending_prepare md fs sent final w space now :
  sendable md -> Forall (before_final final) fs ->
  sending md fs sent final w -> sent_fin (sw_calls w) = false -> 17 <= space < 16384 ->
  exists w' sent', sender_step w (Prepare space now) = Some w' /\
    sending md fs sent' final w' /\ call_result md sent w sent' w'.
Proof.
  intros Hsd Hbf Hw Ef Hspace. pose proof (sending_cache _ _ _ _ _ Hw Hbf) as Hcs.
  destruct Hw as [Hex Hfs Hg Hfin Hs Hp Hb Hend Hsm]. specialize (Hs Ef). cbn [sender_step]. rewrite Ef.
  unfold sender_messages in Hb. rewrite Ef, app_nil_r in Hb. unfold call_result, stream_position at 1.
  destruct (past_final (sw_cache w) _ _) eqn:Epast.
  - destruct (prepare_final_spec md provided qr_mode _ _ _ (sw_congestion w) space now Hsd Hcs Hs Hspace Epast)
      as (s' & m' & bytes & -> & Epos & _ & Hlen & Hdec).
    cbn [mbind option_bind Z.eqb]. eexists _, sent. split; [done |].
    assert (sent_fin (sw_calls w ++ [stream_data (frame bytes) true false]) = true) as Efin
      by (rewrite sent_fin_app; apply orb_true_r).
    split; [| done]. split; try done.
    + cbn [sw_calls]. congruence.
    + cbn [sw_stream]. by rewrite Epos.
    + unfold sender_messages. cbn [sw_calls sw_stream]. rewrite Efin, sent_bytes_app.
      unfold sent_bytes at 2. cbn [flat_map]. rewrite app_nil_r.
      injection Epos as E1 E2 _. rewrite E1, E2. exact (framed_snoc _ _ _ _ Hb Hlen Hdec).
    + intros _. injection Epos as _ _ E3. cbn [sw_stream]. rewrite E3. by eapply final_offset.
  - destruct (prepare_media_spec md provided qr_mode _ _ _ (sw_congestion w) space now Hsd Hcs Hs Hspace Epast)
      as (s' & m' & calls & -> & _ & Hs' & Hcase).
    cbn [mbind option_bind Z.eqb]. destruct Hcase as [(f & Hfol & Hwr & Epos) | (-> & Epos & Hno)].
    + destruct Hwr as (Hcons & _ & Hpos & bytes & -> & Hlen & Hdec).
      assert (path md (0, 0, 0) (sent ++ [f]) (stream_position s')) as Hp'.
      { rewrite Epos. by eapply path_snoc. }
      eexists _, (sent ++ [f]). split; [done |]. cbn [sw_calls sw_stream].
      rewrite sent_fin_app, Ef. cbn [orb sent_fin existsb]. split; [| by eauto].
      split; try done; [| cbn [sw_calls]; rewrite sent_fin_app, Ef; done |].
      2: { apply Forall_app. split; [done |]. apply Forall_singleton. pose proof (se_group _ _ _ _ Hs') as Hsg.
           unfold stream_position, after_fragment in Epos. destruct (_ <=? _); injection Epos as E1; lia. }
      unfold sender_messages. cbn [sw_calls sw_stream].
      rewrite sent_fin_app, Ef, sent_bytes_app, map_app, app_nil_r.
      unfold sent_bytes at 2. cbn [flat_map]. rewrite app_nil_r.
      exact (framed_snoc _ _ _ _ Hb Hlen Hdec).
    + eexists _, sent. split; [done |]. cbn [sw_calls]. rewrite sent_fin_app, Ef. split; [| done].
      split; try done.
      * cbn [sw_stream]. by rewrite Epos.
      * unfold sender_messages. cbn [sw_calls]. rewrite sent_fin_app, Ef, sent_bytes_app.
        cbn [sent_bytes flat_map]. by rewrite !app_nil_r.
      * cbn [sw_calls]. rewrite sent_fin_app, Ef. done.
Qed.

(** A sender that has ended the stream is past the final point. *)
Definition ended_past (final : Z * Z) (w : sender_world) : Prop :=
  sent_fin (sw_calls w) = true -> final <> (0, 0) /\
    pair_leb final.1 final.2 (st_next_group_id (sw_stream w)) (st_next_object_id (sw_stream w)) = true.

Lemma prepare_ended md fs sent final w sent' w' :
  sending md fs sent final w -> sending md fs sent' final w' -> sent_fin (sw_calls w) = false ->
  call_result md sent w sent' w' -> ended_past final w'.
Proof.
  intros Hw Hw' _ Hc Hfin. unfold call_result, stream_position in Hc.
  destruct (past_final _ _ _) eqn:E; [| destruct Hc; congruence].
  destruct Hc as [-> _]. unfold past_final in E. pose proof (sg_final _ _ _ _ _ Hw) as ->. b2p.
  pose proof (path_end_unique _ _ _ _ _ (sg_path _ _ _ _ _ Hw) (sg_path _ _ _ _ _ Hw')) as [= E1 E2 _].
  rewrite <- E1, <- E2. cbn [fst snd]. split; [| done]. intros [= E3 E4]. lia.
Qed.

(** A final point that is learned once, when none is known. *)
Definition final_once (final : Z * Z) (es : list sender_event) : Prop :=
  final_points es = [] \/ (final = (0, 0) /\ exists p, final_points es = [p]).

Lemma run_sending md (Hal : forall n, malloc_ok n = true) (Hsd : sendable md) es :
  forall fs sent final w,
  sending md fs sent final w -> Forall spaces_ok es ->
  Forall (consistent md) (arrived es) ->
  Forall (fun f => 0 < f_data_length f /\ f_group f < 16384) (arrived es) ->
  (forall f f', f ∈ fs ++ arrived es -> f' ∈ fs ++ arrived es -> no_overlap f f') ->
  (forall p f, p ∈ final :: final_points es -> f ∈ fs ++ arrived es -> before_final p f) ->
  exists w' sent' final', sender_run w es = Some w' /\ sending md (fs ++ arrived es) sent' final' w' /\
    Forall (before_final final') (fs ++ arrived es) /\
    (final_once final es -> ended_past final w ->
     final' = default final (head (final_points es)) /\ ended_past final' w').
Proof.
  induction es as [| e es IH]; intros fs sent final w Hw Hok Hfs Hne Hno Hbf; cbn [sender_run].
  { cbn in *. rewrite app_nil_r in *. exists w, sent, final. split_and!; try done.
    apply Forall_forall. intros f Hf. apply Hbf; [by left | done]. }
  apply Forall_cons in Hok as [He Hok].
  destruct e as [f | g o | space now];
    cbn [arrived final_points flat_map app] in Hfs, Hne, Hno, Hbf |- *.
  - apply Forall_cons in Hfs as [Hf Hfs]. apply Forall_cons in Hne as [[Hn Hg] Hne].
    destruct (sending_arrive md fs sent final w f Hal Hw Hf Hn Hg) as (w1 & Es & Hw1).
    { apply Forall_forall. intros f' Hf'. apply Hno; [apply elem_of_middle |].
      apply elem_of_app. by left. }
    assert (sw_calls w1 = sw_calls w /\ sw_stream w1 = sw_stream w) as [Ec Est].
    { cbn [sender_step] in Es. destruct (propose_f _ _) as [[[c ret] wake] |]; [| done].
      cbn [mbind option_bind] in Es. destruct (ret =? 0); [| done]. by injection Es as <-. }
    rewrite Es. cbn [mbind option_bind].
    destruct (IH (fs ++ [f]) sent final w1 Hw1 Hok Hfs Hne) as (w2 & sent2 & final2 & ? & ? & ? & He2).
    + intros x y. rewrite <- (assoc_L (++)). apply Hno.
    + intros p x. rewrite <- (assoc_L (++)). apply Hbf.
    + rewrite <- (assoc_L (++)) in *. exists w2, sent2, final2. split_and!; try done.
      intros Ho Hp. apply He2; [done |]. unfold ended_past. by rewrite Ec, Est.
  - destruct (sending_final_point md fs sent final w g o Hw) as (w1 & Es & Hw1).
    assert (sw_calls w1 = sw_calls w) as Ec by (cbn [sender_step] in Es; by injection Es as <-).
    rewrite Es. cbn [mbind option_bind].
    destruct (IH fs sent (g, o) w1 Hw1 Hok Hfs Hne Hno) as (w2 & sent2 & final2 & ? & ? & ? & He2).
    { intros p x Hp. apply Hbf. by right. }
    exists w2, sent2, final2. split_and!; try done.
    intros [? | [-> [p [= <- Ef]]]] Hp; [done |]. fold (final_points es) in *. rewrite Ef in He2.
    destruct He2 as [-> ?]; [by left | | done].
    (* no final point was known: the stream was not ended *)
    unfold ended_past. rewrite Ec. intros Hfin. by destruct (Hp Hfin).
  - destruct (sent_fin (sw_calls w)) eqn:Ef; [cbn [sender_step]; rewrite Ef; by eapply IH |].
    assert (Forall (before_final final) fs) as Hb0.
    { apply Forall_forall. intros f Hf. apply Hbf; [by left |]. apply elem_of_app. by left. }
    destruct (sending_prepare md fs sent final w space now Hsd Hb0 Hw Ef He) as (w1 & sent1 & -> & Hw1 & Hc).
    destruct (IH fs sent1 final w1 Hw1 Hok Hfs Hne Hno Hbf) as (w2 & sent2 & final2 & ? & ? & ? & He2).
    exists w2, sent2, final2. split_and!; try done.
    intros Ho _. apply He2; [done |]. by apply (prepare_ended md fs sent final w sent1 w1).
Qed.
End history.

(** [C10] The sender of a single stream refines the enumeration of the media.
    Fragments that do not overlap, except for repetitions, arrive in the cache
    in any order; the final point is learned at any time; in between, picoquic
    asks for bytes, with any buffer that has room for a header.  No call fails;
    the bytes written are whole frames, of messages that decode to consecutive
    fragments of the media from its beginning, with the right headers, and
    after them, if the final point was reached, the final message with the end
    of the stream.  At the next call a further fragment is written if the next
    byte is in the cache (at the end of a group, the first byte of the next
    group), and the final message is written if the position is the final
    point. *)
Theorem media_stream_sends
    `{SL : SplayLaws quicrq_cached_fragment_t quicrq_fragment_cache_node_compare}
    {So : Splay okey quicrq_fragment_publisher_object_node_compare}
    {Al : Allocator} `{FL : FramesLaws} {PS : PicoStream}
    (qr_mode : quicrq_congestion_control_enum) (md : media) (es : list sender_event)
    (stream_id : Z) (cg : quicrq_cnx_congestion_state_t) :
  (forall n, malloc_ok n = true) ->
  (forall n is_fin active, picoquic_provide_stream_data_buffer n is_fin active = true) ->
  sendable md -> Forall spaces_ok es ->
  let fs := arrived es in
  Forall (consistent md) fs ->
  Forall (fun f => 0 < f_data_length f /\ f_group f < 16384) fs ->
  (forall f f', f ∈ fs -> f' ∈ fs -> no_overlap f f') ->
  (forall p f, p ∈ final_points es -> f ∈ fs -> before_final p f) ->
  exists w sent, sender_run qr_mode (sender_start stream_id cg) es = Some w /\
    framed (sent_bytes (sw_calls w)) (sender_messages sent w) /\
    path md (0, 0, 0) sent (stream_position (sw_stream w)) /\
    (sent_fin (sw_calls w) = false -> forall space now, 17 <= space < 16384 ->
      exists w' sent', sender_step qr_mode w (Prepare space now) = Some w' /\
        framed (sent_bytes (sw_calls w')) (sender_messages sent' w') /\
        call_result md sent w sent' w').
Proof.
  intros Hal Hpr Hsd Hok fs Hfs Hne Hno Hbf.
  destruct (run_sending qr_mode Hpr md Hal Hsd es [] [] (0, 0) _ (sending_start md stream_id cg)
              Hok Hfs Hne Hno) as (w & sent & final & -> & Hw & Hb & _).
  { intros p f [-> | Hp]%elem_of_cons Hf; [by left | by apply Hbf]. }
  exists w, sent. split; [done |]. split; [apply Hw |]. split; [apply Hw |].
  intros Ef space now Hspace.
  destruct (sending_prepare qr_mode Hpr md _ sent final w space now Hsd Hb Hw Ef Hspace)
    as (w' & sent' & ? & Hw' & ?).
  exists w', sent'. split; [done |]. split; [apply Hw' | done].
Qed.

(** ** Witness *)
Module SenderDemo.
Import CacheDemo.
#[export] Instance stream_ready : PicoStream := fun _ _ _ => true.

(** The second object arrives first; the buffers cut the objects. *)
Definition events : list sender_event :=
  [Arrive (part 0 1 0 8); Prepare 100 0; Arrive (part 0 0 3 5); Arrive (part 0 0 0 3); Prepare 100 1;
   Prepare 17 2; Prepare 17 3; Arrive (part 0 0 3 5); Prepare 100 4; FinalPoint 0 2; Prepare 100 5;
   Prepare 100 6].

Lemma demo_sendable : sendable cache_media.
Proof. split; intros; reflexivity. Qed.

Lemma events_spaces : Forall spaces_ok events.
Proof.
  unfold events. repeat (apply Forall_cons; split; [cbn; first [exact I | lia] |]). by apply Forall_nil.
Qed.
Lemma events_sizes : Forall (fun f => 0 < f_data_length f /\ f_group f < 16384) (arrived events).
Proof.
  unfold arrived, events. cbn [flat_map app].
  repeat (apply Forall_cons; split; [cbn; lia |]). by apply Forall_nil.
Qed.
Lemma events_final p f : p ∈ final_points events -> f ∈ arrived events -> before_final p f.
Proof.
  intros [-> | []%elem_of_nil]%elem_of_cons Hf. right.
  change (f ∈ parts) in Hf. unfold parts in Hf.
  rewrite !elem_of_cons, elem_of_nil in Hf. destruct_or! Hf; by subst.
Qed.

(** The same, with an object of a second group, which is entered by a call. *)
Definition group_events : list sender_event :=
  take 9 events ++ [Arrive (part 1 0 0 8); Prepare 17 5; Prepare 100 6; FinalPoint 1 1; Prepare 100 7;
                    Prepare 100 8].
Lemma group_events_spaces : Forall spaces_ok group_events.
Proof.
  unfold group_events, events. cbn [take app].
  repeat (apply Forall_cons; split; [cbn; first [exact I | lia] |]). by apply Forall_nil.
Qed.
Lemma group_events_sizes : Forall (fun f => 0 < f_data_length f /\ f_group f < 16384) (arrived group_events).
Proof.
  unfold arrived, group_events, events. cbn [take flat_map app].
  repeat (apply Forall_cons; split; [cbn; lia |]). by apply Forall_nil.
Qed.
Lemma group_events_final p f : p ∈ final_points group_events -> f ∈ arrived group_events -> before_final p f.
Proof.
  intros [-> | []%elem_of_nil]%elem_of_cons Hf. right.
  change (f ∈ two_groups) in Hf. unfold two_groups, parts in Hf. cbn [app] in Hf.
  rewrite !elem_of_cons, elem_of_nil in Hf. destruct_or! Hf; by subst.
Qed.
End SenderDemo.

Lemma media_stream_sends_witness :
  (exists w sent, sender_run (Al := CacheDemo.malloc_always) (PS := SenderDemo.stream_ready)
      quicrq_congestion_control_none (sender_start 4 congestion_zero) SenderDemo.group_events = Some w /\
    framed (sent_bytes (sw_calls w)) (sender_messages sent w) /\
    path CacheDemo.cache_media (0, 0, 0) sent (stream_position (sw_stream w)) /\
    (sent_fin (sw_calls w) = false -> forall space now, 17 <= space < 16384 ->
      exists w' sent', sender_step (Al := CacheDemo.malloc_always) (PS := SenderDemo.stream_ready)
          quicrq_congestion_control_none w (Prepare space now) = Some w' /\
        framed (sent_bytes (sw_calls w')) (sender_messages sent' w') /\
        call_result CacheDemo.cache_media sent w sent' w')) /\
  option_map (fun w => (sent_bytes (sw_calls w), sent_fin (sw_calls w)))
    (sender_run (Al := CacheDemo.malloc_always) (PS := SenderDemo.stream_ready)
       quicrq_congestion_control_none (sender_start 4 congestion_zero) SenderDemo.group_events)
  = Some ([0; 11; 5; 0; 0; 0; 8; 128; 0; 3; 0; 0; 7;
           0; 12; 5; 0; 0; 3; 8; 128; 5; 8; 9; 10; 11; 12;
           0; 15; 5; 0; 1; 0; 8; 128; 8; 0; 1; 7; 8; 9; 10; 11; 12;
           0; 15; 5; 1; 0; 0; 8; 128; 2; 7; 1; 0; 7; 8; 9; 10; 11;
           0; 8; 5; 1; 0; 7; 8; 128; 1; 12;
           0; 3; 3; 1; 1], true).
Proof.
  split; [| reflexivity].
  apply (media_stream_sends (Al := CacheDemo.malloc_always) (PS := SenderDemo.stream_ready)
           quicrq_congestion_control_none CacheDemo.cache_media SenderDemo.group_events 4 congestion_zero).
  - intros n. exact eq_refl.
  - intros n is_fin active. exact eq_refl.
  - exact SenderDemo.demo_sendable.
  - exact SenderDemo.group_events_spaces.
  - apply CacheDemo.two_groups_consistent.
  - exact SenderDemo.group_events_sizes.
  - apply CacheDemo.two_groups_no_overlap.
  - exact SenderDemo.group_events_final.
Defined.
