(* ===== verification/ControlStreamTheorems.v ===== *)
(** * What the control stream guarantees

    A stream that receives a media keeps its consumer, and never follows
    [media_ctx] as a publisher, whatever the peer sends, unless the peer sends
    an ACCEPT; and what it does does not depend on how the transport cuts the
    messages. *)

From S2P Require Import Prelude Picosplay PicoFrames Proto Fragment PublisherContext Congestion.
From S2P Require Import Publisher MsgBuffer MsgBufferTheorems StreamContext MediaStream Warp.
From S2P Require Import ControlStream.

(** The stream has a message with the given property. *)
Inductive has_frame (P : list Z -> Prop) : list Z -> Prop :=
  | frame_here l body rest : parse_frame l = Some (body, rest) -> P body -> has_frame P l
  | frame_later l body rest : parse_frame l = Some (body, rest) -> has_frame P rest -> has_frame P l.

Lemma has_frame_inv P l body rest : parse_frame l = Some (body, rest) ->
  has_frame P l -> P body \/ has_frame P rest.
Proof.
  intros E H. inversion H as [? ? ? E' Hp | ? ? ? E' Hl]; subst; rewrite E in E';
    injection E' as -> ->; auto.
Qed.
Lemma has_frame_none P l : parse_frame l = None -> ~ has_frame P l.
Proof. intros E H. inversion H; congruence. Qed.

Section control.
Context `{Sp : Splay quicrq_cached_fragment_t quicrq_fragment_cache_node_compare}.
Context {So : Splay okey quicrq_fragment_publisher_object_node_compare}.
Context {Al : Allocator} {PF : PicoFrames} {PI : PicoStreamIds}.
Context {CS : Type} `{Co : Consumer CS}.
Context (default_source_fn : option (quicrq_ctx_t -> list Z -> quicrq_ctx_t * Z)).
Context (consumer_media_init_fn : option (list Z -> option CS * Z)).
Context (manage_relay_subscribe_fn : option (quicrq_ctx_t -> list Z -> quicrq_ctx_t)).
Implicit Types w : stream_world (CS := CS).

Abbreviation receive_message' :=
  (receive_message default_source_fn consumer_media_init_fn manage_relay_subscribe_fn).

(** A stream that receives fragments for a consumer. *)
Record consumer_stream w : Prop := {
  cn_state : st_receive_state (w_stream w) = quicrq_receive_fragment;
  cn_media : exists cs, w_media w = consuming cs;
}.

(** The message buffer of the stream. *)
Definition with_buffer w mb : stream_world :=
  w_set_stream w (st_set_message_receive (w_stream w) mb).

Lemma with_buffer_again w mb mb' : with_buffer (with_buffer w mb) mb' = with_buffer w mb'.
Proof. done. Qed.
Lemma with_buffer_same w : with_buffer w (st_message_receive (w_stream w)) = w.
Proof. by destruct w as [? ? [] ? ? ?]. Qed.
Lemma consumer_with_buffer w mb : consumer_stream w -> consumer_stream (with_buffer w mb).
Proof. intros []. by split. Qed.

(** ** One message *)

(** What a handler does to a consumer stream: it keeps it, and does not look at
    the message buffer. *)
Definition keeps_consumer (handler : stream_world -> option (stream_world * Z)) : Prop :=
  forall w mb, consumer_stream w ->
  exists w' ret, handler w = Some (w', ret) /\ consumer_stream w' /\
    handler (with_buffer w mb) = Some (with_buffer w' mb, ret).

Lemma keeps_refused (handler : stream_world -> option (stream_world * Z)) :
  (forall w, consumer_stream w -> handler w = Some (w, -1)) -> keeps_consumer handler.
Proof.
  intros H w mb Hw. exists w, (-1). rewrite !H by (done || by apply consumer_with_buffer). done.
Qed.

Lemma keeps_consumer_result (call : consumer_call) :
  keeps_consumer (fun w => consumer_result (call_stream_consumer w call)).
Proof.
  intros w mb [Hst [cs Hm]]. unfold call_stream_consumer, with_buffer. cbn [w_media w_set_stream].
  rewrite Hm. destruct (consumer_fn cs call) as [cs' ret].
  unfold consumer_result, quicrq_cnx_handle_consumer_finished, set_finished_reason.
  cbn [mbind option_bind w_stream w_set_media w_set_stream st_close_reason st_set_send
       st_set_receive_complete st_set_message_receive].
  destruct (ret =? quicrq_consumer_finished); [destruct (bool_decide _) |];
    eexists _, _; (split; [done |]); (split; [| done]); (split; [done | by exists cs']).
Qed.

(** A write of the stream that keeps its receive state, then a handler. *)
Lemma keeps_after (f : quicrq_stream_ctx_t -> quicrq_stream_ctx_t) handler :
  (forall s, st_receive_state (f s) = st_receive_state s) ->
  (forall s mb, f (st_set_message_receive s mb) = st_set_message_receive (f s) mb) ->
  keeps_consumer handler -> keeps_consumer (fun w => handler (w_set_stream w (f (w_stream w)))).
Proof.
  intros Hst Hmb Hk w mb [Hr Hm]. destruct (Hk (w_set_stream w (f (w_stream w))) mb) as (w' & ret & ? & ? & E).
  { split; [cbn; by rewrite Hst | done]. }
  exists w', ret. split; [done |]. split; [done |]. cbn [with_buffer w_stream w_set_stream].
  by rewrite Hmb.
Qed.

Lemma keeps_start_point incoming : keeps_consumer (fun w => receive_start_point w incoming).
Proof.
  intros w mb Hw. unfold receive_start_point, receiving_fragments.
  cbn [with_buffer w_stream w_set_stream st_set_message_receive st_receive_state st_start_group_id
       st_start_object_id].
  rewrite (cn_state _ Hw). destruct (_ || _ || _).
  { by exists w, (-1). }
  by apply (keeps_after (fun s => st_set_start s (group_id incoming) (object_id incoming)) _
              ltac:(done) ltac:(done) (keeps_consumer_result _) w mb).
Qed.

Lemma keeps_final incoming : keeps_consumer (fun w => receive_final w incoming).
Proof.
  intros w mb Hw. unfold receive_final, receiving_fragments.
  cbn [with_buffer w_stream w_set_stream st_set_message_receive st_receive_state st_final_object_id].
  rewrite (cn_state _ Hw). destruct (_ || _).
  { by exists w, (-1). }
  by apply keeps_consumer_result.
Qed.

Lemma keeps_fragment incoming : keeps_consumer (fun w => receive_fragment w incoming).
Proof.
  intros w mb Hw. unfold receive_fragment, receiving_fragments.
  cbn [with_buffer w_stream w_set_stream st_set_message_receive st_receive_state].
  rewrite (cn_state _ Hw), bool_decide_true by done. cbn [negb].
  change (is_before_start (st_set_message_receive (w_stream w) mb)) with (is_before_start (w_stream w)).
  destruct (is_before_start _ _ _); [| by apply keeps_consumer_result].
  refine (keeps_consumer_result _ (w_set_qr w (qr_count_useless (w_qr w))) mb _). by destruct Hw.
Qed.

Lemma keeps_cache_policy incoming : keeps_consumer (fun w => receive_cache_policy w incoming).
Proof.
  intros w mb Hw. unfold receive_cache_policy, receiving_fragments.
  cbn [with_buffer w_stream w_set_stream st_set_message_receive st_receive_state st_is_cache_real_time].
  rewrite (cn_state _ Hw). destruct (_ || _).
  { by exists w, (-1). }
  by apply (keeps_after (fun s => st_set_cache_real_time s (negb (cache_policy incoming =? 0))) _
              ltac:(done) ltac:(done) (keeps_consumer_result _) w mb).
Qed.

Lemma keeps_notify incoming : keeps_consumer (fun w => receive_notify w incoming).
Proof.
  intros w mb [Hst Hm]. unfold receive_notify, with_buffer.
  cbn [w_stream w_set_stream st_set_message_receive st_receive_state w_notified]. rewrite Hst.
  eexists _, (-1). split; [done |]. destruct (w_notified w); by repeat split.
Qed.

Lemma keeps_message incoming : message_type incoming <> QUICRQ_ACTION_ACCEPT ->
  keeps_consumer (fun w => receive_message' w incoming).
Proof.
  intros Hacc. unfold receive_message.
  destruct (_ =? QUICRQ_ACTION_REQUEST).
  { apply keeps_refused. intros w [Hst _]. unfold receive_request. by rewrite Hst. }
  destruct (_ =? QUICRQ_ACTION_POST).
  { apply keeps_refused. intros w [Hst _]. unfold receive_post. by rewrite Hst. }
  destruct (Z.eqb_spec (message_type incoming) QUICRQ_ACTION_ACCEPT); [done |].
  destruct (_ =? QUICRQ_ACTION_START_POINT); [apply keeps_start_point |].
  destruct (_ =? QUICRQ_ACTION_FIN_DATAGRAM); [apply keeps_final |].
  destruct (_ =? QUICRQ_ACTION_FRAGMENT); [apply keeps_fragment |].
  destruct (_ =? QUICRQ_ACTION_SUBSCRIBE).
  { apply keeps_refused. intros w [Hst _]. unfold receive_subscribe. by rewrite Hst. }
  destruct (_ =? QUICRQ_ACTION_NOTIFY); [apply keeps_notify |].
  destruct (_ =? QUICRQ_ACTION_CACHE_POLICY); [apply keeps_cache_policy |].
  by apply keeps_refused.
Qed.

(** ** The stream of messages *)

Definition is_accept (body : list Z) : Prop :=
  match quicrq_msg_decode body with
  | Some (incoming, _) => message_type incoming = QUICRQ_ACTION_ACCEPT
  | None => False
  end.

(** The reference handler of a message; an ACCEPT is outside of what it
    describes. *)
Definition handle_message (body : list Z) (r : option (stream_world (CS := CS)))
  : option (stream_world (CS := CS)) * Z :=
  match r with
  | None => (None, -1)
  | Some w =>
      match quicrq_msg_decode body with
      | None => (Some w, -1)
      | Some (incoming, _) =>
          if message_type incoming =? QUICRQ_ACTION_ACCEPT then (None, -1)
          else match receive_message' w incoming with
               | Some (w', ret) => (Some w', ret)
               | None => (None, -1)
               end
      end
  end.

Lemma handle_message_keeps w body : consumer_stream w ->
  (is_accept body /\ handle_message body (Some w) = (None, -1)) \/
  exists w' ret, handle_message body (Some w) = (Some w', ret) /\ consumer_stream w' /\
    forall mb,
      match quicrq_msg_decode body with
      | None => Some (with_buffer w mb, -1)
      | Some (incoming, _) => receive_message' (with_buffer w mb) incoming
      end = Some (with_buffer w' mb, ret).
Proof.
  intros Hw. unfold handle_message, is_accept. destruct (quicrq_msg_decode body) as [[incoming ?] |].
  - destruct (Z.eqb_spec (message_type incoming) QUICRQ_ACTION_ACCEPT) as [| Hne]; [by left | right].
    destruct (keeps_message incoming Hne w (st_message_receive (w_stream w)) Hw) as (w' & ret & E & Hw' & _).
    exists w', ret. rewrite E. split; [done |]. split; [done |]. intros mb.
    destruct (keeps_message incoming Hne w mb Hw) as (w2 & ret2 & E2 & _ & E3).
    rewrite E in E2. injection E2 as <- <-. done.
  - right. by exists w, (-1).
Qed.

Abbreviation receive_control_loop' :=
  (receive_control_loop default_source_fn consumer_media_init_fn manage_relay_subscribe_fn).

Lemma control_loop_refines fuel : forall w mb bytes r mb' ret,
  consumer_stream w -> receive_loop handle_message fuel (Some w) mb bytes = Some (r, mb', ret) ->
  match r with
  | Some w' => consumer_stream w' /\
      receive_control_loop' fuel (with_buffer w mb) bytes = Some (with_buffer w' mb', ret)
  | None => ret = -1
  end.
Proof.
  induction fuel as [| fuel IH]; intros w mb bytes r mb' ret Hw; cbn [receive_loop receive_control_loop];
    [done |].
  destruct bytes as [| b bytes]; [by intros [= <- <- <-] |].
  cbn [with_buffer w_stream w_set_stream st_set_message_receive st_receive_state st_message_receive].
  rewrite (cn_state _ Hw), bool_decide_false by done.
  destruct (quicrq_msg_buffer_store (b :: bytes) mb) as [[[mb1 next] fin] |]; [| done].
  cbn [mbind option_bind]. destruct next as [rest |]; [| by intros [= <- <- <-]].
  destruct fin; [| apply IH, Hw].
  change (w_set_stream (with_buffer w mb) _) with (with_buffer w mb1).
  unfold receive_control_message. cbv zeta.
  change (st_message_receive (w_stream (with_buffer w mb1))) with mb1.
  destruct (handle_message_keeps w (ztake (mb_message_size mb1) (mb_buffer mb1)) Hw)
    as [(_ & ->) | (w2 & ret2 & -> & Hw2 & E)].
  - by intros [= <- <- <-].
  - rewrite (E mb1). cbn [mbind option_bind].
    change (w_set_stream (with_buffer w2 mb1) _) with (with_buffer w2 (quicrq_msg_buffer_reset mb1)).
    destruct (ret2 =? 0); [by apply IH |]. by intros [= <- <- <-].
Qed.

(** The deliveries of the transport, up to the first error. *)
Fixpoint receive_data w (chunks : list (list Z)) : option (stream_world * Z) :=
  match chunks with
  | [] => Some (w, 0)
  | bytes :: chunks' =>
      '(w, ret, _) ← quicrq_receive_stream_data default_source_fn consumer_media_init_fn
                       manage_relay_subscribe_fn w bytes false;
      if ret =? 0 then receive_data w chunks' else Some (w, ret)
  end.

Lemma receive_data_refines chunks : forall w mb r mb' ret,
  consumer_stream w -> receive_chunks handle_message (Some w) mb chunks = Some (r, mb', ret) ->
  match r with
  | Some w' => consumer_stream w' /\
      receive_data (with_buffer w mb) chunks = Some (with_buffer w' mb', ret)
  | None => ret = -1
  end.
Proof.
  induction chunks as [| bytes chunks IH]; intros w mb r mb' ret Hw; cbn [receive_chunks receive_data].
  { by intros [= <- <- <-]. }
  unfold receive_bytes, quicrq_receive_stream_data.
  destruct (receive_loop handle_message (S (length bytes)) (Some w) mb bytes) as [[[r1 mb1] ret1] |] eqn:E;
    [| done].
  cbn [mbind option_bind]. pose proof (control_loop_refines _ _ _ _ _ _ _ Hw E) as H.
  destruct r1 as [w1 |].
  - destruct H as [Hw1 ->]. cbn [mbind option_bind]. destruct (ret1 =? 0); [by apply IH |].
    by intros [= <- <- <-].
  - subst ret1. cbn [Z.eqb]. by intros [= <- <- <-].
Qed.

(** What is received in any pieces is what the reference handles. *)
Lemma receive_data_handled w chunks :
  (forall n, 0 < n < 65536 -> malloc_ok n = true) -> Forall (Forall is_byte) chunks ->
  consumer_stream w -> st_message_receive (w_stream w) = msg_buffer_zero ->
  exists r mb pending ret, handle_stream handle_message (Some w) (concat chunks) = (r, pending, ret) /\
    match r with
    | Some w' => consumer_stream w' /\ receive_data w chunks = Some (with_buffer w' mb, ret)
    | None => True
    end.
Proof.
  intros Hal Hb Hw Hmb.
  destruct (receive_chunks_refines Hal handle_message (Some w) msg_buffer_zero [] chunks)
    as (r & mb & pending & ret & E1 & E2 & _); [done | done | done |]. cbn [app] in E1.
  pose proof (receive_data_refines _ _ _ _ _ _ Hw E2) as H.
  exists r, mb, pending, ret. split; [done |]. destruct r as [w' |]; [| done].
  rewrite <- Hmb, with_buffer_same in H. done.
Qed.

(** The reference fails only on an ACCEPT. *)
Lemma handle_stream_accept l : forall w,
  consumer_stream w -> (handle_stream handle_message (Some w) l).1.1 = None -> has_frame is_accept l.
Proof.
  remember (length l) as n eqn:Hn. revert l Hn.
  induction (lt_wf n) as [n _ IH]. intros l -> w Hw.
  destruct (parse_frame l) as [[body rest] |] eqn:E.
  - pose proof (parse_frame_length _ _ _ E) as Hl.
    destruct (handle_message_keeps w body Hw) as [(Ha & _) | (w2 & ret2 & E2 & Hw2 & _)];
      [intros _; by eapply frame_here |].
    destruct (Z.eq_dec ret2 0) as [-> | Hr].
    + rewrite (handle_stream_step _ _ _ _ _ _ E E2). intros H. eapply frame_later; [exact E |].
      by eapply IH.
    + by rewrite (handle_stream_fails _ _ _ _ _ _ _ E E2 Hr).
  - by rewrite (handle_stream_none _ _ _ E).
Qed.
End control.

(** [C13] A stream that receives a media keeps its type.  Whatever bytes the peer
    sends, in whatever pieces, as long as no message is an ACCEPT: no call
    fails, [media_ctx] is only used as the consumer that it is, the stream goes
    on receiving fragments, and the result is that of handling the complete
    messages one after the other up to the first that is refused. *)
Theorem consumer_stream_safe
    `{Sp : Splay quicrq_cached_fragment_t quicrq_fragment_cache_node_compare}
    {So : Splay okey quicrq_fragment_publisher_object_node_compare}
    {Al : Allocator} {PF : PicoFrames} {PI : PicoStreamIds}
    {CS : Type} `{Co : Consumer CS}
    (default_source_fn : option (quicrq_ctx_t -> list Z -> quicrq_ctx_t * Z))
    (consumer_media_init_fn : option (list Z -> option CS * Z))
    (manage_relay_subscribe_fn : option (quicrq_ctx_t -> list Z -> quicrq_ctx_t))
    (w : stream_world) (chunks : list (list Z)) :
  (forall n, 0 < n < 65536 -> malloc_ok n = true) -> Forall (Forall is_byte) chunks ->
  consumer_stream w -> st_message_receive (w_stream w) = msg_buffer_zero ->
  ~ has_frame is_accept (concat chunks) ->
  exists w' mb pending ret,
    receive_data default_source_fn consumer_media_init_fn manage_relay_subscribe_fn w chunks
      = Some (with_buffer w' mb, ret) /\
    consumer_stream (with_buffer w' mb) /\
    handle_stream (handle_message default_source_fn consumer_media_init_fn manage_relay_subscribe_fn)
      (Some w) (concat chunks) = (Some w', pending, ret).
Proof.
  intros Hal Hb Hw Hmb Hno.
  destruct (receive_data_handled default_source_fn consumer_media_init_fn manage_relay_subscribe_fn
              w chunks Hal Hb Hw Hmb) as (r & mb & pending & ret & E & H).
  destruct r as [w' |].
  - destruct H as [Hw' ->]. exists w', mb, pending, ret. split; [done |].
    split; [by apply consumer_with_buffer | done].
  - exfalso. apply Hno.
    apply (handle_stream_accept default_source_fn consumer_media_init_fn manage_relay_subscribe_fn _ w Hw).
    by rewrite E.
Qed.

(** An ACCEPT that comes on a stream that receives datagrams is handled
    although nothing was posted: the stream becomes a sender, and
    [quicrq_wakeup_media_stream] follows its consumer context as if it were a
    publisher. *)
Theorem accept_confuses_consumer
    `{Sp : Splay quicrq_cached_fragment_t quicrq_fragment_cache_node_compare}
    {So : Splay okey quicrq_fragment_publisher_object_node_compare}
    {Al : Allocator} {PF : PicoFrames} {PI : PicoStreamIds}
    {CS : Type} `{Co : Consumer CS}
    (default_source_fn : option (quicrq_ctx_t -> list Z -> quicrq_ctx_t * Z))
    (consumer_media_init_fn : option (list Z -> option CS * Z))
    (manage_relay_subscribe_fn : option (quicrq_ctx_t -> list Z -> quicrq_ctx_t))
    (w : stream_world) (incoming : quicrq_message_t) :
  consumer_stream w -> st_is_final_object_id_sent (w_stream w) = false ->
  message_type incoming = QUICRQ_ACTION_ACCEPT ->
  transport_mode incoming = quicrq_transport_mode_datagram ->
  receive_message default_source_fn consumer_media_init_fn manage_relay_subscribe_fn w incoming = None.
Proof.
  intros [_ [cs Hm]] Hf Ht Hmode. unfold receive_message. rewrite Ht. cbn [Z.eqb].
  change (QUICRQ_ACTION_ACCEPT =? QUICRQ_ACTION_REQUEST) with false.
  change (QUICRQ_ACTION_ACCEPT =? QUICRQ_ACTION_POST) with false.
  change (QUICRQ_ACTION_ACCEPT =? QUICRQ_ACTION_ACCEPT) with true. cbn iota.
  unfold quicrq_cnx_post_accepted. rewrite Hmode. unfold quicrq_wakeup_media_stream, learn_final.
  cbn [w_stream w_mark_active w_call w_set_cnx set_states w_set_stream st_set_receive st_set_send
       st_set_media st_set_mode st_set_sender st_transport_mode st_is_final_object_id_sent].
  rewrite bool_decide_false by done. rewrite Hf. unfold cache_of.
  cbn [w_media w_mark_active w_call w_set_cnx set_states w_set_stream]. by rewrite Hm.
Qed.

(** ** Witness *)
Module ReceiverDemo.
#[export] Instance malloc_always : Allocator := fun _ => true.
#[export] Instance next_ids : PicoStreamIds := fun _ => 3.
(** A consumer that records its calls. *)
#[export] Instance recorder : Consumer (list consumer_call) := fun l c => (l ++ [c], 0).

Definition qr : quicrq_ctx_t := {|
  qr_sources := []; qr_next_source := 0; qr_cache_duration_max := 0; qr_cache_check_next_time := 0;
  qr_is_cache_closing_needed := false;
  qr_useless_fragments := 0; qr_congestion_control_mode := quicrq_congestion_control_none |}.
Definition cnx : quicrq_cnx_ctx_t := {|
  cx_id := 1; cx_is_server := false; cx_congestion := congestion_zero; cx_next_media_id := 0; cx_next_abandon_datagram_id := 0;
  cx_uni_streams := []; cx_calls := [] |}.
Definition receiver : stream_world (CS := list consumer_call) := {|
  w_qr := qr; w_cnx := cnx; w_stream := st_set_receive (stream_zero 4) quicrq_receive_fragment;
  w_media := consuming []; w_source := None; w_notified := None |}.
(** A start point, a fragment cut in three pieces, and an unknown message. *)
Definition chunks : list (list Z) :=
  [[0; 3; 8; 2; 0; 0]; [10; 5; 2; 0; 0; 2; 129]; [1; 2; 7; 8; 0; 1; 99]].

Lemma chunks_no_accept : ~ has_frame is_accept (concat chunks).
Proof.
  intros H.
  do 3 (eapply has_frame_inv in H; [| vm_compute; reflexivity]; destruct H as [H | H];
        [vm_compute in H; first [contradiction | discriminate] |]).
  by apply has_frame_none in H.
Qed.
End ReceiverDemo.

Lemma consumer_stream_safe_witness :
  (exists w' mb pending ret,
    receive_data (Al := ReceiverDemo.malloc_always) (PI := ReceiverDemo.next_ids)
      (Co := ReceiverDemo.recorder) None None None ReceiverDemo.receiver ReceiverDemo.chunks
      = Some (with_buffer w' mb, ret) /\
    consumer_stream (with_buffer w' mb) /\
    handle_stream (handle_message (Al := ReceiverDemo.malloc_always) (PI := ReceiverDemo.next_ids)
        (Co := ReceiverDemo.recorder) None None None)
      (Some ReceiverDemo.receiver) (concat ReceiverDemo.chunks) = (Some w', pending, ret)) /\
  option_map (fun r => (w_media r.1, st_start_group_id (w_stream r.1), r.2))
    (receive_data (Al := ReceiverDemo.malloc_always) (PI := ReceiverDemo.next_ids)
       (Co := ReceiverDemo.recorder) None None None ReceiverDemo.receiver ReceiverDemo.chunks)
  = Some (consuming [quicrq_media_start_point 2 0 0;
                     quicrq_media_datagram_ready [7; 8] 2 0 0 0 129 1 2 2], 2, -1).
Proof.
  split; [| reflexivity].
  apply (consumer_stream_safe (Al := ReceiverDemo.malloc_always) (PI := ReceiverDemo.next_ids)
           (Co := ReceiverDemo.recorder) None None None ReceiverDemo.receiver ReceiverDemo.chunks).
  - intros n _. exact eq_refl.
  - unfold ReceiverDemo.chunks. repeat constructor; done.
  - split; [exact eq_refl | by exists []].
  - exact eq_refl.
  - exact ReceiverDemo.chunks_no_accept.
Defined.
