(* ===== verification/StreamReceive.v ===== *)
(** * How a stream receives the messages of a media

    What the handler of a control stream does with the fragments and the final
    point of a media, for any consumer, and what is left of a stream of
    messages that is cut anywhere. *)

From S2P Require Import Prelude Picosplay PicoFrames Media Proto Fragment FragmentProofs PublisherContext.
From S2P Require Import MsgBuffer MsgBufferTheorems StreamContext MediaStream MediaStreamProofs Warp.
From S2P Require Import ControlStream ControlStreamTheorems.

(** ** A stream of messages, cut anywhere *)

Abbreviation frames bodies := (concat (map frame bodies)).

Lemma frames_split bodies : forall x y,
  Forall (fun b => blen b < 65536) bodies -> x ++ y = frames bodies ->
  exists n p, (n <= length bodies)%nat /\ x = frames (take n bodies) ++ p /\ parse_frame p = None /\
    p ++ y = frames (drop n bodies).
Proof.
  induction bodies as [| b bodies IH]; intros x y Hb E.
  { exists 0%nat, x. apply app_eq_nil in E as [-> ->]. by repeat split. }
  apply Forall_cons in Hb as [Hb0 Hb].
  destruct (parse_frame x) as [[m rest] |] eqn:Ep.
  - pose proof (parse_frame_app x y m rest Ep) as Ep'. rewrite E in Ep'. cbn [map concat] in Ep', E.
    rewrite frame_parse in Ep' by done. injection Ep' as <- Er.
    destruct (IH rest y Hb (eq_sym Er)) as (n & p & Hn & -> & Hp & Ed).
    exists (S n), p. split; [cbn; lia |]. split; [| by split].
    apply (app_inv_tail y). rewrite E, Er. cbn [take map concat]. by rewrite <- !app_assoc.
  - exists 0%nat, x. split; [lia |]. by repeat split.
Qed.

Section receive.
Context `{Sp : Splay quicrq_cached_fragment_t quicrq_fragment_cache_node_compare}.
Context {So : Splay okey quicrq_fragment_publisher_object_node_compare}.
Context {Al : Allocator} {PF : PicoFrames} {PI : PicoStreamIds}.
Context {CS : Type} `{Co : Consumer CS}.
Context (default_source_fn : option (quicrq_ctx_t -> list Z -> quicrq_ctx_t * Z)).
Context (consumer_media_init_fn : option (list Z -> option CS * Z)).
Context (manage_relay_subscribe_fn : option (quicrq_ctx_t -> list Z -> quicrq_ctx_t)).
Implicit Types w : stream_world (CS := CS).

Abbreviation handle := (handle_message default_source_fn consumer_media_init_fn manage_relay_subscribe_fn).

(** A stream that receives a media from its start for a consumer, that is in
    the state [cs]. *)
Record receiving_stream w (cs : CS) : Prop := {
  rs_state : st_receive_state (w_stream w) = quicrq_receive_fragment;
  rs_media : w_media w = consuming cs;
  rs_start : st_start_group_id (w_stream w) = 0 /\ st_start_object_id (w_stream w) = 0;
  rs_final : st_final_object_id (w_stream w) = 0;
}.

Lemma receiving_stream_consumer w cs : receiving_stream w cs -> consumer_stream w.
Proof. intros []. split; [done | by eexists]. Qed.
Lemma receiving_with_buffer w cs mb : receiving_stream (with_buffer w mb) cs <-> receiving_stream w cs.
Proof. split; intros []; by split. Qed.

(** The stream after its consumer was called with success. *)
Lemma consumer_result_ok w cs ret : ret = 0 \/ ret = quicrq_consumer_finished ->
  exists s calls, consumer_result (Some (w_set_media w (consuming cs), ret))
    = Some (w_call (w_set_stream (w_set_media w (consuming cs)) s) calls, 0) /\
    st_receive_state s = st_receive_state (w_stream w) /\
    st_start_group_id s = st_start_group_id (w_stream w) /\
    st_start_object_id s = st_start_object_id (w_stream w) /\
    st_final_object_id s = st_final_object_id (w_stream w) /\
    st_is_receive_complete s = (ret =? quicrq_consumer_finished) || st_is_receive_complete (w_stream w).
Proof.
  unfold consumer_result, quicrq_cnx_handle_consumer_finished, set_finished_reason.
  cbn [mbind option_bind].
  intros [-> | ->]; cbn [Z.eqb]; [| destruct (bool_decide _)]; eexists _, _; (split; [reflexivity | done]).
Qed.

(** The call for a fragment received on a stream. *)
Definition fragment_call (f : fragment) : consumer_call :=
  quicrq_media_datagram_ready (f_data f) (f_group f) (f_object f) (f_offset f) 0 (f_flags f)
    (f_nb_previous f) (f_object_length f) (f_data_length f).

Lemma call_received w cs cs' ret call :
  receiving_stream w cs -> consumer_fn cs call = (cs', ret) -> ret = 0 \/ ret = quicrq_consumer_finished ->
  exists w', consumer_result (call_stream_consumer w call) = Some (w', 0) /\ receiving_stream w' cs' /\
    (ret = quicrq_consumer_finished -> st_is_receive_complete (w_stream w') = true).
Proof.
  intros [Hst Hm Hstart Hfin] Hcall Hret. unfold call_stream_consumer. rewrite Hm, Hcall.
  destruct (consumer_result_ok w cs' ret Hret) as (s & calls & -> & E1 & E2 & E3 & E4 & E5).
  eexists. split; [done |]. split.
  - split; cbn; [congruence | done | by rewrite E2, E3 | congruence].
  - intros ->. cbn. by rewrite E5.
Qed.

Lemma fragment_received w cs cs' ret f body :
  receiving_stream w cs -> 0 <= f_group f -> 0 <= f_object f ->
  quicrq_msg_decode body = Some (fragment_message f, []) ->
  consumer_fn cs (fragment_call f) = (cs', ret) -> ret = 0 \/ ret = quicrq_consumer_finished ->
  exists w', handle body (Some w) = (Some w', 0) /\ receiving_stream w' cs'.
Proof.
  intros Hw Hg Ho Hd Hcall Hret. unfold handle_message. rewrite Hd.
  change (message_type (fragment_message f) =? QUICRQ_ACTION_ACCEPT) with false.
  change (receive_message default_source_fn consumer_media_init_fn manage_relay_subscribe_fn w
    (fragment_message f)) with (receive_fragment w (fragment_message f)).
  unfold receive_fragment, receiving_fragments.
  rewrite (rs_state _ _ Hw), bool_decide_true by done. cbn [negb].
  assert (is_before_start (w_stream w) (group_id (fragment_message f)) (object_id (fragment_message f))
    = false) as ->.
  { unfold is_before_start. destruct (rs_start _ _ Hw) as [-> ->]. apply pair_ltb_false. cbn. lia. }
  destruct (call_received w cs cs' ret (fragment_call f) Hw Hcall Hret) as (w' & E & Hw' & _).
  exists w'. split; [| done].
  change (match consumer_result (call_stream_consumer w (fragment_call f)) with
          | Some (w', ret) => (Some w', ret) | None => (None, -1) end = (Some w', 0)).
  by rewrite E.
Qed.

Lemma final_received w cs cs' ret g o body :
  receiving_stream w cs -> quicrq_msg_decode body = Some (final_message g o, []) ->
  consumer_fn cs (quicrq_media_final_object_id g o) = (cs', ret) ->
  ret = 0 \/ ret = quicrq_consumer_finished ->
  exists w', handle body (Some w) = (Some w', 0) /\ receiving_stream w' cs' /\
    (ret = quicrq_consumer_finished -> st_is_receive_complete (w_stream w') = true).
Proof.
  intros Hw Hd Hcall Hret. unfold handle_message. rewrite Hd.
  change (message_type (final_message g o) =? QUICRQ_ACTION_ACCEPT) with false.
  change (receive_message default_source_fn consumer_media_init_fn manage_relay_subscribe_fn w
    (final_message g o)) with (receive_final w (final_message g o)).
  unfold receive_final, receiving_fragments.
  rewrite (rs_state _ _ Hw), (rs_final _ _ Hw), bool_decide_true by done. cbn [negb orb Z.eqb].
  destruct (call_received w cs cs' ret (quicrq_media_final_object_id g o) Hw Hcall Hret)
    as (w' & E & Hw' & Hc).
  exists w'. split; [| done]. change (group_id (final_message g o)) with g.
  change (object_id (final_message g o)) with o. by rewrite E.
Qed.

(** ** A sequence of messages *)

Section messages.
Context (messages : list quicrq_message_t) (bodies : list (list Z)).
Context (decoded : Forall2 (fun b m => blen b < 65536 /\ quicrq_msg_decode b = Some (m, [])) bodies messages).
Context (good : nat -> stream_world (CS := CS) -> Prop).
Context (step : forall n m w body, messages !! n = Some m -> good n w ->
  quicrq_msg_decode body = Some (m, []) ->
  exists w', handle body (Some w) = (Some w', 0) /\ good (S n) w').

Lemma receive_messages k : forall n w rest, good n w -> (n + k <= length bodies)%nat ->
  exists w', handle_stream handle (Some w) (frames (take k (drop n bodies)) ++ rest)
    = handle_stream handle (Some w') rest /\ good (n + k) w'.
Proof.
  induction k as [| k IH]; intros n w rest Hw Hk.
  { exists w. by rewrite Nat.add_0_r, take_0. }
  destruct (lookup_lt_is_Some_2 bodies n) as [b Hb]; [lia |].
  destruct (Forall2_lookup_l _ _ _ _ _ decoded Hb) as (m & Hm & Hl & Hd).
  destruct (step n m w b Hm Hw Hd) as (w1 & E & Hw1).
  destruct (IH (S n) w1 rest Hw1 ltac:(lia)) as (w2 & E2 & Hw2).
  exists w2. rewrite Nat.add_succ_r. split; [| done]. rewrite <- E2, (drop_S bodies b n Hb).
  cbn [take map concat]. rewrite <- app_assoc.
  apply (handle_stream_step _ _ _ b); [by apply frame_parse | done].
Qed.

Lemma bodies_small : Forall (fun b => blen b < 65536) bodies.
Proof. eapply Forall2_Forall_l; [exact decoded |]. apply Forall_forall. by intros ? _ ? [? _]. Qed.

(** After [n] messages and the beginning [p] of the next one, some more bytes
    complete the messages up to [n']. *)
Lemma receive_more n w p bytes future : good n w -> (n <= length bodies)%nat ->
  p ++ bytes ++ future = frames (drop n bodies) ->
  exists n' w' p', (n <= n' <= length bodies)%nat /\ good n' w' /\
    handle_stream handle (Some w) (p ++ bytes) = (Some w', p', 0) /\
    p' ++ future = frames (drop n' bodies).
Proof.
  intros Hw Hn E. rewrite (assoc_L (++)) in E.
  destruct (frames_split (drop n bodies) (p ++ bytes) future) as (k & p' & Hk & -> & Hp & E'); [| done |].
  { apply Forall_drop, bodies_small. }
  rewrite length_drop in Hk. destruct (receive_messages k n w p' Hw ltac:(lia)) as (w' & E2 & Hw').
  exists (n + k)%nat, w', p'. split; [lia |]. split; [done |].
  rewrite drop_drop in E'. split; [| done]. rewrite E2. by apply handle_stream_none.
Qed.
End messages.

End receive.
