(* ===== verification/EndToEnd.v ===== *)
(** * From the source to the application

    A media is sent on its control stream (MediaStream.v), the transport cuts
    the stream in any pieces, and the stream of the receiver (ControlStream.v)
    passes the fragments to the consumer of objects in order
    (ObjectConsumer.v): the application is given exactly the objects that
    were sent whole. *)

From S2P Require Import Prelude Picosplay PicoFrames Media Proto Reassembly ReassemblyDelivery.
From S2P Require Import ReassemblySafety Fragment FragmentProofs FragmentReads FragmentHistory.
From S2P Require Import FragmentTheorems PublisherContext Congestion Publisher PublisherProofs.
From S2P Require Import MsgBuffer MsgBufferTheorems StreamContext MediaStream MediaStreamProofs.
From S2P Require Import MediaStreamTheorems Warp ControlStream ControlStreamTheorems StreamReceive.
From S2P Require Import ObjectConsumer ObjectConsumerTheorems.

(** ** What is received of a media that is sent in order *)

Section positions.
Context (md : media) (Hsd : sendable md).

Lemma path_end fs q : path md (0, 0, 0) fs q ->
  let '(g, o, off) := q in
  0 <= g /\ 0 <= o <= count md g /\ 0 <= off < blen (content md (g, o)) /\
  (o = 0 -> off = 0 -> g = 0).
Proof.
  induction 1 as [| fs q f _ IH Hfol [[Hg _] [[Ho _] Hcount] Hlen [Hoff Hr] _ _] Hpos].
  { pose proof (sd_nonempty _ Hsd (0, 0)). pose proof (count_range md 0). lia. }
  unfold after_fragment, f_key in *. rewrite Hlen.
  destruct (Z.leb_spec (blen (content md (f_group f, f_object f))) (f_offset f + f_data_length f)).
  - pose proof (sd_nonempty _ Hsd (f_group f, f_object f + 1)). lia.
  - lia.
Qed.

(** Exactly the objects before the position of the sender are received. *)
Lemma sent_received fs g o off k : path md (0, 0, 0) fs (g, o, off) -> media_key md k ->
  fully_received md fs k <-> key_lt k (g, o).
Proof.
  intros Hp [Hk1 Hk2]. pose proof (path_end _ _ Hp) as (Hg & Ho & Hoff & _).
  pose proof (sd_nonempty _ Hsd k) as Hne. destruct k as [kg ko]. cbn [fst snd] in *.
  unfold fully_received, key_lt. cbn [fst snd]. split.
  - intros [_ H]. specialize (H (blen (content md (kg, ko)) - 1) ltac:(lia)).
    apply (path_received md fs _ Hp) in H; cbn [fst snd]; try lia.
    cbn [before fst snd] in H. destruct H as [? | (-> & [? | (-> & ?)])]; [lia | lia |]. lia.
  - intros Hlt.
    assert (forall i, 0 <= i < blen (content md (kg, ko)) -> byte_received fs (kg, ko) i) as Hall.
    { intros i Hi. apply (path_received md fs _ Hp); cbn [before fst snd]; lia. }
    split; [| done]. specialize (Hall 0 ltac:(lia)). unfold byte_received in Hall.
    eapply Exists_impl; [exact Hall |]. by intros f [? _].
Qed.

End positions.

Section receiver.
Context `{Sp : Splay quicrq_cached_fragment_t quicrq_fragment_cache_node_compare}.
Context {So : Splay okey quicrq_fragment_publisher_object_node_compare}.
Context `{SR : SplayLaws (Z * Z) quicrq_object_node_compare}.
Context {Al : Allocator} {PF : PicoFrames} {PI : PicoStreamIds}.
Context {A : Type} (fn : A -> object_call -> A * Z) (now : Z).

(** The consumer of objects in order, set on a control stream; [None] after an
    undefined behaviour. *)
Abbreviation bridge := (quicrq_object_stream_consumer_ctx (App := A * list object_call)).
Definition bridge_consumer : Consumer (option bridge) := fun x call =>
  match x with
  | None => (None, -1)
  | Some x =>
      match quicrq_media_object_bridge_fn (recording fn) quicrq_subscribe_in_order now x call with
      | Some (x', ret) => (Some x', ret)
      | None => (None, -1)
      end
  end.
#[local] Existing Instance bridge_consumer.

Context (default_source_fn : option (quicrq_ctx_t -> list Z -> quicrq_ctx_t * Z)).
Context (consumer_media_init_fn : option (list Z -> option (option bridge) * Z)).
Context (manage_relay_subscribe_fn : option (quicrq_ctx_t -> list Z -> quicrq_ctx_t)).
Context (alloc_ok : forall n, malloc_ok n = true) (fn_ok : forall a c, (fn a c).2 = 0).
Context (md : media).
Implicit Types w : stream_world (CS := option bridge).

Abbreviation handle := (handle_message default_source_fn consumer_media_init_fn manage_relay_subscribe_fn).

(** A stream that has received the fragments [fs]. *)
Record receiving fs w (x : bridge) log : Prop := {
  rv_stream : receiving_stream w (Some x);
  rv_ok : consuming_ok md fs x log;
  rv_point : final_of (bc_reassembly x) = (0, 0);
}.

(** A fragment as it arrives. *)
Definition received_fragment (f : fragment) : fragment := {|
  f_time := now; f_data := f_data f; f_group := f_group f; f_object := f_object f;
  f_offset := f_offset f; f_delay := 0; f_flags := f_flags f; f_nb_previous := f_nb_previous f;
  f_object_length := f_object_length f; f_data_length := f_data_length f |}.

Lemma received_consistent f : consistent md f -> consistent md (received_fragment f).
Proof. intros []. by split. Qed.

Lemma receive_one fs w x log f body :
  receiving fs w x log -> consistent md f ->
  quicrq_msg_decode body = Some (fragment_message f, []) ->
  exists w' x' log', handle body (Some w) = (Some w', 0) /\
    receiving (fs ++ [received_fragment f]) w' x' log'.
Proof.
  intros [Hw Hok Hp] Hf Hd.
  destruct (consuming_step alloc_ok fn fn_ok md fs x log now (fragment_call f) Hok (received_consistent f Hf))
    as (x' & log' & ret & E & Hok' & Hret).
  destruct Hret as [Hret Hpoint]; [by eexists |].
  destruct (fragment_received default_source_fn consumer_media_init_fn manage_relay_subscribe_fn
    w (Some x) (Some x') ret f body Hw) as (w' & Eh & Hw'); try done; [apply Hf | apply Hf | | |].
  - unfold consumer_fn, bridge_consumer. by rewrite E.
  - rewrite Hret. unfold finished_or. destruct (_ && _); auto.
  - exists w', x', log'. split; [done |]. split; [done | exact Hok' | congruence].
Qed.

Lemma receive_all sent w x log bodies rest :
  receiving [] w x log -> Forall (consistent md) sent ->
  Forall2 (fun b m => blen b < 65536 /\ quicrq_msg_decode b = Some (m, [])) bodies
    (map fragment_message sent) ->
  exists w' x' log',
    handle_stream handle (Some w) (frames bodies ++ rest) = handle_stream handle (Some w') rest /\
    receiving (map received_fragment sent) w' x' log'.
Proof.
  intros Hr Hc Hb. pose proof (Forall2_length _ _ _ Hb) as Hl. rewrite length_map in Hl.
  destruct (receive_messages default_source_fn consumer_media_init_fn manage_relay_subscribe_fn
    (map fragment_message sent) bodies Hb
    (fun n w => exists x log, receiving (map received_fragment (take n sent)) w x log))
    with (k := length bodies) (n := 0%nat) (w := w) (rest := rest) as (w' & E & x' & log' & Hw'); try lia.
  - intros n m w0 body Hm (x0 & log0 & Hr0) Hd. rewrite list_lookup_fmap in Hm.
    destruct (sent !! n) as [f |] eqn:Ef; [| done]. injection Hm as <-.
    destruct (receive_one _ w0 x0 log0 f body Hr0) as (w1 & x1 & log1 & E & Hr1); [| done |].
    { eapply Forall_lookup_1; [exact Hc | exact Ef]. }
    exists w1. split; [done |]. exists x1, log1.
    rewrite (take_S_r _ _ _ Ef), map_app. exact Hr1.
  - by exists x, log.
  - exists w', x', log'. rewrite drop_0, firstn_all in E. split; [done |].
    by rewrite Nat.add_0_l, Hl, firstn_all in Hw'.
Qed.

(** The expectation point of the reassembly is past the objects received. *)
Lemma consuming_next fs (x : bridge) log g o : consuming_ok md fs x log ->
  (forall k, media_key md k -> fully_received md fs k <-> key_lt k (g, o)) ->
  0 <= o <= count md g -> (o = 0 -> g = 0) ->
  pair_leb g o (rc_next_group_id (bc_reassembly x)) (rc_next_object_id (bc_reassembly x)) = true.
Proof.
  intros [Hst _ _] Hrec Ho Hg0. pose proof (st_inv _ _ _ _ _ _ Hst) as Hinv.
  destruct (settled_in_order md [] (0, 0) fs _ log Hst) as (n & E & _ & Hn).
  destruct (li_order _ _ _ _ _ _ (inv_log _ _ _ _ _ _ Hinv)) as (n' & E' & Hnext).
  assert (n' = n) as ->.
  { rewrite E in E'. apply (f_equal length) in E'. cbn [app] in E'.
    by rewrite !length_map, !length_seq in E'. }
  pose proof (si_next _ _ _ (inv_store _ _ _ _ _ _ Hinv)) as [Hng Hno].
  rewrite Hrec in Hn by apply media_from_key. rewrite <- Hnext in Hn.
  unfold normal, next_key, key_lt in Hn. cbn [fst snd] in Hn. apply pair_leb_spec.
  destruct (Z.ltb_spec (rc_next_object_id (bc_reassembly x)) (count md (rc_next_group_id (bc_reassembly x))));
    cbn [fst snd] in *; [lia |].
  assert (rc_next_object_id (bc_reassembly x) = count md (rc_next_group_id (bc_reassembly x))) as En by lia.
  destruct (Z.eq_dec g (rc_next_group_id (bc_reassembly x))) as [-> |]; [lia |].
  assert (0 < count md (rc_next_group_id (bc_reassembly x))).
  { pose proof (count_range md (rc_next_group_id (bc_reassembly x))). lia. }
  lia.
Qed.

Lemma receive_last fs w x log g o body :
  receiving fs w x log ->
  pair_leb g o (rc_next_group_id (bc_reassembly x)) (rc_next_object_id (bc_reassembly x)) = true ->
  quicrq_msg_decode body = Some (final_message g o, []) ->
  exists w' x', handle body (Some w) = (Some w', 0) /\ w_media w' = consuming (Some x') /\
    bc_bridge x' = bc_bridge x /\ st_is_receive_complete (w_stream w') = true.
Proof.
  intros [Hw _ Hp] Hle Hd.
  assert (exists x', consumer_fn (Some x) (quicrq_media_final_object_id g o)
    = (Some x', quicrq_consumer_finished) /\ bc_bridge x' = bc_bridge x) as (x' & E & Ex).
  { unfold consumer_fn, bridge_consumer. cbn [quicrq_media_object_bridge_fn].
    unfold quicrq_reassembly_learn_final_object_id. injection Hp as -> ->. cbn [Z.eqb andb].
    cbn [rc_set_final rc_next_group_id rc_next_object_id]. rewrite Hle.
    change (finished_or _ 0) with quicrq_consumer_finished. by eexists. }
  destruct (final_received default_source_fn consumer_media_init_fn manage_relay_subscribe_fn
    w (Some x) (Some x') _ g o body Hw Hd E (or_intror eq_refl)) as (w' & Eh & Hw' & Hc).
  exists w', x'. split; [done |]. split; [apply Hw' |]. split; [done | by apply Hc].
Qed.
End receiver.

Lemma received_fragments now fs k i :
  byte_received (map (received_fragment now) fs) k i <-> byte_received fs k i.
Proof. unfold byte_received. rewrite Exists_map. done. Qed.

Lemma received_fully now md fs k :
  fully_received md (map (received_fragment now) fs) k <-> fully_received md fs k.
Proof.
  unfold fully_received. rewrite Exists_map.
  by setoid_rewrite (received_fragments now fs k).
Qed.

(** ** The composition *)

Lemma path_consistent md p fs q : path md p fs q -> Forall (consistent md) fs.
Proof.
  induction 1 as [| fs q f _ IH _ Hf _]; [constructor |].
  apply Forall_app. split; [done | by apply Forall_singleton].
Qed.

Section statement.
Context {Sp : Splay quicrq_cached_fragment_t quicrq_fragment_cache_node_compare}.
Context {So : Splay okey quicrq_fragment_publisher_object_node_compare}.
Context {SR : Splay (Z * Z) quicrq_object_node_compare}.
Context {A : Type}.

(** A stream that has just been opened to receive a media for the consumer of
    objects of the application [a]. *)
Record ready_to_receive (a : A)
    (w : stream_world (So := So) (CS := option (quicrq_object_stream_consumer_ctx (App := A * list object_call))))
  : Prop := {
  rr_state : st_receive_state (w_stream w) = quicrq_receive_fragment;
  rr_media : w_media w = consuming (Some (bridge_start (a, [])));
  rr_start : st_start_group_id (w_stream w) = 0 /\ st_start_object_id (w_stream w) = 0;
  rr_final : st_final_object_id (w_stream w) = 0;
  rr_message : st_message_receive (w_stream w) = msg_buffer_zero;
}.

(** What the application was given: the objects before a point, in order. *)
Definition given_before (md : media) (g o : Z)
    (x : quicrq_object_stream_consumer_ctx (App := A * list object_call)) : Prop :=
  exists n, map given (br_app (bc_bridge x)).2 =
    map (fun i => let k := media_from md (0, 0) i in Some (k.1, k.2, content md k)) (seq 0 n) /\
    (forall i, (i < n)%nat -> key_lt (media_from md (0, 0) i) (g, o)) /\
    ~ key_lt (media_from md (0, 0) n) (g, o).
End statement.

(** A stream that receives all that a sender has written so far. *)
Lemma application_receives
    `{SL : SplayLaws quicrq_cached_fragment_t quicrq_fragment_cache_node_compare}
    {So : Splay okey quicrq_fragment_publisher_object_node_compare}
    `{SR : SplayLaws (Z * Z) quicrq_object_node_compare}
    {Al : Allocator} `{FL : FramesLaws} {PI : PicoStreamIds}
    {A : Type} (fn : A -> object_call -> A * Z) (a : A) (now : Z)
    (default_source_fn : option (quicrq_ctx_t -> list Z -> quicrq_ctx_t * Z))
    (consumer_media_init_fn : option (list Z ->
       option (option (quicrq_object_stream_consumer_ctx (App := A * list object_call))) * Z))
    (manage_relay_subscribe_fn : option (quicrq_ctx_t -> list Z -> quicrq_ctx_t))
    (md : media) fs sent final w (receiver : stream_world (So := So)) (chunks : list (list Z)) :
  (forall n, malloc_ok n = true) -> (forall a c, (fn a c).2 = 0) -> sendable md ->
  sending md fs sent final w ->
  ready_to_receive a receiver -> Forall (Forall is_byte) chunks ->
  concat chunks = sent_bytes (sw_calls w) ->
  exists w' x, receive_data (Co := bridge_consumer fn now) default_source_fn consumer_media_init_fn
      manage_relay_subscribe_fn receiver chunks = Some (w', 0) /\
    w_media w' = consuming (Some x) /\
    given_before md (st_next_group_id (sw_stream w)) (st_next_object_id (sw_stream w)) x /\
    (sent_fin (sw_calls w) = true -> st_is_receive_complete (w_stream w') = true).
Proof.
  intros Hal Hfn Hsd Hw [Hst Hm Hs0 Hf0 Hmb] Hbytes Hchunks.
  destruct (sg_framed _ _ _ _ _ Hw) as (bodies & Ebytes & Hbodies).
  unfold sender_messages in Hbodies. apply Forall2_app_inv_r in Hbodies as (b1 & b2 & Hb1 & Hb2 & ->).
  rewrite map_app, concat_app in Ebytes. rewrite Ebytes in Hchunks.
  pose proof (sg_path _ _ _ _ _ Hw) as Hpath. unfold stream_position in Hpath.
  set (g := st_next_group_id (sw_stream w)) in *. set (o := st_next_object_id (sw_stream w)) in *.
  pose proof (path_end md Hsd _ _ Hpath) as (_ & Ho & _ & Ho0).
  destruct (receive_all fn now default_source_fn consumer_media_init_fn manage_relay_subscribe_fn
    Hal Hfn md sent receiver (bridge_start (a, [])) [] b1 (frames b2))
    as (w1 & x1 & log1 & E1 & Hr1); [| by eapply path_consistent | done |].
  { split; [by split | by apply consuming_start | done]. }
  assert (forall k, media_key md k ->
    fully_received md (map (received_fragment now) sent) k <-> key_lt k (g, o)) as Hrec.
  { intros k Hk. rewrite received_fully. by eapply sent_received. }
  assert (given_before md g o x1) as Hgiven.
  { destruct (consuming_given md _ x1 log1 (rv_ok _ _ _ _ _ Hr1)) as (n & En & Hin & Hout).
    exists n. split; [done |]. split.
    - intros i Hi. apply Hrec; [apply media_from_key | by apply Hin].
    - rewrite <- Hrec by apply media_from_key. done. }
  destruct (receive_data_handled (Co := bridge_consumer fn now) default_source_fn consumer_media_init_fn
    manage_relay_subscribe_fn receiver chunks) as (r & mb & pending & ret & E & H); [auto | done | | done |].
  { split; [done | by eexists]. }
  rewrite Hchunks, E1 in E. destruct (sent_fin (sw_calls w)) eqn:Efin.
  - apply Forall2_cons_inv_r in Hb2 as (b & ? & [Hl Hd] & ->%Forall2_nil_inv_r & ->).
    destruct (receive_last fn now default_source_fn consumer_media_init_fn manage_relay_subscribe_fn
      md _ w1 x1 log1 g o b Hr1) as (w2 & x2 & E2 & Em & Ebr & Ec); [| done |].
    { eapply consuming_next; [by apply (rv_ok _ _ _ _ _ Hr1) | done | lia |].
      intros Hz. apply Ho0; [done | by apply (sg_end _ _ _ _ _ Hw)]. }
    cbn [map concat] in E. rewrite (handle_stream_step _ _ _ b [] (Some w2)), handle_stream_none in E;
      [| done | by apply frame_parse | done].
    injection E as <- <- <-. destruct H as [_ ->].
    exists (with_buffer w2 mb), x2. split_and!; try done.
    unfold given_before in *. by rewrite Ebr.
  - apply Forall2_nil_inv_r in Hb2 as ->. cbn [map concat] in E.
    rewrite handle_stream_none in E by done. injection E as <- <- <-. destruct H as [_ ->].
    exists (with_buffer w1 mb), x1. split_and!; try done. apply (rv_stream _ _ _ _ _ Hr1).
Qed.

(** [C4] From the cache of the sender to the application of the receiver.  A
    single stream sender has written what it could of a media, whose fragments
    arrived in its cache in any order; the transport has delivered these bytes,
    cut in any pieces, to a stream that receives for the consumer of objects in
    order.  Then the receiver accepts everything, and its application has been
    given exactly the objects before the position of the sender: all of them,
    each once, in order, with their bytes.  If the sender has ended the stream,
    the receiver knows that it is complete. *)
Theorem single_stream_end_to_end
    `{SL : SplayLaws quicrq_cached_fragment_t quicrq_fragment_cache_node_compare}
    {So : Splay okey quicrq_fragment_publisher_object_node_compare}
    `{SR : SplayLaws (Z * Z) quicrq_object_node_compare}
    {Al : Allocator} `{FL : FramesLaws} {PS : PicoStream} {PI : PicoStreamIds}
    {A : Type} (fn : A -> object_call -> A * Z) (a : A) (now : Z)
    (default_source_fn : option (quicrq_ctx_t -> list Z -> quicrq_ctx_t * Z))
    (consumer_media_init_fn : option (list Z ->
       option (option (quicrq_object_stream_consumer_ctx (App := A * list object_call))) * Z))
    (manage_relay_subscribe_fn : option (quicrq_ctx_t -> list Z -> quicrq_ctx_t))
    (qr_mode : quicrq_congestion_control_enum) (md : media) (es : list sender_event)
    (stream_id : Z) (cg : quicrq_cnx_congestion_state_t) (receiver : stream_world (So := So))
    (chunks : list (list Z)) :
  (forall n, malloc_ok n = true) ->
  (forall n is_fin active, picoquic_provide_stream_data_buffer n is_fin active = true) ->
  (forall a c, (fn a c).2 = 0) ->
  sendable md -> Forall spaces_ok es ->
  let fs := arrived es in
  Forall (consistent md) fs ->
  Forall (fun f => 0 < f_data_length f /\ f_group f < 16384) fs ->
  (forall f f', f ∈ fs -> f' ∈ fs -> no_overlap f f') ->
  (forall p f, p ∈ final_points es -> f ∈ fs -> before_final p f) ->
  ready_to_receive a receiver -> Forall (Forall is_byte) chunks ->
  (forall w, sender_run qr_mode (sender_start stream_id cg) es = Some w ->
     concat chunks = sent_bytes (sw_calls w)) ->
  exists w w' x, sender_run qr_mode (sender_start stream_id cg) es = Some w /\
    receive_data (Co := bridge_consumer fn now) default_source_fn consumer_media_init_fn
      manage_relay_subscribe_fn receiver chunks = Some (w', 0) /\
    w_media w' = consuming (Some x) /\
    given_before md (st_next_group_id (sw_stream w)) (st_next_object_id (sw_stream w)) x /\
    (sent_fin (sw_calls w) = true -> st_is_receive_complete (w_stream w') = true).
Proof.
  intros Hal Hpr Hfn Hsd Hok fs Hfs Hne Hno Hbf Hready Hbytes Hchunks.
  destruct (run_sending qr_mode Hpr md Hal Hsd es [] [] (0, 0) _ (sending_start md stream_id cg)
              Hok Hfs Hne Hno) as (w & sent & final & Hrun & Hw & _).
  { intros p f [-> | Hp]%elem_of_cons Hf; [by left | by apply Hbf]. }
  destruct (application_receives fn a now default_source_fn consumer_media_init_fn
    manage_relay_subscribe_fn md _ sent final w receiver chunks Hal Hfn Hsd Hw Hready Hbytes
    (Hchunks w Hrun)) as (w' & x & H).
  by exists w, w', x.
Qed.

(** ** Witness *)
Module EndToEndDemo.
Definition qr : quicrq_ctx_t := {|
  qr_sources := []; qr_next_source := 0; qr_cache_duration_max := 0; qr_cache_check_next_time := 0;
  qr_is_cache_closing_needed := false;
  qr_useless_fragments := 0; qr_congestion_control_mode := quicrq_congestion_control_none |}.
Definition cnx : quicrq_cnx_ctx_t := {|
  cx_id := 1; cx_is_server := false; cx_congestion := congestion_zero; cx_next_media_id := 0; cx_next_abandon_datagram_id := 0;
  cx_uni_streams := []; cx_calls := [] |}.
Definition receiver
  : stream_world (CS := option (quicrq_object_stream_consumer_ctx (App := Z * list object_call))) := {|
  w_qr := qr; w_cnx := cnx; w_stream := st_set_receive (stream_zero 4) quicrq_receive_fragment;
  w_media := consuming (Some (bridge_start (0, []))); w_source := None; w_notified := None |}.
(** The bytes of the sender of [SenderDemo], in four pieces. *)
Definition chunks : list (list Z) :=
  [[0]; [11; 5; 0; 0; 0; 8; 128; 0; 3; 0; 0; 7; 0; 12; 5; 0; 0; 3; 8; 128; 5; 8; 9; 10; 11; 12; 0; 15];
   [5; 0; 1; 0; 8; 128; 8; 0; 1; 7; 8; 9; 10; 11; 12; 0; 3]; [3; 0; 2]].
Abbreviation run := (sender_run (Al := CacheDemo.malloc_always) (PS := SenderDemo.stream_ready)
  quicrq_congestion_control_none (sender_start 4 congestion_zero) SenderDemo.events).
Abbreviation receive := (receive_data (Al := CacheDemo.malloc_always) (PI := ReceiverDemo.next_ids)
  (Co := bridge_consumer (Al := CacheDemo.malloc_always) ConsumerDemo.app 7) None None None receiver chunks).

Lemma chunks_sent w : run = Some w -> concat chunks = sent_bytes (sw_calls w).
Proof.
  intros E. assert (option_map (fun w => sent_bytes (sw_calls w)) run = Some (concat chunks)) as H
    by reflexivity.
  rewrite E in H. by injection H.
Qed.
End EndToEndDemo.

Lemma single_stream_end_to_end_witness :
  (exists w w' x, EndToEndDemo.run = Some w /\ EndToEndDemo.receive = Some (w', 0) /\
    w_media w' = consuming (Some x) /\
    given_before CacheDemo.cache_media (st_next_group_id (sw_stream w))
      (st_next_object_id (sw_stream w)) x /\
    (sent_fin (sw_calls w) = true -> st_is_receive_complete (w_stream w') = true)) /\
  option_map (fun r => match w_media r.1 with
                       | consuming (Some x) => map given (br_app (bc_bridge x)).2 | _ => [] end)
    EndToEndDemo.receive
  = Some [Some (0, 0, [0; 0; 7; 8; 9; 10; 11; 12]); Some (0, 1, [0; 1; 7; 8; 9; 10; 11; 12])].
Proof.
  split; [| reflexivity].
  apply (single_stream_end_to_end (Al := CacheDemo.malloc_always) (PS := SenderDemo.stream_ready)
           (PI := ReceiverDemo.next_ids) ConsumerDemo.app 0 7 None None None
           quicrq_congestion_control_none CacheDemo.cache_media SenderDemo.events 4 congestion_zero
           EndToEndDemo.receiver EndToEndDemo.chunks).
  - intros n. exact eq_refl.
  - intros n is_fin active. exact eq_refl.
  - intros ? ?. exact eq_refl.
  - exact SenderDemo.demo_sendable.
  - exact SenderDemo.events_spaces.
  - apply CacheDemo.parts_consistent.
  - exact SenderDemo.events_sizes.
  - apply CacheDemo.parts_no_overlap.
  - exact SenderDemo.events_final.
  - split; first [exact eq_refl | split; exact eq_refl].
  - unfold EndToEndDemo.chunks. repeat constructor; done.
  - exact EndToEndDemo.chunks_sent.
Defined.
