(* ===== verification/DatagramTheorems.v ===== *)
(** * A media sent as datagrams, from the sender to the application

    What a sender of datagrams does in any interleaving of arrivals, polls and
    reports (DatagramSender.v), and what the application of a receiver is given
    when the transport delivers some of the datagrams, in any order and any
    number of times. *)

From S2P Require Import Prelude Picosplay PicoFrames Media Proto Reassembly ReassemblyDelivery.
From S2P Require Import ReassemblySafety.
From S2P Require Import Fragment FragmentProofs FragmentReads FragmentHistory ExtraRepeat.
From S2P Require Import PublisherContext Congestion Publisher Ack AckProofs AckRepeat AckHistory AckTheorems AckContents.
From S2P Require Import DatagramPublisher DatagramObjects DatagramProofs DatagramSender.
From S2P Require Import StreamContext MediaStream Warp ControlStream Connection.
From S2P Require Import ObjectConsumer ObjectConsumerTheorems EndToEnd.

(** ** The receiver *)

Section receiver.
Context {Sp : Splay quicrq_cached_fragment_t quicrq_fragment_cache_node_compare}.
Context {So : Splay okey quicrq_fragment_publisher_object_node_compare}.
Context {Sa : Splay akey quicrq_datagram_ack_node_compare}.
Context `{SR : SplayLaws (Z * Z) quicrq_object_node_compare}.
Context {Al : Allocator} {PF : PicoFrames}.
Context {A : Type} (fn : A -> object_call -> A * Z) (now : Z).
#[local] Existing Instance bridge_consumer.
Abbreviation bridge := (quicrq_object_stream_consumer_ctx (App := A * list object_call)).
Abbreviation receiver := (connection (So := So) (CS := option bridge)).
Implicit Types n : receiver.

(** The datagrams that arrive, until one is refused. *)
Fixpoint receive_datagrams (qr : quicrq_ctx_t) n (dgs : list (list Z))
  : option (quicrq_ctx_t * receiver * Z) :=
  match dgs with
  | [] => Some (qr, n, 0)
  | bytes :: dgs =>
      '(qr, n, ret) ← quicrq_receive_datagram (So := So) (Co := bridge_consumer fn now) qr n bytes;
      if ret =? 0 then receive_datagrams qr n dgs else Some (qr, n, ret)
  end.

(** The first stream that receives the datagrams of the media [mid] has the
    consumer [x]. *)
Record receives_media (mid : Z) n (x : bridge) : Prop := {
  rm_stream : exists before k after, n_streams n = before ++ k :: after /\
    Forall (fun y => receives_datagrams mid y = false) before /\
    receives_datagrams mid k = true /\ k_media k = consuming (Some x);
  rm_ids : NoDup (map k_id (n_streams n));
}.

Lemma find_middle {B} (p : B -> bool) before k after : Forall (fun y => p y = false) before ->
  p k = true -> List.find p (before ++ k :: after) = Some k.
Proof. induction 1 as [| y l Hy _ IH]; intros Hk; cbn; [by rewrite Hk | rewrite Hy; auto]. Qed.

Lemma update_middle before (k k' : control (So := So) (CS := option bridge)) after : k_id k' = k_id k ->
  NoDup (map k_id (before ++ k :: after)) -> update_stream k' (before ++ k :: after) = before ++ k' :: after.
Proof.
  intros Hid Hnd. unfold update_stream. rewrite map_app in Hnd |- *. cbn [map] in Hnd |- *.
  rewrite Hid, Z.eqb_refl. apply NoDup_app in Hnd as (_ & Hb & [Ha _]%NoDup_cons).
  assert (forall l, k_id k ∉ map k_id l -> map (fun x => if k_id x =? k_id k then k' else x) l = l) as Hsame.
  { induction l as [| y l IH]; intros Hy; cbn; [done |]. rewrite IH.
    - destruct (Z.eqb_spec (k_id y) (k_id k)); [| done]. destruct Hy. cbn. rewrite e. left.
    - intros Hin. apply Hy. by right. }
  rewrite !Hsame; [done | done |]. intros Hin. apply (Hb _ Hin). by left.
Qed.

Context (alloc_ok : forall z, malloc_ok z = true) (fn_ok : forall a c, (fn a c).2 = 0).
Context (md : media) (mid : Z).

(** A fragment, with the time at which it arrives. *)
Definition stamped (f : fragment) : fragment := {|
  f_time := now; f_data := f_data f; f_group := f_group f; f_object := f_object f;
  f_offset := f_offset f; f_delay := f_delay f; f_flags := f_flags f; f_nb_previous := f_nb_previous f;
  f_object_length := f_object_length f; f_data_length := f_data_length f |}.

(** What identifies a receiver of datagrams. *)
Definition same_receiver (s s' : quicrq_stream_ctx_t) : Prop :=
  st_stream_id s' = st_stream_id s /\ st_is_sender s' = st_is_sender s /\
  st_transport_mode s' = st_transport_mode s /\ st_media_id s' = st_media_id s.

Lemma finished_receiver s ret : ret = 0 \/ ret = quicrq_consumer_finished ->
  exists s' calls, quicrq_cnx_handle_consumer_finished s ret = (s', 0, calls) /\ same_receiver s s'.
Proof.
  unfold quicrq_cnx_handle_consumer_finished, set_finished_reason. intros [-> | ->]; cbn -[st_close_reason].
  - by eexists _, _.
  - eexists _, _. split; [done |]. by destruct (bool_decide _).
Qed.

(** A datagram of the media goes to the consumer. *)
Lemma receive_one_datagram qr fs n x log bytes f :
  receives_media mid n x -> consuming_ok md fs x log ->
  datagram_fragment mid bytes = Some f -> consistent md f ->
  exists qr' n' x' log', quicrq_receive_datagram (So := So) (Co := bridge_consumer fn now) qr n bytes = Some (qr', n', 0) /\
    receives_media mid n' x' /\ consuming_ok md (fs ++ [stamped f]) x' log'.
Proof.
  intros [(before & k & after & En & Hb & Hk & Em) Hids] Hx Hf Hc.
  destruct (datagram_fragment_decode _ _ _ Hf) as [Hdec Hlen].
  destruct (consuming_step alloc_ok fn fn_ok md fs x log now
    (quicrq_media_datagram_ready (f_data f) (f_group f) (f_object f) (f_offset f) (f_delay f) (f_flags f)
       (f_nb_previous f) (f_object_length f) (blen (f_data f))) Hx)
    as (x' & log' & ret & E & Hx' & Hret).
  { unfold media_call. cbn. rewrite <- Hlen. by destruct Hc. }
  destruct Hret as [Hret _]; [by eexists |].
  unfold quicrq_receive_datagram. rewrite Hdec, En, (find_middle _ before k after Hb Hk). cbv zeta.
  unfold call_stream_consumer.
  set (w0 := if is_before_start _ _ _ then _ else _).
  assert (w_media w0 = consuming (Some x)) as Ew by (unfold w0; destruct (is_before_start _ _ _); exact Em).
  rewrite Ew. unfold consumer_fn, bridge_consumer at 1. rewrite E. cbn [mbind option_bind].
  assert (w_stream w0 = k_stream k) as Es by (unfold w0; by destruct (is_before_start _ _ _)).
  destruct (finished_receiver (k_stream k) ret) as (s & calls & Ef & Hid & H1 & H2 & H3).
  { rewrite Hret. unfold finished_or. destruct (_ && _); auto. }
  cbn [w_stream w_set_media]. rewrite Es, Ef. eexists _, _, x', log'. split; [done |].
  assert (call_fragments [(now, quicrq_media_datagram_ready (f_data f) (f_group f) (f_object f) (f_offset f)
     (f_delay f) (f_flags f) (f_nb_previous f) (f_object_length f) (blen (f_data f)))] = [stamped f]) as Ec
    by (cbn; unfold stamped; by rewrite Hlen).
  rewrite Ec in Hx'. split; [| exact Hx'].
  rewrite En in Hids. unfold put_view, control_of_view. cbn [w_stream w_call w_set_stream w_set_media w_media].
  match goal with |- context [update_stream ?c _] => set (k' := c) end.
  assert (k_id k' = k_id k) as Hid' by exact Hid.
  split; cbn [n_streams]; rewrite En, (update_middle before k k' after Hid' Hids).
  - exists before, k', after. split_and!; try done.
    unfold receives_datagrams in Hk |- *. change (k_stream k') with s. by rewrite H1, H2, H3.
  - rewrite map_app in Hids |- *. cbn [map] in Hids |- *. by rewrite Hid'.
Qed.

(** What the datagrams that arrive carry. *)
Definition carried (dgs : list (list Z)) : list fragment := omap (datagram_fragment mid) dgs.

Lemma receive_all_datagrams dgs : forall qr fs n x log,
  receives_media mid n x -> consuming_ok md fs x log -> Forall (genuine_datagram md mid) dgs ->
  exists qr' n' x' log', receive_datagrams qr n dgs = Some (qr', n', 0) /\
    receives_media mid n' x' /\ consuming_ok md (fs ++ map stamped (carried dgs)) x' log'.
Proof.
  induction dgs as [| bytes dgs IH]; intros qr fs n x log Hn Hx Hd; cbn [receive_datagrams].
  { exists qr, n, x, log. cbn. by rewrite app_nil_r. }
  apply Forall_cons in Hd as [(f & Hf & Hc) Hd].
  destruct (receive_one_datagram qr fs n x log bytes f Hn Hx Hf Hc) as (qr1 & n1 & x1 & log1 & -> & Hn1 & Hx1).
  cbn [mbind option_bind Z.eqb].
  destruct (IH qr1 _ n1 x1 log1 Hn1 Hx1 Hd) as (qr2 & n2 & x2 & log2 & -> & Hn2 & Hx2).
  exists qr2, n2, x2, log2. split; [done |]. split; [done |].
  unfold carried in *. cbn [omap list_omap]. rewrite Hf. by rewrite <- (assoc_L (++)) in Hx2.
Qed.

Lemma stamped_received fs k i : byte_received (map stamped fs) k i <-> byte_received fs k i.
Proof. unfold byte_received. by rewrite Exists_map. Qed.

Lemma stamped_fully fs k : fully_received md (map stamped fs) k <-> fully_received md fs k.
Proof.
  unfold fully_received. rewrite Exists_map. by setoid_rewrite (stamped_received fs k).
Qed.
End receiver.

Lemma carried_received {PF : PicoFrames} mid dgs k i :
  byte_received (carried mid dgs) k i <->
  exists dg f, dg ∈ dgs /\ datagram_fragment mid dg = Some f /\ f_key f = k /\
    f_offset f <= i < f_offset f + f_data_length f.
Proof.
  unfold byte_received, carried. rewrite Exists_exists. split.
  - intros (f & (dg & Hd & Hf)%list_elem_of_omap & Hk & Hi). by exists dg, f.
  - intros (dg & f & Hd & Hf & Hk & Hi). exists f. split; [apply list_elem_of_omap; by exists dg | done].
Qed.

(** ** The sender *)

Section statement.
Context `{SL : SplayLaws quicrq_cached_fragment_t quicrq_fragment_cache_node_compare}.
Context {So : Splay okey quicrq_fragment_publisher_object_node_compare} {SLo : SplayLaws So}.
Context {Sa : Splay akey quicrq_datagram_ack_node_compare} {SLa : SplayLaws Sa}.
Context {Al : Allocator} {PF : PicoFrames} {FL : FramesLaws PF} {PD : PicoDatagram}.
Context {PQ : PicoQueue} {PL : PicoQueueLaws PQ}.

(** A call of picoquic, with space for a fragment, to which the publisher gives
    nothing. *)
Definition nothing_to_send (qr_mode : quicrq_congestion_control_enum) (qr : extra_settings) (mid : Z)
    (w : datagram_world) : Prop :=
  exists space now qr_time w', 15 < space /\ is_id qr_time /\
    datagram_step qr_mode qr mid w (DPoll space now qr_time) = Some w' /\
    dw_published w' = dw_published w.

(** [C6] What a sender of datagrams sends.  Fragments of a media arrive in its
    cache in any order, with repetitions; picoquic asks for datagrams of any
    size, and reports, in any order and any number of times, the datagrams
    that were acknowledged or lost; the timer of the extra repeats fires; the
    objects are not empty and the first fragment is of the first object.  Then
    the datagrams published are, one after the other, pieces of the fragments
    of the cache, in the order in which they arrived, without a byte published
    twice; and every datagram ever sent, repeats included, carries the right
    bytes of the media, inside one of these pieces.  The next call for a
    datagram and the next acknowledgement do not fault: the call gives the next
    piece, that fits in the space, or nothing because the space is 15 bytes at
    most or because exactly what arrived was published. *)
Theorem datagram_sender_correct qr_mode qr md mid cg es w :
  (forall n, malloc_ok n = true) -> (forall n, picoquic_provide_datagram_buffer n = true) ->
  datagram_media md -> small mid -> events_ok md es ->
  datagram_run qr_mode qr mid (datagram_start mid cg) es = Some w ->
  exists pub, published mid pub (dw_published w) /\
    at_position (fc_fragments (dw_cache w)) (dw_media w) pub /\
    (forall k, media_key md k -> NoDup (offsets pub k)) /\
    Forall (repeats_piece md mid pub) (dw_sent w) /\
    (forall space now qr_time, is_id qr_time ->
      exists w', datagram_step qr_mode qr mid w (DPoll space now qr_time) = Some w' /\
        ((exists x dg, dw_published w' = dw_published w ++ [dg] /\ blen dg <= space /\
            datagram_fragment mid dg = Some x /\
            at_position (fc_fragments (dw_cache w')) (dw_media w') (pub ++ [x])) \/
         (dw_published w' = dw_published w /\ dw_sent w' = dw_sent w /\
          (space <= 15 \/
           forall k i, byte_received (datagram_arrivals es) k i <-> byte_received pub k i)))) /\
    (forall i, is_Some (datagram_step qr_mode qr mid w (DAcked i))).
Proof.
  intros Hal Hpr Hmd Hmid Hes Hrun.
  destruct (run_from_start Hal Hpr md Hmd qr_mode qr mid Hmid cg es w Hes Hrun) as (pub & Hw).
  pose proof (pk_position _ _ _ _ (sd_publisher _ _ _ _ _ Hw)) as Hp. exists pub.
  split; [apply Hw |]. split; [done |]. split.
  { intros k Hk. by apply (position_pieces md _ _ _ (dc_tidy _ _ (sd_cache _ _ _ _ _ Hw)) Hp). }
  split; [apply Hw |]. split; cycle 1.
  { intros i. destruct (acked_step Hal md qr_mode qr mid _ pub w i Hw) as (w' & -> & _). by eexists. }
  intros space now qr_time Ht.
  destruct (poll_step Hal Hpr md qr_mode qr mid Hmid _ pub w space now qr_time Hw Ht)
    as (w' & pub' & E & Hw' & Hres).
  exists w'. split; [exact E |]. destruct Hres as [x dg Ed _ Hl | Ed Es Hc].
  - left. exists x, dg. split; [done |]. split; [done |]. split; [| apply Hw'].
    pose proof (sd_published _ _ _ _ _ Hw') as Hpub. rewrite Ed in Hpub.
    apply Forall2_app_inv_r in Hpub as (l1 & l2 & _ & Hl2 & El).
    apply Forall2_cons_inv_r in Hl2 as (y & l & Hy & ->%Forall2_nil_inv_r & ->).
    apply app_inj_tail in El as [_ El]. rewrite El. exact Hy.
  - right. split; [done |]. split; [done |]. destruct Hc as [[? _] | Hall]; [by left | right].
    intros k i. split; [exact (all_sent_published md mid _ _ _ k i Hw Hall) | exact (published_received md mid _ _ _ k i Hw)].
Qed.

(** A call that gives nothing, with space for a fragment: all is sent. *)
Lemma idle_all_sent qr_mode qr md mid (Hal : forall n, malloc_ok n = true)
    (Hpr : forall n, picoquic_provide_datagram_buffer n = true) (Hmid : small mid) fs pub w :
  sending_datagrams md mid fs pub w -> forall space now qr_time w', 15 < space -> is_id qr_time ->
  datagram_step qr_mode qr mid w (DPoll space now qr_time) = Some w' ->
  dw_published w' = dw_published w -> all_sent (fc_fragments (dw_cache w)) pub.
Proof.
  intros Hw space now qr_time w' Hspace Ht Es Ed.
  destruct (poll_step Hal Hpr md qr_mode qr mid Hmid fs pub w space now qr_time Hw Ht)
    as (w2 & pub2 & E2 & _ & Hres).
  rewrite Es in E2. injection E2 as <-. destruct Hres as [x dg Ed' _ _ | _ _ [[? _] | Hall]]; [| lia | done].
  rewrite Ed in Ed'. apply (f_equal length) in Ed'. rewrite length_app in Ed'. cbn in Ed'. lia.
Qed.

(** All is sent and all that was published was received. *)
Lemma all_carried md mid fs pub w dgs k : datagram_media md -> sending_datagrams md mid fs pub w ->
  all_sent (fc_fragments (dw_cache w)) pub -> Forall (fun dg => dg ∈ dgs) (dw_published w) ->
  fully_received md fs k -> fully_received md (carried mid dgs) k.
Proof.
  intros Hmd Hw Hall Hdgs [_ Hk].
  assert (forall i, 0 <= i < blen (content md k) -> byte_received (carried mid dgs) k i) as Hbytes.
  { intros i Hi. specialize (Hk i Hi). apply (all_sent_published md mid _ _ _ k i Hw Hall) in Hk.
    apply Exists_exists in Hk as (p & Hp & Hkp & Hr).
    destruct (published_elem mid pub _ p (sd_published _ _ _ _ _ Hw) Hp) as (dg & Hdg & Hf).
    rewrite Forall_forall in Hdgs. apply carried_received. exists dg, p. auto. }
  split; [| exact Hbytes]. pose proof (dm_nonempty _ Hmd k).
  specialize (Hbytes 0 ltac:(lia)). eapply Exists_impl; [exact Hbytes |]. by intros f [? _].
Qed.

(** [C5] From the cache of a sender of datagrams to the application of the
    receiver.  The transport delivers some of the datagrams that the sender
    sent, repeats included, in any order and any number of times, to a
    connection whose stream for this media has just been opened with the
    consumer of objects in order; the application accepts every object.  Then
    the connection accepts every datagram, and the application has been given
    exactly the first objects of the media, each once, in order and with its
    bytes, up to the first one that the datagrams received do not complete.  If
    the sender has nothing more to send and all that it published was received,
    that one is the first object that did not arrive whole at the sender. *)
Theorem datagram_end_to_end `{SR : SplayLaws (Z * Z) quicrq_object_node_compare}
    {A : Type} (fn : A -> object_call -> A * Z) (a : A) (now : Z)
    qr_mode qr md mid cg es w (qr_ctx : quicrq_ctx_t) n dgs :
  (forall n, malloc_ok n = true) -> (forall n, picoquic_provide_datagram_buffer n = true) ->
  (forall a c, (fn a c).2 = 0) -> datagram_media md -> small mid -> events_ok md es ->
  datagram_run qr_mode qr mid (datagram_start mid cg) es = Some w ->
  receives_media mid n (bridge_start (a, [])) -> Forall (fun dg => dg ∈ dw_sent w) dgs ->
  exists qr_ctx' n' x given_count, receive_datagrams fn now qr_ctx n dgs = Some (qr_ctx', n', 0) /\
    receives_media mid n' x /\
    map given (br_app (bc_bridge x)).2 =
      map (fun i => let k := media_from md (0, 0) i in Some (k.1, k.2, content md k)) (seq 0 given_count) /\
    (forall i, (i < given_count)%nat -> fully_received md (carried mid dgs) (media_from md (0, 0) i)) /\
    ~ fully_received md (carried mid dgs) (media_from md (0, 0) given_count) /\
    (nothing_to_send qr_mode qr mid w -> Forall (fun dg => dg ∈ dgs) (dw_published w) ->
     ~ fully_received md (datagram_arrivals es) (media_from md (0, 0) given_count)).
Proof.
  intros Hal Hpr Hfn Hmd Hmid Hes Hrun Hn Hdgs.
  destruct (run_from_start Hal Hpr md Hmd qr_mode qr mid Hmid cg es w Hes Hrun) as (pub & Hw).
  assert (Forall (genuine_datagram md mid) dgs) as Hgen.
  { eapply Forall_impl; [exact Hdgs |]. intros dg Hdg.
    pose proof (sd_sent _ _ _ _ _ Hw) as Hs. rewrite Forall_forall in Hs.
    destruct (Hs dg Hdg) as (p & _ & Hp). by eapply within_genuine. }
  destruct (receive_all_datagrams fn now Hal Hfn md mid dgs qr_ctx [] n _ [] Hn (consuming_start md a) Hgen)
    as (qr' & n' & x & log & E & Hn' & Hx).
  destruct (consuming_given md _ x log Hx) as (m & Em & Hin & Hout).
  exists qr', n', x, m. split; [exact E |]. split; [done |]. split; [done |]. split; [| split].
  - intros i Hi. apply (stamped_fully now). by apply Hin.
  - intros H. apply Hout. by apply (stamped_fully now).
  - intros (space & now' & qr_time & w' & Hspace & Ht & Es & Ed) Hall H. apply Hout.
    apply (stamped_fully now).
    apply (all_carried md mid (datagram_arrivals es) pub w dgs _ Hmd Hw); [| done | done].
    by apply (idle_all_sent qr_mode qr md mid Hal Hpr Hmid (datagram_arrivals es) pub w Hw space now' qr_time w').
Qed.
End statement.

(** ** Witnesses *)

Module DatagramDemo.
Import AckDemo.
#[export] Instance always_provided : PicoDatagram := fun _ => true.

(** Groups of two objects of twenty bytes. *)
Program Definition long_media : media :=
  {| content := fun k => k.1 :: k.2 :: repeat 7 18; count := fun _ => 2 |}.
Solve Obligations with (intros; cbv; split; congruence) || (intros; done).
Definition piece (g o offset len : Z) : Media.fragment := {|
  f_time := 0; f_data := slice (g :: o :: repeat 7 18) offset len; f_group := g; f_object := o;
  f_offset := offset; f_delay := 0; f_flags := 128; f_nb_previous := 0;
  f_object_length := 20; f_data_length := len |}.

(** The first object in two pieces, the end first; the first datagram is lost
    and its repeat is queued again, a small space cuts the second object, which
    arrives twice, and the timer repeats the copy. *)
Definition on_nack : extra_settings := quicrq_set_extra_repeat_delay (quicrq_set_extra_repeat settings 1 0) 100.
Definition events : list sending_event :=
  [DArrive (piece 0 0 3 17); DPoll 60 1000 1000; DArrive (piece 0 1 0 20); DArrive (piece 0 0 0 3);
   DArrive (piece 0 1 0 20); DLost 0 1000 90000; DPoll 16 1100 1100; DPoll 60 1200 1200;
   DPoll 60 1300 1300; DPoll 60 1400 1400; DAcked 2; DTimer 200000].
Definition run : option datagram_world :=
  datagram_run quicrq_congestion_control_none on_nack 5 (datagram_start 5 congestion_zero) events.
Definition world : datagram_world :=
  match run with Some w => w | None => datagram_start 5 congestion_zero end.

Lemma demo_run_world : run = Some world.
Proof.
  assert (option_map (fun _ => tt) run = Some tt) as E by (vm_compute; reflexivity).
  unfold world. by destruct run.
Qed.

(** Without the hypothesis on the first fragment, objects are dropped: the first
    object arrives after the second one was published, and is never sent. *)
Example late_objects_skipped :
  option_map (fun w => (length (dw_published w), map frag_key (fc_fragments (dw_cache w))))
    (datagram_run quicrq_congestion_control_none on_nack 5 (datagram_start 5 congestion_zero)
       [DArrive (piece 0 1 0 20); DPoll 60 1000 1000; DArrive (piece 0 0 0 20); DPoll 60 1100 1100;
        DPoll 60 1200 1200])
  = Some (1%nat, [(0, 1); (0, 0)]).
Proof. vm_compute. reflexivity. Qed.

Lemma events_fine : events_ok long_media events.
Proof.
  assert (forall o off len, 0 <= o < 2 -> 0 <= off -> 0 < len -> off + len <= 20 ->
    arrival_ok long_media (piece 0 o off len)) as Hp.
  { intros o off len Ho Hoff Hlen Hend. split; [| done | cbn; unfold small; lia | intros ? _; cbn in *; lia].
    split; cbn; unfold is_id, two62, blen; cbn; try lia; try done. }
  split.
  - unfold events. repeat (apply Forall_cons; split; [cbn; unfold is_id, two62, is_time; u64_lia |]). by apply Forall_nil.
  - cbn. repeat (apply Forall_cons; split; [apply Hp; lia |]). by apply Forall_nil.
  - intros f f' Hf Hf' Hk. cbn in Hf, Hf'. rewrite !elem_of_cons, elem_of_nil in *. unfold same_range.
    destruct_or! Hf; destruct_or! Hf'; subst; try done; cbn in *; try discriminate; lia.
  - done.
Qed.

Lemma long_sendable : datagram_media long_media.
Proof. split; intros; done. Qed.

(** A stream that receives the media, and the datagrams in the reverse order,
    with a repetition. *)
Definition stream : quicrq_stream_ctx_t :=
  st_set_mode (st_set_media (st_set_receive (stream_zero 4) quicrq_receive_fragment) 5)
    quicrq_transport_mode_datagram.
Definition receiver
  : connection (CS := option (quicrq_object_stream_consumer_ctx (App := Z * list object_call))) := {|
  n_cnx := EndToEndDemo.cnx;
  n_streams := [{| k_stream := stream; k_media := consuming (Some (bridge_start (0, [])));
                   k_source := None; k_notified := None; k_ack := quicrq_datagram_ack_ctx_init 0 |}] |}.
Definition received : list (list Z) := rev (dw_sent world) ++ take 2 (dw_sent world).
Definition receive := receive_datagrams ConsumerDemo.app 7 EndToEndDemo.qr receiver received.

Lemma sent_received_twice {B} (l : list B) n : Forall (fun x => x ∈ l) (rev l ++ take n l).
Proof.
  apply Forall_forall. intros x [Hx | Hx]%elem_of_app.
  - by apply list_elem_of_In, in_rev, list_elem_of_In in Hx.
  - rewrite <- (take_drop n l). apply elem_of_app. by left.
Qed.

Lemma all_received : Forall (fun dg => dg ∈ received) (dw_published world).
Proof. apply (bool_decide_eq_true_1 _). vm_compute. reflexivity. Qed.

Lemma idle : nothing_to_send quicrq_congestion_control_none on_nack 5 world.
Proof.
  assert (option_map dw_published (datagram_step quicrq_congestion_control_none on_nack 5 world (DPoll 60 0 0))
    = Some (dw_published world)) as E by (vm_compute; reflexivity).
  destruct (option_map_some _ _ _ E) as (w' & Es & Ed). exists 60, 0, 0, w'.
  split; [exact eq_refl |]. split; [split; [discriminate | exact eq_refl] |]. split; [exact Es | exact Ed].
Qed.

Lemma receiver_ready : receives_media 5 receiver (bridge_start (0, [])).
Proof.
  split; [| apply NoDup_singleton]. eexists [], _, []. split_and!; [done | by apply Forall_nil | done | done].
Qed.
End DatagramDemo.
Import AckDemo DatagramDemo.

Lemma datagram_sender_correct_witness :
  (exists pub, published 5 pub (dw_published world) /\ Forall (repeats_piece long_media 5 pub) (dw_sent world)) /\
  (dw_published world, length (dw_sent world)) =
    ([[5; 0; 0; 3; 20; 0; 128] ++ repeat 7 17; [5; 0; 1; 0; 20; 0; 128; 0; 1] ++ repeat 7 7;
      [5; 0; 1; 9; 20; 0; 128] ++ repeat 7 11; [5; 0; 0; 0; 20; 0; 128; 0; 0; 0; 7]], 6%nat).
Proof.
  split; [| vm_compute; reflexivity].
  destruct (datagram_sender_correct quicrq_congestion_control_none on_nack long_media 5 congestion_zero
    events world) as (pub & Hp & _ & _ & Hs & _).
  - intros n. exact eq_refl.
  - intros n. exact eq_refl.
  - exact long_sendable.
  - unfold small. lia.
  - exact events_fine.
  - exact demo_run_world.
  - by exists pub.
Defined.

Lemma datagram_end_to_end_witness :
  (exists qr' n' x given_count, receive = Some (qr', n', 0) /\ receives_media 5 n' x /\
    map given (br_app (bc_bridge x)).2 =
      map (fun i => let k := media_from long_media (0, 0) i in Some (k.1, k.2, content long_media k))
        (seq 0 given_count) /\
    ~ fully_received long_media (datagram_arrivals events) (media_from long_media (0, 0) given_count)) /\
  option_map (fun r => match n_streams r.1.2 with
                       | [k] => match k_media k with
                                | consuming (Some x) => map given (br_app (bc_bridge x)).2 | _ => [] end
                       | _ => [] end) receive
  = Some [Some (0, 0, 0 :: 0 :: repeat 7 18); Some (0, 1, 0 :: 1 :: repeat 7 18)].
Proof.
  split; [| vm_compute; reflexivity].
  destruct (datagram_end_to_end ConsumerDemo.app 0 7 quicrq_congestion_control_none on_nack long_media 5
    congestion_zero events world EndToEndDemo.qr receiver received)
    as (qr' & n' & x & m & E & Hn' & Hg & _ & _ & Hlast).
  - intros n. exact eq_refl.
  - intros n. exact eq_refl.
  - intros ? ?. exact eq_refl.
  - exact long_sendable.
  - unfold small. lia.
  - exact events_fine.
  - exact demo_run_world.
  - exact receiver_ready.
  - apply sent_received_twice.
  - exists qr', n', x, m. split; [exact E |]. split; [exact Hn' |]. split; [exact Hg |].
    exact (Hlast idle all_received).
Defined.
