(* ===== verification/WarpStream.v ===== *)
(** * The bytes of a unidirectional stream

    In the warp and rush modes a unidirectional stream carries a group, or one
    object of it: the frame of a warp header, then for each object the frame of
    its header and its data. *)

From S2P Require Import Prelude PicoFrames Media Proto MsgBuffer MsgBufferTheorems StreamContext.

(** The messages, as they are decoded. *)
Definition warp_message (mid g : Z) : quicrq_message_t :=
  msg_set QUICRQ_ACTION_WARP_HEADER 0 [] mid g 0 0 0 0 0 0 None tm0 0 si0.
Definition object_message (o nb fl len : Z) : quicrq_message_t :=
  msg_set QUICRQ_ACTION_OBJECT_HEADER 0 [] 0 0 o nb 0 fl len 0 None tm0 0 si0.

(** The header of an object, as it is encoded, and the fields that the media
    does not fix. *)
Record object_header := {
  oh_bytes : list Z;
  oh_nb : Z;
  oh_flags : Z;
}.

Section stream.
Context {PF : PicoFrames} (md : media).
Implicit Types xs : list object_header.

Record header_ok (g o : Z) (x : object_header) : Prop := {
  ho_object : is_id g /\ is_id o /\ o < count md g;
  ho_size : 0 < blen (oh_bytes x) <= 19;
  ho_decode : quicrq_msg_decode (oh_bytes x) =
    Some (object_message o (oh_nb x) (oh_flags x) (blen (content md (g, o))), []);
  ho_previous : 0 < g -> o = 0 -> oh_nb x = count md (g - 1);
}.

(** A stream that carries the objects of [g] from [o] on. *)
Record stream_ok (mid g o : Z) (h : list Z) xs : Prop := {
  so_header : 0 < blen h <= 17 /\ quicrq_msg_decode h = Some (warp_message mid g, []);
  so_objects : forall i x, xs !! i = Some x -> header_ok g (o + Z.of_nat i) x;
}.

Definition object_bytes (g o : Z) (x : object_header) : list Z :=
  frame (oh_bytes x) ++ content md (g, o).
Fixpoint objects (g o : Z) xs : list Z :=
  match xs with
  | [] => []
  | x :: xs => object_bytes g o x ++ objects g (o + 1) xs
  end.
Definition group_stream (g o : Z) (h : list Z) xs : list Z := frame h ++ objects g o xs.

Lemma objects_app g xs ys : forall o,
  objects g o (xs ++ ys) = objects g o xs ++ objects g (o + Z.of_nat (length xs)) ys.
Proof.
  induction xs as [| x xs IH]; intros o; cbn [objects app length].
  - f_equal. lia.
  - rewrite IH, <- (assoc_L (++)). do 3 f_equal. lia.
Qed.

Lemma group_stream_snoc g o h xs x : group_stream g o h (xs ++ [x]) =
  group_stream g o h xs ++ object_bytes g (o + Z.of_nat (length xs)) x.
Proof. unfold group_stream. rewrite objects_app. cbn [objects]. by rewrite app_nil_r, (assoc_L (++)). Qed.

Lemma stream_ok_snoc mid g o h xs x : stream_ok mid g o h xs ->
  header_ok g (o + Z.of_nat (length xs)) x -> stream_ok mid g o h (xs ++ [x]).
Proof.
  intros [Hh Hxs] Hx. split; [done |]. intros i y [Hi | [Hi Hy]]%lookup_app_Some; [by apply Hxs |].
  destruct (i - length xs)%nat eqn:E; [| done]. cbn in Hy. injection Hy as <-.
  by replace i with (length xs) by lia.
Qed.

(** ** Two streams of the same group

    The frames and the media fix the bytes: a stream that begins as another one
    has the same messages, as far as it goes. *)

Lemma frame_prefix m m' t t' : blen m < 65536 -> blen m' < 65536 ->
  frame m ++ t `prefix_of` frame m' ++ t' -> m' = m /\ t `prefix_of` t'.
Proof.
  intros Hm Hm' (k & E). rewrite <- (assoc_L (++)) in E. apply (f_equal parse_frame) in E.
  rewrite !frame_parse in E by done. injection E as -> ->. split; [done | by eexists].
Qed.

Lemma objects_same g xs : forall o ys, map oh_bytes xs = map oh_bytes ys -> objects g o xs = objects g o ys.
Proof.
  induction xs as [| x xs IH]; intros o [| y ys]; [done .. |]. intros [= Ex Exs]. cbn. unfold object_bytes.
  by rewrite Ex, (IH _ _ Exs).
Qed.

Lemma objects_agree g xs : forall o ys t,
  Forall (fun x => blen (oh_bytes x) < 65536) xs -> Forall (fun x => blen (oh_bytes x) < 65536) ys ->
  objects g o xs ++ t `prefix_of` objects g o ys ->
  map oh_bytes (take (length xs) ys) = map oh_bytes xs /\
  t `prefix_of` objects g (o + Z.of_nat (length xs)) (drop (length xs) ys).
Proof.
  induction xs as [| x xs IH]; intros o ys t Hxs Hys Hp.
  { split; [done |]. cbn. by rewrite Z.add_0_r. }
  apply Forall_cons in Hxs as [Hx Hxs]. destruct ys as [| y ys].
  { apply prefix_nil_inv, app_nil in Hp as [Hp _]. cbn in Hp. by destruct (frame (oh_bytes x)) eqn:E. }
  apply Forall_cons in Hys as [Hy Hys]. cbn [objects] in Hp. unfold object_bytes in Hp.
  rewrite <- !(assoc_L (++)) in Hp. apply frame_prefix in Hp as [Eb Hp%prefix_app_inv]; [| done ..].
  destruct (IH _ _ _ Hxs Hys Hp) as [Em Ht]. cbn. rewrite Eb, Em. split; [done |].
  by replace (o + Z.of_nat (S (length xs))) with (o + 1 + Z.of_nat (length xs)) by lia.
Qed.

Lemma stream_sized mid g o h xs : stream_ok mid g o h xs -> Forall (fun x => blen (oh_bytes x) < 65536) xs.
Proof.
  intros [_ H]. apply Forall_lookup. intros i x Hi. pose proof (ho_size _ _ _ (H i x Hi)). lia.
Qed.

Lemma stream_agree mid g o h xs h' ys t : stream_ok mid g o h xs -> stream_ok mid g o h' ys ->
  group_stream g o h xs ++ t `prefix_of` group_stream g o h' ys ->
  (length xs <= length ys)%nat /\
  (forall i, (i <= length xs)%nat -> group_stream g o h' (take i ys) = group_stream g o h (take i xs)) /\
  t `prefix_of` objects g (o + Z.of_nat (length xs)) (drop (length xs) ys).
Proof.
  intros Hx Hy Hp. unfold group_stream in *. rewrite <- (assoc_L (++)) in Hp.
  apply frame_prefix in Hp as [-> Hp]; [| destruct Hx as [[? _] _]; lia | destruct Hy as [[? _] _]; lia].
  destruct (objects_agree g xs o ys t (stream_sized _ _ _ _ _ Hx) (stream_sized _ _ _ _ _ Hy) Hp) as [Em Ht].
  split; [| split; [| done]].
  - apply (f_equal length) in Em. rewrite !length_map, length_take in Em. lia.
  - intros i Hi. f_equal. apply objects_same. rewrite <- (firstn_map oh_bytes), <- (firstn_map oh_bytes), <- Em.
    rewrite !firstn_map, take_take. by rewrite Nat.min_l.
Qed.
End stream.

(** ** The messages that are sent *)

Section messages.
Context `{FL : FramesLaws} {Al : Allocator} (alloc_ok : forall n, malloc_ok n = true).
Context (md : media).

(** A buffer that holds no message. *)
Definition mb_idle (mb : quicrq_message_buffer_t) : Prop :=
  mb_nb_bytes_read mb = 0 /\ mb_message_size mb = 0 /\ 0 <= mb_buffer_alloc mb.

(** A message is encoded in the room that was reserved for it. *)
Lemma alloc_encode mb e n r : mb_idle mb -> 0 <= n <= r -> sized e n ->
  exists mb1 mb2 bytes, quicrq_msg_buffer_alloc mb r 0 = (mb1, 0) /\ mb_encode mb1 e = Some mb2 /\
    blen bytes = n /\ (exists room, e room = Some bytes) /\ 0 <= mb_buffer_alloc mb2 /\
    mb_nb_bytes_read mb2 = 0 /\ mb_message_size mb2 = n /\ ztake n (mb_buffer mb2) = bytes.
Proof.
  intros (Hnb & Hsz & Ha) Hn (_ & He & _). unfold quicrq_msg_buffer_alloc.
  rewrite (proj2 (Z.ltb_ge _ 0)) by lia. cbn [Z.ltb Z.compare andb].
  assert (exists mb1, (if mb_buffer_alloc mb <? r
     then if malloc_ok r then (mb_set_buffer mb r [], 0) else (mb, -1) else (mb, 0)) = (mb1, 0) /\
     r <= mb_buffer_alloc mb1 /\ mb_nb_bytes_read mb1 = 0) as (mb1 & E1 & Hr & Hnb1).
  { destruct (Z.ltb_spec (mb_buffer_alloc mb) r); [rewrite alloc_ok |]; eexists; (split; [done |]).
    - by cbn.
    - by split; [lia |]. }
  rewrite E1. destruct (He (mb_buffer_alloc mb1)) as (bytes & Eb & Hb); [lia |].
  eexists mb1, _, bytes. split; [done |]. split.
  { unfold mb_encode. rewrite Eb. cbn [mbind option_bind]. unfold mb_write. rewrite Hb.
    rewrite (proj2 (Z.leb_le 0 _)) by apply blen_nonneg.
    rewrite (proj2 (Z.leb_le _ _)) by lia. reflexivity. }
  split_and!; [done | by eexists | cbn; lia | done | done |].
  cbn. change (ztake 0 (mb_buffer mb1)) with (@nil Z). cbn [app].
  rewrite <- Hb. apply ztake_app.
Qed.

Lemma encoded_sends mb bytes : mb_nb_bytes_read mb = 0 -> mb_message_size mb = blen bytes ->
  ztake (blen bytes) (mb_buffer mb) = bytes -> mb_sends mb bytes.
Proof. intros H1 H2 H3. split; [pose proof (blen_nonneg bytes); lia | by split]. Qed.

Lemma warp_header_decodes mid g room bytes : is_id mid -> is_id g ->
  quicrq_warp_header_msg_encode QUICRQ_ACTION_WARP_HEADER mid g room = Some bytes ->
  quicrq_msg_decode bytes = Some (warp_message mid g, []).
Proof.
  intros Hm Hg E. rewrite <- (app_nil_r bytes).
  apply (msg_parses (warp_message mid g) room bytes []); [| done | exact E].
  by split_and!.
Qed.

Lemma object_header_decodes o nb fl len room bytes : is_id o -> is_id nb -> 0 <= len < two62 ->
  quicrq_object_header_msg_encode QUICRQ_ACTION_OBJECT_HEADER o nb fl len room = Some bytes ->
  quicrq_msg_decode bytes = Some (object_message o (if o =? 0 then nb else 0) fl len, []).
Proof.
  intros Ho Hn Hl E. rewrite <- (app_nil_r bytes).
  apply (msg_parses (object_message o nb fl len) room bytes []); [| done | exact E].
  by split_and!.
Qed.

(** What is left of the frame of a message. *)
Definition mb_pending (mb : quicrq_message_buffer_t) (pend : list Z) : Prop :=
  0 <= mb_buffer_alloc mb /\
  ((mb_idle mb /\ pend = []) \/
   exists m, 0 < blen m < 65536 /\ mb_sends mb m /\ pend = zdrop (mb_nb_bytes_read mb) (frame m)).

Lemma pending_size mb pend : mb_pending mb pend ->
  if 0 <? mb_message_size mb then 0 < blen pend else mb_idle mb /\ pend = [].
Proof.
  intros (_ & [[(Hn & Hs & Ha) ->] | (m & Hm & (Hn & Hs & _) & ->)]); rewrite Hs.
  - done.
  - rewrite (proj2 (Z.ltb_lt _ _)) by lia. pose proof (frame_length m). rewrite blen_zdrop by lia. lia.
Qed.

Lemma pending_nil mb : mb_pending mb [] -> mb_idle mb.
Proof. intros H%pending_size. destruct (0 <? mb_message_size mb); [done | by destruct H]. Qed.

Lemma pending_message mb bytes : 0 < blen bytes < 65536 -> 0 <= mb_buffer_alloc mb ->
  mb_nb_bytes_read mb = 0 -> mb_message_size mb = blen bytes ->
  ztake (blen bytes) (mb_buffer mb) = bytes -> mb_pending mb (frame bytes).
Proof.
  intros Hb Ha H1 H2 H3. split; [done | right]. exists bytes. split; [done |].
  split; [by apply encoded_sends |]. by rewrite H1, zdrop_0.
Qed.

Context {PS : PicoStream}.
Context (provided : forall n fin active, picoquic_provide_stream_data_buffer n fin active = true).

Lemma prepare_message_alloc mb space more mb' ret out :
  quicrq_msg_buffer_prepare_to_send_message mb space more = Some (mb', ret, out) ->
  mb_buffer_alloc mb' = mb_buffer_alloc mb.
Proof.
  unfold quicrq_msg_buffer_prepare_to_send_message. intros E.
  repeat first [done | discriminate
    | match type of E with
      | Some _ = Some _ => injection E as <- _ _
      | context [match ?x with _ => _ end] => destruct x
      end | progress cbn in E]; cbn; repeat (match goal with |- context [if ?b then _ else _] => destruct b end); done.
Qed.

(** The next bytes of a message, as many as there is space for. *)
Lemma pending_sends mb pend space more : mb_pending mb pend -> 0 < blen pend -> 0 < space ->
  exists mb' sent pend' active,
    quicrq_msg_buffer_prepare_to_send_message mb space more = Some (mb', 0, Some (sent, active)) /\
    pend = sent ++ pend' /\ 0 < blen sent /\ mb_pending mb' pend' /\ (blen pend <= space -> pend' = []).
Proof.
  intros (Ha & [[_ ->] | (m & Hm & Hs & ->)]) Hp Hspace; [done |].
  destruct (prepare_message_spec provided mb m space more Hm ltac:(lia) Hs) as (mb' & active & E & H).
  pose proof (prepare_message_alloc _ _ _ _ _ _ E) as Ha'. pose proof (frame_length m) as Hl.
  destruct Hs as (Hnb & Hsize & Hbuf). rewrite blen_zdrop in * by lia.
  set (n := Z.min space (2 + blen m - mb_nb_bytes_read mb)) in *. assert (0 < n) by (subst n; lia).
  exists mb', (slice (frame m) (mb_nb_bytes_read mb) n), (zdrop (mb_nb_bytes_read mb + n) (frame m)), active.
  split; [exact E |]. split; [| split; [| split]].
  - unfold slice. rewrite <- (zdrop_zdrop n) by lia. by rewrite ztake_zdrop.
  - rewrite blen_slice by (subst n; lia). done.
  - split; [by rewrite Ha' |]. destruct (Z.eqb_spec (mb_nb_bytes_read mb + n) (2 + blen m)) as [En | Hn].
    + left. destruct H as (H1 & H2 & _). unfold mb_idle. rewrite Ha'. split; [done | apply blen_zero_nil].
      rewrite blen_zdrop by lia. lia.
    + right. destruct H as (H1 & H2 & _). exists m. by rewrite H2.
  - intros Hle. apply blen_zero_nil. rewrite blen_zdrop by (subst n; lia). subst n. lia.
Qed.
End messages.
