(* ===== verification/WarpProofs.v ===== *)
(** * A stream of the warp and rush modes

    What a call of the transport writes on a unidirectional stream, against the
    bytes of its group. *)

From S2P Require Import Prelude Picosplay PicoFrames Media Proto.
From S2P Require Import Fragment FragmentProofs FragmentReads FragmentHistory.
From S2P Require Import PublisherContext Congestion Publisher MsgBuffer MsgBufferTheorems StreamContext.
From S2P Require Import Warp WarpStream.

(** ** The cache *)

(** A cache whose objects can be sent: they are not empty, and the number of
    objects of a group takes one byte, as the room reserved for the header of an
    object assumes. *)
Record warp_cache `{Sp : Splay quicrq_cached_fragment_t quicrq_fragment_cache_node_compare}
    (md : media) (c : quicrq_fragment_cache_t) : Prop := {
  wc_tidy : tidy md c;
  wc_nonempty : forall k, 0 < blen (content md k);
  wc_media : forall f, f ∈ fc_fragments c -> cf_object_id f < count md (cf_group_id f);
  wc_small : forall f, f ∈ fc_fragments c -> 0 <= cf_nb_objects_previous_group f < 64;
}.

Section cache.
Context `{SL : SplayLaws quicrq_cached_fragment_t quicrq_fragment_cache_node_compare}.
Context (md : media).
Implicit Types c : quicrq_fragment_cache_t.

Lemma object_properties c g o : warp_cache md c -> is_id g -> 0 <= o <= two62 ->
  match quicrq_fragment_get_object_properties c g o with
  | Some (len, nb, fl) => is_id o /\ o < count md g /\ len = blen (content md (g, o)) /\
      0 <= nb < 64 /\ (0 < g -> o = 0 -> nb = count md (g - 1))
  | None => ~ cached c (g, o) 0
  end.
Proof.
  intros [Ht Hne Hmd Hsm] Hg Ho. unfold quicrq_fragment_get_object_properties.
  assert (is_key g /\ is_key o) as [Kg Ko] by (unfold is_key, is_id, two62 in *; u64_lia).
  destruct (quicrq_fragment_cache_get_fragment c g o 0) as [f |] eqn:E.
  - apply (get_fragment_key md) in E as (Hf & Hk & Hz); try done. unfold frag_key in Hk. injection Hk as <- <-.
    pose proof (tidy_piece md c f Ht Hf) as Pf. split; [apply Pf |]. split; [by apply Hmd |].
    split; [apply Pf |]. split; [by apply Hsm |]. intros. by apply (td_nb _ _ Ht f).
  - intros (f & Hf & Hk & Hr)%Exists_exists.
    assert (cf_offset f = 0) as Hz by (pose proof (pc_range _ _ (tidy_piece md c f Ht Hf)); lia).
    by rewrite (proj2 (get_fragment_key md c g o 0 f Ht Kg Ko)) in E.
Qed.

Lemma object_count c g : warp_cache md c -> is_id g ->
  quicrq_fragment_get_object_count c g = 0 \/ quicrq_fragment_get_object_count c g = count md g.
Proof.
  intros [Ht _ _ _] Hg. unfold quicrq_fragment_get_object_count, is_id in *.
  rewrite u64_small by (unfold two62 in *; u64_lia).
  destruct (quicrq_fragment_cache_get_fragment c (g + 1) 0 0) as [f |] eqn:E; [right | by left].
  apply (get_fragment_key md) in E as (Hf & Hk & Hz); try done; [| unfold is_key, two62 in *; u64_lia].
  unfold frag_key in Hk. injection Hk as Hg' Ho. rewrite (td_nb _ _ Ht f) by (done || lia).
  f_equal. lia.
Qed.
End cache.

(** ** The state of a stream that sends *)

Section sending.
Context `{SL : SplayLaws quicrq_cached_fragment_t quicrq_fragment_cache_node_compare}.
Context {So : Splay okey quicrq_fragment_publisher_object_node_compare}.
Context {Al : Allocator} `{FL : FramesLaws} {PS : PicoStream}.
Context (alloc_ok : forall n, malloc_ok n = true).
Context (provided : forall n fin active, picoquic_provide_stream_data_buffer n fin active = true).
Context (md : media) (mid : Z) (mid_id : is_id mid).
(** Whether each stream carries one object, as in the rush mode. *)
Context (single : bool).
Implicit Types (u : quicrq_uni_stream_ctx_t) (ws h : list Z) (xs : list object_header).
Implicit Types (finals : list (Z * Z)) (c : quicrq_fragment_cache_t).

(** The end of the stream: the object after the only one in the rush mode, else
    the number of objects of the group or the final point of the media, once
    one is known. *)
Definition last_ok finals (g o last : Z) : Prop :=
  if single then last = o + 1 else last = 0 \/ last = count md g \/ (g, last) ∈ finals.

(** Nothing is written yet. *)
Definition uni_open u : Prop :=
  us_send_state u = quicrq_sending_open /\ mb_idle (us_message_buffer u).

(** [ws] is what was written: all but the end of a message, or all but the end
    of an object. *)
Inductive uni_phase u ws (g o : Z) h xs : Prop :=
  | phase_message pend :
      us_send_state u = quicrq_sending_warp_header_sent -> mb_pending (us_message_buffer u) pend ->
      us_current_object_offset u = 0 -> ws ++ pend = group_stream md g o h xs ->
      (single = true -> (length xs <= 1)%nat) ->
      uni_phase u ws g o h xs
  | phase_data x off :
      us_send_state u = quicrq_sending_object_data -> mb_idle (us_message_buffer u) ->
      header_ok md g (us_current_object_id u) x ->
      us_current_object_offset u = off -> 0 <= off < blen (content md (g, us_current_object_id u)) ->
      us_current_object_length u = blen (content md (g, us_current_object_id u)) ->
      ws = group_stream md g o h xs ++ frame (oh_bytes x) ++
             ztake off (content md (g, us_current_object_id u)) ->
      (single = true -> xs = []) ->
      uni_phase u ws g o h xs.

(** The stream carries the group [g] from the object [o] on. *)
Record uni_sending finals u ws (g o : Z) : Prop := {
  un_group : us_current_group_id u = g /\ is_id g /\ is_id o;
  un_last : last_ok finals g o (us_last_object_id u);
  un_sent : (uni_open u /\ ws = [] /\ us_current_object_id u = o /\ us_current_object_offset u = 0) \/
    exists h xs, stream_ok md mid g o h xs /\ uni_phase u ws g o h xs /\
      us_current_object_id u = o + Z.of_nat (length xs);
}.

(** The stream is a prefix of the stream of a group. *)
Definition carries_group ws (g o : Z) h xs : Prop :=
  stream_ok md mid g o h xs /\ ws `prefix_of` group_stream md g o h xs /\ (single = true -> (length xs <= 1)%nat).

(** The stream is ended, with all the objects up to [last]. *)
Definition uni_complete finals ws (g o : Z) : Prop := exists h xs last,
  carries_group ws g o h xs /\ ws = group_stream md g o h xs /\ last_ok finals g o last /\
  0 < last <= o + Z.of_nat (length xs).

(** What was written, with the objects that were sent whole. *)
Lemma sending_carries finals u ws g o : uni_sending finals u ws g o ->
  ws = [] \/ exists h xs, carries_group ws g o h xs.
Proof.
  intros [_ _ [(_ & -> & _) | (h & xs & Hok & Hph & Ecur)]]; [by left | right].
  destruct Hph as [pend _ _ _ E Hs | x off _ _ Hx _ Hoff _ -> Hs]; [exists h, xs; split_and!; [done | by exists pend | done] |].
  exists h, (xs ++ [x]). rewrite Ecur in *. split; [by apply stream_ok_snoc |]. split.
  - exists (zdrop off (content md (g, o + Z.of_nat (length xs)))). rewrite group_stream_snoc. unfold object_bytes.
    rewrite <- !(assoc_L (++)). by rewrite ztake_zdrop.
  - intros E. by rewrite (Hs E).
Qed.

Lemma last_more finals finals' g o last : finals ⊆ finals' ->
  last_ok finals g o last -> last_ok finals' g o last.
Proof.
  intros Hsub. unfold last_ok. destruct single; [done |].
  intros [? | [? | ?]]; [by left | by right; left | right; right; by apply Hsub].
Qed.

Lemma sending_more finals finals' u ws g o : finals ⊆ finals' ->
  uni_sending finals u ws g o -> uni_sending finals' u ws g o.
Proof. intros Hsub [Hg Hl Hs]. split; [done | by eapply last_more | done]. Qed.

Lemma sending_priority finals u ws g o p :
  uni_sending finals u ws g o -> uni_sending finals (us_set_priority u p) ws g o.
Proof.
  intros [Hg Hl Hs]. split; [done .. |]. destruct Hs as [Hs | (h & xs & Hok & Hph & E)]; [by left | right].
  exists h, xs. split; [done |]. split; [| done].
  destruct Hph; [by eapply phase_message | by eapply phase_data].
Qed.

(** ** The messages *)

Lemma typed_nonempty ty e room bytes : is_varint ty ->
  (picoquic_frames_varint_encode ty >>> e) room = Some bytes -> bytes <> [].
Proof.
  intros Ht. unfold enc_seq. pose proof (varint_length_range ty Ht) as Hl.
  destruct (Z.lt_ge_cases room (picoquic_frames_varint_encode_length ty)).
  - by rewrite varint_encode_none by done.
  - destruct (varint_encode_some ty room) as (b & -> & Hb); [done .. |].
    destruct (e _); [| done]. intros [= <-] E. apply app_nil in E as [-> _]. rewrite blen_nil in Hb. lia.
Qed.

Lemma encode_fits mb e r : mb_idle mb -> 0 <= r < 65536 -> fits e r ->
  (forall room bytes, e room = Some bytes -> bytes <> []) ->
  exists mb1 mb2 bytes room, quicrq_msg_buffer_alloc mb r 0 = (mb1, 0) /\ mb_encode mb1 e = Some mb2 /\
    0 < blen bytes <= r /\ e room = Some bytes /\ mb_pending mb2 (frame bytes).
Proof.
  intros Hmb Hr (n & Hn & He) Hne. pose proof He as (Hn0 & _).
  destruct (alloc_encode alloc_ok mb e n r Hmb ltac:(lia) He)
    as (mb1 & mb2 & bytes & E1 & E2 & Hb & (room & Er) & Ha & Hnb & Hsz & Hbuf).
  pose proof (blen_nonneg bytes). specialize (Hne room bytes Er).
  assert (blen bytes <> 0) by by intros ?%blen_zero_nil.
  exists mb1, mb2, bytes, room. split; [done |]. split; [done |]. split; [lia |]. split; [done |].
  apply pending_message; [lia | done | done | by rewrite Hsz | by rewrite Hb].
Qed.

Lemma warp_header_prepared s u : us_send_state u = quicrq_sending_open -> mb_idle (us_message_buffer u) ->
  st_media_id s = mid -> is_id (us_current_group_id u) ->
  exists mb h, quicrq_prepare_warp_header s u =
      Some (us_set_send (us_set_message u mb) quicrq_sending_warp_header_sent, 0) /\
    0 < blen h <= 17 /\ quicrq_msg_decode h = Some (warp_message mid (us_current_group_id u), []) /\
    mb_pending mb (frame h).
Proof.
  intros _ Hmb Es Hg. unfold quicrq_prepare_warp_header. rewrite Es.
  pose proof (varint_length_range _ mid_id). pose proof (varint_length_range _ Hg).
  assert (0 <= QUICRQ_ACTION_WARP_HEADER < 64) as Hty by (unfold QUICRQ_ACTION_WARP_HEADER; lia).
  destruct (encode_fits (us_message_buffer u)
    (quicrq_warp_header_msg_encode QUICRQ_ACTION_WARP_HEADER mid (us_current_group_id u))
    (quicrq_warp_header_msg_reserve mid (us_current_group_id u)))
    as (mb1 & mb2 & h & room & -> & E & Hb & Er & Hp); [done | | by apply triple_fits | |].
  - unfold quicrq_warp_header_msg_reserve. lia.
  - intros room bytes. by apply typed_nonempty.
  - cbn [negb Z.eqb]. rewrite E. cbn [mbind option_bind]. exists mb2, h. split; [done |].
    unfold quicrq_warp_header_msg_reserve in Hb. split; [lia |]. split; [| done].
    by eapply warp_header_decodes.
Qed.

Lemma object_header_prepared u : mb_idle (us_message_buffer u) ->
  let g := us_current_group_id u in let o := us_current_object_id u in
  is_id g -> is_id o -> o < count md g -> us_current_object_length u = blen (content md (g, o)) ->
  0 < blen (content md (g, o)) -> 0 <= us_nb_objects_previous_group u < 64 ->
  (0 < g -> o = 0 -> us_nb_objects_previous_group u = count md (g - 1)) ->
  exists mb x, encode_object_header u = (us_set_send (us_set_message u mb) quicrq_sending_object_data, 0) /\
    header_ok md g o x /\ mb_pending mb (frame (oh_bytes x)).
Proof.
  intros Hmb g o Hg Ho Hc Hl Hlen Hnb Hprev. unfold encode_object_header. fold g o.
  set (nb := us_nb_objects_previous_group u) in *. rewrite Hl.
  set (len := blen (content md (g, o))) in *. pose proof (content_range md (g, o)) as Hr. fold len in Hr.
  assert (is_varint len) as Hlv by (split; [lia | done]).
  assert (is_varint nb) as Hnv by (unfold is_varint, two62; lia).
  pose proof (varint_length_range _ Ho). pose proof (varint_length_range _ Hlv).
  set (e := quicrq_object_header_msg_encode QUICRQ_ACTION_OBJECT_HEADER o nb (us_current_object_flags u) len).
  assert (fits e (quicrq_object_header_msg_reserve o 0 len)) as Hf.
  { assert (0 <= QUICRQ_ACTION_OBJECT_HEADER < 64) as Hty by (unfold QUICRQ_ACTION_OBJECT_HEADER; lia).
    pose proof (object_header_msg_fits _ o nb (us_current_object_flags u) len Hty Ho Hnv Hlv) as Hf.
    unfold quicrq_object_header_msg_reserve in *. rewrite (varint_length_1 0) by lia.
    by rewrite (varint_length_1 nb) in Hf. }
  destruct (encode_fits (us_message_buffer u) e (quicrq_object_header_msg_reserve o 0 len))
    as (mb1 & mb2 & bytes & room & -> & E & Hb & Er & Hp); [done | | done | |].
  - unfold quicrq_object_header_msg_reserve. rewrite (varint_length_1 0) by lia. destruct (o =? 0); lia.
  - intros room bytes. by apply typed_nonempty.
  - cbn [negb Z.eqb us_set_message us_current_object_id us_nb_objects_previous_group
      us_current_object_flags us_current_object_length]. fold o nb. rewrite Hl. fold len e. rewrite E.
    cbn [us_set_message us_current_object_length]. rewrite Hl. fold len.
    rewrite (proj2 (Z.eqb_neq _ _)) by lia.
    exists mb2, {| oh_bytes := bytes; oh_nb := if o =? 0 then nb else 0; oh_flags := us_current_object_flags u |}.
    split; [done |]. split; [| done]. split; cbn.
    + done.
    + unfold quicrq_object_header_msg_reserve in Hb. rewrite (varint_length_1 0) in Hb by lia.
      destruct (o =? 0); lia.
    + by eapply object_header_decodes.
    + intros Hgp Hoz. rewrite Hoz. by apply Hprev.
Qed.

(** ** The next object *)

(** The final point in a control stream is one of those announced. *)
Definition final_known finals s : Prop :=
  (st_final_group_id s, st_final_object_id s) = (0, 0) \/
  (st_final_group_id s, st_final_object_id s) ∈ finals.
Definition cache_final_known finals c : Prop :=
  (fc_final_group_id c, fc_final_object_id c) = (0, 0) \/ (fc_final_group_id c, fc_final_object_id c) ∈ finals.

(** Only the final point is changed. *)
Definition final_only s s' : Prop := exists g o, s' = st_set_final s g o.

Lemma final_only_refl s : final_only s s.
Proof. exists (st_final_group_id s), (st_final_object_id s). by destruct s. Qed.

Lemma notified_final finals c s g o active :
  quicrq_fragment_notify_final_to_control c (st_final_group_id s) (st_final_object_id s) = (g, o, active) ->
  final_known finals s -> cache_final_known finals c -> final_known finals (st_set_final s g o).
Proof.
  unfold quicrq_fragment_notify_final_to_control, final_known. intros E Hs Hc. cbn.
  destruct (_ && _ && _); by injection E as <- <- _.
Qed.

Lemma last_learned finals c s u o : warp_cache md c -> final_known finals s -> is_id (us_current_group_id u) ->
  is_id o ->
  last_ok finals (us_current_group_id u) o (us_last_object_id u) ->
  exists last, learn_last_object c s u = us_set_last u last /\ last_ok finals (us_current_group_id u) o last.
Proof.
  intros Hc Hs Hg Ho Hl. unfold learn_last_object. destruct (Z.eqb_spec (us_last_object_id u) 0) as [Ez |]; cycle 1.
  { exists (us_last_object_id u). split; [by destruct u | done]. }
  unfold last_ok in *. destruct single; [unfold is_id in Ho; lia |].
  destruct (_ && _) eqn:E; (eexists; split; [reflexivity |]).
  - apply andb_true_iff in E as [Hz Eg]. b2p. destruct Hs as [[= H1 H2] | Hs].
    + rewrite H1, H2 in Hz. by destruct Hz.
    + right. right. by rewrite Eg in Hs.
  - destruct (object_count md c (us_current_group_id u) Hc Hg) as [-> | ->]; [by left | by right; left].
Qed.

(** A stream between two objects. *)
Record between finals u ws g o h xs : Prop := {
  bt_group : us_current_group_id u = g /\ is_id g /\ is_id o;
  bt_last : last_ok finals g o (us_last_object_id u);
  bt_ok : stream_ok md mid g o h xs;
  bt_current : us_current_object_id u = o + Z.of_nat (length xs) /\ us_current_object_offset u = 0;
  bt_idle : us_send_state u = quicrq_sending_warp_header_sent /\ mb_idle (us_message_buffer u);
  bt_written : ws = group_stream md g o h xs;
  bt_single : single = true -> (length xs <= 1)%nat;
}.

(** What the preparation of a header makes of it. *)
Inductive header_step finals c ws g o h xs : quicrq_uni_stream_ctx_t -> Prop :=
  | header_end u' :
      us_send_state u' = quicrq_sending_warp_all_sent -> mb_idle (us_message_buffer u') ->
      uni_complete finals ws g o -> header_step finals c ws g o h xs u'
  | header_next u' x :
      us_current_group_id u' = g -> last_ok finals g o (us_last_object_id u') ->
      header_ok md g (o + Z.of_nat (length xs)) x -> us_send_state u' = quicrq_sending_object_data ->
      mb_pending (us_message_buffer u') (frame (oh_bytes x)) ->
      us_current_object_id u' = o + Z.of_nat (length xs) -> us_current_object_offset u' = 0 ->
      us_current_object_length u' = blen (content md (g, o + Z.of_nat (length xs))) ->
      (single = true -> xs = []) ->
      header_step finals c ws g o h xs u'
  | header_waits u' :
      between finals u' ws g o h xs -> ~ cached c (g, o + Z.of_nat (length xs)) 0 ->
      header_step finals c ws g o h xs u'.

Lemma current_range g o h xs : is_id o -> stream_ok md mid g o h xs ->
  0 <= o + Z.of_nat (length xs) <= two62.
Proof.
  intros Ho [_ Hxs]. unfold is_id in *. split; [lia |].
  destruct xs as [| x xs _] using rev_ind; [cbn; lia |]. rewrite length_app. cbn.
  destruct (ho_object _ _ _ _ (Hxs (length xs) x ltac:(by apply list_lookup_middle))) as (_ & Hi & _).
  unfold is_id in Hi. lia.
Qed.

Lemma next_header qr_mode c s m cg u now finals ws g o h xs :
  warp_cache md c -> cache_final_known finals c -> final_known finals s ->
  pc_congestion_control_mode m = quicrq_congestion_control_none ->
  between finals u ws g o h xs ->
  exists u' s' calls, quicrq_prepare_warp_object_header qr_mode c s m cg u now = Some (u', s', m, cg, 0, calls) /\
    sent_bytes calls = [] /\ sent_fin calls = false /\ final_only s s' /\ final_known finals s' /\
    us_stream_id u' = us_stream_id u /\ us_current_group_id u' = g /\ header_step finals c ws g o h xs u'.
Proof.
  intros Hc Hcf Hs Hm [(Eg & Hg & Ho) Hl Hok (Ecur & Eoff) (Est & Hmb) Hws Hsi].
  pose proof (current_range g o h xs Ho Hok) as Hcur. unfold quicrq_prepare_warp_object_header.
  destruct (last_learned finals c s u o Hc Hs) as (last & -> & Hlast); [by rewrite ?Eg .. |]. rewrite Eg in Hlast.
  cbn [us_set_last us_last_object_id us_current_object_id]. rewrite Ecur.
  destruct (_ && _) eqn:Eend.
  { b2p. eexists _, s, []. split; [reflexivity |]. split; [done |]. split; [done |]. split; [apply final_only_refl |].
    split; [done |]. split; [done |]. split; [done |]. apply header_end; try done.
    exists h, xs, last. split; [| split; [done |]; split; [done | lia]].
    split; [done |]. split; [by rewrite Hws | done]. }
  cbn [us_set_last us_current_group_id us_current_object_id]. rewrite Eg.
  set (cur := o + Z.of_nat (length xs)) in *.
  pose proof (object_properties md c g cur Hc Hg Hcur) as Hp.
  destruct (quicrq_fragment_get_object_properties c g cur) as [[[len nb] fl] |].
  - destruct Hp as (Hid & Hcount & Elen & Hnb & Hprev).
    unfold quicrq_evaluate_warp_congestion. rewrite Hm. cbn [Z.eqb andb mbind option_bind].
    pose proof (wc_nonempty _ _ Hc (g, cur)) as Hne.
    destruct (object_header_prepared (us_set_properties (us_set_last u last) len nb fl))
      as (mb & x & -> & Hx & Hp); cbn; rewrite ?Eg, ?Ecur; fold cur; try done.
    eexists _, s, []. split; [reflexivity |]. split; [done |]. split; [done |]. split; [apply final_only_refl |].
    split; [done |]. split; [done |]. split; [done |].
    cbn in Hx. rewrite Eg, Ecur in Hx. apply (header_next _ _ _ _ _ _ _ _ x); cbn; try done.
    intros Es. unfold last_ok in Hlast. rewrite Es in Hlast. unfold is_id in Ho.
    apply andb_false_iff in Eend. rewrite Hlast in Eend. destruct xs; [done | exfalso].
    destruct Eend as [Eend | Eend]; b2p; subst cur; cbn in *; lia.
  - destruct (quicrq_fragment_notify_final_to_control _ _ _) as [[fg fo] active] eqn:Ef.
    eexists _, _, _. split; [reflexivity |]. split; [by destruct active |]. split; [by destruct active |]. split; [by eexists _, _ |].
    split; [by eapply notified_final |]. split; [done |]. split; [done |]. apply header_waits; [| done].
    by split.
Qed.

(** ** A call of the transport *)

(** The bytes that a call writes, and whether it ends the stream. *)
Inductive poll_result finals c ws (g o : Z) : quicrq_uni_stream_ctx_t -> list Z -> bool -> Prop :=
  | poll_sends u' sent : 0 < blen sent -> uni_sending finals u' (ws ++ sent) g o ->
      poll_result finals c ws g o u' sent false
  | poll_waits u' : uni_sending finals u' ws g o -> mb_message_size (us_message_buffer u') = 0 ->
      (exists i, 0 <= i <= us_current_object_offset u' /\ ~ cached c (g, us_current_object_id u') i) ->
      poll_result finals c ws g o u' [] false
  | poll_ends u' : uni_complete finals ws g o -> poll_result finals c ws g o u' [] true.

(** What a call of the sender makes, and the calls that it does. *)
Definition polled finals c s m cg u ws g o
    (r : option (quicrq_uni_stream_ctx_t * quicrq_stream_ctx_t * quicrq_fragment_publisher_context_t *
                 quicrq_cnx_congestion_state_t * Z * list pico_call * bool)) : Prop :=
  exists u' s' calls deleted, r = Some (u', s', m, cg, 0, calls, deleted) /\
    final_only s s' /\ final_known finals s' /\ us_stream_id u' = us_stream_id u /\
    us_current_group_id u' = g /\ sent_fin calls = deleted /\
    poll_result finals c ws g o u' (sent_bytes calls) deleted.

(** A message that is ready. *)
Lemma send_ready s u pend space : mb_pending (us_message_buffer u) pend -> 0 < blen pend -> 0 < space ->
  exists mb sent pend' active,
    send_message_or_fin s u space = Some (us_set_message u mb, 0, [stream_data sent false active], false) /\
    pend = sent ++ pend' /\ 0 < blen sent /\ mb_pending mb pend' /\ (blen pend <= space -> pend' = []).
Proof.
  intros Hmb Hp Hspace. unfold send_message_or_fin. pose proof (pending_size _ _ Hmb) as Hs.
  destruct (0 <? mb_message_size (us_message_buffer u)); [| destruct Hs as [_ ->]; done].
  destruct (pending_sends provided _ _ space
    (negb (bool_decide (us_send_state u = quicrq_sending_warp_should_close))) Hmb Hp Hspace)
    as (mb & sent & pend' & active & -> & H). cbn [mbind option_bind].
  by exists mb, sent, pend', active.
Qed.

Lemma poll_data c s u ws finals g o h xs x space :
  warp_cache md c -> final_known finals s -> 0 < space < two62 -> stream_ok md mid g o h xs ->
  us_current_group_id u = g -> is_id g -> is_id o -> last_ok finals g o (us_last_object_id u) ->
  us_current_object_id u = o + Z.of_nat (length xs) ->
  us_send_state u = quicrq_sending_object_data -> mb_idle (us_message_buffer u) ->
  header_ok md g (us_current_object_id u) x ->
  0 <= us_current_object_offset u < blen (content md (g, us_current_object_id u)) ->
  us_current_object_length u = blen (content md (g, us_current_object_id u)) ->
  ws = group_stream md g o h xs ++ frame (oh_bytes x) ++
         ztake (us_current_object_offset u) (content md (g, us_current_object_id u)) ->
  (single = true -> xs = []) ->
  exists u' calls, send_object_data c u space = Some (u', 0, calls) /\
    us_stream_id u' = us_stream_id u /\ us_current_group_id u' = g /\ sent_fin calls = false /\
    poll_result finals c ws g o u' (sent_bytes calls) false.
Proof.
  intros Hc Hs Hspace Hok Eg Hg Ho Hl Ecur Est Hmb Hx Hoff Elen -> Hsi.
  set (cur := us_current_object_id u) in *. set (off := us_current_object_offset u) in *.
  pose proof (ho_object _ _ _ _ Hx) as (_ & Hid & _). pose proof (content_range md (g, cur)) as Hr.
  destruct (available_exists md c (g, cur) (wc_tidy _ _ Hc)) as (e & He).
  pose proof (available_length md c (g, cur) e (wc_tidy _ _ Hc) He) as Hle.
  unfold send_object_data. rewrite Eg. fold cur off.
  rewrite (copy_available_spec md c g cur off space e (wc_tidy _ _ Hc) Hg Hid He) by lia.
  cbn [mbind option_bind]. set (n := Z.min space (Z.max 0 (e - off))).
  rewrite blen_slice by (subst n; lia). destruct (Z.ltb_spec 0 n) as [Hn | Hn]; cycle 1.
  { eexists u, _. split; [reflexivity |]. split; [done |]. split; [done |]. split; [done |].
    apply poll_waits.
    - split; [done | done |]. right. exists h, xs. split; [done |]. split; [| done].
      by apply (phase_data _ _ _ _ _ _ x off).
    - apply Hmb.
    - exists e. fold cur off. destruct He as (He & _ & Hne). split; [subst n; lia | done]. }
  rewrite provided. cbn [negb].
  rewrite (copy_available_spec md c g cur off n e (wc_tidy _ _ Hc) Hg Hid He) by (subst n; lia).
  cbn [mbind option_bind]. replace (Z.min n (Z.max 0 (e - off))) with n by (subst n; lia).
  rewrite blen_slice, Z.eqb_refl by (subst n; lia). cbn [negb].
  assert (off + n <= blen (content md (g, cur))) as Hend by (subst n; lia).
  rewrite (u64_small (off + n)) by (unfold two62 in *; u64_lia). rewrite Elen.
  assert (ztake off (content md (g, cur)) ++ slice (content md (g, cur)) off n = ztake (off + n) (content md (g, cur)))
    as Hcat by (unfold slice; by rewrite ztake_add by lia).
  destruct (Z.eqb_spec (off + n) (blen (content md (g, cur)))) as [Efull | Hpart].
  - eexists _, _. split; [reflexivity |]. split; [done |]. split; [done |]. split; [done |].
    unfold sent_bytes. cbn [flat_map]. rewrite app_nil_r. apply poll_sends; [rewrite blen_slice by lia; lia |].
    rewrite <- !(assoc_L (++)), Hcat, Efull, ztake_all.
    split; [done | done |]. right. exists h, (xs ++ [x]). rewrite Ecur in Hx.
    split; [by apply stream_ok_snoc |]. split.
    + apply (phase_message _ _ _ _ _ _ []); try done; [by split; [apply Hmb | left] | |].
      * rewrite app_nil_r, group_stream_snoc, <- Ecur. done.
      * intros E. by rewrite (Hsi E).
    + cbn. rewrite u64_small by (unfold is_id, two62 in *; u64_lia). rewrite length_app. cbn. lia.
  - rewrite (proj2 (Z.ltb_ge _ _)) by lia.
    eexists _, _. split; [reflexivity |]. split; [done |]. split; [done |]. split; [done |].
    unfold sent_bytes. cbn [flat_map]. rewrite app_nil_r. apply poll_sends; [rewrite blen_slice by lia; lia |].
    rewrite <- !(assoc_L (++)), Hcat.
    split; [done | done |]. right. exists h, xs. split; [done |]. split; [| done].
    apply (phase_data _ _ _ _ _ _ x (off + n)); try done. cbn. fold cur. lia.
Qed.

(** A message of the stream is sent, and nothing else is. *)
Lemma poll_message s u ws pend g o h xs finals c space :
  mb_pending (us_message_buffer u) pend -> 0 < blen pend -> 0 < space ->
  us_current_group_id u = g -> is_id g -> is_id o -> last_ok finals g o (us_last_object_id u) ->
  stream_ok md mid g o h xs -> us_send_state u = quicrq_sending_warp_header_sent ->
  us_current_object_offset u = 0 -> us_current_object_id u = o + Z.of_nat (length xs) ->
  ws ++ pend = group_stream md g o h xs -> (single = true -> (length xs <= 1)%nat) ->
  exists u' calls, send_message_or_fin s u space = Some (u', 0, calls, false) /\
    us_stream_id u' = us_stream_id u /\ us_current_group_id u' = g /\ sent_fin calls = false /\
    poll_result finals c ws g o u' (sent_bytes calls) false.
Proof.
  intros Hmb Hp Hspace Eg Hg Ho Hl Hok Est Eoff Ecur Hws Hsi.
  destruct (send_ready s u pend space Hmb Hp Hspace) as (mb & sent & pend' & active & E & -> & Hsent & Hmb' & _).
  eexists _, _. split; [exact E |]. split; [done |]. split; [done |]. split; [done |].
  unfold sent_bytes. cbn [flat_map]. rewrite app_nil_r. apply poll_sends; [done |]. split; [done | done |].
  right. exists h, xs. split; [done |]. split; [| done].
  apply (phase_message _ _ _ _ _ _ pend'); try done. by rewrite <- (assoc_L (++)).
Qed.

(** An idle stream. *)
Lemma poll_idle qr_mode c s m cg u now finals ws g o h xs space :
  warp_cache md c -> cache_final_known finals c -> final_known finals s ->
  pc_congestion_control_mode m = quicrq_congestion_control_none -> 21 <= space ->
  between finals u ws g o h xs ->
  polled finals c s m cg u ws g o
    ('(u, s, m, cg, _, calls) ← quicrq_prepare_warp_object_header qr_mode c s m cg u now;
     '(u, ret, calls', deleted) ← send_message_or_fin s u space;
     Some (u, s, m, cg, ret, calls ++ calls', deleted)).
Proof.
  intros Hc Hcf Hs Hm Hspace Hb. pose proof Hb as [(Eg & Hg & Ho) Hl Hok (Ecur & Eoff) (Est & Hmb) Hws _].
  destruct (next_header qr_mode c s m cg u now finals ws g o h xs Hc Hcf Hs Hm Hb)
    as (u' & s' & calls & -> & Hsent & Hfin & Hso & Hs' & Eid & Eg' & Hstep). cbn [mbind option_bind].
  destruct Hstep as [u' Est' Hmb' Hend | u' x Eg2 Hl' Hx Est' Hmb' Ecur' Eoff' Elen' Hsi | u' Hb' Hne].
  - destruct Hmb' as (Hnb & Hsize & _).
    assert (exists u2 calls2, send_message_or_fin s' u' space = Some (u2, 0, calls2, true) /\
      us_stream_id u2 = us_stream_id u' /\ us_current_group_id u2 = us_current_group_id u' /\
      sent_bytes calls2 = [] /\ sent_fin calls2 = true) as (u2 & calls2 & -> & E1 & E2 & E3 & E4).
    { unfold send_message_or_fin. rewrite Hsize. cbn [Z.ltb Z.compare].
      rewrite bool_decide_true by done. eexists _, _. split; [reflexivity |]. split; [done |].
      split; [done |]. split; [| done]. unfold quicrq_delete_uni_stream_ctx. by destruct (st_is_sender s'). }
    cbn [mbind option_bind]. exists u2, s', (calls ++ calls2), true. split; [done |]. split; [done |].
    split; [done |]. split; [congruence |]. split; [congruence |].
    rewrite sent_fin_app, sent_bytes_app, Hsent, E3, E4, orb_true_r. split; [done |]. by apply poll_ends.
  - pose proof (ho_size _ _ _ _ Hx) as Hxs. pose proof (frame_length (oh_bytes x)).
    destruct (send_ready s' u' _ space Hmb' ltac:(lia) ltac:(lia))
      as (mb & sent & pend' & active & -> & Efr & Hpos & Hmb2 & Hall).
    cbn [mbind option_bind]. rewrite Hall in * by lia. rewrite app_nil_r in Efr.
    eexists _, s', _, false. split; [reflexivity |]. split; [done |]. split; [done |]. split; [done |].
    split; [done |]. rewrite sent_fin_app, sent_bytes_app, Hsent. unfold sent_bytes at 1. cbn [flat_map app].
    rewrite Hfin. split; [done |]. rewrite app_nil_r, <- Efr. apply poll_sends; [lia |]. split; [done | done |].
    right. exists h, xs. split; [done |]. split; [| done].
    apply (phase_data _ _ _ _ _ _ x 0); cbn; rewrite ?Ecur'; try done.
    + by apply pending_nil.
    + split; [done |]. apply Hc.
    + by rewrite Hws, app_nil_r.
  - pose proof Hb' as [(Eg2 & _ & _) Hl' _ (Ecur' & Eoff') (Est' & Hmb') Hws' Hsi'].
    destruct Hmb' as (Hnb & Hsize & Ha). unfold send_message_or_fin. rewrite Hsize. cbn [Z.ltb Z.compare].
    rewrite bool_decide_false by by rewrite Est'. cbn [mbind option_bind].
    eexists u', s', _, false. split; [reflexivity |]. split; [done |]. split; [done |]. split; [done |].
    split; [done |]. rewrite sent_fin_app, sent_bytes_app, Hsent, Hfin. split; [done |]. apply poll_waits.
    + split; [done | done |]. right. exists h, xs. split; [done |]. split; [| done].
      apply (phase_message _ _ _ _ _ _ []); try done; [by split; [| left] | by rewrite app_nil_r].
    + done.
    + exists 0. by rewrite Eoff', Ecur'.
Qed.

(** What a call makes of a stream that sends the group [g] from [o] on. *)
Lemma poll_stream qr_mode c s m cg u now finals ws g o space :
  warp_cache md c -> cache_final_known finals c -> final_known finals s -> st_media_id s = mid ->
  pc_congestion_control_mode m = quicrq_congestion_control_none -> 21 <= space < two62 ->
  uni_sending finals u ws g o ->
  polled finals c s m cg u ws g o
    (quicrq_prepare_to_send_on_unistream qr_mode c s m cg u space now).
Proof.
  intros Hc Hcf Hs Hsm Hm Hspace [(Eg & Hg & Ho) Hl Hsent]. unfold quicrq_prepare_to_send_on_unistream.
  destruct Hsent as [((Est & Hmb) & -> & Ecur & Eoff) | (h & xs & Hok & [pend Est Hmb Eoff Hws Hsi | x off Est Hmb Hx Eoff Hoff Elen Hws Hsi] & Ecur)].
  - rewrite bool_decide_false by by rewrite Est. pose proof Hmb as (Hnb & Hsize & _).
    rewrite Hsize. cbn [Z.eqb]. rewrite bool_decide_true by done.
    destruct (warp_header_prepared s u) as (mb & h & -> & Hh & Hd & Hmb'); [done .. | by rewrite Eg |].
    cbn [mbind option_bind]. pose proof (frame_length h) as Hfl.
    destruct (poll_message s (us_set_send (us_set_message u mb) quicrq_sending_warp_header_sent) [] (frame h)
      g o h [] finals c space) as (u2 & calls & -> & E1 & E2 & E3 & E4); try done; try lia.
    + split; [by rewrite <- Eg | done].
    + cbn. lia.
    + unfold group_stream. cbn. by rewrite app_nil_r.
    + cbn. lia.
    + cbn [mbind option_bind]. exists u2, s, calls, false. split; [done |]. split; [apply final_only_refl | done].
  - rewrite bool_decide_false by by rewrite Est. pose proof (pending_size _ _ Hmb) as Hsize.
    destruct (Z.ltb_spec 0 (mb_message_size (us_message_buffer u))) as [Hpos | Hzero].
    + rewrite (proj2 (Z.eqb_neq _ _)) by lia. cbn [mbind option_bind].
      destruct (poll_message s u ws pend g o h xs finals c space)
        as (u2 & calls & -> & E1 & E2 & E3 & E4); try done; try lia.
      cbn [mbind option_bind]. exists u2, s, calls, false. split; [done |]. split; [apply final_only_refl | done].
    + destruct Hsize as [Hidle ->]. pose proof Hidle as (_ & Hsz & _). rewrite Hsz. cbn [Z.eqb].
      rewrite bool_decide_false, bool_decide_true by by rewrite Est.
      apply (poll_idle qr_mode c s m cg u now finals ws g o h xs space); try done; [lia |].
      rewrite app_nil_r in Hws. by split.
  - rewrite bool_decide_true by done. subst off.
    destruct (poll_data c s u ws finals g o h xs x space) as (u2 & calls & -> & E1 & E2 & E3 & E4);
      try done; try lia.
    cbn [mbind option_bind]. exists u2, s, calls, false. split; [done |]. split; [apply final_only_refl | done].
Qed.
End sending.
