(* ===== verification/WarpWakeup.v ===== *)
(** * The streams that a wake-up creates

    In the warp mode a stream for each new group of the cache, in the rush mode
    a stream for each new object. *)

From S2P Require Import Prelude Picosplay PicoFrames Media Proto.
From S2P Require Import Fragment FragmentProofs FragmentReads FragmentHistory.
From S2P Require Import PublisherContext Congestion Publisher MsgBuffer StreamContext.
From S2P Require Import ControlStream Warp WarpProofs.

(** Only what the wake-ups count is changed. *)
Definition counts_only s s' : Prop :=
  exists g o fl, s' = st_set_lowest_flags (st_set_next_warp s g o) fl.

Lemma counts_only_refl s : counts_only s s.
Proof. exists (st_next_warp_group_id s), (st_next_rush_object_id s), (st_lowest_flags s). by destruct s. Qed.
Lemma counts_only_trans s1 s2 s3 : counts_only s1 s2 -> counts_only s2 s3 -> counts_only s1 s3.
Proof. intros (? & ? & ? & ->) (g & o & fl & ->). by exists g, o, fl. Qed.
Lemma counts_only_next s g o : counts_only s (st_set_next_warp s g o).
Proof. exists g, o, (st_lowest_flags s). by destruct s. Qed.
Lemma counts_only_flags s fl : counts_only s (st_set_lowest_flags s fl).
Proof. exists (st_next_warp_group_id s), (st_next_rush_object_id s), fl. by destruct s. Qed.

(** What the next wake-up starts from. *)
Definition counts_ok s : Prop :=
  0 <= st_next_warp_group_id s <= two62 /\ 0 <= st_next_rush_object_id s <= two62.

Definition ids (us : list quicrq_uni_stream_ctx_t) : list Z := map us_stream_id us.

Definition reprioritised (u u' : quicrq_uni_stream_ctx_t) : Prop := exists p, u' = us_set_priority u p.

(** A stream that was just created, for the group [g] from the object [o] on,
    or for the object [o] only. *)
Definition new_stream (single : bool) (g o : Z) (u : quicrq_uni_stream_ctx_t) : Prop :=
  is_id g /\ is_id o /\ exists id control p,
    u = us_set_priority (us_set_last (us_set_object (us_set_group (uni_stream_zero id control) g) o 0)
          (if single then o + 1 else 0)) p.

Lemma new_sending {PF : PicoFrames} md mid single finals g o u :
  new_stream single g o u -> uni_sending md mid single finals u [] g o.
Proof.
  intros (Hg & Ho & id & control & p & ->). split; cbn; [done | | by left].
  unfold last_ok. destruct single; [done | by left].
Qed.

(** The identifiers of the unidirectional streams. *)
Definition is_uni_id (id : Z) : Prop := Z.land id 2 <> 0.

(** Streams are created after the others, with new identifiers, and marked as
    active. *)
Definition created (us : list quicrq_uni_stream_ctx_t) (active : list Z) (calls : list pico_call)
    (us' : list quicrq_uni_stream_ctx_t) (active' : list Z) (calls' : list pico_call)
    (new : list quicrq_uni_stream_ctx_t) : Prop := exists cs,
  us' = us ++ new /\ active' = active ++ ids new /\ calls' = calls ++ cs /\
  active_streams cs = ids new /\ NoDup (ids new) /\ (forall i, i ∈ ids new -> i ∉ active) /\
  Forall is_uni_id (ids new).

Lemma created_refl us active calls : created us active calls us active calls [].
Proof.
  exists []. rewrite !app_nil_r. split_and!; try done.
  - apply NoDup_nil_2.
  - intros i Hi. by apply not_elem_of_nil in Hi.
Qed.

Lemma active_streams_app l1 l2 : active_streams (l1 ++ l2) = active_streams l1 ++ active_streams l2.
Proof. apply flat_map_app. Qed.

Lemma created_trans us1 a1 c1 us2 a2 c2 us3 a3 c3 new1 new2 :
  created us1 a1 c1 us2 a2 c2 new1 -> created us2 a2 c2 us3 a3 c3 new2 ->
  created us1 a1 c1 us3 a3 c3 (new1 ++ new2).
Proof.
  intros (cs1 & -> & -> & -> & E1 & N1 & D1 & U1) (cs2 & -> & -> & -> & E2 & N2 & D2 & U2).
  exists (cs1 ++ cs2). unfold ids in *. rewrite map_app, active_streams_app, E1, E2, <- !(assoc_L (++)).
  split_and!; try done.
  - apply NoDup_app. split; [done |]. split; [| done]. intros i H1 H2. apply (D2 i H2), elem_of_app. by right.
  - intros i [Hi | Hi]%elem_of_app Ha; [by apply (D1 i Hi) |]. apply (D2 i Hi), elem_of_app. by left.
  - by apply Forall_app.
Qed.

Section wakeup.
Context `{SL : SplayLaws quicrq_cached_fragment_t quicrq_fragment_cache_node_compare}.
Context {So : Splay okey quicrq_fragment_publisher_object_node_compare}.
Context {Al : Allocator} {PI : PicoStreamIds}.
Context (alloc_ok : forall n, malloc_ok n = true).
Context (fresh_id : forall active, picoquic_get_next_local_stream_id active ∉ active).
Context (uni_id : forall active, is_uni_id (picoquic_get_next_local_stream_id active)).
Implicit Types (s : quicrq_stream_ctx_t) (us : list quicrq_uni_stream_ctx_t).

Lemma update_uni_snoc id f us u : id ∉ ids us -> us_stream_id u = id ->
  update_uni id f (us ++ [u]) = us ++ [f u].
Proof.
  intros Hid Hu. unfold update_uni, has_id. rewrite map_app. cbn. rewrite Hu, Z.eqb_refl. f_equal.
  induction us as [| v us IH]; cbn; [done |]. apply not_elem_of_cons in Hid as [Hv Hid].
  rewrite (proj2 (Z.eqb_neq _ _)) by congruence. by rewrite IH.
Qed.

Lemma create_fresh id control us : id ∉ ids us ->
  quicrq_find_or_create_uni_stream id us control true = Some (us ++ [uni_stream_zero id control]).
Proof.
  intros Hid. unfold quicrq_find_or_create_uni_stream, quicrq_create_uni_stream_context.
  rewrite alloc_ok. destruct (existsb (has_id id) us) eqn:E; [| done]. exfalso. apply Hid.
  apply existsb_exists in E as (u & Hu & He). unfold has_id in He. b2p. subst id.
  apply list_elem_of_In, in_map, Hu.
Qed.

Lemma next_not_used us active : ids us ⊆ active -> picoquic_get_next_local_stream_id active ∉ ids us.
Proof. intros Hs Hin. by eapply fresh_id, Hs. Qed.

(** One stream. *)
Lemma created_one us active calls cs u :
  us_stream_id u = picoquic_get_next_local_stream_id active -> active_streams cs = [us_stream_id u] ->
  created us active calls (us ++ [u]) (active ++ [us_stream_id u]) (calls ++ cs) [u].
Proof.
  intros Hu Hcs. exists cs. split_and!; try done.
  - apply NoDup_singleton.
  - intros i ->%list_elem_of_singleton. rewrite Hu. apply fresh_id.
  - apply Forall_singleton. rewrite Hu. apply uni_id.
Qed.

(** ** The warp mode *)

Lemma create_groups n : forall s us active g calls created0,
  ids us ⊆ active -> 0 <= g -> g + Z.of_nat n <= two62 -> st_next_warp_group_id s = g ->
  exists s' us' active' calls' new,
    create_group_streams n s us active g calls created0 = (s', us', calls', created0 || bool_decide (n <> 0%nat)) /\
    created us active calls us' active' calls' new /\ counts_only s s' /\
    st_next_warp_group_id s' = g + Z.of_nat n /\ st_next_rush_object_id s' = st_next_rush_object_id s /\
    Forall (fun u => new_stream false (us_current_group_id u) 0 u) new /\
    map us_current_group_id new = seqZ g (Z.of_nat n).
Proof.
  induction n as [| n IH]; intros s us active g calls created0 Hids Hg Hn Es; cbn [create_group_streams].
  - exists s, us, active, calls, []. rewrite orb_false_r. split; [done |]. split; [apply created_refl |].
    split; [apply counts_only_refl |]. split; [lia |]. done.
  - set (id := picoquic_get_next_local_stream_id active).
    rewrite create_fresh by by apply next_not_used. rewrite update_uni_snoc by (done || by apply next_not_used).
    rewrite (u64_small (g + 1)) by (unfold two62 in *; u64_lia).
    set (u := us_set_group _ _). set (s1 := st_set_next_warp s (g + 1) (st_next_rush_object_id s)).
    destruct (IH s1 (us ++ [u]) (active ++ [id]) (g + 1) (calls ++ [picoquic_mark_active_stream id true]) true)
      as (s' & us' & active' & calls' & new & -> & Hcr & Hco & Ew & Er & Hnew & Hgs); [| lia | lia | done |].
    { unfold ids in *. rewrite map_app. intros i [Hi | Hi]%elem_of_app; apply elem_of_app; [left | by right].
      by apply Hids. }
    exists s', us', active', calls', (u :: new). split; [by rewrite orb_true_r |].
    split; [| split; [| split; [| split; [| split]]]].
    + change (u :: new) with ([u] ++ new). eapply created_trans; [| exact Hcr]. by apply (created_one _ _ _ _ u).
    + eapply counts_only_trans; [apply counts_only_next | exact Hco].
    + lia.
    + by rewrite Er.
    + apply Forall_cons. split; [| done]. split; [split; cbn; lia |]. split; [done |].
      by exists id, (Some (st_stream_id s)), 0.
    + cbn. rewrite Hgs. rewrite (seqZ_cons g) by lia. f_equal. f_equal; lia.
Qed.

Lemma group_priority c s m u : exists p, (set_group_priority c s m u).1 = us_set_priority u p /\
  active_streams (set_group_priority c s m u).2 = [].
Proof.
  assert (us_set_priority u (us_stream_priority u) = u) as Hu by by destruct u.
  unfold set_group_priority. destruct (of_control s u); [| by exists (us_stream_priority u)].
  destruct (_ =? _); [by eexists |]. destruct (negb _); [by eexists | by exists (us_stream_priority u)].
Qed.

(** What a wake-up promises. *)
Record woken (single : bool) s us (active : list Z) s' us' (calls : list pico_call) (new : list quicrq_uni_stream_ctx_t) : Prop := {
  wk_streams : exists us0, us' = us0 ++ new /\ Forall2 reprioritised us us0;
  wk_new : Forall (fun u => new_stream single (us_current_group_id u) (us_current_object_id u) u) new;
  wk_ids : NoDup (ids new) /\ forall i, i ∈ ids new -> i ∉ active;
  wk_uni : Forall is_uni_id (ids new);
  wk_active : ids new ⊆ active_streams calls;
  wk_control : counts_only s s' /\ counts_ok s';
}.

Lemma new_priority single g o u p : new_stream single g o u -> new_stream single g o (us_set_priority u p).
Proof.
  intros (Hg & Ho & id & control & q & ->). split; [done |]. split; [done |].
  by exists id, control, p.
Qed.

Lemma reprioritised_ids us us' : Forall2 reprioritised us us' -> ids us' = ids us /\
  map us_current_group_id us' = map us_current_group_id us.
Proof. unfold ids. induction 1 as [| u u' us us' (p & ->) _ [IH1 IH2]]; [done |]. cbn. by rewrite IH1, IH2. Qed.

Lemma new_reprioritised us us' : Forall2 reprioritised us us' ->
  Forall (fun u => new_stream false (us_current_group_id u) 0 u) us ->
  Forall (fun u => new_stream false (us_current_group_id u) (us_current_object_id u) u) us' /\
  Forall (fun u => us_current_object_id u = 0) us'.
Proof.
  induction 1 as [| u u' us us' (p & ->) _ IH]; [done |]. intros [Hu Hus]%Forall_cons.
  apply IH in Hus as [H1 H2]. pose proof Hu as (_ & _ & id & control & q & E).
  assert (us_current_object_id u = 0) as E0 by by rewrite E.
  split; constructor; try done. cbn. rewrite E0. by apply new_priority.
Qed.

(** The priorities that are set for a list of streams. *)
Lemma set_priorities (f : quicrq_uni_stream_ctx_t -> quicrq_uni_stream_ctx_t * list pico_call) us :
  (forall u, exists p, (f u).1 = us_set_priority u p) ->
  Forall2 reprioritised us (map fst (map f us)).
Proof.
  intros Hf. induction us as [| u us IH]; cbn; constructor; [| done]. destruct (Hf u) as (p & Hp). by exists p.
Qed.

Lemma control_priority c s : exists fl calls,
  (if st_lowest_flags s =? 0 then quicrq_set_control_stream_priority c s else (s, [])) =
    (st_set_lowest_flags s fl, calls) /\ active_streams calls = [].
Proof.
  assert (st_set_lowest_flags s (st_lowest_flags s) = s) as Hs by by destruct s.
  unfold quicrq_set_control_stream_priority. destruct (_ =? 0); [destruct (_ && _) |].
  - by eexists _, _.
  - by exists (st_lowest_flags s), []; rewrite Hs.
  - by exists (st_lowest_flags s), []; rewrite Hs.
Qed.

Lemma wakeup_warp c s m us active : ids us ⊆ active -> counts_ok s -> is_id (fc_highest_group_id c) ->
  exists s' us' calls new, quicrq_wakeup_media_uni_stream c s m us active = (s', us', calls) /\
    woken false s us active s' us' calls new /\
    Forall (fun u => us_current_object_id u = 0) new /\
    map us_current_group_id new =
      seqZ (st_next_warp_group_id s) (fc_highest_group_id c + 1 - st_next_warp_group_id s) /\
    st_next_warp_group_id s' = Z.max (st_next_warp_group_id s) (fc_highest_group_id c + 1).
Proof.
  intros Hids [Hw Hr] Hhi. unfold quicrq_wakeup_media_uni_stream.
  set (n := Z.to_nat (fc_highest_group_id c + 1 - st_next_warp_group_id s)).
  destruct (decide (n = 0%nat)) as [En | Hn].
  { rewrite En. cbn [create_group_streams andb]. eexists s, _, _, []. split; [reflexivity |].
    assert (fc_highest_group_id c + 1 - st_next_warp_group_id s <= 0) as Hle by lia. split.
    - split; try done; [| by split; [constructor | intros i Hi; by apply not_elem_of_nil in Hi] |
        by intros i Hi; apply not_elem_of_nil in Hi | by split; [apply counts_only_refl |]].
      eexists. rewrite app_nil_r. split; [reflexivity |]. apply set_priorities. intros u. exists (us_stream_priority u).
      by destruct u.
    - split; [done |]. split; [by rewrite seqZ_nil by lia | lia]. }
  destruct (create_groups n s us active (st_next_warp_group_id s) [] false Hids) 
    as (s1 & us1 & active1 & calls1 & new & -> & (cs & -> & _ & -> & Ecs & Hnd & Hdis & Huni) & Hco & Ew & Er & Hnew & Hgs);
    [lia | unfold is_id in Hhi; lia | done |].
  rewrite bool_decide_true by done. cbn [orb andb].
  destruct (control_priority c s1) as (fl & pr & -> & _).
  set (s2 := st_set_lowest_flags s1 fl).
  set (f := if negb (st_lowest_flags s2 =? 0) then set_group_priority c s2 m else fun u => (u, [])).
  assert (forall u, exists p, (f u).1 = us_set_priority u p) as Hf.
  { intros u. subst f. destruct (negb _); [| exists (us_stream_priority u); by destruct u].
    destruct (group_priority c s2 m u) as (p & Hp & _). by exists p. }
  assert ((if negb (st_lowest_flags s2 =? 0) then map (set_group_priority c s2 m) (us ++ new)
    else map (fun u => (u, [])) (us ++ new)) = map f (us ++ new)) as -> by (subst f; by destruct (negb _)).
  pose proof (set_priorities f us Hf) as Hus. pose proof (set_priorities f new Hf) as Hnew2.
  destruct (reprioritised_ids _ _ Hnew2) as [Ei Eg].
  destruct (new_reprioritised _ _ Hnew2 Hnew) as [Hnew3 Hzero].
  exists s2, (map fst (map f (us ++ new))). eexists _, (map fst (map f new)). split; [reflexivity |]. split.
  - split.
    + exists (map fst (map f us)). by rewrite !map_app.
    + done.
    + by rewrite Ei.
    + by rewrite Ei.
    + rewrite Ei, <- Ecs. cbn [app]. rewrite !active_streams_app. intros i Hi. rewrite !elem_of_app. right. by left.
    + split; [eapply counts_only_trans; [exact Hco | apply counts_only_flags] |]. subst s2. split; cbn; [| by rewrite Er].
      rewrite Ew. unfold is_id in Hhi. lia.
  - split; [| split].
    + done.
    + rewrite Eg, Hgs. f_equal. lia.
    + subst s2. cbn. lia.
Qed.

(** ** The rush mode *)

Lemma rush_priority c u : exists p calls, quicrq_set_rush_stream_priority c u = (us_set_priority u p, calls) /\
  active_streams calls = [].
Proof.
  assert (us_set_priority u (us_stream_priority u) = u) as Hu by by destruct u.
  unfold quicrq_set_rush_stream_priority. destruct (_ =? 0); [destruct (negb _) |].
  - by eexists _, _.
  - by exists (us_stream_priority u), []; rewrite Hu.
  - by exists (us_stream_priority u), []; rewrite Hu.
Qed.

(** The priority of the last stream only. *)
Lemma set_last_priority c (b : bool) id us u : id ∉ ids us -> us_stream_id u = id ->
  let set v := if b && has_id id v then quicrq_set_rush_stream_priority c v else (v, []) in
  exists p, map (fun v => (set v).1) (us ++ [u]) = us ++ [us_set_priority u p] /\
    active_streams (concat (map (fun v => (set v).2) (us ++ [u]))) = [].
Proof.
  intros Hid Hu set.
  assert (map (fun v => (set v).1) us = us /\ concat (map (fun v => (set v).2) us) = []) as [E1 E2].
  { clear Hu. induction us as [| v us IH]; [done |]. apply not_elem_of_cons in Hid as [Hv Hid].
    destruct (IH Hid) as [I1 I2].
    assert (set v = (v, [])) as Ev
      by (unfold set, has_id; by rewrite (proj2 (Z.eqb_neq _ _)), andb_false_r by congruence).
    cbn. by rewrite Ev, I1, I2. }
  rewrite !map_app, concat_app, E1, E2. cbn [map concat app]. rewrite app_nil_r.
  subst set. cbn beta. unfold has_id. rewrite Hu, Z.eqb_refl, andb_true_r. destruct b.
  - destruct (rush_priority c u) as (p & calls & -> & Hc). by exists p.
  - exists (us_stream_priority u). by destruct u.
Qed.

Lemma create_objects c g n : forall s us active o calls,
  ids us ⊆ active -> is_id g -> 0 <= o -> o + Z.of_nat n <= two62 -> counts_ok s ->
  exists s' us' active' calls' new,
    create_object_streams n c s us active g o calls = (s', us', active', calls', false) /\
    created us active calls us' active' calls' new /\ counts_only s s' /\ counts_ok s' /\
    st_next_warp_group_id s' = st_next_warp_group_id s /\
    Forall (fun u => new_stream true (us_current_group_id u) (us_current_object_id u) u) new.
Proof.
  induction n as [| n IH]; intros s us active o calls Hids Hg Ho Hn Hs; cbn [create_object_streams].
  - exists s, us, active, calls, []. split; [done |]. split; [apply created_refl |].
    by split; [apply counts_only_refl |].
  - set (id := picoquic_get_next_local_stream_id active).
    pose proof (next_not_used us active Hids) as Hfresh. fold id in Hfresh.
    rewrite create_fresh by done. rewrite update_uni_snoc by done.
    rewrite (u64_small (o + 1)) by (unfold two62 in *; u64_lia).
    set (v := us_set_last _ _). set (s1 := st_set_next_warp s _ _).
    destruct (control_priority c s1) as (fl & pr & -> & Epr). set (s2 := st_set_lowest_flags s1 fl).
    destruct (set_last_priority c (negb (st_lowest_flags s2 =? 0)) id us v Hfresh eq_refl) as (p & Emap & Ecs).
    rewrite Emap. set (cs := concat _) in *.
    destruct (IH s2 (us ++ [us_set_priority v p]) (active ++ [id]) (o + 1)
      (calls ++ pr ++ cs ++ [picoquic_mark_active_stream id true]))
      as (s' & us' & active' & calls' & new & -> & Hcr & Hco & Hs' & Ew & Hnew); [| done | lia | lia | |].
    { unfold ids in *. rewrite map_app. intros i [Hi | Hi]%elem_of_app; apply elem_of_app; [left | by right].
      by apply Hids. }
    { destruct Hs as [Hw _]. split; cbn; [done | lia]. }
    exists s', us', active', calls', ([us_set_priority v p] ++ new). split; [done |].
    split; [| split; [| split; [| split]]]; try done.
    + eapply created_trans; [| exact Hcr]. apply created_one; [done |].
      by rewrite !active_streams_app, Epr, Ecs.
    + apply Forall_app. split; [| done]. apply Forall_singleton. split; [done |]. split; [unfold is_id; cbn; lia |].
      by exists id, (Some (st_stream_id s)), p.
Qed.

Lemma wakeup_groups c : forall n s us active old g calls,
  is_id (fc_highest_object_id c) -> (forall g, is_id g -> quicrq_fragment_get_object_count c g <= two62) ->
  ids us ⊆ active -> 0 <= g -> g + Z.of_nat n <= two62 -> counts_ok s ->
  exists s' us' active' calls' new,
    create_rush_streams n c s us active old g calls = (s', us', calls') /\
    created us active calls us' active' calls' new /\ counts_only s s' /\ counts_ok s' /\
    Forall (fun u => new_stream true (us_current_group_id u) (us_current_object_id u) u) new.
Proof.
  induction n as [| n IH]; intros s us active old g calls Hhi Hcount Hids Hg Hn Hs; cbn [create_rush_streams].
  - exists s, us, active, calls, []. split; [done |]. split; [apply created_refl |].
    by split; [apply counts_only_refl |].
  - set (next := if old <? g then 0 else st_next_rush_object_id s).
    assert (0 <= next <= two62) as Hnext by (subst next; destruct Hs; destruct (old <? g); [done | lia]).
    set (s1 := if st_next_warp_group_id s <? g then _ else s).
    assert (counts_ok s1 /\ counts_only s s1) as [Hs1 Hco1].
    { subst s1. destruct (st_next_warp_group_id s <? g); [| by split; [| apply counts_only_refl]].
      split; [| apply counts_only_next]. destruct Hs as [_ Hr]. split; cbn; [lia | done]. }
    set (r := if g <? fc_highest_group_id c then _ else _).
    assert (exists last stop, r = (last, stop) /\ last <= two62) as (last & stop & -> & Hlast).
    { subst r. destruct (g <? fc_highest_group_id c); eexists _, _; (split; [reflexivity |]); [apply Hcount; unfold is_id; lia |].
      unfold is_id in Hhi. rewrite u64_small by (unfold two62 in *; u64_lia). lia. }
    destruct (create_objects c g (Z.to_nat (last - next)) s1 us active next calls)
      as (s2 & us2 & active2 & calls2 & new & -> & Hcr & Hco & Hs2 & _ & Hnew); try done; [unfold is_id; lia | lia | lia |].
    rewrite orb_false_r. destruct stop.
    { exists s2, us2, active2, calls2, new. split; [done |]. split; [done |].
      split; [by eapply counts_only_trans | done]. }
    rewrite (u64_small (g + 1)) by (unfold two62 in *; u64_lia).
    destruct (IH s2 us2 active2 old (g + 1) calls2)
      as (s3 & us3 & active3 & calls3 & new3 & -> & Hcr3 & Hco3 & Hs3 & Hnew3); try done; [| lia | lia |].
    { destruct Hcr as (cs & -> & -> & _). unfold ids in *. rewrite map_app.
      intros i [Hi | Hi]%elem_of_app; apply elem_of_app; [left; by apply Hids | by right]. }
    exists s3, us3, active3, calls3, (new ++ new3). split; [done |]. split; [by eapply created_trans |].
    split; [| split; [done | by apply Forall_app]].
    eapply counts_only_trans; [exact Hco1 |]. by eapply counts_only_trans.
Qed.

Lemma wakeup_rush c s us active : ids us ⊆ active -> counts_ok s ->
  is_id (fc_highest_group_id c) -> is_id (fc_highest_object_id c) ->
  (forall g, is_id g -> quicrq_fragment_get_object_count c g <= two62) ->
  exists s' us' calls new, quicrq_wakeup_media_rush_stream c s us active = (s', us', calls) /\
    woken true s us active s' us' calls new.
Proof.
  intros Hids Hs Hhi Hho Hcount. unfold quicrq_wakeup_media_rush_stream. 
  set (wake := fun u => if of_control s u then let '(u, calls) := quicrq_set_rush_stream_priority c u in
    (u, calls ++ [picoquic_mark_active_stream (us_stream_id u) true]) else (u, [])).
  assert (forall u, exists p, (wake u).1 = us_set_priority u p) as Hwake.
  { intros u. subst wake. cbn beta. destruct (of_control s u); [| exists (us_stream_priority u); by destruct u].
    destruct (rush_priority c u) as (p & calls & -> & _). by exists p. }
  pose proof (set_priorities wake us Hwake) as Hus. destruct (reprioritised_ids _ _ Hus) as [Ei _].
  destruct (wakeup_groups c (Z.to_nat (fc_highest_group_id c + 1 - st_next_warp_group_id s)) s
    (map fst (map wake us)) active (st_next_warp_group_id s) (st_next_warp_group_id s) (concat (map snd (map wake us))))
    as (s' & us' & active' & calls' & new & -> & (cs & -> & _ & -> & Ecs & Hnd & Hdis & Huni) & Hco & Hs' & Hnew); try done.
  - by rewrite Ei.
  - destruct Hs. lia.
  - destruct Hs. unfold is_id in *. lia.
  - eexists s', _, _, new. split; [reflexivity |]. split; try done.
    + by eexists.
    + rewrite <- Ecs, active_streams_app. intros i Hi. apply elem_of_app. by right.
Qed.
End wakeup.
