(* ===== verification/WarpSender.v ===== *)
(** * Histories of a sender in the warp or rush mode

    Any interleaving of the arrival of fragments in the cache, of the
    announcement of the final point, of the wake-ups of the control stream,
    which create the unidirectional streams, and of the calls of the transport
    for the data of any of these streams. *)

From S2P Require Import Prelude Picosplay PicoFrames Media Proto.
From S2P Require Import Fragment FragmentProofs FragmentReads FragmentHistory.
From S2P Require Import PublisherContext Congestion Publisher MsgBuffer MsgBufferTheorems StreamContext.
From S2P Require Import ControlStream Warp WarpStream WarpProofs WarpWakeup.

Inductive warp_event :=
  | WArrive (f : fragment)                      (* a fragment arrives in the cache *)
  | WFinalPoint (group_id object_id : Z)        (* the final point is learned *)
  | WWake                                       (* the source wakes its control stream up *)
  | WPoll (stream_id space now : Z).            (* picoquic asks for the data of a stream *)

Section sender.
Context `{Sp : Splay quicrq_cached_fragment_t quicrq_fragment_cache_node_compare}.
Context {So : Splay okey quicrq_fragment_publisher_object_node_compare}.
Context {Al : Allocator} {PF : PicoFrames} {PS : PicoStream} {PI : PicoStreamIds}.
Context (qr_mode : quicrq_congestion_control_enum).

(** The cache, the control stream and its publisher, the streams that are open
    and those that are ended, the calls to picoquic, and the bytes written on
    each stream, in order. *)
Record warp_sender := {
  wp_cache : quicrq_fragment_cache_t;
  wp_control : quicrq_stream_ctx_t;
  wp_media : quicrq_fragment_publisher_context_t;
  wp_congestion : quicrq_cnx_congestion_state_t;
  wp_streams : list quicrq_uni_stream_ctx_t;
  wp_closed : list quicrq_uni_stream_ctx_t;
  wp_calls : list pico_call;
  wp_written : list (Z * list Z);
}.

Definition warp_start (s : quicrq_stream_ctx_t) (cg : quicrq_cnx_congestion_state_t) : warp_sender := {|
  wp_cache := quicrq_fragment_cache_create_ctx; wp_control := s;
  wp_media := (quicrq_fragment_publisher_subscribe quicrq_fragment_cache_create_ctx
                 quicrq_congestion_control_none).1.1;
  wp_congestion := cg; wp_streams := []; wp_closed := []; wp_calls := []; wp_written := [] |}.

Definition wp_set_cache (w : warp_sender) (c : quicrq_fragment_cache_t) : warp_sender := {|
  wp_cache := c; wp_control := wp_control w; wp_media := wp_media w; wp_congestion := wp_congestion w;
  wp_streams := wp_streams w; wp_closed := wp_closed w; wp_calls := wp_calls w;
  wp_written := wp_written w |}.

(** The final point that the cache knows, as [learn_final] copies it. *)
Definition learned_final (c : quicrq_fragment_cache_t) (s : quicrq_stream_ctx_t) : quicrq_stream_ctx_t :=
  if st_is_final_object_id_sent s then s
  else if negb (fc_final_group_id c =? 0) || negb (fc_final_object_id c =? 0)
  then st_set_final s (fc_final_group_id c) (fc_final_object_id c) else s.

(** The wake-up of the control stream, as [wakeup_uni_streams] makes it. *)
Definition warp_wake (w : warp_sender) : warp_sender :=
  let c := wp_cache w in
  let s := learned_final c (wp_control w) in
  let active := active_streams (wp_calls w) in
  let '(s, us, calls) :=
    if bool_decide (st_transport_mode s = quicrq_transport_mode_warp)
    then quicrq_wakeup_media_uni_stream c s (wp_media w) (wp_streams w) active
    else quicrq_wakeup_media_rush_stream c s (wp_streams w) active in
  {| wp_cache := c; wp_control := s; wp_media := wp_media w; wp_congestion := wp_congestion w;
     wp_streams := us; wp_closed := wp_closed w; wp_calls := wp_calls w ++ calls;
     wp_written := wp_written w |}.

Definition warp_step (w : warp_sender) (e : warp_event) : option warp_sender :=
  match e with
  | WArrive f =>
      '(c, ret, _) ← propose_f (wp_cache w) f;
      if ret =? 0 then Some (wp_set_cache w c) else None
  | WFinalPoint g o => Some (wp_set_cache w (learn_end_point (wp_cache w) g o))
  | WWake => Some (warp_wake w)
  | WPoll id space now =>
      match List.find (has_id id) (wp_streams w) with
      | None => Some w
      | Some u =>
          '(u, s, m, cg, ret, calls, deleted) ←
            quicrq_prepare_to_send_on_unistream qr_mode (wp_cache w) (wp_control w) (wp_media w)
              (wp_congestion w) u space now;
          if ret =? 0 then
            Some {| wp_cache := wp_cache w; wp_control := s; wp_media := m; wp_congestion := cg;
                    wp_streams := if deleted : bool then List.filter (fun u => negb (has_id id u)) (wp_streams w)
                                  else update_uni id (fun _ => u) (wp_streams w);
                    wp_closed := if deleted then wp_closed w ++ [u] else wp_closed w;
                    wp_calls := wp_calls w ++ calls;
                    wp_written := wp_written w ++ [(id, sent_bytes calls)] |}
          else None
      end
  end.

Fixpoint warp_run (w : warp_sender) (es : list warp_event) : option warp_sender :=
  match es with
  | [] => Some w
  | e :: es' => w ← warp_step w e; warp_run w es'
  end.

(** The bytes that were written on a stream. *)
Definition written_on (id : Z) (l : list (Z * list Z)) : list Z :=
  flat_map (fun p => if p.1 =? id then p.2 else []) l.
Definition written (w : warp_sender) (u : quicrq_uni_stream_ctx_t) : list Z :=
  written_on (us_stream_id u) (wp_written w).
End sender.

Definition warp_arrivals (es : list warp_event) : list fragment :=
  flat_map (fun e => match e with WArrive f => [f] | _ => [] end) es.
Definition warp_finals (es : list warp_event) : list (Z * Z) :=
  flat_map (fun e => match e with WFinalPoint g o => [(g, o)] | _ => [] end) es.

(** There is space for the header of an object, and the length of a packet. *)
Definition poll_ok (e : warp_event) : Prop :=
  match e with WPoll _ space _ => 21 <= space < two62 | _ => True end.
Record warp_arrival (md : media) (f : fragment) : Prop := {
  wa_consistent : consistent md f;
  wa_length : 0 < f_data_length f;
  wa_previous : 0 <= f_nb_previous f < 64;
}.
(** The events of a media: what arrives is repeated but does not overlap. *)
Record warp_events (md : media) (es : list warp_event) : Prop := {
  we_polls : Forall poll_ok es;
  we_arrivals : Forall (warp_arrival md) (warp_arrivals es);
  we_no_overlap : forall f f', f ∈ warp_arrivals es -> f' ∈ warp_arrivals es -> no_overlap f f';
}.
(** The control stream of a media that was just accepted. *)
Record warp_control (mid : Z) (s : quicrq_stream_ctx_t) : Prop := {
  wr_media : st_media_id s = mid;
  wr_counts : st_next_warp_group_id s = 0 /\ st_next_rush_object_id s = 0;
  wr_final : st_final_group_id s = 0 /\ st_final_object_id s = 0;
}.

(** ** The invariant *)

Lemma written_on_app id l1 l2 : written_on id (l1 ++ l2) = written_on id l1 ++ written_on id l2.
Proof. apply flat_map_app. Qed.

Lemma written_on_none id l : id ∉ map fst l -> written_on id l = [].
Proof.
  induction l as [| [i b] l IH]; cbn; [done |]. intros [Hi Hl]%not_elem_of_cons.
  rewrite (proj2 (Z.eqb_neq _ _)) by congruence. by apply IH.
Qed.

Section history.
Context `{SL : SplayLaws quicrq_cached_fragment_t quicrq_fragment_cache_node_compare}.
Context {So : Splay okey quicrq_fragment_publisher_object_node_compare}.
Context {Al : Allocator} `{FL : FramesLaws} {PS : PicoStream} {PI : PicoStreamIds}.
Context (alloc_ok : forall n, malloc_ok n = true).
Context (provided : forall n fin active, picoquic_provide_stream_data_buffer n fin active = true).
Context (fresh_id : forall active, picoquic_get_next_local_stream_id active ∉ active).
Context (uni_id : forall active, is_uni_id (picoquic_get_next_local_stream_id active)).
Context (md : media) (nonempty : forall k, 0 < blen (content md k)).
Context (qr_mode : quicrq_congestion_control_enum) (mid : Z) (mid_id : is_id mid).
Implicit Types (w : warp_sender) (u : quicrq_uni_stream_ctx_t).

(** In the warp mode the streams carry whole groups. *)
Definition starts_at w (o : Z) : Prop :=
  st_transport_mode (wp_control w) = quicrq_transport_mode_warp -> o = 0.

(** Else each stream carries one object. *)
Definition one_object w : bool :=
  negb (bool_decide (st_transport_mode (wp_control w) = quicrq_transport_mode_warp)).

Record warp_sending fs finals w : Prop := {
  ws_exact : exact md fs (wp_cache w);
  ws_arrivals : Forall (warp_arrival md) fs;
  ws_cache : warp_cache md (wp_cache w);
  ws_highest : is_id (fc_highest_group_id (wp_cache w)) /\ is_id (fc_highest_object_id (wp_cache w));
  ws_groups_seen : Forall (fun x => cf_group_id x <= fc_highest_group_id (wp_cache w)) (fc_fragments (wp_cache w));
  ws_finals : cache_final_known finals (wp_cache w) /\ final_known finals (wp_control w);
  ws_control : st_media_id (wp_control w) = mid /\ counts_ok (wp_control w);
  ws_mode : pc_congestion_control_mode (wp_media w) = quicrq_congestion_control_none;
  ws_ids : NoDup (ids (wp_streams w ++ wp_closed w));
  ws_uni : Forall is_uni_id (ids (wp_streams w ++ wp_closed w));
  ws_active : ids (wp_streams w ++ wp_closed w) ⊆ active_streams (wp_calls w);
  ws_logged : map fst (wp_written w) ⊆ ids (wp_streams w ++ wp_closed w);
  ws_streams : forall u, u ∈ wp_streams w -> exists o, starts_at w o /\
    uni_sending md mid (one_object w) finals u (written w u) (us_current_group_id u) o;
  ws_closed : forall u, u ∈ wp_closed w -> exists o, starts_at w o /\
    uni_complete md mid (one_object w) finals (written w u) (us_current_group_id u) o;
  ws_groups : st_transport_mode (wp_control w) = quicrq_transport_mode_warp ->
    map us_current_group_id (wp_streams w ++ wp_closed w) ≡ₚ seqZ 0 (st_next_warp_group_id (wp_control w));
}.

Lemma warp_sending_start s cg : warp_control mid s -> warp_sending [] [] (warp_start s cg).
Proof.
  intros [Hm [Hg Ho] [Hfg Hfo]]. split; cbn; try done.
  - apply exact_init.
  - split; [apply (exact_init md) | done | |]; intros f Hf; by apply not_elem_of_nil in Hf.
  - by split; left; [| rewrite Hfg, Hfo].
  - split; [done |]. unfold counts_ok. rewrite Hg, Ho. by split.
  - constructor.
  - intros u Hu. by apply not_elem_of_nil in Hu.
  - intros u Hu. by apply not_elem_of_nil in Hu.
  - intros _. by rewrite Hg.
Qed.

(** ** What arrives *)

Lemma raised_id k k' : is_id k.1 /\ is_id k.2 -> is_id k'.1 /\ is_id k'.2 -> is_id (raised k k').1 /\ is_id (raised k k').2.
Proof. unfold raised. by destruct (pair_ltb _ _ _ _). Qed.

Lemma raised_group k k' : k.1 <= (raised k k').1 /\ k'.1 <= (raised k k').1.
Proof.
  unfold raised, pair_ltb. destruct (Z.ltb_spec k.1 k'.1); cbn [orb]; [lia |].
  destruct (_ && _) eqn:E; [b2p; lia | lia].
Qed.

Lemma warp_arrives fs finals w f : warp_sending fs finals w -> warp_arrival md f ->
  Forall (no_overlap f) fs ->
  exists w', warp_step qr_mode w (WArrive f) = Some w' /\ warp_sending (fs ++ [f]) finals w' /\
    wp_control w' = wp_control w.
Proof.
  intros [Hex Hfs Hc Hhi Hse Hfin Hs Hm Hnd Hun Hact Hlog Hst Hcl Hgr] [Hcons Hlen Hnb] Hno.
  destruct (propose_appends alloc_ok md fs (wp_cache w) f Hex Hcons Hlen Hno)
    as (c & wake & E & Hex' & Hends & Happ).
  unfold warp_step. rewrite E. cbn [mbind option_bind Z.eqb]. eexists. split; [reflexivity |]. split; [| done].
  pose proof Hends as [= _ _ Efg Efo].
  assert (is_id (f_group f) /\ is_id (f_object f)) as Hids by (destruct Hcons as [? [? _] _ _ _ _]; done).
  split; try done.
  - apply Forall_app. split; [done |]. by apply Forall_singleton.
  - destruct Hc as [Ht Hne Hmd Hsm]. split; [apply Hex' | done | |].
    + intros x Hx. destruct Happ as [[E1 _] | (y & E1 & Ek & _)]; cbn in Hx; rewrite E1 in Hx; [by apply Hmd |].
      apply elem_of_snoc in Hx as [Hx | ->]; [by apply Hmd |]. unfold frag_key, f_key in Ek. injection Ek as -> ->.
      apply (cf_object _ _ Hcons).
    + intros x Hx. destruct Happ as [[E1 _] | (y & E1 & _ & _ & En & _)]; cbn in Hx; rewrite E1 in Hx; [by apply Hsm |].
      apply elem_of_snoc in Hx as [Hx | ->]; [by apply Hsm |]. by rewrite En.
  - cbn. change (is_id (highest c).1 /\ is_id (highest c).2).
    destruct Happ as [[_ ->] | (y & _ & _ & _ & _ & ->)]; [done | by apply raised_id].
  - cbn. change (Forall (fun x => cf_group_id x <= (highest c).1) (fc_fragments c)).
    change (Forall (fun x => cf_group_id x <= (highest (wp_cache w)).1) (fc_fragments (wp_cache w))) in Hse.
    destruct Happ as [[-> ->] | (y & -> & Ek & _ & _ & ->)]; [done |].
    pose proof (raised_group (highest (wp_cache w)) (f_key f)) as [H1 H2]. apply Forall_app. split.
    + eapply Forall_impl; [exact Hse |]. intros x Hx. by eapply Z.le_trans, H1.
    + apply Forall_singleton. unfold frag_key, f_key in *. injection Ek as -> _. exact H2.
  - destruct Hfin as [Hfc Hfs']. split; [| done]. unfold cache_final_known in *. cbn. by rewrite Efg, Efo.
Qed.

(** The final point is announced. *)
Lemma warp_final fs finals w g o : warp_sending fs finals w ->
  warp_sending fs (finals ++ [(g, o)]) (wp_set_cache w (learn_end_point (wp_cache w) g o)).
Proof.
  intros [Hex Hfs Hc Hhi Hse [Hfc Hfs'] Hs Hm Hnd Hun Hact Hlog Hst Hcl Hgr].
  assert (finals ⊆ finals ++ [(g, o)]) as Hsub by (intros k Hk; apply elem_of_app; by left).
  split; try done.
  - by apply exact_final.
  - destruct Hc as [_ ? ? ?]. split; try done. by apply (ex_tidy _ _ _ (exact_final _ _ _ g o Hex)).
  - split; [| destruct Hfs' as [? | ?]; [by left | right; by apply Hsub]].
    right. apply elem_of_app. right. by left.
  - intros u Hu. destruct (Hst u Hu) as (o' & Ho & Hsend). exists o'. split; [done |].
    by eapply sending_more.
  - intros u Hu. destruct (Hcl u Hu) as (o' & Ho & h & xs & last & Hok & Hw & Hl & Hle). exists o'.
    split; [done |]. exists h, xs, last. split; [done |]. split; [done |]. split; [| done].
    by eapply last_more.
Qed.

(** ** The wake-ups *)

Lemma ids_app us1 us2 : ids (us1 ++ us2) = ids us1 ++ ids us2.
Proof. apply map_app. Qed.

Lemma learned_final_ok finals c s : cache_final_known finals c -> final_known finals s ->
  final_known finals (learned_final c s) /\ exists g o, learned_final c s = st_set_final s g o.
Proof.
  intros Hc Hs. pose proof (final_only_refl s) as Hr. unfold learned_final.
  destruct (st_is_final_object_id_sent s); [done |]. destruct (_ || _); [| done].
  split; [exact Hc | by eexists _, _].
Qed.

(** The streams after those of the wake-up are added, before their groups. *)
Lemma woken_streams fs finals w s s' us calls new :
  warp_sending fs finals w -> final_known finals s -> (exists g o, s = st_set_final (wp_control w) g o) ->
  woken (one_object w) s (wp_streams w) (active_streams (wp_calls w)) s' us calls new ->
  (st_transport_mode (wp_control w) = quicrq_transport_mode_warp ->
    Forall (fun u => us_current_object_id u = 0) new /\
    map us_current_group_id (us ++ wp_closed w) ≡ₚ seqZ 0 (st_next_warp_group_id s')) ->
  warp_sending fs finals {| wp_cache := wp_cache w; wp_control := s'; wp_media := wp_media w;
    wp_congestion := wp_congestion w; wp_streams := us; wp_closed := wp_closed w;
    wp_calls := wp_calls w ++ calls; wp_written := wp_written w |}.
Proof.
  intros [Hex Hfs Hc Hhi Hse [Hfc Hfs'] [Hmid Hcnt] Hm Hnd Hun Hact Hlog Hst Hcl _] Hfin (fg & fo & ->)
    [(us0 & -> & Hus) Hnew [Hndn Hdis] Hun' Hact' [(ng & no & fl & ->) Hcnt']] Hgroups.
  destruct (reprioritised_ids _ _ Hus) as [Ei _].
  assert (forall i, i ∈ ids new -> i ∉ ids (wp_streams w ++ wp_closed w)) as Hfresh.
  { intros i Hi Hin. apply (Hdis i Hi). by apply Hact. }
  split; try done; cbn [wp_cache wp_control wp_streams wp_closed wp_calls wp_written].
  - rewrite !ids_app, Ei, <- (assoc_L (++)). rewrite ids_app in Hnd, Hfresh.
    apply NoDup_app in Hnd as (N1 & N2 & N3). apply NoDup_app. split; [done |]. split.
    + intros i H1 [H2 | H2]%elem_of_app; [| by apply (N2 i)]. apply (Hfresh i H2), elem_of_app. by left.
    + apply NoDup_app. split; [done |]. split; [| done]. intros i H1 H2. apply (Hfresh i H1), elem_of_app. by right.
  - rewrite !ids_app, Ei in *. rewrite !Forall_app in *. by destruct Hun.
  - rewrite !ids_app, Ei, active_streams_app. rewrite ids_app in Hact. intros i. rewrite !elem_of_app.
    intros [[Hi | Hi] | Hi]; [left; apply Hact, elem_of_app; by left | right; by apply Hact' |].
    left. apply Hact, elem_of_app. by right.
  - rewrite !ids_app, Ei. rewrite ids_app in Hlog. intros i Hi. apply Hlog in Hi. rewrite !elem_of_app in *. tauto.
  - intros u [Hu | Hu]%elem_of_app.
    + apply list_elem_of_lookup in Hu as (i & Hi). destruct (Forall2_lookup_r _ _ _ _ _ Hus Hi) as (v & Hv & p & ->).
      destruct (Hst v) as (o & Ho & Hsend); [by eapply list_elem_of_lookup_2 |]. exists o. split; [exact Ho |].
      by apply sending_priority.
    + assert (written_on (us_stream_id u) (wp_written w) = []) as Ew.
      { apply written_on_none. intros Hin%Hlog. revert Hin. apply Hfresh. by apply map_elem. }
      exists (us_current_object_id u). split.
      * intros Hmode. destruct (Hgroups Hmode) as [Hz _]. rewrite Forall_forall in Hz. by apply Hz.
      * unfold written. cbn [wp_written]. rewrite Ew. apply new_sending. rewrite Forall_forall in Hnew. by apply Hnew.
  - intros Hmode. by apply Hgroups.
Qed.

Lemma count_bound c g : warp_cache md c -> is_id g -> quicrq_fragment_get_object_count c g <= two62.
Proof.
  intros [Ht _ _ Hsm] Hg. unfold quicrq_fragment_get_object_count, is_id in *.
  rewrite u64_small by (unfold two62 in *; u64_lia).
  destruct (quicrq_fragment_cache_get_fragment c (g + 1) 0 0) as [f |] eqn:E; [| done].
  apply (get_fragment_key md) in E as (Hf & _); [| done | | done].
  - specialize (Hsm f Hf). unfold two62. lia.
  - unfold is_key, two62 in *. lia.
Qed.

Lemma warp_wakes fs finals w : warp_sending fs finals w ->
  warp_sending fs finals (warp_wake w) /\ wp_cache (warp_wake w) = wp_cache w /\
  wp_written (warp_wake w) = wp_written w /\
  st_transport_mode (wp_control (warp_wake w)) = st_transport_mode (wp_control w) /\
  (st_transport_mode (wp_control w) = quicrq_transport_mode_warp ->
   fc_highest_group_id (wp_cache w) < st_next_warp_group_id (wp_control (warp_wake w))).
Proof.
  intros Hw. pose proof Hw as [_ _ Hc [Hhg Hho] _ [Hfc Hfs] [Hmid Hcnt] _ _ _ Hact _ _ _ Hgr].
  destruct (learned_final_ok finals (wp_cache w) (wp_control w) Hfc Hfs) as [Hf Hs].
  assert (ids (wp_streams w) ⊆ active_streams (wp_calls w)) as Hids.
  { intros i Hi. apply Hact. rewrite ids_app. apply elem_of_app. by left. }
  unfold warp_wake. set (s := learned_final _ _) in *.
  assert (one_object w = negb (bool_decide (st_transport_mode (wp_control w) = quicrq_transport_mode_warp)))
    as Eone by done.
  assert (st_transport_mode s = st_transport_mode (wp_control w) /\ counts_ok s /\
    st_next_warp_group_id s = st_next_warp_group_id (wp_control w)) as (Emode & Hcs & En) by (by destruct Hs as (? & ? & ->)).
  rewrite Emode. case_bool_decide as Hmode; cbn [negb] in Eone.
  - destruct (wakeup_warp alloc_ok fresh_id uni_id (wp_cache w) s (wp_media w) (wp_streams w) _ Hids Hcs Hhg)
      as (s' & us & calls & new & -> & Hwk & Hz & Hgs & Enext).
    split; [| split; [done | split; [done | split]]].
    + apply (woken_streams fs finals w s s' us calls new); try done; [by rewrite Eone |]. intros _. split; [done |].
      pose proof (wk_streams _ _ _ _ _ _ _ _ Hwk) as (us0 & -> & Hus).
      destruct (reprioritised_ids _ _ Hus) as [_ Eg]. rewrite !map_app, Eg, Hgs, Enext, En.
      rewrite En in *. specialize (Hgr Hmode). rewrite map_app in Hgr.
      destruct Hcnt as [Hn _]. unfold is_id in Hhg.
      set (n := st_next_warp_group_id (wp_control w)) in *. set (hi := fc_highest_group_id (wp_cache w)) in *.
      destruct (Z.le_gt_cases (hi + 1) n).
      * rewrite (seqZ_nil n) by lia. rewrite Z.max_l by lia. by rewrite app_nil_r.
      * rewrite Z.max_r by lia. replace (hi + 1) with (n + (hi + 1 - n)) at 2 by lia.
        rewrite seqZ_app by lia. rewrite <- Hgr. cbn. rewrite <- (assoc_L (++)), (Permutation_app_comm (seqZ n _)).
        by rewrite (assoc_L (++)).
    + cbn. pose proof (wk_control _ _ _ _ _ _ _ _ Hwk) as [(? & ? & ? & ->) _]. by rewrite <- Emode.
    + intros _. cbn. lia.
  - destruct (wakeup_rush alloc_ok fresh_id uni_id (wp_cache w) s (wp_streams w) _ Hids Hcs Hhg Hho)
      as (s' & us & calls & new & -> & Hwk); [intros g; by apply count_bound |].
    split; [| split; [done | split; [done | split]]].
    + apply (woken_streams fs finals w s s' us calls new); try done. by rewrite Eone.
    + cbn. pose proof (wk_control _ _ _ _ _ _ _ _ Hwk) as [(? & ? & ? & ->) _]. by rewrite <- Emode.
    + done.
Qed.

(** ** The calls of the transport *)

Lemma without_id id us : id ∉ ids us ->
  (forall f, update_uni id f us = us) /\ List.filter (fun v => negb (has_id id v)) us = us.
Proof.
  unfold update_uni, has_id. induction us as [| v us IH]; cbn; [done |]. intros [Hv Hid]%not_elem_of_cons.
  rewrite (proj2 (Z.eqb_neq _ _)) by congruence. destruct (IH Hid) as [I1 I2].
  split; [intros f; by rewrite I1 | cbn; by rewrite I2].
Qed.

(** The stream that is found, among streams with distinct identifiers. *)
Lemma find_uni id us u : NoDup (ids us) -> List.find (has_id id) us = Some u ->
  exists l1 l2, us = l1 ++ u :: l2 /\ us_stream_id u = id /\
    (forall f, update_uni id f us = l1 ++ f u :: l2) /\
    List.filter (fun v => negb (has_id id v)) us = l1 ++ l2.
Proof.
  induction us as [| v us IH]; [done |]. intros [Hv Hnd]%NoDup_cons. cbn [List.find].
  destruct (has_id id v) eqn:Ev.
  - intros [= ->]. pose proof Ev as Eu. unfold has_id in Eu. b2p. subst id. exists [], us.
    destruct (without_id _ us Hv) as [I1 I2]. split; [done |]. split; [done |]. unfold update_uni in *. cbn.
    rewrite Ev. split; [intros f; cbn; by rewrite I1 | by rewrite I2].
  - intros Hf. destruct (IH Hnd Hf) as (l1 & l2 & -> & Hu & Hup & Hfi). exists (v :: l1), l2.
    split; [done |]. split; [done |]. unfold update_uni in *. cbn. rewrite Ev.
    split; [intros f; by rewrite Hup | cbn; by rewrite Hfi].
Qed.

(** What a call of the transport for a stream makes of it. *)
Inductive stream_polled w u w' : Prop :=
  | polled_sends : written w' u <> written w u -> (exists sent, written w' u = written w u ++ sent) ->
      (exists u', u' ∈ wp_streams w' /\ us_stream_id u' = us_stream_id u /\
         us_current_group_id u' = us_current_group_id u) -> stream_polled w u w'
  | polled_waits : written w' u = written w u ->
      (exists u' i, u' ∈ wp_streams w' /\ us_stream_id u' = us_stream_id u /\
         us_current_group_id u' = us_current_group_id u /\ mb_message_size (us_message_buffer u') = 0 /\
         0 <= i <= us_current_object_offset u' /\
         ~ cached (wp_cache w) (us_current_group_id u', us_current_object_id u') i) -> stream_polled w u w'
  | polled_ends : written w' u = written w u ->
      (exists u', u' ∈ wp_closed w' /\ us_stream_id u' = us_stream_id u /\
         us_current_group_id u' = us_current_group_id u) -> stream_polled w u w'.

Lemma written_after w u id sent l : wp_written w = l ++ [(id, sent)] ->
  written w u = written_on (us_stream_id u) l ++ if us_stream_id u =? id then sent else [].
Proof.
  intros E. unfold written. rewrite E, written_on_app. cbn. rewrite Z.eqb_sym.
  destruct (_ =? _); by rewrite ?app_nil_r.
Qed.

(** The other streams, and what they have. *)
Lemma polled_streams fs finals w u u' s cg calls l1 l2 c1 c2 sent (live : bool) :
  warp_sending fs finals w -> wp_streams w = l1 ++ u :: l2 -> us_stream_id u' = us_stream_id u ->
  us_current_group_id u' = us_current_group_id u -> final_only (wp_control w) s -> final_known finals s ->
  c1 = (if live then [u'] else []) -> c2 = (if live then [] else [u']) ->
  (exists o, starts_at w o /\
     if live then uni_sending md mid (one_object w) finals u' (written w u ++ sent) (us_current_group_id u) o
     else uni_complete md mid (one_object w) finals (written w u ++ sent) (us_current_group_id u) o) ->
  warp_sending fs finals {| wp_cache := wp_cache w; wp_control := s; wp_media := wp_media w;
    wp_congestion := cg; wp_streams := l1 ++ c1 ++ l2; wp_closed := wp_closed w ++ c2;
    wp_calls := wp_calls w ++ calls; wp_written := wp_written w ++ [(us_stream_id u, sent)] |}.
Proof.
  intros [Hex Hfs Hc Hhi Hse [Hfc Hfs'] Hs Hm Hnd Hun Hact Hlog Hst Hcl Hgr] Eus Eid Eg (fg & fo & ->) Hfin Ec1 Ec2 Hu.
  assert (forall B (f : quicrq_uni_stream_ctx_t -> B), f u' = f u ->
    map f ((l1 ++ c1 ++ l2) ++ wp_closed w ++ c2) ≡ₚ map f (wp_streams w ++ wp_closed w)) as Hperm.
  { intros B f Ef. rewrite Eus, Ec1, Ec2. rewrite !map_app, !map_cons. destruct live; cbn; rewrite Ef.
    - by rewrite app_nil_r.
    - rewrite <- !(assoc_L (++)). apply Permutation_app_head. rewrite (assoc_L (++)).
      by rewrite (Permutation_app_comm _ [f u]). }
  assert (ids ((l1 ++ c1 ++ l2) ++ wp_closed w ++ c2) ≡ₚ ids (wp_streams w ++ wp_closed w)) as Hids
    by by apply (Hperm _ us_stream_id).
  rewrite Eus in Hnd, Hst.
  assert (forall v, v ∈ l1 ++ l2 ++ wp_closed w -> us_stream_id v <> us_stream_id u) as Hother.
  { intros v Hv Ev. rewrite <- (assoc_L (++)) in Hnd. unfold ids in Hnd. rewrite map_app in Hnd. cbn in Hnd.
    rewrite <- Permutation_middle in Hnd. apply NoDup_cons in Hnd as [Hn _]. apply Hn. rewrite <- Ev, <- map_app.
    by apply map_elem. }
  set (w' := {| wp_cache := _ |}).
  assert (forall v, v ∈ l1 ++ l2 ++ wp_closed w -> written w' v = written w v) as Hsame.
  { intros v Hv. rewrite (written_after w' v _ _ _ eq_refl), (proj2 (Z.eqb_neq _ _)) by by apply Hother.
    by rewrite app_nil_r. }
  assert (written w' u' = written w u ++ sent) as Hw'.
  { rewrite (written_after w' u' _ _ _ eq_refl), Eid, Z.eqb_refl. done. }
  split; try done; cbn [w' wp_cache wp_control wp_streams wp_closed wp_calls wp_written].
  - by rewrite Hids, Eus.
  - by rewrite Hids.
  - rewrite active_streams_app. intros i. rewrite Hids. intros Hi. apply elem_of_app. left. by apply Hact.
  - rewrite map_app. intros i. rewrite Hids, elem_of_app. intros [Hi | ->%list_elem_of_singleton]; [by apply Hlog |].
    rewrite Eus. unfold ids. rewrite !map_app. cbn. rewrite !elem_of_app, elem_of_cons. tauto.
  - intros v Hv. assert (v ∈ l1 ++ l2 \/ live = true /\ v = u') as [Hin | [-> ->]].
    { rewrite Ec1, !elem_of_app in Hv. rewrite elem_of_app.
      destruct live; [rewrite list_elem_of_singleton in Hv | rewrite elem_of_nil in Hv]; tauto. }
    + rewrite Hsame by (rewrite (assoc_L (++)); apply elem_of_app; by left).
      apply Hst. rewrite !elem_of_app, elem_of_cons in *. tauto.
    + rewrite Hw', Eg. apply Hu.
  - intros v. rewrite Ec2. intros [Hv | Hv]%elem_of_app.
    + rewrite Hsame by (rewrite !elem_of_app; by right; right). by apply Hcl.
    + destruct live; [by apply not_elem_of_nil in Hv |]. apply list_elem_of_singleton in Hv as ->.
      rewrite Hw', Eg. apply Hu.
  - intros Hmode. rewrite (Hperm _ us_current_group_id Eg). by apply Hgr.
Qed.

Lemma warp_polls fs finals w id space now : warp_sending fs finals w -> 21 <= space < two62 ->
  exists w', warp_step qr_mode w (WPoll id space now) = Some w' /\ warp_sending fs finals w' /\
    st_transport_mode (wp_control w') = st_transport_mode (wp_control w) /\
    forall u, u ∈ wp_streams w -> us_stream_id u = id -> stream_polled w u w'.
Proof.
  intros Hw Hspace. pose proof Hw as [_ _ Hc _ _ [Hfc Hfs] [Hmid _] Hm Hnd _ _ _ Hst _ _].
  assert (NoDup (ids (wp_streams w))) as Hnd1 by (rewrite ids_app in Hnd; by apply NoDup_app in Hnd as [? _]).
  unfold warp_step. destruct (List.find _ _) as [u |] eqn:Ef; cycle 1.
  { exists w. split; [done |]. split; [done |]. split; [done |]. intros u Hu Ei. exfalso.
    apply list_elem_of_In in Hu. pose proof (List.find_none _ _ Ef u Hu) as Hn. unfold has_id in Hn.
    by rewrite (proj2 (Z.eqb_eq _ _)) in Hn. }
  destruct (find_uni id _ u Hnd1 Ef) as (l1 & l2 & Eus & Eid & Hup & Hfi).
  assert (u ∈ wp_streams w) as Hu by (rewrite Eus; apply elem_of_app; right; by left).
  destruct (Hst u Hu) as (o & Ho & Hsend).
  destruct (poll_stream alloc_ok provided md mid mid_id (one_object w) qr_mode (wp_cache w) (wp_control w) (wp_media w)
    (wp_congestion w) u now finals (written w u) (us_current_group_id u) o space Hc Hfc Hfs Hmid Hm Hspace Hsend)
    as (u' & s' & calls & deleted & -> & Hso & Hfs' & Eid' & Eg' & _ & Hres).
  assert (st_transport_mode s' = st_transport_mode (wp_control w)) as Em by by destruct Hso as (? & ? & ->).
  cbn [mbind option_bind Z.eqb]. eexists. split; [reflexivity |]. rewrite Hup, Hfi, <- Eid.
  assert (forall v, v ∈ wp_streams w -> us_stream_id v = us_stream_id u -> v = u) as Huniq.
  { intros v Hv Ev. by apply (NoDup_map_inj us_stream_id (wp_streams w)). }
  destruct Hres as [u' sent Hpos Hs' | u' Hs' Hmb (i & Hi & Hne) | u' Hend]; cbv iota.
  - split.
    { rewrite <- (app_nil_r (wp_closed w)).
      apply (polled_streams fs finals w u u' s' (wp_congestion w) calls l1 l2 [u'] [] sent true Hw Eus); eauto. }
    split; [exact Em |]. intros v Hv Ev. rewrite (Huniq v Hv Ev). apply polled_sends.
    + erewrite written_after by reflexivity. rewrite Z.eqb_refl. intros E.
      apply (f_equal blen) in E. rewrite blen_app in E. unfold written in E. lia.
    + exists sent. erewrite written_after by reflexivity. by rewrite Z.eqb_refl.
    + exists u'. split; [apply elem_of_app; right; by left | done].
  - split.
    { rewrite <- (app_nil_r (wp_closed w)).
      apply (polled_streams fs finals w u u' s' (wp_congestion w) calls l1 l2 [u'] [] [] true Hw Eus); try done.
      exists o. by rewrite app_nil_r. }
    split; [exact Em |]. intros v Hv Ev. rewrite (Huniq v Hv Ev). apply polled_waits.
    + erewrite written_after by reflexivity. rewrite Z.eqb_refl. by rewrite app_nil_r.
    + exists u', i. rewrite Eg'. split; [apply elem_of_app; right; by left | done].
  - split.
    { apply (polled_streams fs finals w u u' s' (wp_congestion w) calls l1 l2 [] [u'] [] false Hw Eus); try done.
      exists o. by rewrite app_nil_r. }
    split; [exact Em |]. intros v Hv Ev. rewrite (Huniq v Hv Ev). apply polled_ends.
    + erewrite written_after by reflexivity. rewrite Z.eqb_refl. by rewrite app_nil_r.
    + exists u'. split; [apply elem_of_app; right; by left | done].
Qed.

(** ** Histories *)

Lemma warp_run_sending es : forall fs finals w, warp_sending fs finals w ->
  Forall poll_ok es -> Forall (warp_arrival md) (warp_arrivals es) ->
  (forall f f', f ∈ fs ++ warp_arrivals es -> f' ∈ fs ++ warp_arrivals es -> no_overlap f f') ->
  exists w', warp_run qr_mode w es = Some w' /\
    warp_sending (fs ++ warp_arrivals es) (finals ++ warp_finals es) w' /\
    st_transport_mode (wp_control w') = st_transport_mode (wp_control w).
Proof.
  induction es as [| e es IH]; intros fs finals w Hw Hp Ha Hno; cbn [warp_run].
  { exists w. split; [done |]. cbn. by rewrite !app_nil_r. }
  apply Forall_cons in Hp as [Hp Hps].
  assert (forall w1 fs1 finals1, warp_step qr_mode w e = Some w1 -> warp_sending fs1 finals1 w1 ->
    st_transport_mode (wp_control w1) = st_transport_mode (wp_control w) ->
    fs ++ warp_arrivals (e :: es) = fs1 ++ warp_arrivals es ->
    finals ++ warp_finals (e :: es) = finals1 ++ warp_finals es -> 
    exists w', (w1 ← warp_step qr_mode w e; warp_run qr_mode w1 es) = Some w' /\
      warp_sending (fs ++ warp_arrivals (e :: es)) (finals ++ warp_finals (e :: es)) w' /\
      st_transport_mode (wp_control w') = st_transport_mode (wp_control w)) as Hstep.
  { intros w1 fs1 finals1 -> Hw1 Em Efs Efi. cbn [mbind option_bind]. rewrite Efs, Efi, <- Em. apply IH; try done.
    - by destruct e; cbn in Ha; [apply Forall_cons in Ha as [_ ?] | ..].
    - by rewrite <- Efs. }
  destruct e as [f | g o | | id space now]; cbn [warp_step].
  - cbn in Ha, Hno. apply Forall_cons in Ha as [Hf _].
    destruct (warp_arrives fs finals w f Hw Hf) as (w1 & E & Hw1 & Ec).
    { apply Forall_forall. intros f' Hf'. apply Hno; rewrite elem_of_app, elem_of_cons; tauto. }
    apply (Hstep w1 (fs ++ [f]) finals); [exact E | done | by rewrite Ec | by rewrite <- (assoc_L (++)) | done].
  - apply (Hstep _ fs (finals ++ [(g, o)]) eq_refl); [by apply warp_final | done | done |].
    by rewrite <- (assoc_L (++)).
  - destruct (warp_wakes fs finals w Hw) as (Hw1 & _ & _ & Em & _). by apply (Hstep _ fs finals eq_refl).
  - destruct (warp_polls fs finals w id space now Hw Hp) as (w1 & E & Hw1 & Em & _).
    by apply (Hstep w1 fs finals).
Qed.
End history.
