(* ===== verification/WarpReceive.v ===== *)
(** * Receiving the streams of the warp and rush modes

    What a connection makes of the bytes of a unidirectional stream, when the
    transport never joins the end of an object with what follows it. *)

From S2P Require Import Prelude Picosplay PicoFrames Media Proto Reassembly ReassemblyDelivery.
From S2P Require Import ReassemblySafety Fragment PublisherContext Publisher.
From S2P Require Import MsgBuffer MsgBufferTheorems StreamContext Warp WarpStream.
From S2P Require Import ControlStream Connection ObjectConsumer ObjectConsumerTheorems EndToEnd DatagramTheorems.

(** ** Positions in a stream *)

Section positions.
Context (md : media).
Implicit Types xs : list object_header.

Lemma group_take g o h xs i x : xs !! i = Some x ->
  group_stream md g o h (take (S i) xs) =
    group_stream md g o h (take i xs) ++ object_bytes md g (o + Z.of_nat i) x.
Proof.
  intros Hx. rewrite (take_S_r _ _ _ Hx), group_stream_snoc, length_take.
  apply lookup_lt_Some in Hx. by rewrite Nat.min_l by lia.
Qed.

Lemma group_take_all g o h xs i : exists rest,
  group_stream md g o h xs = group_stream md g o h (take i xs) ++ rest.
Proof.
  exists (objects md g (o + Z.of_nat (length (take i xs))) (drop i xs)). unfold group_stream.
  by rewrite <- (assoc_L (++)), <- objects_app, take_drop.
Qed.

(** The stream up to an object is the shorter the earlier the object. *)
Lemma group_length_mono g o h xs i j : (i <= j)%nat ->
  blen (group_stream md g o h (take i xs)) <= blen (group_stream md g o h (take j xs)).
Proof.
  intros Hij. destruct (group_take_all g o h (take j xs) i) as (rest & E).
  rewrite take_take, Nat.min_l in E by lia. rewrite E, blen_app. pose proof (blen_nonneg rest). lia.
Qed.

Lemma group_length_S g o h xs i x : xs !! i = Some x ->
  blen (group_stream md g o h (take (S i) xs)) = blen (group_stream md g o h (take i xs)) +
    blen (frame (oh_bytes x)) + blen (content md (g, o + Z.of_nat i)).
Proof. intros Hx. rewrite (group_take g o h xs i x Hx). unfold object_bytes. rewrite !blen_app. lia. Qed.

(** Byte [j] of object [k] is among the bytes [r] received on the stream. *)
Definition byte_delivered g o h xs (r : list Z) (k : Z * Z) (j : Z) : Prop := exists i x,
  xs !! i = Some x /\ k = (g, o + Z.of_nat i) /\ 0 <= j < blen (content md k) /\
  blen (group_stream md g o h (take i xs)) + blen (frame (oh_bytes x)) + j < blen r.

(** The object is received whole on the stream. *)
Definition object_delivered g o h xs (r : list Z) (k : Z * Z) : Prop := exists i,
  (i < length xs)%nat /\ k = (g, o + Z.of_nat i) /\ group_stream md g o h (take (S i) xs) `prefix_of` r.

Lemma prefix_by_length {B} (l r s : list B) : l `prefix_of` s -> r `prefix_of` s -> blen l <= blen r -> l `prefix_of` r.
Proof.
  intros Hl Hr Hle. destruct (prefix_weak_total l r s Hl Hr) as [? | Hp]; [done |].
  destruct Hp as (k & ->). rewrite blen_app in Hle. pose proof (blen_nonneg k).
  assert (k = []) as -> by (apply blen_zero_nil; lia). rewrite app_nil_r. done.
Qed.

Lemma delivered_object g o h xs r k : r `prefix_of` group_stream md g o h xs -> 0 < blen (content md k) ->
  object_delivered g o h xs r k <->
  (forall j, 0 <= j < blen (content md k) -> byte_delivered g o h xs r k j).
Proof.
  intros Hr Hne. split.
  - intros (i & Hi & -> & Hp) j Hj. destruct (lookup_lt_is_Some_2 xs i Hi) as (x & Hx). exists i, x.
    split; [done |]. split; [done |]. split; [done |]. apply prefix_length in Hp.
    pose proof (group_length_S g o h xs i x Hx). unfold blen in *. lia.
  - intros Hall. destruct (Hall (blen (content md k) - 1) ltac:(lia)) as (i & x & Hx & -> & _ & Hlt).
    exists i. split; [by eapply lookup_lt_Some |]. split; [done |].
    apply (prefix_by_length _ r (group_stream md g o h xs)); [| done |].
    + destruct (group_take_all g o h xs (S i)) as (rest & ->). by eexists.
    + rewrite (group_length_S g o h xs i x Hx). lia.
Qed.

Lemma delivered_more g o h xs r b k j : byte_delivered g o h xs r k j -> byte_delivered g o h xs (r ++ b) k j.
Proof.
  intros (i & x & Hx & Hk & Hj & Hlt). exists i, x. rewrite blen_app. pose proof (blen_nonneg b).
  split_and!; try done; lia.
Qed.

(** A chunk that completes an object ends with it. *)
Definition cut_at_objects g o h xs (r b : list Z) : Prop := forall i, (i < length xs)%nat ->
  group_stream md g o h (take (S i) xs) `prefix_of` r ++ b ->
  group_stream md g o h (take (S i) xs) `prefix_of` r \/ group_stream md g o h (take (S i) xs) = r ++ b.
End positions.

(** ** Messages *)

Lemma parse_prefix a k m tail m' rest : blen m < 65536 -> a ++ k = frame m ++ tail ->
  parse_frame a = Some (m', rest) -> m' = m /\ a = frame m ++ rest /\ rest ++ k = tail.
Proof.
  intros Hm E Hp. pose proof (parse_frame_app a k _ _ Hp) as H. rewrite E, frame_parse in H by done.
  injection H as <- ->. split; [done |]. split; [| done]. rewrite (assoc_L (++)) in E. by apply app_inv_tail in E.
Qed.

Lemma parse_none_prefix a k m tail : blen m < 65536 -> a ++ k = frame m ++ tail -> parse_frame a = None ->
  exists rest, rest <> [] /\ a ++ rest = frame m.
Proof.
  intros Hm E Hp. assert (a `prefix_of` frame m \/ frame m `prefix_of` a) as [(rest & Er) | (rest & Er)].
  { apply (prefix_weak_total _ _ (frame m ++ tail)); [rewrite <- E; by eexists | by eexists]. }
  - exists rest. split; [| done]. intros ->. rewrite app_nil_r in Er. rewrite <- Er in Hp.
    rewrite <- (app_nil_r (frame m)) in Hp. by rewrite frame_parse in Hp.
  - rewrite Er in Hp. by rewrite frame_parse in Hp.
Qed.

Section receiver.
Context {Sp : Splay quicrq_cached_fragment_t quicrq_fragment_cache_node_compare}.
Context {So : Splay okey quicrq_fragment_publisher_object_node_compare}.
Context `{SR : SplayLaws (Z * Z) quicrq_object_node_compare}.
Context {Al : Allocator} {PF : PicoFrames}.
Context {A : Type} (fn : A -> object_call -> A * Z) (now : Z).
Abbreviation bridge := (quicrq_object_stream_consumer_ctx (App := A * list object_call)).
#[local] Instance receiving_bridge : Consumer (option bridge) := bridge_consumer fn now.
Context (alloc_ok : forall z, malloc_ok z = true) (fn_ok : forall a c, (fn a c).2 = 0).
Context (md : media) (nonempty : forall k, 0 < blen (content md k)).

(** The control stream that receives the media, the first of its connection
    with the identifier of the media, between the others. *)
Context (mid sid : Z) (mode : quicrq_transport_mode_enum).
Context (l1 l2 : list (control_stream (option bridge))).
Context (first_media : Forall (fun y => st_media_id (ct_stream y) <> mid) l1).
Context (other_ids : Forall (fun y => st_stream_id (ct_stream y) <> sid) (l1 ++ l2)).
Implicit Types (u : quicrq_uni_stream_ctx_t) (w : warp_world (CS := option bridge)).

Record receiving_control (ct : control_stream (option bridge)) (x : bridge) : Prop := {
  rc_media : st_media_id (ct_stream ct) = mid;
  rc_id : st_stream_id (ct_stream ct) = sid;
  rc_mode : st_transport_mode (ct_stream ct) = mode;
  rc_consumer : ct_consumer ct = Some (Some x);
}.

(** The consumer of the media was passed the fragments [fs]. *)
Record world_ok fs w : Prop := {
  wo_control : exists ct x log, ww_controls w = l1 ++ ct :: l2 /\ receiving_control ct x /\ consuming_ok md fs x log;
  wo_deleted : ww_deleted w = false;
}.

Lemma find_control ct : st_stream_id (ct_stream ct) = sid ->
  List.find (fun k => st_stream_id (ct_stream k) =? sid) (l1 ++ ct :: l2) = Some ct.
Proof.
  intros Hct. apply Forall_app in other_ids as [H1 _]. apply find_middle; [| by apply Z.eqb_eq].
  eapply Forall_impl; [exact H1 |]. intros y Hy. by apply Z.eqb_neq.
Qed.

Lemma update_control_middle ct ct' : st_stream_id (ct_stream ct) = sid -> st_stream_id (ct_stream ct') = sid ->
  update_control ct' (l1 ++ ct :: l2) = l1 ++ ct' :: l2.
Proof.
  intros Hct Hct'. unfold update_control. rewrite map_app. cbn [map]. rewrite Hct, Hct', Z.eqb_refl.
  apply Forall_app in other_ids as [H1 H2].
  assert (forall l : list (control_stream (option bridge)), Forall (fun y => st_stream_id (ct_stream y) <> sid) l ->
    map (fun x => if st_stream_id (ct_stream x) =? sid then ct' else x) l = l) as Hsame.
  { induction 1 as [| y l Hy _ IH]; cbn; [done |]. by rewrite (proj2 (Z.eqb_neq _ _)), IH. }
  by rewrite !Hsame.
Qed.

(** The consumer is passed a fragment. *)
Lemma world_consumes fs w f u' :
  world_ok fs w -> us_control (ww_uni w) = Some sid -> us_control u' = Some sid ->
  consistent md f -> f_time f = now -> f_delay f = 0 ->
  exists w1 w2 ret, call_consumer w
      (quicrq_media_datagram_ready (f_data f) (f_group f) (f_object f) (f_offset f) 0 (f_flags f)
         (f_nb_previous f) (f_object_length f) (f_data_length f)) = Some (w1, ret) /\
    handle_finished (ww_set_uni w1 u') ret = Some (w2, 0) /\ world_ok (fs ++ [f]) w2 /\ ww_uni w2 = u' /\
    ww_uni w1 = ww_uni w.
Proof.
  intros [(ct & x & log & Ect & [Hm Hid Hmode Hx] & Hok) Hdel] Hu Hu' Hc Ht Hd. unfold call_consumer, control_of.
  rewrite Hu. cbn [mbind option_bind]. rewrite Ect, find_control by done. cbn [mbind option_bind]. rewrite Hx.
  destruct (consuming_step alloc_ok fn fn_ok md fs x log now
    (quicrq_media_datagram_ready (f_data f) (f_group f) (f_object f) (f_offset f) 0 (f_flags f)
       (f_nb_previous f) (f_object_length f) (f_data_length f)) Hok)
    as (x' & log' & ret & E & Hx' & Hret).
  { unfold media_call. cbn. destruct Hc as [? ? ? ? ? ?]. split; done. }
  destruct Hret as [Hret _]; [by eexists |].
  cbn [mbind option_bind]. unfold consumer_fn at 1, receiving_bridge, bridge_consumer. rewrite E.
  destruct (finished_receiver (ct_stream ct) ret) as (s & calls & Ef & H1 & H2 & H3 & H4).
  { rewrite Hret. unfold finished_or. destruct (_ && _); auto. }
  rewrite update_control_middle by done. eexists _, _, ret. split; [reflexivity |].
  unfold handle_finished, control_of. cbn [ww_uni ww_set_uni ww_controls]. rewrite Hu'. cbn [mbind option_bind].
  rewrite find_control by done. cbn [mbind option_bind ct_stream].
  rewrite Ef, update_control_middle by (cbn; congruence). split; [reflexivity |]. split; [| done]. split; [| exact Hdel].
  eexists _, x', log'. split; [reflexivity |]. split; [split; cbn; congruence |].
  destruct f as [ft fdata fg fo foff fdel ffl fnb folen flen]. cbn in Ht, Hd. subst. exact Hx'.
Qed.

(** ** The state of a stream *)

(** The stream carries the group [g] from the object [o] on: all of it in the
    warp mode, one object in the rush mode. *)
Context (g o : Z) (h : list Z) (xs : list object_header).
Context (stream_fine : stream_ok md mid g o h xs).
Context (whole_group : mode = quicrq_transport_mode_warp -> o = 0).
Context (one_object : mode = quicrq_transport_mode_rush -> (length xs <= 1)%nat).

Abbreviation stream_to i := (group_stream md g o h (take i xs)).
Abbreviation object_content i := (content md (g, o + Z.of_nat i)).

(** What the stream is when the bytes [r] are received: in the warp header, in
    the header of an object, or in its data. *)
Inductive uni_receiving (r : list Z) u : Prop :=
  | receiving_warp rest :
      us_receive_state u = quicrq_receive_open -> us_control u = None -> us_current_object_id u = 0 ->
      mb_holds (us_message_buffer u) r -> rest <> [] -> r ++ rest = frame h -> uni_receiving r u
  | receiving_header i a :
      us_receive_state u = (if decide (i = 0%nat) then quicrq_receive_warp_header else quicrq_receive_object_header) ->
      us_control u = Some sid -> us_current_group_id u = g ->
      us_current_object_id u = (if decide (i = 0%nat) then 0 else o + Z.of_nat i) ->
      mb_holds (us_message_buffer u) a -> (i <= length xs)%nat -> r = stream_to i ++ a ->
      (a = [] \/ exists x rest, xs !! i = Some x /\ rest <> [] /\ a ++ rest = frame (oh_bytes x)) ->
      uni_receiving r u
  | receiving_data i x :
      us_receive_state u = quicrq_receive_object_data -> us_control u = Some sid -> us_current_group_id u = g ->
      us_current_object_id u = o + Z.of_nat i -> xs !! i = Some x ->
      us_current_object_length u = blen (object_content i) ->
      us_nb_objects_previous_group u = oh_nb x -> us_current_object_flags u = oh_flags x ->
      mb_holds (us_message_buffer u) [] -> 0 <= us_current_object_offset u < blen (object_content i) ->
      r = stream_to i ++ frame (oh_bytes x) ++ ztake (us_current_object_offset u) (object_content i) ->
      uni_receiving r u.

Lemma header_at i x : xs !! i = Some x -> header_ok md g (o + Z.of_nat i) x.
Proof. intros Hx. by apply (so_objects _ _ _ _ _ _ stream_fine). Qed.

(** The fragment that the data of an object make. *)
Definition data_fragment i x (off : Z) (b : list Z) : fragment := {|
  f_time := now; f_data := b; f_group := g; f_object := o + Z.of_nat i; f_offset := off; f_delay := 0;
  f_flags := oh_flags x; f_nb_previous := oh_nb x; f_object_length := blen (object_content i);
  f_data_length := blen b |}.

Lemma data_fragment_consistent i x off b : xs !! i = Some x -> 0 <= off ->
  off + blen b <= blen (object_content i) -> b = slice (object_content i) off (blen b) ->
  consistent md (data_fragment i x off b).
Proof.
  intros Hx Hoff Hend Hb. destruct (header_at i x Hx) as [(Hg & Ho & Hc) _ _ Hprev].
  pose proof (blen_nonneg b). split; cbn; try done.
  intros Hpos Hz _. by apply Hprev.
Qed.

Lemma receive_data fs w r i x b : world_ok fs w -> 0 < blen b ->
  us_receive_state (ww_uni w) = quicrq_receive_object_data -> us_control (ww_uni w) = Some sid ->
  us_current_group_id (ww_uni w) = g -> us_current_object_id (ww_uni w) = o + Z.of_nat i ->
  xs !! i = Some x -> us_current_object_length (ww_uni w) = blen (object_content i) ->
  us_nb_objects_previous_group (ww_uni w) = oh_nb x -> us_current_object_flags (ww_uni w) = oh_flags x ->
  mb_holds (us_message_buffer (ww_uni w)) [] ->
  let off := us_current_object_offset (ww_uni w) in
  0 <= off -> off + blen b <= blen (object_content i) -> b = slice (object_content i) off (blen b) ->
  r = stream_to i ++ frame (oh_bytes x) ++ ztake off (object_content i) ->
  exists w', receive_object_data w b = Some (w', 0, blen b) /\
    world_ok (fs ++ [data_fragment i x off b]) w' /\ uni_receiving (r ++ b) (ww_uni w') /\
    us_stream_id (ww_uni w') = us_stream_id (ww_uni w).
Proof.
  intros Hw Hpos Hst Hct Eg Eo Hx Elen Enb Efl Hmb off Hoff Hend Hb Hr.
  pose proof (header_at i x Hx) as Hh. destruct (ho_object _ _ _ _ Hh) as (_ & Hid & _).
  pose proof (content_range md (g, o + Z.of_nat i)) as Hcr. unfold is_id, two62 in *.
  unfold receive_object_data. fold off. rewrite Elen, Eg, Eo, Enb, Efl.
  rewrite (u64_small (off + blen b)) by u64_lia. rewrite (proj2 (Z.ltb_ge _ _)) by lia.
  rewrite (u64_small (off + blen b)), (u64_small (o + Z.of_nat i + 1)) by u64_lia. rewrite ztake_all.
  set (u' := if _ <=? _ then _ else _).
  destruct (world_consumes fs w (data_fragment i x off b) u' Hw Hct)
    as (w1 & w2 & ret & E1 & E2 & Hw2 & Eu2 & Eu1); try done.
  { subst u'. by destruct (_ <=? _). }
  { by apply data_fragment_consistent. }
  cbn [f_data f_group f_object f_offset f_flags f_nb_previous f_object_length f_data_length data_fragment] in E1.
  rewrite E1. cbn [mbind option_bind]. rewrite E2. cbn [mbind option_bind].
  exists w2. split; [done |]. split; [done |]. rewrite Eu2.
  assert (us_stream_id u' = us_stream_id (ww_uni w)) as Eid by (subst u'; by destruct (_ <=? _)).
  split; [| done]. subst u'. rewrite Hr, <- !(assoc_L (++)).
  assert (ztake off (object_content i) ++ b = ztake (off + blen b) (object_content i)) as Ecat.
  { rewrite Hb at 1. unfold slice. by rewrite ztake_add by lia. }
  rewrite Ecat. destruct (Z.leb_spec (blen (object_content i)) (off + blen b)) as [Hfull | Hpart].
  - assert (off + blen b = blen (object_content i)) as -> by lia. rewrite ztake_all.
    pose proof (lookup_lt_Some _ _ _ Hx).
    apply (receiving_header _ _ (S i) []); try done.
    + change (o + Z.of_nat i + 1 = o + Z.of_nat (S i)). lia.
    + rewrite app_nil_r, (group_take md g o h xs i x Hx). done.
    + by left.
  - apply (receiving_data _ _ i x); cbn; try done. lia.
Qed.

(** ** Messages *)

Lemma receive_header_message w i x : xs !! i = Some x ->
  us_receive_state (ww_uni w) = (if decide (i = 0%nat) then quicrq_receive_warp_header else quicrq_receive_object_header) ->
  us_control (ww_uni w) = Some sid ->
  us_current_object_id (ww_uni w) = (if decide (i = 0%nat) then 0 else o + Z.of_nat i) ->
  (exists ct, control_of (ww_uni w) (ww_controls w) = Some ct /\ st_transport_mode (ct_stream ct) = mode) ->
  receive_object_header w (object_message (o + Z.of_nat i) (oh_nb x) (oh_flags x) (blen (object_content i))) =
    Some (ww_set_uni w (us_set_properties (us_set_receive (us_set_object (ww_uni w) (o + Z.of_nat i) 0)
                          quicrq_receive_object_data) (blen (object_content i)) (oh_nb x) (oh_flags x)), 0).
Proof.
  intros Hx Hst Hct Eo (ct & Ect & Em). unfold receive_object_header.
  assert (us_receive_state (ww_uni w) = quicrq_receive_warp_header \/
    us_receive_state (ww_uni w) = quicrq_receive_object_header) as Hor by (rewrite Hst; destruct (decide _); auto).
  assert (negb (bool_decide (us_receive_state (ww_uni w) = quicrq_receive_warp_header)) &&
    negb (bool_decide (us_receive_state (ww_uni w) = quicrq_receive_object_header)) = false) as ->
    by by destruct Hor as [-> | ->].
  rewrite Hct, Ect. cbn [mbind option_bind]. rewrite Em, Eo.
  cbn [object_message msg_set object_id object_length nb_objects_previous_group flags].
  pose proof (lookup_lt_Some _ _ _ Hx) as Hlt.
  assert ((bool_decide (mode = quicrq_transport_mode_rush) && negb ((if decide (i = 0%nat) then 0 else o + Z.of_nat i) =? 0)) ||
    (bool_decide (mode = quicrq_transport_mode_warp) &&
     negb ((if decide (i = 0%nat) then 0 else o + Z.of_nat i) =? o + Z.of_nat i)) = false) as ->.
  { apply orb_false_intro.
    - case_bool_decide as Hr; [| done]. specialize (one_object Hr). by rewrite decide_True by lia.
    - case_bool_decide as Hw; [| done]. rewrite (whole_group Hw). cbn [andb].
      destruct (decide (i = 0%nat)) as [-> |]; [done |]. by rewrite Z.eqb_refl. }
  rewrite (proj2 (Z.ltb_lt _ _)) by apply nonempty. done.
Qed.

(** The message that is in the buffer. *)
Definition mb_message (mb : quicrq_message_buffer_t) (m : list Z) : Prop :=
  ztake (mb_message_size mb) (mb_buffer mb) = m /\ blen (mb_buffer mb) <= mb_buffer_alloc mb.

Lemma world_uni fs w u : world_ok fs w -> world_ok fs (ww_set_uni w u).
Proof. intros [H1 H2]. by split. Qed.

Lemma warp_message_received fs w : world_ok fs w -> mb_message (us_message_buffer (ww_uni w)) h ->
  us_receive_state (ww_uni w) = quicrq_receive_open -> us_control (ww_uni w) = None ->
  us_current_object_id (ww_uni w) = 0 ->
  exists w', receive_uni_message w = Some (w', 0) /\ world_ok fs w' /\ uni_receiving (frame h) (ww_uni w') /\
    us_stream_id (ww_uni w') = us_stream_id (ww_uni w).
Proof.
  intros Hw [Hm Hal] Hst Hct Hcur. unfold receive_uni_message. rewrite Hm.
  destruct (so_header _ _ _ _ _ _ stream_fine) as [_ Hd]. rewrite Hd. cbn [message_type warp_message msg_set].
  rewrite Z.eqb_refl. unfold receive_warp_header. rewrite Hst. cbn [bool_decide negb].
  pose proof Hw as [(ct & x & log & Ect & [Hmed Hid _ _] & _) _].
  assert (quicrq_get_control_stream_for_media_id (ww_controls w) mid = Some ct) as Ef.
  { unfold quicrq_get_control_stream_for_media_id. rewrite Ect. apply find_middle; [| by apply Z.eqb_eq].
    eapply Forall_impl; [exact first_media |]. intros y Hy. by apply Z.eqb_neq. }
  cbn [media_id warp_message msg_set group_id]. rewrite bool_decide_true by done. cbn [negb]. rewrite Ef.
  cbn [us_control us_set_receive us_set_group]. rewrite Hct. cbn [mbind option_bind].
  eexists. split; [reflexivity |]. split; [by do 2 apply world_uni |]. split; [| done].
  apply (receiving_header _ _ 0 []); try done.
  - cbn. by rewrite Hid.
  - lia.
  - unfold group_stream. cbn [take objects]. by rewrite !app_nil_r.
  - by left.
Qed.

Lemma object_message_received fs w i x : world_ok fs w -> xs !! i = Some x ->
  mb_message (us_message_buffer (ww_uni w)) (oh_bytes x) ->
  us_receive_state (ww_uni w) = (if decide (i = 0%nat) then quicrq_receive_warp_header else quicrq_receive_object_header) ->
  us_control (ww_uni w) = Some sid -> us_current_group_id (ww_uni w) = g ->
  us_current_object_id (ww_uni w) = (if decide (i = 0%nat) then 0 else o + Z.of_nat i) ->
  exists w', receive_uni_message w = Some (w', 0) /\ world_ok fs w' /\
    uni_receiving (stream_to i ++ frame (oh_bytes x)) (ww_uni w') /\
    us_stream_id (ww_uni w') = us_stream_id (ww_uni w).
Proof.
  intros Hw Hx [Hm Hal] Hst Hct Hg Hcur. unfold receive_uni_message. rewrite Hm.
  pose proof (header_at i x Hx) as Hh. rewrite (ho_decode _ _ _ _ Hh).
  cbn [message_type object_message msg_set]. 
  change (QUICRQ_ACTION_OBJECT_HEADER =? QUICRQ_ACTION_WARP_HEADER) with false. rewrite Z.eqb_refl. cbv iota.
  pose proof Hw as [(ct & y & log & Ect & [Hmed Hid Hmode _] & _) _].
  rewrite (receive_header_message w i x Hx Hst Hct Hcur); cycle 1.
  { exists ct. split; [| done]. unfold control_of. rewrite Hct. cbn [mbind option_bind]. rewrite Ect.
    by apply find_control. }
  cbn [mbind option_bind]. eexists. split; [reflexivity |]. split; [by do 2 apply world_uni |]. split; [| done].
  apply (receiving_data _ _ i x); try done.
  match goal with |- context [ztake ?n _] => change n with 0; change (ztake 0 _) with (@nil Z) end.
  by rewrite app_nil_r.
Qed.

(** ** The bytes of a delivery *)

Abbreviation delivered := (byte_delivered md g o h xs).

(** The bytes of a header are not those of an object. *)
Lemma delivered_header r r' i : (i = 0%nat \/ blen (stream_to i) <= blen r) -> blen r <= blen r' ->
  (forall x, xs !! i = Some x -> blen r' <= blen (stream_to i) + blen (frame (oh_bytes x))) ->
  forall k j, delivered r' k j <-> delivered r k j.
Proof.
  intros Hi Hle Hx k j. split; intros (n & x & Hn & Hk & Hj & Hlt); exists n, x; split_and!; try done; try lia.
  destruct (Nat.lt_ge_cases n i) as [Hni | Hni].
  - destruct Hi as [-> | Hi]; [lia |]. subst k. pose proof (group_length_S md g o h xs n x Hn).
    pose proof (group_length_mono md g o h xs (S n) i ltac:(lia)). lia.
  - destruct (lookup_lt_is_Some_2 xs i) as (y & Hy); [apply lookup_lt_Some in Hn; lia |]. specialize (Hx y Hy).
    destruct (Nat.eq_dec n i) as [-> |]; [rewrite Hy in Hn; injection Hn as <-; lia |].
    pose proof (group_length_S md g o h xs i y Hy). pose proof (group_length_mono md g o h xs (S i) n ltac:(lia)).
    pose proof (blen_nonneg (object_content i)). pose proof (blen_nonneg (frame (oh_bytes x))). lia.
Qed.

Lemma delivered_data i x off b k j : xs !! i = Some x -> 0 <= off -> off + blen b <= blen (object_content i) ->
  let r := stream_to i ++ frame (oh_bytes x) ++ ztake off (object_content i) in
  delivered (r ++ b) k j <-> delivered r k j \/ (k = (g, o + Z.of_nat i) /\ off <= j < off + blen b).
Proof.
  intros Hx Hoff Hend r. pose proof (blen_nonneg b).
  assert (blen r = blen (stream_to i) + blen (frame (oh_bytes x)) + off) as Er.
  { subst r. rewrite !blen_app, blen_ztake by lia. lia. }
  split.
  - intros (n & y & Hn & Hk & Hj & Hlt). rewrite blen_app, Er in Hlt.
    destruct (Nat.lt_trichotomy n i) as [Hni | [-> | Hni]].
    + left. exists n, y. split; [done |]. split; [done |]. split; [done |]. subst k. pose proof (group_length_S md g o h xs n y Hn).
      pose proof (group_length_mono md g o h xs (S n) i ltac:(lia)). pose proof (blen_nonneg (frame (oh_bytes x))). lia.
    + rewrite Hx in Hn. injection Hn as <-. destruct (Z.lt_ge_cases j off); [left | right; split; [done | lia]].
      exists i, x. split_and!; try done; lia.
    + pose proof (group_length_S md g o h xs i x Hx). pose proof (group_length_mono md g o h xs (S i) n ltac:(lia)).
      pose proof (blen_nonneg (frame (oh_bytes y))). lia.
  - intros [Hd | [-> Hj]]; [by apply delivered_more |]. exists i, x. rewrite blen_app, Er.
    split; [done |]. split; [done |]. split; [lia | lia].
Qed.

(** What is left of a delivery [b] after the bytes [r]. *)
Record arriving (r b : list Z) : Prop := {
  ar_stream : r ++ b `prefix_of` group_stream md g o h xs;
  ar_cut : cut_at_objects md g o h xs r b;
  ar_bytes : Forall is_byte r /\ Forall is_byte b;
}.

Lemma arriving_next r b r1 b1 : arriving r b -> r ++ b = r1 ++ b1 -> r `prefix_of` r1 -> arriving r1 b1.
Proof.
  intros [Hs Hc [Hr Hb]] E Hp. split; [by rewrite <- E | |].
  - intros i Hi. rewrite <- E. intros H. destruct (Hc i Hi H) as [? | ->]; [left; by etrans | by right].
  - apply Forall_app. rewrite <- E. by apply Forall_app.
Qed.

(** The data of the object that is being received. *)
Lemma arriving_data r b i x off : arriving r b -> xs !! i = Some x ->
  0 <= off < blen (object_content i) ->
  r = stream_to i ++ frame (oh_bytes x) ++ ztake off (object_content i) ->
  off + blen b <= blen (object_content i) /\ b = slice (object_content i) off (blen b).
Proof.
  intros [Hs Hc _] Hx Hoff Hr. pose proof (lookup_lt_Some _ _ _ Hx) as Hi. specialize (Hc i Hi).
  destruct (group_take_all md g o h xs (S i)) as (rest & Eall). rewrite (group_take md g o h xs i x Hx) in Eall, Hc.
  assert (stream_to i ++ object_bytes md g (o + Z.of_nat i) x = r ++ zdrop off (object_content i)) as Eob.
  { rewrite Hr. unfold object_bytes. rewrite <- !(assoc_L (++)). by rewrite ztake_zdrop. }
  rewrite Eob in Eall, Hc.
  assert (b `prefix_of` zdrop off (object_content i)) as (tail & Et).
  { rewrite Eall, <- (assoc_L (++)) in Hs. apply prefix_app_inv in Hs.
    destruct (prefix_weak_total b (zdrop off (object_content i)) (zdrop off (object_content i) ++ rest)) as [? | Hp];
      [done | by eexists | done |].
    destruct Hc as [Hc | Hc].
    - by apply prefix_app.
    - apply prefix_length in Hc. rewrite length_app in Hc.
      pose proof (blen_zdrop off (object_content i) ltac:(lia)) as Hz. unfold blen in *. lia.
    - apply app_inv_head in Hc as ->. done. }
  pose proof (blen_zdrop off (object_content i) ltac:(lia)) as Hz. rewrite Et, blen_app in Hz.
  pose proof (blen_nonneg tail). split; [lia |]. unfold slice. by rewrite Et, ztake_app.
Qed.

(** A message is stored, whole or in part. *)
Lemma store_step mb a b m tail k : mb_holds mb a -> Forall is_byte a -> Forall is_byte b -> blen m < 65536 ->
  (a ++ b) ++ k = frame m ++ tail ->
  exists mb' rest fin, quicrq_msg_buffer_store b mb = Some (mb', Some rest, fin) /\
    if fin : bool
    then a ++ b = frame m ++ rest /\ mb_message mb' m /\ (length rest < length b)%nat
    else rest = [] /\ mb_holds mb' (a ++ b) /\ exists rest', rest' <> [] /\ (a ++ b) ++ rest' = frame m.
Proof.
  intros Hmb Ha Hb Hm E.
  destruct (store_spec (fun n _ => alloc_ok n) mb a b Hmb Ha Hb) as (mb' & rest & fin & Es & _ & _ & Hal & Hfin).
  exists mb', rest, fin. split; [exact Es |]. destruct fin.
  - pose proof (parse_frame_shorter _ _ _ _ Ha Hb (mb_holds_incomplete _ _ Hmb) Hfin) as Hl.
    destruct (parse_prefix (a ++ b) k m tail _ _ Hm E Hfin) as (<- & Eab & _). by split.
  - destruct Hfin as (-> & Hh & Hp). split; [done |]. split; [done |]. by apply (parse_none_prefix _ k m tail).
Qed.

(** The next header is expected, since there is something left to receive. *)
Lemma next_object r b i a : arriving r b -> b <> [] -> (i <= length xs)%nat -> r = stream_to i ++ a ->
  (a = [] \/ exists x rest, xs !! i = Some x /\ rest <> [] /\ a ++ rest = frame (oh_bytes x)) ->
  exists x k tail, xs !! i = Some x /\ blen a <= blen (frame (oh_bytes x)) /\
    (a ++ b) ++ k = frame (oh_bytes x) ++ tail.
Proof.
  intros [[k Hs] _ _] Hb Hi -> Ha. destruct (xs !! i) as [x |] eqn:Hx; cycle 1.
  - exfalso. destruct Ha as [-> | (x & rest & Hx' & _)]; [| done].
    apply lookup_ge_None in Hx. rewrite take_ge, app_nil_r, <- (assoc_L (++)) in Hs by lia.
    rewrite <- (app_nil_r (group_stream md g o h xs)) in Hs at 1. apply app_inv_head in Hs.
    symmetry in Hs. by apply app_nil in Hs as [-> _].
  - destruct (group_take_all md g o h xs (S i)) as (rest & Eall). rewrite (group_take md g o h xs i x Hx) in Eall.
    exists x, k, (object_content i ++ rest). split; [done |]. split.
    + destruct Ha as [-> | (y & r' & Hy & _ & Er)]; [apply blen_nonneg |]. injection Hy as <-.
      rewrite <- Er, blen_app. pose proof (blen_nonneg r'). lia.
    + rewrite Eall, <- !(assoc_L (++)) in Hs. apply app_inv_head in Hs. unfold object_bytes in Hs.
      by rewrite <- !(assoc_L (++)) in *.
Qed.

Definition progress fs w r' (result : option (warp_world (CS := option bridge) * Z)) : Prop :=
  exists w' fs', result = Some (w', 0) /\ world_ok fs' w' /\ uni_receiving r' (ww_uni w') /\
    us_stream_id (ww_uni w') = us_stream_id (ww_uni w) /\
    forall k j, byte_received fs' k j <-> byte_received fs k j \/ delivered r' k j.

Lemma loop_end fuel w : (0 < fuel)%nat -> receive_uni_loop fuel w [] = Some (w, 0).
Proof. by destruct fuel; [lia |]. Qed.

(** Nothing but a part of a header is received. *)
Lemma progress_header fs w w' r b i : world_ok fs w' -> uni_receiving (r ++ b) (ww_uni w') ->
  us_stream_id (ww_uni w') = us_stream_id (ww_uni w) -> (i = 0%nat \/ blen (stream_to i) <= blen r) ->
  (forall x, xs !! i = Some x -> blen (r ++ b) <= blen (stream_to i) + blen (frame (oh_bytes x))) ->
  (forall k j, delivered r k j -> byte_received fs k j) ->
  progress fs w (r ++ b) (Some (w', 0)).
Proof.
  intros Hw Hu Eid Hi Hx Hd. exists w', fs. split; [done |]. split; [done |]. split; [done |]. split; [done |].
  intros k j. rewrite (delivered_header r (r ++ b) i Hi) by (done || rewrite blen_app; pose proof (blen_nonneg b); lia).
  split; [by left | intros [? | ?]; auto].
Qed.

(** The loop goes on after a header. *)
Lemma progress_next fs w w' r r' s i result : us_stream_id (ww_uni w') = us_stream_id (ww_uni w) ->
  r `prefix_of` r' -> (i = 0%nat \/ blen (stream_to i) <= blen r) ->
  (forall x, xs !! i = Some x -> blen r' <= blen (stream_to i) + blen (frame (oh_bytes x))) ->
  (forall k j, delivered r k j -> byte_received fs k j) ->
  ((forall k j, delivered r' k j -> byte_received fs k j) -> progress fs w' s result) -> progress fs w s result.
Proof.
  intros Eid [t ->] Hi Hx Hd Hp. destruct Hp as (w2 & fs2 & -> & Hw2 & Hu2 & Eid2 & Hfs).
  { intros k j. rewrite (delivered_header r (r ++ t) i Hi); [by apply Hd | | done].
    rewrite blen_app. pose proof (blen_nonneg t). lia. }
  exists w2, fs2. split; [done |]. split; [done |]. split; [done |]. split; [congruence | done].
Qed.

Lemma warp_header_length x : blen (frame h) <= blen (stream_to 0) + blen (frame (oh_bytes x)).
Proof.
  unfold group_stream. cbn [take objects]. rewrite app_nil_r. pose proof (blen_nonneg (frame (oh_bytes x))). lia.
Qed.

(** One turn of the loop, in each of the states. *)
Section turn.
Context (fuel : nat) (next_turns : forall fs w r b, (length b < fuel)%nat -> world_ok fs w ->
  uni_receiving r (ww_uni w) -> arriving r b -> (forall k j, delivered r k j -> byte_received fs k j) ->
  progress fs w (r ++ b) (receive_uni_loop fuel w b)).
Context (fs : list fragment) w (r b : list Z) (fuel_ok : (length b < S fuel)%nat) (some_bytes : b <> []).
Context (w_ok : world_ok fs w) (b_arrives : arriving r b).
Context (received : forall k j, delivered r k j -> byte_received fs k j).

Lemma turn_of_message : us_receive_state (ww_uni w) <> quicrq_receive_object_data ->
  receive_uni_loop (S fuel) w b =
    ('(message, next_bytes, is_finished) ← quicrq_msg_buffer_store b (us_message_buffer (ww_uni w));
     let w := ww_set_uni w (us_set_message (ww_uni w) message) in
     match next_bytes with
     | None => Some (w, -1)
     | Some bytes =>
         if is_finished : bool then
           '(w, ret) ← receive_uni_message w;
           if ret =? 0 then receive_uni_loop fuel w bytes else Some (w, ret)
         else receive_uni_loop fuel w bytes
     end).
Proof. intros Hst. cbn [receive_uni_loop]. rewrite bool_decide_false by done. by destruct b. Qed.

Lemma turn_warp_header rest : us_receive_state (ww_uni w) = quicrq_receive_open -> us_control (ww_uni w) = None ->
  us_current_object_id (ww_uni w) = 0 -> mb_holds (us_message_buffer (ww_uni w)) r -> rest <> [] -> r ++ rest = frame h ->
  progress fs w (r ++ b) (receive_uni_loop (S fuel) w b).
Proof.
  intros Hst Hct Hcur Hmb Hrest Er. pose proof (ar_bytes _ _ b_arrives) as [Hrb Hbb].
  rewrite turn_of_message by by rewrite Hst.
  assert (exists k, (r ++ b) ++ k = frame h ++ objects md g o xs) as (k & Ek).
  { destruct (ar_stream _ _ b_arrives) as (k & Ek). exists k. by rewrite <- Ek. }
  destruct (so_header _ _ _ _ _ _ stream_fine) as [Hh _].
  destruct (store_step _ r b h _ k Hmb Hrb Hbb ltac:(lia) Ek) as (mb & rest' & fin & -> & Hfin).
  cbn [mbind option_bind]. set (w1 := ww_set_uni w _). assert (world_ok fs w1) as Hw1 by by apply world_uni.
  destruct fin.
  - destruct Hfin as (Eab & Hmsg & Hshort).
    destruct (warp_message_received fs w1 Hw1 Hmsg Hst Hct Hcur) as (w2 & -> & Hw2 & Hu2 & Eid).
    cbn [mbind option_bind Z.eqb]. rewrite Eab.
    apply (progress_next fs w w2 r (frame h) _ 0); try done; [by exists rest | by left | | ].
    { intros x _. apply warp_header_length. }
    intros Hd2. apply next_turns; try done; [lia |]. by apply (arriving_next r b); [| | exists rest].
  - destruct Hfin as (-> & Hmb' & rest2 & Hne2 & Er2).
    assert (0 < length b)%nat by (destruct b; cbn; [done | lia]). rewrite loop_end by lia.
    apply (progress_header fs w w1 r b 0); try done; [by apply (receiving_warp _ _ rest2) | by left |].
    intros x _. pose proof (warp_header_length x) as Hl. rewrite <- Er2, blen_app in Hl.
    pose proof (blen_nonneg rest2). lia.
Qed.

Lemma turn_object_header i a :
  us_receive_state (ww_uni w) = (if decide (i = 0%nat) then quicrq_receive_warp_header else quicrq_receive_object_header) ->
  us_control (ww_uni w) = Some sid -> us_current_group_id (ww_uni w) = g ->
  us_current_object_id (ww_uni w) = (if decide (i = 0%nat) then 0 else o + Z.of_nat i) ->
  mb_holds (us_message_buffer (ww_uni w)) a -> (i <= length xs)%nat -> r = stream_to i ++ a ->
  (a = [] \/ exists x rest, xs !! i = Some x /\ rest <> [] /\ a ++ rest = frame (oh_bytes x)) ->
  progress fs w (r ++ b) (receive_uni_loop (S fuel) w b).
Proof.
  intros Hst Hct Hg Hcur Hmb Hi Er Har. pose proof (ar_bytes _ _ b_arrives) as [Hrb Hbb].
  rewrite turn_of_message by (rewrite Hst; by destruct (decide _)).
  destruct (next_object r b i a b_arrives some_bytes Hi Er Har) as (x & k & tail & Hx & Hal & Ek).
  assert (Forall is_byte a) as Hab by (rewrite Er in Hrb; by apply Forall_app in Hrb as [_ ?]).
  pose proof (ho_size _ _ _ _ (header_at i x Hx)) as Hsz.
  destruct (store_step _ a b (oh_bytes x) tail k Hmb Hab Hbb ltac:(lia) Ek) as (mb & rest' & fin & -> & Hfin).
  cbn [mbind option_bind]. set (w1 := ww_set_uni w _). assert (world_ok fs w1) as Hw1 by by apply world_uni.
  assert (i = 0%nat \/ blen (stream_to i) <= blen r) as Hri.
  { right. rewrite Er, blen_app. pose proof (blen_nonneg a). lia. }
  destruct fin.
  - destruct Hfin as (Eab & Hmsg & Hshort).
    destruct (object_message_received fs w1 i x Hw1 Hx Hmsg Hst Hct Hg Hcur) as (w2 & -> & Hw2 & Hu2 & Eid).
    assert (r ++ b = (stream_to i ++ frame (oh_bytes x)) ++ rest') as Erb
      by by rewrite Er, <- !(assoc_L (++)), Eab.
    assert (r `prefix_of` stream_to i ++ frame (oh_bytes x)) as Hpre.
    { apply (prefix_by_length _ _ (r ++ b)); [by eexists | rewrite Erb; by eexists |].
      rewrite Er, !blen_app. lia. }
    cbn [mbind option_bind Z.eqb]. rewrite Erb.
    apply (progress_next fs w w2 r (stream_to i ++ frame (oh_bytes x)) _ i); try done.
    { intros y Hy. rewrite Hx in Hy. injection Hy as <-. by rewrite blen_app. }
    intros Hd2. apply next_turns; try done; [lia |]. by apply (arriving_next r b).
  - destruct Hfin as (-> & Hmb' & rest2 & Hne2 & Er2).
    assert (0 < length b)%nat by (destruct b; cbn; [done | lia]). rewrite loop_end by lia.
    apply (progress_header fs w w1 r b i); try done.
    + apply (receiving_header _ _ i (a ++ b)); try done; [by rewrite Er, <- (assoc_L (++)) |].
      right. by exists x, rest2.
    + intros y Hy. rewrite Hx in Hy. injection Hy as <-. rewrite Er, <- (assoc_L (++)), blen_app, <- Er2, (blen_app (a ++ b)).
      pose proof (blen_nonneg rest2). lia.
Qed.

Lemma turn_object_data i x : let u := ww_uni w in
  us_receive_state u = quicrq_receive_object_data -> us_control u = Some sid -> us_current_group_id u = g ->
  us_current_object_id u = o + Z.of_nat i -> xs !! i = Some x -> us_current_object_length u = blen (object_content i) ->
  us_nb_objects_previous_group u = oh_nb x -> us_current_object_flags u = oh_flags x ->
  mb_holds (us_message_buffer u) [] -> 0 <= us_current_object_offset u < blen (object_content i) ->
  r = stream_to i ++ frame (oh_bytes x) ++ ztake (us_current_object_offset u) (object_content i) ->
  progress fs w (r ++ b) (receive_uni_loop (S fuel) w b).
Proof.
  intros u Hst Hct Hg Hcur Hx Elen Enb Efl Hmb Hoff Er. subst u.
  assert (0 < length b)%nat as Hlen by (destruct b; cbn; [done | lia]).
  destruct (arriving_data r b i x _ b_arrives Hx Hoff Er) as [Hend Hb].
  destruct (receive_data fs w r i x b) as (w2 & E & Hw2 & Hu2 & Eid); try done; [unfold blen; lia | lia |].
  assert (receive_uni_loop (S fuel) w b = Some (w2, 0)) as ->.
  { cbn [receive_uni_loop]. rewrite bool_decide_true, E by done. cbn [mbind option_bind Z.eqb].
    rewrite Z.sub_diag. change (ztake 0 b) with (@nil Z). rewrite loop_end by lia. by destruct b. }
  exists w2. eexists. split; [done |]. split; [exact Hw2 |]. split; [done |]. split; [done |]. intros k j.
  unfold byte_received at 1. rewrite Exists_app, Exists_cons, Exists_nil. fold (byte_received fs k j).
  cbn [data_fragment f_offset f_data_length]. unfold f_key. cbn [data_fragment f_group f_object].
  rewrite Er at 1. rewrite (delivered_data i x _ b k j Hx) by lia. rewrite <- Er.
  specialize (received k j). split; [intros [? | [[<- ?] | []]]; tauto |].
  intros [? | [? | [-> ?]]]; [by left | left; auto | right; left; done].
Qed.
End turn.

Lemma uni_loop fuel : forall fs w r b, (length b < fuel)%nat -> world_ok fs w -> uni_receiving r (ww_uni w) ->
  arriving r b -> (forall k j, delivered r k j -> byte_received fs k j) ->
  progress fs w (r ++ b) (receive_uni_loop fuel w b).
Proof.
  induction fuel as [| fuel IH]; intros fs w r b Hf Hw Hu Ha Hd; [lia |].
  destruct (decide (b = [])) as [-> | Hne].
  { exists w, fs. rewrite app_nil_r. split; [done |]. split; [done |]. split; [done |]. split; [done |].
    intros k j. split; [by left | intros [? | ?]; auto]. }
  destruct Hu as [rest | i a | i x].
  - by apply (turn_warp_header fuel IH fs w r b Hf Hne Hw Ha Hd rest).
  - by apply (turn_object_header fuel IH fs w r b Hf Hne Hw Ha Hd i a).
  - by apply (turn_object_data fuel fs w r b Hf Hne Hw Ha Hd i x).
Qed.

(** A delivery, that may end the stream once its warp header is complete. *)
Lemma receive_delivery fs w r b is_fin : world_ok fs w -> uni_receiving r (ww_uni w) -> arriving r b ->
  (forall k j, delivered r k j -> byte_received fs k j) ->
  (is_fin = true -> frame h `prefix_of` r ++ b) ->
  exists w' fs', quicrq_receive_warp_or_rush_stream_data w b is_fin = Some (w', 0) /\
    (exists ct x log, ww_controls w' = l1 ++ ct :: l2 /\ receiving_control ct x /\ consuming_ok md fs' x log) /\
    ww_deleted w' = is_fin /\ uni_receiving (r ++ b) (ww_uni w') /\
    us_stream_id (ww_uni w') = us_stream_id (ww_uni w) /\
    forall k j, byte_received fs' k j <-> byte_received fs k j \/ delivered (r ++ b) k j.
Proof.
  intros Hw Hu Ha Hd Hfin. unfold quicrq_receive_warp_or_rush_stream_data.
  destruct (uni_loop (S (length b)) fs w r b ltac:(lia) Hw Hu Ha Hd)
    as (w1 & fs1 & -> & Hw1 & Hu1 & Eid & Hfs). cbn [mbind option_bind].
  pose proof Hw1 as [(ct & x & log & Ect & Hct & Hok) Hdel]. destruct is_fin; cycle 1.
  { exists w1, fs1. split; [done |]. split; [by exists ct, x, log | done]. }
  assert (us_control (ww_uni w1) = Some sid) as Eu.
  { destruct Hu1 as [rest _ _ _ _ Hne Er | i a _ ? _ _ _ _ _ _ | i y _ ? _ _ _ _ _ _ _ _ _]; [| done | done].
    exfalso. specialize (Hfin eq_refl). apply prefix_length in Hfin. rewrite <- Er, length_app in Hfin.
    destruct rest; [done | cbn in Hfin; lia]. }
  unfold control_of. rewrite Eu. cbn [mbind option_bind]. rewrite Ect, find_control by apply Hct.
  cbn [mbind option_bind]. eexists _, fs1. split; [reflexivity |]. split; [by exists ct, x, log | done].
Qed.
End receiver.
