(* ===== verification/WarpDelivery.v ===== *)
(** * A connection that receives streams of the warp and rush modes

    The deliveries of the transport on several streams, in any interleaving,
    and what the consumer of the media has received after them. *)

From S2P Require Import Prelude Picosplay PicoFrames Media Proto Reassembly ReassemblyDelivery.
From S2P Require Import ReassemblySafety Fragment PublisherContext Publisher Ack.
From S2P Require Import DatagramPublisher MsgBuffer MsgBufferTheorems StreamContext Warp WarpStream WarpWakeup WarpSender.
From S2P Require Import ControlStream Connection ObjectConsumer ObjectConsumerTheorems EndToEnd DatagramTheorems WarpReceive.

(** ** The streams and their deliveries *)

(** The stream [wi_id] carries the group [wi_group] from the object [wi_object]
    on. *)
Record wire := {
  wi_id : Z;
  wi_group : Z;
  wi_object : Z;
  wi_header : list Z;
  wi_objects : list object_header;
}.
Definition wire_stream (md : media) (x : wire) : list Z :=
  group_stream md (wi_group x) (wi_object x) (wi_header x) (wi_objects x).

Record delivery := {
  de_id : Z;
  de_bytes : list Z;
  de_fin : bool;
}.

(** What was received on a stream, and whether it is ended. *)
Definition received_on (id : Z) (ds : list delivery) : list Z :=
  flat_map (fun d => if de_id d =? id then de_bytes d else []) ds.
Definition ended_on (id : Z) (ds : list delivery) : bool :=
  existsb (fun d => (de_id d =? id) && de_fin d) ds.

(** The transport delivers the bytes of a stream in order, and never those of
    an object with what follows it; a stream that ends has its warp header. *)
Record delivery_ok (md : media) (xs : list wire) (ds : list delivery) (d : delivery) (x : wire) : Prop := {
  dv_wire : x ∈ xs /\ wi_id x = de_id d;
  dv_prefix : received_on (de_id d) ds ++ de_bytes d `prefix_of` wire_stream md x;
  dv_cut : cut_at_objects md (wi_group x) (wi_object x) (wi_header x) (wi_objects x)
             (received_on (de_id d) ds) (de_bytes d);
  dv_open : ended_on (de_id d) ds = false;
  dv_fin : de_fin d = true -> frame (wi_header x) `prefix_of` received_on (de_id d) ds ++ de_bytes d;
  dv_bytes : Forall is_byte (de_bytes d);
}.
Inductive deliveries (md : media) (xs : list wire) : list delivery -> Prop :=
  | deliveries_nil : deliveries md xs []
  | deliveries_snoc ds d x : deliveries md xs ds -> delivery_ok md xs ds d x -> deliveries md xs (ds ++ [d]).

Record wire_ok `{PF : PicoFrames} (md : media) (mid : Z) (mode : quicrq_transport_mode_enum) (x : wire) : Prop := {
  wo_stream : stream_ok md mid (wi_group x) (wi_object x) (wi_header x) (wi_objects x);
  wo_warp : mode = quicrq_transport_mode_warp -> wi_object x = 0;
  wo_rush : mode = quicrq_transport_mode_rush -> (length (wi_objects x) <= 1)%nat;
  wo_uni : Z.land (wi_id x) 2 <> 0;
}.

(** Byte [j] of object [k] was delivered, and the whole object. *)
Definition wire_byte (md : media) (ds : list delivery) (x : wire) (k : Z * Z) (j : Z) : Prop :=
  byte_delivered md (wi_group x) (wi_object x) (wi_header x) (wi_objects x) (received_on (wi_id x) ds) k j.
Definition wire_object (md : media) (ds : list delivery) (x : wire) (k : Z * Z) : Prop :=
  object_delivered md (wi_group x) (wi_object x) (wi_header x) (wi_objects x) (received_on (wi_id x) ds) k.

Lemma find_app {B} (p : B -> bool) l k : List.find p (l ++ k) =
  match List.find p l with Some x => Some x | None => List.find p k end.
Proof. induction l as [| x l IH]; cbn; [done |]. by destruct (p x). Qed.

Lemma received_on_snoc id ds d : received_on id (ds ++ [d]) =
  received_on id ds ++ if de_id d =? id then de_bytes d else [].
Proof. unfold received_on. rewrite flat_map_app. cbn. by rewrite app_nil_r. Qed.

Lemma ended_on_snoc id ds d : ended_on id (ds ++ [d]) = ended_on id ds || ((de_id d =? id) && de_fin d).
Proof. unfold ended_on. rewrite existsb_app. cbn. by rewrite orb_false_r. Qed.

Lemma received_bytes md xs ds id : deliveries md xs ds -> Forall is_byte (received_on id ds).
Proof.
  induction 1 as [| ds d x _ IH Hd]; [done |]. rewrite received_on_snoc. apply Forall_app. split; [done |].
  destruct (_ =? _); [apply Hd | done].
Qed.

Lemma received_prefix md xs ds x : deliveries md xs ds -> x ∈ xs -> NoDup (map wi_id xs) ->
  received_on (wi_id x) ds `prefix_of` wire_stream md x.
Proof.
  intros Hds Hx Hnd. induction Hds as [| ds d y _ IH [[Hy Ey] Hp _ _ _ _]]; [apply prefix_nil |].
  rewrite received_on_snoc. destruct (Z.eqb_spec (de_id d) (wi_id x)) as [E |]; [| by rewrite app_nil_r].
  assert (x = y) as ->; [| by rewrite Ey].
  apply (NoDup_map_inj _ _ x y Hnd Hx Hy). congruence.
Qed.

(** ** The connection *)

Section receiver.
Context {Sp : Splay quicrq_cached_fragment_t quicrq_fragment_cache_node_compare}.
Context {So : Splay okey quicrq_fragment_publisher_object_node_compare}.
Context {Sa : Splay akey quicrq_datagram_ack_node_compare}.
Context `{SR : SplayLaws (Z * Z) quicrq_object_node_compare}.
Context {Al : Allocator} {PF : PicoFrames} {PI : PicoStreamIds}.
Context {A : Type} (fn : A -> object_call -> A * Z) (now : Z).
Abbreviation bridge := (quicrq_object_stream_consumer_ctx (App := A * list object_call)).
Abbreviation receiver := (connection (So := So) (CS := option bridge)).
#[local] Instance connection_bridge : Consumer (option bridge) := receiving_bridge fn now.
Implicit Types n : receiver.

(** The deliveries of the transport, until one is refused. *)
Context (default_source_fn : option (quicrq_ctx_t -> list Z -> quicrq_ctx_t * Z)).
Context (consumer_media_init_fn : option (list Z -> option (option bridge) * Z)).
Context (manage_relay_subscribe_fn : option (quicrq_ctx_t -> list Z -> quicrq_ctx_t)).

Fixpoint receive_deliveries (qr : quicrq_ctx_t) n (ds : list delivery) : option (quicrq_ctx_t * receiver * Z) :=
  match ds with
  | [] => Some (qr, n, 0)
  | d :: ds =>
      '(qr, n, ret) ← receive_stream_event default_source_fn consumer_media_init_fn manage_relay_subscribe_fn
                        qr n (de_id d) (de_bytes d) (de_fin d);
      if ret =? 0 then receive_deliveries qr n ds else Some (qr, n, ret)
  end.

Lemma receive_deliveries_snoc qr n ds d qr1 n1 : receive_deliveries qr n ds = Some (qr1, n1, 0) ->
  receive_deliveries qr n (ds ++ [d]) = receive_deliveries qr1 n1 [d].
Proof.
  revert qr n. induction ds as [| e ds IH]; intros qr n; cbn [app receive_deliveries]; [by intros [= <- <-] |].
  destruct (receive_stream_event _ _ _ _ _ _ _ _) as [[[qr2 n2] ret] |]; [| done]. cbn [mbind option_bind].
  destruct (Z.eqb_spec ret 0) as [-> | Hr]; [apply IH |]. intros [= _ _ ->]. done.
Qed.

Context (alloc_ok : forall z, malloc_ok z = true) (fn_ok : forall a c, (fn a c).2 = 0).
Context (md : media) (nonempty : forall k, 0 < blen (content md k)).
Context (mid sid : Z) (mode : quicrq_transport_mode_enum).
Context (xs : list wire) (xs_ok : Forall (wire_ok md mid mode) xs) (xs_ids : NoDup (map wi_id xs)).

(** The control stream of the media, the first with its identifier, has the
    consumer [b]. *)
Record warp_receives n (b : bridge) : Prop := {
  wv_stream : exists before k after, n_streams n = before ++ k :: after /\
    Forall (fun y => st_media_id (k_stream y) <> mid) before /\ st_media_id (k_stream k) = mid /\
    k_id k = sid /\ st_transport_mode (k_stream k) = mode /\ k_media k = consuming (Some b);
  wv_ids : NoDup (map k_id (n_streams n));
  wv_uni : NoDup (ids (cx_uni_streams (n_cnx n)));
}.

Abbreviation receiving x r u :=
  (uni_receiving md sid (wi_group x) (wi_object x) (wi_header x) (wi_objects x) r u).

(** Each stream has a context while it is not ended. *)
Definition wire_state (ds : list delivery) n (x : wire) : Prop :=
  match uni_of n (wi_id x) with
  | Some u => ended_on (wi_id x) ds = false /\ receiving x (received_on (wi_id x) ds) u
  | None => ended_on (wi_id x) ds = true \/ received_on (wi_id x) ds = []
  end.

Record receiving_streams ds fs n b log : Prop := {
  rs_connection : warp_receives n b;
  rs_consumer : consuming_ok md fs b log;
  rs_wires : Forall (wire_state ds n) xs;
  rs_received : forall k j, byte_received fs k j <-> exists x, x ∈ xs /\ wire_byte md ds x k j;
}.

(** A stream that begins. *)
Lemma fresh_receiving x id : receiving x [] (uni_stream_zero id None).
Proof. by apply (receiving_warp _ _ _ _ _ _ _ _ (frame (wi_header x))). Qed.

Lemma uni_of_id n id u : uni_of n id = Some u -> us_stream_id u = id.
Proof. unfold uni_of. intros E. apply List.find_some in E as [_ E]. by apply Z.eqb_eq in E. Qed.

(** The context of the stream is found, or created. *)
Lemma stream_found ds n x : wire_state ds n x -> ended_on (wi_id x) ds = false ->
  NoDup (ids (cx_uni_streams (n_cnx n))) ->
  exists us u, quicrq_find_or_create_uni_stream (wi_id x) (cx_uni_streams (n_cnx n)) None true = Some us /\
    List.find (has_id (wi_id x)) us = Some u /\ receiving x (received_on (wi_id x) ds) u /\ NoDup (ids us) /\
    forall id, id <> wi_id x -> List.find (has_id id) us = uni_of n id.
Proof.
  unfold wire_state, uni_of. set (us := cx_uni_streams (n_cnx n)). intros Hx Hopen Hnd.
  unfold quicrq_find_or_create_uni_stream, quicrq_create_uni_stream_context. rewrite alloc_ok.
  destruct (List.find (has_id (wi_id x)) us) as [u |] eqn:E.
  - destruct Hx as [_ Hu]. pose proof (List.find_some _ _ E) as [Hin Hid].
    assert (existsb (has_id (wi_id x)) us = true) as -> by (apply existsb_exists; by exists u).
    by exists us, u.
  - destruct Hx as [? | Hr]; [congruence |]. pose proof (List.find_none _ _ E) as Hno.
    assert (existsb (has_id (wi_id x)) us = false) as ->.
    { apply not_true_iff_false. intros (u & Hu & Hid)%existsb_exists. by rewrite Hno in Hid. }
    assert (wi_id x ∉ ids us) as Hnin.
    { intros (u & Hu%list_elem_of_In & Eu)%elem_map. specialize (Hno u Hu). unfold has_id in Hno.
      by rewrite Eu, Z.eqb_refl in Hno. }
    exists (us ++ [uni_stream_zero (wi_id x) None]), (uni_stream_zero (wi_id x) None).
    split; [done |]. split.
    { rewrite find_app. rewrite E. cbn. unfold has_id. cbn. by rewrite Z.eqb_refl. }
    rewrite Hr. split; [apply fresh_receiving |]. split.
    { rewrite ids_app. apply NoDup_app. split; [done |]. split; [| apply NoDup_singleton].
      intros i Hi ->%list_elem_of_singleton. done. }
    intros id Hne. rewrite find_app. destruct (List.find (has_id id) us); [done |]. cbn. unfold has_id. cbn.
    by rewrite (proj2 (Z.eqb_neq _ _)) by congruence.
Qed.

(** The contexts after a delivery, or after the last one. *)
Lemma find_after (us : list quicrq_uni_stream_ctx_t) x u u' (is_fin : bool) :
  NoDup (ids us) -> List.find (has_id (wi_id x)) us = Some u -> us_stream_id u' = us_stream_id u ->
  let us' := if is_fin then List.filter (fun v => negb (has_id (wi_id x) v)) us
             else update_uni (wi_id x) (fun _ => u') us in
  NoDup (ids us') /\ List.find (has_id (wi_id x)) us' = (if is_fin then None else Some u') /\
  forall id, id <> wi_id x -> List.find (has_id id) us' = List.find (has_id id) us.
Proof.
  intros Hnd Hf Eid. destruct (find_uni (wi_id x) us u Hnd Hf) as (m1 & m2 & -> & Eu & Hup & Hfi).
  rewrite Hup, Hfi. rewrite ids_app in Hnd. cbn in Hnd.
  assert (forall v, v ∈ m1 ++ m2 -> us_stream_id v <> wi_id x) as Hother.
  { intros v Hv E. rewrite <- Permutation_middle in Hnd. apply NoDup_cons in Hnd as [Hn _]. apply Hn.
    rewrite Eu, <- E, <- ids_app. by apply map_elem. }
  assert (forall m, (forall v, v ∈ m -> us_stream_id v <> wi_id x) -> List.find (has_id (wi_id x)) m = None) as Hnone.
  { induction m as [| v m IH]; intros Hm; cbn; [done |]. unfold has_id.
    rewrite (proj2 (Z.eqb_neq _ _)) by (apply Hm; by left). apply IH. intros y Hy. apply Hm. by right. }
  destruct is_fin; cbv zeta.
  - split; [| split].
    + rewrite ids_app. rewrite <- Permutation_middle in Hnd. by apply NoDup_cons in Hnd as [_ ?].
    + by apply Hnone.
    + intros id Hne. rewrite !find_app. destruct (List.find (has_id id) m1); [done |]. cbn. unfold has_id at 2.
      by rewrite Eu, (proj2 (Z.eqb_neq _ _)) by congruence.
  - split; [| split].
    + rewrite ids_app. cbn. by rewrite Eid.
    + rewrite find_app, (Hnone m1) by (intros v Hv; apply Hother, elem_of_app; by left). cbn. unfold has_id.
      by rewrite Eid, Eu, Z.eqb_refl.
    + intros id Hne. rewrite !find_app. destruct (List.find (has_id id) m1); [done |]. cbn. unfold has_id.
      by rewrite Eid, Eu, (proj2 (Z.eqb_neq _ _)) by congruence.
Qed.

Lemma other_state ds n n' d x : wire_state ds n x -> de_id d <> wi_id x ->
  uni_of n' (wi_id x) = uni_of n (wi_id x) -> wire_state (ds ++ [d]) n' x.
Proof.
  unfold wire_state. intros Hx Hne ->. rewrite ended_on_snoc, received_on_snoc, (proj2 (Z.eqb_neq _ _)) by done.
  cbn [andb]. by rewrite orb_false_r, app_nil_r.
Qed.

(** The control streams are given back. *)
Lemma put_consumers before k after (ct : control_stream (option bridge)) :
  zip_with (put_consumer (So := So)) (before ++ k :: after)
    (map consumer_view before ++ ct :: map consumer_view after) = before ++ put_consumer k ct :: after.
Proof.
  assert (forall l : list (control (So := So) (CS := option bridge)), zip_with put_consumer l (map consumer_view l) = l) as Hid.
  { induction l as [| y l IH]; cbn; [done |]. rewrite IH. f_equal.
    destruct y as [s [| |] src nt ak]; done. }
  rewrite zip_with_app by by rewrite length_map. cbn [zip_with]. by rewrite !Hid.
Qed.

(** The bytes of the consumer after a delivery. *)
Lemma received_after ds fs fs' d x : x ∈ xs -> wi_id x = de_id d ->
  (forall k j, byte_received fs k j <-> exists y, y ∈ xs /\ wire_byte md ds y k j) ->
  (forall k j, byte_received fs' k j <-> byte_received fs k j \/
     byte_delivered md (wi_group x) (wi_object x) (wi_header x) (wi_objects x)
       (received_on (wi_id x) ds ++ de_bytes d) k j) ->
  forall k j, byte_received fs' k j <-> exists y, y ∈ xs /\ wire_byte md (ds ++ [d]) y k j.
Proof.
  intros Hx Ex Hfs Hfs' k j. rewrite Hfs', Hfs. unfold wire_byte.
  assert (received_on (wi_id x) (ds ++ [d]) = received_on (wi_id x) ds ++ de_bytes d) as Er.
  { rewrite received_on_snoc, (proj2 (Z.eqb_eq _ _)) by done. done. }
  split.
  - intros [(y & Hy & Hb) | Hb].
    + exists y. split; [done |]. rewrite received_on_snoc. by apply delivered_more.
    + exists x. split; [done |]. by rewrite Er.
  - intros (y & Hy & Hb). destruct (Z.eq_dec (wi_id y) (wi_id x)) as [E | Hne].
    + assert (y = x) as -> by by apply (NoDup_map_inj wi_id xs). right. by rewrite <- Er.
    + left. exists y. split; [done |]. rewrite received_on_snoc, (proj2 (Z.eqb_neq _ _)), app_nil_r in Hb by congruence.
      done.
Qed.

Abbreviation event := (receive_stream_event default_source_fn consumer_media_init_fn manage_relay_subscribe_fn).

Lemma receive_one_delivery qr ds fs n b log d x : receiving_streams ds fs n b log ->
  delivery_ok md xs ds d x -> Forall is_byte (received_on (de_id d) ds) ->
  exists n' fs' b' log', event qr n (de_id d) (de_bytes d) (de_fin d) = Some (qr, n', 0) /\
    receiving_streams (ds ++ [d]) fs' n' b' log'.
Proof.
  intros [[(before & k & after & En & Hb & Hm & Hid & Hmode & Hk) Hids Huni] Hok Hw Hfs]
    [[Hx Ex] Hpre Hcut Hopen Hfin Hbytes] Hrb. rewrite <- Ex in *.
  pose proof (proj1 (Forall_forall _ _) xs_ok x Hx) as [Hst Hwarp Hrush Hland].
  pose proof (proj1 (Forall_forall _ _) Hw x Hx) as Hwx.
  unfold receive_stream_event. rewrite (proj2 (Z.eqb_neq _ _)) by done.
  destruct (stream_found ds n x Hwx Hopen Huni) as (us & u & -> & Hf & Hu & Hnd & Hother).
  unfold uni_of at 1. cbn [n_set_cnx n_cnx cx_set_uni cx_uni_streams]. rewrite Hf. cbn [mbind option_bind].
  unfold receive_on_unistream. cbn [n_set_cnx n_streams]. rewrite En, map_app. cbn [map].
  set (w := {| ww_controls := _ |}).
  assert (world_ok md mid sid mode (map consumer_view before) (map consumer_view after) fs w) as Hworld.
  { split; [| done]. exists (consumer_view k), b, log. split; [done |]. split; [| done].
    split; cbn; try done. by rewrite Hk. }
  assert (Forall (fun y => st_media_id (ct_stream y) <> mid) (map consumer_view before)) as Hb'
    by by rewrite Forall_map.
  assert (Forall (fun y => st_stream_id (ct_stream y) <> sid) (map consumer_view before ++ map consumer_view after)) as Hids'.
  { rewrite En in Hids. rewrite <- map_app, Forall_map. apply Forall_forall. intros y Hy E.
    rewrite map_app in Hids. cbn in Hids. rewrite <- Permutation_middle in Hids.
    apply NoDup_cons in Hids as [Hn _]. apply Hn. rewrite <- map_app, Hid, <- E.
    by apply (map_elem k_id). }
  destruct (receive_delivery fn now alloc_ok fn_ok md nonempty mid sid mode _ _ Hb' Hids'
    (wi_group x) (wi_object x) (wi_header x) (wi_objects x) Hst Hwarp Hrush fs w
    (received_on (wi_id x) ds) (de_bytes d) (de_fin d) Hworld Hu)
    as (w' & fs' & E & (ct & b' & log' & Ect & [Cm Ci Cmo Cc] & Hok') & Hdel & Hu' & Eid & Hfs'); [by split | | done |].
  { intros q j Hq. apply Hfs. by exists x. }
  unfold connection_bridge. rewrite E. cbn [mbind option_bind]. rewrite Ect, put_consumers.
  destruct (find_after us x u (ww_uni w') (ww_deleted w') Hnd Hf Eid) as (Hnd' & Hf' & Hother').
  assert (us_stream_id u = wi_id x) as Eu by (apply List.find_some in Hf as [_ Hf]; by apply Z.eqb_eq in Hf).
  eexists _, fs', b', log'. split; [reflexivity |].
  match goal with |- receiving_streams _ _ ?c _ _ => set (n' := c) end.
  assert (cx_uni_streams (n_cnx n') = if ww_deleted w'
    then List.filter (fun v => negb (has_id (wi_id x) v)) us
    else update_uni (wi_id x) (fun _ => ww_uni w') us) as Eus.
  { subst n'. unfold n_call, put_uni. cbn. by rewrite Eu. }
  split; [split | done | |].
  - exists before, (put_consumer k ct), after. split; [done |]. split; [done |]. unfold k_id, put_consumer. cbn.
    rewrite Cc. split_and!; done.
  - change (n_streams n') with (before ++ put_consumer k ct :: after). rewrite En in Hids.
    rewrite map_app in Hids |- *. cbn in Hids |- *. unfold k_id at 2, put_consumer. cbn. rewrite Ci, <- Hid. done.
  - by rewrite Eus.
  - apply Forall_forall. intros y Hy. destruct (Z.eq_dec (wi_id y) (wi_id x)) as [Eyx | Hne].
    + assert (y = x) as -> by by apply (NoDup_map_inj wi_id xs). unfold wire_state, uni_of. rewrite Eus, Hf'.
      rewrite ended_on_snoc, received_on_snoc, <- Ex, Z.eqb_refl, Hopen. cbn [andb orb]. rewrite Hdel.
      destruct (de_fin d); [by left | done].
    + apply (other_state ds n); [by apply (proj1 (Forall_forall _ _) Hw) | congruence |].
      unfold uni_of. rewrite Eus, Hother' by done. by apply Hother.
  - by apply (received_after ds fs fs' d x).
Qed.

Lemma receive_all_deliveries qr n b log ds : receiving_streams [] [] n b log -> deliveries md xs ds ->
  exists n' fs' b' log', receive_deliveries qr n ds = Some (qr, n', 0) /\ receiving_streams ds fs' n' b' log'.
Proof.
  intros Hn. induction 1 as [| ds d x Hds (n1 & fs1 & b1 & log1 & E1 & Hn1) Hd]; [by exists n, [], b, log |].
  destruct (receive_one_delivery qr ds fs1 n1 b1 log1 d x Hn1 Hd (received_bytes md xs ds _ Hds))
    as (n2 & fs2 & b2 & log2 & E2 & Hn2).
  exists n2, fs2, b2, log2. split; [| done]. rewrite (receive_deliveries_snoc qr n ds d qr n1 E1).
  cbn [receive_deliveries]. by rewrite E2.
Qed.
End receiver.
