(* ===== verification/WarpTheorems.v ===== *)
(** * A media in the warp and rush modes, from the sender to the application

    What a sender writes on its unidirectional streams in any interleaving of
    arrivals, wake-ups and polls (WarpSender.v), and what the application of a
    receiver is given when the transport delivers some of these bytes
    (WarpDelivery.v). *)

From S2P Require Import Prelude Picosplay PicoFrames Media Proto Reassembly ReassemblyDelivery.
From S2P Require Import ReassemblySafety Fragment FragmentProofs FragmentReads FragmentHistory.
From S2P Require Import PublisherContext Congestion Publisher Ack AckTheorems.
From S2P Require Import DatagramPublisher MsgBuffer MsgBufferTheorems StreamContext Warp.
From S2P Require Import WarpStream WarpProofs WarpWakeup WarpSender.
From S2P Require Import ControlStream Connection ObjectConsumer ObjectConsumerTheorems EndToEnd DatagramTheorems.
From S2P Require Import WarpReceive WarpDelivery.

(** ** The streams that are sent *)

(** The objects of a group come one after the other in the media. *)
Lemma media_from_back md g o n : media_from md (0, 0) n = (g, o) ->
  forall o', 0 <= o' < o -> exists i, (i < n)%nat /\ media_from md (0, 0) i = (g, o').
Proof.
  revert o. induction n as [| n IH]; intros o; [intros [= <- <-]; lia |].
  rewrite media_from_S. unfold media_next. destruct (media_from md (0, 0) n) as [g' p] eqn:E. cbn [fst snd].
  destruct (_ <? _); intros [= <- <-] o' Ho'; [| lia].
  destruct (Z.eq_dec o' p) as [-> |]; [exists n; split; [lia | done] |].
  destruct (IH p eq_refl o') as (i & Hi & Ei); [lia |]. exists i. split; [lia | done].
Qed.

Section sent.
Context `{SL : SplayLaws quicrq_cached_fragment_t quicrq_fragment_cache_node_compare}.
Context {So : Splay okey quicrq_fragment_publisher_object_node_compare} {PF : PicoFrames}.
Context (md : media) (mid : Z).
Implicit Types (w : warp_sender) (u : quicrq_uni_stream_ctx_t) (x : wire).

(** The streams of a sender, open or ended. *)
Definition all_streams w : list quicrq_uni_stream_ctx_t := wp_streams w ++ wp_closed w.

(** The stream of a group that begins with what was written. *)
Definition wire_begins w x u : Prop :=
  wi_id x = us_stream_id u /\ wi_group x = us_current_group_id u /\
  written w u `prefix_of` wire_stream md x.

(** The streams of the groups that the sender has begun to write. *)
Record sender_wires w (xs : list wire) : Prop := {
  sw_ids : NoDup (map wi_id xs);
  sw_wires : Forall (wire_ok md mid (st_transport_mode (wp_control w))) xs;
  sw_streams : forall u, u ∈ all_streams w -> written w u <> [] -> exists x, x ∈ xs /\ wire_begins w x u;
  sw_senders : forall x, x ∈ xs -> exists u, u ∈ all_streams w /\ wire_begins w x u;
}.

Lemma wires_of_streams w (us : list quicrq_uni_stream_ctx_t) :
  (forall u, u ∈ us -> written w u = [] \/
     exists x, wire_ok md mid (st_transport_mode (wp_control w)) x /\ wire_begins w x u) ->
  exists xs, map wi_id xs `sublist_of` ids us /\
    Forall (wire_ok md mid (st_transport_mode (wp_control w))) xs /\
    (forall u, u ∈ us -> written w u <> [] -> exists x, x ∈ xs /\ wire_begins w x u) /\
    (forall x, x ∈ xs -> exists u, u ∈ us /\ wire_begins w x u).
Proof.
  induction us as [| u us IH]; intros Hus.
  { exists []. split; [done |]. split; [done |]. by split; intros x Hx; apply not_elem_of_nil in Hx. }
  destruct IH as (xs & Hsub & Hok & Hfor & Hback); [intros v Hv; apply Hus; by right |].
  destruct (Hus u (list_elem_of_here _ _)) as [Hnil | (x & Hx & Hb)].
  - exists xs. split; [by apply sublist_cons |]. split; [done |]. split.
    + intros v [-> | Hv]%elem_of_cons Hne; [done | by apply Hfor].
    + intros x Hx. destruct (Hback x Hx) as (v & Hv & ?). exists v. split; [by right | done].
  - exists (x :: xs). split.
    { cbn. destruct Hb as [-> _]. by apply sublist_skip. }
    split; [by constructor |]. split.
    + intros v [-> | Hv]%elem_of_cons Hne; [exists x; split; [by left | done] |].
      destruct (Hfor v Hv Hne) as (y & Hy & ?). exists y. split; [by right | done].
    + intros y [-> | Hy]%elem_of_cons; [exists u; split; [by left | done] |].
      destruct (Hback y Hy) as (v & Hv & ?). exists v. split; [by right | done].
Qed.

(** What an open or an ended stream carries. *)
Lemma stream_carries fs finals w u : warp_sending md mid fs finals w -> u ∈ all_streams w ->
  written w u = [] \/ exists o h xs, starts_at w o /\
    carries_group md mid (one_object w) (written w u) (us_current_group_id u) o h xs.
Proof.
  intros Hw [Hu | Hu]%elem_of_app.
  - destruct (ws_streams _ _ _ _ _ Hw u Hu) as (o & Ho & Hs).
    destruct (sending_carries _ _ _ _ _ _ _ _ Hs) as [? | (h & xs & Hc)]; [by left | right]. by exists o, h, xs.
  - destruct (ws_closed _ _ _ _ _ Hw u Hu) as (o & Ho & h & xs & last & Hc & _). right. by exists o, h, xs.
Qed.

Lemma sender_has_wires fs finals w : warp_sending md mid fs finals w -> exists xs, sender_wires w xs.
Proof.
  intros Hw. destruct (wires_of_streams w (all_streams w)) as (xs & Hsub & Hok & Hfor & Hback).
  - intros u Hu. destruct (stream_carries fs finals w u Hw Hu) as [? | (o & h & hs & Ho & Hst & Hp & Hone)]; [by left | right].
    exists {| wi_id := us_stream_id u; wi_group := us_current_group_id u; wi_object := o; wi_header := h; wi_objects := hs |}.
    split; [| done]. split; cbn; [done | exact Ho | |].
    + intros Hr. apply Hone. unfold one_object. by rewrite Hr.
    + pose proof (ws_uni _ _ _ _ _ Hw) as Huni. rewrite Forall_forall in Huni. apply Huni.
      by apply (map_elem us_stream_id).
  - exists xs. split; try done. eapply sublist_NoDup; [apply (ws_ids _ _ _ _ _ Hw) | exact Hsub].
Qed.
End sent.

(** ** Where a stream stops *)

Section stops.
Context {PF : PicoFrames} (md : media) (nonempty : forall k, 0 < blen (content md k)) (mid : Z).
Implicit Types (ws h m : list Z) (xs : list object_header).

(** The objects of the group before the object [cur] are written, and not all
    of that one. *)
Inductive stops_at ws (g cur : Z) : Prop :=
  | stops_open : ws = [] -> cur = 0 -> stops_at ws g cur
  | stops_between h xs : stream_ok md mid g 0 h xs -> cur = Z.of_nat (length xs) ->
      ws = group_stream md g 0 h xs -> stops_at ws g cur
  | stops_data h xs m off : stream_ok md mid g 0 h xs -> cur = Z.of_nat (length xs) -> blen m < 65536 ->
      0 <= off < blen (content md (g, cur)) ->
      ws = group_stream md g 0 h xs ++ frame m ++ ztake off (content md (g, cur)) -> stops_at ws g cur.

Lemma stops_stream ws g cur h xs : stops_at ws g cur -> stream_ok md mid g 0 h xs ->
  ws `prefix_of` group_stream md g 0 h xs -> ws = [] /\ cur = 0 \/
  exists i t, cur = Z.of_nat i /\ (i <= length xs)%nat /\ ws = group_stream md g 0 h (take i xs) ++ t /\
    (t = [] \/ exists m off, blen m < 65536 /\ 0 <= off < blen (content md (g, cur)) /\
       t = frame m ++ ztake off (content md (g, cur))) /\
    t `prefix_of` objects md g cur (drop i xs).
Proof.
  intros Hs Hok Hp. destruct Hs as [-> -> | h0 xs0 Hok0 Ecur -> | h0 xs0 m off Hok0 Ecur Hm Hoff ->]; [by left | right ..].
  - rewrite <- (app_nil_r (group_stream md g 0 h0 xs0)) in Hp.
    destruct (stream_agree md mid g 0 h0 xs0 h xs [] Hok0 Hok Hp) as (Hl & Ht & Hd).
    exists (length xs0), []. split; [done |]. split; [done |]. rewrite Ht by lia. rewrite firstn_all, app_nil_r.
    split; [done |]. split; [by left | apply prefix_nil].
  - destruct (stream_agree md mid g 0 h0 xs0 h xs _ Hok0 Hok Hp) as (Hl & Ht & Hd).
    exists (length xs0), (frame m ++ ztake off (content md (g, cur))). split; [done |]. split; [done |].
    rewrite Ht by lia. rewrite firstn_all. split; [done |]. split; [right; by exists m, off |].
    by rewrite Z.add_0_l, <- Ecur in Hd.
Qed.

Lemma stops_nothing ws g cur : stops_at ws g cur -> ws = [] -> ~ 0 < cur.
Proof.
  intros [_ -> | h xs _ _ -> | h xs m off _ _ _ _ ->] E; [lia | exfalso ..]; apply (f_equal blen) in E;
    unfold group_stream in E; rewrite !blen_app, frame_length in E; change (blen (@nil Z)) with 0 in E;
    pose proof (blen_nonneg h).
  - pose proof (blen_nonneg (objects md g 0 xs)). lia.
  - pose proof (blen_nonneg (objects md g 0 xs)). pose proof (blen_nonneg (frame m)).
    pose proof (blen_nonneg (ztake off (content md (g, cur)))). rewrite frame_length in *. lia.
Qed.

(** The objects before it are delivered with what was written. *)
Lemma stops_delivered ws g cur h xs o : stops_at ws g cur -> stream_ok md mid g 0 h xs ->
  ws `prefix_of` group_stream md g 0 h xs -> 0 <= o < cur ->
  forall j, 0 <= j < blen (content md (g, o)) -> byte_delivered md g 0 h xs ws (g, o) j.
Proof.
  intros Hs Hok Hp Ho. apply (delivered_object md g 0 h xs ws (g, o) Hp (nonempty _)).
  destruct (stops_stream ws g cur h xs Hs Hok Hp) as [[_ ->] | (i & t & -> & Hi & -> & _)]; [lia |].
  exists (Z.to_nat o). split; [lia |]. split; [f_equal; lia |].
  destruct (group_take_all md g 0 h (take i xs) (S (Z.to_nat o))) as (rest & E).
  rewrite take_take, Nat.min_l in E by lia. rewrite E, <- (assoc_L (++)). by eexists.
Qed.

(** A byte of that object is not. *)
Lemma stops_missing ws g cur h xs : stops_at ws g cur -> stream_ok md mid g 0 h xs ->
  ws `prefix_of` group_stream md g 0 h xs ->
  exists j, 0 <= j < blen (content md (g, cur)) /\ ~ byte_delivered md g 0 h xs ws (g, cur) j.
Proof.
  intros Hs Hok Hp. pose proof (nonempty (g, cur)) as Hne.
  destruct (stops_stream ws g cur h xs Hs Hok Hp) as [[-> ->] | (i & t & -> & Hi & -> & Ht & Hd)].
  { exists 0. split; [done |]. intros (i & x & _ & _ & _ & Hlt). change (blen (@nil Z)) with 0 in Hlt.
    pose proof (blen_nonneg (group_stream md g 0 h (take i xs))). pose proof (blen_nonneg (frame (oh_bytes x))). lia. }
  assert (exists off, 0 <= off < blen (content md (g, Z.of_nat i)) /\
    forall x, xs !! i = Some x -> blen t <= blen (frame (oh_bytes x)) + off) as (off & Hoff & Hlen).
  { destruct Ht as [-> | (m & off & Hm & Hoff & ->)].
    - exists 0. split; [done |]. intros x _. rewrite blen_nil. pose proof (blen_nonneg (frame (oh_bytes x))). lia.
    - exists off. split; [done |]. intros x Hx. rewrite (drop_S _ _ _ Hx) in Hd. cbn [objects] in Hd.
      unfold object_bytes in Hd. rewrite <- (assoc_L (++)) in Hd. apply frame_prefix in Hd as [-> _]; [| done |].
      + rewrite blen_app, blen_ztake by lia. lia.
      + pose proof (stream_sized _ _ _ _ _ _ Hok) as Hsz. rewrite Forall_lookup in Hsz. by eapply Hsz. }
  exists off. split; [done |]. intros (i' & x & Hx & [= E] & _ & Hlt). assert (i' = i) as -> by lia.
  specialize (Hlen x Hx). rewrite blen_app in Hlt. lia.
Qed.
End stops.

(** ** What is delivered *)

(** Every byte of the object was delivered, on one of the streams. *)
Definition object_arrived (md : media) (xs : list wire) (ds : list delivery) (k : Z * Z) : Prop :=
  forall j, 0 <= j < blen (content md k) -> exists x, x ∈ xs /\ wire_byte md ds x k j.

Lemma received_arrived md xs ds fs k : 0 < blen (content md k) ->
  (forall k j, byte_received fs k j <-> exists x, x ∈ xs /\ wire_byte md ds x k j) ->
  fully_received md fs k <-> object_arrived md xs ds k.
Proof.
  intros Hne Hfs. split.
  - intros [_ Hall] j Hj. by apply Hfs, Hall.
  - intros Hall. split; [| intros j Hj; by apply Hfs, Hall].
    assert (byte_received fs k 0) as Hb by (apply Hfs, Hall; lia).
    eapply Exists_impl; [exact Hb |]. by intros f [? _].
Qed.

Lemma receiving_start {So : Splay okey quicrq_fragment_publisher_object_node_compare}
    {Sa : Splay akey quicrq_datagram_ack_node_compare} `{SR : SplayLaws (Z * Z) quicrq_object_node_compare}
    {A : Type} md mid sid mode xs (n : connection) (a : A) :
  warp_receives mid sid mode n (bridge_start (a, [])) -> cx_uni_streams (n_cnx n) = [] ->
  receiving_streams md mid sid mode xs [] [] n (bridge_start (a, [])) [].
Proof.
  intros Hn Hu. split; [done | apply consuming_start | |].
  - apply Forall_forall. intros x _. unfold wire_state, uni_of. rewrite Hu. by right.
  - intros k j. split; [intros Hb; by apply Exists_nil in Hb |].
    intros (x & _ & i & y & _ & _ & Hj & Hlt). change (blen (received_on (wi_id x) [])) with 0 in Hlt.
    pose proof (blen_nonneg (group_stream md (wi_group x) (wi_object x) (wi_header x) (take i (wi_objects x)))).
    pose proof (blen_nonneg (frame (oh_bytes y))). lia.
Qed.

(** ** A sender that has nothing more to write *)

Section idle.
Context `{SL : SplayLaws quicrq_cached_fragment_t quicrq_fragment_cache_node_compare}.
Context {So : Splay okey quicrq_fragment_publisher_object_node_compare}.
Context {Al : Allocator} `{FL : FramesLaws} {PS : PicoStream} {PI : PicoStreamIds}.
Context (alloc_ok : forall n, malloc_ok n = true).
Context (provided : forall n fin active, picoquic_provide_stream_data_buffer n fin active = true).
Context (fresh_id : forall active, picoquic_get_next_local_stream_id active ∉ active).
Context (uni_id : forall active, is_uni_id (picoquic_get_next_local_stream_id active)).
Context (md : media) (nonempty : forall k, 0 < blen (content md k)).
Context (qr_mode : quicrq_congestion_control_enum) (mid : Z) (mid_id : is_id mid).
Implicit Types (w : warp_sender) (u : quicrq_uni_stream_ctx_t).

(** The wake-up creates no stream, and no stream has anything to write. *)
Record warp_idle w : Prop := {
  wl_wake : length (wp_streams (warp_wake w)) = length (wp_streams w);
  wl_polls : forall u, u ∈ wp_streams w -> exists space now w', 21 <= space < two62 /\
    warp_step qr_mode w (WPoll (us_stream_id u) space now) = Some w' /\ written w' u = written w u;
}.

Lemma group_seen fs finals w f : warp_sending md mid fs finals w -> f ∈ fs ->
  f_group f <= fc_highest_group_id (wp_cache w).
Proof.
  intros Hw Hf. assert (cached (wp_cache w) (f_key f) (f_offset f)) as Hc.
  { apply (ex_cached _ _ _ (ws_exact _ _ _ _ _ Hw)). apply Exists_exists. exists f. split; [done |]. split; [done |].
    pose proof (ws_arrivals _ _ _ _ _ Hw) as Ha. rewrite Forall_forall in Ha.
    pose proof (wa_length _ _ (Ha f Hf)). lia. }
  apply Exists_exists in Hc as (x & Hx & [= <- _] & _).
  pose proof (ws_groups_seen _ _ _ _ _ Hw) as Hg. rewrite Forall_forall in Hg. by apply Hg.
Qed.

Lemma wake_closed w : wp_closed (warp_wake w) = wp_closed w.
Proof.
  unfold warp_wake. destruct (if bool_decide _ then _ else _) as [[? ?] ?]. done.
Qed.

(** After a wake-up, each group that has begun to arrive has its stream. *)
Lemma woken_groups fs finals w : warp_sending md mid fs finals w ->
  st_transport_mode (wp_control w) = quicrq_transport_mode_warp ->
  exists n, map us_current_group_id (all_streams (warp_wake w)) ≡ₚ seqZ 0 n /\
    forall f, f ∈ fs -> f_group f < n.
Proof.
  intros Hw Hm. destruct (warp_wakes alloc_ok fresh_id uni_id md mid fs finals w Hw) as (Hw' & _ & _ & Em & Hhi).
  exists (st_next_warp_group_id (wp_control (warp_wake w))). split.
  - apply (ws_groups _ _ _ _ _ Hw'). by rewrite Em.
  - intros f Hf. pose proof (group_seen fs finals w f Hw Hf). specialize (Hhi Hm). lia.
Qed.

Lemma idle_group fs finals w f : warp_sending md mid fs finals w -> warp_idle w ->
  st_transport_mode (wp_control w) = quicrq_transport_mode_warp -> f ∈ fs -> 
  exists u, u ∈ all_streams w /\ us_current_group_id u = f_group f.
Proof.
  intros Hw Hidle Hm Hf. destruct (woken_groups fs finals w Hw Hm) as (n & Hn & Hseen). specialize (Hseen f Hf).
  pose proof (ws_groups _ _ _ _ _ Hw Hm) as Hg. set (m := st_next_warp_group_id _) in *.
  assert (Z.to_nat m = Z.to_nat n) as En.
  { apply Permutation_length in Hn, Hg. rewrite length_map, length_seqZ in Hn, Hg. rewrite <- Hn, <- Hg.
    unfold all_streams. by rewrite !length_app, wake_closed, (wl_wake _ Hidle). }
  assert (0 <= f_group f) as Hf0.
  { pose proof (ws_arrivals _ _ _ _ _ Hw) as Ha. rewrite Forall_forall in Ha.
    destruct (wa_consistent _ _ (Ha f Hf)) as [[? _] _ _ _ _ _]. done. }
  assert (f_group f ∈ map us_current_group_id (all_streams w)) as Hin.
  { unfold all_streams. rewrite Hg. apply elem_of_seqZ. lia. }
  apply elem_map in Hin as (u & Hu & Eu). by exists u.
Qed.

Context (fs : list fragment) (finals : list (Z * Z)).
(** The final points that are announced are after what arrives. *)
Context (final_after : forall k f, k ∈ finals -> f ∈ fs -> key_lt (f_key f) k).

Lemma not_after_end w g o last : warp_sending md mid fs finals w -> one_object w = false ->
  last_ok md false finals g 0 last -> 0 < last <= o -> ~ fully_received md fs (g, o).
Proof.
  intros Hw _ Hl Hlast [(f & Hf & Hk)%Exists_exists _].
  pose proof (ws_arrivals _ _ _ _ _ Hw) as Ha. rewrite Forall_forall in Ha.
  pose proof (cf_object _ _ (wa_consistent _ _ (Ha f Hf))) as Hc. unfold f_key in Hk. injection Hk as Eg Eo.
  destruct Hl as [-> | [-> | Hin]]; [lia | rewrite <- Eg in *; lia |].
  pose proof (final_after _ f Hin Hf) as Hlt. unfold key_lt, f_key in Hlt. cbn in Hlt. lia.
Qed.

(** A stream that has all its objects is at one that did not arrive. *)
Lemma complete_stops w ws g : warp_sending md mid fs finals w -> one_object w = false ->
  uni_complete md mid false finals ws g 0 -> exists cur, 0 <= cur /\ stops_at md mid ws g cur /\
    ~ fully_received md fs (g, cur).
Proof.
  intros Hw Hone (h & xs & last & (Hok & _) & -> & Hl & Hlast). exists (Z.of_nat (length xs)).
  split; [lia |]. split; [by eapply stops_between |]. by apply (not_after_end w g _ last).
Qed.

(** And one that waits. *)
Lemma waiting_stops w u ws g i : warp_sending md mid fs finals w -> uni_sending md mid false finals u ws g 0 ->
  mb_message_size (us_message_buffer u) = 0 -> 0 <= i <= us_current_object_offset u ->
  ~ cached (wp_cache w) (g, us_current_object_id u) i ->
  exists cur, 0 <= cur /\ stops_at md mid ws g cur /\ ~ fully_received md fs (g, cur).
Proof.
  intros Hw [_ _ Hs] Hmb Hi Hnc. exists (us_current_object_id u).
  assert (us_current_object_offset u < blen (content md (g, us_current_object_id u)) ->
    ~ fully_received md fs (g, us_current_object_id u)) as Hnot.
  { intros Hoff [_ Hall]. apply Hnc, (ex_cached _ _ _ (ws_exact _ _ _ _ _ Hw)), Hall. lia. }
  pose proof (nonempty (g, us_current_object_id u)) as Hne.
  destruct Hs as [(_ & -> & Ecur & Eoff) | (h & xs & Hok & Hph & Ecur)].
  - split; [lia |]. split; [by apply stops_open | apply Hnot; lia].
  - rewrite Z.add_0_l in Ecur. split; [lia |].
    destruct Hph as [pend _ Hp Eoff Hws _ | x off _ _ Hx Eoff Hoff _ -> _].
    + split; [| apply Hnot; lia]. apply pending_size in Hp. rewrite Hmb in Hp. destruct Hp as [_ ->].
      rewrite app_nil_r in Hws. by eapply stops_between.
    + split; [| apply Hnot; lia]. pose proof (ho_size _ _ _ _ Hx). eapply stops_data; try done; lia.
Qed.

(** So each stream of a sender with nothing to write stops at an object that did
    not arrive whole. *)
Lemma idle_stops w u : warp_sending md mid fs finals w -> warp_idle w ->
  st_transport_mode (wp_control w) = quicrq_transport_mode_warp -> u ∈ all_streams w ->
  exists cur, 0 <= cur /\ stops_at md mid (written w u) (us_current_group_id u) cur /\
    ~ fully_received md fs (us_current_group_id u, cur).
Proof.
  intros Hw Hidle Hm Hu.
  assert (forall v, st_transport_mode (wp_control v) = quicrq_transport_mode_warp -> one_object v = false) as Hone.
  { intros v Hv. unfold one_object. by rewrite Hv. }
  apply elem_of_app in Hu as [Hu | Hu]; cycle 1.
  { destruct (ws_closed _ _ _ _ _ Hw u Hu) as (o & Ho & Hc). rewrite (Ho Hm), (Hone w Hm) in Hc.
    by apply (complete_stops w); [| apply Hone |]. }
  destruct (wl_polls _ Hidle u Hu) as (space & now & w' & Hspace & E & Ew).
  destruct (warp_polls alloc_ok provided md qr_mode mid mid_id fs finals w (us_stream_id u) space now Hw Hspace)
    as (w2 & E2 & Hw' & Em & Hpoll).
  rewrite E in E2. injection E2 as <-. rewrite Hm in Em. 
  assert (forall u', us_stream_id u' = us_stream_id u -> written w' u' = written w u) as Hsame.
  { intros u' Eid. rewrite <- Ew. unfold written. by rewrite Eid. }
  destruct (Hpoll u Hu eq_refl) as [Hne _ _ | _ (u' & i & Hu' & Eid & Eg & Hmb & Hi & Hnc) | _ (u' & Hu' & Eid & Eg)]; [done | |].
  - destruct (ws_streams _ _ _ _ _ Hw' u' Hu') as (o & Ho & Hs). rewrite (Ho Em), (Hone w' Em), (Hsame u' Eid), Eg in Hs.
    rewrite Eg in Hnc. by apply (waiting_stops w u' _ _ i).
  - destruct (ws_closed _ _ _ _ _ Hw' u' Hu') as (o & Ho & Hc). rewrite (Ho Em), (Hone w' Em), (Hsame u' Eid), Eg in Hc.
    by apply (complete_stops w); [| apply Hone |].
Qed.
(** All that a sender wrote was delivered. *)
Definition all_delivered w (ds : list delivery) : Prop :=
  forall u, u ∈ all_streams w -> received_on (us_stream_id u) ds = written w u.

(** If all was delivered, the first object that was not is one that did not
    arrive whole. *)
Lemma first_missing w xs ds m : warp_sending md mid fs finals w -> sender_wires md mid w xs ->
  st_transport_mode (wp_control w) = quicrq_transport_mode_warp -> warp_idle w -> all_delivered w ds ->
  (forall i, (i < m)%nat -> object_arrived md xs ds (media_from md (0, 0) i)) ->
  ~ object_arrived md xs ds (media_from md (0, 0) m) -> ~ fully_received md fs (media_from md (0, 0) m).
Proof.
  intros Hw [Hids Hok Hxs Hxu] Hm Hidle Hall Hin Hout Hfull. rewrite Forall_forall in Hok.
  pose proof (media_from_key md m) as Hkey. destruct (media_from md (0, 0) m) as [g o] eqn:Ek.
  pose proof Hfull as [(f & Hf & [= Eg _])%Exists_exists _].
  destruct (idle_group fs finals w f Hw Hidle Hm Hf) as (u & Hu & Eu). rewrite Eg in Eu.
  destruct (idle_stops w u Hw Hidle Hm Hu) as (cur & Hcur & Hstop & Hnot). rewrite Eu in *.
  assert (forall x v, x ∈ xs -> wire_begins md w x v -> v ∈ all_streams w ->
    stream_ok md mid (wi_group x) 0 (wi_header x) (wi_objects x) /\ wi_object x = 0 /\
    received_on (wi_id x) ds = written w v) as Hwire.
  { intros x v Hx (Ei & _ & _) Hv. destruct (Hok x Hx) as [Hst Hz _ _]. rewrite (Hz Hm) in *.
    split; [done |]. split; [done |]. rewrite Ei. by apply Hall. }
  destruct (Z.lt_trichotomy o cur) as [Hlt | [-> | Hlt]]; [| done |].
  - apply Hout. intros j Hj. destruct (Hxs u Hu) as (x & Hx & Hb).
    { intros E0. apply (stops_nothing md mid _ g cur Hstop E0). destruct Hkey. cbn in *. lia. }
    exists x. split; [done |]. destruct (Hwire x u Hx Hb Hu) as (Hst & Hz & Er). unfold wire_byte.
    destruct Hb as (_ & Exg & Hpre). unfold wire_stream in Hpre. rewrite Er, Hz. rewrite Hz, Exg, Eu in Hpre.
    rewrite Exg, Eu in *. apply (stops_delivered md nonempty mid _ g cur); try done. destruct Hkey. cbn in *. lia.
  - destruct (media_from_back md g o m Ek cur) as (i & Hi & Ei); [lia |].
    specialize (Hin i Hi). rewrite Ei in Hin.
    assert (forall x, x ∈ xs -> wi_group x = g -> wire_begins md w x u) as Hgroup.
    { intros x Hx Exg. destruct (Hxu x Hx) as (v & Hv & Hb). pose proof Hb as (_ & Evg & _).
      pose proof (ws_groups _ _ _ _ _ Hw Hm) as Hgs.
      assert (v = u) as ->; [| done].
      apply (NoDup_map_inj us_current_group_id (all_streams w)); try done; [| congruence].
      unfold all_streams. rewrite Hgs. apply NoDup_seqZ. }
    destruct (Hin 0 ltac:(split; [lia | apply nonempty])) as (x & Hx & Hbyte).
    pose proof Hbyte as (q & y & _ & [= Exg _] & _).
    pose proof (Hgroup x Hx (eq_sym Exg)) as Hb. destruct (Hwire x u Hx Hb Hu) as (Hst & Hz & Er).
    destruct Hb as (_ & Exg' & Hpre). unfold wire_stream in Hpre. rewrite Hz, Exg', Eu in Hpre. rewrite Exg', Eu in Hst.
    destruct (stops_missing md nonempty mid _ g cur _ _ Hstop Hst Hpre) as (j & Hj & Hmiss).
    destruct (Hin j Hj) as (x' & Hx' & Hbyte'). apply Hmiss. pose proof Hbyte' as (q' & y' & _ & [= Exg2 _] & _).
    assert (x' = x) as ->.
    { apply (NoDup_map_inj wi_id xs); try done.
      destruct (Hgroup x' Hx' (eq_sym Exg2)) as [-> _]. by destruct (Hgroup x Hx (eq_sym Exg)) as [-> _]. }
    unfold wire_byte in Hbyte'. by rewrite Er, Hz, Exg', Eu in Hbyte'.
Qed.
End idle.

(** ** The theorems *)

Section statement.
Context `{SL : SplayLaws quicrq_cached_fragment_t quicrq_fragment_cache_node_compare}.
Context {So : Splay okey quicrq_fragment_publisher_object_node_compare}.
Context {Al : Allocator} {PF : PicoFrames} {FL : FramesLaws PF} {PS : PicoStream} {PI : PicoStreamIds}.

(** The identifiers of picoquic are new and those of unidirectional streams. *)
Definition local_ids : Prop := forall active,
  (picoquic_get_next_local_stream_id active ∉ active) /\ is_uni_id (picoquic_get_next_local_stream_id active).

(** [C8] What a sender writes in the warp and rush modes.  Fragments of a media
    arrive in its cache in any order, with repetitions, final points are
    announced, the control stream is woken up and picoquic asks for the data of
    any of the unidirectional streams, with space for the header of an object,
    in any interleaving; no object is empty.  Then no step fails, the streams
    have distinct identifiers, and what was written on each of them is the
    beginning of the stream of its group: the warp header, then the objects from
    the first one on, each with its header, its length and its bytes; of only
    one object in the rush mode.  A stream that was ended has all the objects up
    to the number of objects of the group, or to an announced final point.  In
    the warp mode the next wake-up leaves one stream for each group, up to the
    last one of which something arrived; in the rush mode, where a stream is for
    one object, objects and whole groups may get no stream (Example
    [rush_skips_group] below), and nothing is claimed of it.  And the next call for a stream sends
    bytes, or ends it, or finds that the next byte is not in the cache. *)
Theorem warp_sender_correct qr_mode md mid cg s es :
  (forall n, malloc_ok n = true) -> (forall n fin active, picoquic_provide_stream_data_buffer n fin active = true) ->
  local_ids -> (forall k, 0 < blen (content md k)) -> is_id mid -> warp_control mid s -> warp_events md es ->
  exists w, warp_run qr_mode (warp_start s cg) es = Some w /\
    st_transport_mode (wp_control w) = st_transport_mode s /\
    NoDup (ids (all_streams w)) /\
    (exists xs, sender_wires md mid w xs) /\
    (forall u, u ∈ wp_closed w -> exists o,
      (st_transport_mode s = quicrq_transport_mode_warp -> o = 0) /\
      uni_complete md mid (one_object w) (warp_finals es) (written w u) (us_current_group_id u) o) /\
    (st_transport_mode s = quicrq_transport_mode_warp ->
      exists n, map us_current_group_id (all_streams (warp_wake w)) ≡ₚ seqZ 0 n /\
        forall f, f ∈ warp_arrivals es -> f_group f < n) /\
    (forall id space now, 21 <= space < two62 ->
      exists w', warp_step qr_mode w (WPoll id space now) = Some w' /\
        forall u, u ∈ wp_streams w -> us_stream_id u = id -> stream_polled w u w').
Proof.
  intros Hal Hpr Hids Hne Hmid Hs [Hp Ha Hno].
  pose proof (fun active => proj1 (Hids active)) as Hfresh. pose proof (fun active => proj2 (Hids active)) as Huni.
  destruct (warp_run_sending Hal Hpr Hfresh Huni md qr_mode mid Hmid es [] [] (warp_start s cg)
    (warp_sending_start md Hne mid s cg Hs) Hp Ha Hno) as (w & Hrun & Hw & Hm). cbn [app] in Hw.
  exists w. split; [exact Hrun |]. split; [exact Hm |]. split; [apply (ws_ids _ _ _ _ _ Hw) |].
  split; [by eapply sender_has_wires |]. split; [| split].
  - intros u Hu. destruct (ws_closed _ _ _ _ _ Hw u Hu) as (o & Ho & Hc). exists o. split; [| exact Hc].
    intros Hm'. apply Ho. by rewrite Hm.
  - intros Hm'. apply (woken_groups Hal Hfresh Huni md mid _ _ w Hw). by rewrite Hm.
  - intros id space now Hspace.
    destruct (warp_polls Hal Hpr md qr_mode mid Hmid _ _ w id space now Hw Hspace) as (w' & E & _ & _ & H).
    by exists w'.
Qed.

(** [C7] From the cache of a sender of the warp or rush mode to the application
    of the receiver.  The transport delivers the bytes of the streams of the
    sender, the streams interleaved in any way and each cut in any pieces that
    do not join the end of an object with what follows it, to a connection whose
    control stream for this media has just been opened with the consumer of
    objects in order; the application accepts every object.  Then the connection
    accepts every delivery, and the application has been given exactly the first
    objects of the media, each once, in order and with its bytes, up to the first
    one that the deliveries do not complete.  In the warp mode, if the sender has
    nothing more to write and all that it wrote was delivered, that one is the
    first object that did not arrive whole at the sender. *)
Theorem warp_end_to_end {Sa : Splay akey quicrq_datagram_ack_node_compare}
    `{SR : SplayLaws (Z * Z) quicrq_object_node_compare}
    {A : Type} (fn : A -> object_call -> A * Z) (a : A) (now : Z)
    (default_source_fn : option (quicrq_ctx_t -> list Z -> quicrq_ctx_t * Z))
    (consumer_media_init_fn : option (list Z ->
       option (option (quicrq_object_stream_consumer_ctx (App := A * list object_call))) * Z))
    (manage_relay_subscribe_fn : option (quicrq_ctx_t -> list Z -> quicrq_ctx_t))
    qr_mode md mid cg s es w xs (qr_ctx : quicrq_ctx_t) sid n ds :
  (forall n, malloc_ok n = true) -> (forall n fin active, picoquic_provide_stream_data_buffer n fin active = true) ->
  local_ids -> (forall a c, (fn a c).2 = 0) -> (forall k, 0 < blen (content md k)) ->
  is_id mid -> warp_control mid s -> warp_events md es ->
  warp_run qr_mode (warp_start s cg) es = Some w -> sender_wires md mid w xs -> deliveries md xs ds ->
  warp_receives mid sid (st_transport_mode s) n (bridge_start (a, [])) -> cx_uni_streams (n_cnx n) = [] ->
  exists n' b given_count,
    receive_deliveries fn now default_source_fn consumer_media_init_fn manage_relay_subscribe_fn qr_ctx n ds
      = Some (qr_ctx, n', 0) /\
    warp_receives mid sid (st_transport_mode s) n' b /\
    map given (br_app (bc_bridge b)).2 =
      map (fun i => let k := media_from md (0, 0) i in Some (k.1, k.2, content md k)) (seq 0 given_count) /\
    (forall i, (i < given_count)%nat -> object_arrived md xs ds (media_from md (0, 0) i)) /\
    ~ object_arrived md xs ds (media_from md (0, 0) given_count) /\
    (st_transport_mode s = quicrq_transport_mode_warp -> warp_idle qr_mode w -> all_delivered w ds ->
     (forall k f, k ∈ warp_finals es -> f ∈ warp_arrivals es -> key_lt (f_key f) k) ->
     ~ fully_received md (warp_arrivals es) (media_from md (0, 0) given_count)).
Proof.
  intros Hal Hpr Hids Hfn Hne Hmid Hs [Hp Ha Hno] Hrun Hxs Hds Hn Hnu.
  pose proof (fun active => proj1 (Hids active)) as Hfresh. pose proof (fun active => proj2 (Hids active)) as Huni.
  destruct (warp_run_sending Hal Hpr Hfresh Huni md qr_mode mid Hmid es [] [] (warp_start s cg)
    (warp_sending_start md Hne mid s cg Hs) Hp Ha Hno) as (w2 & Hrun2 & Hw & Hm).
  rewrite Hrun in Hrun2. injection Hrun2 as <-. cbn [app] in Hw.
  destruct Hxs as [Hxi Hxo Hxs Hxu]. cbn in Hm. pose proof Hxo as Hxo'. rewrite Hm in Hxo'.
  destruct (receive_all_deliveries fn now default_source_fn consumer_media_init_fn manage_relay_subscribe_fn
    Hal Hfn md Hne mid sid (st_transport_mode s) xs Hxo' Hxi qr_ctx n (bridge_start (a, [])) [] ds)
    as (n' & fs & b & log & E & Hn'); [| exact Hds |].
  { by apply receiving_start. }
  destruct (consuming_given md fs b log (rs_consumer _ _ _ _ _ _ _ _ _ _ Hn')) as (m & Em & Hin & Hout).
  pose proof (rs_received _ _ _ _ _ _ _ _ _ _ Hn') as Hrec.
  assert (forall k, fully_received md fs k <-> object_arrived md xs ds k) as Hfull.
  { intros k. by apply received_arrived. }
  exists n', b, m. split; [exact E |]. split; [apply (rs_connection _ _ _ _ _ _ _ _ _ _ Hn') |]. split; [exact Em |].
  split; [intros i Hi; by apply Hfull, Hin |]. split; [by rewrite <- Hfull |].
  intros Hmode Hidle Hall Hafter. 
  apply (first_missing Hal Hpr Hfresh Huni md Hne qr_mode mid Hmid _ _ Hafter w xs ds); try done.
  - by rewrite Hm.
  - intros i Hi. by apply Hfull, Hin.
  - by rewrite <- Hfull.
Qed.
End statement.

(** ** Witnesses *)

Module WarpDemo.
Import AckDemo.
Definition long_media : media := DatagramDemo.long_media.
#[export] Instance always_ready : PicoStream := fun _ _ _ => true.
#[export] Instance next_uni_id : PicoStreamIds := fun active => 4 * (1 + fold_right Z.max 0 active) + 2.

Lemma next_ids_local : local_ids.
Proof.
  intros active. split.
  - intros Hin. unfold picoquic_get_next_local_stream_id, next_uni_id in Hin.
    assert (forall l i, i ∈ l -> i <= fold_right Z.max 0 l) as Hle.
    { induction l as [| x l IH]; intros i; [intros H; by apply not_elem_of_nil in H |].
      intros [-> | H]%elem_of_cons; cbn; [lia |]. specialize (IH i H). lia. }
    pose proof (Hle _ _ Hin). assert (forall l : list Z, 0 <= fold_right Z.max 0 l) as Hpos
      by (induction l; cbn; lia).
    specialize (Hpos active). lia.
  - intros E. apply (f_equal (fun i => Z.testbit i 1)) in E.
    rewrite Z.land_spec, andb_true_r, Z.bits_0 in E. apply Z.testbit_false in E; [| lia].
    unfold picoquic_get_next_local_stream_id, next_uni_id in E.
    change (2 ^ 1) with 2 in E. set (m := fold_right _ _ _) in E. 
    replace (4 * (1 + m) + 2) with ((1 + (1 + m) * 2) * 2) in E by lia. rewrite Z.div_mul, Z.mod_add in E by lia. done.
Qed.

(** A fragment of the media of [DatagramDemo], groups of two objects. *)
Definition part (g o offset len : Z) : Media.fragment := {|
  f_time := 0; f_data := slice (g :: o :: repeat 7 18) offset len; f_group := g; f_object := o;
  f_offset := offset; f_delay := 0; f_flags := 128; f_nb_previous := if (0 <? g) && (o =? 0) then 2 else 0;
  f_object_length := 20; f_data_length := len |}.

(** The control stream of a media in the warp mode. *)
Definition control_stream : quicrq_stream_ctx_t :=
  st_set_mode (st_set_media (stream_zero 4) 5) quicrq_transport_mode_warp.

Definition events : list warp_event :=
  [WArrive (part 0 0 3 17); WWake; WPoll 6 40 1000; WPoll 6 40 1001; WArrive (part 0 0 0 3); WPoll 6 40 1002;
   WPoll 6 21 1003; WArrive (part 1 0 0 20); WWake; WPoll 30 40 1004; WPoll 30 40 1005; WPoll 30 21 1006;
   WArrive (part 0 1 0 12); WPoll 6 40 1007; WPoll 6 40 1008; WFinalPoint 1 1; WPoll 30 40 1009;
   WPoll 6 40 1010; WPoll 30 40 1011].
Abbreviation run := (warp_run quicrq_congestion_control_none (warp_start control_stream congestion_zero) events).
Definition world := match run with Some w => w | None => warp_start control_stream congestion_zero end.

Lemma warp_run_world : run = Some world.
Proof.
  assert (option_map (fun _ => tt) run = Some tt) as E by (vm_compute; reflexivity).
  destruct (option_map_some _ _ _ E) as (w & Ew & _). unfold world. by rewrite Ew.
Qed.

(** The stream of the group 0 waits in its second object, that of the group 1 is
    ended at the final point. *)
Example demo_streams :
  (map (fun u => (us_stream_id u, us_current_group_id u, us_current_object_id u, us_current_object_offset u))
     (wp_streams world), ids (wp_closed world)) = ([(6, 0, 1, 12)], [30]).
Proof. vm_compute. reflexivity. Qed.

Lemma control_ready : warp_control 5 control_stream.
Proof. by split. Qed.

Lemma part_arrival g o off len : 0 <= g < 2 -> 0 <= o < 2 -> 0 <= off -> 0 < len -> off + len <= 20 ->
  warp_arrival long_media (part g o off len).
Proof.
  intros Hg Ho Hoff Hlen Hend.
  assert (f_nb_previous (part g o off len) = 2 \/ f_nb_previous (part g o off len) = 0) as Hnb
    by (cbn; destruct (_ && _); auto).
  split; [split; cbn; unfold is_id, two62, blen; cbn; try lia; try done | done | lia].
  intros Hg0 ->. rewrite (proj2 (Z.ltb_lt _ _)) by lia. done.
Qed.

Lemma warp_events_fine : warp_events long_media events.
Proof.
  split.
  - unfold events. repeat (apply Forall_cons; split; [cbn; unfold two62; first [exact I | lia] |]). by apply Forall_nil.
  - cbn. repeat (apply Forall_cons; split; [apply part_arrival; lia |]). by apply Forall_nil.
  - intros f f' Hf Hf' Hk. cbn in Hf, Hf'. rewrite !elem_of_cons, elem_of_nil in *. unfold same_range.
    destruct_or! Hf; destruct_or! Hf'; subst; try done; cbn in *; try discriminate; lia.
Qed.

(** The streams of the groups. *)
Definition header (bytes : list Z) (nb : Z) : object_header := {| oh_bytes := bytes; oh_nb := nb; oh_flags := 128 |}.
Definition wire_0 : wire := {| wi_id := 6; wi_group := 0; wi_object := 0; wi_header := [12; 5; 0];
  wi_objects := [header [13; 0; 0; 128; 20] 0; header [13; 1; 128; 20] 0] |}.
Definition wire_1 : wire := {| wi_id := 30; wi_group := 1; wi_object := 0; wi_header := [12; 5; 1];
  wi_objects := [header [13; 0; 2; 128; 20] 2] |}.
Definition wires : list wire := [wire_0; wire_1].

Lemma wires_ok : Forall (wire_ok long_media 5 quicrq_transport_mode_warp) wires.
Proof.
  repeat (apply Forall_cons; split); [| | by apply Forall_nil].
  - split; [split | done | done | done].
    + split; [unfold blen; cbn; lia | vm_compute; reflexivity].
    + intros [| [| i]] x Hx; cbn in Hx; [| | done]; injection Hx as <-; split;
        first [vm_compute; reflexivity | unfold is_id, two62, blen; cbn; lia].
  - split; [split | done | done | done].
    + split; [unfold blen; cbn; lia | vm_compute; reflexivity].
    + intros [| i] x Hx; cbn in Hx; [| done]; injection Hx as <-; split;
        first [vm_compute; reflexivity | unfold is_id, two62, blen; cbn; lia].
Qed.

Lemma triple_eq {B C D} (b b' : B) (c c' : C) (d d' : D) : (b, c, d) = (b', c', d') -> b = b' /\ c = c' /\ d = d'.
Proof. by intros [= -> -> ->]. Qed.

Lemma sent_wires : sender_wires long_media 5 world wires.
Proof.
  assert (map (fun u => (us_stream_id u, us_current_group_id u, written world u)) (all_streams world) =
    [(6, 0, ztake 50 (wire_stream long_media wire_0)); (30, 1, wire_stream long_media wire_1)]) as E
    by (vm_compute; reflexivity).
  assert (forall u, u ∈ all_streams world ->
    wire_begins long_media world wire_0 u \/ wire_begins long_media world wire_1 u) as Hu.
  { intros u Hu. apply (map_elem (fun u => (us_stream_id u, us_current_group_id u, written world u))) in Hu.
    rewrite E in Hu. apply elem_of_cons in Hu as [(E1 & E2 & E3)%triple_eq | Hu]; [| apply list_elem_of_singleton, triple_eq in Hu as (E1 & E2 & E3)].
    - left. split; [symmetry; exact E1 |]. split; [symmetry; exact E2 |]. rewrite E3. apply (prefix_take _ 50).
    - right. split; [symmetry; exact E1 |]. split; [symmetry; exact E2 |]. rewrite E3. reflexivity. }
  assert (st_transport_mode (wp_control world) = quicrq_transport_mode_warp) as Em by (vm_compute; reflexivity).
  split.
  - apply (bool_decide_eq_true_1 _). vm_compute. reflexivity.
  - rewrite Em. exact wires_ok.
  - intros u Hin _. destruct (Hu u Hin) as [? | ?]; [exists wire_0 | exists wire_1]; (split; [| done]).
    + by left.
    + by right; left.
  - intros x Hx. assert (exists u, u ∈ all_streams world /\ us_stream_id u = wi_id x) as (u & Hin & Ei).
    { assert (wi_id x ∈ map us_stream_id (all_streams world)) as Hin.
      { assert (map us_stream_id (all_streams world) = map wi_id wires) as -> by (vm_compute; reflexivity).
        by apply (map_elem wi_id). }
      apply elem_map in Hin as (u & Hin & Eu). exists u. by split. }
    exists u. split; [exact Hin |]. apply elem_of_cons in Hx. rewrite list_elem_of_singleton in Hx.
    destruct (Hu u Hin) as [Hb | Hb]; pose proof (proj1 Hb) as Eb; rewrite Ei in Eb; destruct Hx as [-> | ->];
      first [discriminate Eb | exact Hb].
Qed.

(** What a delivery needs, as a function of its bytes. *)
Definition delivers (ds : list delivery) (d : delivery) (x : wire) : bool :=
  let r := received_on (de_id d) ds in
  let to i := group_stream long_media (wi_group x) (wi_object x) (wi_header x) (take (S i) (wi_objects x)) in
  (wi_id x =? de_id d) && bool_decide (r ++ de_bytes d `prefix_of` wire_stream long_media x) &&
  forallb (fun i => implb (bool_decide (to i `prefix_of` r ++ de_bytes d))
                      (bool_decide (to i `prefix_of` r) || bool_decide (to i = r ++ de_bytes d)))
    (seq 0 (length (wi_objects x))) &&
  negb (ended_on (de_id d) ds) && implb (de_fin d) (bool_decide (frame (wi_header x) `prefix_of` r ++ de_bytes d)) &&
  forallb (fun b => (0 <=? b) && (b <? 256)) (de_bytes d).

Lemma delivers_ok ds d x : x ∈ wires -> delivers ds d x = true -> delivery_ok long_media wires ds d x.
Proof.
  unfold delivers. intros Hx H. rewrite !andb_true_iff in H.
  destruct H as [[[[[Hid Hp] Hc] Ho] Hf] Hb]. split.
  - by apply Z.eqb_eq in Hid.
  - by apply bool_decide_eq_true in Hp.
  - intros i Hi Hpre. rewrite forallb_forall in Hc. assert (In i (seq 0 (length (wi_objects x)))) as Hseq by (apply in_seq; lia). specialize (Hc i Hseq).
    rewrite (bool_decide_true _ Hpre) in Hc. cbn [implb] in Hc. apply orb_true_iff in Hc as [Hc | Hc];
      apply bool_decide_eq_true in Hc; [by left | by right].
  - by apply negb_true_iff in Ho.
  - intros E. rewrite E in Hf. by apply bool_decide_eq_true in Hf.
  - apply Forall_forall. intros b Hin. rewrite forallb_forall in Hb. specialize (Hb b (proj1 (list_elem_of_In _ _) Hin)).
    b2p. unfold is_byte. lia.
Qed.

(** The two streams interleaved, in pieces that do not join objects. *)
Definition chunk (x : wire) (from len : Z) (is_fin : bool) : delivery :=
  {| de_id := wi_id x; de_bytes := slice (wire_stream long_media x) from len; de_fin := is_fin |}.
Definition delivered : list delivery :=
  [chunk wire_1 0 2 false; chunk wire_0 0 7 false; chunk wire_0 7 25 false; chunk wire_1 2 30 true;
   chunk wire_0 32 18 false].

Lemma delivered_deliveries : deliveries long_media wires delivered.
Proof.
  unfold delivered.
  change (deliveries long_media wires (((((([] ++ [chunk wire_1 0 2 false]) ++ [chunk wire_0 0 7 false])
    ++ [chunk wire_0 7 25 false]) ++ [chunk wire_1 2 30 true]) ++ [chunk wire_0 32 18 false]))).
  assert (wire_0 ∈ wires /\ wire_1 ∈ wires) as [H0 H1] by (split; [by left | by right; left]).
  repeat (eapply deliveries_snoc;
    [| first [apply (delivers_ok _ _ wire_0 H0); vm_compute; reflexivity
             | apply (delivers_ok _ _ wire_1 H1); vm_compute; reflexivity]]).
  apply deliveries_nil.
Qed.

(** A connection that receives the media on its control stream. *)
Definition receiver
  : connection (CS := option (quicrq_object_stream_consumer_ctx (App := Z * list object_call))) := {|
  n_cnx := EndToEndDemo.cnx;
  n_streams := [{| k_stream := st_set_receive control_stream quicrq_receive_done; k_media := consuming (Some (bridge_start (0, [])));
                   k_source := None; k_notified := None; k_ack := quicrq_datagram_ack_ctx_init 0 |}] |}.
Abbreviation receive := (receive_deliveries ConsumerDemo.app 7 None None None EndToEndDemo.qr receiver delivered).

Lemma warp_receiver_ready : warp_receives 5 4 quicrq_transport_mode_warp receiver (bridge_start (0, [])).
Proof.
  split; [| apply NoDup_singleton | by apply NoDup_nil_2].
  eexists [], _, []. by split_and!.
Qed.

Lemma world_idle : warp_idle quicrq_congestion_control_none world.
Proof.
  split; [vm_compute; reflexivity |]. intros u Hu.
  assert (us_stream_id u = 6) as Ei.
  { assert (Forall (fun i => i = 6) (ids (wp_streams world))) as H.
    { apply (bool_decide_eq_true_1 _). vm_compute. reflexivity. }
    rewrite Forall_forall in H. apply H. by apply (map_elem us_stream_id). }
  assert (option_map (fun w => written_on 6 (wp_written w))
    (warp_step quicrq_congestion_control_none world (WPoll 6 40 0)) = Some (written_on 6 (wp_written world))) as E
    by (vm_compute; reflexivity).
  destruct (option_map_some _ _ _ E) as (w' & Es & Ew). exists 40, 0, w'. rewrite Ei.
  split; [unfold two62; lia |]. split; [exact Es |]. unfold written. by rewrite Ei.
Qed.

Lemma delivered_all : all_delivered world delivered.
Proof.
  intros u Hu. assert (Forall (fun i => received_on i delivered = written_on i (wp_written world)) (ids (all_streams world))) as H.
  { apply (bool_decide_eq_true_1 _). vm_compute. reflexivity. }
  rewrite Forall_forall in H. apply H. by apply (map_elem us_stream_id).
Qed.

Lemma finals_after k f : k ∈ warp_finals events -> f ∈ warp_arrivals events -> key_lt (f_key f) k.
Proof.
  cbn. intros ->%list_elem_of_singleton Hf. rewrite !elem_of_cons, elem_of_nil in Hf. unfold key_lt.
  destruct_or! Hf; subst; try done; cbn; lia.
Qed.
(** ** What the hypotheses exclude *)

(** A piece that joins the end of the first object with the header of the second
    is refused. *)
Example joined_chunk_refused :
  option_map (fun r => r.2)
    (receive_deliveries ConsumerDemo.app 7 None None None EndToEndDemo.qr receiver [chunk wire_0 0 50 false])
  = Some (-1).
Proof. vm_compute. reflexivity. Qed.

(** With space for a part of the header of the object only, the data are sent
    before the rest of the header. *)
Example small_space_tears_header :
  option_map (fun w => wp_written w)
    (warp_run quicrq_congestion_control_none (warp_start control_stream congestion_zero)
       [WArrive (part 0 0 0 20); WWake; WPoll 6 40 1; WPoll 6 5 2; WPoll 6 40 3; WPoll 6 40 4])
  = Some [(6, [0; 3; 12; 5; 0]); (6, [0; 5; 13; 0; 0]); (6, 0 :: 0 :: repeat 7 18); (6, [128; 20])].
Proof. vm_compute. reflexivity. Qed.

(** In the rush mode a group may have no stream at all: at the first wake-up the
    number of objects of the group 1 is not known, and the next object of the
    group 0 is kept as that of the group 1. *)
Example rush_skips_group :
  option_map (fun w => map (fun u => (us_current_group_id u, us_current_object_id u)) (wp_streams w))
    (warp_run quicrq_congestion_control_none
       (warp_start (st_set_mode control_stream quicrq_transport_mode_rush) congestion_zero)
       [WArrive (part 0 0 0 20); WArrive (part 0 1 0 20); WArrive (part 1 0 0 20); WArrive (part 2 1 0 20); WWake;
        WArrive (part 2 0 0 20); WArrive (part 1 1 0 20); WWake])
  = Some [(0, 0); (0, 1); (2, 0); (2, 1)].
Proof. vm_compute. reflexivity. Qed.
End WarpDemo.
Import AckDemo WarpDemo.

Lemma warp_sender_correct_witness :
  (exists w xs, run = Some w /\ NoDup (ids (all_streams w)) /\ sender_wires long_media 5 w xs) /\
  option_map (fun w => (written_on 6 (wp_written w), ids (wp_closed w))) run =
    Some ([0; 3; 12; 5; 0; 0; 5; 13; 0; 0; 128; 20; 0; 0] ++ repeat 7 18 ++ [0; 4; 13; 1; 128; 20; 0; 1] ++ repeat 7 10, [30]).
Proof.
  split; [| vm_compute; reflexivity].
  destruct (warp_sender_correct quicrq_congestion_control_none long_media 5 congestion_zero control_stream events)
    as (w & E & _ & Hnd & (xs & Hxs) & _).
  - intros n. exact eq_refl.
  - intros n is_fin active. exact eq_refl.
  - exact next_ids_local.
  - intros k. exact eq_refl.
  - unfold is_id, two62. lia.
  - exact control_ready.
  - exact warp_events_fine.
  - exists w, xs. split; [exact E |]. by split.
Defined.

Lemma warp_end_to_end_witness :
  (exists n' (b : quicrq_object_stream_consumer_ctx (App := Z * list object_call)) given_count,
    receive = Some (EndToEndDemo.qr, n', 0) /\
    map given (br_app (bc_bridge b)).2 =
      map (fun i => let k := media_from long_media (0, 0) i in Some (k.1, k.2, content long_media k))
        (seq 0 given_count) /\
    ~ fully_received long_media (warp_arrivals events) (media_from long_media (0, 0) given_count)) /\
  option_map (fun r => match n_streams r.1.2 with
                       | [k] => match k_media k with
                                | consuming (Some x) => map given (br_app (bc_bridge x)).2 | _ => [] end
                       | _ => [] end) receive
  = Some [Some (0, 0, 0 :: 0 :: repeat 7 18)].
Proof.
  split; [| vm_compute; reflexivity].
  destruct (warp_end_to_end ConsumerDemo.app 0 7 None None None quicrq_congestion_control_none long_media 5
    congestion_zero control_stream events world wires EndToEndDemo.qr 4 receiver delivered)
    as (n' & b & m & E & _ & Hg & _ & _ & Hlast).
  - intros n. exact eq_refl.
  - intros n is_fin active. exact eq_refl.
  - exact next_ids_local.
  - intros ? ?. exact eq_refl.
  - intros k. exact eq_refl.
  - unfold is_id, two62. lia.
  - exact control_ready.
  - exact warp_events_fine.
  - exact warp_run_world.
  - exact sent_wires.
  - exact delivered_deliveries.
  - exact warp_receiver_ready.
  - exact eq_refl.
  - exists n', b, m. split; [exact E |]. split; [exact Hg |].
    exact (Hlast eq_refl world_idle delivered_all finals_after).
Defined.
