(* ===== verification/SubscriptionTheorems.v ===== *)
(** * The subscription of an application to a media

    From the call of the subscriber, through the REQUEST message cut in any
    pieces, to the stream that the publisher opens: both ends are then in the
    states from which the transfers of the media start. *)

From S2P Require Import Prelude Picosplay PicoFrames Media Proto Reassembly Fragment PublisherContext.
From S2P Require Import Congestion Publisher Ack DatagramPublisher MsgBuffer MsgBufferTheorems StreamContext Warp.
From S2P Require Import WarpStream WarpProofs WarpSender ControlStream Connection DatagramSender.
From S2P Require Import ObjectConsumer Subscription ObjectConsumerTheorems EndToEnd DatagramTheorems.
From S2P Require Import WarpReceive WarpDelivery AckTheorems WarpTheorems ControlStreamTheorems.

(** ** The request *)

Definition request_message (url : list Z) (mid : Z) (mode : quicrq_transport_mode_enum) : quicrq_message_t :=
  msg_set QUICRQ_ACTION_REQUEST (blen url) url mid 0 0 0 0 0 0 0 None mode 0
    quicrq_subscribe_intent_start_point.

(** A url that fits in a message. *)
Definition url_ok (url : list Z) : Prop := blen url < 65000.

Section request.
Context `{FL : FramesLaws}.

Lemma request_in_range url mid mode : url_ok url -> is_id mid -> msg_in_range (request_message url mid mode).
Proof.
  unfold url_ok. intros Hu Hm. pose proof (blen_nonneg url).
  assert (is_varint 0 /\ is_varint (blen url)) as [H0 Hl] by (unfold is_varint, two62; lia).
  by split_and!.
Qed.

Lemma request_decodes url mid mode room bytes : url_ok url -> is_id mid ->
  quicrq_rq_msg_encode QUICRQ_ACTION_REQUEST (blen url) url mid mode quicrq_subscribe_intent_start_point 0 0 room
    = Some bytes ->
  quicrq_msg_decode bytes = Some (request_message url mid mode, []).
Proof.
  intros Hu Hm E. rewrite <- (app_nil_r bytes).
  rewrite (msg_parses (request_message url mid mode) room bytes []); [| by apply request_in_range | done | exact E].
  unfold msg_carried, request_message, msg_set. cbn. by rewrite ztake_all.
Qed.
End request.

(** ** The streams of a connection *)

Section streams.
Context {So : Splay okey quicrq_fragment_publisher_object_node_compare}.
Context {Sa : Splay akey quicrq_datagram_ack_node_compare} {CS : Type}.
Implicit Types (k : control (So := So) (CS := CS)) (n : connection (So := So) (CS := CS)).

Lemma find_last_id n ks k id : n_streams n = ks ++ [k] -> k_id k = id -> id ∉ map k_id ks ->
  find_stream n id = Some k.
Proof.
  unfold find_stream. intros -> <- Hid. induction ks as [| y ks IH]; cbn; [by rewrite Z.eqb_refl |].
  apply not_elem_of_cons in Hid as [Hy Hid]. rewrite (proj2 (Z.eqb_neq _ _)) by congruence. by apply IH.
Qed.

Lemma update_last ks k k' id : k_id k' = id -> k_id k = id -> id ∉ map k_id ks ->
  update_stream k' (ks ++ [k]) = ks ++ [k'].
Proof.
  unfold update_stream. intros Hk' Hk Hid. rewrite map_app. cbn. rewrite Hk', Hk, Z.eqb_refl. f_equal.
  induction ks as [| y ks IH]; cbn; [done |]. apply not_elem_of_cons in Hid as [Hy Hid].
  rewrite (proj2 (Z.eqb_neq _ _)) by congruence. by rewrite IH.
Qed.

Lemma find_missing n id : id ∉ map k_id (n_streams n) -> find_stream n id = None.
Proof.
  unfold find_stream. induction (n_streams n) as [| y ks IH]; cbn; [done |].
  intros [Hy Hid]%not_elem_of_cons. rewrite (proj2 (Z.eqb_neq _ _)) by congruence. by apply IH.
Qed.
End streams.

(** ** The subscriber *)

Section subscriber.
Context `{Sp : Splay quicrq_cached_fragment_t quicrq_fragment_cache_node_compare}.
Context {So : Splay okey quicrq_fragment_publisher_object_node_compare}.
Context {Sa : Splay akey quicrq_datagram_ack_node_compare}.
Context {Sr : Splay (Z * Z) quicrq_object_node_compare}.
Context {Al : Allocator} `{FL : FramesLaws} {PS : PicoStream} {PI : PicoStreamIds} {A : Type}.
Abbreviation bridge := (quicrq_object_stream_consumer_ctx (App := A * list object_call)).
Abbreviation client := (connection (So := So) (CS := option bridge)).
Implicit Types n : client.
Context (alloc_ok : forall z, malloc_ok z = true).
Context (provided : forall z fin active, picoquic_provide_stream_data_buffer z fin active = true).
Context (url : list Z) (url_small : url_ok url) (mode : quicrq_transport_mode_enum).
Context (sid : Z) (sid_bidirectional : Z.land sid 2 = 0) (a : A * list object_call).

(** The stream of the subscription, last of the streams of [n]; [pend] is what
    is left to send of the request. *)
Record subscribing (n0 n : client) (request pend : list Z) : Prop := {
  sb_stream : exists k, n_streams n = n_streams n0 ++ [k] /\ k_id k = sid /\
    k_media k = consuming (Some (bridge_start a)) /\ k_source k = None /\
    st_media_id (k_stream k) = cx_next_media_id (n_cnx n0) /\ st_transport_mode (k_stream k) = mode /\
    st_is_sender (k_stream k) = false /\ st_receive_state (k_stream k) = quicrq_receive_fragment /\
    st_start_group_id (k_stream k) = 0 /\ st_start_object_id (k_stream k) = 0 /\
    st_final_object_id (k_stream k) = 0 /\ st_message_receive (k_stream k) = msg_buffer_zero /\
    mb_pending (st_message_sent (k_stream k)) pend /\
    st_send_state (k_stream k) =
      if bool_decide (pend = []) then quicrq_sending_ready else quicrq_sending_initial;
  sb_uni : cx_uni_streams (n_cnx n) = cx_uni_streams (n_cnx n0);
  sb_calls : exists calls, cx_calls (n_cnx n) = cx_calls (n_cnx n0) ++ calls /\ sent_bytes calls ++ pend = request;
}.

Lemma subscribes n0 : sid ∉ map k_id (n_streams n0) -> is_id (cx_next_media_id (n_cnx n0)) ->
  exists n bytes, quicrq_subscribe_object_stream n0 sid url mode None a = (n, Some sid) /\
    0 < blen bytes <= blen url + 36 /\
    quicrq_msg_decode bytes = Some (request_message url (cx_next_media_id (n_cnx n0)) mode, []) /\
    subscribing n0 n (frame bytes) (frame bytes).
Proof.
  intros Hsid Hmid. set (mid := cx_next_media_id (n_cnx n0)) in *. pose proof (blen_nonneg url) as Hu0.
  pose proof url_small as Hu. unfold url_ok in Hu.
  assert (is_varint 0 /\ is_varint (blen url)) as [V0 Vl] by (unfold is_varint, two62; lia).
  assert (fits (quicrq_rq_msg_encode QUICRQ_ACTION_REQUEST (blen url) url mid mode
    quicrq_subscribe_intent_start_point 0 0) (quicrq_rq_msg_reserve (blen url) quicrq_subscribe_intent_start_point))
    as Hfits by (apply rq_msg_fits; try done; unfold QUICRQ_ACTION_REQUEST; lia).
  assert (quicrq_rq_msg_reserve (blen url) quicrq_subscribe_intent_start_point = blen url + 36) as Hres
    by (unfold quicrq_rq_msg_reserve; rewrite decide_True by done; lia).
  set (r := quicrq_rq_msg_reserve _ _) in *.
  destruct (encode_fits alloc_ok msg_buffer_zero _ r ltac:(done) ltac:(lia) Hfits)
    as (mb1 & mb2 & bytes & room & E1 & E2 & Hb & Er & Hp).
  { intros room bytes. by apply typed_nonempty. }
  unfold quicrq_subscribe_object_stream, quicrq_cnx_subscribe_media_ex, quicrq_create_stream_context.
  rewrite !alloc_ok. cbn [default intent_mode intent_start_group_id intent_start_object_id default_intent].
  unfold queue_message. cbn [control_zero k_stream stream_zero st_message_sent n_cnx n_set_streams]. fold mid r.
  rewrite E1. cbn [Z.eqb negb]. rewrite E2. cbn [Z.eqb negb].
  eexists _, bytes. split; [reflexivity |]. split; [lia |].
  split; [by eapply request_decodes |].
  pose proof (frame_length bytes) as Hfl.
  split.
  - eexists. cbn [n_call n_set_cnx n_streams n_set_streams]. split.
    { by apply (update_last _ _ _ sid). }
    rewrite bool_decide_false by (intros E; rewrite E in Hfl; change (blen (@nil Z)) with 0 in Hfl; lia).
    by split_and!.
  - done.
  - eexists. split; [cbn; reflexivity |]. done.
Qed.

(** picoquic polls the stream until the request is sent. *)
Context (fn : A -> object_call -> A * Z) (qr : quicrq_ctx_t) (now : Z).
#[local] Instance subscriber_bridge : Consumer (option bridge) := bridge_consumer fn now.

Fixpoint send_request n (spaces : list Z) : option client :=
  match spaces with
  | [] => Some n
  | space :: spaces =>
      k ← find_stream n sid;
      if bool_decide (st_send_state (k_stream k) = quicrq_sending_initial) then
        '(_, n, ret) ← prepare_stream_event qr n sid space now;
        if ret =? 0 then send_request n spaces else None
      else Some n
  end.

Lemma request_polled n0 n request pend space : sid ∉ map k_id (n_streams n0) ->
  subscribing n0 n request pend -> pend <> [] -> 0 < space ->
  exists n' pend', prepare_stream_event qr n sid space now = Some (qr, n', 0) /\
    subscribing n0 n' request pend' /\ (length pend' < length pend)%nat.
Proof.
  intros Hsid [(k & En & Eid & Em & Eso & Emid & Emode & Esend & Erec & Esg & Eso' & Efi & Emr & Hmb & Est) Huni
    (calls & Ecalls & Esent)] Hne Hspace.
  rewrite bool_decide_false in Est by done.
  assert (0 < blen pend) as Hpos.
  { pose proof (blen_nonneg pend). assert (blen pend <> 0) by by intros ?%blen_zero_nil. lia. }
  unfold prepare_stream_event. rewrite sid_bidirectional. cbn [Z.eqb].
  rewrite (find_last_id n _ k sid En Eid Hsid).
  unfold quicrq_prepare_to_send_on_stream, send_in_state. cbn [view w_stream]. rewrite Est.
  cbn [mbind option_bind Z.eqb]. cbn [view w_stream]. rewrite Est. unfold quicrq_msg_buffer_prepare_to_send.
  cbn [view w_stream].
  destruct (pending_sends provided _ _ space (final_point_to_send (k_stream k)) Hmb Hpos Hspace)
    as (mb & sent & pend' & active & -> & -> & Hsent & Hmb' & _).
  cbn [mbind option_bind]. eexists _, pend'. split; [reflexivity |]. split.
  - pose proof (pending_size _ _ Hmb') as Hsz.
    set (s := if mb_message_size mb =? 0 then _ else _).
    split.
    + exists (control_of_view (k_ack k) (w_call (w_set_stream (view qr n k) s) [stream_data sent false active])).
      unfold put_view. cbn [n_streams]. split; [rewrite En; apply (update_last _ _ _ sid); [subst s; by destruct (_ =? 0) | done ..] |].
      cbn -[bool_decide]. subst s. split_and!; try done; try by destruct (_ =? 0).
      destruct (Z.eqb_spec (mb_message_size mb) 0) as [Ez | Hz].
      * rewrite Ez in Hsz. destruct Hsz as [_ ->]. done.
      * destruct (Z.ltb_spec 0 (mb_message_size mb)); [| destruct Hsz as [(_ & ? & _) _]; done].
        rewrite bool_decide_false by (intros ->; change (blen (@nil Z)) with 0 in Hsz; lia). done.
    + exact Huni.
    + exists (calls ++ [stream_data sent false active]). cbn. rewrite Ecalls, (assoc_L (++)). split; [done |].
      rewrite sent_bytes_app, <- (assoc_L (++)). unfold sent_bytes at 2. cbn [flat_map]. by rewrite app_nil_r.
  - rewrite length_app. unfold blen in Hsent. lia.
Qed.

Lemma request_sent n0 spaces : forall n request pend, sid ∉ map k_id (n_streams n0) ->
  subscribing n0 n request pend -> Forall (fun space => 0 < space) spaces -> (length pend <= length spaces)%nat ->
  exists n', send_request n spaces = Some n' /\ subscribing n0 n' request [].
Proof.
  induction spaces as [| space spaces IH]; intros n request pend Hsid Hn Hsp Hlen; cbn [send_request].
  { destruct pend; [| cbn in Hlen; lia]. by exists n. }
  apply Forall_cons in Hsp as [Hspace Hsp].
  pose proof (sb_stream _ _ _ _ Hn) as (k & En & Eid & _ & _ & _ & _ & _ & _ & _ & _ & _ & _ & _ & Est).
  rewrite (find_last_id n _ k sid En Eid Hsid).
  cbn [mbind option_bind]. rewrite Est. destruct (decide (pend = [])) as [-> | Hne].
  { exists n. split; [reflexivity | exact Hn]. }
  rewrite (bool_decide_false (pend = [])), bool_decide_true by done.
  destruct (request_polled n0 n request pend space Hsid Hn Hne Hspace) as (n' & pend' & -> & Hn' & Hl).
  cbn [mbind option_bind Z.eqb]. apply (IH n' request pend'); try done. cbn in Hlen. lia.
Qed.
End subscriber.

(** ** The publisher *)

Section publisher.
Context `{Sp : Splay quicrq_cached_fragment_t quicrq_fragment_cache_node_compare}.
Context {So : Splay okey quicrq_fragment_publisher_object_node_compare}.
Context {Sa : Splay akey quicrq_datagram_ack_node_compare}.
Context {Al : Allocator} `{FL : FramesLaws} {PS : PicoStream} {PI : PicoStreamIds}.
Context {CS : Type} `{Co : Consumer CS}.
Context (default_source_fn : option (quicrq_ctx_t -> list Z -> quicrq_ctx_t * Z)).
Context (consumer_media_init_fn : option (list Z -> option CS * Z)).
Context (manage_relay_subscribe_fn : option (quicrq_ctx_t -> list Z -> quicrq_ctx_t)).
Context (alloc_ok : forall z, malloc_ok z = true).
Context (url : list Z) (mid : Z) (mode : quicrq_transport_mode_enum) (sid : Z) (source : quicrq_media_source_ctx_t).
Implicit Types (w : stream_world (CS := CS)) (mb : quicrq_message_buffer_t).

(** A source of the media, in whose cache nothing has arrived yet. *)
Record offers (qr : quicrq_ctx_t) : Prop := {
  of_found : quicrq_find_local_media_source qr url = Some source;
  of_cache : ms_cache source = quicrq_fragment_cache_create_ctx;
  of_policy : ms_is_cache_real_time source = false;
  of_congestion : qr_congestion_control_mode qr = quicrq_congestion_control_none;
}.

Definition can_be_requested : Prop :=
  mode = quicrq_transport_mode_single_stream \/ mode = quicrq_transport_mode_warp \/
  mode = quicrq_transport_mode_rush \/ mode = quicrq_transport_mode_datagram.

(** The stream that a request opens. *)
Definition serving_stream mb : quicrq_stream_ctx_t :=
  let s := st_set_mode (st_set_media (st_set_message_receive (stream_zero sid) mb) mid) mode in
  let s := st_set_start (st_set_cache_real_time s false) 0 0 in
  let s := if bool_decide (mode = quicrq_transport_mode_datagram) then st_set_active_datagram s true else s in
  st_set_receive (st_set_send (st_set_sender s true)
    (if bool_decide (mode = quicrq_transport_mode_single_stream) then quicrq_sending_single_stream
     else quicrq_sending_ready)) quicrq_receive_done.
Definition new_publisher : quicrq_fragment_publisher_context_t :=
  (quicrq_fragment_publisher_subscribe quicrq_fragment_cache_create_ctx quicrq_congestion_control_none).1.1.
(** The stream is added to those of the source. *)
Definition with_reader (qr : quicrq_ctx_t) (cnx : Z) : quicrq_ctx_t :=
  update_source qr (ms_set_streams source (ms_streams source ++ [(cnx, sid)])).

Lemma find_updated (qr : quicrq_ctx_t) (src src' : quicrq_media_source_ctx_t) :
  src ∈ qr_sources qr -> ms_id src' = ms_id src -> find_source (update_source qr src') (ms_id src') = Some src'.
Proof.
  unfold find_source, update_source. cbn. intros Hin Hid. induction (qr_sources qr) as [| x l IH].
  { by apply not_elem_of_nil in Hin. }
  cbn. destruct (Z.eqb_spec (ms_id x) (ms_id src')) as [E | Hne]; [by rewrite Z.eqb_refl |].
  rewrite (proj2 (Z.eqb_neq _ _) Hne). apply IH. apply elem_of_cons in Hin as [-> | ?]; [congruence | done].
Qed.

Lemma source_found (qr : quicrq_ctx_t) : quicrq_find_local_media_source qr url = Some source -> source ∈ qr_sources qr.
Proof. intros [H _]%List.find_some. by apply list_elem_of_In. Qed.

(** The world of the stream once it reads the source. *)
Definition reading_world w mb : stream_world (CS := CS) := {|
  w_qr := with_reader (w_qr w) (cx_id (w_cnx w)); w_cnx := w_cnx w;
  w_stream := st_set_start (st_set_cache_real_time
    (st_set_mode (st_set_media (st_set_message_receive (stream_zero sid) mb) mid) mode) false) 0 0;
  w_media := publishing (ms_id source) new_publisher; w_source := Some (ms_id source);
  w_notified := w_notified w |}.

Lemma request_subscribes w mb : offers (w_qr w) -> w_stream w = st_set_message_receive (stream_zero sid) mb ->
  quicrq_subscribe_local_media default_source_fn
    (w_set_stream w (st_set_mode (st_set_media (w_stream w) mid) mode)) url = (reading_world w mb, 0).
Proof.
  intros [Hfound Hcache Hpol Hcg] Es. unfold quicrq_subscribe_local_media. cbn [w_set_stream w_qr].
  rewrite Hfound. rewrite alloc_ok, Hcache, Hcg, Hpol, Es. destruct w. reflexivity.
Qed.

Lemma cx_call_nil x : cx_call x [] = x.
Proof. unfold cx_call. rewrite app_nil_r. by destruct x. Qed.

Lemma cx_call_app x l l' : cx_call (cx_call x l) l' = cx_call x (l ++ l').
Proof. unfold cx_call. cbn. by rewrite (assoc_L (++)). Qed.

Lemma override_zero s : st_start_group_id s = 0 /\ st_start_object_id s = 0 -> override_intent s 0 0 = (0, 0).
Proof. intros [Hg Ho]. unfold override_intent. by rewrite Hg, Ho. Qed.

Lemma set_same_stream w : w_set_stream w (w_stream w) = w.
Proof. by destruct w. Qed.

Lemma plain_wakes w : can_be_requested -> st_transport_mode (w_stream w) = mode -> learn_final w = Some w ->
  has_control_message (w_stream w) = false -> st_is_sender (w_stream w) = false ->
  exists calls, quicrq_wakeup_media_stream w =
    Some (w_call (w_set_stream w (if bool_decide (mode = quicrq_transport_mode_datagram)
                                  then st_set_active_datagram (w_stream w) true else w_stream w)) calls).
Proof.
  intros Hmode Em Hfinal Hcontrol Hsender. unfold quicrq_wakeup_media_stream. rewrite Em, Hfinal.
  cbn [mbind option_bind]. rewrite Hcontrol. cbn [mbind option_bind]. rewrite Em, Hsender. cbn [andb].
  assert (Some w = Some (w_call (w_set_stream w (w_stream w)) [])) as Hnil.
  { rewrite set_same_stream. unfold w_call. rewrite cx_call_nil. by destruct w. }
  destruct Hmode as [-> | [-> | [-> | ->]]].
  - exists [picoquic_mark_active_stream (st_stream_id (w_stream w)) true]. by rewrite set_same_stream.
  - by exists [].
  - by exists [].
  - by exists [picoquic_mark_datagram_ready true].
Qed.

(** The wake-up sends nothing yet, but makes a stream of datagrams active. *)
Lemma reading_wakes w mb : can_be_requested -> offers (w_qr w) ->
  exists calls, quicrq_wakeup_media_stream (reading_world w mb) =
    Some (w_call (w_set_stream (reading_world w mb)
      (if bool_decide (mode = quicrq_transport_mode_datagram)
       then st_set_active_datagram (w_stream (reading_world w mb)) true else w_stream (reading_world w mb))) calls).
Proof.
  intros Hmode [Hfound Hcache _ _].
  assert (learn_final (reading_world w mb) = Some (reading_world w mb)) as Hfinal.
  { unfold learn_final, cache_of. cbn [reading_world w_stream w_media w_qr].
    cbn [st_set_start st_set_cache_real_time st_set_mode st_set_media st_set_message_receive stream_zero
      st_is_final_object_id_sent].
    set (src := ms_set_streams source (ms_streams source ++ [(cx_id (w_cnx w), sid)])).
    pose proof (find_updated (w_qr w) source src (source_found _ Hfound) eq_refl) as Hf.
    unfold with_reader. fold src. change (ms_id src) with (ms_id source) in Hf. rewrite Hf.
    cbn [mbind option_bind]. change (ms_cache src) with (ms_cache source). rewrite Hcache. done. }
  apply plain_wakes; done.
Qed.

Lemma requested_state w ret : can_be_requested ->
  match mode with
  | quicrq_transport_mode_single_stream =>
      Some (w_mark_active (set_states w quicrq_sending_single_stream quicrq_receive_done) true, ret)
  | quicrq_transport_mode_datagram | quicrq_transport_mode_warp | quicrq_transport_mode_rush =>
      Some (set_states w quicrq_sending_ready quicrq_receive_done, ret)
  | _ => Some (w, -1)
  end = Some (if bool_decide (mode = quicrq_transport_mode_single_stream)
              then w_mark_active (set_states w quicrq_sending_single_stream quicrq_receive_done) true
              else set_states w quicrq_sending_ready quicrq_receive_done, ret).
Proof. intros [-> | [-> | [-> | ->]]]; done. Qed.

Lemma request_opens w mb : can_be_requested -> offers (w_qr w) ->
  w_stream w = st_set_message_receive (stream_zero sid) mb ->
  exists w' calls, receive_request default_source_fn w (request_message url mid mode) = Some (w', 0) /\
    w_qr w' = with_reader (w_qr w) (cx_id (w_cnx w)) /\ w_cnx w' = cx_call (w_cnx w) calls /\
    w_stream w' = serving_stream mb /\ w_media w' = publishing (ms_id source) new_publisher /\
    w_source w' = Some (ms_id source) /\ w_notified w' = w_notified w.
Proof.
  intros Hmode Ho Es. unfold receive_request.
  rewrite bool_decide_true by (rewrite Es; reflexivity). cbn [negb].
  change (media_id (request_message url mid mode)) with mid.
  change (transport_mode (request_message url mid mode)) with mode.
  change (Proto.url (request_message url mid mode)) with url.
  rewrite (request_subscribes w mb Ho Es). cbn [Z.eqb].
  destruct (reading_wakes w mb Hmode Ho) as (calls & ->). cbn [mbind option_bind].
  set (s := if bool_decide (mode = quicrq_transport_mode_datagram) then _ else _).
  change (intent_point _ (request_message url mid mode)) with (Some (0, 0)). cbn [mbind option_bind].
  rewrite override_zero by (subst s; by destruct (bool_decide _)). cbn [mbind option_bind Z.ltb Z.compare orb].
  rewrite (requested_state _ 0 Hmode).
  assert (forall send, st_set_receive (st_set_send (w_stream (w_set_stream
      (w_call (w_set_stream (reading_world w mb) s) calls) (st_set_sender s true))) send) quicrq_receive_done =
    st_set_receive (st_set_send (st_set_sender s true) send) quicrq_receive_done) as Hst by done.
  destruct (bool_decide (mode = quicrq_transport_mode_single_stream)) eqn:Em.
  - eexists _, (calls ++ [picoquic_mark_active_stream sid true]). split; [reflexivity |].
    split; [done |]. split; [| split; [| done]].
    + rewrite <- cx_call_app. subst s. by destruct (bool_decide _).
    + unfold serving_stream. rewrite Em. subst s. by destruct (bool_decide _).
  - eexists _, calls. split; [reflexivity |]. split; [done |]. split; [done |]. split; [| done].
    unfold serving_stream. rewrite Em. subst s. by destruct (bool_decide _).
Qed.

(** ** The request, in pieces *)

Lemma serving_message mb mb' : st_set_message_receive (serving_stream mb) mb' = serving_stream mb'.
Proof. unfold serving_stream. by destruct (bool_decide _), (bool_decide _). Qed.

Lemma serving_fields mb : let s := serving_stream mb in
  (st_media_id s = mid /\ st_transport_mode s = mode) /\
  (st_is_sender s = true /\ st_receive_state s = quicrq_receive_done) /\
  (st_next_group_id s = 0 /\ st_next_object_id s = 0 /\ st_next_object_offset s = 0) /\
  (st_next_warp_group_id s = 0 /\ st_next_rush_object_id s = 0) /\
  (st_final_group_id s = 0 /\ st_final_object_id s = 0).
Proof. unfold serving_stream. cbv zeta. by destruct (bool_decide _), (bool_decide _). Qed.

Lemma serving_state mb : let s := serving_stream mb in
  st_send_state s = (if bool_decide (mode = quicrq_transport_mode_single_stream) then quicrq_sending_single_stream
                     else quicrq_sending_ready) /\
  st_is_active_datagram s = bool_decide (mode = quicrq_transport_mode_datagram).
Proof. unfold serving_stream. cbv zeta. by destruct (bool_decide _), (bool_decide _). Qed.

(** What the request makes of the stream. *)
Definition opened_world w w' : Prop := exists calls mb,
  w_qr w' = with_reader (w_qr w) (cx_id (w_cnx w)) /\ w_cnx w' = cx_call (w_cnx w) calls /\
  w_stream w' = serving_stream mb /\ w_media w' = publishing (ms_id source) new_publisher /\
  w_source w' = Some (ms_id source) /\ w_notified w' = w_notified w.

Context (bytes : list Z) (bytes_small : blen bytes < 65536).
Context (request_is : quicrq_msg_decode bytes = Some (request_message url mid mode, [])).

Lemma request_message_opens w mb : can_be_requested -> offers (w_qr w) ->
  w_stream w = st_set_message_receive (stream_zero sid) mb -> mb_message mb bytes ->
  exists w', receive_control_message default_source_fn consumer_media_init_fn manage_relay_subscribe_fn w
      = Some (w', 0) /\ opened_world w w'.
Proof.
  intros Hmode Ho Es [Hmb _]. unfold receive_control_message. rewrite Es.
  change (st_message_receive (st_set_message_receive (stream_zero sid) mb)) with mb. rewrite Hmb, request_is.
  unfold receive_message. change (message_type (request_message url mid mode)) with QUICRQ_ACTION_REQUEST.
  rewrite Z.eqb_refl.
  destruct (request_opens w mb Hmode Ho Es) as (w' & calls & -> & H1 & H2 & H3 & H4 & H5 & H6).
  cbn [mbind option_bind]. rewrite H3, serving_message. eexists. split; [reflexivity |].
  by eexists calls, _.
Qed.

Abbreviation control_loop := (receive_control_loop default_source_fn consumer_media_init_fn manage_relay_subscribe_fn).

Lemma request_loop w mb acc b rest : can_be_requested -> offers (w_qr w) ->
  w_stream w = st_set_message_receive (stream_zero sid) mb -> mb_holds mb acc ->
  Forall is_byte acc -> Forall is_byte b -> (acc ++ b) ++ rest = frame bytes ->
  if bool_decide (rest = [] /\ b <> [])
  then exists w', control_loop (S (length b)) w b = Some (w', 0) /\ opened_world w w'
  else exists mb', control_loop (S (length b)) w b =
         Some (w_set_stream w (st_set_message_receive (stream_zero sid) mb'), 0) /\ mb_holds mb' (acc ++ b).
Proof.
  intros Hmode Ho Es Hmb Hacc Hb E. destruct b as [| c b].
  { rewrite bool_decide_false by (by intros [_ ?]). exists mb. rewrite app_nil_r. split; [| done].
    cbn. by rewrite <- Es, set_same_stream. }
  rewrite <- (app_nil_r (frame bytes)) in E.
  destruct (store_step alloc_ok mb acc (c :: b) bytes [] rest Hmb Hacc Hb bytes_small E)
    as (mb1 & rest1 & fin & Estore & Hfin). rewrite app_nil_r in E.
  cbn [receive_control_loop]. rewrite (bool_decide_false (st_receive_state (w_stream w) = quicrq_receive_done)) by by rewrite Es.
  rewrite Es. change (st_message_receive (st_set_message_receive (stream_zero sid) mb)) with mb. rewrite Estore.
  cbn [mbind option_bind].
  set (w1 := w_set_stream w (st_set_message_receive (st_set_message_receive (stream_zero sid) mb) mb1)).
  destruct fin.
  - destruct Hfin as (E1 & Hm & _). rewrite E1, <- (assoc_L (++)) in E.
    assert (rest1 = [] /\ rest = []) as [-> ->].
    { apply app_nil. apply (app_inv_head (frame bytes)). by rewrite app_nil_r. }
    rewrite bool_decide_true by done.
    destruct (request_message_opens w1 mb1 Hmode Ho eq_refl Hm) as (w' & -> & Hw').
    cbn [mbind option_bind Z.eqb]. exists w'. by split.
  - destruct Hfin as (-> & Hm & rest' & Hne & E1). rewrite bool_decide_false.
    { exists mb1. split; [| done]. cbn [length]. by destruct b. }
    intros [-> _]. rewrite <- E1, app_nil_r in E. apply (f_equal length) in E. rewrite (length_app _ rest') in E.
    destruct rest'; [done | cbn in E; lia].
Qed.

(** ** The events of the connection *)

Abbreviation server := (connection (So := So) (CS := CS)).
Implicit Types n : server.

(** The stream that receives the request. *)
Definition requested mb : control (So := So) (CS := CS) :=
  k_set_stream (control_zero sid) (st_set_message_receive (stream_zero sid) mb).
Definition requesting n mb : server := n_set_streams n (n_streams n ++ [requested mb]).

(** The stream that the request opened. *)
Definition opened n0 n : Prop := exists k calls mb,
  n_streams n = n_streams n0 ++ [k] /\ n_cnx n = cx_call (n_cnx n0) calls /\
  k_stream k = serving_stream mb /\ k_media k = publishing (ms_id source) new_publisher /\
  k_source k = Some (ms_id source) /\ k_ack k = quicrq_datagram_ack_ctx_init 0.

(** The deliveries of the transport on the stream, until one is refused. *)
Fixpoint receive_on (qr : quicrq_ctx_t) n (chunks : list (list Z)) : option (quicrq_ctx_t * server * Z) :=
  match chunks with
  | [] => Some (qr, n, 0)
  | b :: chunks =>
      '(qr, n, ret) ← receive_stream_event default_source_fn consumer_media_init_fn manage_relay_subscribe_fn
                        qr n sid b false;
      if ret =? 0 then receive_on qr n chunks else Some (qr, n, ret)
  end.

Context (sid_bidirectional : Z.land sid 2 = 0).

Lemma request_chunk qr n0 n mb acc b rest : can_be_requested -> offers qr -> sid ∉ map k_id (n_streams n0) ->
  (n = n0 /\ mb = msg_buffer_zero \/ n = requesting n0 mb) -> mb_holds mb acc ->
  Forall is_byte acc -> Forall is_byte b -> (acc ++ b) ++ rest = frame bytes ->
  if bool_decide (rest = [] /\ b <> [])
  then exists n', receive_stream_event default_source_fn consumer_media_init_fn manage_relay_subscribe_fn
           qr n sid b false = Some (with_reader qr (cx_id (n_cnx n0)), n', 0) /\ opened n0 n'
  else exists mb', receive_stream_event default_source_fn consumer_media_init_fn manage_relay_subscribe_fn
           qr n sid b false = Some (qr, requesting n0 mb', 0) /\ mb_holds mb' (acc ++ b).
Proof.
  intros Hmode Ho Hsid Hn Hmb Hacc Hb E. unfold receive_stream_event. rewrite sid_bidirectional. cbn [Z.eqb].
  assert (quicrq_find_or_create_stream n sid true = (requesting n0 mb, Some (requested mb))) as ->.
  { unfold quicrq_find_or_create_stream. destruct Hn as [[-> ->] | ->].
    - rewrite find_missing by done. unfold quicrq_create_stream_context. rewrite alloc_ok. reflexivity.
    - by rewrite (find_last_id _ (n_streams n0) (requested mb) sid). }
  unfold quicrq_receive_stream_data.
  assert (forall w k, k_id (control_of_view k w) = st_stream_id (w_stream w)) as Hkid by done.
  pose proof (request_loop (view qr (requesting n0 mb) (requested mb)) mb acc b rest Hmode Ho eq_refl Hmb Hacc Hb E) as H.
  destruct (bool_decide _).
  - destruct H as (w' & -> & calls & mb' & E1 & E2 & E3 & E4 & E5 & E6). cbn [mbind option_bind].
    eexists. split; [by rewrite E1 |]. exists (control_of_view (quicrq_datagram_ack_ctx_init 0) w'), calls, mb'.
    split; [| by split_and!]. unfold put_view. cbn [n_streams].
    apply (update_last _ _ _ sid); [| done | done]. rewrite Hkid, E3. unfold serving_stream.
    by destruct (bool_decide _), (bool_decide _).
  - destruct H as (mb' & -> & Hmb'). cbn [mbind option_bind]. exists mb'. split; [| done].
    match goal with |- Some (_, ?n', _) = _ => assert (n' = requesting n0 mb') as -> end; [| done].
    unfold put_view. change (n_streams (requesting n0 mb)) with (n_streams n0 ++ [requested mb]).
    by rewrite (update_last (n_streams n0) (requested mb) _ sid).
Qed.

Lemma request_received chunks : forall qr n0 n mb acc, can_be_requested -> offers qr ->
  sid ∉ map k_id (n_streams n0) -> (n = n0 /\ mb = msg_buffer_zero \/ n = requesting n0 mb) -> mb_holds mb acc ->
  Forall is_byte acc -> Forall (Forall is_byte) chunks -> Forall (fun b => b <> []) chunks -> chunks <> [] ->
  acc ++ concat chunks = frame bytes ->
  exists n', receive_on qr n chunks = Some (with_reader qr (cx_id (n_cnx n0)), n', 0) /\ opened n0 n'.
Proof.
  induction chunks as [| b chunks IH]; intros qr n0 n mb acc Hmode Ho Hsid Hn Hmb Hacc Hb Hne Hc E; [done |].
  apply Forall_cons in Hb as [Hb Hbs]. apply Forall_cons in Hne as [Hn1 Hne]. cbn [concat] in E.
  rewrite (assoc_L (++)) in E. cbn [receive_on].
  pose proof (request_chunk qr n0 n mb acc b (concat chunks) Hmode Ho Hsid Hn Hmb Hacc Hb E) as H.
  destruct (decide (chunks = [])) as [-> | Hmore].
  - rewrite bool_decide_true in H by done. destruct H as (n' & -> & Hn'). cbn [mbind option_bind Z.eqb receive_on].
    by exists n'.
  - rewrite bool_decide_false in H.
    + destruct H as (mb' & -> & Hmb'). cbn [mbind option_bind Z.eqb].
      apply (IH qr n0 (requesting n0 mb') mb' (acc ++ b)); try done; [by right | by apply Forall_app].
    + intros [H0 _]. destruct chunks as [| b2 chunks]; [done |]. apply Forall_cons in Hne as [Hb2 _].
      cbn in H0. by apply app_nil in H0 as [? _].
Qed.
End publisher.

(** ** Both ends *)

Section statement.
Context `{Sp : Splay quicrq_cached_fragment_t quicrq_fragment_cache_node_compare}.
Context {So : Splay okey quicrq_fragment_publisher_object_node_compare}.
Context {Sa : Splay akey quicrq_datagram_ack_node_compare}.
Context {Sr : Splay (Z * Z) quicrq_object_node_compare}.
Context {Al : Allocator} {PF : PicoFrames} {FL : FramesLaws PF} {PS : PicoStream} {PI : PicoStreamIds} {A : Type}.
Abbreviation bridge := (quicrq_object_stream_consumer_ctx (App := A * list object_call)).
Abbreviation client := (connection (So := So) (CS := option bridge)).

(** The subscriber is ready for the media [mid]: on the stream, as datagrams, or
    on unidirectional streams. *)
Definition ready_for (qr : quicrq_ctx_t) (n : client) (mid sid : Z) (mode : quicrq_transport_mode_enum) (a : A) : Prop :=
  match mode with
  | quicrq_transport_mode_single_stream =>
      exists k, find_stream n sid = Some k /\ ready_to_receive a (view qr n k)
  | quicrq_transport_mode_datagram => receives_media mid n (bridge_start (a, []))
  | quicrq_transport_mode_warp | quicrq_transport_mode_rush => warp_receives mid sid mode n (bridge_start (a, []))
  | _ => False
  end.

(** The stream [k] of the publisher is ready to send the media [mid] of the
    source: at its start, with a new publisher, and in the state of its mode. *)
Record ready_to_serve {CS : Type} (k : control (So := So) (CS := CS)) (source : quicrq_media_source_ctx_t) (mid : Z)
    (mode : quicrq_transport_mode_enum) (cg : quicrq_cnx_congestion_state_t) : Prop := {
  rs_media : st_media_id (k_stream k) = mid /\ st_transport_mode (k_stream k) = mode;
  rs_publisher : k_media k = publishing (ms_id source) (wp_media (warp_start (k_stream k) cg)) /\
    k_source k = Some (ms_id source);
  rs_sender : st_is_sender (k_stream k) = true /\ st_receive_state (k_stream k) = quicrq_receive_done;
  rs_position : st_next_group_id (k_stream k) = 0 /\ st_next_object_id (k_stream k) = 0 /\
    st_next_object_offset (k_stream k) = 0;
  rs_state : match mode with
    | quicrq_transport_mode_single_stream => st_send_state (k_stream k) = quicrq_sending_single_stream
    | quicrq_transport_mode_datagram => sends_datagrams (k_stream k) = true /\ ack_of k = dw_ack (datagram_start mid cg)
    | _ => st_send_state (k_stream k) = quicrq_sending_ready /\ warp_control mid (k_stream k)
    end;
}.

Lemma subscriber_ready qr n0 n sid mode (a : A) request : can_be_requested mode ->
  sid ∉ map k_id (n_streams n0) -> NoDup (map k_id (n_streams n0)) ->
  Forall (fun y => st_media_id (k_stream y) <> cx_next_media_id (n_cnx n0)) (n_streams n0) ->
  cx_uni_streams (n_cnx n0) = [] ->
  subscribing mode sid (a, []) n0 n request [] -> ready_for qr n (cx_next_media_id (n_cnx n0)) sid mode a.
Proof.
  intros Hmode Hsid Hnd Hmid Huni0 [(k & En & Eid & Em & _ & Emid & Emode & Es & Er & Eg & Eo & Ef & Emr & _) Huni _].
  assert (NoDup (map k_id (n_streams n))) as Hnd'.
  { rewrite En, map_app. apply NoDup_app. split; [done |]. split; [| apply NoDup_singleton].
    intros i Hi ->%list_elem_of_singleton. by rewrite Eid in Hi. }
  destruct Hmode as [-> | [-> | [-> | ->]]]; cbn.
  - exists k. split; [by apply (find_last_id n (n_streams n0)) |]. by split.
  - split; [by exists (n_streams n0), k, [] | done |]. rewrite Huni, Huni0. by apply NoDup_nil_2.
  - split; [by exists (n_streams n0), k, [] | done |]. rewrite Huni, Huni0. by apply NoDup_nil_2.
  - split; [| done]. exists (n_streams n0), k, []. split; [done |]. split.
    + eapply Forall_impl; [exact Hmid |]. intros y Hy. unfold receives_datagrams.
      by rewrite (proj2 (Z.eqb_neq _ _) Hy), andb_false_r.
    + split; [| done]. unfold receives_datagrams. by rewrite Es, Emode, Emid, Z.eqb_refl.
Qed.

Lemma serving_ready {CS : Type} (k : control (So := So) (CS := CS)) source mid mode sid mb cg : can_be_requested mode ->
  is_id mid -> k_stream k = serving_stream mid mode sid mb -> k_media k = publishing (ms_id source) new_publisher ->
  k_source k = Some (ms_id source) -> k_ack k = quicrq_datagram_ack_ctx_init 0 ->
  ready_to_serve k source mid mode cg.
Proof.
  intros Hmode [_ Hmid] Es Em Eso Ea.
  destruct (serving_fields mid mode sid mb) as (Hid & Hs & Hp & Hw & Hf). destruct (serving_state mid mode sid mb) as [Hst Ha].
  rewrite <- Es in *. clear Es. split; [exact Hid | by split | exact Hs | exact Hp |]. destruct Hid as [Hid Hm].
  destruct Hmode as [-> | [-> | [-> | ->]]]; [exact Hst | by split; [exact Hst | split] .. |]. split.
  - unfold sends_datagrams. rewrite Hm, (proj1 Hs), Ha, Hid. apply Z.ltb_lt. etrans; [exact Hmid | reflexivity].
  - unfold ack_of. by rewrite Ea, Hid.
Qed.

(** [C9] The subscription to a media.  An application subscribes to the objects
    of a media on a connection where no stream uses the identifier that the
    transport gives, nor the next media identifier; picoquic asks for the data
    of the stream at least as many times as the request has bytes, with any
    space; and these bytes, cut in any pieces, are delivered to a node that has
    a source of the media, in whose cache nothing arrived yet.  Then the
    subscription succeeds and the whole request is sent; the subscriber is in
    the state from which the media is received in its mode; no delivery is
    refused; and the publisher has one more stream, registered with the source
    and in the state from which the media is sent in this mode, under the same
    media identifier. *)
Theorem subscription_opens {CS : Type} `{Co : Consumer CS}
    (default_source_fn : option (quicrq_ctx_t -> list Z -> quicrq_ctx_t * Z))
    (consumer_media_init_fn : option (list Z -> option CS * Z))
    (manage_relay_subscribe_fn : option (quicrq_ctx_t -> list Z -> quicrq_ctx_t))
    (fn : A -> object_call -> A * Z) (a : A) (now : Z) url mode sid source (cg : quicrq_cnx_congestion_state_t)
    (subscriber_qr : quicrq_ctx_t) (subscriber : client) (spaces : list Z)
    (publisher_qr : quicrq_ctx_t) (publisher : connection (So := So) (CS := CS)) (chunks : list (list Z)) :
  let mid := cx_next_media_id (n_cnx subscriber) in
  (forall z, malloc_ok z = true) -> (forall z fin active, picoquic_provide_stream_data_buffer z fin active = true) ->
  url_ok url -> can_be_requested mode -> is_id mid -> Z.land sid 2 = 0 ->
  sid ∉ map k_id (n_streams subscriber) -> NoDup (map k_id (n_streams subscriber)) ->
  Forall (fun y => st_media_id (k_stream y) <> mid) (n_streams subscriber) -> cx_uni_streams (n_cnx subscriber) = [] ->
  Forall (fun space => 0 < space) spaces -> blen url + 38 <= Z.of_nat (length spaces) ->
  offers url source publisher_qr -> sid ∉ map k_id (n_streams publisher) ->
  exists n n' calls,
    quicrq_subscribe_object_stream subscriber sid url mode None (a, []) = (n, Some sid) /\
    send_request sid fn subscriber_qr now n spaces = Some n' /\
    cx_calls (n_cnx n') = cx_calls (n_cnx subscriber) ++ calls /\
    ready_for subscriber_qr n' mid sid mode a /\
    (concat chunks = sent_bytes calls -> Forall (Forall is_byte) chunks -> Forall (fun b => b <> []) chunks ->
     exists n2 k, receive_on default_source_fn consumer_media_init_fn manage_relay_subscribe_fn sid
         publisher_qr publisher chunks = Some (with_reader sid source publisher_qr (cx_id (n_cnx publisher)), n2, 0) /\
       n_streams n2 = n_streams publisher ++ [k] /\ k_id k = sid /\ ready_to_serve k source mid mode cg).
Proof.
  intros mid Hal Hpr Hurl Hmode Hmid Hbi Hsid Hnd Hmids Huni Hspaces Hlen Ho Hsid2.
  destruct (subscribes Hal url Hurl mode sid (a, []) subscriber Hsid Hmid) as (n & bytes & E1 & Hb & Hdec & Hn).
  destruct (request_sent Hpr mode sid Hbi (a, []) fn subscriber_qr now subscriber spaces n _ _ Hsid Hn Hspaces)
    as (n' & E2 & Hn').
  { pose proof (frame_length bytes) as Hl. unfold blen in Hl, Hb, Hlen. lia. }
  destruct (sb_calls _ _ _ _ _ _ _ Hn') as (calls & Ecalls & Esent). rewrite app_nil_r in Esent.
  exists n, n', calls. split; [exact E1 |]. split; [exact E2 |]. split; [exact Ecalls |]. split.
  { by eapply subscriber_ready. }
  intros Ec Hbytes Hne. rewrite Esent in Ec.
  destruct (request_received default_source_fn consumer_media_init_fn manage_relay_subscribe_fn Hal url mid mode
    sid source bytes) with (chunks := chunks) (qr := publisher_qr) (n0 := publisher) (n := publisher)
    (mb := msg_buffer_zero) (acc := @nil Z) as (n2 & E3 & k & calls2 & mb & Ek & _ & Es & Em & Eso & Ea); try done.
  - unfold url_ok in Hurl. lia.
  - by left.
  - by intros ->.
  - exists n2, k. split; [exact E3 |]. split; [exact Ek |].
    split; [unfold k_id; rewrite Es; unfold serving_stream; by destruct (bool_decide _), (bool_decide _) |].
    by eapply serving_ready.
Qed.
End statement.

(** ** Witnesses *)

Module SubscriptionDemo.
Import AckDemo WarpDemo.
Definition url : list Z := [97; 98].
Definition subscriber
  : connection (CS := option (quicrq_object_stream_consumer_ctx (App := Z * list object_call))) :=
  {| n_cnx := EndToEndDemo.cnx; n_streams := [] |}.
Definition publisher : connection (CS := list consumer_call) :=
  {| n_cnx := EndToEndDemo.cnx; n_streams := [control_zero 0] |}.
Definition source : quicrq_media_source_ctx_t := {|
  ms_id := 3; ms_media_url := url; ms_cache := quicrq_fragment_cache_create_ctx;
  ms_is_local_object_source := true; ms_is_cache_real_time := false; ms_streams := [] |}.
Definition publisher_qr : quicrq_ctx_t := qr_set_sources EndToEndDemo.qr [source] 4.
Definition spaces : list Z := 1 :: repeat 5 39.
(** The request, in three pieces. *)
Definition chunks : list (list Z) := [[0]; [9; 1; 2; 97; 98; 0]; [2; 2; 0; 0]].

Abbreviation subscribe :=
  (quicrq_subscribe_object_stream subscriber 4 url quicrq_transport_mode_warp None (0, [])).
Abbreviation send := (send_request 4 ConsumerDemo.app EndToEndDemo.qr 7 subscribe.1 spaces).
Abbreviation receive_chunks := (receive_on (Co := ReceiverDemo.recorder) None None None 4 publisher_qr publisher chunks).

Lemma subscribed_run : exists n', send = Some n' /\ sent_bytes (cx_calls (n_cnx n')) = concat chunks.
Proof. apply (option_map_some (fun n' => sent_bytes (cx_calls (n_cnx n')))). vm_compute. reflexivity. Qed.

(** Cancelling the subscription is not defined: the structure of the consumer
    was freed when the stream was deleted. *)
Example unsubscribe_after_free :
  option_map (fun k => option_map (fun _ => tt) (quicrq_unsubscribe_object_stream
      (Co := bridge_consumer ConsumerDemo.app 7) EndToEndDemo.qr subscribe.1 k)) (find_stream subscribe.1 4)
  = Some None.
Proof. vm_compute. reflexivity. Qed.
End SubscriptionDemo.
Import AckDemo WarpDemo SubscriptionDemo.

Lemma subscription_opens_witness :
  exists n', send = Some n' /\ ready_for EndToEndDemo.qr n' 0 4 quicrq_transport_mode_warp 0 /\
    exists n2 k, receive_chunks = Some (with_reader 4 source publisher_qr 1, n2, 0) /\
      n_streams n2 = n_streams publisher ++ [k] /\ k_id k = 4 /\
      ready_to_serve k source 0 quicrq_transport_mode_warp congestion_zero.
Proof.
  destruct (subscription_opens (Co := ReceiverDemo.recorder) None None None ConsumerDemo.app 0 7 url quicrq_transport_mode_warp 4 source
    congestion_zero EndToEndDemo.qr subscriber spaces publisher_qr publisher chunks)
    as (n & n' & calls & E1 & E2 & Ec & Hr & Hp).
  - intros z. exact eq_refl.
  - intros z fin active. exact eq_refl.
  - unfold url_ok, blen. cbn. lia.
  - right. left. exact eq_refl.
  - unfold is_id, two62. cbn. lia.
  - exact eq_refl.
  - intros H. by apply elem_of_nil in H.
  - apply NoDup_nil_2.
  - by apply Forall_nil.
  - exact eq_refl.
  - unfold spaces. cbn. repeat (apply Forall_cons; split; [lia |]). by apply Forall_nil.
  - unfold blen. cbn. lia.
  - split; exact eq_refl.
  - intros H. apply list_elem_of_singleton in H. discriminate H.
  - assert (send = Some n') as Es by (rewrite E1; exact E2).
    exists n'. split; [exact Es |]. split; [exact Hr |]. apply Hp.
    + destruct subscribed_run as (n3 & E3 & E4). rewrite Es in E3. injection E3 as <-.
      rewrite <- E4, Ec. reflexivity.
    + unfold chunks. repeat constructor; done.
    + unfold chunks. repeat constructor; done.
Defined.
