(* ===== verification/ApplicationTheorems.v ===== *)
(** * From application to application

    What an application publishes object by object (lib/object_source.c), in
    any interleaving with the calls of picoquic, is what the application of a
    subscriber is given. *)

From S2P Require Import Prelude Picosplay PicoFrames Media Proto Reassembly ReassemblyDelivery.
From S2P Require Import Fragment FragmentProofs FragmentReads FragmentHistory FragmentTheorems.
From S2P Require Import PublisherContext.
From S2P Require Import Congestion Publisher PublisherProofs MsgBuffer StreamContext MediaStream.
From S2P Require Import MediaStreamProofs MediaStreamTheorems Warp ControlStream ControlStreamTheorems.
From S2P Require Import StreamReceive.
From S2P Require Import ObjectConsumer ObjectConsumerTheorems EndToEnd ObjectSource.

(** ** The progression of the identifiers *)

(** A call to [quicrq_publish_object]. *)
Record publication := {
  pb_data : list Z;
  pb_flags : Z;
  pb_group : Z;
  pb_object : Z;
  pb_time : Z;
}.
Definition pb_key (p : publication) : Z * Z := (pb_group p, pb_object p).

Inductive app_event :=
  | Publish (p : publication)
  | PublishFin
  | Poll (space now : Z).

(** The next object of the group, or the first of the next group. *)
Definition is_next (next : Z * Z) (k : Z * Z) : bool :=
  bool_decide (k = next) || (bool_decide (k = (next.1 + 1, 0)) && negb (next.2 =? 0)).

(** The objects accepted: their identifiers and contents. *)
Fixpoint accepted (next : Z * Z) (es : list app_event) : list (Z * Z * list Z) :=
  match es with
  | [] => []
  | Publish p :: es =>
      if is_next next (pb_key p)
      then (pb_group p, pb_object p, pb_data p) :: accepted (pb_group p, pb_object p + 1) es
      else accepted next es
  | _ :: es => accepted next es
  end.

(** The value returned by each call. *)
Fixpoint verdicts (next : Z * Z) (es : list app_event) : list Z :=
  match es with
  | [] => []
  | Publish p :: es =>
      if is_next next (pb_key p) then 0 :: verdicts (pb_group p, pb_object p + 1) es
      else -1 :: verdicts next es
  | _ :: es => verdicts next es
  end.

(** The calls to [quicrq_publish_object], in order. *)
Definition publications (es : list app_event) : list publication :=
  omap (fun e => match e with Publish p => Some p | _ => None end) es.

Fixpoint next_after (next : Z * Z) (es : list app_event) : Z * Z :=
  match es with
  | [] => next
  | Publish p :: es =>
      next_after (if is_next next (pb_key p) then (pb_group p, pb_object p + 1) else next) es
  | _ :: es => next_after next es
  end.

(** The whole object as a fragment. *)
Definition whole_fragment (next : Z * Z) (p : publication) : fragment := {|
  f_time := pb_time p; f_data := pb_data p; f_group := pb_group p; f_object := pb_object p;
  f_offset := 0; f_delay := 0; f_flags := pb_flags p;
  f_nb_previous := if pb_group p =? next.1 then 0 else next.2;
  f_object_length := blen (pb_data p); f_data_length := blen (pb_data p) |}.

(** What the sender of the media sees. *)
Fixpoint arrivals (next : Z * Z) (es : list app_event) : list sender_event :=
  match es with
  | [] => []
  | Publish p :: es =>
      if is_next next (pb_key p)
      then Arrive (whole_fragment next p) :: arrivals (pb_group p, pb_object p + 1) es
      else arrivals next es
  | PublishFin :: es => FinalPoint next.1 next.2 :: arrivals next es
  | Poll space now :: es => Prepare space now :: arrivals next es
  end.

Lemma is_next_cases next k : is_next next k = true ->
  k = next \/ (k = (next.1 + 1, 0) /\ next.2 <> 0).
Proof.
  unfold is_next. intros [H | [H H']%andb_true_iff]%orb_true_iff; apply bool_decide_eq_true in H; b2p; auto.
Qed.

(** A media that starts at (0, 0) cannot start elsewhere. *)
Lemma first_verdict es p : head (publications es) = Some p -> pb_key p <> (0, 0) ->
  head (verdicts (0, 0) es) = Some (-1).
Proof.
  induction es as [| [q | | space now] es IH]; cbn [publications verdicts omap list_omap head];
    [done | | exact IH | exact IH].
  intros [= ->] Hne. destruct (is_next (0, 0) (pb_key p)) eqn:E; [| done].
  by apply is_next_cases in E as [? | [_ []]].
Qed.

(** ** The media that is published *)

(** The number of objects of a group in a list, at least one. *)
Definition highest (l : list (Z * Z * list Z)) (g : Z) : Z :=
  foldr (fun e n => if e.1.1 =? g then Z.max n (e.1.2 + 1) else n) 1 l.
(** The same, with what is before [next]. *)
Definition objects_in (next : Z * Z) (l : list (Z * Z * list Z)) (g : Z) : Z :=
  Z.max (if g =? next.1 then next.2 else 1) (highest l g).

Lemma highest_positive l g : 1 <= highest l g.
Proof.
  unfold highest. induction l as [| [[g' o'] d] l IH]; cbn; [lia |]. destruct (g' =? g); lia.
Qed.

(** The objects that are not published have one byte, [b]. *)
Definition content_of (b : Z) (l : list (Z * Z * list Z)) (k : Z * Z) : list Z :=
  let d := default [b] ((list_to_map l : gmap (Z * Z) (list Z)) !! k) in
  if blen d <? two62 then d else [b].
Lemma content_of_range b l k : blen (content_of b l k) < two62.
Proof.
  unfold content_of. cbv zeta. destruct (_ <? two62) eqn:E; [by apply Z.ltb_lt in E | by vm_compute].
Qed.
Lemma count_of_range l g : 1 <= Z.min two62 (highest l g) <= two62.
Proof. pose proof (highest_positive l g). u64_lia. Qed.

Definition media_of (b : Z) (l : list (Z * Z * list Z)) : media := {|
  content := content_of b l;
  count := fun g => Z.min two62 (highest l g);
  content_range := content_of_range b l;
  count_range := count_of_range l |}.

Inductive numbered : Z * Z -> list (Z * Z * list Z) -> Prop :=
  | numbered_nil next : numbered next []
  | numbered_cons next g o d l : is_next next (g, o) = true -> numbered (g, o + 1) l ->
      numbered next ((g, o, d) :: l).

Lemma accepted_numbered es : forall next, numbered next (accepted next es).
Proof.
  induction es as [| [p | | space now] es IH]; intros next; cbn; [constructor | | done | done].
  destruct (is_next next (pb_key p)) eqn:E; [by constructor | done].
Qed.

Definition next_ok (next : Z * Z) : Prop := 0 <= next.1 /\ 0 <= next.2 /\ (next.2 = 0 -> next.1 = 0).

Lemma is_next_ok next g o : next_ok next -> is_next next (g, o) = true ->
  next_ok (g, o + 1) /\ key_le next (g, o) /\ 0 <= g /\ 0 <= o.
Proof.
  unfold next_ok, key_le. intros Hn [<- | [[= -> ->] H]]%is_next_cases; cbn in *; lia.
Qed.

Lemma numbered_above next l : numbered next l -> next_ok next ->
  Forall (fun e => key_le next e.1 /\ 0 <= e.1.1 /\ 0 <= e.1.2) l.
Proof.
  induction 1 as [| next g o d l Hn _ IH]; intros Hok; [constructor |].
  destruct (is_next_ok next g o Hok Hn) as (Hok' & Hle & H1 & H2). constructor; [done |].
  eapply Forall_impl; [by apply IH |]. intros [[g' o'] d'] [Hk ?]. split; [| done].
  unfold key_le in *. cbn in *. lia.
Qed.

Lemma numbered_nodup next l : numbered next l -> next_ok next -> NoDup l.*1.
Proof.
  induction 1 as [| next g o d l Hn Hl IH]; intros Hok; [constructor |].
  destruct (is_next_ok next g o Hok Hn) as (Hok' & _). cbn. constructor; [| by apply IH].
  intros ([[g' o'] d'] & E & Hin)%list_elem_of_fmap. cbn in E. injection E as <- <-.
  pose proof (numbered_above _ _ Hl Hok') as H. rewrite Forall_forall in H.
  destruct (H _ Hin) as [Hle _]. unfold key_le in Hle. cbn in Hle. lia.
Qed.

Lemma highest_above l g : Forall (fun e => g < e.1.1) l -> highest l g = 1.
Proof.
  induction 1 as [| [[g' o'] d] l Hg _ IH]; [done |]. cbn in *.
  destruct (Z.eqb_spec g' g); [lia | exact IH].
Qed.

Lemma objects_in_cons next g o d l g' : next_ok next -> is_next next (g, o) = true -> g <= g' ->
  objects_in next ((g, o, d) :: l) g' = objects_in (g, o + 1) l g'.
Proof.
  intros Hok Hn Hg. unfold objects_in, next_ok in *. cbn. fold (highest l g').
  pose proof (highest_positive l g').
  apply is_next_cases in Hn as [<- | [[= -> ->] Hz]]; cbn in *.
  - rewrite (Z.eqb_sym g g'). destruct (Z.eqb_spec g' g); lia.
  - rewrite (Z.eqb_sym (next.1 + 1) g').
    destruct (Z.eqb_spec g' next.1), (Z.eqb_spec g' (next.1 + 1)); lia.
Qed.

(** A media that has the objects of a list, after [next]. *)
Record agrees (md : media) (next : Z * Z) (l : list (Z * Z * list Z)) : Prop := {
  ag_next : next_ok next;
  ag_numbered : numbered next l;
  ag_count : forall g, next.1 <= g -> count md g = objects_in next l g;
  ag_content : Forall (fun e => content md e.1 = e.2) l;
}.

Lemma agrees_cons md next g o d l : agrees md next ((g, o, d) :: l) ->
  is_next next (g, o) = true /\ agrees md (g, o + 1) l /\ content md (g, o) = d /\ o < count md g /\
  (g = next.1 \/ count md next.1 = next.2) /\ 0 <= g /\ 0 <= o.
Proof.
  intros [Hok Hnum Hcount Hcontent]. inversion Hnum as [| ? ? ? ? ? Hn Hl]; subst.
  destruct (is_next_ok next g o Hok Hn) as (Hok' & Hle & ? & ?).
  apply Forall_cons in Hcontent as [Hd Hcontent]. split_and!; try done.
  - split; try done. intros g' Hg'. cbn in Hg'. rewrite Hcount by (unfold key_le in Hle; cbn in *; lia).
    by apply objects_in_cons.
  - rewrite Hcount, (objects_in_cons next g o d l) by (unfold key_le in Hle; cbn in *; done || lia).
    unfold objects_in. cbn. rewrite Z.eqb_refl. lia.
  - apply is_next_cases in Hn as [<- | [[= -> ->] Hz]]; [by left | right].
    rewrite Hcount by lia. unfold objects_in. rewrite Z.eqb_refl, highest_above.
    { destruct Hok as (? & ? & ?). lia. }
    constructor; cbn; [lia |]. eapply Forall_impl; [by apply (numbered_above _ _ Hl) |].
    intros [[g' o'] d'] [Hle' _]. unfold key_le in Hle'. cbn in *. lia.
Qed.

Lemma media_from_shift md k n : media_from md k (S n) = media_from md (media_next md k) n.
Proof. induction n as [| n IH]; [done |]. by rewrite media_from_S, IH, <- media_from_S. Qed.

(** The objects are those of the enumeration of the media. *)
Lemma agrees_from md next l i e : agrees md next l -> next.2 <> 0 -> l !! i = Some e ->
  media_from md (next.1, next.2 - 1) (S i) = e.1.
Proof.
  revert next i. induction l as [| [[g o] d] l IH]; intros next i Ha Hz; [by destruct i |].
  pose proof Ha as Hs. apply agrees_cons in Hs as (Hn & Ha' & _ & Ho & Hc & _ & Ho0).
  assert (media_next md (next.1, next.2 - 1) = (g, o)) as E.
  { unfold media_next. cbn [fst snd]. apply is_next_cases in Hn as [<- | [[= -> ->] _]]; cbn [fst snd] in *.
    - destruct (Z.ltb_spec (o - 1 + 1) (count md g)); [f_equal; lia | lia].
    - destruct Hc as [? | Hc]; [lia |]. destruct (Z.ltb_spec (next.2 - 1 + 1) (count md next.1)); [lia | done]. }
  rewrite media_from_shift, E. destruct i as [| i]; [by intros [= <-] |]. cbn [lookup list_lookup].
  intros Hi. apply (IH (g, o + 1) i Ha') in Hi; [| cbn; lia]. cbn [fst snd] in Hi.
  by replace (o + 1 - 1) with o in Hi by lia.
Qed.

Lemma agrees_start md l i e : agrees md (0, 0) l -> l !! i = Some e -> media_from md (0, 0) i = e.1.
Proof.
  destruct l as [| [[g o] d] l]; [done |]. intros (Hn & Ha & _)%agrees_cons.
  apply is_next_cases in Hn as [[= -> ->] | [_ []]]; [| done].
  destruct i as [| i]; [by intros [= <-] |]. intros Hi.
  exact (agrees_from md (0, 1) l i e Ha ltac:(done) Hi).
Qed.

(** The sizes that the headers of a single stream allow. *)
Definition object_small (e : Z * Z * list Z) : Prop :=
  e.1.1 < 16384 /\ e.1.2 < 16383 /\ 0 < blen e.2 < 16384.

Lemma highest_bound l g n : 1 <= n -> Forall (fun e => e.1.2 < n) l -> highest l g <= n.
Proof.
  intros Hn. induction 1 as [| [[g' o'] d] l Ho _ IH]; cbn in *; [lia |]. fold (highest l g).
  destruct (g' =? g); lia.
Qed.

Lemma media_of_agrees b l : numbered (0, 0) l -> Forall object_small l ->
  agrees (media_of b l) (0, 0) l /\ sendable (media_of b l).
Proof.
  intros Hnum Hs. assert (next_ok (0, 0)) as Hok by done.
  assert (forall g, highest l g < 16384) as Hh.
  { intros g. pose proof (highest_bound l g 16383). eapply Z.le_lt_trans; [apply H; [lia |] | lia].
    eapply Forall_impl; [exact Hs |]. intros e He. apply He. }
  assert (Forall (fun e => content (media_of b l) e.1 = e.2) l) as Hc.
  { apply Forall_forall. intros [k d] Hin. rewrite Forall_forall in Hs. specialize (Hs _ Hin).
    cbn. unfold content_of. rewrite (elem_of_list_to_map_1 l k d) by (by eapply numbered_nodup || done).
    cbn in *. destruct (Z.ltb_spec (blen d) two62); [done |]. destruct Hs as (_ & _ & ?). cbn in *. u64_lia. }
  assert (forall k, 0 < blen (content_of b l k) < 16384) as Hsmall.
  { intros k. unfold content_of. destruct (list_to_map l !! k) as [d |] eqn:E; cbn [default]; [| done].
    apply elem_of_list_to_map_2 in E. rewrite Forall_forall in Hs. destruct (Hs _ E) as (_ & _ & ?). cbn in *.
    by destruct (blen d <? two62). }
  split; split; try done.
  - intros g Hg. cbn in *. unfold objects_in. pose proof (highest_positive l g). specialize (Hh g).
    cbn. destruct (Z.eqb_spec g 0); u64_lia.
  - intros k. apply Hsmall.
  - intros k. apply Hsmall.
  - intros g. specialize (Hh g). cbn. lia.
Qed.

(** ** What the sender of a published media sees *)

Definition space_ok (e : app_event) : Prop :=
  match e with Poll space _ => 17 <= space < 16384 | _ => True end.
Definition is_poll (e : app_event) : Prop :=
  match e with Poll _ _ => True | _ => False end.
(** After the end of the media, nothing is published. *)
Fixpoint fin_last (es : list app_event) : Prop :=
  match es with
  | [] => True
  | PublishFin :: es => Forall is_poll es
  | _ :: es => fin_last es
  end.

Lemma polls_arrivals next es : Forall is_poll es ->
  arrived (arrivals next es) = [] /\ final_points (arrivals next es) = [] /\ accepted next es = [].
Proof. induction 1 as [| [p | | space now] es He _ IH]; [done | done | done | exact IH]. Qed.

Lemma arrivals_spaces es : forall next, Forall space_ok es -> Forall spaces_ok (arrivals next es).
Proof.
  induction es as [| [p | | space now] es IH]; intros next Hes; [constructor | ..];
    apply Forall_cons in Hes as [He Hes]; cbn [arrivals].
  - destruct (is_next next (pb_key p)); [| by apply IH]. constructor; [done | by apply IH].
  - constructor; [done | by apply IH].
  - constructor; [done | by apply IH].
Qed.

(** The whole object of a fragment. *)
Record whole_of (md : media) (f : fragment) : Prop := {
  wh_consistent : consistent md f;
  wh_all : f_offset f = 0 /\ f_data_length f = blen (content md (f_key f));
  wh_small : object_small (f_group f, f_object f, f_data f);
}.

Lemma whole_fragment_of md next p l :
  agrees md next ((pb_group p, pb_object p, pb_data p) :: l) ->
  object_small (pb_group p, pb_object p, pb_data p) -> whole_of md (whole_fragment next p).
Proof.
  intros Ha Hs. pose proof Ha as (Hn & _ & Hd & Ho & Hc & Hg0 & Ho0)%agrees_cons.
  pose proof Hs as (Hg & Hob & Hb). cbn [fst snd] in *.
  split; [split | split; [done | unfold f_key; cbn; by rewrite Hd] | done]; unfold f_key; cbn [whole_fragment f_group f_object f_offset f_data_length
    f_object_length f_data f_nb_previous]; rewrite ?Hd; unfold is_id.
  - u64_lia.
  - u64_lia.
  - done.
  - lia.
  - by rewrite slice_all.
  - intros Hg1 Ho1 _. destruct (Z.eqb_spec (pb_group p) next.1) as [E | E].
    + destruct (ag_next _ _ _ Ha) as (_ & _ & Hz).
      apply is_next_cases in Hn as [<- | [[= ? ?] ?]]; cbn in *; lia.
    + destruct Hc as [? | Hc]; [done |].
      apply is_next_cases in Hn as [<- | [[= E1 E2] ?]]; [by cbn in E |]. by replace (pb_group p - 1) with next.1 by lia.
Qed.

Lemma arrivals_whole md es : forall next,
  agrees md next (accepted next es) -> Forall object_small (accepted next es) ->
  Forall (whole_of md) (arrived (arrivals next es)).
Proof.
  induction es as [| [p | | space now] es IH]; intros next Ha Hs; [constructor | | by apply IH | by apply IH].
  cbn [arrivals accepted] in *. destruct (is_next next (pb_key p)) eqn:En; [| by apply IH].
  apply Forall_cons in Hs as [Hp Hs]. cbn [arrived flat_map app]. constructor.
  - by eapply whole_fragment_of.
  - apply IH; [| done]. by apply agrees_cons in Ha as (_ & Ha & _).
Qed.

Lemma final_points_after es : forall next p, p ∈ final_points (arrivals next es) -> key_le next p.
Proof.
  induction es as [| [p0 | | space now] es IH]; intros next p; cbn [arrivals].
  - by intros []%elem_of_nil.
  - destruct (is_next next (pb_key p0)) eqn:E; [| apply IH]. cbn [final_points flat_map app].
    intros H%IH. apply is_next_cases in E as [<- | [[= E1 E2] ?]]; unfold key_le in *; cbn in *; lia.
  - cbn [final_points flat_map app]. intros [-> | H]%elem_of_cons; [| by apply IH].
    unfold key_le. cbn. lia.
  - apply IH.
Qed.

Lemma arrivals_before_final es : forall next p f, fin_last es ->
  p ∈ final_points (arrivals next es) -> f ∈ arrived (arrivals next es) -> before_final p f.
Proof.
  induction es as [| [p0 | | space now] es IH]; intros next p f Hfin; cbn [arrivals].
  - by intros []%elem_of_nil.
  - destruct (is_next next (pb_key p0)); [| by apply IH]. cbn [final_points arrived flat_map app].
    intros Hp [-> | Hf]%elem_of_cons; [| by eapply IH].
    apply final_points_after in Hp. right. apply pair_ltb_spec. unfold key_le in Hp. cbn in *. lia.
  - cbn [final_points arrived flat_map app]. cbn in Hfin.
    destruct (polls_arrivals next es Hfin) as (E & _ & _). unfold arrived in E. rewrite E.
    by intros _ []%elem_of_nil.
  - by apply IH.
Qed.

Lemma arrivals_final_once es : forall next, fin_last es -> final_once (0, 0) (arrivals next es).
Proof.
  unfold final_once.
  induction es as [| [p0 | | space now] es IH]; intros next Hfin; cbn [arrivals].
  - by left.
  - destruct (is_next next (pb_key p0)); by apply IH.
  - right. split; [done |]. cbn [final_points flat_map app]. cbn in Hfin.
    destruct (polls_arrivals next es Hfin) as (_ & E & _). unfold final_points in E. rewrite E. by eexists.
  - by apply IH.
Qed.

(** The final point is the identifier that follows the last object. *)
Lemma arrivals_final_point es : forall next p, fin_last es ->
  final_points (arrivals next es) = [p] -> p = next_after next es.
Proof.
  induction es as [| [p0 | | space now] es IH]; intros next p Hfin; cbn [arrivals next_after].
  - done.
  - destruct (is_next next (pb_key p0)); by apply IH.
  - cbn [final_points flat_map app]. cbn in Hfin. intros [= <- _]. destruct next as [g o]. cbn.
    clear -Hfin. revert g o. induction Hfin as [| [] es He _ IH]; intros g o; cbn; done.
  - by apply IH.
Qed.

Lemma accepted_before es : forall next, Forall (fun e => key_lt e.1 (next_after next es)) (accepted next es) /\
  key_le next (next_after next es).
Proof.
  induction es as [| [p | | space now] es IH]; intros next; cbn [accepted next_after];
    [split; [constructor | unfold key_le; lia] | | apply IH | apply IH].
  destruct (is_next next (pb_key p)) eqn:E; [| apply IH].
  destruct (IH (pb_group p, pb_object p + 1)) as [H1 H2]. split; [constructor; [| done] |].
  - unfold key_lt, key_le in *. cbn in *. lia.
  - apply is_next_cases in E as [<- | [[= E1 E2] ?]]; unfold key_le in *; cbn in *; lia.
Qed.

(** ** The run of the application and of the sender *)

Section run.
Context {Sp : Splay quicrq_cached_fragment_t quicrq_fragment_cache_node_compare}.
Context {So : Splay okey quicrq_fragment_publisher_object_node_compare}.
Context {Al : Allocator} {PF : PicoFrames} {PS : PicoStream}.
Context (qr_mode : quicrq_congestion_control_enum).

(** The cache of the source is the one that the sender reads. *)
Record app_world := {
  aw_next : Z * Z;
  aw_sender : sender_world;
  aw_returned : list Z;
}.
Implicit Types w : app_world.
Definition app_source w : quicrq_media_object_source_ctx_t := {|
  os_cache := sw_cache (aw_sender w); os_next_group_id := (aw_next w).1;
  os_next_object_id := (aw_next w).2 |}.
Definition aw_set_source w (s : quicrq_media_object_source_ctx_t) (returned : list Z) : app_world := {|
  aw_next := (os_next_group_id s, os_next_object_id s);
  aw_sender := {| sw_cache := os_cache s; sw_stream := sw_stream (aw_sender w);
                  sw_publisher := sw_publisher (aw_sender w);
                  sw_congestion := sw_congestion (aw_sender w); sw_calls := sw_calls (aw_sender w) |};
  aw_returned := aw_returned w ++ returned |}.

(** The source has just been published, and a stream subscribes to it. *)
Definition app_start (stream_id : Z) (cg : quicrq_cnx_congestion_state_t) : app_world :=
  aw_set_source {| aw_next := (0, 0); aw_sender := sender_start stream_id cg; aw_returned := [] |}
    (quicrq_publish_object_source None) [].

Definition app_step w (e : app_event) : option app_world :=
  match e with
  | Publish p =>
      '(s, ret, _) ← quicrq_publish_object (app_source w) (pb_data p) (pb_flags p) (pb_group p)
                       (pb_object p) (pb_time p);
      Some (aw_set_source w s [ret])
  | PublishFin => Some (aw_set_source w (quicrq_publish_object_fin (app_source w)) [])
  | Poll space now =>
      sw ← sender_step qr_mode (aw_sender w) (Prepare space now);
      Some {| aw_next := aw_next w; aw_sender := sw; aw_returned := aw_returned w |}
  end.

Fixpoint app_run w (es : list app_event) : option app_world :=
  match es with
  | [] => Some w
  | e :: es => w ← app_step w e; app_run w es
  end.

Definition number_ok (z n : Z) : Prop := 0 <= z /\ z + n < two62.

(** The guards of the code are the rules of progression. *)
Lemma next_published_spec w g o n : number_ok (aw_next w).1 n -> 0 < n ->
  next_published (app_source w) g o =
    if is_next (aw_next w) (g, o)
    then Some (g, o, if g =? (aw_next w).1 then 0 else (aw_next w).2) else None.
Proof.
  intros [Hg Hn] Hpos. unfold next_published, is_next. cbn [os_next_group_id os_next_object_id app_source].
  destruct (aw_next w) as [ng no]. cbn [fst snd] in *. rewrite u64_small by u64_lia.
  rewrite !bool_decide_decide.
  destruct (Z.eqb_spec g ng) as [-> | Hne]; cbn [negb].
  - destruct (Z.eqb_spec o no) as [-> | Ho]; cbn [negb].
    + by rewrite decide_True.
    + rewrite !decide_False by (intros [=]; lia). done.
  - rewrite (decide_False (P := (g, o) = (ng, no))) by congruence. cbn [orb].
    destruct (Z.eqb_spec g (ng + 1)) as [-> | Hg1]; cbn [negb orb].
    + destruct (Z.eqb_spec o 0) as [-> | Ho]; cbn [negb orb].
      * rewrite decide_True by done. by destruct (no =? 0).
      * by rewrite decide_False by (intros [=]; lia).
    + by rewrite decide_False by (intros [=]; lia).
Qed.

Lemma aw_source_same w returned : aw_set_source w (app_source w) returned =
  {| aw_next := aw_next w; aw_sender := aw_sender w; aw_returned := aw_returned w ++ returned |}.
Proof.
  unfold aw_set_source. cbn. rewrite <- surjective_pairing. f_equal. by destruct (aw_sender w).
Qed.

Lemma app_run_sender es : forall w sw,
  number_ok (aw_next w).1 (Z.of_nat (length es)) -> number_ok (aw_next w).2 (Z.of_nat (length es)) ->
  sender_run qr_mode (aw_sender w) (arrivals (aw_next w) es) = Some sw ->
  app_run w es = Some {| aw_next := next_after (aw_next w) es; aw_sender := sw;
                         aw_returned := aw_returned w ++ verdicts (aw_next w) es |}.
Proof.
  induction es as [| [p | | space now] es IH]; intros w sw Hg Ho;
    cbn [arrivals app_run verdicts next_after].
  - intros [= <-]. rewrite app_nil_r. by destruct w.
  - cbn [app_step]. unfold quicrq_publish_object.
    rewrite (next_published_spec w _ _ _ Hg) by (cbn; lia). unfold pb_key.
    destruct (is_next (aw_next w) (pb_group p, pb_object p)) eqn:En; cbn [mbind option_bind].
    + assert (number_ok (pb_group p) (Z.of_nat (length es)) /\
              number_ok (pb_object p + 1) (Z.of_nat (length es))) as [Hg' Ho'].
      { unfold number_ok in *. cbn [length] in *.
        apply is_next_cases in En as [E | [[= E1 E2] ?]]; [rewrite <- E in *; cbn in *; lia | lia]. }
      cbn [sender_run sender_step]. unfold propose_f.
      cbn [whole_fragment f_data f_group f_object f_offset f_delay f_flags f_nb_previous f_object_length
           f_data_length f_time app_source os_cache].
      destruct (quicrq_fragment_propose_to_cache _ _ _ _ _ _ _ _ _ _ _) as [[[c ret] wake] |]; [| done].
      cbn [mbind option_bind]. destruct (Z.eqb_spec ret 0) as [-> |]; [| done]. cbn [mbind option_bind].
      rewrite (u64_small (pb_object p + 1)) by (unfold number_ok in *; u64_lia). intros Hrun.
      rewrite (IH (aw_set_source w {| os_cache := c; os_next_group_id := pb_group p;
        os_next_object_id := pb_object p + 1 |} [0]) sw Hg' Ho' Hrun).
      cbn [aw_set_source aw_next aw_returned os_next_group_id os_next_object_id].
      by rewrite <- (assoc_L (++)).
    + intros Hrun. rewrite aw_source_same.
      rewrite (IH {| aw_next := aw_next w; aw_sender := aw_sender w; aw_returned := aw_returned w ++ [-1] |} sw);
        [by cbn; rewrite <- (assoc_L (++)) | | | exact Hrun]; unfold number_ok in *; cbn [length aw_next] in *; lia.
  - cbn [app_step mbind option_bind sender_run sender_step]. intros Hrun.
    rewrite (IH (aw_set_source w (quicrq_publish_object_fin (app_source w)) []) sw);
      cbn [aw_set_source aw_next aw_returned aw_sender app_source quicrq_publish_object_fin
           os_next_group_id os_next_object_id os_cache].
    + by rewrite app_nil_r, <- surjective_pairing.
    + unfold number_ok in *. cbn [length fst] in *. lia.
    + unfold number_ok in *. cbn [length snd] in *. lia.
    + rewrite <- surjective_pairing. exact Hrun.
  - cbn [app_step sender_run]. destruct (sender_step _ _ _) as [sw1 |]; [| done]. cbn [mbind option_bind].
    intros Hrun. rewrite (IH {| aw_next := aw_next w; aw_sender := sw1; aw_returned := aw_returned w |} sw);
      [done | | | exact Hrun]; unfold number_ok in *; cbn [length aw_next] in *; lia.
Qed.
End run.

(** ** What the subscriber is given *)

Lemma media_from_lt md i j : (i < j)%nat -> key_lt (media_from md (0, 0) i) (media_from md (0, 0) j).
Proof.
  induction 1 as [| j _ IH]; rewrite media_from_S; unfold media_next, key_lt in *.
  - destruct (_ <? _); cbn; lia.
  - destruct (_ <? _); cbn in *; lia.
Qed.

(** Two media with the same published objects and the same numbers of objects
    are told apart by any object that is not published. *)
Lemma unpublished_differs l i : numbered (0, 0) l -> Forall object_small l -> (length l <= i)%nat ->
  content (media_of 0 l) (media_from (media_of 0 l) (0, 0) i) <>
  content (media_of 1 l) (media_from (media_of 1 l) (0, 0) i).
Proof.
  intros Hnum Hs Hi. destruct (media_of_agrees 0 l Hnum Hs) as [Ha _].
  assert (forall j, media_from (media_of 1 l) (0, 0) j = media_from (media_of 0 l) (0, 0) j) as ->.
  { induction j as [| j IH]; [done |]. by rewrite !media_from_S, IH. }
  set (k := media_from (media_of 0 l) (0, 0) i).
  assert ((list_to_map l : gmap (Z * Z) (list Z)) !! k = None) as E.
  { apply not_elem_of_list_to_map_1. intros ([k' d] & Ek & Hin)%list_elem_of_fmap. cbn in Ek. subst k'.
    apply list_elem_of_lookup in Hin as [j Hj]. apply (agrees_start _ _ _ _ Ha) in Hj as E. cbn in E.
    apply lookup_lt_Some in Hj. pose proof (media_from_lt (media_of 0 l) j i ltac:(lia)) as Hlt.
    fold k in Hlt. rewrite E in Hlt. unfold key_lt in Hlt. lia. }
  cbn. unfold content_of. by rewrite E.
Qed.

(** The same list, enumerated in both media, is made of published objects. *)
Lemma given_published l (gs : list (option (Z * Z * list Z))) n0 n1 :
  numbered (0, 0) l -> Forall object_small l ->
  let enum b n := map (fun i => let k := media_from (media_of b l) (0, 0) i in
                        Some (k.1, k.2, content (media_of b l) k)) (seq 0 n) in
  gs = enum 0 n0 -> gs = enum 1 n1 -> (n0 <= length l)%nat /\ gs = map Some (take n0 l).
Proof.
  intros Hnum Hs enum E0 E1. destruct (media_of_agrees 0 l Hnum Hs) as [Ha _].
  assert (n0 = n1) as <-.
  { pose proof (f_equal length (eq_trans (eq_sym E0) E1)) as E. subst enum. cbn in E.
    by rewrite !length_map, !length_seq in E. }
  assert (forall b i, (i < n0)%nat -> enum b n0 !! i =
    let k := media_from (media_of b l) (0, 0) i in Some (Some (k.1, k.2, content (media_of b l) k))) as Hl.
  { intros b i Hi. subst enum. cbn beta. rewrite list_lookup_fmap, lookup_seq_lt by done. done. }
  assert (n0 <= length l)%nat as Hn.
  { destruct (decide (n0 <= length l)%nat) as [? | Hgt]; [done |]. exfalso.
    pose proof (Hl 0 (length l) ltac:(lia)) as H0. pose proof (Hl 1 (length l) ltac:(lia)) as H1.
    rewrite <- E0 in H0. rewrite <- E1, H0 in H1. cbv zeta in H1. injection H1 as H.
    by apply (unpublished_differs l (length l)) in H. }
  split; [done |]. apply list_eq. intros i. rewrite E0.
  destruct (decide (i < n0)%nat) as [Hi | Hi].
  - rewrite Hl, list_lookup_fmap, lookup_take_lt by done.
    destruct (lookup_lt_is_Some_2 l i ltac:(lia)) as [[[g o] d] Ei]. rewrite Ei. cbn [fmap option_fmap option_map].
    pose proof (ag_content _ _ _ Ha) as Hc. rewrite Forall_forall in Hc.
    specialize (Hc _ (list_elem_of_lookup_2 _ _ _ Ei)). cbn [fst snd] in Hc.
    apply (agrees_start _ _ _ _ Ha) in Ei as ->. cbv zeta. cbn [fst snd]. by rewrite Hc.
  - subst enum. cbn beta. rewrite !lookup_ge_None_2; [done | |]; rewrite ?length_map, ?length_take, ?length_seq; lia.
Qed.

Section composition.
Context `{SL : SplayLaws quicrq_cached_fragment_t quicrq_fragment_cache_node_compare}.
Context {So : Splay okey quicrq_fragment_publisher_object_node_compare}.
Context {Al : Allocator} `{FL : FramesLaws} {PS : PicoStream}.
Context (alloc_ok : forall n, malloc_ok n = true).
Context (provided : forall n is_fin active, picoquic_provide_stream_data_buffer n is_fin active = true).
Context (qr_mode : quicrq_congestion_control_enum).

(** The published objects, sent so far. *)
Lemma published_sending es stream_id cg b :
  Forall space_ok es -> fin_last es -> Forall object_small (accepted (0, 0) es) ->
  exists sw sent final, sender_run qr_mode (sender_start stream_id cg) (arrivals (0, 0) es) = Some sw /\
    sending (media_of b (accepted (0, 0) es)) (arrived (arrivals (0, 0) es)) sent final sw /\
    (sent_fin (sw_calls sw) = true ->
     pair_leb (next_after (0, 0) es).1 (next_after (0, 0) es).2
       (st_next_group_id (sw_stream sw)) (st_next_object_id (sw_stream sw)) = true).
Proof.
  intros Hok Hfin Hs. set (md := media_of b (accepted (0, 0) es)).
  destruct (media_of_agrees b _ (accepted_numbered es (0, 0)) Hs) as [Ha Hsd].
  pose proof (arrivals_whole md es (0, 0) Ha Hs) as Hwh. rewrite Forall_forall in Hwh.
  destruct (run_sending qr_mode provided md alloc_ok Hsd (arrivals (0, 0) es) [] [] (0, 0) _
    (sending_start md stream_id cg)) as (sw & sent & final & Hrun & Hw & _ & Hend).
  - by apply arrivals_spaces.
  - apply Forall_forall. intros f Hf. by apply Hwh.
  - apply Forall_forall. intros f Hf. destruct (Hwh f Hf) as [_ [_ ->] (Hg & _)].
    split; [apply (sd_nonempty _ Hsd) | exact Hg].
  - intros f f' Hf Hf' Hk. left. destruct (Hwh f Hf) as [_ [Ho Hl] _], (Hwh f' Hf') as [_ [Ho' Hl'] _].
    unfold same_range. by rewrite Ho, Hl, Ho', Hl', Hk.
  - intros p f [-> | Hp]%elem_of_cons Hf; [by left |]. by eapply arrivals_before_final.
  - exists sw, sent, final. split_and!; [done | done |]. intros Hf.
    destruct Hend as [-> Hend]; [by apply arrivals_final_once | done |].
    destruct (Hend Hf) as [Hne Hle]. destruct (arrivals_final_once es (0, 0) Hfin) as [E | [_ [p E]]];
      rewrite E in Hne, Hle; cbn in Hne, Hle; [done |].
    by rewrite <- (arrivals_final_point es (0, 0) p Hfin E).
Qed.
End composition.

(** [C1] From application to application.  An application publishes objects
    of a source that starts at (0, 0), in any order of calls, with any
    identifiers, marks the end of the media, and picoquic polls the single
    stream of a subscriber in between, with any buffers; the transport delivers
    the bytes written, cut in any pieces.  Then no call faults; a call to
    [quicrq_publish_object] is accepted exactly when its identifiers are the
    next ones (the next object of the group, or the first of the next group if
    the group is not empty) and refused with -1 otherwise.  In particular a
    first publication other than (0, 0) is refused: this is not what
    quicrq.h:131-134 says, where the first call can pick any identifiers; only
    the start point in the properties of the source moves the first
    identifiers.  The subscriber's application has been given, each once, in
    order and with their bytes, exactly the first [n] objects accepted: those
    before the position of the sender, and all of them once the stream is
    ended, which the subscriber then knows. *)
Theorem application_to_application
    `{SL : SplayLaws quicrq_cached_fragment_t quicrq_fragment_cache_node_compare}
    {So : Splay okey quicrq_fragment_publisher_object_node_compare}
    `{SR : SplayLaws (Z * Z) quicrq_object_node_compare}
    {Al : Allocator} `{FL : FramesLaws} {PS : PicoStream} {PI : PicoStreamIds}
    {A : Type} (fn : A -> object_call -> A * Z) (a : A) (now : Z)
    (default_source_fn : option (quicrq_ctx_t -> list Z -> quicrq_ctx_t * Z))
    (consumer_media_init_fn : option (list Z ->
       option (option (quicrq_object_stream_consumer_ctx (App := A * list object_call))) * Z))
    (manage_relay_subscribe_fn : option (quicrq_ctx_t -> list Z -> quicrq_ctx_t))
    (qr_mode : quicrq_congestion_control_enum) (es : list app_event)
    (stream_id : Z) (cg : quicrq_cnx_congestion_state_t) (receiver : stream_world (So := So))
    (chunks : list (list Z)) :
  (forall n, malloc_ok n = true) ->
  (forall n is_fin active, picoquic_provide_stream_data_buffer n is_fin active = true) ->
  (forall a c, (fn a c).2 = 0) ->
  Forall space_ok es -> fin_last es -> Z.of_nat (length es) < two62 ->
  let published := accepted (0, 0) es in
  Forall object_small published ->
  ready_to_receive a receiver -> Forall (Forall is_byte) chunks ->
  (forall w, app_run qr_mode (app_start stream_id cg) es = Some w ->
     concat chunks = sent_bytes (sw_calls (aw_sender w))) ->
  exists w w' x n, app_run qr_mode (app_start stream_id cg) es = Some w /\
    aw_returned w = verdicts (0, 0) es /\
    (forall p, head (publications es) = Some p -> pb_key p <> (0, 0) ->
       head (aw_returned w) = Some (-1)) /\
    receive_data (Co := bridge_consumer fn now) default_source_fn consumer_media_init_fn
      manage_relay_subscribe_fn receiver chunks = Some (w', 0) /\
    w_media w' = consuming (Some x) /\
    map given (br_app (bc_bridge x)).2 = map Some (take n published) /\ (n <= length published)%nat /\
    (forall i e, published !! i = Some e -> (i < n)%nat <->
       key_lt e.1 (st_next_group_id (sw_stream (aw_sender w)), st_next_object_id (sw_stream (aw_sender w)))) /\
    (sent_fin (sw_calls (aw_sender w)) = true ->
       n = length published /\ st_is_receive_complete (w_stream w') = true).
Proof.
  intros Hal Hpr Hfn Hok Hfin Hlen published Hs Hready Hbytes Hchunks.
  pose proof (accepted_numbered es (0, 0)) as Hnum. fold published in Hnum.
  destruct (published_sending Hal Hpr qr_mode es stream_id cg 0 Hok Hfin Hs)
    as (sw & sent0 & final0 & Hrun & Hw0 & Hend).
  destruct (published_sending Hal Hpr qr_mode es stream_id cg 1 Hok Hfin Hs)
    as (sw1 & sent1 & final1 & Hrun1 & Hw1 & _).
  rewrite Hrun in Hrun1. injection Hrun1 as <-. fold published in Hw0, Hw1.
  assert (number_ok 0 (Z.of_nat (length es))) as Hnumber by (unfold number_ok; lia).
  pose proof (app_run_sender qr_mode es (app_start stream_id cg) sw Hnumber Hnumber Hrun) as Happ.
  specialize (Hchunks _ Happ). cbn [aw_sender] in Hchunks. rewrite Happ.
  destruct (media_of_agrees 0 published Hnum Hs) as [Ha0 Hsd0].
  destruct (media_of_agrees 1 published Hnum Hs) as [_ Hsd1].
  destruct (application_receives fn a now default_source_fn consumer_media_init_fn
    manage_relay_subscribe_fn _ _ sent0 final0 sw receiver chunks Hal Hfn Hsd0 Hw0 Hready Hbytes Hchunks)
    as (w' & x & Hrec & Hx & (n & En & Hin & Hout) & Hcomplete).
  destruct (application_receives fn a now default_source_fn consumer_media_init_fn
    manage_relay_subscribe_fn _ _ sent1 final1 sw receiver chunks Hal Hfn Hsd1 Hw1 Hready Hbytes Hchunks)
    as (w1' & x1 & Hrec1 & Hx1 & (n1 & En1 & _ & _) & _).
  rewrite Hrec in Hrec1. injection Hrec1 as <-. rewrite Hx in Hx1. injection Hx1 as <-.
  destruct (given_published published _ n n1 Hnum Hs En En1) as [Hn Htake].
  assert (forall i e, published !! i = Some e -> (i < n)%nat <->
    key_lt e.1 (st_next_group_id (sw_stream sw), st_next_object_id (sw_stream sw))) as Hiff.
  { intros i e Hi. rewrite <- (agrees_start _ _ _ _ Ha0 Hi). split; [apply Hin |].
    intros Hlt. destruct (decide (i < n)%nat) as [? | Hge]; [done |]. destruct Hout.
    destruct (decide (n = i)) as [-> | Hne]; [done |].
    pose proof (media_from_lt (media_of 0 published) n i ltac:(lia)). unfold key_lt in *. cbn [fst snd] in *. lia. }
  eexists _, w', x, n. cbn [aw_sender aw_returned]. split_and!; try done.
  { intros p. apply first_verdict. }
  intros Hf. split; [| by apply Hcomplete]. destruct (decide (n < length published)%nat) as [Hlt |]; [| lia].
  destruct (lookup_lt_is_Some_2 _ _ Hlt) as [e He].
  assert (n < n)%nat; [| lia]. apply (Hiff n e He).
  destruct (accepted_before es (0, 0)) as [Hb _]. fold published in Hb. rewrite Forall_forall in Hb.
  specialize (Hb e (list_elem_of_lookup_2 _ _ _ He)). specialize (Hend Hf). apply pair_leb_spec in Hend.
  unfold key_lt in *. cbn [fst snd] in *. lia.
Qed.

(** ** Witness *)
Module ApplicationDemo.
Definition publish (g o : Z) (data : list Z) : app_event :=
  Publish {| pb_data := data; pb_flags := 128; pb_group := g; pb_object := o; pb_time := 5 |}.
(** The first publication starts at group 5 and is refused; later a wrong
    identifier is refused; the second object is cut by the buffers. *)
Definition events : list app_event :=
  [publish 5 7 [1; 2]; publish 0 0 [10; 20; 30]; publish 0 2 [1]; Poll 100 0; publish 0 1 [1; 2; 3; 4; 5; 6; 7; 8; 9; 10];
   Poll 17 1; publish 1 0 [9; 9]; Poll 100 2; Poll 100 3; Poll 100 3; PublishFin; Poll 100 4; Poll 100 5].
Definition published : list (Z * Z * list Z) :=
  [(0, 0, [10; 20; 30]); (0, 1, [1; 2; 3; 4; 5; 6; 7; 8; 9; 10]); (1, 0, [9; 9])].
Abbreviation run := (app_run (Al := CacheDemo.malloc_always) (PS := SenderDemo.stream_ready)
  quicrq_congestion_control_none (app_start 4 congestion_zero) events).
Definition chunks : list (list Z) :=
  [[0; 11; 5; 0; 0; 0; 3; 128; 0; 3; 10; 20]; [30; 0; 15; 5; 0; 1; 0; 10; 128; 8; 1; 2; 3; 4; 5; 6];
   [7; 8; 0; 9; 5; 0; 1; 8; 10; 128; 2; 9; 10; 0; 10; 5; 1; 0; 0; 2; 128; 2; 2; 9; 9; 0]; [3; 3; 1; 1]].
Abbreviation receive := (receive_data (Al := CacheDemo.malloc_always) (PI := ReceiverDemo.next_ids)
  (Co := bridge_consumer (Al := CacheDemo.malloc_always) ConsumerDemo.app 7) None None None
  EndToEndDemo.receiver chunks).

Lemma published_chunks_sent w : run = Some w -> concat chunks = sent_bytes (sw_calls (aw_sender w)).
Proof.
  intros E. assert (option_map (fun w => sent_bytes (sw_calls (aw_sender w))) run = Some (concat chunks)) as H
    by reflexivity.
  rewrite E in H. by injection H.
Qed.
Lemma published_events_spaces : Forall space_ok events.
Proof.
  unfold events, publish. repeat (apply Forall_cons; split; [cbn; first [exact I | lia] |]). by apply Forall_nil.
Qed.
Lemma published_small : Forall object_small (accepted (0, 0) events).
Proof.
  change (accepted (0, 0) events) with published. unfold published, object_small.
  repeat (apply Forall_cons; split; [vm_compute; split_and!; reflexivity |]). by apply Forall_nil.
Qed.
End ApplicationDemo.

Lemma application_to_application_witness :
  (exists w w' x n, ApplicationDemo.run = Some w /\ aw_returned w = [-1; 0; -1; 0; 0] /\
    ApplicationDemo.receive = Some (w', 0) /\ w_media w' = consuming (Some x) /\
    map given (br_app (bc_bridge x)).2 = map Some (take n ApplicationDemo.published) /\
    (sent_fin (sw_calls (aw_sender w)) = true -> n = 3%nat /\ st_is_receive_complete (w_stream w') = true)) /\
  option_map (fun r => match w_media r.1 with
                       | consuming (Some x) => map given (br_app (bc_bridge x)).2 | _ => [] end)
    ApplicationDemo.receive = Some (map Some ApplicationDemo.published).
Proof.
  split; [| reflexivity].
  destruct (application_to_application (Al := CacheDemo.malloc_always) (PS := SenderDemo.stream_ready)
    (PI := ReceiverDemo.next_ids) ConsumerDemo.app 0 7 None None None quicrq_congestion_control_none
    ApplicationDemo.events 4 congestion_zero EndToEndDemo.receiver ApplicationDemo.chunks)
    as (w & w' & x & n & H1 & H2 & _ & H3 & H4 & H5 & _ & _ & H6).
  - intros n. exact eq_refl.
  - intros n is_fin active. exact eq_refl.
  - intros ? ?. exact eq_refl.
  - exact ApplicationDemo.published_events_spaces.
  - cbn. repeat constructor.
  - exact eq_refl.
  - exact ApplicationDemo.published_small.
  - split; first [exact eq_refl | split; exact eq_refl].
  - unfold ApplicationDemo.chunks. repeat constructor; done.
  - exact ApplicationDemo.published_chunks_sent.
  - exists w, w', x, n. exact (conj H1 (conj H2 (conj H3 (conj H4 (conj H5 H6))))).
Defined.
