(* ===== verification/RelayTheorems.v ===== *)
(** * A relay is a sender

    A relay receives a media on a stream and sends it on another one, from the
    cache that the first stream feeds.  What it does on the second stream is
    what a sender does when the fragments that its own sender wrote arrive in
    its cache, in order: the theorems on senders (MediaStreamTheorems.v) and
    on receivers (EndToEnd.v) apply to any chain of relays. *)

From S2P Require Import Prelude Picosplay PicoFrames Media Proto Reassembly ReassemblyDelivery.
From S2P Require Import ReassemblySafety Fragment FragmentProofs FragmentReads FragmentHistory.
From S2P Require Import FragmentTheorems PublisherContext Congestion Publisher PublisherProofs.
From S2P Require Import MsgBuffer MsgBufferTheorems StreamContext MediaStream MediaStreamProofs.
From S2P Require Import MediaStreamTheorems Warp ControlStream ControlStreamTheorems StreamReceive.
From S2P Require Import ObjectConsumer ObjectConsumerTheorems EndToEnd Relay.

(** ** The fragments of a path *)

(** The histories that a sender accepts. *)
Record valid_history (md : media) (es : list sender_event) : Prop := {
  vh_spaces : Forall spaces_ok es;
  vh_consistent : Forall (consistent md) (arrived es);
  vh_sizes : Forall (fun f => 0 < f_data_length f /\ f_group f < 16384) (arrived es);
  vh_no_overlap : forall f f', f ∈ arrived es -> f' ∈ arrived es -> no_overlap f f';
  vh_final : forall p f, p ∈ final_points es -> f ∈ arrived es -> before_final p f;
}.

(** The bytes of the fragment are before the position. *)
Definition ends_before (p : position) (f : fragment) : Prop :=
  let '(g, o, off) := p in
  f_group f < g \/ (f_group f = g /\
    (f_object f < o \/ (f_object f = o /\ f_offset f + f_data_length f <= off))).

Section path.
Context (md : media).

Lemma after_ends_before f : consistent md f -> ends_before (after_fragment f) f.
Proof. intros _. unfold after_fragment, ends_before. destruct (_ <=? _); lia. Qed.

Lemma follows_ends_before q f f' : follows md q f -> ends_before q f' ->
  ends_before (f_position f) f' .
Proof.
  intros [-> | (g & Hg & -> & E)]; [done |]. unfold f_position. rewrite E. cbn. lia.
Qed.

Lemma later_ends_before f f' : consistent md f -> ends_before (f_position f) f' ->
  ends_before (after_fragment f) f'.
Proof.
  intros [_ _ _ Hr _ _]. unfold after_fragment, ends_before, f_position. destruct (_ <=? _); lia.
Qed.

Lemma path_ends_before p fs q f : path md p fs q -> f ∈ fs -> ends_before q f.
Proof.
  induction 1 as [| fs q f0 _ IH Hf Hc _]; [by intros []%elem_of_nil |].
  intros [Hin | ->%list_elem_of_singleton]%elem_of_app; [| by apply after_ends_before].
  apply later_ends_before; [done |]. eapply follows_ends_before; [done | by apply IH].
Qed.

Lemma no_overlap_sym f f' : no_overlap f f' -> no_overlap f' f.
Proof. unfold no_overlap, same_range. intros H E. destruct (H (eq_sym E)) as [[? ?] | ?]; intuition congruence. Qed.

Lemma path_no_overlap p fs q : path md p fs q -> forall f f', f ∈ fs -> f' ∈ fs -> no_overlap f f'.
Proof.
  induction 1 as [| fs q f0 Hp IH Hf Hc _]; [by intros ? ? []%elem_of_nil |].
  assert (forall f', f' ∈ fs -> no_overlap f0 f') as H.
  { intros f' Hin Hk. right. right. pose proof (path_ends_before _ _ _ f' Hp Hin) as Hb.
    apply (follows_ends_before q f0 f' Hf) in Hb. unfold f_position, ends_before, f_key in *.
    injection Hk as ? ?. lia. }
  assert (no_overlap f0 f0) as H0 by (intros _; by left).
  intros f f' [Hin | ->%list_elem_of_singleton]%elem_of_app [Hin' | ->%list_elem_of_singleton]%elem_of_app;
    auto using no_overlap_sym.
Qed.

(** At the end of an object, the position is a final point for the path. *)
Lemma path_before_final p fs g o f : path md p fs (g, o, 0) -> f ∈ fs -> before_final (g, o) f.
Proof.
  intros Hp Hin. right. pose proof (path_ends_before _ _ _ f Hp Hin) as Hb.
  assert (0 < f_data_length f) as Hl.
  { clear Hb. revert Hin. induction Hp as [| fs q f0 _ IH _ _ Hpos]; [by intros []%elem_of_nil |].
    intros [Hin | ->%list_elem_of_singleton]%elem_of_app; auto. }
  assert (consistent md f) as [_ _ _ [Ho _] _ _].
  { apply path_consistent in Hp. by eapply Forall_forall in Hp. }
  apply pair_ltb_spec. cbn [fst snd]. unfold ends_before in Hb. lia.
Qed.
End path.

(** ** The events of a cache *)

Section cache.
Context `{Sp : Splay quicrq_cached_fragment_t quicrq_fragment_cache_node_compare}.
Context {So : Splay okey quicrq_fragment_publisher_object_node_compare}.
Context {Al : Allocator} {PF : PicoFrames} {PS : PicoStream}.
Context (qr_mode : quicrq_congestion_control_enum).

Definition cache_step c (e : sender_event) : option quicrq_fragment_cache_t :=
  match e with
  | Arrive f => '(c, ret, _) ← propose_f c f; if ret =? 0 then Some c else None
  | FinalPoint g o => Some (learn_end_point c g o)
  | Prepare _ _ => Some c
  end.
Fixpoint cache_run c (es : list sender_event) : option quicrq_fragment_cache_t :=
  match es with
  | [] => Some c
  | e :: es => c ← cache_step c e; cache_run c es
  end.

(** The events of a history that change the cache, and the others. *)
Definition feeds (e : sender_event) : bool := match e with Prepare _ _ => false | _ => true end.
Definition feed_events (es : list sender_event) : list sender_event := List.filter feeds es.
Definition polls (es : list sender_event) : list sender_event := List.filter (negb ∘ feeds) es.

Definition sw_set_cache (w : sender_world) c : sender_world := {|
  sw_cache := c; sw_stream := sw_stream w; sw_publisher := sw_publisher w;
  sw_congestion := sw_congestion w; sw_calls := sw_calls w |}.

Lemma feed_run es : forall w, forallb feeds es = true ->
  sender_run qr_mode w es = sw_set_cache w <$> cache_run (sw_cache w) es.
Proof.
  induction es as [| e es IH]; intros w Hes; cbn [sender_run cache_run]; [by destruct w |].
  apply andb_prop in Hes as [He Hes]. destruct e as [f | g o | ? ?]; [| | done]; cbn [sender_step cache_step].
  - destruct (propose_f (sw_cache w) f) as [[[c ret] wake] |]; [| done]. cbn [mbind option_bind].
    destruct (ret =? 0); [| done]. cbn [mbind option_bind]. by rewrite IH.
  - cbn [mbind option_bind]. by rewrite IH.
Qed.

Lemma cache_run_app es es' : forall c, cache_run c (es ++ es') = (c ← cache_run c es; cache_run c es').
Proof.
  induction es as [| e es IH]; intros c; [done |]. cbn [app cache_run].
  destruct (cache_step c e); [apply IH | done].
Qed.
Lemma sender_run_app es es' : forall w,
  sender_run qr_mode w (es ++ es') = (w ← sender_run qr_mode w es; sender_run qr_mode w es').
Proof.
  induction es as [| e es IH]; intros w; [done |]. cbn [app sender_run].
  destruct (sender_step qr_mode w e); [apply IH | done].
Qed.
End cache.

(** ** The world of a relay *)

(** The callback of a relay, on the cache that it shares with the streams of
    its clients; [None] after an undefined behaviour. *)
Definition relay_cache_consumer `{Sp : Splay quicrq_cached_fragment_t quicrq_fragment_cache_node_compare}
  {Al : Allocator} (duration now : Z) : Consumer (option quicrq_fragment_cache_t) := fun x call =>
  match x with
  | None => (None, -1)
  | Some c =>
      match relay_cache_action duration now c call with
      | Some (c, ret, _) => (Some c, ret)
      | None => (None, -1)
      end
  end.

Section relay.
Context `{Sp : Splay quicrq_cached_fragment_t quicrq_fragment_cache_node_compare}.
Context {So : Splay okey quicrq_fragment_publisher_object_node_compare}.
Context {Al : Allocator} {PF : PicoFrames} {PS : PicoStream} {PI : PicoStreamIds}.
Context (qr_mode : quicrq_congestion_control_enum) (duration now : Z).
#[local] Instance relay_consumer : Consumer (option quicrq_fragment_cache_t) :=
  relay_cache_consumer duration now.
Context (default_source_fn : option (quicrq_ctx_t -> list Z -> quicrq_ctx_t * Z)).
Context (consumer_media_init_fn : option (list Z -> option (option quicrq_fragment_cache_t) * Z)).
Context (manage_relay_subscribe_fn : option (quicrq_ctx_t -> list Z -> quicrq_ctx_t)).

(** The stream from the server, and a client that is served. *)
Record relay_world := {
  rl_server : stream_world (CS := option quicrq_fragment_cache_t);
  rl_client : sender_world;
}.

Inductive relay_event :=
  | FromServer (bytes : list Z)        (* bytes arrive on the stream of the server *)
  | ToClient (space time : Z).         (* picoquic asks for bytes for the client *)

Definition relay_step (r : relay_world) (e : relay_event) : option relay_world :=
  match e with
  | FromServer bytes =>
      '(w, ret, _) ← quicrq_receive_stream_data default_source_fn consumer_media_init_fn
                       manage_relay_subscribe_fn (rl_server r) bytes false;
      match w_media w with
      | consuming (Some c) =>
          if ret =? 0
          then Some {| rl_server := w; rl_client := sw_set_cache (rl_client r) c |} else None
      | _ => None
      end
  | ToClient space time =>
      client ← sender_step qr_mode (rl_client r) (Prepare space time);
      Some {| rl_server := rl_server r; rl_client := client |}
  end.

Fixpoint relay_run (r : relay_world) (es : list relay_event) : option relay_world :=
  match es with
  | [] => Some r
  | e :: es => r ← relay_step r e; relay_run r es
  end.

Definition from_server (es : list relay_event) : list Z :=
  flat_map (fun e => match e with FromServer bytes => bytes | _ => [] end) es.
Definition relay_event_ok (e : relay_event) : Prop :=
  match e with FromServer bytes => Forall is_byte bytes | ToClient space _ => 17 <= space < 16384 end.
Definition served (es : list relay_event) : list sender_event :=
  flat_map (fun e => match e with ToClient space time => [Prepare space time] | _ => [] end) es.

(** A relay that has just asked for the media, for a client that has just
    subscribed to it. *)
Record relay_ready (r : relay_world) (stream_id : Z) (cg : quicrq_cnx_congestion_state_t) : Prop := {
  rdy_stream : receiving_stream (rl_server r) (Some quicrq_fragment_cache_create_ctx);
  rdy_message : st_message_receive (w_stream (rl_server r)) = msg_buffer_zero;
  rdy_client : rl_client r = sender_start stream_id cg;
}.
End relay.

(** ** The relay follows a sender *)

Lemma arrived_feeds es : arrived (feed_events es) = arrived es.
Proof.
  induction es as [| e es IH]; [done |]. unfold feed_events, arrived in *. cbn [List.filter flat_map].
  destruct e; cbn [feeds flat_map app]; by rewrite IH.
Qed.
Lemma final_points_feeds es : final_points (feed_events es) = final_points es.
Proof.
  induction es as [| e es IH]; [done |]. unfold feed_events, final_points in *.
  cbn [List.filter flat_map]. destruct e; cbn [feeds flat_map app]; by rewrite IH.
Qed.
Lemma feed_events_app es es' : feed_events (es ++ es') = feed_events es ++ feed_events es'.
Proof. apply List.filter_app. Qed.
Lemma polls_app es es' : polls (es ++ es') = polls es ++ polls es'.
Proof. apply List.filter_app. Qed.
Lemma feed_events_all es : forallb feeds es = true -> feed_events es = es /\ polls es = [].
Proof.
  induction es as [| e es IH]; [done |]. intros [He Hes]%andb_prop. destruct (IH Hes) as [E1 E2].
  unfold feed_events, polls in *. cbn. rewrite He. cbn. by rewrite E1, E2.
Qed.

(** A history with the fragments and the final points of a valid one. *)
Lemma valid_history_sub md es evs :
  valid_history md evs -> Forall spaces_ok es -> (forall e, e ∈ feed_events es -> e ∈ evs) ->
  valid_history md es.
Proof.
  intros [_ Hc Hs Hn Hf] Hok Hsub.
  assert (forall f, f ∈ arrived es -> f ∈ arrived evs) as Ha.
  { intros f. rewrite <- arrived_feeds. unfold arrived. rewrite !list_elem_of_In, !in_flat_map.
    intros (e & He & Hin). exists e. split; [| done].
    apply list_elem_of_In, Hsub, list_elem_of_In, He. }
  assert (forall p, p ∈ final_points es -> p ∈ final_points evs) as Hp.
  { intros p. rewrite <- final_points_feeds. unfold final_points. rewrite !list_elem_of_In, !in_flat_map.
    intros (e & He & Hin). exists e. split; [| done].
    apply list_elem_of_In, Hsub, list_elem_of_In, He. }
  rewrite Forall_forall in Hc, Hs. split; [done | | | |]; try (apply Forall_forall; intros f Hin); eauto.
Qed.

Section simulation.
Context `{SL : SplayLaws quicrq_cached_fragment_t quicrq_fragment_cache_node_compare}.
Context {So : Splay okey quicrq_fragment_publisher_object_node_compare}.
Context {Al : Allocator} `{FL : FramesLaws} {PS : PicoStream} {PI : PicoStreamIds}.
Context (qr_mode : quicrq_congestion_control_enum) (duration now : Z).
#[local] Instance consumer : Consumer (option quicrq_fragment_cache_t) := relay_cache_consumer duration now.
Context (default_source_fn : option (quicrq_ctx_t -> list Z -> quicrq_ctx_t * Z)).
Context (consumer_media_init_fn : option (list Z -> option (option quicrq_fragment_cache_t) * Z)).
Context (manage_relay_subscribe_fn : option (quicrq_ctx_t -> list Z -> quicrq_ctx_t)).
Context (alloc_ok : forall n, malloc_ok n = true).
Context (provided : forall n is_fin active, picoquic_provide_stream_data_buffer n is_fin active = true).
Context (md : media) (Hsd : sendable md).

Lemma run_valid es stream_id cg : valid_history md es ->
  exists w sent final, sender_run qr_mode (sender_start stream_id cg) es = Some w /\
    sending md (arrived es) sent final w.
Proof.
  intros [Hok Hc Hs Hn Hf].
  destruct (run_sending qr_mode provided md alloc_ok Hsd es [] [] (0, 0) _ (sending_start md stream_id cg)
              Hok Hc Hs Hn) as (w & sent & final & Hrun & Hw & _).
  { intros p f [-> | Hp]%elem_of_cons Hin; [by left | by apply Hf]. }
  by exists w, sent, final.
Qed.

(** What a message does to the cache. *)
Inductive message_event : quicrq_message_t -> sender_event -> Prop :=
  | fragment_event f : 0 <= f_group f -> 0 <= f_object f ->
      message_event (fragment_message f) (Arrive (received_fragment now f))
  | final_event g o : message_event (final_message g o) (FinalPoint g o).

Abbreviation new_cache := quicrq_fragment_cache_create_ctx.

Lemma finished_if_ok b : finished_if b 0 = 0 \/ finished_if b 0 = quicrq_consumer_finished.
Proof. destruct b; auto. Qed.

Lemma message_handled w c c' m e body :
  receiving_stream w (Some c) -> message_event m e -> cache_step c e = Some c' ->
  quicrq_msg_decode body = Some (m, []) ->
  exists w', handle_message default_source_fn consumer_media_init_fn manage_relay_subscribe_fn body (Some w)
    = (Some w', 0) /\ receiving_stream w' (Some c').
Proof.
  intros Hw [f Hg Ho | g o] Hc Hd; cbn [cache_step] in Hc.
  - destruct (propose_f c (received_fragment now f)) as [[[c1 ret] wake] |] eqn:E; [| done].
    cbn [mbind option_bind] in Hc. destruct (Z.eqb_spec ret 0) as [-> |]; [| done].
    injection Hc as ->. eapply fragment_received; try done.
    + unfold consumer_fn, consumer, relay_cache_consumer, relay_cache_action, fragment_call.
      unfold propose_f in E. cbn in E. rewrite E. cbn [mbind option_bind]. reflexivity.
    + apply finished_if_ok.
  - injection Hc as <-.
    destruct (final_received default_source_fn consumer_media_init_fn manage_relay_subscribe_fn
      w (Some c) (Some (learn_end_point c g o)) (finished_if (feed_complete (learn_end_point c g o)) 0)
      g o body Hw Hd) as (w' & E & Hw' & _); [done | apply finished_if_ok |].
    by exists w'.
Qed.

Section stream.
Context (messages : list quicrq_message_t) (bodies : list (list Z)) (evs : list sender_event).
Context (decoded : Forall2 (fun b m => blen b < 65536 /\ quicrq_msg_decode b = Some (m, [])) bodies messages).
Context (events : Forall2 message_event messages evs) (valid : valid_history md evs).
Context (stream_id : Z) (cg : quicrq_cnx_congestion_state_t).

(** After [n] messages. *)
Definition after_messages (n : nat) (w : stream_world) : Prop :=
  exists c, cache_run new_cache (take n evs) = Some c /\ receiving_stream w (Some c).

Lemma evs_feed n : forallb feeds (take n evs) = true.
Proof.
  apply forallb_forall. intros e He. apply list_elem_of_In, list_elem_of_lookup in He as [i Hi].
  apply lookup_take_Some in Hi as [Hi _].
  destruct (Forall2_lookup_r _ _ _ _ _ events Hi) as (m & _ & H). by destruct H.
Qed.

Lemma evs_run n : exists c, cache_run new_cache (take n evs) = Some c.
Proof.
  destruct (run_valid (take n evs) 0 congestion_zero) as (w & sent & final & E & _).
  { destruct (feed_events_all _ (evs_feed n)) as [Ef _].
    apply (valid_history_sub md _ evs); [done | |].
    - apply Forall_forall. intros e He. apply elem_of_take in He as (i & Hi & _).
      destruct (Forall2_lookup_r _ _ _ _ _ events Hi) as (m & _ & H). by destruct H.
    - rewrite Ef. intros e He. apply elem_of_take in He as (i & Hi & _). by eapply list_elem_of_lookup_2. }
  rewrite feed_run in E by apply evs_feed. cbn in E.
  destruct (cache_run new_cache (take n evs)) as [c |]; [by exists c | done].
Qed.

Lemma after_messages_step n m w body :
  messages !! n = Some m -> after_messages n w -> quicrq_msg_decode body = Some (m, []) ->
  exists w', handle_message default_source_fn consumer_media_init_fn manage_relay_subscribe_fn body (Some w)
    = (Some w', 0) /\ after_messages (S n) w'.
Proof.
  intros Hm (c & Hc & Hw) Hd. destruct (Forall2_lookup_l _ _ _ _ _ events Hm) as (e & He & Hme).
  destruct (evs_run (S n)) as [c' Hc']. pose proof Hc' as Hs.
  rewrite (take_S_r _ _ _ He), cache_run_app, Hc in Hs. cbn [mbind option_bind cache_run] in Hs.
  destruct (cache_step c e) as [c1 |] eqn:E; [| done]. cbn [mbind option_bind] in Hs. injection Hs as ->.
  destruct (message_handled w c c' m e body Hw Hme E Hd) as (w' & Eh & Hw').
  exists w'. split; [done |]. by exists c'.
Qed.
(** ** Histories of the relay *)

Context (bytes_ok : Forall is_byte (frames bodies)).

(** The relay has received [n] messages and the beginning [p] of the next one,
    [future] is still to come, and its client was served as by the sender of
    the history [es]. *)
Record following (n : nat) (p : list Z) (es : list sender_event) (future : list Z) (r : relay_world)
  : Prop := {
  fo_count : (n <= length bodies)%nat;
  fo_server : exists w mb, rl_server r = with_buffer w mb /\ mb_holds mb p /\
    receiving_stream w (Some (sw_cache (rl_client r)));
  fo_cache : cache_run new_cache (take n evs) = Some (sw_cache (rl_client r));
  fo_rest : p ++ future = frames (drop n bodies);
  fo_run : sender_run qr_mode (sender_start stream_id cg) es = Some (rl_client r);
  fo_feeds : feed_events es = take n evs;
  fo_spaces : Forall spaces_ok es;
}.

Lemma frames_bytes n : Forall is_byte (frames (drop n bodies)).
Proof.
  rewrite <- (take_drop n bodies), map_app, concat_app in bytes_ok.
  by apply Forall_app in bytes_ok as [_ ?].
Qed.

Abbreviation step := (relay_step qr_mode duration now default_source_fn consumer_media_init_fn
  manage_relay_subscribe_fn).

Lemma following_server n p es bytes future r : following n p es (bytes ++ future) r ->
  exists n' p' es' r', step r (FromServer bytes) = Some r' /\ following n' p' es' future r' /\
    polls es' = polls es.
Proof.
  intros [Hn (w & mb & Es & Hh & Hw) Hc Hrest Hrun Hfeeds Hok].
  pose proof (frames_bytes n) as Hb. rewrite <- Hrest, !Forall_app in Hb. destruct Hb as (Hbp & Hbb & _).
  destruct (receive_more default_source_fn consumer_media_init_fn manage_relay_subscribe_fn messages
    bodies decoded after_messages after_messages_step n w p bytes future) as (n' & w' & p' & Hn' & Hw' & E & Hrest');
    [by eexists | done | done |].
  destruct Hw' as (c' & Hc' & Hw').
  destruct (receive_chunks_refines (fun n _ => alloc_ok n) (handle_message default_source_fn
    consumer_media_init_fn manage_relay_subscribe_fn) (Some w) mb p [bytes])
    as (s & mb' & pending & ret & E1 & E2 & Hh'); [done | done | by apply Forall_singleton |].
  cbn [concat] in E1. rewrite app_nil_r, E in E1. injection E1 as <- <- <-.
  destruct (receive_data_refines default_source_fn consumer_media_init_fn manage_relay_subscribe_fn
    [bytes] w mb _ _ _ (receiving_stream_consumer _ _ Hw) E2) as [_ Ed].
  cbn [receive_data] in Ed. rewrite <- Es in Ed.
  set (news := take (n' - n) (drop n evs)).
  assert (take n' evs = take n evs ++ news) as Etake.
  { unfold news. rewrite take_take_drop. f_equal. lia. }
  assert (forallb feeds news = true) as Hfn.
  { pose proof (evs_feed n') as H. rewrite Etake, forallb_app in H. by apply andb_prop in H as [_ ?]. }
  exists n', p', (es ++ news), {| rl_server := with_buffer w' mb'; rl_client := sw_set_cache (rl_client r) c' |}.
  split; [| split; [split |]].
  - cbn [relay_step]. destruct (quicrq_receive_stream_data _ _ _ (rl_server r) bytes false)
      as [[[w2 ret2] deleted] |]; [| done].
    cbn [mbind option_bind] in Ed |- *. destruct (Z.eqb_spec ret2 0) as [-> | Hr]; [| congruence].
    injection Ed as ->. cbn [with_buffer w_media w_set_stream]. by rewrite (rs_media _ _ Hw').
  - apply Hn'.
  - exists w', mb'. split; [done |]. split; [by apply Hh' | done].
  - done.
  - done.
  - rewrite sender_run_app, Hrun. cbn [mbind option_bind rl_client]. rewrite feed_run by done.
    rewrite Etake, cache_run_app, Hc in Hc'. cbn [mbind option_bind] in Hc'. by rewrite Hc'.
  - rewrite feed_events_app, Hfeeds, Etake. f_equal. by apply feed_events_all.
  - apply Forall_app. split; [done |]. apply Forall_forall. intros e He.
    rewrite forallb_forall in Hfn. apply list_elem_of_In, Hfn in He. by destruct e.
  - rewrite polls_app, (proj2 (feed_events_all _ Hfn)). apply app_nil_r.
Qed.

Lemma following_client n p es future r space time : following n p es future r -> 17 <= space < 16384 ->
  exists r', step r (ToClient space time) = Some r' /\
    following n p (es ++ [Prepare space time]) future r'.
Proof.
  intros [Hn (w & mb & Es & Hh & Hw) Hc Hrest Hrun Hfeeds Hok] Hspace.
  assert (Forall spaces_ok (es ++ [Prepare space time])) as Hok'.
  { apply Forall_app. split; [done | by apply Forall_singleton]. }
  assert (feed_events (es ++ [Prepare space time]) = take n evs) as Hfeeds'.
  { rewrite feed_events_app, Hfeeds. apply app_nil_r. }
  destruct (run_valid (es ++ [Prepare space time]) stream_id cg) as (cl & ? & ? & E & _).
  { apply (valid_history_sub md _ evs); [done | done |]. rewrite Hfeeds'.
    intros e He. apply elem_of_take in He as (i & Hi & _). by eapply list_elem_of_lookup_2. }
  pose proof E as Ecl. rewrite sender_run_app, Hrun in E. cbn [mbind option_bind sender_run] in E.
  destruct (sender_step qr_mode (rl_client r) (Prepare space time)) as [cl' |] eqn:Estep; [| done].
  cbn [mbind option_bind] in E. injection E as ->.
  exists {| rl_server := rl_server r; rl_client := cl |}. cbn [relay_step]. rewrite Estep.
  split; [done |].
  assert (sw_cache cl = sw_cache (rl_client r)) as Ecache.
  { cbn [sender_step] in Estep. destruct (sent_fin _); [congruence |].
    destruct (quicrq_prepare_to_send_media_to_stream _ _ _ _ _ _ _) as [[[[[? ?] ?] ret] ?] |]; [| done].
    cbn [mbind option_bind] in Estep. destruct (ret =? 0); [| done]. by injection Estep as <-. }
  split; try done; cbn [rl_client rl_server]; rewrite ?Ecache; try done. by exists w, mb.
Qed.

Lemma following_run res : forall n p es future r,
  following n p es (from_server res ++ future) r -> Forall relay_event_ok res ->
  exists n' p' es' r', relay_run qr_mode duration now default_source_fn consumer_media_init_fn
      manage_relay_subscribe_fn r res = Some r' /\
    following n' p' es' future r' /\ polls es' = polls es ++ served res.
Proof.
  induction res as [| e res IH]; intros n p es future r Hf Hok; cbn [relay_run].
  { exists n, p, es, r. by rewrite app_nil_r. }
  apply Forall_cons in Hok as [He Hok]. unfold from_server, served in *. cbn [flat_map] in *.
  destruct e as [bytes | space time].
  - rewrite <- (assoc_L (++)) in Hf.
    destruct (following_server n p es bytes _ r Hf) as (n1 & p1 & es1 & r1 & -> & Hf1 & <-).
    cbn [mbind option_bind]. by apply (IH n1 p1).
  - destruct (following_client n p es _ r space time Hf He) as (r1 & -> & Hf1). cbn [mbind option_bind].
    destruct (IH n p _ future r1 Hf1 Hok) as (n2 & p2 & es2 & r2 & E & Hf2 & Ep).
    exists n2, p2, es2, r2. split; [done |]. split; [done |].
    rewrite Ep, polls_app, <- (assoc_L (++)). done.
Qed.

Lemma following_start r : relay_ready r stream_id cg -> following 0 [] [] (frames bodies) r.
Proof.
  intros [Hs Hm Hc]. split; try done; [lia | | by rewrite Hc | by rewrite Hc].
  exists (rl_server r), msg_buffer_zero. rewrite <- Hm, with_buffer_same, Hm, Hc. done.
Qed.

Lemma following_end n p es r : following n p es [] r -> feed_events es = evs.
Proof.
  intros [Hn (w & mb & _ & Hh & _) _ Hrest _ Hfeeds _].
  destruct (decide (n = length bodies)) as [-> | Hne].
  - rewrite Hfeeds. apply take_ge. by rewrite (Forall2_length _ _ _ decoded), (Forall2_length _ _ _ events).
  - destruct (lookup_lt_is_Some_2 bodies n) as [b Hb]; [lia |].
    rewrite app_nil_r, (drop_S _ _ _ Hb) in Hrest. cbn [map concat] in Hrest.
    pose proof (mb_holds_incomplete _ _ Hh) as Hp.
    rewrite Hrest, frame_parse in Hp; [done |].
    pose proof (bodies_small _ _ decoded) as Hsm. by eapply Forall_lookup_1 in Hsm.
Qed.
End stream.
End simulation.

(** ** What a sender has written, as the events of a relay *)

Section origin.
Context `{Sp : Splay quicrq_cached_fragment_t quicrq_fragment_cache_node_compare}.
Context {So : Splay okey quicrq_fragment_publisher_object_node_compare}.
Context (now : Z) (md : media).

(** The events that the messages of a sender are for the cache of a relay. *)
Definition relayed (sent : list fragment) (w : sender_world) : list sender_event :=
  map (fun f => Arrive (received_fragment now f)) sent ++
  (if sent_fin (sw_calls w)
   then [FinalPoint (st_next_group_id (sw_stream w)) (st_next_object_id (sw_stream w))] else []).

Lemma arrived_relayed sent w : arrived (relayed sent w) = map (received_fragment now) sent.
Proof.
  unfold relayed, arrived. rewrite flat_map_app. destruct (sent_fin _); cbn [flat_map app]; rewrite app_nil_r;
    induction sent as [| f sent IH]; cbn; congruence.
Qed.
Lemma final_points_relayed sent w : final_points (relayed sent w) =
  if sent_fin (sw_calls w)
  then [(st_next_group_id (sw_stream w), st_next_object_id (sw_stream w))] else [].
Proof.
  unfold relayed, final_points. rewrite flat_map_app.
  assert (flat_map (fun e => match e with FinalPoint g o => [(g, o)] | _ => [] end)
    (map (fun f => Arrive (received_fragment now f)) sent) = []) as ->.
  { induction sent; [done |]. cbn. done. }
  by destruct (sent_fin _).
Qed.

Lemma path_lengths p fs q f : path md p fs q -> f ∈ fs -> 0 < f_data_length f.
Proof.
  induction 1 as [| fs q f0 _ IH _ _ Hpos]; [by intros []%elem_of_nil |].
  intros [Hin | ->%list_elem_of_singleton]%elem_of_app; auto.
Qed.

Section sending.
Context {PF : PicoFrames} fs sent final (w : sender_world) (Hw : sending md fs sent final w).

Lemma relayed_consistent f : f ∈ sent -> consistent md f.
Proof. intros Hf. pose proof (path_consistent _ _ _ _ (sg_path _ _ _ _ _ Hw)) as H. by eapply Forall_forall in H. Qed.

Lemma relayed_valid : valid_history md (relayed sent w).
Proof.
  pose proof (sg_path _ _ _ _ _ Hw) as Hp. pose proof (sg_small _ _ _ _ _ Hw) as Hs.
  rewrite Forall_forall in Hs. split; rewrite ?arrived_relayed, ?final_points_relayed.
  - apply Forall_app. split; [apply Forall_map; by apply Forall_true |].
    destruct (sent_fin _); [by apply Forall_singleton | done].
  - apply Forall_map, Forall_forall. intros f Hf. apply received_consistent. by apply relayed_consistent.
  - apply Forall_map, Forall_forall. intros f Hf. split; [exact (path_lengths _ _ _ f Hp Hf) | exact (Hs f Hf)].
  - intros f f' (f0 & -> & Hf)%list_elem_of_fmap (f0' & -> & Hf')%list_elem_of_fmap.
    exact (path_no_overlap md _ _ _ Hp f0 f0' Hf Hf').
  - intros p f Hpt (f0 & -> & Hf)%list_elem_of_fmap. destruct (sent_fin _) eqn:Efin; [| by apply elem_of_nil in Hpt].
    apply list_elem_of_singleton in Hpt as ->. unfold stream_position in Hp.
    rewrite (sg_end _ _ _ _ _ Hw Efin) in Hp. exact (path_before_final md _ _ _ _ f0 Hp Hf).
Qed.

Lemma relayed_events : Forall2 (message_event now) (sender_messages sent w) (relayed sent w).
Proof.
  apply Forall2_app.
  - apply Forall2_fmap_2, Forall_Forall2_diag, Forall_forall. intros f Hf.
    apply relayed_consistent in Hf. by constructor; apply Hf.
  - destruct (sent_fin _); repeat constructor.
Qed.
End sending.
End origin.

Lemma from_server_bytes res : Forall relay_event_ok res -> Forall is_byte (from_server res).
Proof.
  induction 1 as [| e res He _ IH]; [constructor |]. unfold from_server in *. cbn [flat_map].
  destruct e; [by apply Forall_app | done].
Qed.

(** A relay that has received all that a sender has written so far. *)
Lemma relay_simulates
    `{SL : SplayLaws quicrq_cached_fragment_t quicrq_fragment_cache_node_compare}
    {So : Splay okey quicrq_fragment_publisher_object_node_compare}
    {Al : Allocator} `{FL : FramesLaws} {PS : PicoStream} {PI : PicoStreamIds}
    (qr_mode : quicrq_congestion_control_enum) (duration now : Z)
    (default_source_fn : option (quicrq_ctx_t -> list Z -> quicrq_ctx_t * Z))
    (consumer_media_init_fn : option (list Z -> option (option quicrq_fragment_cache_t) * Z))
    (manage_relay_subscribe_fn : option (quicrq_ctx_t -> list Z -> quicrq_ctx_t))
    (md : media) fs sent final w r stream_id cg res :
  (forall n, malloc_ok n = true) ->
  (forall n is_fin active, picoquic_provide_stream_data_buffer n is_fin active = true) ->
  sendable md -> sending md fs sent final w -> relay_ready r stream_id cg ->
  Forall relay_event_ok res -> from_server res = sent_bytes (sw_calls w) ->
  exists r' es, relay_run qr_mode duration now default_source_fn consumer_media_init_fn
      manage_relay_subscribe_fn r res = Some r' /\
    sender_run qr_mode (sender_start stream_id cg) es = Some (rl_client r') /\
    valid_history md es /\ feed_events es = relayed now sent w /\ polls es = served res.
Proof.
  intros Hal Hpr Hsd Hw Hr Hok Hbytes.
  destruct (sg_framed _ _ _ _ _ Hw) as (bodies & Eb & Hdec). rewrite Eb in Hbytes.
  pose proof (from_server_bytes res Hok) as Hb. rewrite Hbytes in Hb.
  pose proof (relayed_events now md fs sent final w Hw) as Hev.
  pose proof (relayed_valid now md fs sent final w Hw) as Hv.
  pose proof (following_start qr_mode bodies (relayed now sent w) stream_id cg r Hr) as Hstart.
  rewrite <- Hbytes, <- (app_nil_r (from_server res)) in Hstart.
  destruct (following_run qr_mode duration now default_source_fn consumer_media_init_fn
    manage_relay_subscribe_fn Hal Hpr md Hsd _ bodies _ Hdec Hev Hv stream_id cg Hb res 0 [] [] [] r Hstart Hok)
    as (n & p & es & r' & E & Hf & Hp).
  assert (feed_events es = relayed now sent w) as Hfeeds by (eapply following_end; eauto).
  exists r', es. split; [done |]. split; [apply (fo_run _ _ _ _ _ _ _ _ _ _ Hf) |]. split; [| by split].
  apply (valid_history_sub md _ (relayed now sent w)); [done | apply (fo_spaces _ _ _ _ _ _ _ _ _ _ Hf) |].
  by rewrite Hfeeds.
Qed.

(** ** Chains of relays *)

Section chain.
Context {Sp : Splay quicrq_cached_fragment_t quicrq_fragment_cache_node_compare}.
Context {So : Splay okey quicrq_fragment_publisher_object_node_compare}.
Context {Al : Allocator} {PF : PicoFrames} {PS : PicoStream} {PI : PicoStreamIds}.

(** The senders that carry a media: one whose cache is fed by the origin of the
    media, and the sender of a relay that has received all that such a sender
    has written so far. *)
Inductive carries_media (md : media) : sender_world -> Prop :=
  | carries_origin qr_mode stream_id cg es w :
      valid_history md es -> sender_run qr_mode (sender_start stream_id cg) es = Some w ->
      carries_media md w
  | carries_relay qr_mode duration now default_source_fn consumer_media_init_fn
      manage_relay_subscribe_fn w r stream_id cg res r' :
      carries_media md w -> relay_ready r stream_id cg -> Forall relay_event_ok res ->
      from_server res = sent_bytes (sw_calls w) ->
      relay_run qr_mode duration now default_source_fn consumer_media_init_fn
        manage_relay_subscribe_fn r res = Some r' ->
      carries_media md (rl_client r').
End chain.

Lemma carries_sending
    `{SL : SplayLaws quicrq_cached_fragment_t quicrq_fragment_cache_node_compare}
    {So : Splay okey quicrq_fragment_publisher_object_node_compare}
    {Al : Allocator} `{FL : FramesLaws} {PS : PicoStream} {PI : PicoStreamIds} (md : media) w :
  (forall n, malloc_ok n = true) ->
  (forall n is_fin active, picoquic_provide_stream_data_buffer n is_fin active = true) ->
  sendable md -> carries_media md w -> exists fs sent final, sending md fs sent final w.
Proof.
  intros Hal Hpr Hsd Hw. induction Hw as [qr_mode stream_id cg es w Hv E |
    qr_mode duration now f1 f2 f3 w r stream_id cg res r' _ (fs & sent & final & Hw) Hr Hok Hb E].
  - destruct (run_valid qr_mode Hal Hpr md Hsd es stream_id cg Hv) as (w' & sent & final & E' & Hw).
    rewrite E in E'. injection E' as <-. by exists (arrived es), sent, final.
  - destruct (relay_simulates qr_mode duration now f1 f2 f3 md fs sent final w r stream_id cg res)
      as (r2 & es & E2 & Er & Hv & _); try done.
    rewrite E in E2. injection E2 as <-.
    destruct (run_valid qr_mode Hal Hpr md Hsd es stream_id cg Hv) as (w' & sent' & final' & E' & Hw').
    rewrite Er in E'. injection E' as <-. by exists (arrived es), sent', final'.
Qed.

(** [C3] A relay refines a sender.  The stream of a relay receives, in any
    pieces, what a sender of a media (the origin, or another relay) has written,
    and the relay serves a client from its cache, in any interleaving.  No call
    fails, and what the client gets is exactly what the sender of a history
    would send, in which the fragments that the first sender wrote arrive in
    order, then its final point, at the times when their messages are complete.
    This history is valid, so that what is proved of senders holds of the
    relay. *)
Theorem relay_refines_sender
    `{SL : SplayLaws quicrq_cached_fragment_t quicrq_fragment_cache_node_compare}
    {So : Splay okey quicrq_fragment_publisher_object_node_compare}
    {Al : Allocator} `{FL : FramesLaws} {PS : PicoStream} {PI : PicoStreamIds}
    (qr_mode : quicrq_congestion_control_enum) (duration now : Z)
    (default_source_fn : option (quicrq_ctx_t -> list Z -> quicrq_ctx_t * Z))
    (consumer_media_init_fn : option (list Z -> option (option quicrq_fragment_cache_t) * Z))
    (manage_relay_subscribe_fn : option (quicrq_ctx_t -> list Z -> quicrq_ctx_t))
    (md : media) (w : sender_world) (r : relay_world) (stream_id : Z)
    (cg : quicrq_cnx_congestion_state_t) (res : list relay_event) :
  (forall n, malloc_ok n = true) ->
  (forall n is_fin active, picoquic_provide_stream_data_buffer n is_fin active = true) ->
  sendable md -> carries_media md w -> relay_ready r stream_id cg ->
  Forall relay_event_ok res -> from_server res = sent_bytes (sw_calls w) ->
  exists sent r' es,
    path md (0, 0, 0) sent (stream_position (sw_stream w)) /\
    framed (sent_bytes (sw_calls w)) (sender_messages sent w) /\
    relay_run qr_mode duration now default_source_fn consumer_media_init_fn
      manage_relay_subscribe_fn r res = Some r' /\
    sender_run qr_mode (sender_start stream_id cg) es = Some (rl_client r') /\
    valid_history md es /\ feed_events es = relayed now sent w /\ polls es = served res.
Proof.
  intros Hal Hpr Hsd Hc Hr Hok Hb.
  destruct (carries_sending md w Hal Hpr Hsd Hc) as (fs & sent & final & Hw).
  destruct (relay_simulates qr_mode duration now default_source_fn consumer_media_init_fn
    manage_relay_subscribe_fn md fs sent final w r stream_id cg res Hal Hpr Hsd Hw Hr Hok Hb)
    as (r' & es & H).
  exists sent, r', es. split; [apply Hw |]. split; [apply Hw | done].
Qed.

(** [C2] A media through any number of relays.  The origin of a media sends it
    to a relay, which sends it to another one, and so on; each of them receives
    the bytes of the previous one in any pieces, and is polled at any time.  A
    receiver in order that has received what the last one wrote has been given
    exactly the objects before the position of the last sender: all of them,
    each once, in order, with their bytes; and it knows that the media is
    complete if the last sender has ended its stream. *)
Theorem relay_chain_end_to_end
    `{SL : SplayLaws quicrq_cached_fragment_t quicrq_fragment_cache_node_compare}
    {So : Splay okey quicrq_fragment_publisher_object_node_compare}
    `{SR : SplayLaws (Z * Z) quicrq_object_node_compare}
    {Al : Allocator} `{FL : FramesLaws} {PS : PicoStream} {PI : PicoStreamIds}
    {A : Type} (fn : A -> object_call -> A * Z) (a : A) (now : Z)
    (default_source_fn : option (quicrq_ctx_t -> list Z -> quicrq_ctx_t * Z))
    (consumer_media_init_fn : option (list Z ->
       option (option (quicrq_object_stream_consumer_ctx (App := A * list object_call))) * Z))
    (manage_relay_subscribe_fn : option (quicrq_ctx_t -> list Z -> quicrq_ctx_t))
    (md : media) (w : sender_world) (receiver : stream_world (So := So)) (chunks : list (list Z)) :
  (forall n, malloc_ok n = true) ->
  (forall n is_fin active, picoquic_provide_stream_data_buffer n is_fin active = true) ->
  (forall a c, (fn a c).2 = 0) ->
  sendable md -> carries_media md w ->
  ready_to_receive a receiver -> Forall (Forall is_byte) chunks ->
  concat chunks = sent_bytes (sw_calls w) ->
  exists w' x, receive_data (Co := bridge_consumer fn now) default_source_fn consumer_media_init_fn
      manage_relay_subscribe_fn receiver chunks = Some (w', 0) /\
    w_media w' = consuming (Some x) /\
    given_before md (st_next_group_id (sw_stream w)) (st_next_object_id (sw_stream w)) x /\
    (sent_fin (sw_calls w) = true -> st_is_receive_complete (w_stream w') = true).
Proof.
  intros Hal Hpr Hfn Hsd Hc Hready Hb Hchunks.
  destruct (carries_sending md w Hal Hpr Hsd Hc) as (fs & sent & final & Hw).
  by apply (application_receives fn a now default_source_fn consumer_media_init_fn
    manage_relay_subscribe_fn md fs sent final w receiver chunks).
Qed.

(** ** Witnesses *)
Module RelayDemo.
Definition server : stream_world (CS := option quicrq_fragment_cache_t) := {|
  w_qr := EndToEndDemo.qr; w_cnx := EndToEndDemo.cnx;
  w_stream := st_set_receive (stream_zero 4) quicrq_receive_fragment;
  w_media := consuming (Some quicrq_fragment_cache_create_ctx); w_source := None; w_notified := None |}.
Definition world : relay_world := {| rl_server := server; rl_client := sender_start 8 congestion_zero |}.
(** The pieces of [EndToEndDemo]; the client has smaller buffers. *)
Definition events : list relay_event :=
  [ToClient 100 0; FromServer [0];
   FromServer [11; 5; 0; 0; 0; 8; 128; 0; 3; 0; 0; 7; 0; 12; 5; 0; 0; 3; 8; 128; 5; 8; 9; 10; 11; 12; 0; 15];
   ToClient 100 1; ToClient 17 2; ToClient 17 3;
   FromServer [5; 0; 1; 0; 8; 128; 8; 0; 1; 7; 8; 9; 10; 11; 12; 0; 3]; ToClient 100 4; ToClient 100 5;
   FromServer [3; 0; 2]; ToClient 100 6; ToClient 100 7].
Abbreviation relay := (relay_run (Al := CacheDemo.malloc_always) (PS := SenderDemo.stream_ready)
  (PI := ReceiverDemo.next_ids) quicrq_congestion_control_none 0 7 None None None world events).
(** What the client is sent, byte by byte. *)
Definition chunks : list (list Z) := map (fun b => [b])
  [0; 11; 5; 0; 0; 0; 8; 128; 0; 3; 0; 0; 7; 0; 12; 5; 0; 0; 3; 8; 128; 5; 8; 9; 10; 11; 12;
   0; 15; 5; 0; 1; 0; 8; 128; 8; 0; 1; 7; 8; 9; 10; 11; 12; 0; 3; 3; 0; 2].
Abbreviation receive := (receive_data (Al := CacheDemo.malloc_always) (PI := ReceiverDemo.next_ids)
  (Co := bridge_consumer (Al := CacheDemo.malloc_always) ConsumerDemo.app 7) None None None
  EndToEndDemo.receiver chunks).

Lemma origin_runs : exists w, EndToEndDemo.run = Some w.
Proof.
  assert (option_map (fun _ => tt) EndToEndDemo.run = Some tt) as H by reflexivity.
  destruct EndToEndDemo.run as [w |]; [by exists w | discriminate H].
Qed.
Lemma relay_runs : exists r, relay = Some r.
Proof.
  assert (option_map (fun _ => tt) relay = Some tt) as H by reflexivity.
  destruct relay as [r |]; [by exists r | discriminate H].
Qed.
Lemma demo_history : valid_history CacheDemo.cache_media SenderDemo.events.
Proof.
  split; [exact SenderDemo.events_spaces | apply CacheDemo.parts_consistent | exact SenderDemo.events_sizes
         | apply CacheDemo.parts_no_overlap | exact SenderDemo.events_final].
Qed.
Lemma demo_ready : relay_ready world 8 congestion_zero.
Proof. split; [split; [exact eq_refl .. | split; exact eq_refl | exact eq_refl] | exact eq_refl | exact eq_refl]. Qed.
Lemma demo_events : Forall relay_event_ok events.
Proof. unfold events. repeat constructor; cbn; lia. Qed.

Lemma demo_carried w : EndToEndDemo.run = Some w ->
  carries_media (Al := CacheDemo.malloc_always) (PS := SenderDemo.stream_ready)
    (PI := ReceiverDemo.next_ids) CacheDemo.cache_media w.
Proof. intros E. eapply carries_origin; [exact demo_history | exact E]. Qed.
Lemma demo_relayed r : relay = Some r ->
  carries_media (Al := CacheDemo.malloc_always) (PS := SenderDemo.stream_ready)
    (PI := ReceiverDemo.next_ids) CacheDemo.cache_media (rl_client r).
Proof.
  intros E. destruct origin_runs as [w Er].
  eapply carries_relay; [exact (demo_carried w Er) | exact demo_ready | exact demo_events | | exact E].
  rewrite <- (EndToEndDemo.chunks_sent w Er). exact eq_refl.
Qed.
Lemma demo_bytes : Forall (Forall is_byte) chunks.
Proof. unfold chunks. cbn [map]. repeat constructor; done. Qed.
Lemma demo_chunks r : relay = Some r -> concat chunks = sent_bytes (sw_calls (rl_client r)).
Proof.
  intros E.
  assert (option_map (fun r => sent_bytes (sw_calls (rl_client r))) relay = Some (concat chunks)) as H
    by reflexivity.
  rewrite E in H. by injection H.
Qed.
End RelayDemo.

Lemma relay_refines_sender_witness :
  (exists w sent r' es, EndToEndDemo.run = Some w /\
    path CacheDemo.cache_media (0, 0, 0) sent (stream_position (sw_stream w)) /\
    framed (sent_bytes (sw_calls w)) (sender_messages sent w) /\
    RelayDemo.relay = Some r' /\
    sender_run (Al := CacheDemo.malloc_always) (PS := SenderDemo.stream_ready)
      quicrq_congestion_control_none (sender_start 8 congestion_zero) es = Some (rl_client r') /\
    valid_history CacheDemo.cache_media es /\ feed_events es = relayed 7 sent w /\
    polls es = served RelayDemo.events) /\
  option_map (fun r => (sent_bytes (sw_calls (rl_client r)), sent_fin (sw_calls (rl_client r))))
    RelayDemo.relay
  = Some ([0; 11; 5; 0; 0; 0; 8; 128; 0; 3; 0; 0; 7; 0; 12; 5; 0; 0; 3; 8; 128; 5; 8; 9; 10; 11; 12;
           0; 15; 5; 0; 1; 0; 8; 128; 8; 0; 1; 7; 8; 9; 10; 11; 12; 0; 3; 3; 0; 2], true).
Proof.
  split; [| reflexivity].
  destruct RelayDemo.origin_runs as [w E]. exists w.
  destruct (relay_refines_sender (Al := CacheDemo.malloc_always) (PS := SenderDemo.stream_ready)
    (PI := ReceiverDemo.next_ids) quicrq_congestion_control_none 0 7 None None None
    CacheDemo.cache_media w RelayDemo.world 8 congestion_zero RelayDemo.events)
    as (sent & r' & es & H).
  - intros n. exact eq_refl.
  - intros n is_fin active. exact eq_refl.
  - exact SenderDemo.demo_sendable.
  - exact (RelayDemo.demo_carried w E).
  - exact RelayDemo.demo_ready.
  - exact RelayDemo.demo_events.
  - rewrite <- (EndToEndDemo.chunks_sent w E). exact eq_refl.
  - exists sent, r', es. split; [exact E | exact H].
Defined.

Lemma relay_chain_end_to_end_witness :
  (exists r w' x, RelayDemo.relay = Some r /\ RelayDemo.receive = Some (w', 0) /\
    w_media w' = consuming (Some x) /\
    given_before CacheDemo.cache_media (st_next_group_id (sw_stream (rl_client r)))
      (st_next_object_id (sw_stream (rl_client r))) x /\
    (sent_fin (sw_calls (rl_client r)) = true -> st_is_receive_complete (w_stream w') = true)) /\
  option_map (fun r => match w_media r.1 with
                       | consuming (Some x) => map given (br_app (bc_bridge x)).2 | _ => [] end)
    RelayDemo.receive
  = Some [Some (0, 0, [0; 0; 7; 8; 9; 10; 11; 12]); Some (0, 1, [0; 1; 7; 8; 9; 10; 11; 12])].
Proof.
  split; [| reflexivity].
  destruct RelayDemo.relay_runs as [r E]. exists r.
  destruct (relay_chain_end_to_end (Al := CacheDemo.malloc_always) (PS := SenderDemo.stream_ready)
    (PI := ReceiverDemo.next_ids) ConsumerDemo.app 0 7 None None None CacheDemo.cache_media (rl_client r)
    EndToEndDemo.receiver RelayDemo.chunks) as (w' & x & H).
  - intros n. exact eq_refl.
  - intros n is_fin active. exact eq_refl.
  - intros ? ?. exact eq_refl.
  - exact SenderDemo.demo_sendable.
  - exact (RelayDemo.demo_relayed r E).
  - split; first [exact eq_refl | split; exact eq_refl].
  - exact RelayDemo.demo_bytes.
  - exact (RelayDemo.demo_chunks r E).
  - exists w', x. split; [exact E | exact H].
Defined.
