(* ===== verification/RelayCacheTheorems.v ===== *)
(** * What the cache of a relay guarantees

    The feed of a cache, from fragments in any order to its end, and the
    periodic management of the caches of a relay. *)

From S2P Require Import Prelude Picosplay PicoFrames Media Proto Fragment FragmentProofs FragmentHistory.
From S2P Require Import FragmentProgress FragmentTheorems PublisherContext Congestion Ack Publisher MsgBuffer StreamContext Warp.
From S2P Require Import ControlStream Connection ObjectSource Node Relay.

(** ** The feed of a cache *)

Inductive feed_event :=
  | Fragment (f : fragment)
  | Final (group_id object_id : Z).


(** The action for an event, and its time. *)
Definition feed_action (e : feed_event) : consumer_call * Z :=
  match e with
  | Fragment f =>
      (quicrq_media_datagram_ready (f_data f) (f_group f) (f_object f) (f_offset f) (f_delay f) (f_flags f)
         (f_nb_previous f) (f_object_length f) (f_data_length f), f_time f)
  | Final g o => (quicrq_media_final_object_id g o, 0)
  end.

Section feed.
Context `{Sp : Splay quicrq_cached_fragment_t quicrq_fragment_cache_node_compare} {Al : Allocator}.
Context (duration : Z).

(** The cache after the events, and the results of the calls. *)
Fixpoint relay_feed c (es : list feed_event) : option (quicrq_fragment_cache_t * list Z) :=
  match es with
  | [] => Some (c, [])
  | e :: es =>
      let '(action, now) := feed_action e in
      '(c, ret, _) ← relay_cache_action duration now c action;
      '(c, rets) ← relay_feed c es;
      Some (c, ret :: rets)
  end.

Definition final_point c : Z * Z := (fc_final_group_id c, fc_final_object_id c).
End feed.

(** ** What arrived *)






Section feed_proofs.
Context `{SL : SplayLaws quicrq_cached_fragment_t quicrq_fragment_cache_node_compare} {Al : Allocator}.
Context (duration : Z) (alloc_ok : forall n, malloc_ok n = true) (m : media).








End feed_proofs.


(** ** The management of the caches *)

Section manage.
Context `{Sp : Splay quicrq_cached_fragment_t quicrq_fragment_cache_node_compare}.
Context {So : Splay okey quicrq_fragment_publisher_object_node_compare}.
Context {CS : Type}.
Implicit Types (nd : node (CS := CS)) (src : quicrq_media_source_ctx_t).

(** A source that the relay feeds, closed and without readers. *)
Definition closed_source src : bool :=
  negb (ms_is_local_object_source src) && fc_is_feed_closed (ms_cache src) &&
  bool_decide (ms_streams src = []).
Definition due (now : Z) src : bool := closed_source src && (fc_cache_delete_time (ms_cache src) <=? now).
Definition pending (now : Z) src : bool :=
  closed_source src && (now <? fc_cache_delete_time (ms_cache src)).

(** The source is purged when it is real time. *)
Definition purges src : bool := negb (ms_is_local_object_source src) && ms_is_cache_real_time src.
(** A reader of the source: the group of the first object that it is sending. *)
Definition reader nd src (ref : Z * Z) : option (option Z) :=
  n ← find_cnx nd ref.1;
  k ← find_stream n ref.2;
  match k_media k with
  | publishing id m => if id =? ms_id src then Some (option_map fst (splay_first (pc_tree m))) else None
  | _ => None
  end.
Definition has_readers nd src (readers : list (option Z)) : Prop :=
  Forall2 (fun ref r => reader nd src ref = Some r) (ms_streams src) readers.

(** What remains of a source: its cache is purged for its readers, or is left
    alone. *)
Definition managed nd src src' : Prop :=
  if purges src then
    exists readers, has_readers nd src readers /\ src' = {|
      ms_id := ms_id src; ms_media_url := ms_media_url src;
      ms_cache := purge_to_gob (ms_cache src) readers;
      ms_is_local_object_source := ms_is_local_object_source src;
      ms_is_cache_real_time := ms_is_cache_real_time src; ms_streams := ms_streams src |}
  else src' = src.

(** The first time at which a pending source is due. *)
Definition next_due (now : Z) (srcs : list quicrq_media_source_ctx_t) (time : Z) : Z :=
  fold_left Z.min (map (fun src => fc_cache_delete_time (ms_cache src)) (List.filter (pending now) srcs)) time.

Lemma managed_id nd src src' : managed nd src src' -> ms_id src' = ms_id src.
Proof. unfold managed. destruct (purges src); [by intros (? & _ & ->) | by intros ->]. Qed.

Lemma readers_of_spec nd refs src : forall readers,
  Forall2 (fun ref r => reader nd src ref = Some r) refs readers ->
  is_Some (find_source (nd_qr nd) (ms_id src)) -> readers_of nd refs = Some readers.
Proof.
  induction refs as [| ref refs IH]; intros readers H [x Hx]; cbn [readers_of].
  { by apply Forall2_nil_inv_l in H as ->. }
  apply Forall2_cons_inv_l in H as (r & readers' & Hr & H & ->). unfold reader in Hr.
  destruct (find_cnx nd ref.1) as [n |]; [| done]. cbn [mbind option_bind] in Hr |- *.
  destruct (find_stream n ref.2) as [k |]; [| done]. cbn [mbind option_bind] in Hr |- *.
  unfold publisher_of. cbn [view w_media w_qr]. destruct (k_media k) as [| id p | cs]; [done | | done].
  destruct (Z.eqb_spec id (ms_id src)) as [-> |]; [| done]. injection Hr as <-.
  rewrite Hx. cbn [mbind option_bind]. by rewrite (IH readers').
Qed.

(** ** Sources in a list *)

Lemma find_source_middle qr srcs1 src srcs2 : qr_sources qr = srcs1 ++ src :: srcs2 ->
  Forall (fun x => ms_id x <> ms_id src) srcs1 -> find_source qr (ms_id src) = Some src.
Proof.
  intros E H. unfold find_source. rewrite E. clear E. induction H as [| x l Hx _ IH]; cbn.
  - by rewrite Z.eqb_refl.
  - by rewrite (proj2 (Z.eqb_neq _ _)).
Qed.

Lemma update_source_middle qr srcs1 src src' srcs2 : qr_sources qr = srcs1 ++ src :: srcs2 ->
  ms_id src' = ms_id src -> Forall (fun x => ms_id x <> ms_id src) (srcs1 ++ srcs2) ->
  qr_sources (update_source qr src') = srcs1 ++ src' :: srcs2.
Proof.
  intros E Hid H. unfold update_source. cbn [qr_sources qr_set_sources]. rewrite E, map_app. cbn [map].
  rewrite Hid, Z.eqb_refl. apply Forall_app in H as [H1 H2].
  assert (forall l, Forall (fun x => ms_id x <> ms_id src) l ->
    map (fun x => if ms_id x =? ms_id src then src' else x) l = l) as Hm.
  { induction 1 as [| x l Hx _ IH]; cbn; [done |]. by rewrite (proj2 (Z.eqb_neq _ _)), IH. }
  by rewrite !Hm.
Qed.

Lemma delete_source_middle qr srcs1 src srcs2 : qr_sources qr = srcs1 ++ src :: srcs2 ->
  Forall (fun x => ms_id x <> ms_id src) (srcs1 ++ srcs2) ->
  qr_sources (quicrq_delete_source qr (ms_id src)) = srcs1 ++ srcs2.
Proof.
  intros E H. unfold quicrq_delete_source. cbn [qr_sources qr_set_sources].
  rewrite E, List.filter_app. cbn [List.filter]. rewrite Z.eqb_refl. cbn [negb].
  apply Forall_app in H as [H1 H2].
  assert (forall l, Forall (fun x => ms_id x <> ms_id src) l ->
    List.filter (fun x => negb (ms_id x =? ms_id src)) l = l) as Hf.
  { induction 1 as [| x l Hx _ IH]; cbn; [done |]. by rewrite (proj2 (Z.eqb_neq _ _)), IH. }
  by rewrite !Hf.
Qed.

(** The connections and the duration are those of the first node. *)
Definition same_frame nd0 nd : Prop :=
  nd_cnxs nd = nd_cnxs nd0 /\ nd_object_sources nd = nd_object_sources nd0 /\
  nd_next nd = nd_next nd0 /\ qr_cache_duration_max (nd_qr nd) = qr_cache_duration_max (nd_qr nd0).

Lemma reader_frame nd0 nd src ref : same_frame nd0 nd -> reader nd src ref = reader nd0 src ref.
Proof. intros (E & _). unfold reader, find_cnx. by rewrite E. Qed.

(** The purge of a source, if it is real time. *)
Lemma purge_step nd0 nd srcs1 src srcs2 : same_frame nd0 nd ->
  qr_sources (nd_qr nd) = srcs1 ++ src :: srcs2 ->
  Forall (fun x => ms_id x <> ms_id src) (srcs1 ++ srcs2) ->
  ms_is_local_object_source src = false ->
  (purges src = true -> exists readers, has_readers nd0 src readers) ->
  exists nd' src', (if ms_is_cache_real_time src then quicrq_fragment_cache_media_purge_to_gob nd src
                    else Some nd) = Some nd' /\ same_frame nd0 nd' /\
    qr_sources (nd_qr nd') = srcs1 ++ src' :: srcs2 /\ managed nd0 src src'.
Proof.
  intros Hf E Hids Hl Hr.
  assert (ms_is_cache_real_time src = purges src) as -> by (unfold purges; by rewrite Hl).
  unfold managed. destruct (purges src); [| by exists nd, src].
  destruct (Hr eq_refl) as [readers Hrs]. unfold quicrq_fragment_cache_media_purge_to_gob.
  rewrite (readers_of_spec nd (ms_streams src) src readers).
  - cbn [mbind option_bind]. eexists _, _. split; [reflexivity |]. split; [done |].
    split; [by eapply update_source_middle |]. by exists readers.
  - eapply Forall2_impl; [exact Hrs |]. intros ref r. by rewrite (reader_frame nd0 nd).
  - apply Forall_app in Hids as [Hids _]. by rewrite (find_source_middle _ _ _ _ E).
Qed.

Lemma manage_source_spec nd0 nd srcs1 src srcs2 time needed now : same_frame nd0 nd ->
  qr_sources (nd_qr nd) = srcs1 ++ src :: srcs2 ->
  Forall (fun x => ms_id x <> ms_id src) (srcs1 ++ srcs2) ->
  0 < qr_cache_duration_max (nd_qr nd0) -> needed = (time <? UINT64_MAX) -> time <= UINT64_MAX ->
  (purges src = true -> exists readers, has_readers nd0 src readers) ->
  exists nd' news, manage_source nd src time needed now
      = Some (nd', next_due now [src] time, next_due now [src] time <? UINT64_MAX) /\
    same_frame nd0 nd' /\ qr_sources (nd_qr nd') = srcs1 ++ news ++ srcs2 /\
    Forall2 (managed nd0) (List.filter (negb ∘ due now) [src]) news.
Proof.
  intros Hf E Hids Hd -> Ht Hr. unfold manage_source, next_due, pending, due, closed_source, compose.
  cbn [List.filter].
  destruct (ms_is_local_object_source src) eqn:Hl; cbn [negb andb map fold_left].
  { exists nd, [src]. split_and!; try done. apply Forall2_cons. split; [| done].
    unfold managed, purges. by rewrite Hl. }
  destruct (purge_step nd0 nd srcs1 src srcs2 Hf E Hids Hl Hr) as (nd1 & src' & -> & Hf1 & E1 & Hm).
  cbn [mbind option_bind]. destruct Hf1 as (Hf1 & Hf2 & Hf3 & Hf4). rewrite Hf4, (proj2 (Z.ltb_lt _ _)) by done.
  cbn [andb]. destruct (fc_is_feed_closed (ms_cache src) && bool_decide (ms_streams src = [])); cbn [andb].
  2: { exists nd1, [src']. split_and!; try done. apply Forall2_cons. by split. }
  destruct (Z.leb_spec (fc_cache_delete_time (ms_cache src)) now).
  - rewrite (proj2 (Z.ltb_ge now _)) by lia. cbn [negb map fold_left].
    exists (nd_set_qr nd1 (quicrq_delete_source (nd_qr nd1) (ms_id src))), [].
    split; [done |]. split; [done |]. split; [| done].
    rewrite <- (managed_id _ _ _ Hm). cbn [nd_qr nd_set_qr]. eapply delete_source_middle; [exact E1 |].
    by rewrite (managed_id _ _ _ Hm).
  - rewrite (proj2 (Z.ltb_lt now _)) by lia. cbn [negb map fold_left].
    exists nd1, [src']. split; [| split_and!; try done; apply Forall2_cons; by split].
    destruct (Z.ltb_spec (fc_cache_delete_time (ms_cache src)) time).
    + rewrite Z.min_r by lia. rewrite (proj2 (Z.ltb_lt _ UINT64_MAX)) by lia. done.
    + by rewrite Z.min_l by lia.
Qed.

Lemma next_due_app now l1 l2 time : next_due now (l1 ++ l2) time = next_due now l2 (next_due now l1 time).
Proof. unfold next_due. by rewrite List.filter_app, map_app, fold_left_app. Qed.
Lemma next_due_le now l : forall time, next_due now l time <= time.
Proof.
  unfold next_due. induction (map _ _) as [| x xs IH]; intros time; cbn; [done |].
  specialize (IH (Z.min time x)). lia.
Qed.

Lemma manage_sources_spec nd0 now srcs2 : forall nd srcs1 time,
  same_frame nd0 nd -> qr_sources (nd_qr nd) = srcs1 ++ srcs2 ->
  Forall (fun x => Forall (fun y => ms_id x <> ms_id y) srcs1) srcs2 -> NoDup (map ms_id srcs2) ->
  0 < qr_cache_duration_max (nd_qr nd0) -> time <= UINT64_MAX ->
  (forall src, src ∈ srcs2 -> purges src = true -> exists readers, has_readers nd0 src readers) ->
  exists nd' news, manage_sources nd srcs2 time (time <? UINT64_MAX) now
      = Some (nd', next_due now srcs2 time, next_due now srcs2 time <? UINT64_MAX) /\
    same_frame nd0 nd' /\ qr_sources (nd_qr nd') = srcs1 ++ news /\
    Forall2 (managed nd0) (List.filter (negb ∘ due now) srcs2) news.
Proof.
  induction srcs2 as [| src srcs2 IH]; intros nd srcs1 time Hf E Hids Hnd Hd Ht Hr; cbn [manage_sources].
  { exists nd, []. by split_and!. }
  apply Forall_cons in Hids as [Hid Hids]. cbn [map] in Hnd. apply NoDup_cons in Hnd as [Hnin Hnd].
  destruct (manage_source_spec nd0 nd srcs1 src srcs2 time (time <? UINT64_MAX) now Hf E) as (nd1 & news1 & -> & Hf1 & E1 & Hm1);
    [| done | done | done | apply Hr; left |].
  { apply Forall_app. split; [eapply Forall_impl; [exact Hid |]; intros x Hx; cbn in *; congruence |].
    apply Forall_forall. intros x Hx Ex. apply Hnin. rewrite <- Ex. by apply list_elem_of_fmap_2. }
  cbn [mbind option_bind]. rewrite (assoc_L (++)) in E1.
  destruct (IH nd1 (srcs1 ++ news1) (next_due now [src] time) Hf1 E1) as (nd2 & news2 & E2 & Hf2 & Es & Hm2);
    [| done | done | pose proof (next_due_le now [src] time); lia | |].
  - apply Forall_forall. intros x Hx. apply Forall_app. split; [by eapply Forall_forall in Hids |].
    apply Forall_forall. intros y Hy.
    destruct (Forall2_lookup_r _ _ _ 0%nat y Hm1) as (s & Hs & Hms).
    { cbn [List.filter] in Hm1. destruct ((negb ∘ due now) src); [| by apply Forall2_nil_inv_l in Hm1 as ->; apply elem_of_nil in Hy].
      apply Forall2_cons_inv_l in Hm1 as (? & ? & _ & ->%Forall2_nil_inv_l & ->).
      by apply list_elem_of_singleton in Hy as ->. }
    apply managed_id in Hms as ->. cbn [List.filter] in Hs. destruct ((negb ∘ due now) src); [| done].
    injection Hs as <-. intros Ex. apply Hnin. rewrite <- Ex. by apply list_elem_of_fmap_2.
  - intros x Hx. apply Hr. by right.
  - exists nd2, (news1 ++ news2). change (src :: srcs2) with ([src] ++ srcs2).
    rewrite next_due_app, E2. split; [done |]. split; [done |]. split; [by rewrite Es, (assoc_L (++)) |].
    rewrite List.filter_app. by apply Forall2_app.
Qed.
End manage.

(** [C19] The management of the caches of a relay.  When the duration is set and
    the streams that read a real time source are its publishers, no call fails:
    the sources that are deleted are exactly those that the relay feeds, whose
    feed is closed, without readers, and whose time has come; the others are
    kept in order, purged for their readers if they are real time, and
    otherwise unchanged; the time returned is the first one at which another
    source is due, and a further check is needed exactly if there is one. *)
Theorem manage_relay_cache_exact
    {Sp : Splay quicrq_cached_fragment_t quicrq_fragment_cache_node_compare}
    {So : Splay okey quicrq_fragment_publisher_object_node_compare} {CS : Type}
    (rn : relay_node (CS := CS)) (now : Z) :
  let nd := rn_node rn in
  let srcs := qr_sources (nd_qr nd) in
  is_Some (rn_relay_ctx rn) -> 0 < qr_cache_duration_max (nd_qr nd) -> NoDup (map ms_id srcs) ->
  (forall src, src ∈ srcs -> purges src = true -> exists readers, has_readers nd src readers) ->
  exists rn' next_time, quicrq_manage_relay_cache rn now = Some (rn', next_time) /\
    Forall2 (managed nd) (List.filter (negb ∘ due now) srcs) (qr_sources (nd_qr (rn_node rn'))) /\
    next_time = next_due now srcs UINT64_MAX /\
    qr_is_cache_closing_needed (nd_qr (rn_node rn')) = (next_time <? UINT64_MAX) /\
    same_frame nd (rn_node rn').
Proof.
  intros nd srcs [ry Hry] Hd Hnd Hr. unfold quicrq_manage_relay_cache. rewrite Hry.
  fold nd. rewrite (proj2 (Z.ltb_lt 0 _)) by done. cbn [orb].
  destruct (manage_sources_spec nd now srcs nd [] UINT64_MAX) as (nd' & news & E & Hf & Es & Hm);
    try done; [by apply Forall_true |].
  change (UINT64_MAX <? UINT64_MAX) with false in E. fold srcs. rewrite E. cbn [mbind option_bind].
  eexists _, _. split; [reflexivity |]. cbn [rn_node rn_set_node nd_qr nd_set_qr qr_set_closing qr_sources
    qr_is_cache_closing_needed]. rewrite Es. done.
Qed.

(** ** Witnesses *)
Module RelayCacheDemo.
Import CacheDemo.

Definition source (id : Z) (c : quicrq_fragment_cache_t) (real_time : bool) streams
  : quicrq_media_source_ctx_t := {|
  ms_id := id; ms_media_url := [id]; ms_cache := c; ms_is_local_object_source := false;
  ms_is_cache_real_time := real_time; ms_streams := streams |}.
Definition closed (now : Z) : quicrq_fragment_cache_t := close_feed quicrq_fragment_cache_create_ctx 10 now.
(** A real time source with a reader, and sources that are due or will be. *)
Definition sources : list quicrq_media_source_ctx_t :=
  [source 1 quicrq_fragment_cache_create_ctx true [(7, 4)]; source 2 (closed 0) false [];
   source 3 (closed 100) false []; source 4 (closed 0) false [(7, 8)]; source 5 (closed 50) true []].
Definition publisher : quicrq_fragment_publisher_context_t :=
  (quicrq_fragment_publisher_subscribe quicrq_fragment_cache_create_ctx
     quicrq_congestion_control_none).1.1.
Definition reading : connection (CS := Z) := {|
  n_cnx := cnx_zero 7 true;
  n_streams := [{| k_stream := stream_zero 4; k_media := publishing 1 publisher; k_source := Some 1;
                   k_notified := None; k_ack := quicrq_datagram_ack_ctx_init 0 |}] |}.
Definition qr : quicrq_ctx_t := {|
  qr_sources := sources; qr_next_source := 6; qr_cache_duration_max := 10;
  qr_cache_check_next_time := 0; qr_is_cache_closing_needed := true; qr_useless_fragments := 0;
  qr_congestion_control_mode := quicrq_congestion_control_none |}.
Definition relay : relay_node (CS := Z) := {|
  rn_node := {| nd_qr := qr; nd_cnxs := [reading]; nd_object_sources := []; nd_next := 20 |};
  rn_relay_ctx := Some (9, {| ry_cnx := None; ry_transport_mode := quicrq_transport_mode_datagram;
                              ry_is_origin_only := false |});
  rn_default_source_ctx := Some 9; rn_consumer_media_init := Some relay_init;
  rn_manage_relay_cache := true; rn_manage_relay_subscribe := true |}.

(** Two whole objects and the beginning of a third one when the feed closes:
    the final point, which is exclusive, is (0, 1), and leaves object 1 out. *)
Example close_leaves_object_out :
  option_map (fun r => final_point (close_feed r.1 10 0))
    (relay_feed (Al := CacheDemo.malloc_always) 10 quicrq_fragment_cache_create_ctx
       [Fragment (CacheDemo.part 0 0 0 8); Fragment (CacheDemo.part 0 1 0 8);
        Fragment (CacheDemo.part 0 2 0 4)]) = Some (0, 1).
Proof. reflexivity. Qed.

Lemma demo_readers src : src ∈ sources -> purges src = true ->
  exists readers, has_readers (rn_node relay) src readers.
Proof.
  unfold sources. rewrite !elem_of_cons, elem_of_nil. intros H Hp. destruct_or! H; try done; subst src;
    try done.
  - exists [None]. apply Forall2_cons. split; [exact eq_refl | by apply Forall2_nil].
  - exists []. by apply Forall2_nil.
Qed.
End RelayCacheDemo.


Lemma manage_relay_cache_exact_witness :
  (exists rn' next_time, quicrq_manage_relay_cache RelayCacheDemo.relay 30000020 = Some (rn', next_time) /\
    Forall2 (managed (rn_node RelayCacheDemo.relay))
      (List.filter (negb ∘ due 30000020) RelayCacheDemo.sources) (qr_sources (nd_qr (rn_node rn'))) /\
    next_time = next_due 30000020 RelayCacheDemo.sources UINT64_MAX /\
    qr_is_cache_closing_needed (nd_qr (rn_node rn')) = (next_time <? UINT64_MAX) /\
    same_frame (rn_node RelayCacheDemo.relay) (rn_node rn')) /\
  option_map (fun r => (map ms_id (qr_sources (nd_qr (rn_node r.1))), r.2))
    (quicrq_manage_relay_cache RelayCacheDemo.relay 30000020) = Some ([1; 3; 4; 5], 30000050).
Proof.
  split; [| reflexivity].
  apply (manage_relay_cache_exact RelayCacheDemo.relay 30000020).
  - by eexists.
  - exact eq_refl.
  - cbn. apply (bool_decide_unpack _). exact I.
  - exact RelayCacheDemo.demo_readers.
Defined.
